(* ===== verification/_CoqProject ===== *)
-Q . S2P
Prelude.v
Word.v
Riscv.v
Param.v
Spinlock.v
Bio.v
BioSpec.v
Virtio.v
VirtioSpec.v
Log.v
LogSpec.v
LogCrash.v
LogTx.v
LogRefine.v
Mem.v
Printf.v
Str.v
Ulib.v
Kalloc.v
Vm.v
Asm.v
Start.v
Plic.v
VmSpec.v
VmUser.v
VmFree.v
VmCopy.v
KvmSpec.v
Ring.v
Pipe.v
Console.v
Uart.v
Primes.v
Grep.v
Find.v
Fs.v
File.v
FsSpec.v
FsBlock.v
FsInode.v
FsFile.v
FsWrite.v
FsDir.v
Mkfs.v
MkfsSpec.v
Proc.v
Syscall.v
Trap.v
Exec.v
Sysfile.v
Umalloc.v
UmallocSpec.v
Uprog.v
Sh.v
ShLex.v
ShParse.v
ShRun.v
Utils.v
ProcInv.v
ProcStep.v
TrapSpec.v
TrapKernel.v
Sched.v
SchedSpec.v
User.v
Coreutils.v
Init.v
Boot.v
BootSpec.v
