(* ===== verification/Prelude.v ===== *)
(** * Verification of the xv6-riscv kernel and its user programs

    The program is a small Unix: a kernel in C and assembly for a RISC-V machine
    with several harts ([src/kernel]), user programs ([src/user]) and the builder
    of the file system image ([src/mkfs]).  This library translates it into
    executable definitions, one for each C function with its guards, error
    returns and panics, and proves what the parts promise to each other.

    ** How code is modelled

    Kernel code is in the monad [K S A] of this file: it passes a state [S] and
    ends in a value, in [panic], asleep, in undefined behaviour (an access outside
    of an array, an overflow of a signed integer, memory that does not exist), or
    out of fuel.  [wp m Q s] says that [m] returns from [s] with [Q]: it excludes
    all the other outcomes.  [wlp] allows the code to sleep or to panic and is used
    only where a statement says so.  Integers are [Z] with the wrap-around of their
    C type written out ([Word.v]); structures on disk and page tables are the bytes
    that the code reads and writes.

    Code that other processes or harts interrupt is cut where that can happen: at
    the operations on spin-locks ([Spinlock.v], [Sched.v], [Boot.v]), or where a
    lock is given up to sleep ([Pipe.v], [Console.v], [Uart.v], [Virtio.v],
    [Proc.v]).  The pieces are steps of a relation, and the theorems are about
    every interleaving.  Elsewhere a section under a spin-lock is one step;
    [spinlock_exclusion] is what makes that sound on sequentially consistent
    memory.

    User programs are either functions over the interface [Sys] of [User.v], in
    which they end with a value or in [exit], or trees of the system calls they
    make ([Uprog.v], [Init.v]).

    ** The parts

    - [Prelude.v]: the monad, its rules and tactics.  [Word.v]: widths and byte
      encodings.  [Mem.v]: byte-addressed memory.  [Ring.v]: ring buffers.
      [Param.v]: [param.h], [fs.h], [stat.h].  [Riscv.v]: the registers of a hart
      and the functions of [riscv.h].
    - Locks.  [Spinlock.v] is [spinlock.c] with [cpuid] and [mycpu] of [proc.c];
      sleep-locks ([sleeplock.c]) are in [Bio.v].
    - Disk.  [Virtio.v] is [virtio_disk.c], and [VirtioSpec.v] runs driver, device
      and processes together.  [Bio.v] is the buffer cache [bio.c], specified in
      [BioSpec.v].  [Log.v] is [log.c]; [LogSpec.v] gives its exact disk writes,
      [LogCrash.v] and [LogTx.v] recovery and transactions, [LogRefine.v] the
      refinement of a log of two copies of the disk.
    - Files.  [Fs.v] is [fs.c], over the interface [BlockStore] that [Log.v]
      implements; its laws [StoreSpec] are proved for the log in [FsSpec.v].  The
      proofs are in [FsBlock.v] (the free map), [FsInode.v], [FsFile.v] and
      [FsWrite.v] (contents), [FsDir.v] (directories).  [File.v] is [file.c] and
      [pipealloc], [Sysfile.v] is [sysfile.c] with [syscall], [Pipe.v] is [pipe.c].
      [Mkfs.v] and [MkfsSpec.v] are [mkfs.c].
    - Memory.  [Kalloc.v] is [kalloc.c], [Vm.v] is [vm.c].  [VmSpec.v] relates page
      tables in memory to address spaces; [VmUser.v], [VmFree.v] and [VmCopy.v]
      treat user memory, [KvmSpec.v] the kernel's address space.
    - Processes.  [Proc.v] is the table of [proc.c], with the sections of [fork],
      [exit], [wait], [sleep], [wakeup] and [kill]; [ProcInv.v] and [ProcStep.v]
      interleave them.  [Sched.v] and [SchedSpec.v] are [scheduler], [sched],
      [yield], [sleep] and [wakeup] on several harts.  [Exec.v] is [exec.c],
      [Syscall.v] is [syscall.c] and [sysproc.c].
    - Traps.  [Asm.v] has the instructions of [trampoline.S], [kernelvec.S],
      [swtch.S], [entry.S] and [initcode.S]; [Trap.v] is [trap.c], composed with
      them in [TrapSpec.v] and [TrapKernel.v].  [Plic.v] is [plic.c].
    - Start.  [Start.v] is [start.c], [Boot.v] is [main.c] with [kvminit],
      [kvminithart], [consoleinit] and the other calls that it makes, and
      [BootSpec.v] shows that it leads to the initial state of [SchedSpec.v].
    - Devices and output.  [Console.v] is [console.c], [Uart.v] is [uart.c],
      [Printf.v] is both files [printf.c].
    - Strings and libraries.  [Str.v] is [string.c], [Ulib.v] is [ulib.c],
      [Umalloc.v] and [UmallocSpec.v] are [umalloc.c].
    - User programs.  [Sh.v] is [sh.c], with its tokens in [ShLex.v], its grammar in
      [ShParse.v] and the processes of a line in [ShRun.v].  [Primes.v], [Find.v]
      and [Grep.v] (the matcher) have a file each, [Init.v] is [init.c], [Utils.v]
      has [sleep], [xargs] and [pingpong], [Coreutils.v] has [cat], [wc], [grep],
      [ls], [echo], [rm], [mkdir], [ln] and [kill].

    ** What is shown

    - Crash safety: a crash after any disk write, also during recovery, leaves the
      durable contents of before or after the call that was running, and calls
      within the quota return ([crash_refinement], [log_progress],
      [recovery_completes]).
    - The disk driver implements a disk on which each request is atomic, never
      panics and loses no request ([virtio_atomic_disk], [virtio_never_stuck]).
    - Files: what is written is read back, over indirect blocks and with other
      files unchanged; a write of the chunk size fits in a transaction; what is
      linked is found; the image of [mkfs] satisfies the kernel's own invariants
      ([writei_readi], [writei_keeps_files], [writei_chunk_fits],
      [dirlink_dirlookup], [mkfs_image]).
    - Locks and scheduling: mutual exclusion, interrupts off while a lock is held,
      no process on two harts, no lost wake-up, no zombie without a living parent
      and no parent asleep beside a zombie ([spinlock_exclusion], [scheduler_safe],
      [wakeup_not_lost], [wait_misses_no_exit]).
    - Memory: pages are handed out once and filled; growing is all or nothing, but
      for the table pages that a failure leaves in the tree, copying copies,
      freeing leaks nothing, [copyin] reads what [copyout] wrote; the kernel's table
      maps what the layout says and nothing both writable and executable
      ([kalloc_disjoint], [uvmalloc_all_or_nothing], [uvmcopy_copies],
      [uvmfree_no_leak], [copyout_copyin], [kernel_space]).
    - Traps and start: a system call returns its value and keeps the registers, an
      interrupt is invisible, [swtch] returns where it was called, and in every
      interleaving of the harts the kernel boots ([user_syscall],
      [user_interrupt], [kernel_interrupt], [swtch_returns], [kernel_boots]).
    - Devices: order, delivery and line editing ([pipe_fifo], [uart_fifo],
      [consoleintr_edits]); [printf] prints what its format asks for, of the
      numbers that it can show ([formatted_output]).
    - User programs: the shell parses exactly its grammar and plumbs every program
      with three descriptors; [malloc] keeps blocks apart; [grep], [wc], [ls],
      [find], [primes] and [pingpong] do what they are for, however reads are split
      and processes interleaved; [primes] whichever of its calls of [pipe] and
      [fork] fail, and to the end where the file table is large enough.

    Flaws of the code that the proofs have to step around are theorems as well:
    [three_full_operations_panic], [killed_writer_skips_wakeup],
    [kill_zero_dooms_next_child], [sbrk_below_zero_ignored],
    [malloc_truncated_request], [printf_unsigned_overrun], [printf_negative],
    [vprintf_truncates], [find_full_name_overruns], [primes_pipe_fails], and the bound in [xargs_line].

    ** Parameters

    The addresses that the linker chooses are [kend], [etext], [trampoline] and
    those of functions; [linked] states their order and alignment.  The devices
    are classes with laws: [PlicDev] with [PlicLaws], which a controller in
    [Plic.v] satisfies; the registers of the disk in [Boot.v], with [disk_present];
    [translate] for the address translation of a hart in [Asm.v], while [mmu] of
    [KvmSpec.v] is the walk of the hardware.  [SysLaws] states what programs rely
    on of the system calls, and a machine in [Coreutils.v] satisfies it; it is not
    derived from the model of the kernel.  [DevOps]
    stands for pipes and devices below [File.v].

    ** Fuel

    Loops bounded by a constant or by an argument run that often.  Loops that follow
    a list or look for the end of a string get a bound computed from the data (the
    bytes of memory, the blocks of the free list, the length of the line), and a
    theorem that the function returns shows that it is enough.  Programs that
    read a file until its end have the number of reads as an argument, and their
    theorems ask for more than the length of the file.

    ** Not modelled

    - Test programs ([usertests.c], [grind.c], [forktest.c], [stressfs.c],
      [zombie.c]): they exercise the system calls and have no contract of their own.
    - Caches, the store buffers of a hart and the TLB: memory is sequentially
      consistent, and the fences of the code have no effect.  That a hart finds
      its page table through [satp] is part of [translate].
    - [panic] of the kernel, which prints and stops, is the outcome [Panic];
      [procdump] only prints; messages of the file system are left out.
    - The locks within one call of [main] in [Boot.v]; of these the one of [printf]
      lets messages of harts mix.
    - The user stack, of whose two pages each recursive call of [find] takes more
      than 512 bytes; failures of [pipe] and [fork] in [pingpong]; what [primes] does
      after such a failure; [kill] of the processes of [primes] and [pingpong].
    - The time that devices and processors take; the UART sends at any moment.
    - [defs.h], [types.h], the linker scripts, the Makefile and its tests. *)

From stdpp Require Export base functions numbers strings gmap fin_maps list.
From stdpp Require Export options.

#[global] Open Scope Z_scope.

(** ** Outcomes of kernel code

    A C function of the kernel either returns, stops the machine in [panic],
    or gives up the processor in [sleep].  [UB] is an access outside of a C
    array, which the language leaves undefined.  [NoFuel] is the outcome of a
    loop of the model that was given too few iterations; every theorem that
    says that a function returns excludes both. *)
Inductive res (A : Type) : Type :=
  | Ok (a : A)
  | Panic (msg : string)
  | Sleep (chan : string)
  | UB (where_ : string)
  | NoFuel.
Arguments Ok {A} a.
Arguments Panic {A} msg.
Arguments Sleep {A} chan.
Arguments UB {A} where_.
Arguments NoFuel {A}.

(** ** The kernel monad: state passing with outcomes *)
Definition K (S A : Type) : Type := S → res (A * S).

#[global] Instance K_ret {S} : MRet (K S) := λ A a s, Ok (a, s).
#[global] Instance K_bind {S} : MBind (K S) := λ A B f m s,
  match m s with
  | Ok (a, s') => f a s'
  | Panic e => Panic e
  | Sleep c => Sleep c
  | UB w => UB w
  | NoFuel => NoFuel
  end.

Declare Scope kernel_scope.
Delimit Scope kernel_scope with K.
#[global] Open Scope kernel_scope.

Section primitives.
Context {S : Type}.

Definition panic {A} (msg : string) : K S A := λ _, Panic msg.
Definition sleep_on {A} (chan : string) : K S A := λ _, Sleep chan.
Definition undefined {A} (w : string) : K S A := λ _, UB w.
Definition nofuel {A} : K S A := λ _, NoFuel.
Definition gets {A} (f : S → A) : K S A := λ s, Ok (f s, s).
Definition modify (f : S → S) : K S unit := λ s, Ok (tt, f s).
End primitives.

(** [if(b) c] without an else branch. *)
Definition when {S} (b : bool) (c : K S unit) : K S unit := if b then c else mret tt.

(** [if(b) panic(msg)]. *)
Definition panic_if {S} (b : bool) (msg : string) : K S unit :=
  if b then panic msg else mret tt.

(** Run a computation on a component of a larger state. *)
Definition lift {S T A} (get : T → S) (put : S → T → T) (m : K S A) : K T A := λ t,
  match m (get t) with
  | Ok (a, s') => Ok (a, put s' t)
  | Panic e => Panic e
  | Sleep c => Sleep c
  | UB w => UB w
  | NoFuel => NoFuel
  end.

(** [for(i = lo; ...; i++) body] over [n] iterations; a body that yields
    [Some r] leaves the loop (break or return) with [r]. *)
Fixpoint for_loop {S R} (n : nat) (i : Z) (body : Z → K S (option R)) : K S (option R) :=
  match n with
  | O => mret None
  | Datatypes.S n' =>
      r ← body i;
      match r with
      | Some x => mret (Some x)
      | None => for_loop n' (i + 1) body
      end
  end.

(** The same loop without a way out of it. *)
Fixpoint for_each {S} (n : nat) (i : Z) (body : Z → K S unit) : K S unit :=
  match n with
  | O => mret tt
  | Datatypes.S n' => body i;; for_each n' (i + 1) body
  end.

(** [while(1) body], left when the body yields [inr r]; the loop variables
    are the argument of the body. *)
Fixpoint while_loop {S X R} (fuel : nat) (x : X) (body : X → K S (X + R)) : K S R :=
  match fuel with
  | O => nofuel
  | Datatypes.S f =>
      r ← body x;
      match r with
      | inl x' => while_loop f x' body
      | inr y => mret y
      end
  end.

(** ** Computations that do the same *)
Section equiv.
Context {S : Type}.
#[global] Instance K_equiv {A} : Equiv (K S A) := λ m m', ∀ s, m s = m' s.
#[global] Instance K_equivalence {A} : Equivalence (≡@{K S A}).
Proof. split; [done|by intros m m' H s|intros m m' m'' H H' s; by rewrite H]. Qed.
#[global] Instance K_bind_proper {A B} :
  Proper (pointwise_relation A (≡@{K S B}) ==> (≡@{K S A}) ==> (≡@{K S B})) (mbind (M := K S)).
Proof. intros f g Hf m m' Hm s. unfold mbind, K_bind. rewrite Hm. destruct (m' s) as [[a s']| | | |]; [apply Hf|done..]. Qed.
Lemma K_bind_assoc {A B C} (m : K S A) (f : A → K S B) (g : B → K S C) : (m ≫= f) ≫= g ≡ m ≫= λ a, f a ≫= g.
Proof. intros s. unfold mbind, K_bind. by destruct (m s) as [[a s']| | | |]. Qed.
Lemma K_ret_bind {A B} (a : A) (f : A → K S B) : mret a ≫= f ≡ f a.
Proof. done. Qed.
Lemma K_bind_ret {A} (m : K S A) : m ≫= mret ≡ m.
Proof. intros s. unfold mbind, K_bind. by destruct (m s) as [[a s']| | | |]. Qed.
End equiv.

(** ** Weakest preconditions

    [wp m Q s]: run from [s], [m] returns a value and a state satisfying [Q];
    it neither panics, nor sleeps, nor runs out of fuel. *)
Definition wp {S A} (m : K S A) (Q : A → S → Prop) (s : S) : Prop :=
  match m s with
  | Ok (a, s') => Q a s'
  | _ => False
  end.

Section wp.
Context {S : Type}.
Implicit Types s : S.

Lemma wp_ok {A} (m : K S A) Q s :
  wp m Q s ↔ ∃ a s', m s = Ok (a, s') ∧ Q a s'.
Proof.
  unfold wp. destruct (m s) as [[a s']| | | |]; naive_solver.
Qed.

Lemma wp_elim {A} (m : K S A) Q s a s' : wp m Q s → m s = Ok (a, s') → Q a s'.
Proof. unfold wp. intros H E. by rewrite E in H. Qed.

(** Runs with a given result. *)
Lemma wp_run {A} (m : K S A) s a s' : wp m (λ b t, b = a ∧ t = s') s → m s = Ok (a, s').
Proof. unfold wp. destruct (m s) as [[b t]| | | |]; [|done..]. by intros [-> ->]. Qed.
Lemma wp_returns (m : K S unit) s : wp m (λ _ _, True) s → ∃ s', m s = Ok (tt, s').
Proof. unfold wp. destruct (m s) as [[[] t]| | | |]; [|done..]. eauto. Qed.

Lemma wp_mono {A} (m : K S A) (Q Q' : A → S → Prop) s :
  wp m Q s → (∀ a s', Q a s' → Q' a s') → wp m Q' s.
Proof. rewrite !wp_ok. naive_solver. Qed.

Lemma wp_ret {A} (a : A) (Q : A → S → Prop) s : Q a s → wp (mret a) Q s.
Proof. done. Qed.

Lemma wp_bind {A B} (m : K S A) (f : A → K S B) Q s :
  wp m (λ a s', wp (f a) Q s') s → wp (m ≫= f) Q s.
Proof.
  unfold wp, mbind, K_bind. by destruct (m s) as [[a s']| | | |].
Qed.

Lemma wp_bind_inv {A B} (m : K S A) (f : A → K S B) Q s :
  wp (m ≫= f) Q s → wp m (λ a s', wp (f a) Q s') s.
Proof.
  unfold wp, mbind, K_bind. by destruct (m s) as [[a s']| | | |].
Qed.

(** A spec of the first computation, used as a rule for the sequence. *)
Lemma wp_seq {A B} (m : K S A) (f : A → K S B) (R : A → S → Prop) Q s :
  wp m R s → (∀ a s', R a s' → wp (f a) Q s') → wp (m ≫= f) Q s.
Proof. intros H1 H2. apply wp_bind. by eapply wp_mono. Qed.

Lemma wp_gets {A} (f : S → A) (Q : A → S → Prop) s : Q (f s) s → wp (gets f) Q s.
Proof. done. Qed.

Lemma wp_modify (f : S → S) (Q : unit → S → Prop) s : Q tt (f s) → wp (modify f) Q s.
Proof. done. Qed.

Lemma wp_when (b : bool) (c : K S unit) (Q : unit → S → Prop) s :
  (b = true → wp c Q s) → (b = false → Q tt s) → wp (when b c) Q s.
Proof. destruct b; naive_solver. Qed.

Lemma wp_panic_if (b : bool) msg (Q : unit → S → Prop) s :
  b = false → Q tt s → wp (panic_if b msg) Q s.
Proof. by intros ->. Qed.

(** Loop rules: an invariant indexed by the loop variable. *)
Lemma wp_for_loop {R} (I : Z → S → Prop) (Q : option R → S → Prop) body n i s :
  I i s →
  (∀ j s, i ≤ j < i + Z.of_nat n → I j s →
     wp (body j) (λ r s', match r with
                          | None => I (j + 1) s'
                          | Some x => Q (Some x) s'
                          end) s) →
  (∀ s, I (i + Z.of_nat n) s → Q None s) →
  wp (for_loop n i body) Q s.
Proof.
  revert i s. induction n as [|n IH]; intros i s HI Hbody Hend; simpl.
  - apply Hend. by replace (i + Z.of_nat 0) with i by lia.
  - eapply wp_seq; [apply Hbody; [lia|done]|].
    intros [x|] s' Hs'; [done|].
    apply IH; [done| |].
    + intros j s'' Hj. apply Hbody. lia.
    + intros s'' Hs''. apply Hend.
      by replace (i + Z.of_nat (Datatypes.S n)) with (i + 1 + Z.of_nat n) by lia.
Qed.

Lemma wp_for_each (I : Z → S → Prop) (Q : unit → S → Prop) body n i s :
  I i s →
  (∀ j s, i ≤ j < i + Z.of_nat n → I j s → wp (body j) (λ _ s', I (j + 1) s') s) →
  (∀ s, I (i + Z.of_nat n) s → Q tt s) →
  wp (for_each n i body) Q s.
Proof.
  revert i s. induction n as [|n IH]; intros i s HI Hbody Hend; simpl.
  - apply Hend. by replace (i + Z.of_nat 0) with i by lia.
  - eapply wp_seq; [apply Hbody; [lia|done]|].
    intros u s' Hs'. apply IH; [done| |].
    + intros j s'' Hj. apply Hbody. lia.
    + intros s'' Hs''. apply Hend.
      by replace (i + Z.of_nat (Datatypes.S n)) with (i + 1 + Z.of_nat n) by lia.
Qed.

(** [while(1)] with a variant below the fuel: the invariant is indexed by it. *)
Lemma wp_while_loop {X R} (I : nat → X → S → Prop) (Q : R → S → Prop) body fuel n x s :
  I n x s → (n < fuel)%nat →
  (∀ n x s, I n x s →
     wp (body x) (λ r s', match r with
                          | inl x' => ∃ n', (n' < n)%nat ∧ I n' x' s'
                          | inr y => Q y s'
                          end) s) →
  wp (while_loop fuel x body) Q s.
Proof.
  revert n x s. induction fuel as [|f IH]; intros n x s HI Hm Hbody; [lia|]. simpl.
  eapply wp_seq; [by eapply Hbody|].
  intros [x'|y] s' Hs'; [|done]. destruct Hs' as (n' & Hlt & HI').
  eapply IH; [done|lia|done].
Qed.

(** More fuel never hurts. *)
Lemma while_loop_fuel {X R} body (f1 f2 : nat) (x : X) s (r : R) s' :
  while_loop f1 x body s = Ok (r, s') → (f1 ≤ f2)%nat →
  while_loop f2 x body s = Ok (r, s').
Proof.
  revert f2 x s. induction f1 as [|f1 IH]; intros f2 x s H Hle; [done|].
  destruct f2 as [|f2]; [lia|]. simpl in *.
  unfold mbind, K_bind in *.
  destruct (body x s) as [[[x'|y] s1]| | | |]; try done. apply IH; [done|lia].
Qed.
End wp.

(** The state after a computation that returns. *)
Definition after {A S} (r : res (A * S)) (s : S) : S := match r with Ok (_, s') => s' | _ => s end.
Lemma after_ok {A S} (r : res (A * S)) (s : S) a :
  match r with Ok (x, _) => Some x | _ => None end = Some a → r = Ok (a, after r s).
Proof. destruct r as [[x s']| | | |]; [|done..]. by intros [= ->]. Qed.

Lemma wp_lift {S T A} (get : T → S) (put : S → T → T) (m : K S A) (Q : A → T → Prop) t :
  wp m (λ a s', Q a (put s' t)) (get t) → wp (lift get put m) Q t.
Proof. unfold wp, lift. by destruct (m (get t)) as [[a s']| | | |]. Qed.

(** ** Symbolic execution of straight-line code *)
Ltac wp_step :=
  lazymatch goal with
  | |- wp (mbind _ _) _ _ => apply wp_bind
  | |- wp (mret _) _ _ => apply wp_ret
  | |- wp (gets _) _ _ => apply wp_gets
  | |- wp (modify _) _ _ => apply wp_modify
  | |- wp (lift _ _ _) _ _ => apply wp_lift
  end; cbv beta.
Ltac wp_steps := repeat wp_step.

(** ** Partial correctness

    [wlp m Q s]: if [m] returns then its result satisfies [Q].  Safety
    invariants are proved with it; that functions return is a matter of [wp]. *)
Definition wlp {S A} (m : K S A) (Q : A → S → Prop) (s : S) : Prop :=
  match m s with
  | Ok (a, s') => Q a s'
  | _ => True
  end.

Section wlp.
Context {S : Type}.
Implicit Types s : S.

Lemma wlp_elim {A} (m : K S A) Q s a s' : wlp m Q s → m s = Ok (a, s') → Q a s'.
Proof. unfold wlp. intros H E. by rewrite E in H. Qed.

Lemma wlp_intro {A} (m : K S A) (Q : A → S → Prop) s :
  (∀ a s', m s = Ok (a, s') → Q a s') → wlp m Q s.
Proof. unfold wlp. destruct (m s) as [[a s']| | | |]; naive_solver. Qed.

Lemma wlp_mono {A} (m : K S A) (Q Q' : A → S → Prop) s :
  wlp m Q s → (∀ a s', Q a s' → Q' a s') → wlp m Q' s.
Proof. unfold wlp. destruct (m s) as [[a s']| | | |]; naive_solver. Qed.

Lemma wlp_wp {A} (m : K S A) Q s : wp m Q s → wlp m Q s.
Proof. unfold wp, wlp. by destruct (m s) as [[a s']| | | |]. Qed.

Lemma wlp_ret {A} (a : A) (Q : A → S → Prop) s : Q a s → wlp (mret a) Q s.
Proof. done. Qed.

Lemma wlp_bind {A B} (m : K S A) (f : A → K S B) Q s :
  wlp m (λ a s', wlp (f a) Q s') s → wlp (m ≫= f) Q s.
Proof. unfold wlp, mbind, K_bind. by destruct (m s) as [[a s']| | | |]. Qed.

Lemma wlp_seq {A B} (m : K S A) (f : A → K S B) (R : A → S → Prop) Q s :
  wlp m R s → (∀ a s', R a s' → wlp (f a) Q s') → wlp (m ≫= f) Q s.
Proof. intros H1 H2. apply wlp_bind. by eapply wlp_mono. Qed.

Lemma wlp_gets {A} (f : S → A) (Q : A → S → Prop) s : Q (f s) s → wlp (gets f) Q s.
Proof. done. Qed.

Lemma wlp_modify (f : S → S) (Q : unit → S → Prop) s : Q tt (f s) → wlp (modify f) Q s.
Proof. done. Qed.

Lemma wlp_when (b : bool) (c : K S unit) (Q : unit → S → Prop) s :
  (b = true → wlp c Q s) → (b = false → Q tt s) → wlp (when b c) Q s.
Proof. destruct b; naive_solver. Qed.

Lemma wlp_panic_if (b : bool) msg (Q : unit → S → Prop) s :
  (b = false → Q tt s) → wlp (panic_if b msg) Q s.
Proof. destruct b; naive_solver. Qed.

Lemma wlp_stop {A} (m : K S A) (Q : A → S → Prop) s : (∀ a s', m s ≠ Ok (a, s')) → wlp m Q s.
Proof. intros H. apply wlp_intro. intros a s' E. by destruct (H a s'). Qed.

Lemma wlp_for_each (I : Z → S → Prop) (Q : unit → S → Prop) body n i s :
  I i s →
  (∀ j s, i ≤ j < i + Z.of_nat n → I j s → wlp (body j) (λ _ s', I (j + 1) s') s) →
  (∀ s, I (i + Z.of_nat n) s → Q tt s) →
  wlp (for_each n i body) Q s.
Proof.
  revert i s. induction n as [|n IH]; intros i s HI Hbody Hend; simpl.
  - apply Hend. by replace (i + Z.of_nat 0) with i by lia.
  - eapply wlp_seq; [apply Hbody; [lia|done]|].
    intros u s' Hs'. apply IH; [done| |].
    + intros j s'' Hj. apply Hbody. lia.
    + intros s'' Hs''. apply Hend.
      by replace (i + Z.of_nat (Datatypes.S n)) with (i + 1 + Z.of_nat n) by lia.
Qed.

Lemma wlp_for_loop {R} (I : Z → S → Prop) (Q : option R → S → Prop) body n i s :
  I i s →
  (∀ j s, i ≤ j < i + Z.of_nat n → I j s →
     wlp (body j) (λ r s', match r with None => I (j + 1) s' | Some x => Q (Some x) s' end) s) →
  (∀ s, I (i + Z.of_nat n) s → Q None s) →
  wlp (for_loop n i body) Q s.
Proof.
  revert i s. induction n as [|n IH]; intros i s HI Hbody Hend; simpl.
  - apply Hend. by replace (i + Z.of_nat 0) with i by lia.
  - eapply wlp_seq; [apply Hbody; [lia|done]|].
    intros [x|] s' Hs'; [done|]. apply IH; [done| |].
    + intros j s'' Hj. apply Hbody. lia.
    + intros s'' Hs''. apply Hend.
      by replace (i + Z.of_nat (Datatypes.S n)) with (i + 1 + Z.of_nat n) by lia.
Qed.

Lemma wlp_while_loop {X R} (I : X → S → Prop) (Q : R → S → Prop) body fuel x s :
  I x s →
  (∀ x s, I x s →
     wlp (body x) (λ r s', match r with inl x' => I x' s' | inr y => Q y s' end) s) →
  wlp (while_loop fuel x body) Q s.
Proof.
  revert x s. induction fuel as [|f IH]; intros x s HI Hbody; [done|]. simpl.
  eapply wlp_seq; [by apply Hbody|]. intros [x'|y] s' Hs'; [by apply IH|done].
Qed.
End wlp.

(** An operation of a component leaves the rest of the state alone. *)
Lemma wlp_lift {S T A} (get : T → S) (put : S → T → T) (m : K S A) (Q : A → T → Prop) t :
  (∀ a s', m (get t) = Ok (a, s') → Q a (put s' t)) → wlp (lift get put m) Q t.
Proof. unfold wlp, lift. destruct (m (get t)) as [[a s']| | | |]; naive_solver. Qed.

(** A goal about the final state of a run [E] becomes one about the program. *)
Ltac run_elim E :=
  lazymatch type of E with
  | _ = Ok (_, ?x) =>
      lazymatch goal with
      | |- ?G => let P := eval pattern x in G in lazymatch P with ?f _ => refine (wlp_elim _ (λ _ z, f z) _ _ _ _ E); clear E; cbv beta end
      end
  end.

Ltac wlp_step :=
  lazymatch goal with
  | |- wlp (mbind _ _) _ _ => apply wlp_bind
  | |- wlp (mret _) _ _ => apply wlp_ret
  | |- wlp (gets _) _ _ => apply wlp_gets
  | |- wlp (modify _) _ _ => apply wlp_modify
  | |- wlp (panic_if _ _) _ _ => apply wlp_panic_if; intros ?
  | |- wlp (panic _) _ _ => exact I
  | |- wlp (undefined _) _ _ => exact I
  | |- wlp nofuel _ _ => exact I
  | |- wlp (sleep_on _) _ _ => exact I
  end; cbv beta.
Ltac wlp_steps := repeat wlp_step.
