(* ===== verification/Word.v ===== *)
(** * Machine integers and byte encodings

    Fixed-width integers are [Z] values kept in range by an explicit
    wrap-around; structures stored in disk blocks and pages are read and
    written through little-endian fields of byte lists. *)

From S2P Require Import Prelude.

(** ** Widths of the C types *)
Definition wrap (w x : Z) : Z := x mod 2 ^ w.
Definition u8 (x : Z) : Z := wrap 8 x.
Definition u16 (x : Z) : Z := wrap 16 x.
Definition u32 (x : Z) : Z := wrap 32 x.
Definition u64 (x : Z) : Z := wrap 64 x.

(** Conversion to the signed type of the same width. *)
Definition swrap (w x : Z) : Z := (x + 2 ^ (w - 1)) mod 2 ^ w - 2 ^ (w - 1).
Definition s16 (x : Z) : Z := swrap 16 x.
Definition s32 (x : Z) : Z := swrap 32 x.

Lemma wrap_range w x : 0 ≤ w → 0 ≤ wrap w x < 2 ^ w.
Proof. intros. apply Z.mod_pos_bound. lia. Qed.

Lemma wrap_small w x : 0 ≤ x < 2 ^ w → wrap w x = x.
Proof. apply Z.mod_small. Qed.

Lemma wrap_wrap w x : 0 ≤ w → wrap w (wrap w x) = wrap w x.
Proof. intros. apply wrap_small, wrap_range. done. Qed.

Lemma swrap_range w x : 0 < w → - 2 ^ (w - 1) ≤ swrap w x < 2 ^ (w - 1).
Proof.
  intros. unfold swrap.
  assert (2 ^ w = 2 * 2 ^ (w - 1)) as Hw by (rewrite <-Z.pow_succ_r by lia; f_equal; lia).
  pose proof (Z.mod_pos_bound (x + 2 ^ (w - 1)) (2 ^ w)). lia.
Qed.

Lemma swrap_small w x : 0 < w → - 2 ^ (w - 1) ≤ x < 2 ^ (w - 1) → swrap w x = x.
Proof.
  intros. unfold swrap.
  assert (2 ^ w = 2 * 2 ^ (w - 1)) as Hw by (rewrite <-Z.pow_succ_r by lia; f_equal; lia).
  rewrite Z.mod_small by lia. lia.
Qed.

(** ** Little-endian encodings *)
Fixpoint le_bytes (n : nat) (x : Z) : list Z :=
  match n with
  | O => []
  | S n' => x mod 256 :: le_bytes n' (x / 256)
  end.

Fixpoint of_le (bs : list Z) : Z :=
  match bs with
  | [] => 0
  | b :: bs' => b + 256 * of_le bs'
  end.

(** A list of bytes. *)
Definition is_byte (b : Z) : Prop := 0 ≤ b < 256.
Definition bytes (bs : list Z) : Prop := Forall is_byte bs.

Lemma length_le_bytes n x : length (le_bytes n x) = n.
Proof. revert x. induction n; intros; simpl; auto. Qed.

Lemma le_bytes_bytes n x : bytes (le_bytes n x).
Proof.
  revert x. induction n as [|n IH]; intros x; constructor.
  - apply Z.mod_pos_bound. lia.
  - apply IH.
Qed.

Lemma pow256_S n : 256 ^ Z.of_nat (S n) = 256 * 256 ^ Z.of_nat n.
Proof. rewrite Nat2Z.inj_succ, Z.pow_succ_r by lia. done. Qed.

Lemma of_le_le_bytes n x : of_le (le_bytes n x) = x mod 256 ^ Z.of_nat n.
Proof.
  revert x. induction n as [|n IH]; intros x.
  - simpl. by rewrite Z.mod_1_r.
  - cbn [le_bytes of_le]. rewrite IH, pow256_S, Z.rem_mul_r by lia. done.
Qed.

Lemma of_le_le_bytes_small n x : 0 ≤ x < 256 ^ Z.of_nat n → of_le (le_bytes n x) = x.
Proof. intros. rewrite of_le_le_bytes. by apply Z.mod_small. Qed.

Lemma of_le_range bs : bytes bs → 0 ≤ of_le bs < 256 ^ Z.of_nat (length bs).
Proof.
  induction 1 as [|b bs Hb _ IH]; [simpl; lia|].
  cbn [of_le length]. rewrite pow256_S. unfold is_byte in Hb. lia.
Qed.

Lemma le_bytes_of_le bs : bytes bs → le_bytes (length bs) (of_le bs) = bs.
Proof.
  induction 1 as [|b bs Hb _ IH]; [done|]. cbn [of_le length le_bytes].
  unfold is_byte in Hb. rewrite (Z.mul_comm 256). f_equal.
  - rewrite Z.mod_add by lia. by apply Z.mod_small.
  - by rewrite Z.div_add, (Z.div_small b) by lia.
Qed.

(** ** Overwriting a range of a byte array *)
Definition splice (l : list Z) (off : nat) (l' : list Z) : list Z :=
  take off l ++ l' ++ drop (off + length l') l.
Definition slice (l : list Z) (off n : nat) : list Z := take n (drop off l).

Lemma length_splice l off l' :
  (off + length l' ≤ length l)%nat → length (splice l off l') = length l.
Proof. intros. unfold splice. rewrite !length_app, length_take, length_drop. lia. Qed.

Lemma length_slice l off n : (off + n ≤ length l)%nat → length (slice l off n) = n.
Proof. intros. unfold slice. rewrite length_take, length_drop. lia. Qed.

Lemma lookup_splice l off l' i :
  (off + length l' ≤ length l)%nat →
  splice l off l' !! i =
    if decide (off ≤ i < off + length l')%nat then l' !! (i - off)%nat else l !! i.
Proof.
  intros Hl. unfold splice. case_decide as Hi.
  - rewrite lookup_app_r by (rewrite length_take; lia).
    rewrite lookup_app_l by (rewrite length_take; lia).
    f_equal. rewrite length_take. lia.
  - destruct (decide (i < off)%nat).
    + rewrite lookup_app_l by (rewrite length_take; lia). by rewrite lookup_take_lt by lia.
    + rewrite !lookup_app_r by (rewrite ?length_take; lia).
      rewrite lookup_drop. f_equal. rewrite length_take. lia.
Qed.

Lemma lookup_slice l off n i :
  slice l off n !! i = if decide (i < n)%nat then l !! (off + i)%nat else None.
Proof.
  unfold slice. case_decide.
  - by rewrite lookup_take_lt, lookup_drop by lia.
  - by rewrite lookup_take_ge by lia.
Qed.

Lemma slice_splice_same l off l' :
  (off + length l' ≤ length l)%nat → slice (splice l off l') off (length l') = l'.
Proof.
  intros. apply list_eq. intros i. rewrite lookup_slice. case_decide.
  - rewrite lookup_splice by done. rewrite decide_True by lia. f_equal. lia.
  - rewrite lookup_ge_None_2; [done|lia].
Qed.

Lemma slice_splice_disjoint l off l' off' n :
  (off + length l' ≤ length l)%nat →
  (off' + n ≤ off ∨ off + length l' ≤ off')%nat →
  slice (splice l off l') off' n = slice l off' n.
Proof.
  intros Hl Hd. apply list_eq. intros i. rewrite !lookup_slice. case_decide; [|done].
  rewrite lookup_splice by done. rewrite decide_False by lia. done.
Qed.

Lemma splice_bytes l off l' : bytes l → bytes l' → bytes (splice l off l').
Proof.
  intros. unfold splice, bytes. rewrite !Forall_app.
  auto using Forall_take, Forall_drop.
Qed.

Lemma slice_bytes l off n : bytes l → bytes (slice l off n).
Proof. intros. unfold slice, bytes. auto using Forall_take, Forall_drop. Qed.

(** Fields of structures: [n]-byte little-endian integers at a byte offset. *)
Definition getn (n : nat) (d : list Z) (off : nat) : Z := of_le (slice d off n).
Definition putn (n : nat) (d : list Z) (off : nat) (v : Z) : list Z := splice d off (le_bytes n v).

Abbreviation get16 := (getn 2).
Abbreviation put16 := (putn 2).
Abbreviation get32 := (getn 4).
Abbreviation put32 := (putn 4).
Abbreviation get64 := (getn 8).
Abbreviation put64 := (putn 8).

Section fields.
Implicit Types (d : list Z) (n off : nat).

Lemma length_putn n d off v : (off + n ≤ length d)%nat → length (putn n d off v) = length d.
Proof. intros. unfold putn. apply length_splice. by rewrite length_le_bytes. Qed.

Lemma putn_bytes n d off v : bytes d → bytes (putn n d off v).
Proof. intros. apply splice_bytes; [done|apply le_bytes_bytes]. Qed.

Lemma getn_putn_same n d off v :
  (off + n ≤ length d)%nat → getn n (putn n d off v) off = v mod 256 ^ Z.of_nat n.
Proof.
  intros. unfold getn, putn. rewrite <-of_le_le_bytes. f_equal.
  etrans; [|apply (slice_splice_same d off)]; by rewrite length_le_bytes.
Qed.

Lemma getn_putn_ne n m d off off' v :
  (off + m ≤ length d)%nat → (off' + n ≤ off ∨ off + m ≤ off')%nat →
  getn n (putn m d off v) off' = getn n d off'.
Proof.
  intros. unfold getn, putn. rewrite slice_splice_disjoint; rewrite ?length_le_bytes; done.
Qed.

Lemma getn_range n d off :
  (off + n ≤ length d)%nat → bytes d → 0 ≤ getn n d off < 256 ^ Z.of_nat n.
Proof.
  intros Hl Hb. unfold getn.
  pose proof (of_le_range _ (slice_bytes d off n Hb)) as Hr.
  by rewrite length_slice in Hr.
Qed.
End fields.

#[global] Opaque getn putn.

Create HintDb bytes.
#[export] Hint Resolve le_bytes_bytes splice_bytes slice_bytes putn_bytes : bytes.
