(* ===== verification/Riscv.v ===== *)
(** * The registers of a processor ([kernel/riscv.h])

    A hart has its general registers, the control and status registers, a
    program counter and a privilege mode.  [sstatus] is a view of [mstatus], and
    [sie] and [sip] are views of [mie] and [mip] through [mideleg], as the RISC-V
    privileged architecture says.  Registers hold what was written to them:
    fields that an implementation may refuse to change are not modelled. *)

From S2P Require Import Prelude Word.

(** ** General registers *)
Module Reg.
Inductive reg :=
  | ra | sp | gp | tp | t0 | t1 | t2 | s0 | s1
  | a0 | a1 | a2 | a3 | a4 | a5 | a6 | a7
  | s2 | s3 | s4 | s5 | s6 | s7 | s8 | s9 | s10 | s11 | t3 | t4 | t5 | t6.
#[global] Instance reg_eq_dec : EqDecision reg.
Proof. solve_decision. Defined.
End Reg.
Abbreviation reg := Reg.reg.

(** ** Control and status registers *)
Module Csr.
Inductive csr :=
  | mhartid | mstatus | mepc | mip | mie | medeleg | mideleg | menvcfg | mcounteren | pmpcfg0 | pmpaddr0
  | stvec | sepc | scause | stval | sscratch | stimecmp | satp | time.
#[global] Instance csr_eq_dec : EqDecision csr.
Proof. solve_decision. Defined.
End Csr.
Abbreviation csr := Csr.csr.

Inductive priv := Machine | Supervisor | User.
#[global] Instance priv_eq_dec : EqDecision priv.
Proof. solve_decision. Defined.

Record hart := Hart {
  regs : reg → Z;
  csrs : csr → Z;
  pc : Z;
  mode : priv;
}.
Definition set_reg (r : reg) (x : Z) (h : hart) : hart := Hart (<[r := x]> (regs h)) (csrs h) (pc h) (mode h).
Definition set_csr (c : csr) (x : Z) (h : hart) : hart := Hart (regs h) (<[c := x]> (csrs h)) (pc h) (mode h).
Definition set_pc (x : Z) (h : hart) : hart := Hart (regs h) (csrs h) x (mode h).
Definition set_mode (m : priv) (h : hart) : hart := Hart (regs h) (csrs h) (pc h) m.

(** ** Fields *)
Definition MSTATUS_MPP_MASK : Z := Z.shiftl 3 11.
Definition MSTATUS_MPP_M : Z := Z.shiftl 3 11.
Definition MSTATUS_MPP_S : Z := Z.shiftl 1 11.
Definition MSTATUS_MPP_U : Z := Z.shiftl 0 11.
Definition MSTATUS_MIE : Z := Z.shiftl 1 3.
Definition SSTATUS_SPP : Z := Z.shiftl 1 8.
Definition SSTATUS_SPIE : Z := Z.shiftl 1 5.
Definition SSTATUS_UPIE : Z := Z.shiftl 1 4.
Definition SSTATUS_SIE : Z := Z.shiftl 1 1.
Definition SSTATUS_UIE : Z := Z.shiftl 1 0.
Definition SIE_SEIE : Z := Z.shiftl 1 9.
Definition SIE_STIE : Z := Z.shiftl 1 5.
Definition SIE_SSIE : Z := Z.shiftl 1 1.
Definition MIE_STIE : Z := Z.shiftl 1 5.
(** The fields of [mstatus] that [sstatus] shows: SIE, SPIE, UBE, SPP, VS, FS, XS,
    SUM, MXR, UXL and SD. *)
Definition SSTATUS_MASK : Z := 0x80000003000DE762.

(** [~x] of 64 bits. *)
Definition lnot64 (x : Z) : Z := Z.lxor (2 ^ 64 - 1) x.
(** [x] with the bits of [mask] taken from [y]. *)
Definition merge (mask x y : Z) : Z := Z.lor (Z.land x (lnot64 mask)) (Z.land y mask).

(** ** Access *)
Definition csrr (c : csr) : K hart Z := gets (λ h, csrs h c).
Definition csrw (c : csr) (x : Z) : K hart unit := modify (set_csr c x).

Definition r_mhartid : K hart Z := csrr Csr.mhartid.
Definition r_mstatus : K hart Z := csrr Csr.mstatus.
Definition w_mstatus (x : Z) : K hart unit := csrw Csr.mstatus x.
Definition w_mepc (x : Z) : K hart unit := csrw Csr.mepc x.
Definition r_sstatus : K hart Z := x ← csrr Csr.mstatus; mret (Z.land x SSTATUS_MASK).
Definition w_sstatus (x : Z) : K hart unit := m ← csrr Csr.mstatus; csrw Csr.mstatus (merge SSTATUS_MASK m x).
Definition r_sip : K hart Z := x ← csrr Csr.mip; d ← csrr Csr.mideleg; mret (Z.land x d).
Definition w_sip (x : Z) : K hart unit := m ← csrr Csr.mip; d ← csrr Csr.mideleg; csrw Csr.mip (merge d m x).
Definition r_sie : K hart Z := x ← csrr Csr.mie; d ← csrr Csr.mideleg; mret (Z.land x d).
Definition w_sie (x : Z) : K hart unit := m ← csrr Csr.mie; d ← csrr Csr.mideleg; csrw Csr.mie (merge d m x).
Definition r_mie : K hart Z := csrr Csr.mie.
Definition w_mie (x : Z) : K hart unit := csrw Csr.mie x.
Definition w_sepc (x : Z) : K hart unit := csrw Csr.sepc x.
Definition r_sepc : K hart Z := csrr Csr.sepc.
Definition r_medeleg : K hart Z := csrr Csr.medeleg.
Definition w_medeleg (x : Z) : K hart unit := csrw Csr.medeleg x.
Definition r_mideleg : K hart Z := csrr Csr.mideleg.
Definition w_mideleg (x : Z) : K hart unit := csrw Csr.mideleg x.
Definition w_stvec (x : Z) : K hart unit := csrw Csr.stvec x.
Definition r_stvec : K hart Z := csrr Csr.stvec.
Definition r_stimecmp : K hart Z := csrr Csr.stimecmp.
Definition w_stimecmp (x : Z) : K hart unit := csrw Csr.stimecmp x.
Definition r_menvcfg : K hart Z := csrr Csr.menvcfg.
Definition w_menvcfg (x : Z) : K hart unit := csrw Csr.menvcfg x.
Definition w_pmpcfg0 (x : Z) : K hart unit := csrw Csr.pmpcfg0 x.
Definition w_pmpaddr0 (x : Z) : K hart unit := csrw Csr.pmpaddr0 x.
Definition w_satp (x : Z) : K hart unit := csrw Csr.satp x.
Definition r_satp : K hart Z := csrr Csr.satp.
Definition r_scause : K hart Z := csrr Csr.scause.
Definition r_stval : K hart Z := csrr Csr.stval.
Definition w_mcounteren (x : Z) : K hart unit := csrw Csr.mcounteren x.
Definition r_mcounteren : K hart Z := csrr Csr.mcounteren.
Definition r_time : K hart Z := csrr Csr.time.

Definition intr_on : K hart unit := x ← r_sstatus; w_sstatus (Z.lor x SSTATUS_SIE).
Definition intr_off : K hart unit := x ← r_sstatus; w_sstatus (Z.land x (lnot64 SSTATUS_SIE)).
Definition intr_get : K hart bool := x ← r_sstatus; mret (negb (Z.land x SSTATUS_SIE =? 0)).

Definition r_sp : K hart Z := gets (λ h, regs h Reg.sp).
Definition r_fp : K hart Z := gets (λ h, regs h Reg.s0).
Definition r_tp : K hart Z := gets (λ h, regs h Reg.tp).
Definition w_tp (x : Z) : K hart unit := modify (set_reg Reg.tp x).
Definition r_ra : K hart Z := gets (λ h, regs h Reg.ra).
(** Translations are not cached in the model. *)
Definition sfence_vma : K hart unit := mret tt.

(** ** Traps

    What the processor does when it takes a trap to supervisor mode, and the
    instructions that return from one. *)
Definition bit_set_to (n : Z) (b : bool) (x : Z) : Z := if b then Z.lor x (Z.shiftl 1 n) else Z.land x (lnot64 (Z.shiftl 1 n)).
Definition status_bit (n : Z) (h : hart) : bool := Z.testbit (csrs h Csr.mstatus) n.
#[global] Arguments status_bit : simpl never.
Abbreviation SIE := (status_bit 1).
Abbreviation SPIE := (status_bit 5).
Abbreviation SPP := (status_bit 8).

Definition trap_enter (cause val : Z) (h : hart) : hart :=
  let st := csrs h Csr.mstatus in
  let st := bit_set_to 8 (bool_decide (mode h = Supervisor)) (bit_set_to 5 (Z.testbit st 1) (bit_set_to 1 false st)) in
  set_mode Supervisor (set_pc (csrs h Csr.stvec)
    (set_csr Csr.mstatus st (set_csr Csr.stval val (set_csr Csr.scause cause (set_csr Csr.sepc (pc h) h))))).
Definition sret : K hart unit := modify (λ h,
  let st := csrs h Csr.mstatus in
  let st' := bit_set_to 8 false (bit_set_to 5 true (bit_set_to 1 (Z.testbit st 5) st)) in
  set_mode (if Z.testbit st 8 then Supervisor else User) (set_pc (csrs h Csr.sepc) (set_csr Csr.mstatus st' h))).
Definition mpp (st : Z) : priv :=
  if Z.testbit st 11 then if Z.testbit st 12 then Machine else Supervisor else User.
Definition mret_ : K hart unit := modify (λ h,
  let st := csrs h Csr.mstatus in
  let st' := bit_set_to 11 false (bit_set_to 12 false (bit_set_to 7 true (bit_set_to 3 (Z.testbit st 7) st))) in
  set_mode (mpp st) (set_pc (csrs h Csr.mepc) (set_csr Csr.mstatus st' h))).

(** ** Bits *)
Lemma lnot64_spec x n : 0 ≤ n < 64 → Z.testbit (lnot64 x) n = negb (Z.testbit x n).
Proof.
  intros Hn. unfold lnot64. rewrite Z.lxor_spec. change (2 ^ 64 - 1) with (Z.ones 64).
  rewrite Z.ones_spec_low by lia. apply xorb_true_l.
Qed.
Lemma merge_spec mask x y n : 0 ≤ n < 64 →
  Z.testbit (merge mask x y) n = if Z.testbit mask n then Z.testbit y n else Z.testbit x n.
Proof.
  intros Hn. unfold merge. rewrite Z.lor_spec, !Z.land_spec, lnot64_spec by done.
  by destruct (Z.testbit mask n), (Z.testbit x n), (Z.testbit y n).
Qed.
Lemma bit_mask k n : 0 ≤ k → 0 ≤ n → Z.testbit (Z.shiftl 1 k) n = (n =? k).
Proof.
  intros Hk Hn. rewrite Z.shiftl_1_l. destruct (Z.eqb_spec n k) as [->|]; [by apply Z.pow2_bits_true|by apply Z.pow2_bits_false].
Qed.
Lemma bit_set_to_spec k b x n : 0 ≤ k < 64 → 0 ≤ n < 64 →
  Z.testbit (bit_set_to k b x) n = if n =? k then b else Z.testbit x n.
Proof.
  intros Hk Hn. unfold bit_set_to. destruct b.
  - rewrite Z.lor_spec, bit_mask by lia. by destruct (n =? k), (Z.testbit x n).
  - rewrite Z.land_spec, lnot64_spec, bit_mask by lia. by destruct (n =? k), (Z.testbit x n).
Qed.
Lemma land_bit x k : 0 ≤ k → negb (Z.land x (Z.shiftl 1 k) =? 0) = Z.testbit x k.
Proof.
  intros Hk. destruct (Z.testbit x k) eqn:E.
  - apply negb_true_iff, Z.eqb_neq. intros H0. assert (Z.testbit (Z.land x (Z.shiftl 1 k)) k = true) as H.
    { by rewrite Z.land_spec, bit_mask, E, Z.eqb_refl. }
    by rewrite H0, Z.bits_0 in H.
  - apply negb_false_iff, Z.eqb_eq. apply Z.bits_inj'. intros n Hn. rewrite Z.land_spec, bit_mask, Z.bits_0 by lia.
    destruct (Z.eqb_spec n k) as [->|]; [by rewrite E|by rewrite andb_false_r].
Qed.

(** ** Interrupts *)
(** The bits of [sstatus] that the kernel changes. *)
Lemma w_sstatus_bits x (Q : unit → hart → Prop) h :
  (∀ m, (∀ n, 0 ≤ n < 64 → Z.testbit m n = if Z.testbit SSTATUS_MASK n then Z.testbit x n else Z.testbit (csrs h Csr.mstatus) n) →
    Q tt (set_csr Csr.mstatus m h)) → wp (w_sstatus x) Q h.
Proof.
  intros HQ. unfold w_sstatus, csrr, csrw. apply wp_bind, wp_gets, wp_modify, HQ. intros n Hn. by apply merge_spec.
Qed.
Lemma wp_intr_get (Q : bool → hart → Prop) h : Q (SIE h) h → wp intr_get Q h.
Proof.
  intros HQ. unfold intr_get, r_sstatus, csrr. apply wp_bind, wp_bind, wp_gets, wp_ret, wp_ret.
  unfold SSTATUS_SIE. rewrite land_bit by lia. rewrite Z.land_spec. by rewrite andb_true_r.
Qed.
Lemma wp_intr_on (Q : unit → hart → Prop) h :
  (∀ m, (∀ n, 0 ≤ n < 64 → Z.testbit m n = if n =? 1 then true else Z.testbit (csrs h Csr.mstatus) n) →
    Q tt (set_csr Csr.mstatus m h)) → wp intr_on Q h.
Proof.
  intros HQ. unfold intr_on, r_sstatus, csrr. apply wp_bind, wp_bind, wp_gets, wp_ret, w_sstatus_bits. intros m Hm. apply HQ.
  intros n Hn. rewrite Hm by done. unfold SSTATUS_SIE. rewrite Z.lor_spec, Z.land_spec, bit_mask by lia.
  destruct (Z.eqb_spec n 1) as [->|]; [by rewrite orb_true_r|]. rewrite orb_false_r. destruct (Z.testbit SSTATUS_MASK n); [by rewrite andb_true_r|done].
Qed.
Lemma wp_intr_off (Q : unit → hart → Prop) h :
  (∀ m, (∀ n, 0 ≤ n < 64 → Z.testbit m n = if n =? 1 then false else Z.testbit (csrs h Csr.mstatus) n) →
    Q tt (set_csr Csr.mstatus m h)) → wp intr_off Q h.
Proof.
  intros HQ. unfold intr_off, r_sstatus, csrr. apply wp_bind, wp_bind, wp_gets, wp_ret, w_sstatus_bits. intros m Hm. apply HQ.
  intros n Hn. rewrite Hm by done. unfold SSTATUS_SIE. rewrite !Z.land_spec, lnot64_spec, bit_mask by lia.
  destruct (Z.eqb_spec n 1) as [->|]; [by rewrite andb_false_r|]. rewrite andb_true_r. destruct (Z.testbit SSTATUS_MASK n); [by rewrite andb_true_r|done].
Qed.

(** ** Taking traps and returning *)
Lemma trap_enter_status cause val h :
  SPP (trap_enter cause val h) = bool_decide (mode h = Supervisor) ∧ SPIE (trap_enter cause val h) = SIE h ∧ SIE (trap_enter cause val h) = false.
Proof.
  unfold status_bit, trap_enter. cbn [csrs set_csr set_pc set_mode]. rewrite fn_lookup_insert, !bit_set_to_spec by lia. done.
Qed.
Lemma bit_set_to_range n b x : 0 ≤ n < 64 → 0 ≤ x < 2 ^ 64 → 0 ≤ bit_set_to n b x < 2 ^ 64.
Proof.
  intros Hn Hx. assert (∀ y, 0 ≤ y → (∀ i, 64 ≤ i → Z.testbit y i = false) → y < 2 ^ 64) as Hlt.
  { intros y Hy Hb. destruct (decide (y < 2 ^ 64)); [done|]. exfalso.
    assert (64 ≤ Z.log2 y) by (apply Z.log2_le_pow2; lia). specialize (Hb (Z.log2 y) ltac:(done)). rewrite Z.bit_log2 in Hb; [done|lia]. }
  assert (∀ i, 64 ≤ i → Z.testbit x i = false) as Hx'.
  { intros i Hi. destruct (decide (x = 0)) as [->|]; [apply Z.bits_0|]. apply Z.bits_above_log2; [lia|].
    assert (Z.log2 x < 64); [|lia]. apply Z.log2_lt_pow2; lia. }
  unfold bit_set_to. destruct b; (split; [|apply Hlt]).
  - apply Z.lor_nonneg. split; [lia|]. apply Z.shiftl_nonneg. lia.
  - apply Z.lor_nonneg. split; [lia|]. apply Z.shiftl_nonneg. lia.
  - intros i Hi. rewrite Z.lor_spec, bit_mask, Hx' by lia. apply Z.eqb_neq. lia.
  - apply Z.land_nonneg. left. lia.
  - apply Z.land_nonneg. left. lia.
  - intros i Hi. by rewrite Z.land_spec, Hx' by lia.
Qed.
Lemma trap_status_range cause val h :
  0 ≤ csrs h Csr.mstatus < 2 ^ 64 → 0 ≤ csrs (trap_enter cause val h) Csr.mstatus < 2 ^ 64.
Proof.
  intros Hm. unfold trap_enter. cbn [csrs set_csr set_pc set_mode]. rewrite fn_lookup_insert. by repeat apply bit_set_to_range.
Qed.
Lemma wp_sret (Q : unit → hart → Prop) h :
  (∀ m, Z.testbit m 1 = SPIE h → Z.testbit m 5 = true → Z.testbit m 8 = false →
    Q tt (set_mode (if SPP h then Supervisor else User) (set_pc (csrs h Csr.sepc) (set_csr Csr.mstatus m h)))) → wp sret Q h.
Proof. intros HQ. apply wp_modify. apply HQ; by rewrite !bit_set_to_spec by lia. Qed.
#[global] Opaque sret.
