(* ===== verification/Param.v ===== *)
(** * Kernel parameters and on-disk layout constants

    [kernel/param.h], [kernel/fs.h], [kernel/buf.h] and [kernel/stat.h],
    built without any of the lab switches ([LAB_FS], [LAB_LOCK], ...): the
    Makefile of this repository builds the [util] lab, which only changes
    [USERSTACK]. *)

From S2P Require Import Prelude Word.

(** ** kernel/param.h *)
Definition NPROC : Z := 64.
Definition NCPU : Z := 8.
Definition NOFILE : Z := 16.
Definition NFILE : Z := 100.
Definition NINODE : Z := 50.
Definition NDEV : Z := 10.
Definition ROOTDEV : Z := 1.
Definition MAXARG : Z := 32.
Definition MAXOPBLOCKS : Z := 10.
Definition LOGSIZE : Z := MAXOPBLOCKS * 3.
Definition NBUF : Z := MAXOPBLOCKS * 3.
Definition FSSIZE : Z := 2000.
Definition MAXPATH : Z := 128.

(** ** kernel/fs.h *)
Definition ROOTINO : Z := 1.
Definition BSIZE : Z := 1024.
Definition FSMAGIC : Z := 0x10203040.
Definition NDIRECT : Z := 12.
Definition NINDIRECT : Z := BSIZE / 4.
Definition MAXFILE : Z := NDIRECT + NINDIRECT.
Definition DIRSIZ : Z := 14.

(** [sizeof(struct dinode)]: four shorts, a uint and [NDIRECT+1] uints. *)
Definition sizeof_dinode : Z := 2 * 4 + 4 + 4 * (NDIRECT + 1).
Definition IPB : Z := BSIZE / sizeof_dinode.
Definition BPB : Z := BSIZE * 8.
(** [sizeof(struct dirent)]: a ushort and the name. *)
Definition sizeof_dirent : Z := 2 + DIRSIZ.

(** [struct superblock]. *)
Record superblock := Superblock {
  sb_magic : Z;
  sb_size : Z;
  sb_nblocks : Z;
  sb_ninodes : Z;
  sb_nlog : Z;
  sb_logstart : Z;
  sb_inodestart : Z;
  sb_bmapstart : Z;
}.

(** [IBLOCK(i, sb)] and [BBLOCK(b, sb)]. *)
Definition IBLOCK (i : Z) (sb : superblock) : Z := i / IPB + sb_inodestart sb.
Definition BBLOCK (b : Z) (sb : superblock) : Z := b / BPB + sb_bmapstart sb.

(** ** The superblock of [mkfs/mkfs.c] *)
Definition NINODES : Z := 200.
Definition nbitmap : Z := FSSIZE / BPB + 1.
Definition ninodeblocks : Z := NINODES / IPB + 1.
Definition nlog : Z := LOGSIZE.
Definition nmeta : Z := 2 + nlog + ninodeblocks + nbitmap.
Definition nblocks : Z := FSSIZE - nmeta.
Definition mkfs_sb : superblock :=
  Superblock FSMAGIC FSSIZE nblocks NINODES nlog 2 (2 + nlog) (2 + nlog + ninodeblocks).

(** ** kernel/stat.h *)
Definition T_DIR : Z := 1.
Definition T_FILE : Z := 2.
Definition T_DEVICE : Z := 3.

(** Blocks are byte arrays; fresh storage is zero. *)
Abbreviation block := (list Z).
Definition zero_block : block := replicate (Z.to_nat BSIZE) 0.

(** Unfold the parameters before arithmetic. *)
Ltac consts :=
  unfold NPROC, NCPU, NOFILE, NFILE, NINODE, NDEV, ROOTDEV, MAXARG, LOGSIZE, NBUF,
    MAXOPBLOCKS, FSSIZE, MAXPATH, ROOTINO, FSMAGIC, IPB, BPB, sizeof_dinode,
    sizeof_dirent, MAXFILE, NINDIRECT, NDIRECT, BSIZE, DIRSIZ, T_DIR, T_FILE, T_DEVICE in *.
Ltac clia := consts; lia.
