(* ===== verification/Spinlock.v ===== *)
(** * Spin locks ([kernel/spinlock.c])

    Locks, the [struct cpu] of each processor and its interrupt flag.  [c] is the
    processor that runs; it finds itself through the register [tp].  Other
    processors run between the accesses to a lock, so that [acquire] and
    [release] are sequences of steps; memory is sequentially consistent, which
    is what the fences of the code are for. *)

From S2P Require Import Prelude Word Param Riscv.

Record spinlock := Spinlock { locked : Z; lk_name : string; lk_cpu : option nat }.
(** The fields of [struct cpu] that locks use. *)
Record cpu := Cpu { noff : Z; intena : bool }.
Record sst := Sst { harts : gmap nat hart; cpus : nat → cpu; locks : Z → spinlock }.

Definition set_hart (c : nat) (h : hart) (s : sst) : sst := Sst (<[c := h]> (harts s)) (cpus s) (locks s).
Definition on_hart {A} (c : nat) (m : K hart A) : K sst A :=
  h ← gets (λ s, harts s !! c);
  match h with
  | Some h => lift (λ _, h) (set_hart c) m
  | None => undefined "hart"
  end.
Definition set_cpu (c : nat) (x : cpu) (s : sst) : sst := Sst (harts s) (<[c := x]> (cpus s)) (locks s).
Definition set_lock (l : Z) (x : spinlock) (s : sst) : sst := Sst (harts s) (cpus s) (<[l := x]> (locks s)).

(** ** [cpuid] and [mycpu] of [kernel/proc.c]; a processor is its index in [cpus] *)
Definition cpuid (c : nat) : K sst Z := x ← on_hart c r_tp; mret (s32 x).
Definition mycpu (c : nat) : K sst nat :=
  id ← cpuid c;
  if (0 <=? id) && (id <? NCPU) then mret (Z.to_nat id) else undefined "cpus".

Definition initlock (l : Z) (name : string) : K sst unit := modify (set_lock l (Spinlock 0 name None)).

(** [locked] and [lk_cpu] are read in this order. *)
Definition holding (c : nat) (l : Z) : K sst bool :=
  lk ← gets (λ s, locks s l);
  me ← mycpu c;
  mret (negb (locked lk =? 0) && bool_decide (lk_cpu lk = Some me)).

Definition push_off (c : nat) : K sst unit :=
  old ← on_hart c intr_get;
  on_hart c intr_off;;
  me ← mycpu c;
  x ← gets (λ s, cpus s me);
  let ie := if noff x =? 0 then old else intena x in
  modify (set_cpu me (Cpu (noff x + 1) ie)).

Definition pop_off (c : nat) : K sst unit :=
  me ← mycpu c;
  ie ← on_hart c intr_get;
  panic_if ie "pop_off - interruptible";;
  x ← gets (λ s, cpus s me);
  panic_if (noff x <? 1) "pop_off";;
  modify (set_cpu me (Cpu (noff x - 1) (intena x)));;
  when ((noff x - 1 =? 0) && intena x) (on_hart c intr_on).

(** [acquire] before the loop, one turn of the loop, and after it. *)
Definition acquire_begin (c : nat) (l : Z) : K sst unit :=
  push_off c;;
  h ← holding c l;
  panic_if h "acquire".
Definition test_and_set (l : Z) : K sst Z :=
  lk ← gets (λ s, locks s l);
  modify (set_lock l (Spinlock 1 (lk_name lk) (lk_cpu lk)));;
  mret (locked lk).
Definition acquire_end (c : nat) (l : Z) : K sst unit :=
  me ← mycpu c;
  lk ← gets (λ s, locks s l);
  modify (set_lock l (Spinlock (locked lk) (lk_name lk) (Some me))).
(** Alone, [acquire] gets a free lock at the first turn and never a taken one. *)
Definition acquire (c : nat) (l : Z) : K sst unit :=
  acquire_begin c l;;
  r ← test_and_set l;
  if r =? 0 then acquire_end c l else sleep_on "spinning".

(** [release] up to the fence, and after it. *)
Definition release_begin (c : nat) (l : Z) : K sst unit :=
  h ← holding c l;
  panic_if (negb h) "release";;
  lk ← gets (λ s, locks s l);
  modify (set_lock l (Spinlock (locked lk) (lk_name lk) None)).
Definition release_end (c : nat) (l : Z) : K sst unit :=
  lk ← gets (λ s, locks s l);
  modify (set_lock l (Spinlock 0 (lk_name lk) (lk_cpu lk)));;
  pop_off c.
Definition release (c : nat) (l : Z) : K sst unit := release_begin c l;; release_end c l.

(** ** The processors together *)

(** Where a processor is. *)
Inductive phase := Running | Spinning (l : Z) | Got (l : Z) | Releasing (l : Z).

(** [held c] are the locks that [acquire] gave to [c] and that it has not begun to
    release, [extra c] its calls of [push_off] without [pop_off], and [want c] the
    state it last gave to its interrupts outside of locks. *)
Record world := World {
  st : sst;
  at_ : nat → phase;
  held : nat → gset Z;
  extra : nat → nat;
  want : nat → bool;
}.

Definition valid (c : nat) : Prop := Z.of_nat c < NCPU.

Inductive step : world → world → Prop :=
  | step_acquire w c l s' : valid c → at_ w c = Running → acquire_begin c l (st w) = Ok (tt, s') →
      step w (World s' (<[c := Spinning l]> (at_ w)) (held w) (extra w) (want w))
  | step_spin w c l r s' : valid c → at_ w c = Spinning l → test_and_set l (st w) = Ok (r, s') → r ≠ 0 →
      step w (World s' (at_ w) (held w) (extra w) (want w))
  | step_got w c l s' : valid c → at_ w c = Spinning l → test_and_set l (st w) = Ok (0, s') →
      step w (World s' (<[c := Got l]> (at_ w)) (held w) (extra w) (want w))
  | step_acquired w c l s' : valid c → at_ w c = Got l → acquire_end c l (st w) = Ok (tt, s') →
      step w (World s' (<[c := Running]> (at_ w)) (<[c := {[l]} ∪ held w c]> (held w)) (extra w) (want w))
  | step_release w c l s' : valid c → at_ w c = Running → release_begin c l (st w) = Ok (tt, s') →
      step w (World s' (<[c := Releasing l]> (at_ w)) (<[c := held w c ∖ {[l]}]> (held w)) (extra w) (want w))
  | step_released w c l s' : valid c → at_ w c = Releasing l → release_end c l (st w) = Ok (tt, s') →
      step w (World s' (<[c := Running]> (at_ w)) (held w) (extra w) (want w))
  | step_push w c s' : valid c → at_ w c = Running → push_off c (st w) = Ok (tt, s') →
      step w (World s' (at_ w) (held w) (<[c := S (extra w c)]> (extra w)) (want w))
  | step_pop w c s' : valid c → at_ w c = Running → extra w c ≠ O → pop_off c (st w) = Ok (tt, s') →
      step w (World s' (at_ w) (held w) (<[c := pred (extra w c)]> (extra w)) (want w))
  (** The kernel sets its interrupts itself only where it holds no lock. *)
  | step_intr w c (b : bool) s' : valid c → at_ w c = Running → held w c = ∅ → extra w c = O →
      on_hart c (if b then intr_on else intr_off) (st w) = Ok (tt, s') →
      step w (World s' (at_ w) (held w) (extra w) (<[c := b]> (want w))).

(** All locks free, no processor in a critical section. *)
Record initial (w : world) : Prop := {
  in_cpu : ∀ c, valid c → at_ w c = Running ∧ held w c = ∅ ∧ extra w c = O ∧ noff (cpus (st w) c) = 0 ∧
    ∃ h, harts (st w) !! c = Some h ∧ regs h Reg.tp = Z.of_nat c ∧ want w c = SIE h;
  in_lock : ∀ l, locked (locks (st w) l) = 0 ∧ lk_cpu (locks (st w) l) = None;
}.
Inductive reachable : world → Prop :=
  | reach_init w : initial w → reachable w
  | reach_more w w' : reachable w → step w w' → reachable w'.

(** ** Operations of one processor *)
Section ops.
Context (c : nat) (Hc : valid c).
Implicit Types (s : sst) (h : hart).
(** The processor finds itself. *)
Definition self s h : Prop := harts s !! c = Some h ∧ regs h Reg.tp = Z.of_nat c.

Lemma wp_on_hart {A} (m : K hart A) (Q : A → sst → Prop) s h :
  harts s !! c = Some h → wp m (λ a h', Q a (set_hart c h' s)) h → wp (on_hart c m) Q s.
Proof using Type. clear Hc. intros Hh Hm. unfold on_hart. apply wp_bind, wp_gets. rewrite Hh. by apply wp_lift. Qed.
Lemma set_hart_id s h : harts s !! c = Some h → set_hart c h s = s.
Proof using Type. clear Hc. intros Hh. destruct s. unfold set_hart. simpl in *. by rewrite insert_id. Qed.

Lemma wp_mycpu (Q : nat → sst → Prop) s h : self s h → Q c s → wp (mycpu c) Q s.
Proof using Hc.
  intros [Hh Ht] HQ. unfold mycpu, cpuid, r_tp. apply wp_bind, wp_bind, (wp_on_hart _ _ _ h Hh), wp_gets, wp_ret.
  rewrite (set_hart_id _ _ Hh), Ht. unfold s32, valid, NCPU in *. rewrite swrap_small by lia.
  rewrite (proj2 (Z.leb_le _ _)), (proj2 (Z.ltb_lt _ _)) by lia. simpl. rewrite Nat2Z.id. by apply wp_ret.
Qed.
Lemma wp_lock_holding l (Q : bool → sst → Prop) s h : self s h →
  Q (negb (locked (locks s l) =? 0) && bool_decide (lk_cpu (locks s l) = Some c)) s → wp (holding c l) Q s.
Proof using Hc. intros Hs HQ. unfold holding. apply wp_bind, wp_gets, wp_bind, (wp_mycpu _ _ h Hs), wp_ret. done. Qed.

(** Interrupts are off afterwards; what is restored at the end is recorded by
    the outermost call. *)
Lemma wp_push_off (Q : unit → sst → Prop) s h : self s h →
  (∀ h', SIE h' = false → regs h' = regs h →
    Q tt (set_cpu c (Cpu (noff (cpus s c) + 1) (if noff (cpus s c) =? 0 then SIE h else intena (cpus s c))) (set_hart c h' s))) →
  wp (push_off c) Q s.
Proof using Hc.
  intros [Hh Ht] HQ. unfold push_off. apply wp_bind, (wp_on_hart _ _ _ h Hh), wp_intr_get. rewrite (set_hart_id _ _ Hh).
  apply wp_bind, (wp_on_hart _ _ _ h Hh), wp_intr_off. intros m Hm. set (h' := set_csr Csr.mstatus m h).
  apply wp_bind, (wp_mycpu _ _ h'); [split; [apply lookup_insert_eq|done]|]. apply wp_bind, wp_gets, wp_modify.
  apply HQ; [|done]. unfold status_bit, h'. cbn [csrs set_csr]. rewrite fn_lookup_insert. by rewrite Hm by lia.
Qed.
Lemma wp_pop_off (Q : unit → sst → Prop) s h : self s h → SIE h = false → 1 ≤ noff (cpus s c) →
  (∀ h', SIE h' = bool_decide (noff (cpus s c) = 1) && intena (cpus s c) → regs h' = regs h →
    Q tt (set_hart c h' (set_cpu c (Cpu (noff (cpus s c) - 1) (intena (cpus s c))) s))) →
  wp (pop_off c) Q s.
Proof using Hc.
  intros [Hh Ht] Hoff Hn HQ. unfold pop_off. apply wp_bind, (wp_mycpu _ _ h); [done|].
  apply wp_bind, (wp_on_hart _ _ _ h Hh), wp_intr_get. rewrite (set_hart_id _ _ Hh), Hoff.
  apply wp_bind, wp_panic_if; [done|]. apply wp_bind, wp_gets, wp_bind, wp_panic_if; [apply Z.ltb_ge; lia|].
  apply wp_bind, wp_modify. replace (noff (cpus s c) - 1 =? 0) with (bool_decide (noff (cpus s c) = 1)).
  2: { apply eq_bool_prop_intro. rewrite bool_decide_spec, Is_true_true, Z.eqb_eq. lia. }
  destruct (bool_decide (noff (cpus s c) = 1) && intena (cpus s c)) eqn:E; simpl.
  - eapply wp_on_hart; [exact Hh|]. apply wp_intr_on. intros m Hm. apply HQ; [|done].
    unfold status_bit. cbn [csrs set_csr]. rewrite fn_lookup_insert. by rewrite Hm by lia.
  - apply wp_ret. rewrite <-(set_hart_id (set_cpu _ _ s) h); [|done]. by apply HQ.
Qed.
End ops.

(** ** Invariant *)
Definition inflight (p : phase) : Z := match p with Running => 0 | _ => 1 end.
(** [c] has the lock [l], or is between taking the word and recording itself, or
    between erasing itself and giving the word back. *)
Definition owns (w : world) (c : nat) (l : Z) : Prop := l ∈ held w c ∨ at_ w c = Got l ∨ at_ w c = Releasing l.

Record CpuInv (w : world) (c : nat) (h : hart) : Prop := {
  cp_self : self c (st w) h;
  cp_noff : noff (cpus (st w) c) = Z.of_nat (size (held w c)) + Z.of_nat (extra w c) + inflight (at_ w c);
  cp_sie : SIE h = bool_decide (noff (cpus (st w) c) = 0) && want w c;
  cp_intena : noff (cpus (st w) c) ≠ 0 → intena (cpus (st w) c) = want w c;
}.
Record LockInv (w : world) (l : Z) : Prop := {
  lk_owned : locked (locks (st w) l) ≠ 0 ↔ ∃ c, valid c ∧ owns w c l;
  lk_unique : ∀ c c', valid c → valid c' → owns w c l → owns w c' l → c = c';
  lk_holder : ∀ c, valid c → l ∈ held w c ↔ lk_cpu (locks (st w) l) = Some c;
  lk_apart : ∀ c, valid c → at_ w c = Got l ∨ at_ w c = Releasing l → l ∉ held w c;
}.
Record Inv (w : world) : Prop := {
  iv_cpu : ∀ c, valid c → ∃ h, CpuInv w c h;
  iv_lock : ∀ l, LockInv w l;
}.

Lemma initial_inv w : initial w → Inv w.
Proof.
  intros [Hc Hl]. split.
  - intros c Hv. destruct (Hc c Hv) as (Ha & Hh & He & Hn & h & Hh' & Ht & Hw). exists h. split; [by split| | |].
    + by rewrite Hn, Ha, Hh, He.
    + by rewrite Hn, Hw.
    + by intros ?.
  - intros l. destruct (Hl l) as [H0 Hn]. split.
    + rewrite H0. split; [done|]. intros (c & Hv & Ho). destruct (Hc c Hv) as (Ha & Hh & _). unfold owns in Ho. rewrite Ha, Hh in Ho. set_solver.
    + intros c c' Hv _ Ho. destruct (Hc c Hv) as (Ha & Hh & _). unfold owns in Ho. rewrite Ha, Hh in Ho. set_solver.
    + intros c Hv. destruct (Hc c Hv) as (_ & -> & _). rewrite Hn. set_solver.
    + intros c Hv. destruct (Hc c Hv) as (-> & _). naive_solver.
Qed.

(** A processor that holds a lock, or is about to, is not interrupted. *)
Lemma inv_off w c h : CpuInv w c h → noff (cpus (st w) c) ≠ 0 → SIE h = false.
Proof. intros [] Hn. by rewrite cp_sie0, bool_decide_false by done. Qed.
(** The other processors after a step of [c]. *)
Lemma CpuInv_other w w' c c' h : c' ≠ c → CpuInv w c' h →
  harts (st w') !! c' = harts (st w) !! c' → cpus (st w') c' = cpus (st w) c' →
  at_ w' c' = at_ w c' → held w' c' = held w c' → extra w' c' = extra w c' → want w' c' = want w c' → CpuInv w' c' h.
Proof. intros Hne [[Hh Ht] ???] E1 E2 E3 E4 E5 E6. split; rewrite ?E2, ?E3, ?E4, ?E5, ?E6; [split; [by rewrite E1|done]|done..]. Qed.

Definition pushed (c : nat) (h h' : hart) (s : sst) : sst :=
  set_cpu c (Cpu (noff (cpus s c) + 1) (if noff (cpus s c) =? 0 then SIE h else intena (cpus s c))) (set_hart c h' s).
Lemma CpuInv_push w w' c h h' : CpuInv w c h → SIE h' = false → regs h' = regs h → st w' = pushed c h h' (st w) →
  held w' c = held w c → want w' c = want w c →
  Z.of_nat (extra w' c) + inflight (at_ w' c) = Z.of_nat (extra w c) + inflight (at_ w c) + 1 → CpuInv w' c h'.
Proof.
  intros [[Hh Ht] Hn Hs Hi] Hoff Hr Est Eh Ew Ee. assert (0 ≤ noff (cpus (st w) c)).
  { rewrite Hn. destruct (at_ w c); simpl; lia. }
  split; rewrite ?Est; simpl; rewrite ?fn_lookup_insert, ?Eh, ?Ew; simpl.
  - split; [simpl; apply lookup_insert_eq|congruence].
  - lia.
  - rewrite Hoff. by rewrite bool_decide_false by lia.
  - intros _. destruct (Z.eqb_spec (noff (cpus (st w) c)) 0) as [E|E]; [|by apply Hi]. rewrite Hs, E. done.
Qed.
Definition popped (c : nat) (h' : hart) (s : sst) : sst :=
  set_hart c h' (set_cpu c (Cpu (noff (cpus s c) - 1) (intena (cpus s c))) s).
Lemma CpuInv_pop w w' c h h' : CpuInv w c h → 1 ≤ noff (cpus (st w) c) →
  SIE h' = bool_decide (noff (cpus (st w) c) = 1) && intena (cpus (st w) c) → regs h' = regs h → st w' = popped c h' (st w) →
  held w' c = held w c → want w' c = want w c →
  Z.of_nat (extra w' c) + inflight (at_ w' c) = Z.of_nat (extra w c) + inflight (at_ w c) - 1 → CpuInv w' c h'.
Proof.
  intros [[Hh Ht] Hn Hs Hi] H1 Hs' Hr Est Eh Ew Ee.
  split; rewrite ?Est; simpl; rewrite ?fn_lookup_insert, ?Eh, ?Ew; simpl.
  - split; [simpl; apply lookup_insert_eq|congruence].
  - lia.
  - rewrite Hs'. rewrite Hi by lia. f_equal. apply bool_decide_ext. lia.
  - intros _. apply Hi. lia.
Qed.

(** What the steps of the code do. *)
Section steps.
Context (w : world) (c : nat) (h : hart) (Hc : valid c) (HI : CpuInv w c h).
Lemma acquire_begin_inv l s' : acquire_begin c l (st w) = Ok (tt, s') →
  ∃ h', SIE h' = false ∧ regs h' = regs h ∧ s' = pushed c h h' (st w).
Proof using Hc HI.
  intros E. run_elim E. unfold acquire_begin. apply wlp_bind, wlp_wp, (wp_push_off _ Hc _ _ h); [apply HI|]. intros h' Hoff Hr.
  apply wlp_bind, wlp_wp, (wp_lock_holding _ Hc _ _ _ h').
  { split; [apply lookup_insert_eq|]. rewrite Hr. apply HI. }
  apply wlp_panic_if. eauto.
Qed.
Lemma push_off_inv s' : push_off c (st w) = Ok (tt, s') →
  ∃ h', SIE h' = false ∧ regs h' = regs h ∧ s' = pushed c h h' (st w).
Proof using Hc HI. intros E. run_elim E. apply wlp_wp, (wp_push_off _ Hc _ _ h); [apply HI|]. intros h' Hoff Hr. eauto. Qed.
Lemma pop_off_inv s' : 1 ≤ noff (cpus (st w) c) → pop_off c (st w) = Ok (tt, s') →
  ∃ h', SIE h' = bool_decide (noff (cpus (st w) c) = 1) && intena (cpus (st w) c) ∧ regs h' = regs h ∧ s' = popped c h' (st w).
Proof using Hc HI.
  intros Hn E. run_elim E. apply wlp_wp, (wp_pop_off _ Hc _ _ h); [apply HI|eapply inv_off; [done|lia]|done|]. intros h' Hoff Hr. eauto.
Qed.
Lemma test_and_set_inv l r s' : test_and_set l (st w) = Ok (r, s') →
  r = locked (locks (st w) l) ∧ s' = set_lock l (Spinlock 1 (lk_name (locks (st w) l)) (lk_cpu (locks (st w) l))) (st w).
Proof using Type. clear. by intros [= <- <-]. Qed.
Lemma acquire_end_inv l s' : acquire_end c l (st w) = Ok (tt, s') →
  s' = set_lock l (Spinlock (locked (locks (st w) l)) (lk_name (locks (st w) l)) (Some c)) (st w).
Proof using Hc HI.
  intros E. run_elim E. apply wlp_wp. unfold acquire_end. apply wp_bind, (wp_mycpu _ Hc _ _ h); [apply HI|].
  apply wp_bind, wp_gets, wp_modify. done.
Qed.
Lemma release_begin_inv l s' : release_begin c l (st w) = Ok (tt, s') →
  lk_cpu (locks (st w) l) = Some c ∧ s' = set_lock l (Spinlock (locked (locks (st w) l)) (lk_name (locks (st w) l)) None) (st w).
Proof using Hc HI.
  intros E. run_elim E. unfold release_begin. apply wlp_bind, wlp_wp, (wp_lock_holding _ Hc _ _ _ h); [apply HI|].
  apply wlp_bind, wlp_panic_if. intros Hh%negb_false_iff. apply andb_prop in Hh as [_ Hh%bool_decide_eq_true].
  apply wlp_bind, wlp_gets, wlp_modify. done.
Qed.
Lemma release_end_inv l s' : 1 ≤ noff (cpus (st w) c) → release_end c l (st w) = Ok (tt, s') →
  ∃ h', SIE h' = bool_decide (noff (cpus (st w) c) = 1) && intena (cpus (st w) c) ∧ regs h' = regs h ∧
    s' = popped c h' (set_lock l (Spinlock 0 (lk_name (locks (st w) l)) (lk_cpu (locks (st w) l))) (st w)).
Proof using Hc HI.
  intros Hn E. run_elim E. apply wlp_wp. unfold release_end. apply wp_bind, wp_gets, wp_bind, wp_modify.
  apply (wp_pop_off _ Hc _ _ h); [apply HI|eapply inv_off; [done|lia]|done|]. intros h' Hoff Hr. eauto.
Qed.
Lemma intr_inv (b : bool) s' : on_hart c (if b then intr_on else intr_off) (st w) = Ok (tt, s') →
  ∃ h', SIE h' = b ∧ regs h' = regs h ∧ s' = set_hart c h' (st w).
Proof using HI.
  clear Hc. intros E. run_elim E. apply wlp_wp. eapply wp_on_hart; [apply HI|].
  destruct b; [apply wp_intr_on|apply wp_intr_off]; intros m Hm; exists (set_csr Csr.mstatus m h); (split_and!; [|reflexivity|reflexivity]);
    unfold status_bit; cbn [csrs set_csr]; rewrite fn_lookup_insert; rewrite Hm by lia; done.
Qed.
End steps.

(** A processor whose registers and nesting depth stay. *)
Lemma CpuInv_same w w' c h : CpuInv w c h →
  harts (st w') !! c = harts (st w) !! c → cpus (st w') c = cpus (st w) c → want w' c = want w c →
  Z.of_nat (size (held w' c)) + Z.of_nat (extra w' c) + inflight (at_ w' c) =
  Z.of_nat (size (held w c)) + Z.of_nat (extra w c) + inflight (at_ w c) → CpuInv w' c h.
Proof. intros [[Hh Ht] Hn ??] E1 E2 E3 E4. split; rewrite ?E2, ?E3; [split; [by rewrite E1|done]|lia|done..]. Qed.

(** Locks that a step does not touch. *)
Lemma LockInv_frame w w' l : LockInv w l → locks (st w') l = locks (st w) l →
  (∀ c, valid c → (at_ w' c = Got l ↔ at_ w c = Got l) ∧ (at_ w' c = Releasing l ↔ at_ w c = Releasing l) ∧ (l ∈ held w' c ↔ l ∈ held w c)) →
  LockInv w' l.
Proof.
  intros [H1 H2 H3 H4] El Ho. assert (∀ c, valid c → owns w' c l ↔ owns w c l) as Hown.
  { intros c Hv. destruct (Ho c Hv) as (? & ? & ?). unfold owns. tauto. }
  split; rewrite ?El.
  - rewrite H1. split; intros (c & Hv & H); exists c; (split; [done|]); by apply Hown.
  - intros c c' Hv Hv' Hc Hc'. apply H2; [done|done|by apply Hown|by apply Hown].
  - intros c Hv. destruct (Ho c Hv) as (_ & _ & ->). by apply H3.
  - intros c Hv. destruct (Ho c Hv) as (-> & -> & ->). by apply H4.
Qed.

(** The processors after a step of [c]. *)
Ltac others Hcpus c :=
  let d := fresh "d" in let Hd := fresh "Hd" in let k := fresh "k" in
  intros d Hd; destruct (decide (d = c)) as [->|];
  [|destruct (Hcpus d Hd) as [k ?]; exists k; eapply (CpuInv_other _ _ c); [done|done|..]; simpl;
    rewrite ?lookup_insert_ne, ?fn_lookup_insert_ne by done; done].
(** Another lock after a step of [c] that changes the place of [c]. *)
Ltac frame_at c Ha :=
  let d := fresh "d" in
  intros d ?; simpl; destruct (decide (d = c)) as [->|];
  [rewrite ?fn_lookup_insert, ?Ha, ?elem_of_union, ?elem_of_difference, ?elem_of_singleton; split_and!; [split; congruence|split; congruence|tauto]
  |by rewrite ?fn_lookup_insert_ne].

Lemma got_inv w c l h s' : Inv w → valid c → CpuInv w c h → at_ w c = Spinning l → test_and_set l (st w) = Ok (0, s') →
  Inv (World s' (<[c := Got l]> (at_ w)) (held w) (extra w) (want w)).
Proof.
  intros [Hcpu Hlk] Hv HI Ha E. apply test_and_set_inv in E as [E ->]. destruct (Hlk l) as [H1 H2 H3 H4].
  assert (∀ d, valid d → ¬ owns w d l) as Hfree by (intros d Hd Ho; assert (∃ d, valid d ∧ owns w d l) as Hx by eauto; by apply H1 in Hx). split.
  - others Hcpu c. exists h. eapply CpuInv_same; [done|done..|]. simpl. rewrite fn_lookup_insert, Ha. done.
  - intros l'. destruct (decide (l' = l)) as [->|].
    + assert (∀ d, valid d → owns (World (set_lock l (Spinlock 1 (lk_name (locks (st w) l)) (lk_cpu (locks (st w) l))) (st w))
        (<[c := Got l]> (at_ w)) (held w) (extra w) (want w)) d l → d = c) as Hown.
      { intros d Hd Ho. destruct (decide (d = c)) as [->|]; [done|]. destruct (Hfree d Hd). unfold owns in Ho. simpl in Ho.
        by rewrite fn_lookup_insert_ne in Ho. }
      split; simpl; rewrite ?fn_lookup_insert; simpl.
      * split; [intros _; exists c; split; [done|]; right; left; simpl; apply fn_lookup_insert|lia].
      * intros d d' Hd Hd' Ho Ho'. by rewrite (Hown d Hd Ho), (Hown d' Hd' Ho').
      * done.
      * intros d Hd _ Hin. apply (Hfree d Hd). by left.
    + eapply LockInv_frame; [apply Hlk|simpl; by rewrite fn_lookup_insert_ne|]. frame_at c Ha.
Qed.
Lemma acquired_inv w c l h s' : Inv w → valid c → CpuInv w c h → at_ w c = Got l → acquire_end c l (st w) = Ok (tt, s') →
  Inv (World s' (<[c := Running]> (at_ w)) (<[c := {[l]} ∪ held w c]> (held w)) (extra w) (want w)).
Proof.
  intros [Hcpu Hlk] Hv HI Ha E. pose proof (acquire_end_inv _ _ _ Hv HI _ _ E) as ->. destruct (Hlk l) as [H1 H2 H3 H4].
  assert (l ∉ held w c) as Hni by (apply H4; [done|by left]).
  assert (∀ d, valid d → owns w d l → d = c) as Hown by (intros d Hd Ho; apply H2; [done|done|done|by right; left]). split.
  - others Hcpu c. exists h. eapply CpuInv_same; [done|done..|]. simpl. rewrite !fn_lookup_insert, Ha.
    rewrite size_union by (clear -Hni; set_solver). rewrite size_singleton. simpl. lia.
  - intros l'. destruct (decide (l' = l)) as [->|].
    + split; simpl; rewrite ?fn_lookup_insert; simpl.
      * rewrite H1. split; intros _; exists c; (split; [done|]); [left; simpl; rewrite fn_lookup_insert; by apply elem_of_union_l, elem_of_singleton|by right; left].
      * intros d d' Hd Hd' Ho Ho'. unfold owns in Ho, Ho'. simpl in Ho, Ho'.
        destruct (decide (d = c)) as [->|], (decide (d' = c)) as [->|]; [done|..]; rewrite ?(fn_lookup_insert_ne _ c d), ?(fn_lookup_insert_ne _ c d') in * by done.
        -- symmetry. by apply Hown.
        -- by apply Hown.
        -- rewrite (Hown d), (Hown d'); done.
      * intros d Hd. destruct (decide (d = c)) as [->|]; [rewrite fn_lookup_insert; split; [done|intros _; apply elem_of_union_l, elem_of_singleton; done]|].
        rewrite fn_lookup_insert_ne by done. split; [intros Hin; destruct (Hown d Hd); [by left|done]|congruence].
      * intros d Hd. destruct (decide (d = c)) as [->|]; rewrite ?fn_lookup_insert, ?fn_lookup_insert_ne by done; [intros [?|?]; congruence|by apply H4].
    + eapply LockInv_frame; [apply Hlk|simpl; by rewrite fn_lookup_insert_ne|]. frame_at c Ha.
Qed.
Lemma release_inv w c l h s' : Inv w → valid c → CpuInv w c h → at_ w c = Running → release_begin c l (st w) = Ok (tt, s') →
  Inv (World s' (<[c := Releasing l]> (at_ w)) (<[c := held w c ∖ {[l]}]> (held w)) (extra w) (want w)).
Proof.
  intros [Hcpu Hlk] Hv HI Ha E. destruct (release_begin_inv _ _ _ Hv HI _ _ E) as [Hme ->]. destruct (Hlk l) as [H1 H2 H3 H4].
  apply H3 in Hme; [|done].
  assert (∀ d, valid d → owns w d l → d = c) as Hown by (intros d Hd Ho; apply H2; [done|done|done|by left]). split.
  - others Hcpu c. exists h. eapply CpuInv_same; [done|done..|]. simpl. rewrite !fn_lookup_insert, Ha.
    rewrite size_difference by (clear -Hme; set_solver). rewrite size_singleton. simpl.
    assert (size (held w c) ≠ O); [|lia]. apply size_non_empty_iff. clear -Hme; set_solver.
  - intros l'. destruct (decide (l' = l)) as [->|].
    + split; simpl; rewrite ?fn_lookup_insert; simpl.
      * rewrite H1. split; intros _; exists c; (split; [done|]); [right; right; simpl; by rewrite fn_lookup_insert|by left].
      * intros d d' Hd Hd' Ho Ho'. unfold owns in Ho, Ho'. simpl in Ho, Ho'.
        destruct (decide (d = c)) as [->|], (decide (d' = c)) as [->|]; [done|..]; rewrite ?(fn_lookup_insert_ne _ c d), ?(fn_lookup_insert_ne _ c d') in * by done.
        -- symmetry. by apply Hown.
        -- by apply Hown.
        -- rewrite (Hown d), (Hown d'); done.
      * intros d Hd. destruct (decide (d = c)) as [->|].
        -- rewrite fn_lookup_insert. split; [|done]. clear. set_solver.
        -- rewrite fn_lookup_insert_ne by done. split; [|done]. intros Hin. destruct (Hown d Hd); [by left|done].
      * intros d Hd. destruct (decide (d = c)) as [->|]; rewrite ?fn_lookup_insert, ?fn_lookup_insert_ne by done; [clear; set_solver|by apply H4].
    + eapply LockInv_frame; [apply Hlk|simpl; by rewrite fn_lookup_insert_ne|]. frame_at c Ha.
Qed.
Lemma released_inv w c l h s' : Inv w → valid c → CpuInv w c h → at_ w c = Releasing l → release_end c l (st w) = Ok (tt, s') →
  Inv (World s' (<[c := Running]> (at_ w)) (held w) (extra w) (want w)).
Proof.
  intros [Hcpu Hlk] Hv HI Ha E. assert (1 ≤ noff (cpus (st w) c)) as Hn by (rewrite (cp_noff _ _ _ HI), Ha; simpl; lia).
  destruct (release_end_inv _ _ _ Hv HI _ _ Hn E) as (h' & Hs & Hr & ->). destruct (Hlk l) as [H1 H2 H3 H4]. split.
  - others Hcpu c. exists h'. eapply (CpuInv_pop (World (set_lock l (Spinlock 0 (lk_name (locks (st w) l)) (lk_cpu (locks (st w) l))) (st w))
      (at_ w) (held w) (extra w) (want w))); [|done..|]; [by eapply CpuInv_same|]. simpl. rewrite fn_lookup_insert, Ha. simpl. lia.
  - intros l'. destruct (decide (l' = l)) as [->|].
    + assert (∀ d, valid d → ¬ owns (World (popped c h' (set_lock l (Spinlock 0 (lk_name (locks (st w) l)) (lk_cpu (locks (st w) l))) (st w)))
        (<[c := Running]> (at_ w)) (held w) (extra w) (want w)) d l) as Hown.
      { intros d Hd Ho. unfold owns in Ho. simpl in Ho. destruct (decide (d = c)) as [->|].
        - rewrite fn_lookup_insert in Ho. destruct Ho as [Ho|[?|?]]; [|done..]. by apply (H4 c Hv); [right|].
        - rewrite fn_lookup_insert_ne in Ho by done. assert (d = c); [|done]. apply H2; [done|done|done|by right; right]. }
      split; simpl; rewrite ?fn_lookup_insert; simpl.
      * split; [done|]. intros (d & Hd & Ho). by destruct (Hown d Hd).
      * intros d d' Hd _ Ho. by destruct (Hown d Hd).
      * done.
      * intros d Hd. destruct (decide (d = c)) as [->|]; rewrite ?fn_lookup_insert, ?fn_lookup_insert_ne by done; [intros [?|?]; congruence|by apply H4].
    + eapply LockInv_frame; [apply Hlk|simpl; by rewrite fn_lookup_insert_ne|]. frame_at c Ha.
Qed.

Lemma step_inv w w' : Inv w → step w w' → Inv w'.
Proof.
  intros HInv Hst. pose proof HInv as [Hcpu Hlk]. destruct Hst as [w c l s' Hv Ha E|w c l r s' Hv Ha E Hr|w c l s' Hv Ha E|w c l s' Hv Ha E
    |w c l s' Hv Ha E|w c l s' Hv Ha E|w c s' Hv Ha E|w c s' Hv Ha He E|w c b s' Hv Ha Hh He E]; destruct (Hcpu c Hv) as [h HI].
  - destruct (acquire_begin_inv _ _ _ Hv HI _ _ E) as (h' & Hoff & Hr & ->). split.
    + others Hcpu c. exists h'. eapply CpuInv_push; try done. simpl. rewrite fn_lookup_insert, Ha. simpl. lia.
    + intros l'. eapply LockInv_frame; [apply Hlk|done|]. frame_at c Ha.
  - apply test_and_set_inv in E as [-> ->]. split.
    + intros d Hd. destruct (Hcpu d Hd) as [k Hk]. exists k. by destruct Hk.
    + intros l'. destruct (decide (l' = l)) as [->|].
      * destruct (Hlk l) as [H1 H2 H3 H4]. split; simpl; rewrite ?fn_lookup_insert; simpl; [|done..]. rewrite <-H1. naive_solver lia.
      * eapply LockInv_frame; [apply Hlk| |done]. simpl. by rewrite fn_lookup_insert_ne.
  - by eapply got_inv.
  - by eapply acquired_inv.
  - by eapply release_inv.
  - by eapply released_inv.
  - destruct (push_off_inv _ _ _ Hv HI _ E) as (h' & Hoff & Hr & ->). split.
    + others Hcpu c. exists h'. eapply CpuInv_push; try done. simpl. rewrite fn_lookup_insert. lia.
    + intros l'. by eapply LockInv_frame; [apply Hlk|done|].
  - assert (1 ≤ noff (cpus (st w) c)) as Hn by (rewrite (cp_noff _ _ _ HI), Ha; simpl; lia).
    destruct (pop_off_inv _ _ _ Hv HI _ Hn E) as (h' & Hs & Hr & ->). split.
    + others Hcpu c. exists h'. eapply CpuInv_pop; try done. simpl. rewrite fn_lookup_insert. lia.
    + intros l'. by eapply LockInv_frame; [apply Hlk|done|].
  - destruct (intr_inv _ _ _ HI _ _ E) as (h' & Hs & Hr & ->). split.
    + others Hcpu c. exists h'. destruct HI as [[? ?] Hn ? ?]. assert (noff (cpus (st w) c) = 0) as Hz by (rewrite Hn, Ha, Hh, He; done).
      split; simpl; rewrite ?fn_lookup_insert; [split; [apply lookup_insert_eq|congruence]|done|by rewrite Hz|by intros ?].
    + intros l'. by eapply LockInv_frame; [apply Hlk|done|].
Qed.
Lemma reachable_inv w : reachable w → Inv w.
Proof. induction 1 as [w Hi|w w' _ IH Hs]; [by apply initial_inv|by eapply step_inv]. Qed.

(** C8. Spin locks on all processors, under every interleaving of their
    accesses: no two processors are in critical sections of one lock; a
    processor that holds a lock or spins for one has its interrupts off, and one
    that holds none has them as it last set them; [holding] is right about the
    processor that asks, although it reads the lock without holding it; and
    [acquire] and [release] do not panic unless the processor acquires a lock
    that it holds, or releases one that it does not hold. *)
Theorem spinlock_exclusion w : reachable w → ∀ c, valid c →
  (∀ c', valid c' → c ≠ c' → held w c ## held w c') ∧
  (∃ h, harts (st w) !! c = Some h ∧
    (held w c ≠ ∅ ∨ at_ w c ≠ Running → SIE h = false) ∧
    (held w c = ∅ → at_ w c = Running → extra w c = O → SIE h = want w c)) ∧
  (∀ l, holding c l (st w) = Ok (bool_decide (l ∈ held w c), st w)) ∧
  (∀ l, l ∉ held w c → ∃ s', acquire_begin c l (st w) = Ok (tt, s')) ∧
  (∀ l, l ∈ held w c → ∃ s', release_begin c l (st w) = Ok (tt, s')) ∧
  (∀ l, at_ w c = Releasing l → ∃ s', release_end c l (st w) = Ok (tt, s')).
Proof.
  intros [Hcpu Hlk]%reachable_inv c Hv. destruct (Hcpu c Hv) as [h HI].
  assert (∀ l, (negb (locked (locks (st w) l) =? 0) && bool_decide (lk_cpu (locks (st w) l) = Some c)) = bool_decide (l ∈ held w c)) as Hho.
  { intros l. destruct (Hlk l) as [H1 _ H3 _]. apply eq_bool_prop_intro. rewrite andb_True, !bool_decide_spec, <-H3 by done.
    split; [naive_solver|]. intros Hin. split; [|done]. apply Is_true_true, negb_true_iff, Z.eqb_neq.
    apply H1. exists c. split; [done|by left]. }
  pose proof (cp_self _ _ _ HI) as Hself. pose proof (cp_noff _ _ _ HI) as Hn. split_and!.
  - intros c' Hv' Hne l Hl Hl'. apply Hne. apply (lk_unique _ _ (Hlk l)); [done|done|by left|by left].
  - exists h. split_and!; [apply HI| |].
    + intros Hb. apply (inv_off _ _ _ HI). rewrite Hn. destruct Hb as [Hb|Hb].
      * assert (size (held w c) ≠ O) by (intros H0%size_empty_inv; apply Hb; by apply leibniz_equiv).
        destruct (at_ w c); simpl; lia.
      * destruct (at_ w c); simpl; [done|lia..].
    + intros Hh Ha He. rewrite (cp_sie _ _ _ HI), Hn, Hh, Ha, He. done.
  - intros l. apply wp_run. apply (wp_lock_holding _ Hv _ _ _ h Hself). by rewrite Hho.
  - intros l Hl. apply wp_returns. unfold acquire_begin. apply wp_bind, (wp_push_off _ Hv _ _ h Hself). intros h' _ Hr.
    apply wp_bind, (wp_lock_holding _ Hv _ _ _ h'); [split; [apply lookup_insert_eq|rewrite Hr; apply Hself]|]. simpl.
    apply wp_panic_if; [|done]. rewrite Hho. by apply bool_decide_eq_false.
  - intros l Hl. apply wp_returns. unfold release_begin. apply wp_bind, (wp_lock_holding _ Hv _ _ _ h Hself). rewrite Hho.
    apply wp_bind, wp_panic_if; [by rewrite bool_decide_true by done|]. by apply wp_bind, wp_gets, wp_modify.
  - intros l Ha. apply wp_returns. unfold release_end. apply wp_bind, wp_gets, wp_bind, wp_modify.
    assert (1 ≤ noff (cpus (st w) c)) by (rewrite Hn, Ha; simpl; lia).
    apply (wp_pop_off _ Hv _ _ h); [done|apply (inv_off _ _ _ HI); lia|done|done].
Qed.

(** Two processors: the first holds the lock, the second spins for it. *)
Module Two.
Definition hart0 (c : nat) : hart := Hart (λ _, Z.of_nat c) (λ _, 2) 0 Supervisor.
Definition sst0 : sst := Sst (list_to_map ((λ c, (c, hart0 c)) <$> seq 0 8)) (λ _, Cpu 0 false) (λ _, Spinlock 0 "" None).
Definition s1 : sst := after (acquire_begin 0 5 sst0) sst0.
Definition s2 : sst := after (test_and_set 5 s1) s1.
Definition s3 : sst := after (acquire_end 0 5 s2) s2.
Definition s4 : sst := after (acquire_begin 1 5 s3) s3.
Definition w0 : world := World sst0 (λ _, Running) (λ _, ∅) (λ _, O) (λ _, true).
Definition w1 : world := World s1 (<[0%nat := Spinning 5]> (λ _, Running)) (λ _, ∅) (λ _, O) (λ _, true).
Definition w2 : world := World s2 (<[0%nat := Got 5]> (at_ w1)) (λ _, ∅) (λ _, O) (λ _, true).
Definition w3 : world := World s3 (<[0%nat := Running]> (at_ w2)) (<[0%nat := {[5]} ∪ ∅]> (λ _, ∅)) (λ _, O) (λ _, true).
Definition w4 : world := World s4 (<[1%nat := Spinning 5]> (at_ w3)) (held w3) (λ _, O) (λ _, true).
Lemma w0_initial : initial w0.
Proof.
  split; [|done]. intros c Hc. unfold valid, NCPU in Hc. split_and!; try done.
  do 8 (destruct c as [|c]; [eexists; split_and!; vm_compute; reflexivity|]). lia.
Qed.
End Two.
Lemma spinlock_exclusion_witness :
  ∃ h0 h1, harts (st Two.w4) !! 0%nat = Some h0 ∧ harts (st Two.w4) !! 1%nat = Some h1 ∧ SIE h0 = false ∧ SIE h1 = false ∧
    holding 0 5 (st Two.w4) = Ok (true, st Two.w4) ∧ holding 1 5 (st Two.w4) = Ok (false, st Two.w4).
Proof.
  assert (reachable Two.w4) as Hw.
  { eapply reach_more; [eapply reach_more; [eapply reach_more; [eapply reach_more; [apply reach_init, Two.w0_initial|]|]|]|].
    - apply (step_acquire Two.w0 0 5 Two.s1); [done|done|]. by apply after_ok; vm_compute.
    - apply (step_got Two.w1 0 5 Two.s2); [done|done|]. by apply after_ok; vm_compute.
    - apply (step_acquired Two.w2 0 5 Two.s3); [done|done|]. by apply after_ok; vm_compute.
    - apply (step_acquire Two.w3 1 5 Two.s4); [done|done|]. by apply after_ok; vm_compute. }
  destruct (spinlock_exclusion _ Hw 0 ltac:(done)) as (_ & (h0 & H0 & O0 & _) & Hh0 & _).
  destruct (spinlock_exclusion _ Hw 1 ltac:(done)) as (_ & (h1 & H1 & O1 & _) & Hh1 & _).
  exists h0, h1. split_and!; [done|done|apply O0; by left|apply O1; by right|apply (Hh0 5)|apply (Hh1 5)].
Defined.
