(* ===== verification/Bio.v ===== *)
(** * The buffer cache ([kernel/bio.c])

    The cache is the array of [NBUF] buffers and the list head, linked by
    [prev]/[next] indices exactly as the C code links them by pointers: index
    [HEAD] (= [NBUF]) is [bcache.head].  Each buffer carries its sleep-lock
    ([kernel/sleeplock.c]).

    Spin-locked sections run atomically: [acquire(&bcache.lock)] and
    [release(&bcache.lock)] delimit one step of the model.  A code path that
    would wait for a sleep-lock held by another process ends in the outcome
    [Sleep].

    The disk is what [virtio_disk_rw] shows to this file: an array of blocks
    on which a request is carried out before the call returns.  The sequence
    of writes issued to it is recorded, because a crash exposes a prefix of
    it. *)

From S2P Require Import Prelude Word Param.

(** ** Sleep-locks *)

(** [struct sleeplock], without its debugging name; the spin-lock inside it
    only makes the three operations atomic. *)
Record sleeplock := Sleeplock { sl_locked : bool; sl_pid : Z }.

Definition initsleeplock : sleeplock := Sleeplock false 0.

Definition acquiresleep (me : Z) : K sleeplock unit :=
  locked ← gets sl_locked;
  if (locked : bool) then sleep_on "sleeplock"
  else modify (λ _, Sleeplock true me).

Definition releasesleep : K sleeplock unit := modify (λ _, Sleeplock false 0).

Definition holdingsleep (me : Z) : K sleeplock bool :=
  gets (λ lk, sl_locked lk && (sl_pid lk =? me)).

(** ** Buffers *)
Record buf := Buf {
  b_valid : bool;
  b_disk : bool;
  b_dev : Z;
  b_blockno : Z;
  b_lock : sleeplock;
  b_refcnt : Z;
  b_prev : nat;
  b_next : nat;
  b_data : block;
}.

#[global] Instance buf_inhabited : Inhabited buf :=
  populate (Buf false false 0 0 initsleeplock 0 0 0 zero_block).

Definition set_valid (v : bool) (b : buf) : buf :=
  Buf v (b_disk b) (b_dev b) (b_blockno b) (b_lock b) (b_refcnt b) (b_prev b) (b_next b) (b_data b).
Definition set_disk (v : bool) (b : buf) : buf :=
  Buf (b_valid b) v (b_dev b) (b_blockno b) (b_lock b) (b_refcnt b) (b_prev b) (b_next b) (b_data b).
Definition set_key (dev bno : Z) (b : buf) : buf :=
  Buf (b_valid b) (b_disk b) dev bno (b_lock b) (b_refcnt b) (b_prev b) (b_next b) (b_data b).
Definition set_lock (lk : sleeplock) (b : buf) : buf :=
  Buf (b_valid b) (b_disk b) (b_dev b) (b_blockno b) lk (b_refcnt b) (b_prev b) (b_next b) (b_data b).
Definition set_refcnt (c : Z) (b : buf) : buf :=
  Buf (b_valid b) (b_disk b) (b_dev b) (b_blockno b) (b_lock b) c (b_prev b) (b_next b) (b_data b).
Definition set_prev (p : nat) (b : buf) : buf :=
  Buf (b_valid b) (b_disk b) (b_dev b) (b_blockno b) (b_lock b) (b_refcnt b) p (b_next b) (b_data b).
Definition set_next (p : nat) (b : buf) : buf :=
  Buf (b_valid b) (b_disk b) (b_dev b) (b_blockno b) (b_lock b) (b_refcnt b) (b_prev b) p (b_data b).
Definition set_data (d : block) (b : buf) : buf :=
  Buf (b_valid b) (b_disk b) (b_dev b) (b_blockno b) (b_lock b) (b_refcnt b) (b_prev b) (b_next b) d.

(** Number of buffers, and the index of [bcache.head]. *)
Definition nbuf : nat := Z.to_nat NBUF.
Definition HEAD : nat := nbuf.

(** ** State: the cache, the disk and the running process *)
Record bst := Bst {
  bufs : list buf;                (** [bcache.buf] followed by [bcache.head] *)
  disk : gmap Z block;            (** contents of the device *)
  io : list (Z * block);          (** writes carried out, oldest first *)
  me : Z;                         (** [myproc()->pid] *)
}.

Definition buf_at (s : bst) (i : nat) : buf := bufs s !!! i.
Definition dread (d : gmap Z block) (b : Z) : block := default zero_block (d !! b).

Definition set_bufs (bs : list buf) (s : bst) : bst := Bst bs (disk s) (io s) (me s).
Definition upd (i : nat) (f : buf → buf) : K bst unit :=
  modify (λ s, set_bufs (alter f i (bufs s)) s).
Definition getb {A} (i : nat) (f : buf → A) : K bst A := gets (λ s, f (buf_at s i)).

(** Run a sleep-lock operation on the lock of buffer [i]. *)
Definition on_lock {A} (i : nat) (m : Z → K sleeplock A) : K bst A := λ s,
  lift (λ s, b_lock (buf_at s i)) (λ lk s, set_bufs (alter (set_lock lk) i (bufs s)) s) (m (me s)) s.

(** The contract of [virtio_disk_rw(b, write)] towards this file: the block
    has been transferred and the device no longer owns the buffer. *)
Definition disk_rw (i : nat) (write : bool) : K bst unit :=
  bno ← getb i b_blockno;
  (if write then
     d ← getb i b_data;
     modify (λ s, Bst (bufs s) (<[bno := d]> (disk s)) (io s ++ [(bno, d)]) (me s))
   else
     d ← gets (λ s, dread (disk s) bno);
     upd i (set_data d));;
  upd i (set_disk false).

(** ** Operations *)

(** [binit]: from zeroed static storage. *)
Definition binit : K bst unit :=
  upd HEAD (set_prev HEAD);;
  upd HEAD (set_next HEAD);;
  for_each nbuf 0 (λ j,
    let b := Z.to_nat j in
    n ← getb HEAD b_next;
    upd b (set_next n);;
    upd b (set_prev HEAD);;
    upd b (set_lock initsleeplock);;
    n ← getb HEAD b_next;
    upd n (set_prev b);;
    upd HEAD (set_next b)).

(** First loop of [bget]: walk the list along [next] for the block. *)
Definition bget_lookup (dev blockno : Z) : K bst (option nat) :=
  b0 ← getb HEAD b_next;
  while_loop (S nbuf) b0 (λ b,
    if decide (b = HEAD) then mret (inr None) else
    d ← getb b b_dev;
    n ← getb b b_blockno;
    if (d =? dev) && (n =? blockno) then mret (inr (Some b))
    else nx ← getb b b_next; mret (inl nx)).

(** Second loop of [bget]: walk along [prev] for an unused buffer. *)
Definition bget_lru : K bst (option nat) :=
  b0 ← getb HEAD b_prev;
  while_loop (S nbuf) b0 (λ b,
    if decide (b = HEAD) then mret (inr None) else
    c ← getb b b_refcnt;
    if (c =? 0) then mret (inr (Some b))
    else pv ← getb b b_prev; mret (inl pv)).

Definition bget (dev blockno : Z) : K bst nat :=
  hit ← bget_lookup dev blockno;
  match hit with
  | Some b =>
      c ← getb b b_refcnt;
      upd b (set_refcnt (u32 (c + 1)));;
      on_lock b acquiresleep;;
      mret b
  | None =>
      lru ← bget_lru;
      match lru with
      | Some b =>
          upd b (set_key dev blockno);;
          upd b (set_valid false);;
          upd b (set_refcnt 1);;
          on_lock b acquiresleep;;
          mret b
      | None => panic "bget: no buffers"
      end
  end.

Definition bread (dev blockno : Z) : K bst nat :=
  b ← bget dev blockno;
  v ← getb b b_valid;
  (if (v : bool) then mret tt
   else disk_rw b false;; upd b (set_valid true));;
  mret b.

Definition bwrite (b : nat) : K bst unit :=
  h ← on_lock b holdingsleep;
  panic_if (negb h) "bwrite";;
  disk_rw b true.

(** Unlink [b] and put it first: the six assignments of [brelse]. *)
Definition move_front (b : nat) : K bst unit :=
  nx ← getb b b_next; pv ← getb b b_prev; upd nx (set_prev pv);;
  pv ← getb b b_prev; nx ← getb b b_next; upd pv (set_next nx);;
  n ← getb HEAD b_next; upd b (set_next n);;
  upd b (set_prev HEAD);;
  n ← getb HEAD b_next; upd n (set_prev b);;
  upd HEAD (set_next b).

Definition brelse (b : nat) : K bst unit :=
  h ← on_lock b holdingsleep;
  panic_if (negb h) "brelse";;
  on_lock b (λ _, releasesleep);;
  c ← getb b b_refcnt;
  upd b (set_refcnt (u32 (c - 1)));;
  c ← getb b b_refcnt;
  when (c =? 0) (move_front b).

Definition bpin (b : nat) : K bst unit :=
  c ← getb b b_refcnt;
  upd b (set_refcnt (u32 (c + 1))).

Definition bunpin (b : nat) : K bst unit :=
  c ← getb b b_refcnt;
  upd b (set_refcnt (u32 (c - 1))).

(** What a client does with a locked buffer between [bread] and [brelse]:
    read and assign [b->data]. *)
Definition bdata (b : nat) : K bst block := getb b b_data.
Definition bset_data (b : nat) (d : block) : K bst unit := upd b (set_data d).

(** ** The doubly linked list

    [links nx pv a l z]: following [nx] from [a] visits exactly [l] and then
    [z], and [pv] is its inverse along the way. *)
Fixpoint links (nx pv : nat → nat) (a : nat) (l : list nat) (z : nat) : Prop :=
  match l with
  | [] => nx a = z ∧ pv z = a
  | x :: l' => nx a = x ∧ pv x = a ∧ links nx pv x l' z
  end.

Section links.
Implicit Types (nx pv : nat → nat) (l : list nat).

Lemma links_app nx pv a l1 b l2 z :
  links nx pv a (l1 ++ b :: l2) z ↔ links nx pv a l1 b ∧ links nx pv b l2 z.
Proof. revert a. induction l1 as [|x l1 IH]; intros a; simpl; [|rewrite IH]; tauto. Qed.

Lemma links_ext nx pv nx' pv' a l z :
  (∀ x, x ∈ a :: l → nx' x = nx x) →
  (∀ x, x ∈ l ++ [z] → pv' x = pv x) →
  links nx pv a l z → links nx' pv' a l z.
Proof.
  revert a. induction l as [|x l IH]; intros a Hn Hp; simpl.
  - intros [H1 H2]. rewrite Hn, Hp by set_solver. done.
  - intros (H1 & H2 & H3). rewrite Hn, Hp by set_solver. split_and!; [done|done|].
    apply IH; [set_solver|set_solver|done].
Qed.

Lemma links_first nx pv a l z : links nx pv a l z → nx a = default z (head l).
Proof. destruct l; [intros [??]|intros (?&?&?)]; done. Qed.

Lemma links_last nx pv a l z : links nx pv a l z → pv z = default a (last l).
Proof.
  revert a. induction l as [|x l IH]; intros a; [intros [??]; done|].
  intros (_ & _ & H). rewrite (IH _ H), last_cons. by destruct (last l).
Qed.

Lemma links_first_in nx pv a l z : links nx pv a l z → nx a ∈ l ++ [z].
Proof. intros H. rewrite (links_first _ _ _ _ _ H). destruct l; set_solver. Qed.

Lemma links_last_in nx pv a l z : links nx pv a l z → pv z ∈ a :: l.
Proof.
  intros H. rewrite (links_last _ _ _ _ _ H).
  destruct (last l) as [y|] eqn:E; [|set_solver].
  apply last_Some in E as [l' ->]. set_solver.
Qed.

(** [b->next->prev = b->prev; b->prev->next = b->next] *)
Lemma links_unlink nx pv a l1 b l2 z :
  NoDup (a :: l1 ++ b :: l2) → z ∉ l1 ++ b :: l2 →
  links nx pv a (l1 ++ b :: l2) z →
  links (<[pv b := nx b]> nx) (<[nx b := pv b]> pv) a (l1 ++ l2) z.
Proof.
  revert a. induction l1 as [|x l1 IH]; intros a Hnd Hz; simpl.
  - intros (Ha & Hb & H). rewrite Hb. destruct l2 as [|y l2]; simpl in *.
    + destruct H as [-> H]. rewrite !fn_lookup_insert. done.
    + destruct H as (-> & Hy & H). rewrite !fn_lookup_insert. split_and!; [done..|].
      eapply links_ext; [| |done]; intros w Hw.
      * apply fn_lookup_insert_ne. intros ->.
        apply NoDup_cons in Hnd as [Hnd _]. set_solver.
      * apply fn_lookup_insert_ne. intros ->.
        apply elem_of_app in Hw as [Hw|Hw]; [|set_solver].
        rewrite !NoDup_cons in Hnd. naive_solver.
  - intros (Ha & Hx & H). apply NoDup_cons in Hnd as [Hna Hnd].
    pose proof H as H'. apply links_app in H' as [H1 H2].
    pose proof (links_last_in _ _ _ _ _ H1) as Hl.
    pose proof (links_first_in _ _ _ _ _ H2) as Hf.
    split_and!.
    + rewrite fn_lookup_insert_ne; [done|]. intros E. rewrite E in Hl. set_solver.
    + rewrite fn_lookup_insert_ne; [done|]. intros E. rewrite E in Hf.
      apply NoDup_cons in Hnd as [Hnx _]. set_solver.
    + apply IH; [done|set_solver|done].
Qed.

(** [b->next = head.next; b->prev = &head; head.next->prev = b; head.next = b] *)
Lemma links_push nx pv h b l :
  b ∉ h :: l → links nx pv h l h → NoDup (h :: l) →
  links (<[h := b]> (<[b := nx h]> nx)) (<[nx h := b]> (<[b := h]> pv)) h (b :: l) h.
Proof.
  intros Hb H Hnd. simpl. rewrite fn_lookup_insert.
  assert (b ≠ h) by set_solver.
  assert (b ≠ nx h) as Hbn.
  { intros E. apply links_first_in in H. set_solver. }
  rewrite (fn_lookup_insert_ne _ (nx h) b) by done. rewrite fn_lookup_insert.
  split_and!; [done..|]. destruct l as [|x l]; simpl in *.
  - destruct H as [Hn Hp]. rewrite fn_lookup_insert_ne, fn_lookup_insert by done.
    rewrite Hn at 2. rewrite fn_lookup_insert. done.
  - destruct H as (Hn & Hp & H).
    rewrite (fn_lookup_insert_ne _ h b) by done. rewrite fn_lookup_insert.
    split_and!; [done|by rewrite Hn, fn_lookup_insert|].
    eapply links_ext; [| |done]; intros w Hw.
    + rewrite !fn_lookup_insert_ne; [done|set_solver|].
      intros ->. apply NoDup_cons in Hnd as [Hnd _]. set_solver.
    + rewrite !fn_lookup_insert_ne; [done|set_solver|].
      rewrite Hn. intros ->. rewrite !NoDup_cons in Hnd. set_solver.
Qed.
End links.

(** ** Reading and updating buffers *)
Lemma wp_getb {A} i (f : buf → A) (Q : A → bst → Prop) s :
  Q (f (buf_at s i)) s → wp (getb i f) Q s.
Proof. done. Qed.

Lemma wp_upd i f (Q : unit → bst → Prop) s :
  Q tt (set_bufs (alter f i (bufs s)) s) → wp (upd i f) Q s.
Proof. done. Qed.

Ltac bstep :=
  lazymatch goal with
  | |- wp (getb _ _) _ _ => apply wp_getb
  | |- wp (upd _ _) _ _ => apply wp_upd
  | _ => wp_step
  end; cbv beta.
Ltac bsteps := repeat bstep.

Lemma buf_at_alter_eq s i f :
  (i < length (bufs s))%nat → buf_at (set_bufs (alter f i (bufs s)) s) i = f (buf_at s i).
Proof. intros. by apply list_lookup_total_alter_eq. Qed.

Lemma buf_at_alter_ne s i j f :
  i ≠ j → buf_at (set_bufs (alter f i (bufs s)) s) j = buf_at s j.
Proof. intros. by apply list_lookup_total_alter_ne. Qed.

(** ** The recency list

    [dll bs l]: the links of the array form one cycle through [HEAD] that
    visits every buffer once; [l] lists them from [head.next] (most recently
    released) to [head.prev] (least recently). *)
Definition dll (bs : list buf) (l : list nat) : Prop :=
  NoDup (HEAD :: l) ∧ (∀ i, i ∈ l ↔ (i < nbuf)%nat) ∧
  links (λ i, b_next (bs !!! i)) (λ i, b_prev (bs !!! i)) HEAD l HEAD.

(** Changes that keep the links keep the list. *)
Lemma dll_ext bs bs' l :
  (∀ i, (i ≤ nbuf)%nat → b_next (bs' !!! i) = b_next (bs !!! i) ∧ b_prev (bs' !!! i) = b_prev (bs !!! i)) →
  dll bs l → dll bs' l.
Proof.
  intros Heq (Hnd & Hin & Hl). split_and!; [done|done|].
  eapply links_ext; [| |done]; intros x Hx; simpl; apply Heq.
  - apply elem_of_cons in Hx as [->|Hx]; [unfold HEAD; lia|]. apply Hin in Hx. lia.
  - apply elem_of_app in Hx as [Hx|Hx]; [apply Hin in Hx; lia|].
    apply list_elem_of_singleton in Hx as ->. unfold HEAD. lia.
Qed.

Definition keeps_links (f : buf → buf) : Prop :=
  ∀ b, b_next (f b) = b_next b ∧ b_prev (f b) = b_prev b.

Lemma dll_alter bs l i f :
  keeps_links f → dll bs l → dll (alter f i bs) l.
Proof.
  intros Hf. apply dll_ext. intros j _.
  destruct (decide (i = j)) as [<-|Hne].
  - destruct (decide (i < length bs)%nat).
    + rewrite list_lookup_total_alter_eq by done. apply Hf.
    + rewrite !list_lookup_total_alt, list_lookup_alter_eq.
      rewrite lookup_ge_None_2 by lia. done.
  - by rewrite list_lookup_total_alter_ne.
Qed.

(** The first loop of [bget] returns the first match on the recency list. *)
Definition has_key (bs : list buf) (dev bno : Z) (i : nat) : Prop :=
  b_dev (bs !!! i) = dev ∧ b_blockno (bs !!! i) = bno.
#[global] Instance has_key_dec bs dev bno i : Decision (has_key bs dev bno i).
Proof. unfold has_key. apply _. Defined.
Definition is_unused (bs : list buf) (i : nat) : Prop := b_refcnt (bs !!! i) = 0.
#[global] Instance is_unused_dec bs i : Decision (is_unused bs i).
Proof. unfold is_unused. apply _. Defined.

Lemma dll_length bs l : dll bs l → length l = nbuf.
Proof.
  intros (Hnd & Hin & _). apply NoDup_cons in Hnd as [_ Hnd].
  rewrite <-(length_seq nbuf 0). apply Permutation_length, NoDup_Permutation; [done|apply NoDup_seq|].
  intros i. rewrite Hin, elem_of_seq. lia.
Qed.

Lemma bget_lookup_spec dev bno l s :
  dll (bufs s) l →
  wp (bget_lookup dev bno)
     (λ r s', s' = s ∧ r = head (filter (has_key (bufs s) dev bno) l)) s.
Proof.
  intros Hdll. pose proof (dll_length _ _ Hdll) as Hlen. destruct Hdll as (Hnd & Hin & Hl).
  unfold bget_lookup. bsteps.
  apply (wp_while_loop
    (λ n b s', s' = s ∧ ∃ l1 l2, l = l1 ++ l2 ∧ n = length l2 ∧
       filter (has_key (bufs s) dev bno) l1 = [] ∧ b = default HEAD (head l2)) _ _ _ nbuf).
  - split; [done|]. exists [], l. split_and!; [done..|]. apply (links_first _ _ _ _ _ Hl).
  - lia.
  - intros n b s' (-> & l1 & l2 & -> & -> & Hf & Hb). case_decide as Hbh.
    + bsteps. split; [done|]. destruct l2 as [|b' l2]; [by rewrite app_nil_r, Hf|].
      apply NoDup_cons in Hnd as [Hnd _]. simpl in Hb. set_solver.
    + destruct l2 as [|b' l2]; simpl in Hb; [done|subst b']. bsteps.
      apply links_app in Hl as [_ Hl].
      case_match eqn:Hk; bsteps.
      * apply andb_true_iff in Hk as [?%Z.eqb_eq ?%Z.eqb_eq]. split; [done|].
        rewrite filter_app, Hf, filter_cons_True by done. done.
      * exists (length l2). split; [simpl; lia|]. split; [done|].
        exists (l1 ++ [b]), l2. split_and!; [by rewrite <-app_assoc|done| |].
        -- rewrite filter_app, Hf, filter_cons_False; [done|]. intros [E1 E2].
           unfold buf_at in Hk. rewrite E1, E2, !Z.eqb_refl in Hk. done.
        -- apply (links_first _ _ _ _ _ Hl).
Qed.

Lemma bget_lru_spec l s :
  dll (bufs s) l →
  wp bget_lru (λ r s', s' = s ∧ r = last (filter (is_unused (bufs s)) l)) s.
Proof.
  intros Hdll. pose proof (dll_length _ _ Hdll) as Hlen. destruct Hdll as (Hnd & Hin & Hl).
  unfold bget_lru. bsteps.
  apply (wp_while_loop
    (λ n b s', s' = s ∧ ∃ l1 l2, l = l1 ++ l2 ∧ n = length l1 ∧
       filter (is_unused (bufs s)) l2 = [] ∧ b = default HEAD (last l1)) _ _ _ nbuf).
  - split; [done|]. exists l, []. rewrite app_nil_r. split_and!; [done..|].
    apply (links_last _ _ _ _ _ Hl).
  - lia.
  - intros n b s' (-> & l1 & l2 & -> & -> & Hf & Hb).
    destruct l1 as [|b' l1 _] using rev_ind; [|rewrite last_snoc in Hb]; simpl in Hb; subst b.
    + rewrite decide_True by done. bsteps. split; [done|]. by rewrite app_nil_l, Hf.
    + rewrite <-app_assoc in *. simpl in *. rewrite decide_False.
      2:{ apply NoDup_cons in Hnd as [Hnd _]. set_solver. }
      bsteps. apply links_app in Hl as [Hl _].
      case_match eqn:Hk; bsteps.
      * apply Z.eqb_eq in Hk. split; [done|].
        rewrite filter_app, filter_cons_True, Hf, last_snoc by done. done.
      * apply Z.eqb_neq in Hk. exists (length l1). rewrite length_app.
        split; [simpl; lia|]. split; [done|].
        exists l1, (b' :: l2). split_and!; [done|done| |].
        -- by rewrite filter_cons_False.
        -- apply (links_last _ _ _ _ _ Hl).
Qed.

(** ** Moving a buffer to the front *)
Section move_front.
Implicit Types (bs : list buf).

Lemma alter_field {A} (g : buf → A) (f : buf → buf) bs p x :
  (∀ b, g (f b) = g b) → g (alter f p bs !!! x) = g (bs !!! x).
Proof.
  intros Hg. rewrite list_lookup_total_alter. case_decide as H; [|done].
  destruct H as [-> _]. apply Hg.
Qed.

Lemma next_set_next bs p n x : (p < length bs)%nat →
  b_next (alter (set_next n) p bs !!! x) = (<[p := n]> (λ i, b_next (bs !!! i))) x.
Proof.
  intros. destruct (decide (p = x)) as [->|].
  - by rewrite list_lookup_total_alter_eq, fn_lookup_insert.
  - by rewrite list_lookup_total_alter_ne, fn_lookup_insert_ne.
Qed.

Lemma prev_set_prev bs p n x : (p < length bs)%nat →
  b_prev (alter (set_prev n) p bs !!! x) = (<[p := n]> (λ i, b_prev (bs !!! i))) x.
Proof.
  intros. destruct (decide (p = x)) as [->|].
  - by rewrite list_lookup_total_alter_eq, fn_lookup_insert.
  - by rewrite list_lookup_total_alter_ne, fn_lookup_insert_ne.
Qed.

(** A buffer up to its links. *)
Definition strip (b : buf) : buf := set_next 0 (set_prev 0 b).

Lemma unlink_links bs a l1 i l2 z bs1 bs2 :
  (∀ x, x ∈ a :: l1 ++ i :: l2 → (x < length bs)%nat) → (z < length bs)%nat →
  NoDup (a :: l1 ++ i :: l2) → z ∉ l1 ++ i :: l2 →
  links (λ i, b_next (bs !!! i)) (λ i, b_prev (bs !!! i)) a (l1 ++ i :: l2) z →
  bs1 = alter (set_prev (b_prev (bs !!! i))) (b_next (bs !!! i)) bs →
  bs2 = alter (set_next (b_next (bs1 !!! i))) (b_prev (bs1 !!! i)) bs1 →
  links (λ i, b_next (bs2 !!! i)) (λ i, b_prev (bs2 !!! i)) a (l1 ++ l2) z.
Proof.
  intros Hb Hz Hnd Hnz Hl Hbs1 Hbs2.
  pose proof Hl as Hl'. apply links_app in Hl' as [Hl1 Hl2].
  pose proof (links_last_in _ _ _ _ _ Hl1) as Hp.
  pose proof (links_first_in _ _ _ _ _ Hl2) as Hn. cbv beta in Hp, Hn.
  assert (b_next (bs !!! i) < length bs)%nat as Hn'.
  { apply elem_of_app in Hn as [Hn|Hn]; [apply Hb; set_solver|set_solver]. }
  assert (b_next (bs !!! i) ≠ i) as Hni.
  { intros E. rewrite E in Hn. apply elem_of_app in Hn as [Hn|Hn]; [|set_solver].
    apply NoDup_cons in Hnd as [_ Hnd]. apply NoDup_app in Hnd as (_ & _ & Hnd).
    apply NoDup_cons in Hnd as [? _]. done. }
  assert (b_prev (bs1 !!! i) = b_prev (bs !!! i)) as Ep.
  { subst bs1. by rewrite prev_set_prev, fn_lookup_insert_ne. }
  assert (b_next (bs1 !!! i) = b_next (bs !!! i)) as En.
  { subst bs1. by apply (alter_field b_next). }
  rewrite Ep, En in Hbs2. subst bs2.
  eapply links_ext; [| |apply links_unlink; [exact Hnd|exact Hnz|exact Hl]]; intros x Hx; cbv beta.
  - rewrite next_set_next.
    2:{ subst bs1. rewrite length_alter. apply Hb. set_solver. }
    destruct (decide (b_prev (bs !!! i) = x)) as [->|].
    + by rewrite !fn_lookup_insert.
    + rewrite !fn_lookup_insert_ne by done. subst bs1. by apply (alter_field b_next).
  - rewrite (alter_field b_prev) by done. subst bs1. by rewrite prev_set_prev.
Qed.

Lemma push_links bs h i l bs1 bs2 bs3 bs4 :
  (∀ x, x ∈ h :: i :: l → (x < length bs)%nat) →
  i ∉ h :: l → NoDup (h :: l) →
  links (λ i, b_next (bs !!! i)) (λ i, b_prev (bs !!! i)) h l h →
  bs1 = alter (set_next (b_next (bs !!! h))) i bs →
  bs2 = alter (set_prev h) i bs1 →
  bs3 = alter (set_prev i) (b_next (bs2 !!! h)) bs2 →
  bs4 = alter (set_next i) h bs3 →
  links (λ i, b_next (bs4 !!! i)) (λ i, b_prev (bs4 !!! i)) h (i :: l) h.
Proof.
  intros Hb Hi Hnd Hl H1 H2 H3 H4.
  assert (i < length bs)%nat as Hil by (apply Hb; set_solver).
  assert (h < length bs)%nat as Hhl by (apply Hb; set_solver).
  assert (b_next (bs2 !!! h) = b_next (bs !!! h)) as En.
  { subst bs2. rewrite (alter_field b_next) by done. subst bs1.
    rewrite next_set_next by done. rewrite fn_lookup_insert_ne; [done|set_solver]. }
  rewrite En in H3.
  assert (b_next (bs !!! h) < length bs)%nat as Hnl.
  { pose proof (links_first_in _ _ _ _ _ Hl) as Hn. cbv beta in Hn.
    apply Hb. set_solver. }
  eapply links_ext; [| |apply links_push; [exact Hi|exact Hl|exact Hnd]]; intros x Hx; cbv beta.
  - subst bs4. rewrite next_set_next by (subst; by rewrite !length_alter).
    destruct (decide (h = x)) as [->|]; [by rewrite !fn_lookup_insert|].
    rewrite !(fn_lookup_insert_ne _ h) by done.
    subst bs3 bs2. rewrite !(alter_field b_next) by done. subst bs1. by rewrite next_set_next.
  - subst bs4. rewrite (alter_field b_prev) by done. subst bs3.
    rewrite prev_set_prev by (subst; by rewrite !length_alter).
    destruct (decide (b_next (bs !!! h) = x)) as [->|]; [by rewrite !fn_lookup_insert|].
    rewrite !(fn_lookup_insert_ne _ (b_next (bs !!! h))) by done. subst bs2.
    rewrite prev_set_prev by (subst; by rewrite !length_alter).
    destruct (decide (i = x)) as [->|]; [by rewrite !fn_lookup_insert|].
    rewrite !fn_lookup_insert_ne by done. subst bs1. by apply (alter_field b_prev).
Qed.
End move_front.

Lemma move_front_spec s l1 i l2 :
  length (bufs s) = S nbuf →
  dll (bufs s) (l1 ++ i :: l2) →
  wp (move_front i) (λ _ s',
    ∃ bs, s' = set_bufs bs s ∧ length bs = S nbuf ∧ dll bs (i :: l1 ++ l2) ∧
          ∀ j, strip (bs !!! j) = strip (bufs s !!! j)) s.
Proof.
  intros Hlen (Hnd & Hin & Hl). unfold move_front. bsteps.
  eexists. split; [done|]. unfold buf_at. cbn [bufs set_bufs].
  assert (∀ x, x ∈ HEAD :: l1 ++ i :: l2 → (x < length (bufs s))%nat) as Hb.
  { intros x [->|Hx]%elem_of_cons; [unfold HEAD; lia|]. apply Hin in Hx. lia. }
  assert (NoDup (HEAD :: l1 ++ l2)) as Hnd'.
  { apply NoDup_cons in Hnd as [? Hnd]. apply NoDup_app in Hnd as (?&?&Hnd).
    apply NoDup_cons in Hnd as [? Hnd].
    apply NoDup_cons. split; [set_solver|]. apply NoDup_app. set_solver. }
  assert (i ∉ HEAD :: l1 ++ l2) as Hi.
  { apply NoDup_cons in Hnd as [? Hnd]. apply NoDup_app in Hnd as (?&?&Hnd).
    apply NoDup_cons in Hnd as [? Hnd]. set_solver. }
  split_and!; [by rewrite !length_alter|split_and!|].
  - apply NoDup_cons in Hnd' as [Hh Hnd']. rewrite !NoDup_cons, not_elem_of_cons.
    rewrite not_elem_of_cons in Hi. naive_solver.
  - intros j. rewrite <-Hin, !elem_of_cons, !elem_of_app, elem_of_cons. tauto.
  - eapply push_links; try reflexivity.
    + intros x Hx. rewrite !length_alter. apply Hb. set_solver.
    + done.
    + done.
    + eapply unlink_links; try reflexivity; [exact Hb|unfold HEAD; lia|exact Hnd| |exact Hl].
      by apply NoDup_cons in Hnd as [? _].
  - intros j. rewrite !(alter_field strip) by done. done.
Qed.
