(* ===== verification/BioSpec.v ===== *)
(** * What the buffer cache promises to its clients

    [BInv s pool v] relates a cache state to an abstract one: [v] is the
    contents of every block as the clients see it, and [pool] the blocks that
    are referenced, each with its buffer, its reference count and whether the
    running process holds its lock.  The central clause is that a block that
    nobody references has the same contents on disk, so that recycling its
    buffer loses nothing.  The lemmas below state each operation of
    [kernel/bio.c] on [pool] and [v]. *)

From S2P Require Import Prelude Word Param Bio.

Record bref := Bref { r_slot : nat; r_cnt : Z; r_lock : bool }.

Definition lock_of (me : Z) (locked : bool) : sleeplock :=
  if locked then Sleeplock true me else initsleeplock.

Definition slot_ok (me : Z) (pool : gmap Z bref) (v : Z → block)
    (i : nat) (b : buf) : Prop :=
  (b_valid b = true → b_dev b = ROOTDEV → b_data b = v (b_blockno b)) ∧
  ((b_refcnt b = 0 ∧ b_lock b = initsleeplock) ∨
   (∃ r, pool !! b_blockno b = Some r ∧ r_slot r = i ∧ b_dev b = ROOTDEV ∧
      b_refcnt b = r_cnt r ∧ 0 < r_cnt r < 2 ^ 32 ∧ b_lock b = lock_of me (r_lock r) ∧
      b_valid b = true)).

Record BInv (s : bst) (pool : gmap Z bref) (v : Z → block) : Prop := {
  bi_len : length (bufs s) = S nbuf;
  bi_dll : ∃ l, dll (bufs s) l;
  bi_uniq : ∀ i j, (i < nbuf)%nat → (j < nbuf)%nat →
    b_dev (buf_at s i) = ROOTDEV → b_dev (buf_at s j) = ROOTDEV →
    b_blockno (buf_at s i) = b_blockno (buf_at s j) → i = j;
  bi_slots : ∀ i, (i < nbuf)%nat → slot_ok (me s) pool v i (buf_at s i);
  bi_pool : ∀ b r, pool !! b = Some r →
    (r_slot r < nbuf)%nat ∧ b_dev (buf_at s (r_slot r)) = ROOTDEV ∧
    b_blockno (buf_at s (r_slot r)) = b ∧ b_refcnt (buf_at s (r_slot r)) ≠ 0;
  bi_clean : ∀ b, pool !! b = None → v b = dread (disk s) b;
}.

(** A referenced block, seen from the pool. *)
Lemma BInv_slot s pool v b r :
  BInv s pool v → pool !! b = Some r →
  let x := buf_at s (r_slot r) in
  (r_slot r < nbuf)%nat ∧ b_dev x = ROOTDEV ∧ b_blockno x = b ∧ b_refcnt x = r_cnt r ∧
  0 < r_cnt r < 2 ^ 32 ∧ b_lock x = lock_of (me s) (r_lock r) ∧
  b_valid x = true ∧ b_data x = v b.
Proof.
  intros [_ _ _ Hslots Hpool _] Hr x. destruct (Hpool _ _ Hr) as (Hs & Hd & Hb & Hc).
  destruct (Hslots _ Hs) as [Hv [[Hz _]|(r' & Hr' & ? & _ & ? & ? & ? & ?)]]; [done|].
  fold x in Hd, Hb, Hc, Hv, Hr'. rewrite Hb in *. simplify_eq. naive_solver.
Qed.

(** Replacing the buffer of one slot: the other slots keep their clause if
    the pool and the view change at most at the key of this one. *)
Lemma BInv_update s pool v i f b r' pool' v' d' io' :
  BInv s pool v → (i < nbuf)%nat →
  keeps_links f →
  (∀ j, (j < nbuf)%nat → j ≠ i → b_dev (buf_at s j) = ROOTDEV → b_blockno (buf_at s j) ≠ b) →
  b_dev (f (buf_at s i)) = ROOTDEV → b_blockno (f (buf_at s i)) = b →
  (∀ b', b' ≠ b → pool' !! b' = pool !! b') →
  (∀ b', b' ≠ b → v' b' = v b' ∧ dread d' b' = dread (disk s) b') →
  pool' !! b = r' →
  slot_ok (me s) pool' v' i (f (buf_at s i)) →
  (∀ r, r' = Some r → r_slot r = i ∧ b_refcnt (f (buf_at s i)) ≠ 0) →
  (r' = None → v' b = dread d' b) →
  (∀ b0 r0, pool !! b0 = Some r0 → b0 ≠ b → r_slot r0 ≠ i) →
  BInv (Bst (alter f i (bufs s)) d' io' (me s)) pool' v'.
Proof.
  intros [Hlen [l Hl] Hu Hs Hp Hc] Hi Hf Hkey Hfd Hfb Hpool Hv Hr' Hok Hr Hrn Hoth.
  assert (∀ j, buf_at (Bst (alter f i (bufs s)) d' io' (me s)) j =
               if decide (j = i) then f (buf_at s i) else buf_at s j) as Hat.
  { intros j. unfold buf_at. simpl. rewrite list_lookup_total_alter.
    repeat case_decide; naive_solver lia. }
  split.
  - simpl. by rewrite length_alter.
  - exists l. by apply dll_alter.
  - intros j k Hj Hk. rewrite !Hat. repeat case_decide; subst; [done|..]; intros.
    + exfalso. eapply (Hkey k); first [done|congruence].
    + exfalso. eapply (Hkey j); first [done|congruence].
    + eauto.
  - intros j Hj. rewrite Hat. simpl. case_decide as Hji; [by subst|].
    destruct (Hs j Hj) as [Hv1 Hv2].
    assert (b_dev (buf_at s j) = ROOTDEV → b_blockno (buf_at s j) ≠ b) as Hne by eauto.
    split.
    + intros ??. rewrite (proj1 (Hv _ (Hne ltac:(done)))). auto.
    + destruct Hv2 as [?|(r & Hr1 & Hr2 & Hr3 & ?)]; [by left|right]. exists r.
      rewrite Hpool by auto. done.
  - intros b0 r0 Hb0. rewrite Hat. destruct (decide (b0 = b)) as [->|Hne].
    + rewrite Hr' in Hb0. destruct (Hr _ Hb0) as [-> ?]. rewrite decide_True by done. done.
    + rewrite Hpool in Hb0 by done. rewrite decide_False by eauto. by apply Hp.
  - intros b0 Hb0. simpl. destruct (decide (b0 = b)) as [->|Hne].
    + apply Hrn. congruence.
    + destruct (Hv _ Hne) as [-> ->]. apply Hc. by rewrite <-Hpool.
Qed.

(** ** Sleep-lock steps on a buffer *)
Lemma wp_acquire i (Q : unit → bst → Prop) s :
  sl_locked (b_lock (buf_at s i)) = false →
  Q tt (set_bufs (alter (set_lock (Sleeplock true (me s))) i (bufs s)) s) →
  wp (on_lock i acquiresleep) Q s.
Proof. intros Hl HQ. unfold wp, on_lock, lift, acquiresleep, mbind, K_bind, gets. by rewrite Hl. Qed.

Lemma alter_same_lock i s : set_bufs (alter (set_lock (b_lock (buf_at s i))) i (bufs s)) s = s.
Proof.
  unfold set_bufs. destruct s as [bs d io m]. simpl. f_equal. apply list_eq. intros j.
  unfold buf_at. simpl. rewrite list_lookup_alter. case_decide; [subst|done].
  destruct (bs !! j) as [b|] eqn:E; [|done]. simpl.
  rewrite list_lookup_total_alt, E. by destruct b.
Qed.

Lemma wp_holding i (Q : bool → bst → Prop) s :
  Q (sl_locked (b_lock (buf_at s i)) && (sl_pid (b_lock (buf_at s i)) =? me s)) s →
  wp (on_lock i holdingsleep) Q s.
Proof. intros HQ. unfold wp, on_lock, lift, holdingsleep, gets. by rewrite alter_same_lock. Qed.

Lemma wp_release i (Q : unit → bst → Prop) s :
  Q tt (set_bufs (alter (set_lock initsleeplock) i (bufs s)) s) →
  wp (on_lock i (λ _, releasesleep)) Q s.
Proof. done. Qed.

(** Two updates of one buffer are one. *)
Lemma alter_alter i (f g : buf → buf) s :
  set_bufs (alter f i (bufs (set_bufs (alter g i (bufs s)) s))) (set_bufs (alter g i (bufs s)) s) =
  set_bufs (alter (f ∘ g) i (bufs s)) s.
Proof. unfold set_bufs. simpl. by rewrite list_alter_alter_eq. Qed.

(** ** [bread] *)

(** If every buffer is in use then the pool has [NBUF] blocks. *)
Lemma unused_exists s pool v :
  BInv s pool v → (size pool < nbuf)%nat → ∃ i, (i < nbuf)%nat ∧ b_refcnt (buf_at s i) = 0.
Proof.
  intros [_ _ Hu Hs _ _] Hsz.
  destruct (decide (Forall (λ i, b_refcnt (buf_at s i) ≠ 0) (seq 0 nbuf))) as [Hall|Hex].
  - exfalso.
    assert (∀ i, (i < nbuf)%nat → b_dev (buf_at s i) = ROOTDEV ∧ is_Some (pool !! b_blockno (buf_at s i))) as H.
    { intros i Hi. rewrite Forall_forall in Hall.
      destruct (Hs i Hi) as [_ [[? _]|(r & ? & _ & ? & _)]]; [|by eauto].
      exfalso. apply (Hall i); [apply elem_of_seq; lia|done]. }
    set (bl := (λ i, b_blockno (buf_at s i)) <$> seq 0 nbuf).
    assert (NoDup bl).
    { unfold bl. apply NoDup_fmap_2_strong; [|apply NoDup_seq].
      intros i j ?%elem_of_seq ?%elem_of_seq ?.
      apply Hu; [lia|lia|apply H; lia|apply H; lia|done]. }
    assert (length bl ≤ size pool)%nat; [|by unfold bl in *; rewrite length_fmap, length_seq in *; lia].
    rewrite <-size_dom, <-(size_list_to_set (C:=gset Z)) by done. apply subseteq_size.
    intros b Hb%elem_of_list_to_set. apply list_elem_of_fmap in Hb as (i & -> & Hi%elem_of_seq).
    apply elem_of_dom, H. lia.
  - apply not_Forall_Exists in Hex; [|apply _]. apply Exists_exists in Hex as (i & Hi%elem_of_seq & Hr).
    exists i. split; [lia|]. by destruct (decide (b_refcnt (buf_at s i) = 0)).
Qed.

Lemma BInv_acquire s pool v i f b c :
  BInv s pool v → (i < nbuf)%nat → keeps_links f →
  (∀ j, (j < nbuf)%nat → j ≠ i → b_dev (buf_at s j) = ROOTDEV → b_blockno (buf_at s j) ≠ b) →
  (∀ b0 r0, pool !! b0 = Some r0 → b0 ≠ b → r_slot r0 ≠ i) →
  0 < c < 2 ^ 32 →
  (let x := f (buf_at s i) in
   b_dev x = ROOTDEV ∧ b_blockno x = b ∧ b_refcnt x = c ∧
   b_lock x = Sleeplock true (me s) ∧ b_valid x = true ∧ b_data x = v b) →
  BInv (set_bufs (alter f i (bufs s)) s) (<[b := Bref i c true]> pool) v.
Proof.
  intros Hinv Hi Hf Hkey Hoth Hc (Hd & Hb & Hrc & Hlk & Hv & Hda).
  eapply (BInv_update s pool v i f b (Some (Bref i c true))); try done.
  - intros. by rewrite lookup_insert_ne.
  - by rewrite lookup_insert_eq.
  - split; [congruence|]. right. exists (Bref i c true). rewrite Hb, lookup_insert_eq.
    simpl. naive_solver lia.
  - intros r [= <-]. simpl. split; [done|lia].
Qed.

(** Which buffer [bget] settles on, and that no other buffer has the block. *)
Definition may_read (pool : gmap Z bref) (b : Z) : Prop :=
  match pool !! b with
  | Some r => r_lock r = false ∧ r_cnt r + 1 < 2 ^ 32
  | None => (size pool < nbuf)%nat
  end.

Definition refs (pool : gmap Z bref) (b : Z) : Z := default 0 (r_cnt <$> pool !! b).

Lemma head_filter_Some {A} (P : A → Prop) `{!∀ x, Decision (P x)} (l : list A) x :
  head (filter P l) = Some x → P x ∧ x ∈ l.
Proof.
  intros E. assert (x ∈ filter P l) as Hx.
  { destruct (filter P l); [done|]. simplify_eq/=. set_solver. }
  by apply list_elem_of_filter in Hx.
Qed.

Lemma head_filter_None {A} (P : A → Prop) `{!∀ x, Decision (P x)} (l : list A) x :
  head (filter P l) = None → x ∈ l → ¬ P x.
Proof.
  intros E Hx HP. assert (x ∈ filter P l) as Hf by (by apply list_elem_of_filter).
  destruct (filter P l); [set_solver|done].
Qed.

Lemma last_filter_Some {A} (P : A → Prop) `{!∀ x, Decision (P x)} (l : list A) x :
  last (filter P l) = Some x → P x ∧ x ∈ l.
Proof.
  intros [l' E]%last_Some. assert (x ∈ filter P l) as Hx by (rewrite E; set_solver).
  by apply list_elem_of_filter in Hx.
Qed.

Lemma last_filter_None {A} (P : A → Prop) `{!∀ x, Decision (P x)} (l : list A) x :
  last (filter P l) = None → x ∈ l → ¬ P x.
Proof.
  intros E%last_None Hx HP. assert (x ∈ filter P l) as Hf by (by apply list_elem_of_filter).
  rewrite E in Hf. set_solver.
Qed.

Definition same_disk (s s' : bst) : Prop :=
  disk s' = disk s ∧ io s' = io s ∧ me s' = me s.

(** The part of [bread] after [bget]. *)
Lemma bread_tail s pool v i g b c :
  BInv s pool v → (i < nbuf)%nat → keeps_links g →
  (∀ j, (j < nbuf)%nat → j ≠ i → b_dev (buf_at s j) = ROOTDEV → b_blockno (buf_at s j) ≠ b) →
  (∀ b0 r0, pool !! b0 = Some r0 → b0 ≠ b → r_slot r0 ≠ i) →
  0 < c < 2 ^ 32 →
  (let x := g (buf_at s i) in
   b_dev x = ROOTDEV ∧ b_blockno x = b ∧ b_refcnt x = c ∧ b_lock x = Sleeplock true (me s) ∧
   (b_valid x = true → b_data x = v b) ∧ (b_valid x = false → v b = dread (disk s) b)) →
  wp (v ← getb i b_valid;
      (if (v : bool) then mret tt else disk_rw i false;; upd i (set_valid true));; mret i)
     (λ i' s', i' = i ∧ BInv s' (<[b := Bref i c true]> pool) v ∧ same_disk s s')
     (set_bufs (alter g i (bufs s)) s).
Proof.
  intros Hinv Hi Hg Hkey Hoth Hc (Hd & Hb & Hrc & Hlk & Hvt & Hvf).
  pose proof (bi_len _ _ _ Hinv) as Hlen.
  bsteps. rewrite buf_at_alter_eq by lia.
  destruct (b_valid (g (buf_at s i))) eqn:Hv; bsteps.
  - split; [done|]. split; [|done]. apply BInv_acquire; auto. split_and!; auto.
  - unfold disk_rw. bsteps. rewrite !alter_alter. split; [done|]. split; [|done].
    apply BInv_acquire; auto.
    split_and!; try done. simpl. rewrite buf_at_alter_eq by lia. rewrite Hb. symmetry. auto.
Qed.

Lemma bread_spec s pool v b :
  BInv s pool v → may_read pool b →
  wp (bread ROOTDEV b) (λ i s',
    BInv s' (<[b := Bref i (refs pool b + 1) true]> pool) v ∧ same_disk s s' ∧
    (∀ r, pool !! b = Some r → i = r_slot r)) s.
Proof.
  intros Hinv Hmay. destruct (bi_dll _ _ _ Hinv) as [l Hl].
  pose proof (bi_len _ _ _ Hinv) as Hlen.
  unfold bread. apply wp_bind. unfold bget.
  eapply wp_seq; [by apply bget_lookup_spec|]. intros hit s0 [-> Hhit].
  destruct hit as [i|].
  - symmetry in Hhit. apply head_filter_Some in Hhit as [[Hd Hb] Hi].
    apply Hl in Hi.
    assert (∀ j, (j < nbuf)%nat → j ≠ i → b_dev (buf_at s j) = ROOTDEV → b_blockno (buf_at s j) ≠ b) as Hkey.
    { intros j Hj Hne Hdj Hbj. apply Hne. eapply (bi_uniq _ _ _ Hinv); eauto. by rewrite Hbj. }
    assert (∀ r, pool !! b = Some r → i = r_slot r) as Hslot.
    { intros r Hr. destruct (BInv_slot _ _ _ _ _ Hinv Hr) as (? & ? & ? & _).
      destruct (decide (r_slot r = i)); [done|]. exfalso. by eapply (Hkey (r_slot r)). }
    assert (∀ b0 r0, pool !! b0 = Some r0 → b0 ≠ b → r_slot r0 ≠ i) as Hoth.
    { intros b0 r0 Hr Hne E. destruct (BInv_slot _ _ _ _ _ Hinv Hr) as (? & ? & E' & _).
      rewrite E in E'. unfold buf_at in E'. congruence. }
    assert (b_lock (buf_at s i) = initsleeplock ∧ b_refcnt (buf_at s i) = refs pool b ∧
            0 < refs pool b + 1 < 2 ^ 32 ∧
            (b_valid (buf_at s i) = true → b_data (buf_at s i) = v b) ∧
            (b_valid (buf_at s i) = false → v b = dread (disk s) b)) as (Hlk & Hrc & Hc & Hvt & Hvf).
    { unfold may_read, refs in *. destruct (pool !! b) as [r|] eqn:Hr; simpl.
      - destruct (BInv_slot _ _ _ _ _ Hinv Hr) as (_ & _ & _ & Hr1 & Hc1 & Hlk & Hv1 & Hd1).
        rewrite <-(Hslot r) in * by done. destruct Hmay as [Hun ?]. rewrite Hun in Hlk.
        split_and!; [exact Hlk|done|lia|lia|done|congruence].
      - destruct (bi_slots _ _ _ Hinv i Hi) as [Hv [[??]|(r' & Hr' & _)]].
        + split_and!; try done; [|intros _; by apply (bi_clean _ _ _ Hinv)].
          intros. rewrite Hv by done. by rewrite <-Hb.
        + unfold buf_at in Hr'. congruence. }
    bsteps. apply wp_acquire; [rewrite buf_at_alter_eq by lia; simpl; by rewrite Hlk|].
    bstep. rewrite alter_alter.
    eapply wp_mono; [apply (bread_tail s pool v i _ b (refs pool b + 1)); try done|].
    + simpl. split_and!; try done. rewrite Hrc. apply wrap_small; lia.
    + intros i' s' (-> & ? & ?). done.
  - symmetry in Hhit.
    assert (∀ j, (j < nbuf)%nat → b_dev (buf_at s j) = ROOTDEV → b_blockno (buf_at s j) ≠ b) as Hkey.
    { intros j Hj Hdj Hbj. apply Hl in Hj. by apply (head_filter_None _ _ j Hhit Hj). }
    assert (pool !! b = None) as Hnone.
    { destruct (pool !! b) as [r|] eqn:Hr; [|done].
      destruct (BInv_slot _ _ _ _ _ Hinv Hr) as (? & ? & ? & _). exfalso. by eapply (Hkey (r_slot r)). }
    unfold may_read in Hmay. rewrite Hnone in Hmay.
    apply wp_bind. eapply wp_mono; [by apply bget_lru_spec|]. intros lru s0 [-> Hlru].
    destruct lru as [i|].
    + symmetry in Hlru. apply last_filter_Some in Hlru as [Hun Hi]. apply Hl in Hi.
      bsteps. apply wp_acquire.
      { rewrite !alter_alter, buf_at_alter_eq by lia. simpl.
        destruct (bi_slots _ _ _ Hinv i Hi) as [Hv [[? Hlk]|(r' & _ & _ & _ & ? & ? & _)]]; [by rewrite Hlk|].
        unfold is_unused, buf_at in *. lia. }
      bstep. rewrite !alter_alter.
      eapply wp_mono; [apply (bread_tail s pool v i _ b 1); try done|].
      * auto.
      * intros b0 r0 Hr Hne E. apply (bi_pool _ _ _ Hinv) in Hr as (_ & _ & _ & Hnz).
        rewrite E in Hnz. done.
      * simpl. split_and!; try done. intros _. by apply (bi_clean _ _ _ Hinv).
      * intros i' s' (-> & ? & ?). unfold refs. rewrite Hnone. split_and!; naive_solver.
    + exfalso. destruct (unused_exists _ _ _ Hinv Hmay) as (i & Hi & Hun).
      apply Hl in Hi. by apply (last_filter_None _ _ i (eq_sym Hlru) Hi).
Qed.

(** ** The other operations *)

(** A state that differs only in the links of the buffers. *)
Lemma BInv_relink s pool v bs :
  BInv s pool v → length bs = S nbuf → (∃ l, dll bs l) →
  (∀ j, strip (bs !!! j) = strip (bufs s !!! j)) →
  BInv (set_bufs bs s) pool v.
Proof.
  intros [Hlen _ Hu Hs Hp Hc] Hlen' Hl Hst.
  assert (∀ j, ∃ n p, buf_at (set_bufs bs s) j = set_next n (set_prev p (buf_at s j))) as Hat.
  { intros j. exists (b_next (bs !!! j)), (b_prev (bs !!! j)). specialize (Hst j).
    unfold buf_at, strip in *. simpl. destruct (bs !!! j), (bufs s !!! j). by simplify_eq/=. }
  split; try done.
  - intros i j ??. destruct (Hat i) as (?&?&->), (Hat j) as (?&?&->). by apply Hu.
  - intros i Hi. destruct (Hat i) as (?&?&->). by apply Hs.
  - intros b r Hr. destruct (Hat (r_slot r)) as (?&?&->). by apply Hp.
Qed.

(** One buffer of the pool, changed in place. *)
Lemma BInv_pool_update s pool v b r f r' v' d' io' :
  BInv s pool v → pool !! b = Some r → keeps_links f →
  (let x := f (buf_at s (r_slot r)) in
   b_dev x = ROOTDEV ∧ b_blockno x = b ∧ b_refcnt x = r_cnt r' ∧
   b_lock x = lock_of (me s) (r_lock r') ∧ b_valid x = true ∧ b_data x = v' b) →
  r_slot r' = r_slot r → 0 < r_cnt r' < 2 ^ 32 →
  (∀ b', b' ≠ b → v' b' = v b' ∧ dread d' b' = dread (disk s) b') →
  BInv (Bst (alter f (r_slot r) (bufs s)) d' io' (me s)) (<[b := r']> pool) v'.
Proof.
  intros Hinv Hr Hf (Hd & Hb & Hrc & Hlk & Hv & Hda) Hsl Hc Hv'.
  destruct (BInv_slot _ _ _ _ _ Hinv Hr) as (Hs & Hd0 & Hb0 & _).
  eapply (BInv_update s pool v (r_slot r) f b (Some r')); try done.
  - intros j Hj Hne Hdj Hbj. apply Hne. eapply (bi_uniq _ _ _ Hinv); eauto. congruence.
  - intros. by rewrite lookup_insert_ne.
  - by rewrite lookup_insert_eq.
  - split; [congruence|]. right. exists r'. rewrite Hb, lookup_insert_eq. done.
  - intros r0 [= <-]. split; [done|lia].
  - intros b1 r1 Hr1 Hne E. destruct (BInv_slot _ _ _ _ _ Hinv Hr1) as (_ & _ & Hb1 & _).
    rewrite E in Hb1. congruence.
Qed.

Lemma set_bufs_eq s f i : set_bufs (alter f i (bufs s)) s = Bst (alter f i (bufs s)) (disk s) (io s) (me s).
Proof. done. Qed.

Lemma bpin_spec s pool v b r :
  BInv s pool v → pool !! b = Some r → r_cnt r + 1 < 2 ^ 32 →
  wp (bpin (r_slot r)) (λ _ s',
    BInv s' (<[b := Bref (r_slot r) (r_cnt r + 1) (r_lock r)]> pool) v ∧ same_disk s s') s.
Proof.
  intros Hinv Hr Hc. destruct (BInv_slot _ _ _ _ _ Hinv Hr) as (_ & ? & ? & Hrc & ? & ? & ? & ?).
  unfold bpin. bsteps. split; [|done]. rewrite set_bufs_eq.
  eapply BInv_pool_update; try done; [|simpl; lia].
  simpl. split_and!; try done. rewrite Hrc. apply wrap_small. lia.
Qed.

Lemma bunpin_spec s pool v b r :
  BInv s pool v → pool !! b = Some r → 1 < r_cnt r →
  wp (bunpin (r_slot r)) (λ _ s',
    BInv s' (<[b := Bref (r_slot r) (r_cnt r - 1) (r_lock r)]> pool) v ∧ same_disk s s') s.
Proof.
  intros Hinv Hr Hc. destruct (BInv_slot _ _ _ _ _ Hinv Hr) as (_ & ? & ? & Hrc & ? & ? & ? & ?).
  unfold bunpin. bsteps. split; [|done]. rewrite set_bufs_eq.
  eapply BInv_pool_update; try done; [|simpl; lia].
  simpl. split_and!; try done. rewrite Hrc. apply wrap_small. lia.
Qed.

Lemma bdata_spec s pool v b r (Q : block → bst → Prop) :
  BInv s pool v → pool !! b = Some r → Q (v b) s → wp (bdata (r_slot r)) Q s.
Proof.
  intros Hinv Hr HQ. destruct (BInv_slot _ _ _ _ _ Hinv Hr) as (_ & _ & _ & _ & _ & _ & _ & Hd).
  unfold bdata. bsteps. by rewrite Hd.
Qed.

Lemma bset_data_spec s pool v b r d :
  BInv s pool v → pool !! b = Some r →
  wp (bset_data (r_slot r) d) (λ _ s', BInv s' pool (<[b := d]> v) ∧ same_disk s s') s.
Proof.
  intros Hinv Hr. destruct (BInv_slot _ _ _ _ _ Hinv Hr) as (_ & ? & ? & ? & ? & ? & ? & ?).
  unfold bset_data. bsteps. split; [|done]. rewrite set_bufs_eq, <-(insert_id pool b r) by done.
  eapply BInv_pool_update; try done.
  - split_and!; try done. simpl. by rewrite fn_lookup_insert.
  - intros b' Hne. by rewrite fn_lookup_insert_ne.
Qed.

Lemma dread_insert_eq d b x : dread (<[b := x]> d) b = x.
Proof. unfold dread. by rewrite lookup_insert_eq. Qed.
Lemma dread_insert_ne d b b' x : b ≠ b' → dread (<[b := x]> d) b' = dread d b'.
Proof. intros. unfold dread. by rewrite lookup_insert_ne. Qed.

Lemma bwrite_spec s pool v b r :
  BInv s pool v → pool !! b = Some r → r_lock r = true →
  wp (bwrite (r_slot r)) (λ _ s',
    BInv s' pool v ∧ disk s' = <[b := v b]> (disk s) ∧
    io s' = io s ++ [(b, v b)] ∧ me s' = me s) s.
Proof.
  intros Hinv Hr Hl.
  destruct (BInv_slot _ _ _ _ _ Hinv Hr) as (? & ? & Hb & ? & ? & Hlk & ? & Hda).
  rewrite Hl in Hlk. unfold bwrite. apply wp_bind, wp_holding. rewrite Hlk. simpl.
  rewrite Z.eqb_refl. simpl. unfold disk_rw. bsteps. rewrite Hb, Hda. split; [|done].
  rewrite <-(insert_id pool b r) by done.
  eapply (BInv_pool_update s pool v b r); try done.
  - rewrite Hl. done.
  - intros b1 Hne. split; [done|]. simpl. by rewrite dread_insert_ne.
Qed.

(** [brelse]: the last release needs the block to be clean. *)
Definition release_pool (pool : gmap Z bref) (b : Z) (r : bref) : gmap Z bref :=
  if r_cnt r =? 1 then delete b pool else <[b := Bref (r_slot r) (r_cnt r - 1) false]> pool.

Lemma brelse_spec s pool v b r :
  BInv s pool v → pool !! b = Some r → r_lock r = true →
  (r_cnt r = 1 → v b = dread (disk s) b) →
  wp (brelse (r_slot r)) (λ _ s', BInv s' (release_pool pool b r) v ∧ same_disk s s') s.
Proof.
  intros Hinv Hr Hl Hclean. pose proof (bi_len _ _ _ Hinv) as Hlen.
  destruct (BInv_slot _ _ _ _ _ Hinv Hr) as (Hs & Hd & Hb & Hrc & Hc & Hlk & Hv & Hda).
  rewrite Hl in Hlk. unfold brelse. apply wp_bind, wp_holding. rewrite Hlk. simpl.
  rewrite Z.eqb_refl. simpl. bsteps. apply wp_release. bsteps.
  rewrite alter_alter. rewrite !buf_at_alter_eq by lia. simpl. rewrite Hrc.
  unfold u32. rewrite wrap_small by lia.
  set (f := set_refcnt (r_cnt r - 1) ∘ set_lock initsleeplock).
  assert (BInv (set_bufs (alter f (r_slot r) (bufs s)) s) (release_pool pool b r) v) as Hinv'.
  { unfold release_pool. destruct (Z.eqb_spec (r_cnt r) 1) as [E|E].
    - eapply (BInv_update s pool v (r_slot r) f b None); try done.
      + intros j Hj Hne Hdj Hbj. apply Hne. eapply (bi_uniq _ _ _ Hinv); eauto. congruence.
      + intros. by rewrite lookup_delete_ne.
      + by rewrite lookup_delete_eq.
      + split; [simpl; congruence|]. left. simpl. split; [lia|done].
      + auto.
      + intros b1 r1 Hr1 Hne E1. destruct (BInv_slot _ _ _ _ _ Hinv Hr1) as (_ & _ & Hb1 & _).
        rewrite E1 in Hb1. congruence.
    - rewrite set_bufs_eq. eapply BInv_pool_update; try done. simpl. lia. }
  apply wp_when; [|done]. intros _.
  destruct (bi_dll _ _ _ Hinv') as [l Hdll].
  assert (r_slot r ∈ l) as Hin by (by apply Hdll).
  apply list_elem_of_split in Hin as (l1 & l2 & ->).
  eapply wp_mono; [apply move_front_spec; [apply Hinv'|exact Hdll]|].
  intros _ s' (bs & -> & Hbl & Hdll' & Hst). split; [|done].
  apply BInv_relink; eauto.
Qed.

(** [held pool b i]: buffer [i] is the one of block [b], and locked by us. *)
Definition held (pool : gmap Z bref) (b : Z) (i : nat) : Prop :=
  ∃ r, pool !! b = Some r ∧ r_lock r = true ∧ r_slot r = i.

Lemma held_insert pool b r' b' i :
  held (<[b := r']> pool) b' i ↔
  (b = b' ∧ r_lock r' = true ∧ r_slot r' = i) ∨ (b ≠ b' ∧ held pool b' i).
Proof.
  unfold held. destruct (decide (b = b')) as [->|Hne].
  - rewrite lookup_insert_eq. naive_solver.
  - rewrite lookup_insert_ne by done. naive_solver.
Qed.

Lemma held_delete pool b b' i : held (delete b pool) b' i ↔ b ≠ b' ∧ held pool b' i.
Proof.
  unfold held. destruct (decide (b = b')) as [->|Hne].
  - rewrite lookup_delete_eq. naive_solver.
  - rewrite lookup_delete_ne by done. naive_solver.
Qed.

(** ** The client's view: held buffers and pinned blocks

    [PInv s v H P]: the running process holds (between [bread] and [brelse])
    the buffers of the blocks of [H], and the blocks of [P] are pinned by one
    extra reference each.  Every other block is clean. *)
Definition PInv (s : bst) (v : Z → block) (H : gmap Z nat) (P : gset Z) : Prop :=
  ∃ pool, BInv s pool v ∧
    (∀ b r, pool !! b = Some r →
       r_cnt r = Z.b2z (bool_decide (b ∈ P)) + Z.b2z (r_lock r)) ∧
    (∀ b, b ∈ P → is_Some (pool !! b)) ∧
    (∀ b i, H !! b = Some i ↔ held pool b i).

Section client.
Implicit Types (s : bst) (v : Z → block) (H : gmap Z nat) (P : gset Z).

Lemma PInv_clean s v H P b :
  PInv s v H P → H !! b = None → b ∉ P → v b = dread (disk s) b.
Proof.
  intros (pool & Hinv & Hcnt & HP & HH) Hn Hb. apply (bi_clean _ _ _ Hinv).
  destruct (pool !! b) as [r|] eqn:Hr; [exfalso|done].
  destruct (BInv_slot _ _ _ _ _ Hinv Hr) as (_ & _ & _ & _ & Hc & _).
  rewrite (Hcnt _ _ Hr), bool_decide_false in Hc by done.
  destruct (r_lock r) eqn:Hl; [|simpl in Hc; lia].
  assert (H !! b = Some (r_slot r)) by (apply HH; by exists r). congruence.
Qed.

Lemma PInv_pool_size s v H P pool :
  BInv s pool v →
  (∀ b r, pool !! b = Some r → r_cnt r = Z.b2z (bool_decide (b ∈ P)) + Z.b2z (r_lock r)) →
  (∀ b i, H !! b = Some i ↔ held pool b i) →
  (size pool ≤ size P + size H)%nat.
Proof.
  intros Hinv Hcnt HH. rewrite <-(size_dom H), <-size_dom.
  transitivity (size (P ∪ dom H)); [|rewrite size_union_alt; pose proof (subseteq_size (dom H ∖ P) (dom H) ltac:(set_solver)); lia].
  apply subseteq_size. intros b [r Hr]%elem_of_dom. apply elem_of_union.
  destruct (decide (b ∈ P)) as [|Hb]; [by left|right].
  destruct (BInv_slot _ _ _ _ _ Hinv Hr) as (_ & _ & _ & _ & Hc & _).
  rewrite (Hcnt _ _ Hr), bool_decide_false in Hc by done.
  destruct (r_lock r) eqn:Hl; [|simpl in Hc; lia].
  apply elem_of_dom. exists (r_slot r). apply HH. by exists r.
Qed.

Lemma pread_spec s v H P b :
  PInv s v H P → H !! b = None → b ∈ P ∨ (size P + size H < nbuf)%nat →
  wp (bread ROOTDEV b) (λ i s', PInv s' v (<[b := i]> H) P ∧ same_disk s s') s.
Proof.
  intros (pool & Hinv & Hcnt & HP & HH) Hn Hroom.
  assert (∀ r, pool !! b = Some r → r_lock r = false) as Hun.
  { intros r Hr. destruct (r_lock r) eqn:Hl; [|done].
    assert (H !! b = Some (r_slot r)) by (apply HH; by exists r). congruence. }
  assert (may_read pool b) as Hmay.
  { unfold may_read. destruct (pool !! b) as [r|] eqn:Hr.
    - split; [auto|]. rewrite (Hcnt _ _ Hr). case_bool_decide; destruct (r_lock r); simpl; lia.
    - destruct Hroom as [Hb|]; [apply HP in Hb as [? ?]; congruence|].
      pose proof (PInv_pool_size _ _ _ _ _ Hinv Hcnt HH). lia. }
  eapply wp_mono; [by apply bread_spec|]. intros i s' (Hinv' & Hd & Hi). split; [|done].
  eexists. split; [exact Hinv'|]. split_and!.
  - intros b' r'. destruct (decide (b' = b)) as [->|Hne].
    + rewrite lookup_insert_eq. intros [= <-]. simpl. unfold refs.
      destruct (pool !! b) as [r|] eqn:Hr; simpl.
      * rewrite (Hcnt _ _ Hr), (Hun r) by done. simpl. lia.
      * rewrite bool_decide_false; [done|]. intros Hb. apply HP in Hb as [? ?]. congruence.
    + rewrite lookup_insert_ne by done. apply Hcnt.
  - intros b' Hb'. rewrite lookup_insert. case_decide; [by eexists|auto].
  - intros b' i'. destruct (decide (b' = b)) as [->|Hne].
    + rewrite lookup_insert_eq, held_insert. simpl. naive_solver.
    + rewrite lookup_insert_ne, held_insert, HH by done. naive_solver.
Qed.

Lemma pdata_spec s v H P b i (Q : block → bst → Prop) :
  PInv s v H P → H !! b = Some i → Q (v b) s → wp (bdata i) Q s.
Proof.
  intros (pool & Hinv & Hcnt & HP & HH) (r & Hr & _ & <-)%HH HQ. by eapply bdata_spec.
Qed.

Lemma pblockno_spec s v H P b i (Q : Z → bst → Prop) :
  PInv s v H P → H !! b = Some i → Q b s → wp (getb i b_blockno) Q s.
Proof.
  intros (pool & Hinv & Hcnt & HP & HH) (r & Hr & _ & <-)%HH HQ. apply wp_getb.
  by destruct (BInv_slot _ _ _ _ _ Hinv Hr) as (_ & _ & -> & _).
Qed.

Lemma pset_data_spec s v H P b i d :
  PInv s v H P → H !! b = Some i →
  wp (bset_data i d) (λ _ s', PInv s' (<[b := d]> v) H P ∧ same_disk s s') s.
Proof.
  intros (pool & Hinv & Hcnt & HP & HH) (r & Hr & _ & <-)%HH.
  eapply wp_mono; [by eapply bset_data_spec|]. intros _ s' [Hinv' Hd]. split; [|done].
  by exists pool.
Qed.

Lemma pwrite_spec s v H P b i :
  PInv s v H P → H !! b = Some i →
  wp (bwrite i) (λ _ s', PInv s' v H P ∧ disk s' = <[b := v b]> (disk s) ∧
                         io s' = io s ++ [(b, v b)] ∧ me s' = me s) s.
Proof.
  intros (pool & Hinv & Hcnt & HP & HH) (r & Hr & ? & <-)%HH.
  eapply wp_mono; [by eapply bwrite_spec|]. intros _ s' [Hinv' Hd]. split; [|done].
  by exists pool.
Qed.

(** Adding or dropping a pin on a held buffer. *)
Lemma PInv_repin s s' v H P P' pool b r c :
  BInv s' (<[b := Bref (r_slot r) c (r_lock r)]> pool) v →
  (∀ b r, pool !! b = Some r → r_cnt r = Z.b2z (bool_decide (b ∈ P)) + Z.b2z (r_lock r)) →
  (∀ b, b ∈ P → is_Some (pool !! b)) →
  (∀ b i, H !! b = Some i ↔ held pool b i) →
  pool !! b = Some r → c = Z.b2z (bool_decide (b ∈ P')) + Z.b2z (r_lock r) →
  (∀ b', b' ≠ b → b' ∈ P' ↔ b' ∈ P) → PInv s' v H P'.
Proof.
  intros Hinv' Hcnt HP HH Hr -> HP'. eexists. split; [exact Hinv'|]. split_and!.
  - intros b' r' [[<- <-]|[Hne Hr']]%lookup_insert_Some; [done|].
    rewrite (Hcnt _ _ Hr'). do 2 f_equal. apply bool_decide_ext. by rewrite HP'.
  - intros b' Hb'. rewrite lookup_insert_is_Some.
    destruct (decide (b = b')); [by left|right]. split; [done|].
    by apply HP, HP'.
  - intros b' i'. rewrite HH. rewrite held_insert.
    simpl. unfold held. destruct (decide (b = b')); naive_solver.
Qed.

Lemma ppin_spec s v H P b i :
  PInv s v H P → H !! b = Some i → b ∉ P →
  wp (bpin i) (λ _ s', PInv s' v H ({[b]} ∪ P) ∧ same_disk s s') s.
Proof.
  intros (pool & Hinv & Hcnt & HP & HH) (r & Hr & Hl & <-)%HH Hb.
  pose proof (Hcnt _ _ Hr) as Hc. rewrite bool_decide_false, Hl in Hc by done. simpl in Hc.
  eapply wp_mono; [eapply bpin_spec; [done|done|lia]|]. intros _ s' [Hinv' Hd]. split; [|done].
  eapply PInv_repin; eauto; [|set_solver].
  rewrite bool_decide_true by set_solver. rewrite Hl, Hc. done.
Qed.

Lemma punpin_spec s v H P b i :
  PInv s v H P → H !! b = Some i → b ∈ P →
  wp (bunpin i) (λ _ s', PInv s' v H (P ∖ {[b]}) ∧ same_disk s s') s.
Proof.
  intros (pool & Hinv & Hcnt & HP & HH) (r & Hr & Hl & <-)%HH Hb.
  pose proof (Hcnt _ _ Hr) as Hc. rewrite bool_decide_true, Hl in Hc by done. simpl in Hc.
  eapply wp_mono; [eapply bunpin_spec; [done|done|lia]|]. intros _ s' [Hinv' Hd]. split; [|done].
  eapply PInv_repin; eauto; [|set_solver].
  rewrite bool_decide_false by set_solver. rewrite Hl, Hc. done.
Qed.

Lemma prelse_spec s v H P b i :
  PInv s v H P → H !! b = Some i → b ∈ P ∨ v b = dread (disk s) b →
  wp (brelse i) (λ _ s', PInv s' v (delete b H) P ∧ same_disk s s') s.
Proof.
  intros (pool & Hinv & Hcnt & HP & HH) (r & Hr & Hl & <-)%HH Hb.
  pose proof (Hcnt _ _ Hr) as Hc. rewrite Hl in Hc. simpl in Hc.
  eapply wp_mono; [eapply brelse_spec; [done|done|done|]|].
  { intros E. destruct Hb as [Hb|]; [|done]. rewrite bool_decide_true in Hc by done. simpl in Hc. lia. }
  intros _ s' [Hinv' Hd]. split; [|done]. eexists. split; [exact Hinv'|].
  unfold release_pool. rewrite Hc.
  destruct (decide (b ∈ P)) as [HbP|HbP];
    [rewrite bool_decide_true by done|rewrite bool_decide_false by done]; simpl; split_and!.
  - intros b' r' [[<- <-]|[Hne Hr']]%lookup_insert_Some; [|by apply Hcnt].
    by rewrite bool_decide_true.
  - intros b' Hb'. rewrite lookup_insert_is_Some. destruct (decide (b = b')); [by left|right; auto].
  - intros b' i'. rewrite lookup_delete_Some, HH, held_insert. unfold held. naive_solver.
  - intros b' r' [_ Hr']%lookup_delete_Some. by apply Hcnt.
  - intros b' Hb'. rewrite lookup_delete_is_Some. split; [by intros ->|auto].
  - intros b' i'. rewrite lookup_delete_Some, HH, held_delete. done.
Qed.
End client.
