(* ===== verification/Virtio.v ===== *)
(** * The disk driver ([kernel/virtio_disk.c], [kernel/virtio.h])

    Descriptors, the two rings and the book-keeping of the driver.  The arrays
    of the C code are functions of the index; the indices used are those that
    [alloc_desc] hands out.  An address given to the device is the object it
    points to. *)

From S2P Require Import Prelude Word Param Bio.

Definition NUM : Z := 8.
Definition VRING_DESC_F_NEXT : Z := 1.
Definition VRING_DESC_F_WRITE : Z := 2.
Definition VIRTIO_BLK_T_IN : Z := 0.
Definition VIRTIO_BLK_T_OUT : Z := 1.

(** Objects with an address: nothing, [&disk.ops[i]], [b->data],
    [&disk.info[i].status]. *)
Inductive ptr := Null | POps (i : Z) | PData (b : Z) | PStatus (i : Z).

Record virtq_desc := Desc { d_addr : ptr; d_len : Z; d_flags : Z; d_next : Z }.
Record virtio_blk_req := Req { r_type : Z; r_reserved : Z; r_sector : Z }.
Definition sizeof_blk_req : Z := 16.
(** The fields of [struct buf] the driver uses. *)
Record dbuf := Dbuf { v_disk : Z; v_blockno : Z; v_data : block }.

(** [struct disk], with what it points to, and the buffers. *)
Record vst := Vst {
  desc : Z → virtq_desc;
  avail_ring : Z → Z;
  avail_idx : Z;
  used_ring : Z → Z;
  used_dev : Z;               (** [disk.used->idx] *)
  dfree : Z → bool;
  used_idx : Z;
  info_b : Z → option Z;
  info_status : Z → Z;
  ops : Z → virtio_blk_req;
  vbufs : Z → dbuf;
}.

Definition set_desc (i : Z) (d : virtq_desc) (s : vst) : vst :=
  Vst (<[i := d]> (desc s)) (avail_ring s) (avail_idx s) (used_ring s) (used_dev s) (dfree s) (used_idx s) (info_b s) (info_status s) (ops s) (vbufs s).
Definition set_free (i : Z) (b : bool) (s : vst) : vst :=
  Vst (desc s) (avail_ring s) (avail_idx s) (used_ring s) (used_dev s) (<[i := b]> (dfree s)) (used_idx s) (info_b s) (info_status s) (ops s) (vbufs s).
Definition set_avail (i head idx : Z) (s : vst) : vst :=
  Vst (desc s) (<[i := head]> (avail_ring s)) idx (used_ring s) (used_dev s) (dfree s) (used_idx s) (info_b s) (info_status s) (ops s) (vbufs s).
Definition set_used (i head idx : Z) (s : vst) : vst :=
  Vst (desc s) (avail_ring s) (avail_idx s) (<[i := head]> (used_ring s)) idx (dfree s) (used_idx s) (info_b s) (info_status s) (ops s) (vbufs s).
Definition set_used_idx (i : Z) (s : vst) : vst :=
  Vst (desc s) (avail_ring s) (avail_idx s) (used_ring s) (used_dev s) (dfree s) i (info_b s) (info_status s) (ops s) (vbufs s).
Definition set_info_b (i : Z) (b : option Z) (s : vst) : vst :=
  Vst (desc s) (avail_ring s) (avail_idx s) (used_ring s) (used_dev s) (dfree s) (used_idx s) (<[i := b]> (info_b s)) (info_status s) (ops s) (vbufs s).
Definition set_status (i x : Z) (s : vst) : vst :=
  Vst (desc s) (avail_ring s) (avail_idx s) (used_ring s) (used_dev s) (dfree s) (used_idx s) (info_b s) (<[i := x]> (info_status s)) (ops s) (vbufs s).
Definition set_ops (i : Z) (r : virtio_blk_req) (s : vst) : vst :=
  Vst (desc s) (avail_ring s) (avail_idx s) (used_ring s) (used_dev s) (dfree s) (used_idx s) (info_b s) (info_status s) (<[i := r]> (ops s)) (vbufs s).
Definition set_vbuf (b : Z) (x : dbuf) (s : vst) : vst :=
  Vst (desc s) (avail_ring s) (avail_idx s) (used_ring s) (used_dev s) (dfree s) (used_idx s) (info_b s) (info_status s) (ops s) (<[b := x]> (vbufs s)).
(** [b->disk = x] *)
Definition set_vdisk (b x : Z) (s : vst) : vst :=
  set_vbuf b (Dbuf x (v_blockno (vbufs s b)) (v_data (vbufs s b))) s.

(** ** Descriptors *)
Definition alloc_desc : K vst Z :=
  r ← for_loop (Z.to_nat NUM) 0 (λ i,
    f ← gets (λ s, dfree s i);
    if f : bool then modify (set_free i false);; mret (Some i) else mret None);
  mret (default (-1) r).

(** [wakeup(&disk.free[0])] makes processes retry that sleep in
    [virtio_disk_rw]. *)
Definition free_desc (i : Z) : K vst unit :=
  panic_if (NUM <=? i) "free_desc 1";;
  f ← gets (λ s, dfree s i);
  panic_if f "free_desc 2";;
  modify (set_desc i (Desc Null 0 0 0));;
  modify (set_free i true).

(** A chain has at most [NUM] descriptors. *)
Definition free_chain (i : Z) : K vst unit :=
  while_loop (S (Z.to_nat NUM)) i (λ i,
    d ← gets (λ s, desc s i);
    free_desc i;;
    if negb (Z.land (d_flags d) VRING_DESC_F_NEXT =? 0) then mret (inl (d_next d)) else mret (inr tt)).

(** The three rounds of the loop; those allocated are given back. *)
Definition alloc3_desc : K vst (option (Z * Z * Z)) :=
  i0 ← alloc_desc;
  if i0 <? 0 then mret None else
  i1 ← alloc_desc;
  if i1 <? 0 then free_desc i0;; mret None else
  i2 ← alloc_desc;
  if i2 <? 0 then free_desc i0;; free_desc i1;; mret None else
  mret (Some (i0, i1, i2)).

(** ** [virtio_disk_rw]

    Up to the sleep for the completion: the head of the chain, or [None] when
    there are no three descriptors and the process sleeps for them. *)
Definition virtio_submit (b : Z) (write : bool) : K vst (option Z) :=
  x ← gets (λ s, vbufs s b);
  let sector := u32 (v_blockno x * (BSIZE / 512)) in
  o ← alloc3_desc;
  match o with
  | None => mret None
  | Some (i0, i1, i2) =>
      modify (set_ops i0 (Req (if write then VIRTIO_BLK_T_OUT else VIRTIO_BLK_T_IN) 0 sector));;
      modify (set_desc i0 (Desc (POps i0) sizeof_blk_req VRING_DESC_F_NEXT i1));;
      modify (set_desc i1 (Desc (PData b) BSIZE (Z.lor (if write then 0 else VRING_DESC_F_WRITE) VRING_DESC_F_NEXT) i2));;
      modify (set_status i0 0xff);;
      modify (set_desc i2 (Desc (PStatus i0) 1 VRING_DESC_F_WRITE 0));;
      modify (set_vdisk b 1);;
      modify (set_info_b i0 (Some b));;
      idx ← gets avail_idx;
      modify (set_avail (idx mod NUM) i0 (u16 (idx + 1)));;
      mret (Some i0)
  end.

(** After the completion. *)
Definition virtio_finish (i0 : Z) : K vst unit :=
  modify (set_info_b i0 None);;
  free_chain i0.

(** The loop ends when the driver has seen as much as the device has done. *)
Definition virtio_disk_intr : K vst unit :=
  n ← gets (λ s, u16 (used_dev s - used_idx s));
  while_loop (S (Z.to_nat n)) tt (λ _,
    ui ← gets used_idx;
    ud ← gets used_dev;
    if ui =? ud then mret (inr tt)
    else
      id ← gets (λ s, used_ring s (ui mod NUM));
      st ← gets (λ s, info_status s id);
      panic_if (negb (st =? 0)) "virtio_disk_intr status";;
      o ← gets (λ s, info_b s id);
      match o with
      | None => undefined "virtio_disk_intr: b"
      | Some b =>
          modify (set_vdisk b 0);;
          modify (set_used_idx (u16 (ui + 1)));;
          mret (inl tt)
      end).

(** ** [virtio_disk_init]

    [R] is what the registers of the device read; the registers written are
    recorded in order.  [desc_], [avail] and [used] are the pages that [kalloc]
    has returned. *)
Definition VIRTIO_MMIO_MAGIC_VALUE : Z := 0x000.
Definition VIRTIO_MMIO_VERSION : Z := 0x004.
Definition VIRTIO_MMIO_DEVICE_ID : Z := 0x008.
Definition VIRTIO_MMIO_VENDOR_ID : Z := 0x00c.
Definition VIRTIO_MMIO_DEVICE_FEATURES : Z := 0x010.
Definition VIRTIO_MMIO_DRIVER_FEATURES : Z := 0x020.
Definition VIRTIO_MMIO_QUEUE_SEL : Z := 0x030.
Definition VIRTIO_MMIO_QUEUE_NUM_MAX : Z := 0x034.
Definition VIRTIO_MMIO_QUEUE_NUM : Z := 0x038.
Definition VIRTIO_MMIO_QUEUE_READY : Z := 0x044.
Definition VIRTIO_MMIO_STATUS : Z := 0x070.
Definition VIRTIO_MMIO_QUEUE_DESC_LOW : Z := 0x080.
Definition VIRTIO_MMIO_QUEUE_DESC_HIGH : Z := 0x084.
Definition VIRTIO_MMIO_DRIVER_DESC_LOW : Z := 0x090.
Definition VIRTIO_MMIO_DRIVER_DESC_HIGH : Z := 0x094.
Definition VIRTIO_MMIO_DEVICE_DESC_LOW : Z := 0x0a0.
Definition VIRTIO_MMIO_DEVICE_DESC_HIGH : Z := 0x0a4.
(** Status bits 1, 2, 4 and 8, and the feature bits that are turned off. *)
Definition VIRTIO_CONFIG_S_ACKNOWLEDGE : Z := 1.
Definition VIRTIO_CONFIG_S_DRIVER : Z := 2.
Definition VIRTIO_CONFIG_S_DRIVER_OK : Z := 4.
Definition VIRTIO_CONFIG_S_FEATURES_OK : Z := 8.
Definition features_off : list Z := [5; 7; 11; 12; 27; 29; 28].

Section init.
Context (R : Z → Z) (desc_ avail used : Z).
Definition wr (r v : Z) : K (vst * list (Z * Z)) unit := modify (λ '(s, l), (s, l ++ [(r, u32 v)])).

Definition virtio_disk_init : K (vst * list (Z * Z)) unit :=
  panic_if (negb ((R VIRTIO_MMIO_MAGIC_VALUE =? 0x74726976) && (R VIRTIO_MMIO_VERSION =? 2) &&
                  (R VIRTIO_MMIO_DEVICE_ID =? 2) && (R VIRTIO_MMIO_VENDOR_ID =? 0x554d4551)))
    "could not find virtio disk";;
  wr VIRTIO_MMIO_STATUS 0;;
  wr VIRTIO_MMIO_STATUS VIRTIO_CONFIG_S_ACKNOWLEDGE;;
  wr VIRTIO_MMIO_STATUS (Z.lor VIRTIO_CONFIG_S_ACKNOWLEDGE VIRTIO_CONFIG_S_DRIVER);;
  wr VIRTIO_MMIO_DRIVER_FEATURES
    (foldl (λ f b, Z.land f (Z.lnot (Z.shiftl 1 b))) (R VIRTIO_MMIO_DEVICE_FEATURES) features_off);;
  wr VIRTIO_MMIO_STATUS (Z.lor (Z.lor VIRTIO_CONFIG_S_ACKNOWLEDGE VIRTIO_CONFIG_S_DRIVER) VIRTIO_CONFIG_S_FEATURES_OK);;
  let status := R VIRTIO_MMIO_STATUS in
  panic_if (Z.land status VIRTIO_CONFIG_S_FEATURES_OK =? 0) "virtio disk FEATURES_OK unset";;
  wr VIRTIO_MMIO_QUEUE_SEL 0;;
  panic_if (negb (R VIRTIO_MMIO_QUEUE_READY =? 0)) "virtio disk should not be ready";;
  let max := R VIRTIO_MMIO_QUEUE_NUM_MAX in
  panic_if (max =? 0) "virtio disk has no queue 0";;
  panic_if (max <? NUM) "virtio disk max queue too short";;
  panic_if ((desc_ =? 0) || (avail =? 0) || (used =? 0)) "virtio disk kalloc";;
  modify (λ '(s, l), (Vst (λ _, Desc Null 0 0 0) (λ _, 0) 0 (λ _, 0) 0 (dfree s) (used_idx s) (info_b s) (info_status s) (ops s) (vbufs s), l));;
  wr VIRTIO_MMIO_QUEUE_NUM NUM;;
  wr VIRTIO_MMIO_QUEUE_DESC_LOW desc_;;
  wr VIRTIO_MMIO_QUEUE_DESC_HIGH (Z.shiftr desc_ 32);;
  wr VIRTIO_MMIO_DRIVER_DESC_LOW avail;;
  wr VIRTIO_MMIO_DRIVER_DESC_HIGH (Z.shiftr avail 32);;
  wr VIRTIO_MMIO_DEVICE_DESC_LOW used;;
  wr VIRTIO_MMIO_DEVICE_DESC_HIGH (Z.shiftr used 32);;
  wr VIRTIO_MMIO_QUEUE_READY 1;;
  for_each (Z.to_nat NUM) 0 (λ i, modify (λ '(s, l), (set_free i true s, l)));;
  wr VIRTIO_MMIO_STATUS (Z.lor status VIRTIO_CONFIG_S_DRIVER_OK).
End init.
