(* ===== verification/VirtioSpec.v ===== *)
(** * The disk driver implements an atomic disk ([kernel/virtio_disk.c])

    The driver, the device and any number of processes in every interleaving,
    and the specification: a disk on which a request takes effect at some point
    between its submission and its return.  This is what [disk_rw] of [Bio]
    assumes of [virtio_disk_rw]. *)

From S2P Require Import Prelude Word Param Bio Virtio.

(** ** The device

    The contract of the device, as the comments of the driver and the virtio
    standard that [kernel/virtio.h] cites state it: it takes the heads of
    chains from the ring of available ones in order, performs the requests in
    any order, writes the status 0 and enters the head in the ring of used
    ones. *)
Definition read_sectors (d : Z → block) (n : Z) : block := d n ++ d (n + 1).
Definition write_sectors (n : Z) (l : block) (d : Z → block) : Z → block :=
  <[n := take 512 l]> (<[n + 1 := drop 512 l]> d).
Definition flag (d : virtq_desc) (f : Z) : bool := negb (Z.land (d_flags d) f =? 0).

Definition complete (head : Z) (v : vst) (d : Z → block) : option (vst * (Z → block)) :=
  let d0 := desc v head in
  let d1 := desc v (d_next d0) in
  let d2 := desc v (d_next d1) in
  match d_addr d0, d_addr d1, d_addr d2 with
  | POps i, PData b, PStatus j =>
      let r := ops v i in
      if flag d0 VRING_DESC_F_NEXT && flag d1 VRING_DESC_F_NEXT && flag d2 VRING_DESC_F_WRITE &&
         (d_len d0 =? sizeof_blk_req) && (d_len d1 =? BSIZE) then
        let fin v := set_used (used_dev v mod NUM) head (u16 (used_dev v + 1)) (set_status j 0 v) in
        if (r_type r =? VIRTIO_BLK_T_OUT) && negb (flag d1 VRING_DESC_F_WRITE) then
          Some (fin v, write_sectors (r_sector r) (v_data (vbufs v b)) d)
        else if (r_type r =? VIRTIO_BLK_T_IN) && flag d1 VRING_DESC_F_WRITE then
          Some (fin (set_vbuf b (Dbuf (v_disk (vbufs v b)) (v_blockno (vbufs v b)) (read_sectors d (r_sector r))) v), d)
        else None
      else None
  | _, _, _ => None
  end.

(** ** The system

    [waiting] has the processes in [virtio_disk_rw] after the submission: the
    buffer and the local variable [idx[0]]. *)
Record sys := Sys {
  drv : vst;
  sectors : Z → block;
  dev_idx : Z;                (** how far the device is in the available ring *)
  inflight : list Z;
  waiting : gmap Z Z;
}.
Definition with_drv (v : vst) (s : sys) : sys := Sys v (sectors s) (dev_idx s) (inflight s) (waiting s).

Inductive label :=
  | Submit (b : Z) (write : bool) (blockno : Z) (data : block)
  | Return (b : Z) (data : block)
  | Tau.

Definition valid_buf (x : dbuf) : Prop := length (v_data x) = Z.to_nat BSIZE ∧ 0 ≤ v_blockno x < 2 ^ 31.

(** The steps: the holder of a buffer, which is not in the driver, uses it; a
    process submits a request, or has to sleep for descriptors; the interrupt
    handler; a process whose request is completed returns; the device. *)
Inductive vstep (s : sys) : label → sys → Prop :=
  | vs_client b n d :
      waiting s !! b = None → valid_buf (Dbuf 0 n d) →
      vstep s Tau (with_drv (set_vbuf b (Dbuf (v_disk (vbufs (drv s) b)) n d) (drv s)) s)
  | vs_submit b w i0 v :
      waiting s !! b = None → virtio_submit b w (drv s) = Ok (Some i0, v) →
      vstep s (Submit b w (v_blockno (vbufs (drv s) b)) (v_data (vbufs (drv s) b)))
        (Sys v (sectors s) (dev_idx s) (inflight s) (<[b := i0]> (waiting s)))
  | vs_busy b w v :
      waiting s !! b = None → virtio_submit b w (drv s) = Ok (None, v) → vstep s Tau (with_drv v s)
  | vs_intr v : virtio_disk_intr (drv s) = Ok (tt, v) → vstep s Tau (with_drv v s)
  | vs_return b i0 v :
      waiting s !! b = Some i0 → v_disk (vbufs (drv s) b) ≠ 1 → virtio_finish i0 (drv s) = Ok (tt, v) →
      vstep s (Return b (v_data (vbufs (drv s) b)))
        (Sys v (sectors s) (dev_idx s) (inflight s) (delete b (waiting s)))
  | vs_fetch :
      dev_idx s ≠ avail_idx (drv s) →
      vstep s Tau (Sys (drv s) (sectors s) (u16 (dev_idx s + 1))
        (inflight s ++ [avail_ring (drv s) (dev_idx s mod NUM)]) (waiting s))
  | vs_complete l1 h l2 v d :
      inflight s = l1 ++ h :: l2 → complete h (drv s) (sectors s) = Some (v, d) →
      vstep s Tau (Sys v d (dev_idx s) (l1 ++ l2) (waiting s)).

(** ** The specification: an atomic disk *)
Record ast := Ast {
  adisk : Z → block;
  pending : gmap Z (bool * Z * block);
  performed : gmap Z block;
}.
Inductive astep (a : ast) : label → ast → Prop :=
  | as_submit b w n d :
      pending a !! b = None → performed a !! b = None →
      astep a (Submit b w n d) (Ast (adisk a) (<[b := (w, n, d)]> (pending a)) (performed a))
  | as_write b n d :
      pending a !! b = Some (true, n, d) →
      astep a Tau (Ast (<[n := d]> (adisk a)) (delete b (pending a)) (<[b := d]> (performed a)))
  | as_read b n d :
      pending a !! b = Some (false, n, d) →
      astep a Tau (Ast (adisk a) (delete b (pending a)) (<[b := adisk a n]> (performed a)))
  | as_return b d :
      performed a !! b = Some d →
      astep a (Return b d) (Ast (adisk a) (pending a) (delete b (performed a)))
  | as_stutter : astep a Tau a.

(** Runs with their labels. *)
Inductive run {S} (step : S → label → S → Prop) : S → list label → S → Prop :=
  | run_nil s : run step s [] s
  | run_snoc s l s1 x s2 : run step s l s1 → step s1 x s2 → run step s (l ++ [x]) s2.

(** ** Invariant *)
Record req := Rq { q0 : Z; q1 : Z; q2 : Z; qw : bool; qn : Z }.
Definition uses (q : req) (i : Z) : Prop := i = q0 q ∨ i = q1 q ∨ i = q2 q.
Definition req_ok (q : req) : Prop :=
  0 ≤ q0 q < NUM ∧ 0 ≤ q1 q < NUM ∧ 0 ≤ q2 q < NUM ∧ q0 q ≠ q1 q ∧ q0 q ≠ q2 q ∧ q1 q ≠ q2 q ∧ 0 ≤ qn q < 2 ^ 31.
Definition op_of (q : req) : virtio_blk_req :=
  Req (if qw q then VIRTIO_BLK_T_OUT else VIRTIO_BLK_T_IN) 0 (2 * qn q).
Definition desc0 (q : req) : virtq_desc := Desc (POps (q0 q)) sizeof_blk_req VRING_DESC_F_NEXT (q1 q).
Definition desc1 (b : Z) (q : req) : virtq_desc :=
  Desc (PData b) BSIZE (Z.lor (if qw q then 0 else VRING_DESC_F_WRITE) VRING_DESC_F_NEXT) (q2 q).
Definition desc2 (q : req) : virtq_desc := Desc (PStatus (q0 q)) 1 VRING_DESC_F_WRITE 0.

(** The chain of a request in memory. *)
Record chain (v : vst) (b : Z) (q : req) : Prop := {
  ch_desc0 : desc v (q0 q) = desc0 q;
  ch_desc1 : desc v (q1 q) = desc1 b q;
  ch_desc2 : desc v (q2 q) = desc2 q;
  ch_op : ops v (q0 q) = op_of q;
  ch_info : info_b v (q0 q) = Some b;
  ch_blockno : v_blockno (vbufs v b) = qn q;
}.

(** [R] are the requests; [Q] are queued, [F] fetched by the device, [D] done and
    [A] acknowledged to the process. *)
Record Requests (v : vst) (R : gmap Z req) (Q F D A : list Z) : Prop := {
  rs_nodup : NoDup (Q ++ F ++ D ++ A);
  rs_dom : ∀ b, b ∈ Q ++ F ++ D ++ A ↔ is_Some (R !! b);
  rs_ok : ∀ b q, R !! b = Some q → req_ok q;
  rs_disj : ∀ b b' q q' i, R !! b = Some q → R !! b' = Some q' → uses q i → uses q' i → b = b';
  rs_free : ∀ i, 0 ≤ i < NUM → dfree v i = true ↔ ∀ b q, R !! b = Some q → ¬ uses q i;
  rs_chain : ∀ b q, R !! b = Some q → chain v b q;
  rs_disk : ∀ b, b ∈ Q ++ F ++ D → v_disk (vbufs v b) = 1;
  rs_acked : ∀ b, b ∈ A → v_disk (vbufs v b) = 0;
  rs_status : ∀ b q, b ∈ D → R !! b = Some q → info_status v (q0 q) = 0;
  rs_bufs : ∀ b, valid_buf (vbufs v b);
}.

(** The heads of requests stand in a ring from [i] on. *)
Definition in_ring (R : gmap Z req) (ring : Z → Z) (i : Z) (l : list Z) : Prop :=
  ∀ j b q, l !! j = Some b → R !! b = Some q → ring ((i + Z.of_nat j) mod NUM) = q0 q.

Record Inv (a : ast) (s : sys) (R : gmap Z req) (Q F D A : list Z) : Prop := {
  iv_reqs : Requests (drv s) R Q F D A;
  iv_avail : in_ring R (avail_ring (drv s)) (dev_idx s) Q;
  iv_avail_idx : avail_idx (drv s) = u16 (dev_idx s + Z.of_nat (length Q));
  iv_dev_idx : 0 ≤ dev_idx s < 2 ^ 16;
  iv_inflight : Forall2 (λ h b, ∃ q, R !! b = Some q ∧ h = q0 q) (inflight s) F;
  iv_used : in_ring R (used_ring (drv s)) (used_idx (drv s)) D;
  iv_used_dev : used_dev (drv s) = u16 (used_idx (drv s) + Z.of_nat (length D));
  iv_used_idx : 0 ≤ used_idx (drv s) < 2 ^ 16;
  iv_waiting : ∀ b, waiting s !! b = q0 <$> R !! b;
  iv_pending : ∀ b, pending a !! b =
    if decide (b ∈ Q ++ F) then (λ q, (qw q, qn q, v_data (vbufs (drv s) b))) <$> R !! b else None;
  iv_performed : ∀ b, performed a !! b = if decide (b ∈ D ++ A) then Some (v_data (vbufs (drv s) b)) else None;
  iv_disk : ∀ n, 0 ≤ n < 2 ^ 31 → read_sectors (sectors s) (2 * n) = adisk a n;
  iv_sector : ∀ n, length (sectors s n) = 512%nat;
}.

(** ** Descriptors *)
Lemma alloc_desc_spec v :
  wp alloc_desc (λ i v', (i = -1 ∧ v' = v ∧ ∀ j, 0 ≤ j < NUM → dfree v j = false) ∨
                         (0 ≤ i < NUM ∧ dfree v i = true ∧ v' = set_free i false v)) v.
Proof.
  unfold alloc_desc. apply wp_bind.
  apply (wp_for_loop (λ i v', v' = v ∧ ∀ j, 0 ≤ j < i → dfree v j = false)); [split; [done|lia]| |].
  - intros i v' Hi [-> Hf]. apply wp_bind, wp_gets. destruct (dfree v i) eqn:E.
    + apply wp_bind, wp_modify, wp_ret, wp_ret. change (0 + Z.of_nat (Z.to_nat NUM)) with NUM in Hi.
      right. simpl. split_and!; [lia|lia|done|done].
    + apply wp_ret. split; [done|]. intros j Hj. destruct (decide (j = i)) as [->|]; [done|apply Hf; lia].
  - intros v' [-> Hf]. apply wp_ret. left. split_and!; [done|done|]. intros j Hj. apply Hf. exact Hj.
Qed.

Lemma free_desc_spec v i (Q : unit → vst → Prop) :
  0 ≤ i < NUM → dfree v i = false → Q tt (set_free i true (set_desc i (Desc Null 0 0 0) v)) → wp (free_desc i) Q v.
Proof.
  intros Hi Hf HQ. unfold free_desc. apply wp_bind, wp_panic_if; [apply Z.leb_gt; lia|].
  apply wp_bind, wp_gets. rewrite Hf. apply wp_bind, wp_panic_if; [done|]. by apply wp_bind, wp_modify, wp_modify.
Qed.

(** The same, but for what is in free descriptors. *)
Record alike (v v' : vst) : Prop := {
  al_desc : ∀ i, dfree v i = false → desc v' i = desc v i;
  al_free : ∀ i, dfree v' i = dfree v i;
  al_avail : avail_ring v' = avail_ring v;
  al_avail_idx : avail_idx v' = avail_idx v;
  al_used : used_ring v' = used_ring v;
  al_used_dev : used_dev v' = used_dev v;
  al_used_idx : used_idx v' = used_idx v;
  al_info : info_b v' = info_b v;
  al_status : info_status v' = info_status v;
  al_ops : ops v' = ops v;
  al_bufs : vbufs v' = vbufs v;
}.

Lemma fn_insert_dec {X} (f : Z → X) i x j : (<[i := x]> f) j = if decide (j = i) then x else f j.
Proof. case_decide as E; [rewrite E; apply fn_lookup_insert|by apply fn_lookup_insert_ne]. Qed.
Ltac fn_cases := rewrite ?fn_insert_dec; repeat case_decide.

Lemma alloc3_spec v :
  wp alloc3_desc (λ o v', match o with
    | None => alike v v'
    | Some (i0, i1, i2) => (0 ≤ i0 < NUM ∧ 0 ≤ i1 < NUM ∧ 0 ≤ i2 < NUM) ∧ (i0 ≠ i1 ∧ i0 ≠ i2 ∧ i1 ≠ i2) ∧
        dfree v i0 = true ∧ dfree v i1 = true ∧ dfree v i2 = true ∧
        v' = set_free i2 false (set_free i1 false (set_free i0 false v))
    end) v.
Proof.
  unfold alloc3_desc. eapply wp_seq; [apply alloc_desc_spec|].
  intros i0 v0 [(-> & -> & _)|(H0 & F0 & ->)]; [by apply wp_ret|]. rewrite (proj2 (Z.ltb_ge i0 0)) by lia.
  eapply wp_seq; [apply alloc_desc_spec|]. intros i1 v1 [(-> & -> & _)|(H1 & F1 & ->)].
  { cbn match. apply wp_bind, free_desc_spec; [done|by apply fn_lookup_insert|]. apply wp_ret.
    split; simpl; try done; intros i; fn_cases; congruence. }
  rewrite (proj2 (Z.ltb_ge i1 0)) by lia. simpl in F1.
  assert (i0 ≠ i1) as N01 by (intros <-; by rewrite fn_lookup_insert in F1). rewrite fn_lookup_insert_ne in F1 by done.
  eapply wp_seq; [apply alloc_desc_spec|]. intros i2 v2 [(-> & -> & _)|(H2 & F2 & ->)].
  { cbn match. apply wp_bind, free_desc_spec; [done|simpl; by rewrite fn_lookup_insert_ne, fn_lookup_insert|].
    apply wp_bind, free_desc_spec; [done|simpl; by rewrite fn_lookup_insert_ne, fn_lookup_insert|].
    apply wp_ret. split; simpl; try done; intros i; fn_cases; congruence. }
  rewrite (proj2 (Z.ltb_ge i2 0)) by lia. simpl in F2.
  assert (i1 ≠ i2) as N12 by (intros <-; by rewrite fn_lookup_insert in F2). rewrite fn_lookup_insert_ne in F2 by done.
  assert (i0 ≠ i2) as N02 by (intros <-; by rewrite fn_lookup_insert in F2). rewrite fn_lookup_insert_ne in F2 by done.
  by apply wp_ret.
Qed.

(** The state after a submission. *)
Definition submitted (b : Z) (q : req) (v : vst) : vst :=
  set_avail (avail_idx v mod NUM) (q0 q) (u16 (avail_idx v + 1))
   (set_info_b (q0 q) (Some b)
   (set_vdisk b 1
   (set_desc (q2 q) (desc2 q)
   (set_status (q0 q) 255
   (set_desc (q1 q) (desc1 b q)
   (set_desc (q0 q) (desc0 q)
   (set_ops (q0 q) (op_of q)
   (set_free (q2 q) false (set_free (q1 q) false (set_free (q0 q) false v)))))))))).

Lemma submit_spec b w v : valid_buf (vbufs v b) →
  wp (virtio_submit b w) (λ o v', match o with
    | None => alike v v'
    | Some i0 => ∃ q, i0 = q0 q ∧ req_ok q ∧ qw q = w ∧ qn q = v_blockno (vbufs v b) ∧
        (∀ i, uses q i → dfree v i = true) ∧ v' = submitted b q v
    end) v.
Proof.
  intros [_ Hn]. unfold virtio_submit. apply wp_bind, wp_gets. eapply wp_seq; [apply alloc3_spec|].
  intros [[[i0 i1] i2]|] v' H; [|by apply wp_ret]. destruct H as ((H0 & H1 & H2) & (N1 & N2 & N3) & F0 & F1 & F2 & ->).
  do 7 (apply wp_bind, wp_modify). apply wp_bind, wp_gets, wp_bind, wp_modify, wp_ret.
  exists (Rq i0 i1 i2 w (v_blockno (vbufs v b))). split_and!; try done.
  - intros i [->|[->| ->]]; done.
  - unfold submitted, op_of. cbn [q0 q1 q2 qw qn]. change (BSIZE / 512) with 2.
    unfold u32. rewrite wrap_small by lia. by rewrite (Z.mul_comm (v_blockno _)).
Qed.

(** The state after the return of a request. *)
Definition returned (q : req) (v : vst) : vst :=
  let clear i v := set_free i true (set_desc i (Desc Null 0 0 0) v) in
  clear (q2 q) (clear (q1 q) (clear (q0 q) (set_info_b (q0 q) None v))).

Lemma finish_chain_spec b q v : req_ok q → chain v b q → (∀ i, uses q i → dfree v i = false) →
  wp (virtio_finish (q0 q)) (λ _ v', v' = returned q v) v.
Proof.
  intros (H0 & H1 & H2 & N01 & N02 & N12 & _) [C0 C1 C2 _ _ _] Hf. unfold virtio_finish. apply wp_bind, wp_modify.
  assert (dfree v (q0 q) = false ∧ dfree v (q1 q) = false ∧ dfree v (q2 q) = false) as (F0 & F1 & F2).
  { split_and!; apply Hf; unfold uses; auto. }
  unfold free_chain. change (S (Z.to_nat NUM)) with 9%nat. cbn [while_loop].
  apply wp_bind, wp_bind, wp_gets. cbn [desc set_info_b]. rewrite C0. apply wp_bind, free_desc_spec; [done..|].
  apply wp_ret, wp_bind, wp_bind, wp_gets. simpl. rewrite fn_lookup_insert_ne, C1 by done.
  apply wp_bind, free_desc_spec; [done|simpl; by rewrite fn_lookup_insert_ne|].
  assert ((Z.land (d_flags (desc1 b q)) VRING_DESC_F_NEXT =? 0) = false) as -> by by destruct q as [? ? ? []].
  apply wp_ret, wp_bind, wp_bind, wp_gets. simpl. rewrite !fn_lookup_insert_ne, C2 by done.
  apply wp_bind, free_desc_spec; [done|simpl; by rewrite !fn_lookup_insert_ne by done|].
  by apply wp_ret, wp_ret.
Qed.

(** ** Rings *)
Lemma u16_mod x : u16 x mod NUM = x mod NUM.
Proof. unfold u16, wrap. change NUM with (2 ^ 3). apply Z.mod_mod_divide. by exists (2 ^ 13). Qed.
Lemma u16_add x y : u16 (u16 x + y) = u16 (x + y).
Proof. unfold u16, wrap. by rewrite Zplus_mod_idemp_l. Qed.
Lemma u16_range x : 0 ≤ u16 x < 2 ^ 16.
Proof. apply Z.mod_pos_bound. done. Qed.
Lemma u16_ne x k : 0 ≤ x < 2 ^ 16 → 0 < k < 2 ^ 16 → u16 (x + k) ≠ x.
Proof.
  intros Hx Hk E. unfold u16, wrap in E. destruct (decide (x + k < 2 ^ 16)).
  - rewrite Z.mod_small in E by lia. lia.
  - replace (x + k) with (x + k - 2 ^ 16 + 1 * 2 ^ 16) in E by lia. rewrite Z.mod_add, Z.mod_small in E by lia. lia.
Qed.
Lemma ring_slot_ne i j k : 0 ≤ j < k → k < NUM → (i + j) mod NUM ≠ (i + k) mod NUM.
Proof.
  intros Hj Hk E. change NUM with 8 in *.
  assert ((k - j) mod 8 = 0) as E0.
  { replace (k - j) with ((i + k) - (i + j)) by lia. rewrite Zminus_mod, E, Z.sub_diag. done. }
  rewrite Z.mod_small in E0 by lia. lia.
Qed.

(** There are not more requests than descriptors. *)
Lemma nodup_bounded (l : list Z) : NoDup l → Forall (λ i, 0 ≤ i < NUM) l → (length l ≤ 8)%nat.
Proof.
  intros Hn Hf. change 8%nat with (length (seqZ 0 8)). apply submseteq_length, NoDup_submseteq; [done|].
  intros i Hi. rewrite Forall_forall in Hf. apply elem_of_seqZ. apply Hf in Hi. change NUM with 8 in Hi. lia.
Qed.
Lemma heads_bounded v R Q F D A l : Requests v R Q F D A → NoDup l → (∀ b, b ∈ l → is_Some (R !! b)) → (length l ≤ 8)%nat.
Proof.
  intros HR Hn Hl. set (head := λ b, match R !! b with Some q => q0 q | None => 0 end).
  rewrite <-(length_fmap head). apply nodup_bounded.
  - apply NoDup_fmap_2_strong; [|done]. intros b b' Hb Hb' E. destruct (Hl b Hb) as [q Hq], (Hl b' Hb') as [q' Hq'].
    unfold head in E. rewrite Hq, Hq' in E. apply (rs_disj _ _ _ _ _ _ HR b b' q q' (q0 q)); unfold uses; auto.
  - apply Forall_forall. intros i (b & -> & Hb)%list_elem_of_fmap. destruct (Hl b Hb) as [q Hq].
    unfold head. rewrite Hq. apply (rs_ok _ _ _ _ _ _ HR b q Hq).
Qed.

Lemma in_ring_push R R' ring i l b q idx : in_ring R ring i l →
  (∀ b', b' ∈ l → R' !! b' = R !! b') → R' !! b = Some q → b ∉ l → (length l < 8)%nat → idx = (i + Z.of_nat (length l)) mod NUM →
  in_ring R' (<[idx := q0 q]> ring) i (l ++ [b]).
Proof.
  intros Hr HR Hq Hb Hl -> j b' q' Hj Hq'. apply lookup_app_Some in Hj as [Hj|[Hle Hj]].
  - assert (j < length l)%nat by by eapply lookup_lt_Some.
    rewrite fn_lookup_insert_ne; [apply (Hr j b' q' Hj); rewrite <-HR; [done|by eapply list_elem_of_lookup_2]|].
    apply not_eq_sym, ring_slot_ne; change NUM with 8; lia.
  - apply list_lookup_singleton_Some in Hj as [Hj <-]. replace j with (length l) by lia.
    rewrite fn_lookup_insert. congruence.
Qed.
Lemma in_ring_pop R ring i b l : in_ring R ring i (b :: l) → in_ring R ring (u16 (i + 1)) l.
Proof.
  intros Hr j b' q Hj Hq. rewrite <-(Hr (S j) b' q Hj Hq). f_equal.
  rewrite Zplus_mod, u16_mod, <-Zplus_mod. f_equal. lia.
Qed.
Lemma in_ring_ext R R' ring i l : in_ring R ring i l → (∀ b, b ∈ l → R' !! b = R !! b) → in_ring R' ring i l.
Proof. intros Hr HR j b q Hj Hq. apply (Hr j b q Hj). rewrite <-HR; [done|by eapply list_elem_of_lookup_2]. Qed.

(** ** The requests are kept *)
Lemma uses_not_free v R Q F D A b q i : Requests v R Q F D A → R !! b = Some q → uses q i → dfree v i = false.
Proof.
  intros HR Hq Hu. apply not_true_is_false. intros Hf. assert (0 ≤ i < NUM) as Hi.
  { destruct (rs_ok _ _ _ _ _ _ HR b q Hq) as (? & ? & ? & _). by destruct Hu as [->|[->| ->]]. }
  by apply (proj1 (rs_free _ _ _ _ _ _ HR i Hi) Hf b q).
Qed.
Lemma uses_0 q : uses q (q0 q). Proof. by left. Qed.
Lemma uses_1 q : uses q (q1 q). Proof. right; by left. Qed.
Lemma uses_2 q : uses q (q2 q). Proof. right; by right. Qed.
#[local] Hint Resolve uses_0 uses_1 uses_2 : core.

Lemma alike_Requests v v' R Q F D A : alike v v' → Requests v R Q F D A → Requests v' R Q F D A.
Proof.
  intros Ha HR. pose proof HR as []. destruct Ha. split; try done.
  - intros i Hi. rewrite al_free0. auto.
  - intros b q Hq. destruct (rs_chain0 b q Hq). split.
    + rewrite al_desc0; [done|]. by eapply uses_not_free.
    + rewrite al_desc0; [done|]. by eapply uses_not_free.
    + rewrite al_desc0; [done|]. by eapply uses_not_free.
    + by rewrite al_ops0.
    + by rewrite al_info0.
    + by rewrite al_bufs0.
  - intros b Hb. rewrite al_bufs0. auto.
  - intros b Hb. rewrite al_bufs0. auto.
  - intros b q Hb Hq. rewrite al_status0. eauto.
  - intros b. rewrite al_bufs0. auto.
Qed.

(** Moving requests between the stages. *)
Lemma Requests_stage (R : gmap Z req) Q F D A Q' F' D' A' : Q' ++ F' ++ D' ++ A' ≡ₚ Q ++ F ++ D ++ A →
  NoDup (Q ++ F ++ D ++ A) → (∀ b, b ∈ Q ++ F ++ D ++ A ↔ is_Some (R !! b)) →
  NoDup (Q' ++ F' ++ D' ++ A') ∧ (∀ b, b ∈ Q' ++ F' ++ D' ++ A' ↔ is_Some (R !! b)).
Proof. intros HP Hn Hd. split; [by rewrite HP|]. intros b. by rewrite HP. Qed.

(** A chain of other descriptors and of another buffer. *)
Lemma chain_other v v' b q : chain v b q →
  (∀ i, uses q i → desc v' i = desc v i) → ops v' (q0 q) = ops v (q0 q) → info_b v' (q0 q) = info_b v (q0 q) →
  v_blockno (vbufs v' b) = v_blockno (vbufs v b) → chain v' b q.
Proof. intros [] Hd Ho Hi Hb. split; rewrite ?Hd, ?Ho, ?Hi, ?Hb by auto; done. Qed.

Lemma set_vdisk_ne b x b' v : b' ≠ b → vbufs (set_vdisk b x v) b' = vbufs v b'.
Proof. intros. unfold set_vdisk. simpl. by rewrite fn_lookup_insert_ne. Qed.
Lemma set_vdisk_eq b x v : vbufs (set_vdisk b x v) b = Dbuf x (v_blockno (vbufs v b)) (v_data (vbufs v b)).
Proof. unfold set_vdisk. simpl. by rewrite fn_lookup_insert. Qed.
Lemma set_vdisk_data b x b' v : v_data (vbufs (set_vdisk b x v) b') = v_data (vbufs v b').
Proof. destruct (decide (b' = b)) as [->|]; [by rewrite set_vdisk_eq|by rewrite set_vdisk_ne]. Qed.
Lemma set_vdisk_blockno b x b' v : v_blockno (vbufs (set_vdisk b x v) b') = v_blockno (vbufs v b').
Proof. destruct (decide (b' = b)) as [->|]; [by rewrite set_vdisk_eq|by rewrite set_vdisk_ne]. Qed.

Lemma submitted_bufs b q v : vbufs (submitted b q v) = vbufs (set_vdisk b 1 v).
Proof. done. Qed.

Lemma submitted_Requests v R Q F D A b q : Requests v R Q F D A → R !! b = None → req_ok q →
  qn q = v_blockno (vbufs v b) → (∀ i, uses q i → dfree v i = true) →
  Requests (submitted b q v) (<[b := q]> R) (Q ++ [b]) F D A.
Proof.
  intros HR Hb Hok Hn Hf. pose proof HR as [].
  assert (∀ b' q' i, R !! b' = Some q' → uses q' i → ¬ uses q i) as Hfresh.
  { intros b' q' i Hq' Hu Hu'. pose proof (uses_not_free _ _ _ _ _ _ _ _ _ HR Hq' Hu). rewrite (Hf i Hu') in *. done. }
  assert (b ∉ Q ++ F ++ D ++ A) as Hnb by (rewrite rs_dom0, Hb; by intros []).
  assert ((Q ++ [b]) ++ F ++ D ++ A ≡ₚ b :: Q ++ F ++ D ++ A) as HP by (rewrite <-app_assoc; symmetry; apply Permutation_middle).
  destruct Hok as (B0 & B1 & B2 & N01 & N02 & N12 & Bn). split.
  - rewrite HP. by constructor.
  - intros b'. rewrite HP, elem_of_cons, rs_dom0. destruct (decide (b' = b)) as [->|].
    + rewrite lookup_insert_eq. split; [by eexists|by left].
    + rewrite lookup_insert_ne by done. naive_solver.
  - intros b' q' [[<- <-]|[_ Hq']]%lookup_insert_Some; [done|eauto].
  - intros b1 b2 q1' q2' i [[<- <-]|[_ H1]]%lookup_insert_Some [[<- <-]|[_ H2]]%lookup_insert_Some U1 U2; [done| | |eauto].
    + by destruct (Hfresh _ _ _ H2 U2).
    + by destruct (Hfresh _ _ _ H1 U1).
  - intros i Hi. simpl. destruct (decide (uses q i)) as [Hu|Hu].
    + split; [|intros Hall; by destruct (Hall b q (lookup_insert_eq _ _ _))].
      unfold uses in Hu. fn_cases; try done. intuition congruence.
    + rewrite !fn_lookup_insert_ne by (intros E; apply Hu; subst; auto). rewrite rs_free0 by done. split.
      * intros Hall b' q' [[<- <-]|[_ Hq']]%lookup_insert_Some; [done|eauto].
      * intros Hall b' q' Hq'. apply (Hall b'). by rewrite lookup_insert_ne by congruence.
  - intros b' q' [[<- <-]|[Hne Hq']]%lookup_insert_Some.
    + split; simpl; rewrite ?fn_lookup_insert, ?fn_lookup_insert_ne by done; rewrite ?fn_lookup_insert; try done.
    + assert (∀ i, uses q' i → i ≠ q0 q ∧ i ≠ q1 q ∧ i ≠ q2 q) as Hi.
      { intros i Hu. pose proof (Hfresh _ _ _ Hq' Hu). unfold uses in *. tauto. }
      destruct (Hi (q0 q')) as (? & _); [auto|]. eapply chain_other; [by apply rs_chain0| | | |]; simpl.
      * intros i Hu. destruct (Hi i Hu) as (? & ? & ?). by rewrite !fn_lookup_insert_ne by done.
      * by rewrite fn_lookup_insert_ne.
      * by rewrite fn_lookup_insert_ne.
      * by rewrite fn_lookup_insert_ne.
  - intros b' Hb'. rewrite submitted_bufs. destruct (decide (b' = b)) as [->|]; [by rewrite set_vdisk_eq|].
    rewrite set_vdisk_ne by done. apply rs_disk0. set_solver.
  - intros b' Hb'. rewrite submitted_bufs, set_vdisk_ne by set_solver. auto.
  - intros b' q' Hb' [[<- <-]|[_ Hq']]%lookup_insert_Some; [set_solver|]. simpl.
    rewrite fn_lookup_insert_ne; [eauto|]. intros E. apply (Hfresh b' q' (q0 q') Hq'); [auto|rewrite <-E; auto].
  - intros b'. rewrite submitted_bufs. destruct (rs_bufs0 b'). unfold valid_buf.
    by rewrite set_vdisk_data, set_vdisk_blockno.
Qed.

(** The chains stay, requests move on and buffers change. *)
Lemma Requests_frame v v' R Q F D A Q' F' D' A' : Requests v R Q F D A →
  Q' ++ F' ++ D' ++ A' ≡ₚ Q ++ F ++ D ++ A →
  desc v' = desc v → ops v' = ops v → info_b v' = info_b v → dfree v' = dfree v →
  (∀ b, is_Some (R !! b) → v_blockno (vbufs v' b) = v_blockno (vbufs v b)) →
  (∀ b, b ∈ Q' ++ F' ++ D' → v_disk (vbufs v' b) = 1) → (∀ b, b ∈ A' → v_disk (vbufs v' b) = 0) →
  (∀ b q, b ∈ D' → R !! b = Some q → info_status v' (q0 q) = 0) → (∀ b, valid_buf (vbufs v' b)) →
  Requests v' R Q' F' D' A'.
Proof.
  intros [] HP Hd Ho Hi Hf Hb H1 H2 H3 H4. destruct (Requests_stage _ _ _ _ _ _ _ _ _ HP rs_nodup0 rs_dom0) as [? ?].
  split; try done.
  - intros i Hi'. rewrite Hf. auto.
  - intros b q Hq. eapply chain_other; [by apply rs_chain0|..]; rewrite ?Hd, ?Ho, ?Hi; try done. apply Hb. eauto.
Qed.

Lemma returned_Requests v R Q F D A1 A2 b q : Requests v R Q F D (A1 ++ b :: A2) → R !! b = Some q →
  Requests (returned q v) (delete b R) Q F D (A1 ++ A2).
Proof.
  intros HR Hq. pose proof HR as [].
  assert (Q ++ F ++ D ++ A1 ++ b :: A2 ≡ₚ b :: Q ++ F ++ D ++ A1 ++ A2) as HP.
  { rewrite !(app_assoc Q), !(app_assoc (Q ++ F)), !(app_assoc ((Q ++ F) ++ D)). symmetry. apply Permutation_middle. }
  rewrite HP in rs_nodup0. apply NoDup_cons in rs_nodup0 as [Hb Hn].
  assert (∀ b' q', delete b R !! b' = Some q' → ∀ i, uses q' i → ¬ uses q i) as Hother.
  { intros b' q' [Hne Hq']%lookup_delete_Some i Hu Hu'. by apply Hne, (rs_disj0 b b' q q' i). }
  split; try done.
  - intros b'. specialize (rs_dom0 b'). rewrite HP, elem_of_cons in rs_dom0.
    destruct (decide (b' = b)) as [->|Hne]; [rewrite lookup_delete_eq; split; [done|by intros []]|].
    rewrite lookup_delete_ne by done. naive_solver.
  - intros b' q' [_ Hq']%lookup_delete_Some. eauto.
  - intros b1 b2 q1' q2' i [_ H1]%lookup_delete_Some [_ H2]%lookup_delete_Some. eauto.
  - intros i Hi. simpl. destruct (decide (uses q i)) as [Hu|Hu].
    + split; [intros _ b' q' Hq' Hu'; by apply (Hother b' q' Hq' i)|intros _]. unfold uses in Hu. fn_cases; try done. intuition congruence.
    + rewrite !fn_lookup_insert_ne by (intros E; apply Hu; subst; auto). rewrite rs_free0 by done. split.
      * intros Hall b' q' [_ Hq']%lookup_delete_Some. eauto.
      * intros Hall b' q' Hq'. destruct (decide (b' = b)) as [->|]; [congruence|]. apply (Hall b'). by rewrite lookup_delete_ne.
  - intros b' q' Hq'. pose proof (Hother b' q' Hq') as Hi. apply lookup_delete_Some in Hq' as [Hne Hq'].
    assert (q0 q ≠ q0 q') as Hh by (intros E; apply (Hi (q0 q')); [auto|rewrite <-E; auto]).
    eapply chain_other; [by apply rs_chain0| |done| |done]; simpl.
    + intros i Hu. rewrite !fn_lookup_insert_ne by (intros E; apply (Hi i Hu); subst; auto). done.
    + by rewrite fn_lookup_insert_ne.
  - intros b' Hb'. apply rs_acked0. set_solver.
  - intros b' q' Hb' [_ Hq']%lookup_delete_Some. simpl. eauto.
Qed.

(** ** Steps of the system *)
Section steps.
Implicit Types (a : ast) (s : sys).

Lemma Inv_busy a s R Q F D A v : Inv a s R Q F D A → alike (drv s) v → Inv a (with_drv v s) R Q F D A.
Proof.
  intros [] Ha. pose proof Ha as []. split; simpl; rewrite ?al_avail0, ?al_avail_idx0, ?al_used0, ?al_used_dev0, ?al_used_idx0, ?al_bufs0; try done.
  by eapply alike_Requests.
Qed.

Lemma Inv_client a s R Q F D A b n d : Inv a s R Q F D A → waiting s !! b = None → valid_buf (Dbuf 0 n d) →
  Inv a (with_drv (set_vbuf b (Dbuf (v_disk (vbufs (drv s) b)) n d) (drv s)) s) R Q F D A.
Proof.
  intros [] Hw Hv. pose proof iv_reqs0 as [].
  assert (R !! b = None) as Hb by (rewrite iv_waiting0 in Hw; by destruct (R !! b)).
  assert (b ∉ Q ++ F ++ D ++ A) as Hnb by (rewrite rs_dom0, Hb; by intros []).
  assert (∀ b', b' ∈ Q ++ F ++ D ++ A → <[b := Dbuf (v_disk (vbufs (drv s) b)) n d]> (vbufs (drv s)) b' = vbufs (drv s) b') as E.
  { intros b' Hb'. apply fn_lookup_insert_ne. set_solver. }
  split; simpl; try done.
  - eapply Requests_frame; [done|done|done|done|done|done| | | |done|]; simpl.
    + intros b' Hb'%rs_dom0. by rewrite E.
    + intros b' Hb'. rewrite E by set_solver. auto.
    + intros b' Hb'. rewrite E by set_solver. auto.
    + intros b'. rewrite fn_insert_dec. case_decide; [exact Hv|apply rs_bufs0].
  - intros b'. rewrite iv_pending0. case_decide; [|done]. by rewrite E by set_solver.
  - intros b'. rewrite iv_performed0. case_decide; [|done]. by rewrite E by set_solver.
Qed.

Lemma Inv_fetch a s R Q F D A : Inv a s R Q F D A → dev_idx s ≠ avail_idx (drv s) →
  ∃ b Q', Q = b :: Q' ∧
  Inv a (Sys (drv s) (sectors s) (u16 (dev_idx s + 1)) (inflight s ++ [avail_ring (drv s) (dev_idx s mod NUM)]) (waiting s))
    R Q' (F ++ [b]) D A.
Proof.
  intros [] Hne. pose proof iv_reqs0 as []. destruct Q as [|b Q'].
  { exfalso. apply Hne. rewrite iv_avail_idx0. simpl. rewrite Z.add_0_r. unfold u16. by rewrite wrap_small. }
  exists b, Q'. split; [done|]. assert (is_Some (R !! b)) as [q Hq] by (apply rs_dom0; left).
  assert (Q' ++ (F ++ [b]) ++ D ++ A ≡ₚ (b :: Q') ++ F ++ D ++ A) as HP.
  { rewrite <-app_assoc, app_assoc. simpl. rewrite (app_assoc Q' F). symmetry. apply Permutation_middle. }
  split; simpl; try done.
  - eapply Requests_frame; [done|done|done|done|done|done|done| | |done|done]; [|done].
    intros b' Hb'. apply rs_disk0. set_solver.
  - by eapply in_ring_pop.
  - rewrite u16_add, iv_avail_idx0. f_equal. simpl. lia.
  - apply u16_range.
  - apply Forall2_app; [done|]. constructor; [|done]. exists q. split; [done|].
    specialize (iv_avail0 0%nat b q eq_refl Hq). by rewrite Z.add_0_r in iv_avail0.
  - intros b'. rewrite iv_pending0. apply decide_ext. set_solver.
Qed.

Lemma Forall2_heads (R R' : gmap Z req) l F : Forall2 (λ h b, ∃ q, R !! b = Some q ∧ h = q0 q) l F →
  (∀ b, b ∈ F → R' !! b = R !! b) → Forall2 (λ h b, ∃ q, R' !! b = Some q ∧ h = q0 q) l F.
Proof.
  induction 1 as [|h b l F (q & Hq & Hh) _ IH]; intros HR; constructor.
  - exists q. rewrite HR by left. done.
  - apply IH. intros b' Hb'. apply HR. by right.
Qed.

Lemma Inv_submit a s R Q F D A b q : Inv a s R Q F D A → waiting s !! b = None → req_ok q →
  qn q = v_blockno (vbufs (drv s) b) → (∀ i, uses q i → dfree (drv s) i = true) →
  pending a !! b = None ∧ performed a !! b = None ∧
  Inv (Ast (adisk a) (<[b := (qw q, qn q, v_data (vbufs (drv s) b))]> (pending a)) (performed a))
    (Sys (submitted b q (drv s)) (sectors s) (dev_idx s) (inflight s) (<[b := q0 q]> (waiting s)))
    (<[b := q]> R) (Q ++ [b]) F D A.
Proof.
  intros [] Hw Hok Hn Hf. pose proof iv_reqs0 as [].
  assert (R !! b = None) as Hb by (rewrite iv_waiting0 in Hw; by destruct (R !! b)).
  assert (b ∉ Q ++ F ++ D ++ A) as Hnb by (rewrite rs_dom0, Hb; by intros []).
  pose proof (submitted_Requests _ _ _ _ _ _ _ _ iv_reqs0 Hb Hok Hn Hf) as HR'.
  assert (∀ (l : list Z) b', b ∉ l → b' ∈ l → <[b:=q]> R !! b' = R !! b') as HRe.
  { intros l b' Hbl Hb'. apply lookup_insert_ne. set_solver. }
  assert (length (Q ++ [b]) ≤ 8)%nat as HQ.
  { apply (heads_bounded _ _ _ _ _ _ _ HR').
    - pose proof (rs_nodup _ _ _ _ _ _ HR') as Hnd. by apply NoDup_app in Hnd as (? & _).
    - intros b' Hb'. apply (rs_dom _ _ _ _ _ _ HR'). set_solver. }
  rewrite length_app in HQ. simpl in HQ. split_and!.
  { rewrite iv_pending0, decide_False by set_solver. done. }
  { rewrite iv_performed0, decide_False by set_solver. done. }
  split; cbn [drv sectors dev_idx inflight waiting adisk pending performed]; try done.
  - eapply in_ring_push; [done| |by rewrite lookup_insert_eq|set_solver|lia|].
    + intros b' Hb'. by apply (HRe Q); [set_solver|].
    + by rewrite iv_avail_idx0, u16_mod.
  - change (avail_idx (submitted b q (drv s))) with (u16 (avail_idx (drv s) + 1)). rewrite iv_avail_idx0, u16_add, length_app. f_equal. simpl. lia.
  - eapply Forall2_heads; [done|]. intros b' Hb'. by apply (HRe F); [set_solver|].
  - eapply in_ring_ext; [done|]. intros b' Hb'. by apply (HRe D); [set_solver|].
  - intros b'. destruct (decide (b' = b)) as [->|]; [by rewrite !lookup_insert_eq|].
    by rewrite !lookup_insert_ne by done.
  - intros b'. rewrite submitted_bufs, set_vdisk_data.
    destruct (decide (b' = b)) as [->|].
    + rewrite !lookup_insert_eq, decide_True by set_solver. done.
    + rewrite !lookup_insert_ne, iv_pending0 by done. apply decide_ext. set_solver.
  - intros b'. rewrite submitted_bufs, set_vdisk_data. done.
Qed.

Lemma Inv_ack a s R Q F D A b : Inv a s R Q F (b :: D) A →
  (∃ q, R !! b = Some q ∧ used_ring (drv s) (used_idx (drv s) mod NUM) = q0 q ∧ info_status (drv s) (q0 q) = 0 ∧
    info_b (drv s) (q0 q) = Some b) ∧ used_idx (drv s) ≠ used_dev (drv s) ∧
  Inv a (with_drv (set_used_idx (u16 (used_idx (drv s) + 1)) (set_vdisk b 0 (drv s))) s) R Q F D (A ++ [b]).
Proof.
  intros HI. pose proof HI as []. pose proof iv_reqs0 as [].
  assert (is_Some (R !! b)) as [q Hq] by (apply rs_dom0; set_solver).
  assert (length (b :: D) ≤ 8)%nat as HD.
  { apply (heads_bounded _ _ _ _ _ _ _ iv_reqs0).
    - apply NoDup_app in rs_nodup0 as (_ & _ & Hn). apply NoDup_app in Hn as (_ & _ & Hn). by apply NoDup_app in Hn as (? & _).
    - intros b' Hb'. apply rs_dom0. set_solver. }
  assert (Q ++ F ++ D ++ (A ++ [b]) ≡ₚ Q ++ F ++ (b :: D) ++ A) as HP.
  { do 2 f_equiv. rewrite app_assoc, Permutation_app_comm. done. }
  assert (b ∉ Q ++ F ++ D ++ A) as Hnb.
  { rewrite <-HP, !app_assoc in rs_nodup0. rewrite (Permutation_app_comm _ [b]) in rs_nodup0.
    apply NoDup_cons in rs_nodup0 as [? _]. by rewrite !app_assoc. }
  assert (∀ b', vbufs (set_used_idx (u16 (used_idx (drv s) + 1)) (set_vdisk b 0 (drv s))) b' = vbufs (set_vdisk b 0 (drv s)) b') as Eb by done.
  split_and!.
  - exists q. destruct (rs_chain0 b q Hq). split_and!; try done.
    + specialize (iv_used0 0%nat b q eq_refl Hq). by rewrite Z.add_0_r in iv_used0.
    + apply (rs_status0 b); [by left|done].
  - rewrite iv_used_dev0. apply not_eq_sym, u16_ne; [done|]. simpl in *. lia.
  - split; simpl drv; simpl sectors; simpl waiting; simpl inflight; simpl dev_idx; try done.
    + eapply Requests_frame; [done|done|done|done|done|done| | | | |].
      * intros b' _. by rewrite Eb, set_vdisk_blockno.
      * intros b' Hb'. rewrite Eb, set_vdisk_ne by set_solver. apply rs_disk0. set_solver.
      * intros b' [Hb'| ->%list_elem_of_singleton]%elem_of_app; [|by rewrite Eb, set_vdisk_eq].
        rewrite Eb, set_vdisk_ne by set_solver. auto.
      * intros b' q' Hb' Hq'. apply (rs_status0 b'); [by right|done].
      * intros b'. destruct (rs_bufs0 b'). unfold valid_buf. by rewrite Eb, set_vdisk_data, set_vdisk_blockno.
    + by eapply in_ring_pop.
    + simpl. rewrite u16_add, iv_used_dev0. f_equal. simpl. lia.
    + apply u16_range.
    + intros b'. by rewrite Eb, set_vdisk_data.
    + intros b'. rewrite Eb, set_vdisk_data, iv_performed0. apply decide_ext. set_solver.
Qed.

Lemma done_count a s R Q F D A : Inv a s R Q F D A →
  (length D ≤ 8)%nat ∧ u16 (used_dev (drv s) - used_idx (drv s)) = Z.of_nat (length D).
Proof.
  intros []. pose proof iv_reqs0 as [].
  assert (length D ≤ 8)%nat as HD.
  { apply (heads_bounded _ _ _ _ _ _ _ iv_reqs0).
    - apply NoDup_app in rs_nodup0 as (_ & _ & Hn). apply NoDup_app in Hn as (_ & _ & Hn). by apply NoDup_app in Hn as (? & _).
    - intros b' Hb'. apply rs_dom0. set_solver. }
  split; [done|]. rewrite iv_used_dev0. unfold u16, wrap. rewrite Zminus_mod_idemp_l.
  replace (_ + _ - _) with (Z.of_nat (length D)) by lia. rewrite Z.mod_small; lia.
Qed.

Lemma intr_spec a s R Q F D A : Inv a s R Q F D A →
  wp virtio_disk_intr (λ _ v, ∃ A', Inv a (with_drv v s) R Q F [] A') (drv s).
Proof.
  intros HI. unfold virtio_disk_intr. apply wp_bind, wp_gets.
  destruct (done_count _ _ _ _ _ _ _ HI) as [_ ->]. rewrite Nat2Z.id.
  apply (wp_while_loop (λ n _ v, ∃ D A, n = length D ∧ Inv a (with_drv v s) R Q F D A) _ _ _ (length D)).
  - exists D, A. split; [done|]. by destruct s.
  - lia.
  - intros n [] v (D1 & A1 & -> & H1). apply wp_bind, wp_gets, wp_bind, wp_gets. destruct D1 as [|b D1].
    + pose proof (iv_used_dev _ _ _ _ _ _ _ H1) as E. pose proof (iv_used_idx _ _ _ _ _ _ _ H1) as Hu. simpl in E, Hu.
      rewrite Z.add_0_r in E. unfold u16 in E. rewrite wrap_small in E by done. rewrite E, Z.eqb_refl.
      apply wp_ret. by exists A1.
    + destruct (Inv_ack _ _ _ _ _ _ _ _ H1) as ((q & Hq & Hr & Hs & Hb) & Hne & H2). simpl in Hr, Hs, Hb, Hne, H2.
      rewrite (proj2 (Z.eqb_neq _ _) Hne). apply wp_bind, wp_gets, wp_bind, wp_gets. rewrite Hr, Hs.
      apply wp_bind, wp_panic_if; [done|]. apply wp_bind, wp_gets. rewrite Hb.
      apply wp_bind, wp_modify, wp_bind, wp_modify, wp_ret. exists (length D1). split; [simpl; lia|]. by exists D1, (A1 ++ [b]).
Qed.

Lemma Inv_return a s R Q F D A b i0 : Inv a s R Q F D A → waiting s !! b = Some i0 → v_disk (vbufs (drv s) b) ≠ 1 →
  ∃ q A', R !! b = Some q ∧ i0 = q0 q ∧ performed a !! b = Some (v_data (vbufs (drv s) b)) ∧
  wp (virtio_finish i0) (λ _ v, v = returned q (drv s)) (drv s) ∧
  Inv (Ast (adisk a) (pending a) (delete b (performed a)))
    (Sys (returned q (drv s)) (sectors s) (dev_idx s) (inflight s) (delete b (waiting s))) (delete b R) Q F D A'.
Proof.
  intros [] Hw Hd. pose proof iv_reqs0 as []. rewrite iv_waiting0 in Hw.
  destruct (R !! b) as [q|] eqn:Hq; [|done]. injection Hw as <-.
  assert (b ∈ A) as HbA.
  { assert (b ∈ Q ++ F ++ D ++ A) as Hb by (apply rs_dom0; eauto).
    rewrite !app_assoc, elem_of_app in Hb. destruct Hb as [Hb|]; [|done]. rewrite <-app_assoc in Hb. by apply rs_disk0 in Hb. }
  apply list_elem_of_split in HbA as (A1 & A2 & ->). exists q, (A1 ++ A2).
  assert (b ∉ Q ++ F ++ D ++ A1 ++ A2) as Hnb.
  { assert (Q ++ F ++ D ++ A1 ++ b :: A2 ≡ₚ b :: Q ++ F ++ D ++ A1 ++ A2) as HP.
    { rewrite !(app_assoc Q), !(app_assoc (Q ++ F)), !(app_assoc ((Q ++ F) ++ D)). symmetry. apply Permutation_middle. }
    rewrite HP in rs_nodup0. by apply NoDup_cons in rs_nodup0 as [? _]. }
  assert (∀ (l : list Z) b', b ∉ l → b' ∈ l → delete b R !! b' = R !! b') as HRe.
  { intros l b' Hbl Hb'. apply lookup_delete_ne. set_solver. }
  split_and!; [done|done| | |].
  - rewrite iv_performed0, decide_True by set_solver. done.
  - eapply finish_chain_spec; [by apply (rs_ok0 b)|by apply rs_chain0|]. intros i Hu. by eapply uses_not_free.
  - split; cbn [drv sectors dev_idx inflight waiting adisk pending performed]; try done.
    + by eapply returned_Requests.
    + eapply in_ring_ext; [done|]. intros b' Hb'. by apply (HRe Q); [set_solver|].
    + eapply Forall2_heads; [done|]. intros b' Hb'. by apply (HRe F); [set_solver|].
    + eapply in_ring_ext; [done|]. intros b' Hb'. by apply (HRe D); [set_solver|].
    + intros b'. destruct (decide (b' = b)) as [->|]; [by rewrite !lookup_delete_eq|].
      by rewrite !lookup_delete_ne by done.
    + intros b'. rewrite iv_pending0. change (vbufs (returned q (drv s))) with (vbufs (drv s)).
      case_decide as Hb'; [|done]. by rewrite (HRe (Q ++ F)) by set_solver.
    + intros b'. change (vbufs (returned q (drv s))) with (vbufs (drv s)). destruct (decide (b' = b)) as [->|].
      * rewrite lookup_delete_eq, decide_False by set_solver. done.
      * rewrite lookup_delete_ne, iv_performed0 by done. apply decide_ext. set_solver.
Qed.

(** What the device does with a chain of the driver. *)
Definition completed (b : Z) (q : req) (d : Z → block) (v : vst) : vst :=
  set_used (used_dev v mod NUM) (q0 q) (u16 (used_dev v + 1)) (set_status (q0 q) 0
    (if qw q then v
     else set_vbuf b (Dbuf (v_disk (vbufs v b)) (v_blockno (vbufs v b)) (read_sectors d (2 * qn q))) v)).
Definition stored (b : Z) (q : req) (v : vst) (d : Z → block) : Z → block :=
  if qw q then write_sectors (2 * qn q) (v_data (vbufs v b)) d else d.
Lemma complete_chain v b q d : chain v b q → complete (q0 q) v d = Some (completed b q d v, stored b q v d).
Proof.
  intros [C0 C1 C2 Co _ _]. unfold complete, completed, stored. rewrite C0. cbn [desc0 d_next d_addr]. rewrite C1.
  cbn [desc1 d_next d_addr]. rewrite C2. cbn [desc2 d_addr]. rewrite Co. by destruct q as [? ? ? [] ?].
Qed.

Lemma read_write_sectors d n m l : length l = Z.to_nat BSIZE →
  read_sectors (write_sectors (2 * n) l d) (2 * m) = if decide (m = n) then l else read_sectors d (2 * m).
Proof.
  intros Hl. unfold read_sectors, write_sectors. rewrite !fn_insert_dec. repeat case_decide; try lia; [|done].
  apply take_drop.
Qed.
Lemma write_sectors_length d n l k : length l = Z.to_nat BSIZE → (∀ k, length (d k) = 512%nat) →
  length (write_sectors n l d k) = 512%nat.
Proof.
  intros Hl Hd. change (Z.to_nat BSIZE) with 1024%nat in Hl. unfold write_sectors. fn_cases; [|rewrite length_drop; lia|done].
  rewrite length_take. lia.
Qed.

Lemma completed_data b q d v b' : b' ≠ b → vbufs (completed b q d v) b' = vbufs v b'.
Proof. intros Hne. unfold completed. destruct (qw q); [done|]. simpl. by rewrite fn_lookup_insert_ne. Qed.
Lemma completed_fields b q d v b' : v_disk (vbufs (completed b q d v) b') = v_disk (vbufs v b') ∧
  v_blockno (vbufs (completed b q d v) b') = v_blockno (vbufs v b').
Proof.
  destruct (decide (b' = b)) as [->|]; [|by rewrite completed_data]. unfold completed. destruct (qw q); [done|].
  simpl. by rewrite fn_lookup_insert.
Qed.
Lemma completed_self b q d v : v_data (vbufs (completed b q d v) b) =
  if qw q then v_data (vbufs v b) else read_sectors d (2 * qn q).
Proof. unfold completed. destruct (qw q); [done|]. simpl. by rewrite fn_lookup_insert. Qed.

(** The specification performs the request. *)
Definition performs (b : Z) (q : req) (x : block) (a : ast) : ast :=
  Ast (if qw q then <[qn q := x]> (adisk a) else adisk a) (delete b (pending a))
    (<[b := if qw q then x else adisk a (qn q)]> (performed a)).

Lemma completed_Requests v R Q F1 F2 D A b q d : Requests v R Q (F1 ++ b :: F2) D A → R !! b = Some q →
  (∀ n, length (d n) = 512%nat) → Requests (completed b q d v) R Q (F1 ++ F2) (D ++ [b]) A.
Proof.
  intros HR Hq Hd. pose proof HR as [].
  eapply Requests_frame; [done| |unfold completed; by destruct (qw q)..| | | | |].
  - f_equiv. rewrite <-!app_assoc. f_equiv. rewrite !(app_assoc F2), !(app_assoc (b :: F2)).
    rewrite (app_assoc (F2 ++ D) [b]). f_equiv. simpl. rewrite Permutation_app_comm. done.
  - intros b' _. apply completed_fields.
  - intros b' Hb'. rewrite (proj1 (completed_fields _ _ _ _ _)). apply rs_disk0. set_solver.
  - intros b' Hb'. rewrite (proj1 (completed_fields _ _ _ _ _)). auto.
  - intros b' q' Hb' Hq'. unfold completed. simpl. fn_cases; [done|].
    apply elem_of_app in Hb' as [Hb'| ->%list_elem_of_singleton]; [|congruence].
    destruct (qw q); simpl; eauto.
  - intros b'. destruct (completed_fields b q d v b') as [_ E]. destruct (rs_bufs0 b') as [Hl Hn].
    split; [|by rewrite E]. destruct (decide (b' = b)) as [->|]; [|by rewrite completed_data].
    rewrite completed_self. destruct (qw q); [done|]. unfold read_sectors. by rewrite length_app, !Hd.
Qed.

Lemma Inv_complete a s R Q F D A l1 h l2 : Inv a s R Q F D A → inflight s = l1 ++ h :: l2 →
  ∃ b q F', R !! b = Some q ∧ h = q0 q ∧ chain (drv s) b q ∧
  pending a !! b = Some (qw q, qn q, v_data (vbufs (drv s) b)) ∧
  Inv (performs b q (v_data (vbufs (drv s) b)) a)
    (Sys (completed b q (sectors s) (drv s)) (stored b q (drv s) (sectors s)) (dev_idx s) (l1 ++ l2) (waiting s))
    R Q F' (D ++ [b]) A.
Proof.
  intros [] El. rewrite El in iv_inflight0. apply Forall2_app_inv_l in iv_inflight0 as (F1 & F0 & HF1 & HF0 & ->).
  apply Forall2_cons_inv_l in HF0 as (b & F2 & (q & Hq & ->) & HF2 & ->). exists b, q, (F1 ++ F2).
  pose proof iv_reqs0 as []. pose proof (rs_chain0 b q Hq) as Hch. pose proof (rs_ok0 b q Hq) as Hok.
  pose proof (completed_Requests _ _ _ _ _ _ _ _ _ _ iv_reqs0 Hq iv_sector0) as HR'.
  pose proof (rs_nodup _ _ _ _ _ _ HR') as Hnd.
  assert (NoDup (D ++ [b])) as HnD.
  { apply NoDup_app in Hnd as (_ & _ & Hnd). apply NoDup_app in Hnd as (_ & _ & Hnd). by apply NoDup_app in Hnd as (? & _). }
  assert (length (D ++ [b]) ≤ 8)%nat as HD.
  { apply (heads_bounded _ _ _ _ _ _ _ HR'); [done|]. intros b' Hb'. apply (rs_dom _ _ _ _ _ _ HR'). set_solver. }
  rewrite length_app in HD. simpl in HD.
  assert ((b ∉ Q ++ F1 ++ F2) ∧ (b ∉ D ++ A)) as [HbF HbD].
  { rewrite <-!app_assoc, !(app_assoc Q), !(app_assoc (Q ++ F1)), !(app_assoc _ D) in Hnd. simpl in Hnd.
    rewrite <-Permutation_middle in Hnd. apply NoDup_cons in Hnd as [Hnd _]. set_solver. }
  assert (∀ b', b' ≠ b → v_data (vbufs (completed b q (sectors s) (drv s)) b') = v_data (vbufs (drv s) b')) as Hdat.
  { intros b' Hne. by rewrite completed_data. }
  split_and!; [done|done|done| |].
  { rewrite iv_pending0, decide_True by set_solver. by rewrite Hq. }
  split; cbn [drv sectors dev_idx inflight waiting adisk pending performed performs]; try done.
  - unfold completed. by destruct (qw q).
  - unfold completed. by destruct (qw q).
  - by apply Forall2_app.
  - unfold completed. eapply (in_ring_push R R); [|done|done| |lia|].
    + by destruct (qw q).
    + intros Hb. by apply NoDup_app in HnD as (_ & HnD & _); apply (HnD b Hb); left.
    + rewrite iv_used_dev0, u16_mod. by destruct (qw q).
  - unfold completed. simpl. rewrite iv_used_dev0, u16_add, length_app. destruct (qw q); simpl; f_equal; lia.
  - unfold completed. by destruct (qw q).
  - intros b'. destruct (decide (b' = b)) as [->|Hne].
    + rewrite lookup_delete_eq, decide_False by set_solver. done.
    + rewrite lookup_delete_ne, iv_pending0, Hdat by done. apply decide_ext. set_solver.
  - intros b'. destruct (decide (b' = b)) as [->|Hne].
    + rewrite lookup_insert_eq, decide_True by set_solver. rewrite completed_self. destruct (qw q); [done|].
      rewrite iv_disk0; [done|]. apply Hok.
    + rewrite lookup_insert_ne, iv_performed0, Hdat by done. apply decide_ext. set_solver.
  - intros n Hn. unfold stored. destruct (qw q); [|by apply iv_disk0].
    rewrite read_write_sectors by apply rs_bufs0. rewrite fn_insert_dec. case_decide; [done|by apply iv_disk0].
  - intros n. unfold stored. destruct (qw q); [|done]. apply write_sectors_length; [apply rs_bufs0|done].
Qed.

Lemma queued_ne a s R Q F D A : Inv a s R Q F D A → Q ≠ [] → dev_idx s ≠ avail_idx (drv s).
Proof.
  intros [] HQ. pose proof iv_reqs0 as []. rewrite iv_avail_idx0.
  assert (length Q ≤ 8)%nat as Hl.
  { apply (heads_bounded _ _ _ _ _ _ _ iv_reqs0); [by apply NoDup_app in rs_nodup0 as (? & _)|].
    intros b Hb. apply rs_dom0. set_solver. }
  destruct Q as [|b Q]; [done|]. apply not_eq_sym, u16_ne; [done|]. simpl in *. lia.
Qed.

Definition good a s : Prop := ∃ R Q F D A, Inv a s R Q F D A.

Lemma step_sim a s x s' : good a s → vstep s x s' → ∃ a', astep a x a' ∧ good a' s'.
Proof.
  intros (R & Q & F & D & A & HI) Hs.
  pose proof (rs_bufs _ _ _ _ _ _ (iv_reqs _ _ _ _ _ _ _ HI)) as Hbufs.
  inv Hs as [b n d Hw Hv|b w i0 v Hw Hr|b w v Hw Hr|v Hr|b i0 v Hw Hd Hr|Hne|l1 h l2 v d El Hc].
  - exists a. split; [constructor|]. do 5 eexists. by apply Inv_client.
  - destruct (wp_elim _ _ _ _ _ (submit_spec b w (drv s) (Hbufs b)) Hr) as (q & -> & Hok & <- & Hn & Hf & ->).
    destruct (Inv_submit _ _ _ _ _ _ _ _ _ HI Hw Hok Hn Hf) as (H1 & H2 & H3).
    eexists. split; [by constructor|]. rewrite Hn in H3. do 5 eexists. exact H3.
  - pose proof (wp_elim _ _ _ _ _ (submit_spec b w (drv s) (Hbufs b)) Hr) as Ha. simpl in Ha.
    exists a. split; [constructor|]. do 5 eexists. by eapply Inv_busy.
  - destruct (wp_elim _ _ _ _ _ (intr_spec _ _ _ _ _ _ _ HI) Hr) as [A' HI'].
    exists a. split; [constructor|]. by do 5 eexists.
  - destruct (Inv_return _ _ _ _ _ _ _ _ _ HI Hw Hd) as (q & A' & Hq & -> & Hp & Hf & HI').
    rewrite (wp_elim _ _ _ _ _ Hf Hr). eexists. split; [by constructor|]. by do 5 eexists.
  - destruct (Inv_fetch _ _ _ _ _ _ _ HI Hne) as (b & Q' & -> & HI').
    exists a. split; [constructor|]. by do 5 eexists.
  - destruct (Inv_complete _ _ _ _ _ _ _ _ _ _ HI El) as (b & q & F' & Hq & -> & Hch & Hp & HI').
    rewrite (complete_chain _ _ _ _ Hch) in Hc. injection Hc as <- <-.
    eexists. split; [|do 5 eexists; exact HI']. unfold performs. destruct (qw q); by econstructor.
Qed.

Lemma run_sim a0 s0 l s : good a0 s0 → run vstep s0 l s → ∃ a, run astep a0 l a ∧ good a s.
Proof.
  intros H0 Hr. induction Hr as [|s0 l s1 x s2 _ IH Hs]; [by exists a0; split; [constructor|]|].
  destruct (IH H0) as (a1 & H1 & Hg). destruct (step_sim _ _ _ _ Hg Hs) as (a2 & H2 & Hg2).
  exists a2. split; [by econstructor|done].
Qed.
End steps.

(** ** The start *)
Record ready (v : vst) : Prop := {
  rd_free : ∀ i, 0 ≤ i < NUM → dfree v i = true;
  rd_avail : avail_idx v = 0;
  rd_used : used_dev v = 0;
  rd_idx : used_idx v = 0;
}.
Lemma init_ready R d av us v l : used_idx v = 0 →
  wlp (virtio_disk_init R d av us) (λ _ '(v', _), ready v' ∧ vbufs v' = vbufs v) (v, l).
Proof.
  intros Hu. unfold virtio_disk_init, wr. change (Z.to_nat NUM) with 8%nat. cbn [for_each]. wlp_steps.
  split; [|done]. split; simpl; try done. intros i Hi. change NUM with 8 in Hi. fn_cases; lia || done.
Qed.

Definition start (v : vst) (d : Z → block) : sys := Sys v d 0 [] ∅.
Lemma start_good v d : ready v → (∀ b, valid_buf (vbufs v b)) → (∀ n, length (d n) = 512%nat) →
  good (Ast (λ n, read_sectors d (2 * n)) ∅ ∅) (start v d).
Proof.
  intros [] Hb Hd. exists ∅, [], [], [], []. split; simpl; rewrite ?rd_avail0, ?rd_used0, ?rd_idx0; try done.
  - split; simpl; try done; try set_solver.
    + constructor.
    + intros b. rewrite lookup_empty. split; [by intros ?%elem_of_nil|by intros []].
Qed.

Section booted.
Context (R : Z → Z) (desc_ avail used : Z) (v0 v : vst) (regs : list (Z * Z)) (d : Z → block).
Context (Hused : used_idx v0 = 0).
Context (Hinit : virtio_disk_init R desc_ avail used (v0, []) = Ok (tt, (v, regs))).
Context (Hbufs : ∀ b, valid_buf (vbufs v0 b)) (Hsect : ∀ n, length (d n) = 512%nat).

Lemma booted_good : good (Ast (λ n, read_sectors d (2 * n)) ∅ ∅) (start v d).
Proof using Type*.
  destruct (wlp_elim _ _ _ _ _ (init_ready R desc_ avail used v0 [] Hused) Hinit) as [Hr E].
  apply start_good; [done| |done]. intros b. rewrite E. apply Hbufs.
Qed.

(** C3. The driver is an atomic disk.  Whatever the interleaving of processes,
    interrupts and device, and in whatever order the device performs requests:
    the submissions and returns of [virtio_disk_rw] are those of a disk on which
    every request takes effect at one point between the two, a read returning
    the contents of its block at this point. *)
Theorem virtio_atomic_disk ls s : run vstep (start v d) ls s →
  ∃ a, run astep (Ast (λ n, read_sectors d (2 * n)) ∅ ∅) ls a.
Proof using Type*. intros Hr. destruct (run_sim _ _ _ _ booted_good Hr) as (a & Ha & _). eauto. Qed.

(** C25. The driver does not go wrong and no request is lost.  In every reachable
    state submitting, the interrupt handler and the return of a completed request
    end without a panic, the device finds well-formed chains, and while a
    process waits in [virtio_disk_rw] its request is completed, or the device
    or the interrupt handler has something to do. *)
Theorem virtio_never_stuck ls s : run vstep (start v d) ls s →
  (∀ b w, waiting s !! b = None → ∃ o v', virtio_submit b w (drv s) = Ok (o, v')) ∧
  (∃ v', virtio_disk_intr (drv s) = Ok (tt, v')) ∧
  (∀ b i0, waiting s !! b = Some i0 → v_disk (vbufs (drv s) b) ≠ 1 → ∃ v', virtio_finish i0 (drv s) = Ok (tt, v')) ∧
  (∀ h, h ∈ inflight s → is_Some (complete h (drv s) (sectors s))) ∧
  (∀ b i0, waiting s !! b = Some i0 → v_disk (vbufs (drv s) b) ≠ 1 ∨ inflight s ≠ [] ∨
     dev_idx s ≠ avail_idx (drv s) ∨ used_idx (drv s) ≠ used_dev (drv s)).
Proof using Type*.
  intros Hr. destruct (run_sim _ _ _ _ booted_good Hr) as (a & _ & R' & Q & F & D & A & HI).
  pose proof (iv_reqs _ _ _ _ _ _ _ HI) as HR. split_and!.
  - intros b w _. destruct (proj1 (wp_ok _ _ _) (submit_spec b w (drv s) (rs_bufs _ _ _ _ _ _ HR b))) as (o & v' & E & _). eauto.
  - destruct (proj1 (wp_ok _ _ _) (intr_spec _ _ _ _ _ _ _ HI)) as ([] & v' & E & _). eauto.
  - intros b i0 Hw Hd. destruct (Inv_return _ _ _ _ _ _ _ _ _ HI Hw Hd) as (q & A' & _ & _ & _ & Hf & _).
    destruct (proj1 (wp_ok _ _ _) Hf) as ([] & v' & E & _). eauto.
  - intros h (l1 & l2 & El)%list_elem_of_split.
    destruct (Inv_complete _ _ _ _ _ _ _ _ _ _ HI El) as (b & q & F' & _ & -> & Hch & _).
    rewrite (complete_chain _ _ _ _ Hch). eauto.
  - intros b i0 Hw. rewrite (iv_waiting _ _ _ _ _ _ _ HI) in Hw. destruct (R' !! b) as [q|] eqn:Hq; [|done].
    assert (b ∈ Q ++ F ++ D ++ A) as Hb by (apply (rs_dom _ _ _ _ _ _ HR); eauto).
    rewrite !elem_of_app in Hb. destruct Hb as [Hb|[Hb|[Hb|Hb]]].
    + right; right; left. apply (queued_ne _ _ _ _ _ _ _ HI). by destruct Q; [apply elem_of_nil in Hb|].
    + right; left. intros E. pose proof (iv_inflight _ _ _ _ _ _ _ HI) as HF. rewrite E in HF. inv HF. set_solver.
    + right; right; right. destruct D as [|b' D]; [set_solver|]. by destruct (Inv_ack _ _ _ _ _ _ _ _ HI) as (_ & ? & _).
    + left. rewrite (rs_acked _ _ _ _ _ _ HR b Hb). done.
Qed.
End booted.

(** ** A request from start to end *)
Module Disk0.
Definition R (r : Z) : Z :=
  if r =? VIRTIO_MMIO_MAGIC_VALUE then 0x74726976
  else if (r =? VIRTIO_MMIO_VERSION) || (r =? VIRTIO_MMIO_DEVICE_ID) then 2
  else if r =? VIRTIO_MMIO_VENDOR_ID then 0x554d4551
  else if r =? VIRTIO_MMIO_STATUS then 11
  else if r =? VIRTIO_MMIO_QUEUE_NUM_MAX then 1024 else 0.
Definition v0 : vst :=
  Vst (λ _, Desc Null 0 0 0) (λ _, 0) 0 (λ _, 0) 0 (λ _, false) 0 (λ _, None) (λ _, 0) (λ _, Req 0 0 0)
    (λ _, Dbuf 0 7 (replicate 1024 7)).
Definition boot := after (virtio_disk_init R 4096 8192 12288 (v0, [])) (v0, []).
Definition v1 : vst := boot.1.
Definition d1 (n : Z) : block := replicate 512 0.
(** Buffer 7 is written to block 7. *)
Definition v2 : vst := after (virtio_submit 7 true v1) v1.
Definition done3 : vst * (Z → block) := default (v2, d1) (complete 0 v2 d1).
Definition v3 : vst := done3.1.
Definition d3 : Z → block := done3.2.
Definition v4 : vst := after (virtio_disk_intr v3) v3.
Definition v5 : vst := after (virtio_finish 0 v4) v4.

Definition data7 : block := replicate 1024 7.
Lemma init_ok : virtio_disk_init R 4096 8192 12288 (v0, []) = Ok (tt, (v1, boot.2)).
Proof. unfold v1. rewrite <-surjective_pairing. apply after_ok. vm_compute. reflexivity. Qed.
Lemma data_kept : vbufs v1 7 = Dbuf 0 7 data7 ∧ vbufs v4 7 = Dbuf 0 7 data7.
Proof. split; vm_compute; reflexivity. Qed.

(** Up to the completion by the device. *)
Lemma run3 : run vstep (start v1 d1) [Submit 7 true 7 data7; Tau; Tau] (Sys v3 d3 1 [] {[7 := 0]}).
Proof.
  destruct data_kept as [E1 _]. apply (run_snoc _ _ [_; _] (Sys v2 d1 1 [0] {[7 := 0]})).
  - apply (run_snoc _ _ [_] (Sys v2 d1 0 [] {[7 := 0]})).
    + apply (run_snoc _ _ [] (start v1 d1)); [constructor|].
      pose proof (vs_submit (start v1 d1) 7 true 0 v2 eq_refl) as H. cbn [drv start] in H. rewrite E1 in H. apply H.
      apply after_ok. vm_compute. reflexivity.
    + pose proof (vs_fetch (Sys v2 d1 0 [] {[7 := 0]})) as H. cbn [drv dev_idx inflight sectors waiting] in H.
      change (u16 (0 + 1)) with 1 in H.
      assert (avail_ring v2 (0 mod NUM) = 0 ∧ avail_idx v2 = 1) as [Er Ei] by (split; vm_compute; reflexivity).
      rewrite Er, Ei in H. by apply H.
  - refine (vs_complete (Sys v2 d1 1 [0] {[7 := 0]}) [] 0 [] v3 d3 eq_refl _). cbn [drv sectors].
    unfold v3, d3, done3. destruct (complete 0 v2 d1) as [[]|] eqn:E; [done|]. by vm_compute in E.
Qed.
Lemma run7 : run vstep (start v1 d1) [Submit 7 true 7 data7; Tau; Tau; Tau; Return 7 data7]
  (Sys v5 d3 1 [] ∅).
Proof.
  destruct data_kept as [_ E4]. apply (run_snoc _ _ [_; _; _; _] (Sys v4 d3 1 [] {[7 := 0]})).
  - apply (run_snoc _ _ [_; _; _] (Sys v3 d3 1 [] {[7 := 0]})); [exact run3|].
    refine (vs_intr (Sys v3 d3 1 [] {[7 := 0]}) v4 _). apply after_ok. vm_compute. reflexivity.
  - pose proof (vs_return (Sys v4 d3 1 [] {[7 := 0]}) 7 0 v5 eq_refl) as H. cbn [drv waiting] in H. rewrite E4 in H.
    rewrite delete_singleton_eq in H. apply H; [done|]. apply after_ok. vm_compute. reflexivity.
Qed.
End Disk0.

Lemma virtio_atomic_disk_witness : ∃ a,
  run astep (Ast (λ n, read_sectors Disk0.d1 (2 * n)) ∅ ∅)
    [Submit 7 true 7 Disk0.data7; Tau; Tau; Tau; Return 7 Disk0.data7] a.
Proof.
  apply (virtio_atomic_disk Disk0.R 4096 8192 12288 Disk0.v0 Disk0.v1 Disk0.boot.2 Disk0.d1 eq_refl Disk0.init_ok) with
    (s := Sys Disk0.v5 Disk0.d3 1 [] ∅).
  - by intros b.
  - done.
  - exact Disk0.run7.
Defined.

Lemma virtio_never_stuck_witness : ∃ v, virtio_disk_intr Disk0.v3 = Ok (tt, v).
Proof.
  destruct (virtio_never_stuck Disk0.R 4096 8192 12288 Disk0.v0 Disk0.v1 Disk0.boot.2 Disk0.d1 eq_refl Disk0.init_ok) with
    (ls := [Submit 7 true 7 Disk0.data7; Tau; Tau]) (s := Sys Disk0.v3 Disk0.d3 1 [] {[7 := 0]}) as (_ & H & _).
  - by intros b.
  - done.
  - exact Disk0.run3.
  - exact H.
Defined.
