(* ===== verification/Log.v ===== *)
(** * The write-ahead log ([kernel/log.c])

    State: the in-memory [struct log] on top of the buffer cache.  A
    [begin_op] that has to wait ends in the outcome [Sleep]: when it is woken
    up it evaluates the loop again from the start, that is, it runs
    [begin_op] on the state of that moment. *)

From S2P Require Import Prelude Word Param Bio BioSpec.

(** [struct logheader]; [lh_block] has [LOGSIZE] entries. *)
Record logheader := Logheader { lh_n : Z; lh_block : list Z }.

(** [struct log], and the cache below it. *)
Record lst := Lst {
  bc : bst;
  l_start : Z;
  l_size : Z;
  l_outstanding : Z;
  l_committing : bool;
  l_dev : Z;
  l_lh : logheader;
}.

Definition set_bc (b : bst) (s : lst) : lst :=
  Lst b (l_start s) (l_size s) (l_outstanding s) (l_committing s) (l_dev s) (l_lh s).
Definition set_outstanding (n : Z) (s : lst) : lst :=
  Lst (bc s) (l_start s) (l_size s) n (l_committing s) (l_dev s) (l_lh s).
Definition set_committing (c : bool) (s : lst) : lst :=
  Lst (bc s) (l_start s) (l_size s) (l_outstanding s) c (l_dev s) (l_lh s).
Definition set_lh (h : logheader) (s : lst) : lst :=
  Lst (bc s) (l_start s) (l_size s) (l_outstanding s) (l_committing s) (l_dev s) h.
Definition set_n (n : Z) (s : lst) : lst := set_lh (Logheader n (lh_block (l_lh s))) s.

(** An operation of the buffer cache. *)
Definition bio {A} (m : K bst A) : K lst A := lift bc set_bc m.

Definition get_n : K lst Z := gets (λ s, lh_n (l_lh s)).

(** [log.lh.block[i]], read and assigned. *)
Definition get_block (i : Z) : K lst Z :=
  bs ← gets (λ s, lh_block (l_lh s));
  match bs !! Z.to_nat i with
  | Some b => mret b
  | None => undefined "log.lh.block"
  end.
Definition put_block (i : Z) (b : Z) : K lst unit :=
  bs ← gets (λ s, lh_block (l_lh s));
  if decide (Z.to_nat i < length bs)%nat then
    modify (λ s, set_lh (Logheader (lh_n (l_lh s)) (<[Z.to_nat i := b]> (lh_block (l_lh s)))) s)
  else undefined "log.lh.block".

(** Fields of the header block: [n] at offset 0, [block[i]] at [4 + 4 * i]. *)
Definition hb_off (i : Z) : nat := Z.to_nat (4 + 4 * i).

(** [bread(log.dev, blockno)]; the block number is converted to [uint]. *)
Definition lread (b : Z) : K lst nat :=
  dev ← gets l_dev;
  bio (bread dev (u32 b)).

(** Body of the loop of [install_trans]. *)
Definition install_block (recovering : bool) (tail : Z) : K lst unit :=
  start ← gets l_start;
  lbuf ← lread (start + tail + 1);
  b ← get_block tail;
  dbuf ← lread b;
  d ← bio (bdata lbuf);
  bio (bset_data dbuf d);;
  bio (bwrite dbuf);;
  when (negb recovering) (bio (bunpin dbuf));;
  bio (brelse lbuf);;
  bio (brelse dbuf).

Definition install_trans (recovering : bool) : K lst unit :=
  n ← get_n;
  for_each (Z.to_nat n) 0 (install_block recovering).

Definition read_head : K lst unit :=
  start ← gets l_start;
  buf ← lread start;
  d ← bio (bdata buf);
  modify (set_n (s32 (get32 d 0)));;
  n ← get_n;
  for_each (Z.to_nat n) 0 (λ i,
    if decide (hb_off i + 4 ≤ length d)%nat then
      put_block i (s32 (get32 d (hb_off i)))
    else undefined "lh->block");;
  bio (brelse buf).

Definition write_head : K lst unit :=
  start ← gets l_start;
  buf ← lread start;
  n ← get_n;
  d ← bio (bdata buf);
  bio (bset_data buf (put32 d 0 n));;
  for_each (Z.to_nat n) 0 (λ i,
    b ← get_block i;
    d ← bio (bdata buf);
    bio (bset_data buf (put32 d (hb_off i) b)));;
  bio (bwrite buf);;
  bio (brelse buf).

Definition recover_from_log : K lst unit :=
  read_head;;
  install_trans true;;
  modify (set_n 0);;
  write_head.

Definition sizeof_logheader : Z := 4 + 4 * LOGSIZE.

Definition initlog (dev : Z) (sb : superblock) : K lst unit :=
  panic_if (BSIZE <=? sizeof_logheader) "initlog: too big logheader";;
  modify (λ s, Lst (bc s) (sb_logstart sb) (sb_nlog sb) (l_outstanding s) (l_committing s) dev (l_lh s));;
  recover_from_log.

Definition begin_op : K lst unit :=
  c ← gets l_committing;
  n ← get_n;
  out ← gets l_outstanding;
  if (c : bool) then sleep_on "log"
  else if LOGSIZE <? n + (out + 1) * MAXOPBLOCKS then sleep_on "log"
  else modify (set_outstanding (out + 1)).

(** Body of the loop of [write_log]. *)
Definition log_block (tail : Z) : K lst unit :=
  start ← gets l_start;
  to ← lread (start + tail + 1);
  b ← get_block tail;
  from ← lread b;
  d ← bio (bdata from);
  bio (bset_data to d);;
  bio (bwrite to);;
  bio (brelse from);;
  bio (brelse to).

Definition write_log : K lst unit :=
  n ← get_n;
  for_each (Z.to_nat n) 0 log_block.

Definition commit : K lst unit :=
  n ← get_n;
  when (0 <? n) (
    write_log;;
    write_head;;
    install_trans false;;
    modify (set_n 0);;
    write_head).

Definition end_op : K lst unit :=
  out ← gets l_outstanding;
  modify (set_outstanding (out - 1));;
  c ← gets l_committing;
  panic_if c "log.committing";;
  out ← gets l_outstanding;
  if out =? 0 then
    modify (set_committing true);;
    commit;;
    modify (set_committing false)
  else mret tt.

(** The absorption loop: first index holding the block, or [n]. *)
Definition log_find (blockno : Z) : K lst Z :=
  n ← get_n;
  r ← for_loop (Z.to_nat n) 0 (λ i,
    b ← get_block i;
    mret (if u32 b =? blockno then Some i else None));
  mret (default n r).

Definition log_write (b : nat) : K lst unit :=
  n ← get_n;
  size ← gets l_size;
  panic_if ((LOGSIZE <=? n) || (size - 1 <=? n)) "too big a transaction";;
  out ← gets l_outstanding;
  panic_if (out <? 1) "log_write outside of trans";;
  blockno ← bio (getb b b_blockno);
  i ← log_find blockno;
  put_block i (s32 blockno);;
  n ← get_n;
  when (i =? n) (
    bio (bpin b);;
    modify (set_n (n + 1))).
