(* ===== verification/LogSpec.v ===== *)
(** * Functional behaviour of the log

    What [write_log], [write_head], [install_trans], [commit] and recovery do
    to the blocks: their exact sequence of disk writes, the contents seen by
    clients afterwards, and the pins they drop. *)

From S2P Require Import Prelude Word Param Bio BioSpec Log.

(** ** Sequences of block writes *)
Abbreviation writes := (list (Z * block)).

Definition apply_writes (ws : writes) (d : gmap Z block) : gmap Z block :=
  foldl (λ d w, <[w.1 := w.2]> d) d ws.
Definition vapply (ws : writes) (v : Z → block) : Z → block :=
  foldl (λ v w, <[w.1 := w.2]> v) v ws.

Section writes.
Implicit Types (ws : writes) (v : Z → block) (d : gmap Z block).

Lemma apply_writes_app ws1 ws2 d :
  apply_writes (ws1 ++ ws2) d = apply_writes ws2 (apply_writes ws1 d).
Proof. apply foldl_app. Qed.

Lemma vapply_app ws1 ws2 v : vapply (ws1 ++ ws2) v = vapply ws2 (vapply ws1 v).
Proof. apply foldl_app. Qed.

Lemma vapply_snoc ws w v : vapply (ws ++ [w]) v = <[w.1 := w.2]> (vapply ws v).
Proof. apply vapply_app. Qed.

Lemma apply_writes_snoc ws w d : apply_writes (ws ++ [w]) d = <[w.1 := w.2]> (apply_writes ws d).
Proof. apply apply_writes_app. Qed.

Lemma dread_apply_writes ws d b : dread (apply_writes ws d) b = vapply ws (dread d) b.
Proof.
  induction ws as [|[b' x] ws IH] using rev_ind; [done|].
  rewrite apply_writes_snoc, vapply_snoc. simpl.
  destruct (decide (b' = b)) as [->|].
  - by rewrite dread_insert_eq, fn_lookup_insert.
  - by rewrite dread_insert_ne, fn_lookup_insert_ne.
Qed.

Lemma vapply_ne ws v b : b ∉ ws.*1 → vapply ws v b = v b.
Proof.
  induction ws as [|[b' x] ws IH] using rev_ind; [done|].
  rewrite fmap_app, not_elem_of_app. intros [Hb Hne]. simpl in Hne.
  rewrite vapply_snoc, fn_lookup_insert_ne by set_solver. auto.
Qed.

Lemma vapply_in ws v b x : NoDup ws.*1 → (b, x) ∈ ws → vapply ws v b = x.
Proof.
  induction ws as [|[b' x'] ws IH] using rev_ind; [set_solver|].
  rewrite fmap_app. intros (Hnd & Hd & _)%NoDup_app Hin.
  rewrite vapply_snoc. simpl. apply elem_of_app in Hin as [Hin|Hin].
  - rewrite fn_lookup_insert_ne; [auto|]. intros ->.
    eapply Hd; [by apply (list_elem_of_fmap_2 fst) in Hin|]. simpl. set_solver.
  - apply list_elem_of_singleton in Hin as [= -> ->]. by rewrite fn_lookup_insert.
Qed.

Lemma vapply_ext ws v v' b : v b = v' b → vapply ws v b = vapply ws v' b.
Proof.
  intros E. induction ws as [|[b' x] ws IH] using rev_ind; [done|].
  rewrite !vapply_snoc. simpl. destruct (decide (b' = b)) as [->|].
  - by rewrite !fn_lookup_insert.
  - by rewrite !fn_lookup_insert_ne.
Qed.
End writes.

(** The cache invariant only depends on the values of the view. *)
#[global] Instance slot_ok_proper me pool :
  Proper (pointwise_relation Z (=) ==> (=) ==> (=) ==> iff) (slot_ok me pool).
Proof. intros v v' Hv i ? <- b ? <-. unfold slot_ok. by rewrite (Hv (b_blockno b)). Qed.

#[global] Instance PInv_proper s :
  Proper (pointwise_relation Z (=) ==> (=) ==> (=) ==> iff) (PInv s).
Proof.
  assert (∀ v v' H P, pointwise_relation Z eq v v' → PInv s v H P → PInv s v' H P) as Himp.
  { intros v v' H P Hv (pool & [Hlen Hl Hu Hs Hp Hc] & Hrest). exists pool. split; [|done]. split; try done.
    - intros i Hi. rewrite <-Hv. by apply Hs.
    - intros b Hb. rewrite <-(Hv b). by apply Hc. }
  intros v v' Hv H ? <- P ? <-. split; apply Himp; [done|]. intros b. by rewrite (Hv b).
Qed.

(** ** Well-formed in-memory log *)
Definition lblocks (s : lst) : list Z := take (Z.to_nat (lh_n (l_lh s))) (lh_block (l_lh s)).

(** Blocks of the log area: the header and [l_size - 1] data blocks. *)
Definition in_log (s : lst) (b : Z) : Prop := l_start s ≤ b < l_start s + l_size s.

Record LWf (s : lst) : Prop := {
  lw_dev : l_dev s = ROOTDEV;
  lw_len : length (lh_block (l_lh s)) = Z.to_nat LOGSIZE;
  lw_n : 0 ≤ lh_n (l_lh s) < l_size s;
  lw_n_max : lh_n (l_lh s) ≤ LOGSIZE;
  lw_area : 0 ≤ l_start s ∧ l_start s + l_size s < 2 ^ 31;
  lw_home : ∀ b, b ∈ lblocks s → 0 ≤ b < 2 ^ 31 ∧ ¬ in_log s b;
  lw_nodup : NoDup (lblocks s);
}.

Lemma length_lblocks s : LWf s → length (lblocks s) = Z.to_nat (lh_n (l_lh s)).
Proof. intros []. unfold lblocks. rewrite length_take. lia. Qed.

(** ** Cache operations inside the log *)
Lemma wp_bio {A} (m : K bst A) (Q : A → lst → Prop) s b :
  wp m (λ a b', Q a (set_bc b' s)) b → wp (bio m) Q (set_bc b s).
Proof. intros H. unfold bio. apply wp_lift. exact H. Qed.

Lemma wp_lread x (Q : nat → lst → Prop) s b :
  l_dev s = ROOTDEV → 0 ≤ x < 2 ^ 31 →
  wp (bread ROOTDEV x) (λ a b', Q a (set_bc b' s)) b → wp (lread x) Q (set_bc b s).
Proof.
  intros Hd Hx H. unfold lread. wp_steps. simpl. rewrite Hd.
  unfold u32. rewrite wrap_small by lia. by apply wp_bio.
Qed.

Lemma wp_get_block i (Q : Z → lst → Prop) s b x :
  lh_block (l_lh s) !! Z.to_nat i = Some x → Q x (set_bc b s) → wp (get_block i) Q (set_bc b s).
Proof. intros Hx HQ. unfold get_block. wp_steps. simpl. by rewrite Hx. Qed.

Lemma lblocks_lookup s i x :
  lblocks s !! i = Some x → lh_block (l_lh s) !! i = Some x.
Proof. unfold lblocks. intros H. by apply lookup_take_Some in H as [? _]. Qed.

(** ** [write_log] *)

(** The copies of the logged blocks, in log order. *)
Definition log_writes (s : lst) (v : Z → block) : writes :=
  imap (λ i b, (l_start s + 1 + Z.of_nat i, v b)) (lblocks s).

Lemma log_writes_lookup s v i b :
  lblocks s !! i = Some b → log_writes s v !! i = Some (l_start s + 1 + Z.of_nat i, v b).
Proof. intros H. unfold log_writes. by rewrite list_lookup_imap, H. Qed.

Lemma log_writes_fst s v b k :
  b ∈ (take k (log_writes s v)).*1 → LWf s → in_log s b ∧ b ≠ l_start s.
Proof.
  intros ([b' x] & -> & Hin)%list_elem_of_fmap Hwf.
  apply elem_of_take in Hin as (i & Hin & _). unfold log_writes in Hin.
  rewrite list_lookup_imap in Hin. destruct (lblocks s !! i) as [y|] eqn:E; [|done].
  simplify_eq/=. apply lookup_lt_Some in E. rewrite length_lblocks in E by done.
  destruct Hwf. unfold in_log. lia.
Qed.

Record effect (b0 b : bst) (ws : writes) : Prop := {
  ef_disk : disk b = apply_writes ws (disk b0);
  ef_io : io b = io b0 ++ ws;
  ef_me : me b = me b0;
}.

Lemma effect_refl b : effect b b [].
Proof. split; [done| |done]. by rewrite app_nil_r. Qed.

Lemma effect_same b0 b b' ws : effect b0 b ws → same_disk b b' → effect b0 b' ws.
Proof. intros [Hd Hi Hm] (H1 & H2 & H3). split; congruence. Qed.

Lemma effect_write b0 b b' ws x d :
  effect b0 b ws → disk b' = <[x := d]> (disk b) → io b' = io b ++ [(x, d)] → me b' = me b →
  effect b0 b' (ws ++ [(x, d)]).
Proof.
  intros [Hd Hi Hm] H1 H2 H3. split.
  - by rewrite H1, Hd, apply_writes_snoc.
  - by rewrite H2, Hi, app_assoc.
  - congruence.
Qed.

Lemma effect_trans b0 b1 b2 ws1 ws2 : effect b0 b1 ws1 → effect b1 b2 ws2 → effect b0 b2 (ws1 ++ ws2).
Proof.
  intros [Hd Hi Hm] [Hd' Hi' Hm']. split.
  - by rewrite Hd', Hd, apply_writes_app.
  - by rewrite Hi', Hi, app_assoc.
  - congruence.
Qed.

(** One entry of the log: its block number and its place in the log area. *)
Lemma log_entry s t :
  LWf s → 0 ≤ t < lh_n (l_lh s) →
  ∃ blk, lblocks s !! Z.to_nat t = Some blk ∧ lh_block (l_lh s) !! Z.to_nat t = Some blk ∧
    blk ∈ lblocks s ∧ 0 ≤ blk < 2 ^ 31 ∧ ¬ in_log s blk ∧
    in_log s (l_start s + t + 1) ∧ 0 ≤ l_start s + t + 1 < 2 ^ 31 ∧ l_start s + t + 1 ≠ blk.
Proof.
  intros Hwf Ht. pose proof (length_lblocks s Hwf) as Hll.
  destruct (lookup_lt_is_Some_2 (lblocks s) (Z.to_nat t)) as [blk Hblk]; [lia|].
  assert (blk ∈ lblocks s) as Hin by (by eapply list_elem_of_lookup_2).
  destruct (lw_home _ Hwf _ Hin) as [Hrng Hnl]. exists blk.
  assert (in_log s (l_start s + t + 1)) as Hx by (destruct Hwf; unfold in_log; lia).
  assert (l_start s + t + 1 ≠ blk) by (intros E; by rewrite E in Hx).
  assert (0 ≤ l_start s + t + 1 < 2 ^ 31) by (destruct Hwf; lia).
  split_and!; first [done|lia|by apply lblocks_lookup].
Qed.

(** Consume one cache operation of the body of a loop. *)
Ltac lread_step Hinv tac :=
  apply wp_bind, wp_lread; [by apply lw_dev|done|];
  eapply wp_mono; [eapply pread_spec; [exact Hinv|tac|..]|].

Lemma log_block_spec s b v P t blk :
  LWf s → 0 ≤ t < lh_n (l_lh s) → lblocks s !! Z.to_nat t = Some blk →
  PInv b v ∅ P → blk ∈ P → (∀ x, x ∈ P → ¬ in_log s x) → (size P < nbuf)%nat →
  wp (log_block t) (λ _ s', ∃ b', s' = set_bc b' s ∧
    PInv b' (<[l_start s + t + 1 := v blk]> v) ∅ P ∧
    effect b b' [(l_start s + t + 1, v blk)]) (set_bc b s).
Proof.
  intros Hwf Ht Hblk Hinv Hin HP Hsz.
  destruct (log_entry s t Hwf Ht) as (blk' & Hb1 & Hb2 & _ & Hrng & Hnl & Hx & Hxr & Hxb).
  simplify_eq. unfold log_block. set (x := l_start s + t + 1) in *.
  assert (x ∉ P) as HxP by (intros ?; by eapply HP).
  apply wp_bind, wp_gets. cbn [l_start set_bc]. fold x.
  lread_step Hinv ltac:(done); [right; rewrite map_size_empty; lia|]. intros i b2 [Hinv2 Hs2].
  apply wp_bind. eapply wp_get_block; [done|].
  lread_step Hinv2 ltac:(by rewrite lookup_insert_ne); [by left|]. intros j b3 [Hinv3 Hs3].
  assert (<[blk:=j]> (<[x:=i]> ∅ : gmap Z nat) !! x = Some i) as Hxi
    by (by rewrite lookup_insert_ne, lookup_insert_eq).
  apply wp_bind, wp_bio. eapply pdata_spec; [exact Hinv3|apply lookup_insert_eq|].
  apply wp_bind, wp_bio.
  eapply wp_mono; [eapply (pset_data_spec _ _ _ _ x); [exact Hinv3|done]|]. intros _ b4 [Hinv4 Hs4].
  apply wp_bind, wp_bio.
  eapply wp_mono; [eapply (pwrite_spec _ _ _ _ x); [exact Hinv4|done]|]. intros _ b5 (Hinv5 & Hd5 & Hi5 & Hm5).
  rewrite fn_lookup_insert in *. apply wp_bind, wp_bio.
  eapply wp_mono; [eapply (prelse_spec _ _ _ _ blk); [exact Hinv5|apply lookup_insert_eq|by left]|].
  intros _ b6 [Hinv6 Hs6]. rewrite delete_insert_id in Hinv6 by (by rewrite lookup_insert_ne).
  apply wp_bio.
  eapply wp_mono; [eapply (prelse_spec _ _ _ _ x); [exact Hinv6|apply lookup_insert_eq|right]|].
  { destruct Hs6 as (-> & _). by rewrite Hd5, dread_insert_eq, fn_lookup_insert. }
  intros _ b7 [Hinv7 Hs7]. rewrite delete_insert_id in Hinv7 by done.
  exists b7. split_and!; [done|done|]. do 2 (eapply effect_same; [|done]).
  eapply (effect_write _ _ _ []); [|done..]. do 3 (eapply effect_same; [|done]). apply effect_refl.
Qed.

Lemma write_log_spec s b v P :
  LWf s → PInv b v ∅ P → (∀ x, x ∈ lblocks s → x ∈ P) → (∀ x, x ∈ P → ¬ in_log s x) →
  (size P < nbuf)%nat →
  wp write_log (λ _ s', ∃ b', s' = set_bc b' s ∧ PInv b' (vapply (log_writes s v) v) ∅ P ∧
                              effect b b' (log_writes s v)) (set_bc b s).
Proof.
  intros Hwf Hinv Hlog HP Hsz. unfold write_log, get_n. wp_steps. cbn [l_lh set_bc].
  pose proof (length_lblocks s Hwf) as Hll.
  eapply (wp_for_each (λ t s', ∃ b', s' = set_bc b' s ∧
     PInv b' (vapply (take (Z.to_nat t) (log_writes s v)) v) ∅ P ∧
     effect b b' (take (Z.to_nat t) (log_writes s v)))).
  - exists b. split_and!; [done|done|apply effect_refl].
  - intros t s' Ht (b1 & -> & Hinv1 & Hef).
    destruct (log_entry s t Hwf ltac:(lia)) as (blk & Hblk & _ & Hin & _ & Hnl & _).
    eapply wp_mono; [eapply (log_block_spec s b1); eauto; lia|].
    intros _ s' (b2 & -> & Hinv2 & Hef2). exists b2.
    assert (vapply (take (Z.to_nat t) (log_writes s v)) v blk = v blk) as Hvb.
    { apply vapply_ne. intros Hbad. by apply log_writes_fst in Hbad as [? _]. }
    rewrite Hvb in *. replace (Z.to_nat (t + 1)) with (S (Z.to_nat t)) by lia.
    erewrite take_S_r by (by apply log_writes_lookup).
    replace (l_start s + 1 + Z.of_nat (Z.to_nat t)) with (l_start s + t + 1) by lia.
    rewrite vapply_snoc. split_and!; [done|done|]. by eapply effect_trans.
  - intros s' (b1 & -> & Hinv1 & Hef). exists b1.
    rewrite take_ge in Hinv1, Hef; [done|unfold log_writes; rewrite length_imap; lia..].
Qed.

(** ** The header block *)

Fixpoint put_blocks (d : block) (i : Z) (bs : list Z) : block :=
  match bs with
  | [] => d
  | b :: bs' => put_blocks (put32 d (hb_off i) b) (i + 1) bs'
  end.

(** What [write_head] stores over the old contents [d] of the header block. *)
Definition encode_head (d : block) (n : Z) (bs : list Z) : block := put_blocks (put32 d 0 n) 0 bs.

Lemma put_blocks_snoc d i bs b :
  put_blocks d i (bs ++ [b]) = put32 (put_blocks d i bs) (hb_off (i + Z.of_nat (length bs))) b.
Proof.
  revert d i. induction bs as [|x bs IH]; intros d i; simpl.
  - by rewrite Z.add_0_r.
  - rewrite IH. do 2 f_equal. lia.
Qed.

Lemma PInv_ext s v v' H P : (∀ b, v b = v' b) → PInv s v H P → PInv s v' H P.
Proof. intros Hv. by rewrite (Hv : pointwise_relation Z eq v v'). Qed.

Lemma fn_insert_twice (v : Z → block) x d1 d2 b :
  (<[x := d2]> (<[x := d1]> v)) b = (<[x := d2]> v) b.
Proof.
  destruct (decide (x = b)) as [->|].
  - by rewrite !fn_lookup_insert.
  - by rewrite !fn_lookup_insert_ne.
Qed.

Lemma write_head_spec s b v P :
  LWf s → PInv b v ∅ P → (∀ x, x ∈ P → ¬ in_log s x) → (size P < nbuf)%nat →
  let hdr := encode_head (v (l_start s)) (lh_n (l_lh s)) (lblocks s) in
  wp write_head (λ _ s', ∃ b', s' = set_bc b' s ∧ PInv b' (<[l_start s := hdr]> v) ∅ P ∧
                               effect b b' [(l_start s, hdr)]) (set_bc b s).
Proof.
  intros Hwf Hinv HP Hsz hdr. pose proof (length_lblocks s Hwf) as Hll.
  set (x := l_start s) in *. unfold write_head, get_n.
  assert (in_log s x) as Hx by (destruct Hwf; unfold in_log, x; lia).
  assert (0 ≤ x < 2 ^ 31) as Hxr by (destruct Hwf; unfold x; lia).
  assert (x ∉ P) as HxP by (intros ?; by eapply HP).
  apply wp_bind, wp_gets. cbn [l_start set_bc]. fold x.
  lread_step Hinv ltac:(done); [right; rewrite map_size_empty; lia|]. intros i b1 [Hinv1 Hs1].
  apply wp_bind, wp_gets. cbn [l_lh set_bc]. apply wp_bind, wp_bio.
  eapply pdata_spec; [exact Hinv1|apply lookup_insert_eq|].
  apply wp_bind, wp_bio.
  eapply wp_mono; [eapply (pset_data_spec _ _ _ _ x); [exact Hinv1|apply lookup_insert_eq]|].
  intros _ b2 [Hinv2 Hs2]. apply wp_bind.
  apply (wp_for_each (λ t s', ∃ b', s' = set_bc b' s ∧
    PInv b' (<[x := put_blocks (put32 (v x) 0 (lh_n (l_lh s))) 0 (take (Z.to_nat t) (lblocks s))]> v)
      (<[x := i]> ∅) P ∧ same_disk b b')).
  - exists b2. split_and!; [done|done|]. destruct Hs1 as (?&?&?), Hs2 as (?&?&?). split_and!; congruence.
  - intros t s' Ht (b3 & -> & Hinv3 & Hs3).
    destruct (log_entry s t Hwf ltac:(lia)) as (blk & Hblk & Hblk' & _).
    apply wp_bind. eapply wp_get_block; [done|]. apply wp_bind, wp_bio.
    eapply pdata_spec; [exact Hinv3|apply lookup_insert_eq|]. apply wp_bio.
    eapply wp_mono; [eapply (pset_data_spec _ _ _ _ x); [exact Hinv3|apply lookup_insert_eq]|].
    intros _ b4 [Hinv4 Hs4]. exists b4. split_and!; [done| |].
    + eapply PInv_ext; [|exact Hinv4]. intros y. rewrite fn_insert_twice, fn_lookup_insert.
      replace (Z.to_nat (t + 1)) with (S (Z.to_nat t)) by lia.
      erewrite take_S_r by done. rewrite put_blocks_snoc, length_take.
      repeat f_equal. lia.
    + destruct Hs3 as (?&?&?), Hs4 as (?&?&?). split_and!; congruence.
  - intros s' (b3 & -> & Hinv3 & Hs3). rewrite take_ge in Hinv3 by lia. fold hdr in Hinv3.
    apply wp_bind, wp_bio.
    eapply wp_mono; [eapply (pwrite_spec _ _ _ _ x); [exact Hinv3|apply lookup_insert_eq]|].
    intros _ b4 (Hinv4 & Hd4 & Hi4 & Hm4). rewrite fn_lookup_insert in *. apply wp_bio.
    eapply wp_mono; [eapply (prelse_spec _ _ _ _ x); [exact Hinv4|apply lookup_insert_eq|right]|].
    { by rewrite Hd4, dread_insert_eq, fn_lookup_insert. }
    intros _ b5 [Hinv5 Hs5]. rewrite delete_insert_id in Hinv5 by done.
    exists b5. split_and!; [done|done|]. eapply effect_same; [|done].
    eapply (effect_write _ _ _ []); [|done..]. eapply effect_same; [|done]. apply effect_refl.
Qed.

(** ** [install_trans] *)
Definition install_writes (s : lst) (v : Z → block) : writes :=
  imap (λ i b, (b, v (l_start s + 1 + Z.of_nat i))) (lblocks s).

Lemma install_writes_fst s v : (install_writes s v).*1 = lblocks s.
Proof.
  unfold install_writes. rewrite fmap_imap.
  apply list_eq. intros i. rewrite list_lookup_imap. by destruct (lblocks s !! i).
Qed.

(** The pins left after the first [t] blocks are installed. *)
Definition unpinned (recovering : bool) (P : gset Z) (bs : list Z) : gset Z :=
  if recovering then P else P ∖ list_to_set bs.

Lemma install_block_spec s b v P rec t blk :
  LWf s → 0 ≤ t < lh_n (l_lh s) → lblocks s !! Z.to_nat t = Some blk →
  PInv b v ∅ P → (∀ x, x ∈ P → ¬ in_log s x) →
  (if (rec : bool) then (size P + 1 < nbuf)%nat else blk ∈ P ∧ (size P < nbuf)%nat) →
  wp (install_block rec t) (λ _ s', ∃ b', s' = set_bc b' s ∧
    PInv b' (<[blk := v (l_start s + t + 1)]> v) ∅ (unpinned rec P [blk]) ∧
    effect b b' [(blk, v (l_start s + t + 1))]) (set_bc b s).
Proof.
  intros Hwf Ht Hblk Hinv HP Hroom.
  destruct (log_entry s t Hwf Ht) as (blk' & Hb1 & Hb2 & _ & Hrng & Hnl & Hx & Hxr & Hxb).
  simplify_eq. unfold install_block. set (x := l_start s + t + 1) in *.
  assert (x ∉ P) as HxP by (intros ?; by eapply HP).
  apply wp_bind, wp_gets. cbn [l_start set_bc]. fold x.
  lread_step Hinv ltac:(done); [right; rewrite map_size_empty; destruct rec; lia|]. intros i b2 [Hinv2 Hs2].
  apply wp_bind. eapply wp_get_block; [done|].
  lread_step Hinv2 ltac:(by rewrite lookup_insert_ne).
  { destruct rec; [right|left; apply Hroom]. rewrite map_size_insert_None, map_size_empty by done. lia. }
  intros j b3 [Hinv3 Hs3].
  assert (<[blk:=j]> (<[x:=i]> ∅ : gmap Z nat) !! x = Some i) as Hxi
    by (by rewrite lookup_insert_ne, lookup_insert_eq).
  apply wp_bind, wp_bio. eapply pdata_spec; [exact Hinv3|exact Hxi|].
  apply wp_bind, wp_bio.
  eapply wp_mono; [eapply (pset_data_spec _ _ _ _ blk); [exact Hinv3|apply lookup_insert_eq]|]. intros _ b4 [Hinv4 Hs4].
  apply wp_bind, wp_bio.
  eapply wp_mono; [eapply (pwrite_spec _ _ _ _ blk); [exact Hinv4|apply lookup_insert_eq]|].
  intros _ b5 (Hinv5 & Hd5 & Hi5 & Hm5). rewrite fn_lookup_insert in *.
  assert (v x = dread (disk b5) x) as Hclean.
  { rewrite Hd5, dread_insert_ne by done. destruct Hs2 as (Hd2 & _), Hs3 as (Hd3 & _), Hs4 as (Hd4 & _).
    rewrite Hd4, Hd3, Hd2. by eapply PInv_clean. }
  apply wp_bind.
  eapply (wp_mono _ (λ _ s', ∃ b', s' = set_bc b' s ∧ same_disk b5 b' ∧
    PInv b' (<[blk := v x]> v) (<[blk := j]> (<[x := i]> ∅)) (unpinned rec P [blk]))).
  { destruct rec; simpl; [apply wp_ret; by exists b5|]. apply wp_bio.
    eapply wp_mono; [eapply (punpin_spec _ _ _ _ blk); [exact Hinv5|apply lookup_insert_eq|apply Hroom]|].
    intros _ b6 [Hinv6 Hs6]. exists b6. split_and!; [done..|].
    by replace ({[blk]} ∪ ∅ : gset Z) with ({[blk]} : gset Z) by set_solver. }
  intros _ s' (b6 & -> & Hs6 & Hinv6). pose proof Hs6 as (Hd6 & _). apply wp_bind, wp_bio.
  eapply wp_mono; [eapply (prelse_spec _ _ _ _ x); [exact Hinv6|exact Hxi|right]|].
  { rewrite fn_lookup_insert_ne by done. congruence. }
  intros _ b7 [Hinv7 Hs7]. pose proof Hs7 as (Hd7 & _).
  rewrite delete_insert_ne, delete_insert_id in Hinv7 by done. apply wp_bio.
  eapply wp_mono; [eapply (prelse_spec _ _ _ _ blk); [exact Hinv7|apply lookup_insert_eq|right]|].
  { by rewrite Hd7, Hd6, Hd5, dread_insert_eq, fn_lookup_insert. }
  intros _ b8 [Hinv8 Hs8]. rewrite delete_insert_id in Hinv8 by done.
  exists b8. split_and!; [done|done|]. do 3 (eapply effect_same; [|done]).
  eapply (effect_write _ _ _ []); [|done..]. do 3 (eapply effect_same; [|done]). apply effect_refl.
Qed.

Lemma unpinned_snoc rec P bs blk :
  unpinned rec (unpinned rec P bs) [blk] = unpinned rec P (bs ++ [blk]).
Proof. destruct rec; simpl; [done|]. rewrite list_to_set_app_L. set_solver. Qed.

Lemma install_trans_spec s b v P rec :
  LWf s → PInv b v ∅ P → (∀ x, x ∈ P → ¬ in_log s x) →
  (if (rec : bool) then (size P + 1 < nbuf)%nat
   else (∀ x, x ∈ lblocks s → x ∈ P) ∧ (size P < nbuf)%nat) →
  wp (install_trans rec) (λ _ s', ∃ b', s' = set_bc b' s ∧
    PInv b' (vapply (install_writes s v) v) ∅ (unpinned rec P (lblocks s)) ∧
    effect b b' (install_writes s v)) (set_bc b s).
Proof.
  intros Hwf Hinv HP Hroom. unfold install_trans, get_n. wp_steps. cbn [l_lh set_bc].
  pose proof (length_lblocks s Hwf) as Hll.
  eapply (wp_for_each (λ t s', ∃ b', s' = set_bc b' s ∧
     PInv b' (vapply (take (Z.to_nat t) (install_writes s v)) v) ∅
       (unpinned rec P (take (Z.to_nat t) (lblocks s))) ∧
     effect b b' (take (Z.to_nat t) (install_writes s v)))).
  - exists b. split_and!; [done| |apply effect_refl].
    destruct rec; simpl; [done|]. by rewrite difference_empty_L.
  - intros t s' Ht (b1 & -> & Hinv1 & Hef).
    destruct (log_entry s t Hwf ltac:(lia)) as (blk & Hblk & _ & Hin & _ & Hnl & Hx & _).
    eapply wp_mono; [eapply (install_block_spec s b1); [done|lia|done|exact Hinv1|..]|].
    + intros x Hx'. apply HP. destruct rec; simpl in Hx'; set_solver.
    + destruct rec; simpl; [done|]. destruct Hroom as [Hlog Hsz]. split.
      * apply elem_of_difference. split; [auto|]. rewrite elem_of_list_to_set.
        intros (k & Hk & Hlt)%elem_of_take.
        pose proof (NoDup_lookup _ _ _ _ (lw_nodup _ Hwf) Hk Hblk). lia.
      * eapply Nat.le_lt_trans; [|exact Hsz]. apply subseteq_size. set_solver.
    + intros _ s' (b2 & -> & Hinv2 & Hef2). exists b2.
      replace (Z.to_nat (t + 1)) with (S (Z.to_nat t)) by lia.
      assert (install_writes s v !! Z.to_nat t = Some (blk, v (l_start s + t + 1))) as Hw.
      { unfold install_writes. rewrite list_lookup_imap, Hblk. simpl. do 3 f_equal. lia. }
      rewrite (take_S_r _ _ _ Hw), (take_S_r _ _ _ Hblk), <-unpinned_snoc, vapply_snoc.
      assert (vapply (take (Z.to_nat t) (install_writes s v)) v (l_start s + t + 1) = v (l_start s + t + 1)) as Hvb.
      { apply vapply_ne. rewrite fmap_take, install_writes_fst. intros (k & Hk & _)%elem_of_take.
        apply list_elem_of_lookup_2, (lw_home _ Hwf) in Hk as [_ ?]. done. }
      rewrite Hvb in *. split_and!; [done|done|]. by eapply effect_trans.
  - intros s' (b1 & -> & Hinv1 & Hef). exists b1.
    assert (length (install_writes s v) = length (lblocks s)) by (apply length_imap).
    rewrite (take_ge (install_writes s v)) in Hinv1, Hef by lia.
    by rewrite (take_ge (lblocks s)) in Hinv1 by lia.
Qed.

(** ** [commit] *)

(** The header with the transaction, and the header without it. *)
Definition commit_head (s : lst) (v : Z → block) : block :=
  encode_head (v (l_start s)) (lh_n (l_lh s)) (lblocks s).
Definition home_writes (s : lst) (v : Z → block) : writes := (λ b, (b, v b)) <$> lblocks s.

(** The disk writes of [commit]: the log, the header (the commit point), the
    home locations, and the empty header. *)
Definition commit_writes (s : lst) (v : Z → block) : writes :=
  log_writes s v ++ [(l_start s, commit_head s v)] ++
  home_writes s v ++ [(l_start s, put32 (commit_head s v) 0 0)].

Lemma log_writes_NoDup s v : NoDup (log_writes s v).*1.
Proof.
  unfold log_writes. rewrite fmap_imap. apply NoDup_alt. intros i j x.
  rewrite !list_lookup_imap. destruct (lblocks s !! i), (lblocks s !! j); simpl; intros; simplify_eq.
  lia.
Qed.

Lemma vapply_log_writes s v i b :
  lblocks s !! i = Some b → vapply (log_writes s v) v (l_start s + 1 + Z.of_nat i) = v b.
Proof.
  intros Hb. apply vapply_in; [apply log_writes_NoDup|].
  eapply list_elem_of_lookup_2. by apply log_writes_lookup.
Qed.

Lemma vapply_log_writes_out s v b :
  LWf s → ¬ in_log s b ∨ b = l_start s → vapply (log_writes s v) v b = v b.
Proof.
  intros Hwf Hb. apply vapply_ne. intros Hin.
  rewrite <-(take_ge (log_writes s v) (length (log_writes s v))) in Hin by done.
  apply log_writes_fst in Hin as [? ?]; [|done]. naive_solver.
Qed.

Lemma install_writes_home s v v1 :
  (∀ i b, lblocks s !! i = Some b → v1 (l_start s + 1 + Z.of_nat i) = v b) →
  install_writes s v1 = home_writes s v.
Proof.
  intros Hv. apply list_eq. intros i. unfold install_writes, home_writes.
  rewrite list_lookup_imap, list_lookup_fmap. destruct (lblocks s !! i) eqn:E; [|done].
  simpl. by rewrite (Hv _ _ E).
Qed.

Lemma LWf_set_n0 s : LWf s → LWf (set_n 0 s).
Proof.
  intros []. split; try done.
  - simpl. lia.
  - intros b. unfold lblocks. simpl. rewrite take_0. set_solver.
  - unfold lblocks. simpl. constructor.
Qed.

Lemma write_head_empty s b v :
  LWf s → lh_n (l_lh s) = 0 → PInv b v ∅ ∅ →
  wp write_head (λ _ s', ∃ b', s' = set_bc b' s ∧
    PInv b' (<[l_start s := put32 (v (l_start s)) 0 0]> v) ∅ ∅ ∧
    effect b b' [(l_start s, put32 (v (l_start s)) 0 0)]) (set_bc b s).
Proof.
  intros Hwf Hn Hinv. assert (size (∅ : gset Z) < nbuf)%nat by (rewrite size_empty; unfold nbuf; clia).
  eapply wp_mono; [by eapply (write_head_spec s b v ∅)|].
  unfold encode_head, lblocks. by rewrite Hn.
Qed.

Lemma commit_spec s b v :
  LWf s → 0 < lh_n (l_lh s) < NBUF → PInv b v ∅ (list_to_set (lblocks s)) →
  wp commit (λ _ s', ∃ b' v', s' = set_bc b' (set_n 0 s) ∧ PInv b' v' ∅ ∅ ∧
    (∀ x, ¬ in_log s x → v' x = v x) ∧ effect b b' (commit_writes s v)) (set_bc b s).
Proof.
  intros Hwf Hn Hinv. pose proof (length_lblocks s Hwf) as Hll.
  assert (∀ x, x ∈ (list_to_set (lblocks s) : gset Z) → ¬ in_log s x) as HP.
  { intros x Hx%elem_of_list_to_set. by apply (lw_home _ Hwf) in Hx as [_ ?]. }
  assert (size (list_to_set (lblocks s) : gset Z) < nbuf)%nat as Hsz.
  { rewrite size_list_to_set by apply Hwf. unfold nbuf. lia. }
  assert (in_log s (l_start s)) as Hst by (destruct Hwf; unfold in_log; lia).
  unfold commit, get_n. apply wp_bind, wp_gets. cbn [l_lh set_bc].
  rewrite (proj2 (Z.ltb_lt 0 _)) by lia. simpl.
  eapply wp_seq; [eapply write_log_spec; try done; set_solver|].
  intros _ s1 (b1 & -> & Hinv1 & Hef1).
  set (v1 := vapply (log_writes s v) v) in *.
  eapply wp_seq; [by eapply (write_head_spec s b1 v1)|].
  intros _ s2 (b2 & -> & Hinv2 & Hef2).
  assert (v1 (l_start s) = v (l_start s)) as Hv1 by (apply vapply_log_writes_out; auto).
  rewrite Hv1 in *. fold (commit_head s v) in *.
  eapply wp_seq; [eapply (install_trans_spec s b2 _ _ false); try done; set_solver|].
  intros _ s3 (b3 & -> & Hinv3 & Hef3).
  erewrite (install_writes_home s v) in Hinv3, Hef3.
  2,3: intros i x Hx; pose proof (lookup_lt_Some _ _ _ Hx); rewrite fn_lookup_insert_ne by lia;
       by apply vapply_log_writes.
  set (v3 := vapply _ _) in Hinv3. apply wp_bind, wp_modify.
  change (set_n 0 (set_bc b3 s)) with (set_bc b3 (set_n 0 s)). simpl in Hinv3.
  replace (list_to_set (lblocks s) ∖ list_to_set (lblocks s) : gset Z) with (∅ : gset Z) in Hinv3 by set_solver.
  eapply wp_mono; [by eapply (write_head_empty (set_n 0 s) b3 v3); [apply LWf_set_n0|..]|].
  intros _ s4 (b4 & -> & Hinv4 & Hef4). simpl in Hinv4, Hef4.
  assert (∀ x, x ∉ lblocks s → v3 x = (<[l_start s := commit_head s v]> v1) x) as Hv3.
  { intros x Hx. unfold v3. rewrite vapply_ne; [done|]. unfold home_writes. by rewrite <-list_fmap_compose, list_fmap_id. }
  assert (v3 (l_start s) = commit_head s v) as Hh.
  { rewrite Hv3, fn_lookup_insert; [done|]. intros Hx. by eapply (lw_home _ Hwf). }
  rewrite Hh in *. eexists b4, _. split_and!; [done|exact Hinv4| |].
  - intros x Hx. assert (x ≠ l_start s) by (by intros ->). rewrite fn_lookup_insert_ne by done.
    destruct (decide (x ∈ lblocks s)) as [Hin|Hin].
    + unfold v3. apply vapply_in; [unfold home_writes; rewrite <-list_fmap_compose, list_fmap_id; apply Hwf|].
      unfold home_writes. by apply (list_elem_of_fmap_2 (λ b, (b, v b))).
    + rewrite Hv3, fn_lookup_insert_ne by done. apply vapply_log_writes_out; auto.
  - unfold commit_writes. rewrite !app_assoc. eapply effect_trans; [|done].
    eapply effect_trans; [|done]. by eapply effect_trans.
Qed.
