(* ===== verification/LogCrash.v ===== *)
(** * Recovery and crash atomicity of the log

    [initlog] and [recover_from_log] of [kernel/log.c] run after a crash, and
    the argument that a transaction is on disk either completely or not at
    all, whenever the machine stopped.

    The disk means more than its home blocks: [ldisk start d] reads the header
    block and takes the blocks it lists from the log area.  Each disk write of
    [commit] other than the header write, and each disk write of recovery,
    leaves [ldisk] alone; the header write switches it to the new contents. *)

From S2P Require Import Prelude Word Param Bio BioSpec Log LogSpec.

(** ** Reading the header block *)
Definition hdr_n (h : block) : Z := s32 (get32 h 0).
Definition hdr_block (h : block) (i : nat) : Z := s32 (get32 h (hb_off (Z.of_nat i))).
Definition hdr_blocks (h : block) : list Z := hdr_block h <$> seq 0 (Z.to_nat (hdr_n h)).

Definition in_area (start size b : Z) : Prop := start ≤ b < start + size.

(** A header that [commit] may have written. *)
Record hdr_ok (start size : Z) (h : block) : Prop := {
  ho_len : length h = Z.to_nat BSIZE;
  ho_n : 0 ≤ hdr_n h < size;
  ho_max : hdr_n h ≤ LOGSIZE;
  ho_home : ∀ b, b ∈ hdr_blocks h → 0 ≤ b < 2 ^ 31 ∧ ¬ in_area start size b;
  ho_nodup : NoDup (hdr_blocks h);
}.

Lemma length_hdr_blocks h : length (hdr_blocks h) = Z.to_nat (hdr_n h).
Proof. unfold hdr_blocks. by rewrite length_fmap, length_seq. Qed.

Lemma hdr_blocks_lookup h i :
  (i < Z.to_nat (hdr_n h))%nat → hdr_blocks h !! i = Some (hdr_block h i).
Proof. intros. unfold hdr_blocks. by rewrite list_lookup_fmap, lookup_seq_lt. Qed.

(** What [write_head] stores is what [read_head] finds. *)
Lemma s32_mod x : 0 ≤ x < 2 ^ 31 → s32 (x mod 256 ^ Z.of_nat 4) = x.
Proof.
  intros. rewrite Z.mod_small by lia. apply swrap_small; lia.
Qed.

Lemma length_put_blocks d i bs :
  (hb_off (i + Z.of_nat (length bs)) ≤ length d)%nat → 0 ≤ i →
  length (put_blocks d i bs) = length d.
Proof.
  revert d i. induction bs as [|b bs IH]; intros d i Hl Hi; [done|]. simpl in *.
  assert (length (put32 d (hb_off i) b) = length d) as E by (apply length_putn; unfold hb_off in *; lia).
  rewrite IH; [done| |lia]. rewrite E. unfold hb_off in *. lia.
Qed.

Lemma get32_put_blocks_low d i bs off :
  (hb_off (i + Z.of_nat (length bs)) ≤ length d)%nat → 0 ≤ i → (off + 4 ≤ hb_off i)%nat →
  get32 (put_blocks d i bs) off = get32 d off.
Proof.
  revert d i. induction bs as [|b bs IH]; intros d i Hl Hi Ho; [done|]. simpl in *.
  assert (hb_off i + 4 ≤ length d)%nat by (unfold hb_off in *; lia).
  assert (length (put32 d (hb_off i) b) = length d) as E by (by apply length_putn).
  rewrite IH; [apply getn_putn_ne; [done|lia]|rewrite E; unfold hb_off in *; lia|lia|].
  unfold hb_off in *. lia.
Qed.

Lemma get32_put_blocks d i bs k b :
  (hb_off (i + Z.of_nat (length bs)) ≤ length d)%nat → 0 ≤ i → bs !! k = Some b → 0 ≤ b < 2 ^ 31 →
  s32 (get32 (put_blocks d i bs) (hb_off (i + Z.of_nat k))) = b.
Proof.
  revert d i k. induction bs as [|b' bs IH]; intros d i k Hl Hi Hk Hb; [done|]. simpl in *.
  assert (hb_off i + 4 ≤ length d)%nat by (unfold hb_off in *; lia).
  assert (length (put32 d (hb_off i) b') = length d) as E by (by apply length_putn).
  destruct k as [|k]; simplify_eq/=.
  - rewrite Z.add_0_r, get32_put_blocks_low, getn_putn_same by (rewrite ?E; unfold hb_off in *; lia).
    by apply s32_mod.
  - replace (i + Z.of_nat (S k)) with (i + 1 + Z.of_nat k) by lia.
    apply IH; [rewrite E; unfold hb_off in *; lia|lia|done|done].
Qed.

Section encode.
Context (d : block) (bs : list Z).
Hypothesis Hd : length d = Z.to_nat BSIZE.
Hypothesis Hbs : (length bs ≤ Z.to_nat LOGSIZE)%nat.
Hypothesis Hrng : ∀ b, b ∈ bs → 0 ≤ b < 2 ^ 31.

Let n := Z.of_nat (length bs).

Lemma encode_room : (hb_off (0 + Z.of_nat (length bs)) ≤ length (put32 d 0 n))%nat.
Proof using Hd Hbs. rewrite length_putn by (rewrite Hd; clia). rewrite Hd. unfold hb_off. clia. Qed.

Lemma length_encode_head : length (encode_head d n bs) = Z.to_nat BSIZE.
Proof using Hd Hbs.
  unfold encode_head. rewrite length_put_blocks by (first [apply encode_room|lia]).
  rewrite length_putn; rewrite Hd; [done|clia].
Qed.

Lemma hdr_n_encode : hdr_n (encode_head d n bs) = n.
Proof using Hd Hbs.
  unfold hdr_n, encode_head. rewrite get32_put_blocks_low by (first [apply encode_room|unfold hb_off; lia]).
  rewrite getn_putn_same by (rewrite Hd; clia). apply s32_mod. unfold n. clia.
Qed.

Lemma hdr_blocks_encode : hdr_blocks (encode_head d n bs) = bs.
Proof using Hd Hbs Hrng.
  assert (Z.to_nat (hdr_n (encode_head d n bs)) = length bs) as Hn by (rewrite hdr_n_encode; unfold n; lia).
  apply list_eq_same_length with (length bs); [done|by rewrite length_hdr_blocks|].
  intros i x y Hi Hx Hy. rewrite hdr_blocks_lookup in Hx by lia. simplify_eq.
  unfold hdr_block, encode_head. rewrite <-(Z.add_0_l (Z.of_nat i)).
  apply get32_put_blocks; [apply encode_room|lia|done|]. apply Hrng. by eapply list_elem_of_lookup_2.
Qed.
End encode.

(** Clearing the count. *)
Lemma hdr_n_clear h : length h = Z.to_nat BSIZE → hdr_n (put32 h 0 0) = 0.
Proof. intros E. unfold hdr_n. rewrite getn_putn_same by (rewrite E; clia). done. Qed.

Lemma hdr_ok_clear start size h :
  length h = Z.to_nat BSIZE → 0 < size → hdr_ok start size (put32 h 0 0).
Proof.
  intros E Hs. pose proof (hdr_n_clear h E) as Hn.
  assert (hdr_blocks (put32 h 0 0) = []) as Hb by (unfold hdr_blocks; by rewrite Hn).
  split; rewrite ?Hn, ?Hb; [|lia|clia|by intros b ?%elem_of_nil|constructor].
  rewrite length_putn; rewrite E; [done|clia].
Qed.

(** ** [read_head] *)

(** The in-memory log before recovery: only the geometry is known. *)
Record LBase (s : lst) : Prop := {
  lb_dev : l_dev s = ROOTDEV;
  lb_len : length (lh_block (l_lh s)) = Z.to_nat LOGSIZE;
  lb_area : 0 ≤ l_start s ∧ 0 < l_size s ∧ l_start s + l_size s < 2 ^ 31;
}.

Lemma fill_step {A} (l old : list A) t x :
  l !! t = Some x → (t < length old)%nat →
  <[t := x]> (take t l ++ drop t old) = take (S t) l ++ drop (S t) old.
Proof.
  intros Hx Ht. pose proof (lookup_lt_Some _ _ _ Hx).
  destruct (lookup_lt_is_Some_2 old t Ht) as [y Hy].
  rewrite (take_S_r _ _ _ Hx), (drop_S _ _ _ Hy), <-app_assoc.
  rewrite insert_app_r_alt by (rewrite length_take; lia).
  by replace (t - length (take t l))%nat with O by (rewrite length_take; lia).
Qed.

(** The in-memory header after [read_head] found [h]. *)
Definition load_head (h : block) (s : lst) : lst :=
  set_lh (Logheader (hdr_n h)
            (hdr_blocks h ++ drop (Z.to_nat (hdr_n h)) (lh_block (l_lh s)))) s.

Lemma read_head_spec s b v :
  LBase s → PInv b v ∅ ∅ → hdr_ok (l_start s) (l_size s) (v (l_start s)) →
  wp read_head (λ _ s', ∃ b', s' = set_bc b' (load_head (v (l_start s)) s) ∧
                              PInv b' v ∅ ∅ ∧ same_disk b b') (set_bc b s).
Proof.
  intros [Hdev Hlen Harea] Hinv [Hhl Hn Hmax _ _]. set (x := l_start s) in *. set (h := v x) in *.
  unfold read_head, get_n. apply wp_bind, wp_gets. cbn [l_start set_bc]. fold x.
  apply wp_bind, wp_lread; [done|lia|].
  eapply wp_mono; [eapply pread_spec; [exact Hinv|done|right]|].
  { rewrite map_size_empty, size_empty. unfold nbuf. clia. }
  intros i b1 [Hinv1 Hs1]. apply wp_bind, wp_bio.
  eapply pdata_spec; [exact Hinv1|apply lookup_insert_eq|]. fold h.
  apply wp_bind, wp_modify, wp_bind, wp_gets. cbn [l_lh lh_n set_bc set_n set_lh]. fold (hdr_n h).
  apply wp_bind.
  apply (wp_for_each (λ t s', s' = set_bc b1 (set_lh (Logheader (hdr_n h)
           (take (Z.to_nat t) (hdr_blocks h) ++ drop (Z.to_nat t) (lh_block (l_lh s)))) s))).
  - done.
  - intros t s' Ht ->. rewrite decide_True by (rewrite Hhl; unfold hb_off; clia).
    unfold put_block. apply wp_bind, wp_gets. cbn [l_lh lh_block set_bc set_lh].
    rewrite decide_True by (rewrite length_app, length_take, length_drop, length_hdr_blocks, Hlen; clia).
    apply wp_modify. cbn [l_lh lh_block lh_n set_bc set_lh].
    replace (Z.to_nat (t + 1)) with (S (Z.to_nat t)) by lia.
    erewrite fill_step; [done| |rewrite Hlen; clia].
    rewrite hdr_blocks_lookup by lia. unfold hdr_block. by rewrite Z2Nat.id by lia.
  - intros s' ->. rewrite Z.add_0_l, Z2Nat.id by lia. apply wp_bio.
    eapply wp_mono; [eapply (prelse_spec _ _ _ _ x); [exact Hinv1|apply lookup_insert_eq|right]|].
    { destruct Hs1 as (-> & _). by eapply PInv_clean. }
    intros _ b2 [Hinv2 Hs2]. rewrite delete_insert_id in Hinv2 by done. exists b2. split_and!; [|done|].
    + unfold load_head. by rewrite take_ge by (rewrite length_hdr_blocks; lia).
    + destruct Hs1 as (?&?&?), Hs2 as (?&?&?). split_and!; congruence.
Qed.

Lemma lblocks_load_head h s : lblocks (load_head h s) = hdr_blocks h.
Proof.
  unfold lblocks. simpl. rewrite take_app_le by (rewrite length_hdr_blocks; lia).
  by rewrite take_ge by (rewrite length_hdr_blocks; lia).
Qed.

Lemma LWf_load_head s h :
  LBase s → hdr_ok (l_start s) (l_size s) h → LWf (load_head h s).
Proof.
  intros [? Hlen ?] [_ Hn Hmax Hhome Hnd]. split; rewrite ?lblocks_load_head; simpl; try done; [|lia].
  rewrite length_app, length_drop, length_hdr_blocks. lia.
Qed.

(** ** Recovery *)

(** The logical contents of the disk. *)
Definition ldisk (start : Z) (d : Z → block) (b : Z) : block :=
  match list_find (b =.) (hdr_blocks (d start)) with
  | Some (i, _) => d (start + 1 + Z.of_nat i)
  | None => d b
  end.

(** The writes of a recovery. *)
Definition replay_writes (start : Z) (d : Z → block) : writes :=
  imap (λ i b, (b, d (start + 1 + Z.of_nat i))) (hdr_blocks (d start)).
Definition recover_writes (start : Z) (d : Z → block) : writes :=
  replay_writes start d ++ [(start, put32 (d start) 0 0)].

Lemma replay_writes_fst start d : (replay_writes start d).*1 = hdr_blocks (d start).
Proof.
  unfold replay_writes. rewrite fmap_imap.
  apply list_eq. intros i. rewrite list_lookup_imap. by destruct (hdr_blocks (d start) !! i).
Qed.

Lemma ldisk_in start d i b :
  NoDup (hdr_blocks (d start)) → hdr_blocks (d start) !! i = Some b →
  ldisk start d b = d (start + 1 + Z.of_nat i).
Proof.
  intros Hnd Hi. unfold ldisk. destruct (list_find _ _) as [[j y]|] eqn:E.
  - apply list_find_Some in E as (Hj & <- & _). by rewrite (NoDup_lookup _ _ _ _ Hnd Hi Hj).
  - apply list_find_None in E. rewrite Forall_lookup in E. by destruct (E _ _ Hi).
Qed.

Lemma ldisk_out start d b : b ∉ hdr_blocks (d start) → ldisk start d b = d b.
Proof.
  intros Hb. unfold ldisk. destruct (list_find _ _) as [[j y]|] eqn:E; [|done].
  apply list_find_Some in E as (Hj & <- & _). by apply list_elem_of_lookup_2 in Hj.
Qed.

Lemma vapply_replay start d b :
  NoDup (hdr_blocks (d start)) → vapply (replay_writes start d) d b = ldisk start d b.
Proof.
  intros Hnd. destruct (decide (b ∈ hdr_blocks (d start))) as [Hin|Hin].
  - pose proof Hin as [i Hi]%list_elem_of_lookup. erewrite ldisk_in by done.
    apply vapply_in; [by rewrite replay_writes_fst|].
    eapply (list_elem_of_lookup_2 _ i). unfold replay_writes. by rewrite list_lookup_imap, Hi.
  - rewrite ldisk_out by done. apply vapply_ne. by rewrite replay_writes_fst.
Qed.

Lemma recover_spec s b v :
  LBase s → PInv b v ∅ ∅ → hdr_ok (l_start s) (l_size s) (v (l_start s)) →
  wp recover_from_log (λ _ s', ∃ b' v', s' = set_bc b' (set_n 0 (load_head (v (l_start s)) s)) ∧
    PInv b' v' ∅ ∅ ∧ LWf (set_n 0 (load_head (v (l_start s)) s)) ∧
    effect b b' (recover_writes (l_start s) v)) (set_bc b s).
Proof.
  intros Hbase Hinv Hok. set (h := v (l_start s)) in *.
  pose proof (LWf_load_head s h Hbase Hok) as Hwf. pose proof (LWf_set_n0 _ Hwf) as Hwf0.
  unfold recover_from_log. eapply wp_seq; [by apply read_head_spec|].
  intros _ s1 (b1 & -> & Hinv1 & Hs1). fold h.
  eapply wp_seq; [eapply (install_trans_spec (load_head h s) b1 v ∅ true); [done..|]|].
  { rewrite size_empty. unfold nbuf. clia. }
  intros _ s2 (b2 & -> & Hinv2 & Hef2). apply wp_bind, wp_modify.
  assert (install_writes (load_head h s) v = replay_writes (l_start s) v) as Hw
    by (unfold install_writes; by rewrite lblocks_load_head).
  rewrite Hw in *. simpl in Hinv2.
  assert (vapply (replay_writes (l_start s) v) v (l_start s) = h) as Hh.
  { rewrite vapply_replay by apply Hok. apply ldisk_out. intros Hx.
    apply (ho_home _ _ _ Hok) in Hx as [_ []]. destruct Hok. unfold in_area. lia. }
  eapply wp_mono; [by eapply (write_head_empty (set_n 0 (load_head h s)) b2)|].
  intros _ s3 (b3 & -> & Hinv3 & Hef3). simpl in Hinv3, Hef3. rewrite Hh in *.
  eexists b3, _. split_and!; [done|exact Hinv3|done|].
  eapply effect_trans; [|exact Hef3]. destruct Hs1 as (Hd & Hi & Hm), Hef2 as [Hd2 Hi2 Hm2].
  split; congruence.
Qed.

(** ** Crash points of a recovery *)

(** [d'] is a disk that a crash may leave, and it still means [w] outside of
    the log area. *)
Record means (start size : Z) (d w : Z → block) : Prop := {
  mn_ok : hdr_ok start size (d start);
  mn_eq : ∀ x, ¬ in_area start size x → ldisk start d x = w x;
}.

Lemma in_area_log start size h i :
  hdr_ok start size h → (i < Z.to_nat (hdr_n h))%nat → in_area start size (start + 1 + Z.of_nat i).
Proof. intros [] ?. unfold in_area. lia. Qed.

Lemma in_area_start start size h : hdr_ok start size h → in_area start size start.
Proof. intros []. unfold in_area. lia. Qed.

(** Writes to blocks the header lists change nothing. *)
Lemma means_home_writes start size d w ws :
  means start size d w → (∀ b, b ∈ ws.*1 → b ∈ hdr_blocks (d start)) →
  means start size (vapply ws d) w.
Proof.
  intros [Hok Heq] Hws.
  assert (∀ x, in_area start size x → vapply ws d x = d x) as Harea.
  { intros x Hx. apply vapply_ne. intros Hin%Hws. by apply (ho_home _ _ _ Hok) in Hin as [_ ?]. }
  assert (vapply ws d start = d start) as Hs by (by eapply Harea, in_area_start).
  split; [by rewrite Hs|]. intros x Hx. rewrite <-Heq by done.
  destruct (decide (x ∈ hdr_blocks (d start))) as [[i Hi]%list_elem_of_lookup|Hni].
  - rewrite !(ldisk_in _ _ i) by (rewrite ?Hs; first [done|apply Hok]).
    apply Harea. eapply in_area_log; [done|]. rewrite <-length_hdr_blocks. by eapply lookup_lt_Some.
  - rewrite !ldisk_out by (by rewrite ?Hs). apply vapply_ne. eauto.
Qed.

(** A disk with an empty header means its home blocks. *)
Lemma means_empty start size d :
  hdr_ok start size (d start) → hdr_n (d start) = 0 → means start size d d.
Proof.
  intros Hok Hn. split; [done|]. intros x _. apply ldisk_out. unfold hdr_blocks. rewrite Hn. set_solver.
Qed.

Lemma means_recover_prefix start size d w k :
  means start size d w → means start size (vapply (take k (recover_writes start d)) d) w.
Proof.
  intros Hm. pose proof Hm as [Hok Heq]. unfold recover_writes. rewrite take_app.
  destruct (decide (k ≤ length (replay_writes start d))%nat) as [Hk|Hk].
  - rewrite (proj2 (Nat.sub_0_le _ _) Hk), take_0, app_nil_r. apply means_home_writes; [done|].
    intros b. rewrite fmap_take, replay_writes_fst. intros (i & Hi & _)%elem_of_take.
    by eapply list_elem_of_lookup_2.
  - rewrite !take_ge by (simpl; lia). rewrite vapply_snoc. simpl.
    pose proof (ho_len _ _ _ Hok) as Hlen. pose proof (in_area_start _ _ _ Hok) as Hst.
    split; rewrite ?fn_lookup_insert; [apply hdr_ok_clear; [done|destruct Hok; lia]|].
    intros x Hx. rewrite ldisk_out.
    + rewrite fn_lookup_insert_ne by (by intros ->). rewrite vapply_replay by apply Hok. by apply Heq.
    + rewrite fn_lookup_insert. unfold hdr_blocks. rewrite hdr_n_clear by done. set_solver.
Qed.

(** A completed recovery leaves the contents in the home blocks. *)
Lemma recover_home start size d w x :
  means start size d w → ¬ in_area start size x →
  vapply (recover_writes start d) d x = w x ∧
  hdr_n (vapply (recover_writes start d) d start) = 0.
Proof.
  intros [Hok Heq] Hx. pose proof (in_area_start _ _ _ Hok) as Hst. unfold recover_writes.
  rewrite vapply_snoc. simpl. rewrite fn_lookup_insert, fn_lookup_insert_ne by (by intros ->).
  rewrite vapply_replay by apply Hok. split; [by apply Heq|]. apply hdr_n_clear. by apply Hok.
Qed.

(** ** Crash points of a commit *)
Lemma start_home s : LWf s → l_start s ∉ lblocks s.
Proof. intros Hwf Hin. apply (lw_home _ Hwf) in Hin as [_ []]. destruct Hwf. unfold in_log. lia. Qed.

Section commit.
Context (s : lst) (v d : Z → block).
Hypothesis Hwf : LWf s.
Hypothesis Hhdr : length (d (l_start s)) = Z.to_nat BSIZE.
Hypothesis Hempty : hdr_n (d (l_start s)) = 0.
Hypothesis Hclean : ∀ x, x ∉ lblocks s → v x = d x.

Let committed := <[l_start s := commit_head s v]> (vapply (log_writes s v) d).

Lemma commit_head_facts :
  length (commit_head s v) = Z.to_nat BSIZE ∧ hdr_n (commit_head s v) = lh_n (l_lh s) ∧
  hdr_blocks (commit_head s v) = lblocks s.
Proof using Hwf Hhdr Hclean.
  pose proof (length_lblocks s Hwf) as Hll. unfold commit_head.
  rewrite Hclean by (by apply start_home).
  replace (lh_n (l_lh s)) with (Z.of_nat (length (lblocks s))) by (destruct Hwf; lia).
  assert (length (lblocks s) ≤ Z.to_nat LOGSIZE)%nat by (destruct Hwf; lia).
  split_and!; [by apply length_encode_head|by apply hdr_n_encode|].
  apply hdr_blocks_encode; [done..|]. intros b Hb. by apply (lw_home _ Hwf).
Qed.

Lemma committed_start : committed (l_start s) = commit_head s v.
Proof using Type. apply fn_lookup_insert. Qed.

(** Right after the header write the disk means the new contents. *)
Lemma means_committed : means (l_start s) (l_size s) committed v.
Proof using Hwf Hhdr Hclean.
  destruct commit_head_facts as (Hl & Hn & Hb). split.
  - rewrite committed_start. split; rewrite ?Hn, ?Hb; try apply Hwf. done.
  - intros x Hx. destruct (decide (x ∈ lblocks s)) as [[i Hi]%list_elem_of_lookup|Hni].
    + rewrite (ldisk_in _ _ i) by (rewrite ?committed_start, Hb; first [apply Hwf|done]).
      unfold committed. rewrite fn_lookup_insert_ne by lia.
      apply vapply_in; [apply log_writes_NoDup|]. eapply list_elem_of_lookup_2.
      by apply log_writes_lookup.
    + rewrite ldisk_out by (by rewrite committed_start, Hb). unfold committed.
      rewrite fn_lookup_insert_ne by (intros E; apply Hx; destruct Hwf; unfold in_area; lia).
      rewrite Hclean by done. apply vapply_ne. intros Hin.
      rewrite <-(take_ge (log_writes s v) (length (log_writes s v))) in Hin by done.
      by apply log_writes_fst in Hin as [? ?].
Qed.

Lemma commit_writes_split :
  commit_writes s v =
  log_writes s v ++ (l_start s, commit_head s v) :: recover_writes (l_start s) committed.
Proof using Hwf Hhdr Hclean.
  unfold commit_writes, recover_writes. simpl. do 3 f_equal; [|by rewrite committed_start].
  destruct commit_head_facts as (_ & _ & Hb). unfold replay_writes, home_writes.
  rewrite committed_start, Hb. apply list_eq. intros i. rewrite list_lookup_imap, list_lookup_fmap.
  destruct (lblocks s !! i) as [b|] eqn:Hi; [|done]. simpl. do 2 f_equal.
  unfold committed. rewrite fn_lookup_insert_ne by lia. symmetry.
  apply vapply_in; [apply log_writes_NoDup|]. eapply list_elem_of_lookup_2. by apply log_writes_lookup.
Qed.

(** Writes into the log area leave the old contents. *)
Lemma means_log_prefix k :
  means (l_start s) (l_size s) (vapply (take k (log_writes s v)) d) d.
Proof using Hwf Hhdr Hempty Hclean.
  assert (∀ x, ¬ in_log s x ∨ x = l_start s → vapply (take k (log_writes s v)) d x = d x) as Hout.
  { intros x Hx. apply vapply_ne. intros Hin%log_writes_fst; [|done]. naive_solver. }
  assert (hdr_blocks (d (l_start s)) = []) as Hb by (unfold hdr_blocks; by rewrite Hempty).
  split.
  - rewrite Hout by auto. split; rewrite ?Hempty, ?Hb; try done; [destruct Hwf; lia|by intros b ?%elem_of_nil|constructor].
  - intros x Hx. rewrite ldisk_out; [apply Hout; by left|]. rewrite Hout by auto. rewrite Hb. set_solver.
Qed.

(** Every prefix of the writes of [commit] means the old or the new
    contents: the old ones up to the header write, the new ones from it on. *)
Lemma means_commit_prefix k :
  means (l_start s) (l_size s) (vapply (take k (commit_writes s v)) d)
    (if decide (k ≤ length (lblocks s))%nat then d else v).
Proof using Hwf Hhdr Hempty Hclean.
  assert (length (log_writes s v) = length (lblocks s)) as Hl by apply length_imap.
  rewrite commit_writes_split, take_app, Hl. case_decide as Hk.
  - rewrite (proj2 (Nat.sub_0_le _ _) Hk), take_0, app_nil_r. apply means_log_prefix.
  - rewrite take_ge by lia. destruct (k - length (lblocks s))%nat as [|j] eqn:Ej; [lia|]. simpl.
    rewrite cons_middle, app_assoc, vapply_app, vapply_snoc. simpl. fold committed.
    apply means_recover_prefix, means_committed.
Qed.
End commit.
