(* ===== verification/LogTx.v ===== *)
(** * Transactions: [begin_op], [log_write], [end_op] and crashes

    The log seen from the file system.  [LInv s v H] is its state between
    calls: [v] is the contents of every block as the running system sees it,
    [H] the buffers held.  The last section states crash refinement: the
    interleaved operations of several processes, stopped at any disk write and
    recovered any number of times, leave the contents of the last commit. *)

From S2P Require Import Prelude Word Param Bio BioSpec Log LogSpec LogCrash.

(** ** [log_write] *)
Lemma log_find_spec s b blk :
  LWf s → 0 ≤ blk < 2 ^ 31 →
  wp (log_find blk) (λ i s', s' = set_bc b s ∧ 0 ≤ i ≤ lh_n (l_lh s) ∧
    (i = lh_n (l_lh s) ∧ blk ∉ lblocks s ∨
     lblocks s !! Z.to_nat i = Some blk ∧ i < lh_n (l_lh s))) (set_bc b s).
Proof.
  intros Hwf Hblk. unfold log_find, get_n. apply wp_bind, wp_gets. cbn [l_lh set_bc]. apply wp_bind.
  apply (wp_for_loop (λ t s', s' = set_bc b s ∧ blk ∉ take (Z.to_nat t) (lblocks s))).
  - split; [done|]. by intros ?%elem_of_nil.
  - intros t s' Ht [-> Hnot].
    destruct (log_entry s t Hwf ltac:(lia)) as (x & Hx & Hx' & _ & Hrng & _).
    apply wp_bind. eapply wp_get_block; [done|]. apply wp_ret.
    unfold u32. rewrite wrap_small by lia. destruct (Z.eqb_spec x blk) as [->|Hne].
    + apply wp_ret. simpl. split_and!; first [done|lia|right; split; [done|lia]].
    + split; [done|]. replace (Z.to_nat (t + 1)) with (S (Z.to_nat t)) by lia.
      erewrite take_S_r by done. rewrite elem_of_app, list_elem_of_singleton. naive_solver.
  - intros s' [-> Hnot]. apply wp_ret. simpl. destruct Hwf. split_and!; [done|lia|lia|left].
    split; [done|]. rewrite take_ge in Hnot; [done|].
    unfold lblocks. rewrite length_take. lia.
Qed.

(** The logged blocks after a [log_write] of [blk]: a block that is already
    in the transaction is absorbed. *)
Definition absorb (blk : Z) (bs : list Z) : list Z :=
  if decide (blk ∈ bs) then bs else bs ++ [blk].

Lemma put_block_spec s b i x :
  LWf s → 0 ≤ i < LOGSIZE →
  wp (put_block i x) (λ _ s', s' = set_bc b (set_lh (Logheader (lh_n (l_lh s))
        (<[Z.to_nat i := x]> (lh_block (l_lh s)))) s)) (set_bc b s).
Proof.
  intros Hwf Hi. unfold put_block. apply wp_bind, wp_gets. cbn [l_lh set_bc].
  rewrite decide_True by (rewrite (lw_len _ Hwf); lia). by apply wp_modify.
Qed.

Lemma log_write_spec s b v H blk i :
  LWf s → PInv b v H (list_to_set (lblocks s)) → H !! blk = Some i →
  0 ≤ blk < 2 ^ 31 → ¬ in_log s blk → 1 ≤ l_outstanding s →
  lh_n (l_lh s) < LOGSIZE → lh_n (l_lh s) < l_size s - 1 →
  wp (log_write i) (λ _ s', ∃ b' h, s' = set_bc b' (set_lh h s) ∧ LWf (set_lh h s) ∧
    lblocks (set_lh h s) = absorb blk (lblocks s) ∧ same_disk b b' ∧
    PInv b' v H (list_to_set (lblocks (set_lh h s)))) (set_bc b s).
Proof.
  intros Hwf Hinv Hi Hrng Hout Hop Hn1 Hn2. unfold log_write, get_n.
  apply wp_bind, wp_gets, wp_bind, wp_gets. cbn [l_lh l_size set_bc].
  apply wp_bind, wp_panic_if; [apply orb_false_iff; split; apply Z.leb_gt; lia|].
  apply wp_bind, wp_gets, wp_bind, wp_panic_if; [apply Z.ltb_ge; simpl; lia|].
  apply wp_bind, wp_bio. eapply pblockno_spec; [done..|].
  eapply wp_seq; [by apply log_find_spec|]. intros k s1 (-> & Hk & Hcase).
  eapply wp_seq; [apply put_block_spec; [done|lia]|]. intros _ s2 ->.
  apply wp_bind, wp_gets. cbn [l_lh lh_n set_bc set_lh].
  unfold s32. rewrite swrap_small by lia. unfold absorb.
  destruct Hcase as [[-> Hnin]|[Hin Hlt]].
  - rewrite Z.eqb_refl. simpl. apply wp_bind, wp_bio.
    eapply wp_mono; [eapply ppin_spec; [done|done|by rewrite elem_of_list_to_set]|].
    intros _ b' [Hinv' Hs']. apply wp_modify. rewrite decide_False by done.
    set (n := lh_n (l_lh s)) in *. set (h := Logheader (n + 1) (<[Z.to_nat n := blk]> (lh_block (l_lh s)))).
    assert (lblocks (set_lh h s) = lblocks s ++ [blk]) as Hlb.
    { unfold lblocks. simpl. fold n. replace (Z.to_nat (n + 1)) with (S (Z.to_nat n)) by lia.
      erewrite take_S_r by (apply list_lookup_insert_eq; rewrite (lw_len _ Hwf); lia).
      by rewrite take_insert_ge by lia. }
    exists b', h. rewrite Hlb. split_and!; [done| |done|done|].
    + destruct Hwf as [? Hlen ? ? ? Hhome Hnd]. split; rewrite ?Hlb; simpl; try done; try lia.
      * by rewrite length_insert.
      * intros x [Hx|Hx]%elem_of_app; [by apply Hhome|apply list_elem_of_singleton in Hx as ->; done].
      * apply NoDup_app. split_and!; [done| |apply NoDup_singleton].
        intros x Hx Hx2. apply list_elem_of_singleton in Hx2 as ->. done.
    + rewrite list_to_set_app_L. simpl.
      replace (list_to_set (lblocks s) ∪ ({[blk]} ∪ ∅) : gset Z)
        with ({[blk]} ∪ list_to_set (lblocks s) : gset Z) by set_solver. done.
  - rewrite (proj2 (Z.eqb_neq k _)) by lia. simpl. apply wp_ret.
    rewrite decide_True by (by eapply list_elem_of_lookup_2).
    rewrite list_insert_id by (by apply lblocks_lookup). exists b, (l_lh s).
    destruct s as [sb ss sz so sc sd [hn hb]]. done.
Qed.

(** ** The state between calls *)
Record LInv (s : lst) (v : Z → block) (H : gmap Z nat) : Prop := {
  li_wf : LWf s;
  li_cache : PInv (bc s) v H (list_to_set (lblocks s));
  li_len : ∀ x, ¬ in_log s x → length (v x) = Z.to_nat BSIZE;
  li_dlen : length (dread (disk (bc s)) (l_start s)) = Z.to_nat BSIZE;
  li_empty : hdr_n (dread (disk (bc s)) (l_start s)) = 0;
  li_held : ∀ x i, H !! x = Some i → ¬ in_log s x;
  li_count : lh_n (l_lh s) < NBUF;
}.

(** The geometry of the log, fixed after [initlog]. *)
Definition same_geometry (s s' : lst) : Prop :=
  l_start s' = l_start s ∧ l_size s' = l_size s ∧ l_dev s' = l_dev s.

(** The counters of running operations play no role in the invariants. *)
Lemma LWf_ext s s' : same_geometry s s' → l_lh s' = l_lh s → LWf s → LWf s'.
Proof.
  destruct s, s'. intros (? & ? & ?) ? []. simpl in *. subst. by split.
Qed.

Lemma LInv_ext s s' v H :
  same_geometry s s' → l_lh s' = l_lh s → bc s' = bc s → LInv s v H → LInv s' v H.
Proof.
  intros Hg Hh Hb [Hwf HP Hl Hd Hn Hx Hc]. pose proof (LWf_ext _ _ Hg Hh Hwf).
  destruct s, s', Hg as (? & ? & ?). simpl in *. subst. by split.
Qed.

(** Blocks that are not part of the transaction are on disk. *)
Lemma LInv_clean s v x :
  LInv s v ∅ → x ∉ lblocks s → v x = dread (disk (bc s)) x.
Proof.
  intros Hinv Hx. eapply PInv_clean; [apply Hinv|done|]. by rewrite elem_of_list_to_set.
Qed.

(** Replacing the cache by one with the same disk. *)
Lemma LInv_cache s v H b' v' H' :
  LInv s v H → PInv b' v' H' (list_to_set (lblocks s)) →
  disk b' = disk (bc s) → (∀ x, ¬ in_log s x → length (v' x) = Z.to_nat BSIZE) →
  (∀ x i, H' !! x = Some i → ¬ in_log s x) → LInv (set_bc b' s) v' H'.
Proof.
  intros [Hwf ??????] HP Hd Hl Hh. split; simpl; rewrite ?Hd; try done. by eapply LWf_ext, Hwf.
Qed.

(** ** [begin_op] *)
Definition op_fits (s : lst) : bool :=
  negb (l_committing s) && (lh_n (l_lh s) + (l_outstanding s + 1) * MAXOPBLOCKS <=? LOGSIZE).

Lemma begin_op_run s :
  begin_op s = if op_fits s then Ok (tt, set_outstanding (l_outstanding s + 1) s) else Sleep "log".
Proof.
  unfold begin_op, op_fits, get_n, mbind, K_bind, gets. simpl.
  destruct (l_committing s); [done|]. simpl. rewrite Z.ltb_antisym. by destruct (_ <=? _).
Qed.

(** ** [end_op] *)
Definition end_writes (s : lst) (v : Z → block) : writes :=
  if decide (l_outstanding s = 1 ∧ 0 < lh_n (l_lh s)) then commit_writes s v else [].

Lemma set_bc_id s : set_bc (bc s) s = s.
Proof. by destruct s. Qed.

Lemma wp_at {A} (m : K lst A) Q s : wp m Q (set_bc (bc s) s) → wp m Q s.
Proof. by rewrite set_bc_id. Qed.

(** After [commit] the home blocks hold the contents and the header is empty. *)
Lemma commit_disk s v x :
  LInv s v ∅ → ¬ in_log s x →
  dread (apply_writes (commit_writes s v) (disk (bc s))) x = v x ∧
  hdr_n (dread (apply_writes (commit_writes s v) (disk (bc s))) (l_start s)) = 0 ∧
  length (dread (apply_writes (commit_writes s v) (disk (bc s))) (l_start s)) = Z.to_nat BSIZE.
Proof.
  intros Hinv Hx. pose proof (li_wf _ _ _ Hinv) as Hwf.
  assert (∀ x, x ∉ lblocks s → v x = dread (disk (bc s)) x) as Hclean by (intros; by apply LInv_clean).
  rewrite !dread_apply_writes, (commit_writes_split s v (dread (disk (bc s)))) by (done || apply Hinv).
  set (d1 := <[l_start s := _]> _). rewrite cons_middle, app_assoc, vapply_app, vapply_snoc. simpl. fold d1.
  assert (means (l_start s) (l_size s) d1 v) as Hm by (apply means_committed; (done || apply Hinv)).
  destruct (recover_home _ _ _ _ x Hm Hx). split_and!; [done|done|].
  pose proof (means_recover_prefix _ _ _ _ (length (recover_writes (l_start s) d1)) Hm) as [Hok _].
  rewrite take_ge in Hok by done. apply Hok.
Qed.

Lemma LInv_committed s v b' v' :
  LInv s v ∅ → PInv b' v' ∅ ∅ → (∀ x, ¬ in_log s x → v' x = v x) →
  disk b' = apply_writes (commit_writes s v) (disk (bc s)) →
  LInv (set_bc b' (set_n 0 s)) v' ∅.
Proof.
  intros Hinv Hp Hv Hd. pose proof (li_wf _ _ _ Hinv) as Hwf.
  destruct (commit_disk s v (-1) Hinv) as (_ & Hn & Hl); [destruct Hwf; unfold in_log; lia|].
  split; simpl; rewrite ?Hd; try done.
  - by eapply LWf_ext, LWf_set_n0, Hwf.
  - intros x Hx. rewrite Hv by done. by apply Hinv.
Qed.

(** The state after the last operation of a group has ended. *)
Lemma end_op_spec s v :
  LInv s v ∅ → l_committing s = false → 1 ≤ l_outstanding s →
  wp end_op (λ _ s', ∃ v', LInv s' v' ∅ ∧ (∀ x, ¬ in_log s x → v' x = v x) ∧
    same_geometry s s' ∧ l_committing s' = false ∧ l_outstanding s' = l_outstanding s - 1 ∧
    lblocks s' = (if decide (l_outstanding s = 1) then [] else lblocks s) ∧
    effect (bc s) (bc s') (end_writes s v)) s.
Proof.
  intros Hinv Hc Hout. unfold end_op. pose proof (li_wf _ _ _ Hinv) as Hwf.
  apply wp_bind, wp_gets, wp_bind, wp_modify, wp_bind, wp_gets, wp_bind, wp_panic_if; [done|].
  apply wp_bind, wp_gets. simpl. unfold end_writes. destruct (Z.eqb_spec (l_outstanding s - 1) 0) as [E|E].
  - rewrite (decide_True (P := l_outstanding s = 1)) by lia.
    set (s1 := set_committing true (set_outstanding (l_outstanding s - 1) s)).
    assert (LWf s1) as Hwf1 by (by eapply LWf_ext, Hwf). apply wp_bind, wp_modify. fold s1.
    destruct (decide (0 < lh_n (l_lh s))) as [Hn|Hn].
    + rewrite decide_True by lia. change s1 with (set_bc (bc s) s1).
      eapply wp_seq; [eapply (commit_spec s1 (bc s) v); [done| |apply Hinv]|].
      { split; [done|apply Hinv]. }
      intros _ s2 (b' & v' & -> & Hp & Hv & Hef). apply wp_modify. exists v'.
      change (commit_writes s1 v) with (commit_writes s v) in Hef.
      pose proof (LInv_committed s v b' v' Hinv Hp Hv (ef_disk _ _ _ Hef)) as Hinv'.
      split_and!; try done. by eapply LInv_ext, Hinv'.
    + rewrite decide_False by lia. unfold commit, get_n. apply wp_bind, wp_bind, wp_gets. simpl.
      rewrite (proj2 (Z.ltb_ge _ _)) by lia. apply wp_ret, wp_modify. exists v.
      split_and!; try done; [by eapply LInv_ext, Hinv| |apply effect_refl].
      unfold lblocks. simpl. by rewrite (Z2Nat.nonpos (lh_n _)) by lia.
  - rewrite !decide_False by lia. apply wp_ret. exists v.
    split_and!; try done; [by eapply LInv_ext, Hinv|apply effect_refl].
Qed.

(** ** The client's pattern: read a block, change it, log it, release it *)
Definition log_update (blk : Z) (d : block) : K lst unit :=
  i ← lread blk;
  bio (bset_data i d);;
  log_write i;;
  bio (brelse i).

Lemma log_update_spec s v blk d :
  LInv s v ∅ → 0 ≤ blk < 2 ^ 31 → ¬ in_log s blk → length d = Z.to_nat BSIZE →
  1 ≤ l_outstanding s → lh_n (l_lh s) < l_size s - 1 → lh_n (l_lh s) < NBUF - 1 →
  wp (log_update blk d) (λ _ s', LInv s' (<[blk := d]> v) ∅ ∧ same_geometry s s' ∧
    l_committing s' = l_committing s ∧ l_outstanding s' = l_outstanding s ∧
    lblocks s' = absorb blk (lblocks s) ∧ lh_n (l_lh s') ≤ lh_n (l_lh s) + 1 ∧
    same_disk (bc s) (bc s')) s.
Proof.
  intros Hinv Hrng Hout Hd Hop Hn1 Hn2. pose proof (li_wf _ _ _ Hinv) as Hwf.
  pose proof (length_lblocks s Hwf) as Hll. unfold log_update. apply wp_at.
  apply wp_bind, wp_lread; [by apply lw_dev|done|].
  eapply wp_mono; [eapply pread_spec; [apply Hinv|done|right]|].
  { rewrite size_list_to_set by apply Hwf. rewrite map_size_empty. pose proof (lw_n _ Hwf). unfold nbuf. lia. }
  intros i b1 [Hinv1 Hs1]. apply wp_bind, wp_bio.
  eapply wp_mono; [eapply (pset_data_spec _ _ _ _ blk); [exact Hinv1|apply lookup_insert_eq]|].
  intros _ b2 [Hinv2 Hs2].
  eapply wp_seq; [eapply (log_write_spec s b2); try done; [apply lookup_insert_eq|clia]|].
  intros _ s3 (b3 & h & -> & Hwf3 & Hlb & Hs3 & Hinv3). apply wp_bio.
  assert (blk ∈ lblocks (set_lh h s)) as Hin by (rewrite Hlb; unfold absorb; case_decide; set_solver).
  eapply wp_mono; [eapply (prelse_spec _ _ _ _ blk); [exact Hinv3|apply lookup_insert_eq|left]|].
  { by apply elem_of_list_to_set. }
  intros _ b4 [Hinv4 Hs4]. rewrite delete_insert_id in Hinv4 by done.
  assert (same_disk (bc s) b4) as Hsd.
  { destruct Hs1 as (?&?&?), Hs2 as (?&?&?), Hs3 as (?&?&?), Hs4 as (?&?&?). split_and!; congruence. }
  assert (lh_n h ≤ lh_n (l_lh s) + 1) as Hnh.
  { pose proof (length_lblocks _ Hwf3) as Hl3. rewrite Hlb in Hl3. unfold absorb in Hl3. simpl in Hl3.
    pose proof (lw_n _ Hwf). case_decide; rewrite ?length_app in Hl3; simpl in Hl3; lia. }
  split_and!; try done. destruct Hsd as (Hdd & _). split; simpl; rewrite ?Hdd; try apply Hinv; try done.
  - by eapply LWf_ext, Hwf3.
  - intros x Hx. destruct (decide (x = blk)) as [->|Hne]; [by rewrite fn_lookup_insert|].
    rewrite fn_lookup_insert_ne by done. by apply Hinv.
  - lia.
Qed.

(** ** Booting *)

(** Static storage before [binit], and the machine after it. *)
Definition static (z : block) (d : gmap Z block) (pid : Z) : bst :=
  Bst (replicate (S nbuf) (Buf false false 0 0 (Sleeplock false 0) 0 0 0 z)) d [] pid.

#[global] Arguments static : simpl never.
#[global] Arguments zero_block : simpl never.

Lemma binit_run z d pid :
  ∃ bs, binit (static z d pid) = Ok (tt, Bst bs d [] pid) ∧ length bs = S nbuf ∧
    dll bs (reverse (seq 0 nbuf)) ∧
    Forall (λ b, b_valid b = false ∧ b_dev b = 0 ∧ b_refcnt b = 0 ∧ b_lock b = initsleeplock) bs.
Proof.
  eexists. split; [vm_compute; reflexivity|]. split_and!; [done| |repeat constructor].
  split_and!.
  - apply (bool_decide_eq_true_1 (NoDup _)). vm_compute. done.
  - intros i. rewrite elem_of_reverse, elem_of_seq. lia.
  - vm_compute. by repeat split.
Qed.

Lemma binit_inv z d pid :
  wp binit (λ _ s, PInv s (dread d) ∅ ∅ ∧ disk s = d ∧ io s = [] ∧ me s = pid) (static z d pid).
Proof.
  destruct (binit_run z d pid) as (bs & Hrun & Hlen & Hdll & Hall). unfold wp. rewrite Hrun. clear Hrun.
  split_and!; [|done..]. set (s := Bst bs d [] pid).
  assert (∀ i, (i < nbuf)%nat → b_valid (buf_at s i) = false ∧ b_dev (buf_at s i) = 0 ∧
    b_refcnt (buf_at s i) = 0 ∧ b_lock (buf_at s i) = initsleeplock) as Hat.
  { intros i Hi. rewrite Forall_lookup in Hall. apply (Hall i).
    apply list_lookup_lookup_total_lt. simpl; lia. }
  exists ∅. split_and!; [split|..].
  - exact Hlen.
  - eexists. exact Hdll.
  - intros i j Hi Hj E. destruct (Hat i Hi) as (_ & E' & _). by rewrite E in E'.
  - intros i Hi. destruct (Hat i Hi) as (Hv & _ & Hr & Hk). split; [by rewrite Hv|by left].
  - intros b r Hr. by rewrite lookup_empty in Hr.
  - done.
  - intros b r Hr. by rewrite lookup_empty in Hr.
  - intros b Hb. by apply elem_of_empty in Hb.
  - intros b i. rewrite lookup_empty. split; [done|]. intros (r & Hr & _). by rewrite lookup_empty in Hr.
Qed.

(** [binit] and then [initlog], on zeroed static storage and the disk [d]. *)
Definition power_on (d : gmap Z block) (pid : Z) : lst :=
  Lst (static zero_block d pid) 0 0 0 false 0 (Logheader 0 (replicate (Z.to_nat LOGSIZE) 0)).
#[global] Arguments power_on : simpl never.

Lemma power_on_disk d pid : disk (bc (power_on d pid)) = d.
Proof. reflexivity. Qed.
Lemma power_on_io d pid : io (bc (power_on d pid)) = [].
Proof. reflexivity. Qed.
Lemma static_disk z d pid : disk (static z d pid) = d.
Proof. reflexivity. Qed.
Lemma static_io z d pid : io (static z d pid) = [].
Proof. reflexivity. Qed.

Definition boot_log (sb : superblock) : K lst unit :=
  bio binit;; initlog ROOTDEV sb.

Definition sb_ok (sb : superblock) : Prop :=
  0 ≤ sb_logstart sb ∧ 0 < sb_nlog sb ∧ sb_logstart sb + sb_nlog sb < 2 ^ 31.

(** Recovery on a disk that means [w]: it returns, in a state where the log
    is empty, no operation is running, and the home blocks hold [w]. *)
Lemma boot_log_spec sb d pid w :
  sb_ok sb → means (sb_logstart sb) (sb_nlog sb) (dread d) w →
  (∀ x, ¬ in_area (sb_logstart sb) (sb_nlog sb) x → length (w x) = Z.to_nat BSIZE) →
  wp (boot_log sb) (λ _ s, ∃ v, LInv s v ∅ ∧
    (∀ x, ¬ in_log s x → v x = w x ∧ dread (disk (bc s)) x = w x) ∧
    l_start s = sb_logstart sb ∧ l_size s = sb_nlog sb ∧
    l_outstanding s = 0 ∧ l_committing s = false ∧ lblocks s = [] ∧
    effect (static zero_block d pid) (bc s) (recover_writes (sb_logstart sb) (dread d))) (power_on d pid).
Proof.
  intros Hsb Hm Hw. pose proof Hm as [Hok Heq]. unfold boot_log, power_on.
  apply wp_bind, wp_at, wp_bio. simpl. eapply wp_mono; [apply binit_inv|]. intros _ b1 (Hinv1 & Hd1 & Hi1 & Hm1).
  unfold initlog. apply wp_bind, wp_panic_if; [done|]. apply wp_bind, wp_modify. simpl.
  set (s1 := Lst b1 (sb_logstart sb) (sb_nlog sb) 0 false ROOTDEV (Logheader 0 (replicate (Z.to_nat LOGSIZE) 0))).
  assert (LBase s1) as Hbase by (split; done).
  eapply wp_mono; [eapply (recover_spec s1 b1); done|].
  intros _ s2 (b2 & v2 & -> & Hinv2 & Hwf2 & Hef). exists v2.
  assert (∀ x, dread (disk b2) x = vapply (recover_writes (sb_logstart sb) (dread d)) (dread d) x) as Hdisk.
  { intros x. rewrite (ef_disk _ _ _ Hef), Hd1. apply dread_apply_writes. }
  assert (∀ x, v2 x = dread (disk b2) x) as Hv2 by (intros x; by eapply PInv_clean).
  assert (lblocks (set_bc b2 (set_n 0 (load_head (dread d (sb_logstart sb)) s1))) = []) as Hlb by done.
  assert (effect (static zero_block d pid) b2 (recover_writes (sb_logstart sb) (dread d))) as Hef'.
  { destruct Hef as [E1 E2 E3]. rewrite Hd1 in E1. rewrite Hi1 in E2. rewrite Hm1 in E3. by split. }
  pose proof (means_recover_prefix _ _ _ _ (length (recover_writes (sb_logstart sb) (dread d))) Hm) as [Hok2 _].
  rewrite take_ge in Hok2 by done.
  assert (∀ x, ¬ in_area (sb_logstart sb) (sb_nlog sb) x → dread (disk b2) x = w x) as Hhome.
  { intros x Hx. rewrite Hdisk. by apply (recover_home _ _ _ _ _ Hm). }
  split_and!; try done; [|intros x Hx; rewrite Hv2; split; by apply Hhome].
  split; simpl; rewrite ?Hlb; try done.
  - by eapply LWf_ext, Hwf2.
  - intros x Hx. rewrite Hv2, Hhome by done. by apply Hw.
  - rewrite Hdisk. apply Hok2.
  - rewrite Hdisk. apply (recover_home _ _ _ _ (-1) Hm). destruct Hsb. unfold in_area. lia.
Qed.

(** ** The blank file system of [mkfs] *)
Lemma blank_means : means (sb_logstart mkfs_sb) (sb_nlog mkfs_sb) (dread ∅) (dread ∅).
Proof.
  assert (hdr_n zero_block = 0) as Hn by (vm_compute; reflexivity).
  assert (hdr_blocks zero_block = []) as Hb by (unfold hdr_blocks; by rewrite Hn).
  assert (∀ x, dread ∅ x = zero_block) as Hz by (intros x; unfold dread; by rewrite lookup_empty).
  apply means_empty; rewrite Hz; [|done].
  split; rewrite ?Hn, ?Hb; [vm_compute; reflexivity|done|done|by intros b ?%elem_of_nil|constructor].
Qed.

Lemma blank_length x : length (dread ∅ x) = Z.to_nat BSIZE.
Proof. unfold dread. rewrite lookup_empty. apply length_replicate. Qed.

Lemma mkfs_sb_ok : sb_ok mkfs_sb.
Proof. by vm_compute. Qed.

Lemma mkfs_sb_log : LOGSIZE ≤ sb_nlog mkfs_sb.
Proof. by vm_compute. Qed.

(** C16. Recovery always completes: on every disk that a crash may leave, the
    boot sequence [binit], [initlog] returns, and then the disk outside of the
    log holds the contents the crashed disk meant, the log is empty and no
    operation is outstanding. *)
Theorem recovery_completes sb d pid w :
  sb_ok sb → means (sb_logstart sb) (sb_nlog sb) (dread d) w →
  (∀ x, ¬ in_area (sb_logstart sb) (sb_nlog sb) x → length (w x) = Z.to_nat BSIZE) →
  ∃ s, boot_log sb (power_on d pid) = Ok (tt, s) ∧
    (∀ x, ¬ in_area (sb_logstart sb) (sb_nlog sb) x → dread (disk (bc s)) x = w x) ∧
    lblocks s = [] ∧ l_outstanding s = 0 ∧ l_committing s = false ∧
    hdr_n (dread (disk (bc s)) (sb_logstart sb)) = 0.
Proof.
  intros Hsb Hm Hw.
  destruct (proj1 (wp_ok _ _ _) (boot_log_spec sb d pid w Hsb Hm Hw))
    as ([] & s & Hrun & v & Hinv & Hv & Hs & Hz & Ho & Hc & Hlb & _).
  exists s. split; [exact Hrun|]. clear Hrun. split_and!; try done.
  - intros x Hx. apply Hv. unfold in_log. by rewrite Hs, Hz.
  - rewrite <-Hs. apply Hinv.
Qed.

Lemma recovery_completes_witness : ∃ s, boot_log mkfs_sb (power_on ∅ 1) = Ok (tt, s) ∧ lblocks s = [].
Proof.
  destruct (recovery_completes mkfs_sb ∅ 1 (dread ∅) mkfs_sb_ok blank_means (λ x _, blank_length x))
    as (s & Hrun & _ & Hl & _).
  exists s. split; [exact Hrun|exact Hl].
Defined.
