(* ===== verification/LogRefine.v ===== *)
(** * Crash refinement of the log

    Several processes run file-system operations: each one is [begin_op],
    some block updates through [log_write], [end_op].  The calls of different
    processes interleave in any order.  The abstract log has two copies of
    the disk, the [current] contents and the [durable] ones; it copies the
    first to the second when the last running operation ends.

    The machine may stop after any disk write, also while recovering. *)

From S2P Require Import Prelude Word Param Bio BioSpec Log LogSpec LogCrash LogTx.

(** ** Processes and their operations *)

(** The running process of the cpu, as the locks record it. *)
Definition as_proc (p : Z) : K lst unit :=
  modify (λ s, set_bc (Bst (bufs (bc s)) (disk (bc s)) (io (bc s)) p) s).

Inductive event :=
  | Begin (p : Z)
  | Write (p b : Z) (d : block)
  | End (p : Z).

Definition run (e : event) : K lst unit :=
  match e with
  | Begin p => as_proc p;; begin_op
  | Write p b d => as_proc p;; log_update b d
  | End p => as_proc p;; end_op
  end.

(** The blocks an operation may still log.  It starts with one less than
    [MAXOPBLOCKS]: see [three_full_operations_panic] for why. *)
Definition quota : nat := Z.to_nat (MAXOPBLOCKS - 1).
Abbreviation ops := (gmap Z nat).

Definition budget (o : ops) : nat := sum_list (map_to_list o).*2.

Definition allowed (sb : superblock) (o : ops) (e : event) : Prop :=
  match e with
  | Begin p => o !! p = None
  | Write p b d =>
      (∃ k, o !! p = Some (S k)) ∧ 0 ≤ b < 2 ^ 31 ∧
      ¬ in_area (sb_logstart sb) (sb_nlog sb) b ∧ length d = Z.to_nat BSIZE
  | End p => is_Some (o !! p)
  end.

Definition ops_after (e : event) (o : ops) : ops :=
  match e with
  | Begin p => <[p := quota]> o
  | Write p _ _ => alter pred p o
  | End p => delete p o
  end.

(** ** The abstract log *)
Record alog := Alog { durable : Z → block; current : Z → block }.

Definition alog_step (o : ops) (e : event) (a : alog) : alog :=
  match e with
  | Begin _ => a
  | Write _ b d => Alog (durable a) (<[b := d]> (current a))
  | End p => if decide (delete p o = ∅) then Alog (current a) (current a) else a
  end.

(** ** Crashes *)

(** The disks on which a run of [m] from [s] may stop. *)
Definition crash_disk (m : K lst unit) (s : lst) (d : gmap Z block) : Prop :=
  ∃ s' ws k, m s = Ok (tt, s') ∧ io (bc s') = io (bc s) ++ ws ∧
             d = apply_writes (take k ws) (disk (bc s)).

(** Rebooting on [d], with any number of crashes during recovery, until one
    recovery completes and leaves [d']. *)
Inductive recovered (sb : superblock) : gmap Z block → gmap Z block → Prop :=
  | recovered_done d pid s :
      boot_log sb (power_on d pid) = Ok (tt, s) → recovered sb d (disk (bc s))
  | recovered_crash d pid d1 d2 :
      crash_disk (boot_log sb) (power_on d pid) d1 → recovered sb d1 d2 → recovered sb d d2.

(** States that the running system reaches from a boot. *)
Inductive reach (sb : superblock) : lst → ops → alog → Prop :=
  | reach_boot d pid w s :
      means (sb_logstart sb) (sb_nlog sb) (dread d) w →
      (∀ x, ¬ in_area (sb_logstart sb) (sb_nlog sb) x → length (w x) = Z.to_nat BSIZE) →
      boot_log sb (power_on d pid) = Ok (tt, s) → reach sb s ∅ (Alog w w)
  | reach_step s o a e s' :
      reach sb s o a → allowed sb o e → run e s = Ok (tt, s') →
      reach sb s' (ops_after e o) (alog_step o e a).

(** ** Budgets *)
Section budget.
Implicit Types (o : ops).

Lemma sum_list_perm (l1 l2 : list nat) : l1 ≡ₚ l2 → sum_list l1 = sum_list l2.
Proof. induction 1; simpl; lia. Qed.

Lemma budget_insert o p k : o !! p = None → budget (<[p := k]> o) = (k + budget o)%nat.
Proof.
  intros Hp. unfold budget. rewrite (sum_list_perm _ (k :: (map_to_list o).*2)); [done|].
  by rewrite map_to_list_insert.
Qed.

Lemma budget_delete o p k : o !! p = Some k → budget o = (k + budget (delete p o))%nat.
Proof.
  intros Hp. rewrite <-(insert_delete_id o p k Hp) at 1.
  apply budget_insert. apply lookup_delete_eq.
Qed.

Lemma budget_spend o p k : o !! p = Some (S k) → budget o = S (budget (alter pred p o)).
Proof.
  intros Hp. rewrite (budget_delete _ _ _ Hp).
  rewrite (budget_delete (alter pred p o) p k) by (by rewrite lookup_alter_eq, Hp).
  by rewrite delete_alter_eq.
Qed.

Lemma budget_quota o : map_Forall (λ _ k, (k ≤ quota)%nat) o → (budget o ≤ quota * size o)%nat.
Proof.
  revert o. apply (map_ind (λ o, map_Forall (λ _ k, (k ≤ quota)%nat) o → (budget o ≤ quota * size o)%nat)).
  - intros _. unfold budget. rewrite map_to_list_empty. simpl. lia.
  - intros p k o Hp IH [Hk Ho]%map_Forall_insert; [|done].
    rewrite budget_insert, map_size_insert_None by done. specialize (IH Ho). lia.
Qed.
End budget.

(** ** The invariant *)
Lemma PInv_me s v P p :
  PInv s v ∅ P → PInv (Bst (bufs s) (disk s) (io s) p) v ∅ P.
Proof.
  intros (pool & [H1 H2 H3 H4 H5 H6] & Hc & HP & HH). exists pool. split_and!; [|done..].
  split; try done. intros i Hi. destruct (H4 i Hi) as [Hv Hr]. split; [done|].
  destruct Hr as [?|(r & Hr & Hs & ? & ? & ? & Hl & ?)]; [by left|right]. exists r. split_and!; try first [done|lia].
  etrans; [exact Hl|]. simpl. destruct (r_lock r) eqn:E; [|done].
  assert ((∅ : gmap Z nat) !! b_blockno (buf_at s i) = Some i) as HX; [|done].
  apply HH. by exists r.
Qed.

Lemma LInv_as_proc s v p (Q : unit → lst → Prop) :
  LInv s v ∅ →
  (∀ s1, LInv s1 v ∅ → same_geometry s s1 → l_lh s1 = l_lh s → l_committing s1 = l_committing s →
         l_outstanding s1 = l_outstanding s → disk (bc s1) = disk (bc s) → io (bc s1) = io (bc s) →
         Q tt s1) →
  wp (as_proc p) Q s.
Proof.
  intros Hinv HQ. apply wp_modify, HQ; try done.
  eapply LInv_cache; [done|by apply PInv_me, Hinv|done|apply Hinv|done].
Qed.

Lemma means_eq start size d w w' :
  means start size d w → (∀ x, ¬ in_area start size x → w x = w' x) → means start size d w'.
Proof. intros [Hok Heq] Hw. split; [done|]. intros x Hx. rewrite <-Hw by done. auto. Qed.

Lemma LInv_means s v : LInv s v ∅ → means (l_start s) (l_size s) (dread (disk (bc s))) (dread (disk (bc s))).
Proof.
  intros [Hwf _ _ Hl Hn _ _].
  assert (hdr_blocks (dread (disk (bc s)) (l_start s)) = []) as Hb by (unfold hdr_blocks; by rewrite Hn).
  apply means_empty; [|done]. split; rewrite ?Hn, ?Hb; try done; [destruct Hwf; lia|by intros b ?%elem_of_nil|constructor].
Qed.

Record RInv (sb : superblock) (s : lst) (o : ops) (a : alog) (v : Z → block) : Prop := {
  ri_inv : LInv s v ∅;
  ri_start : l_start s = sb_logstart sb;
  ri_size : l_size s = sb_nlog sb;
  ri_idle : l_committing s = false;
  ri_ops : l_outstanding s = Z.of_nat (size o);
  ri_quota : map_Forall (λ _ k, (k ≤ quota)%nat) o;
  ri_budget : lh_n (l_lh s) + Z.of_nat (budget o) < NBUF;
  ri_view : ∀ x, ¬ in_log s x → v x = current a x ∧ dread (disk (bc s)) x = durable a x;
}.

(** What one call leaves: the invariant, and at each of its disk writes the
    durable contents before or after the call. *)
Definition step_post (sb : superblock) (s : lst) (o : ops) (a : alog) (e : event) (s' : lst) : Prop :=
  (∃ v', RInv sb s' (ops_after e o) (alog_step o e a) v') ∧
  ∃ ws, disk (bc s') = apply_writes ws (disk (bc s)) ∧ io (bc s') = io (bc s) ++ ws ∧
    ∀ k, let d := vapply (take k ws) (dread (disk (bc s))) in
         means (sb_logstart sb) (sb_nlog sb) d (durable a) ∨
         means (sb_logstart sb) (sb_nlog sb) d (durable (alog_step o e a)).

(** A call that writes nothing to the disk. *)
Lemma step_post_quiet sb s o a e s' v v' :
  RInv sb s o a v → RInv sb s' (ops_after e o) (alog_step o e a) v' →
  disk (bc s') = disk (bc s) → io (bc s') = io (bc s) → step_post sb s o a e s'.
Proof.
  intros [Hinv Hs Hz _ _ _ _ Hv] Hr' Hd Hi. split; [by exists v'|]. exists []. simpl. split_and!.
  - done.
  - by rewrite app_nil_r.
  - intros k. left. rewrite take_nil. simpl. rewrite <-Hs, <-Hz.
    eapply means_eq; [by eapply LInv_means|]. intros x Hx. by apply Hv.
Qed.

Lemma size_delete_empty (o : ops) p k : o !! p = Some k → delete p o = ∅ ↔ size o = 1%nat.
Proof.
  intros Hp. pose proof (map_size_insert_None p k (delete p o) ltac:(apply lookup_delete_eq)) as Hs.
  rewrite insert_delete_id in Hs by done. rewrite <-map_size_empty_iff. lia.
Qed.

Section steps.
Context (sb : superblock).
Hypothesis Hsb : LOGSIZE ≤ sb_nlog sb.
Implicit Types (s : lst) (o : ops) (a : alog).

Lemma begin_step s o a v p :
  RInv sb s o a v → allowed sb o (Begin p) → op_fits s = true →
  wp (run (Begin p)) (λ _ s', step_post sb s o a (Begin p) s') s.
Proof using Type.
  intros Hr Hp Hfit. pose proof Hr as [Hinv ???? Hq Hbud Hv]. simpl in *. apply wp_bind.
  eapply LInv_as_proc; [done|]. intros s1 Hinv1 (Hg1 & Hg2 & Hg3) Hlh Hc Ho Hd Hi.
  unfold wp. rewrite begin_op_run. unfold op_fits in *. rewrite Hc, Hlh, Ho, Hfit.
  eapply (step_post_quiet _ _ _ _ (Begin p)); [done| |done|done].
  apply andb_true_iff in Hfit as [_ Hfit%Z.leb_le]. pose proof (budget_quota _ Hq) as Hb.
  split; simpl; try congruence.
  - by eapply LInv_ext, Hinv1.
  - rewrite map_size_insert_None by done. lia.
  - apply map_Forall_insert; [done|]. by split.
  - rewrite budget_insert by done. rewrite Hlh. unfold quota in *. clia.
  - intros x Hx. rewrite Hd. apply Hv. unfold in_log in *. simpl in *. congruence.
Qed.

Lemma write_step s o a v p b d :
  RInv sb s o a v → allowed sb o (Write p b d) →
  wp (run (Write p b d)) (λ _ s', step_post sb s o a (Write p b d) s') s.
Proof using Hsb.
  intros Hr ((k & Hp) & Hb & Hout & Hl). pose proof Hr as [Hinv Hst Hsz Hidle Hops Hq Hbud Hv].
  pose proof (budget_spend _ _ _ Hp) as Hspend. simpl. apply wp_bind.
  eapply LInv_as_proc; [done|]. intros s1 Hinv1 (Hg1 & Hg2 & Hg3) Hlh Hc Ho Hd Hi.
  assert (size o ≠ 0)%nat by (rewrite map_size_empty_iff; intros ->; by rewrite lookup_empty in Hp).
  eapply wp_mono; [eapply (log_update_spec s1 v b d); try done|].
  - unfold in_log. by rewrite Hg1, Hg2, Hst, Hsz.
  - lia.
  - rewrite Hlh, Hg2, Hsz. clia.
  - rewrite Hlh. clia.
  - intros _ s2 (Hinv2 & (Hh1 & Hh2 & Hh3) & Hc2 & Ho2 & _ & Hn2 & (Hd2 & Hi2 & _)).
    eapply (step_post_quiet _ _ _ _ (Write p b d)); [done| |congruence|congruence].
    split; simpl; try congruence; first [done|lia|idtac].
    + rewrite <-!size_dom, dom_alter_L, size_dom. congruence.
    + intros q j Hj. destruct (decide (q = p)) as [->|Hne].
      * rewrite lookup_alter_eq, Hp in Hj. simplify_eq/=. apply Hq in Hp. lia.
      * rewrite lookup_alter_ne in Hj by done. by apply Hq in Hj.
    + rewrite Hlh in Hn2. lia.
    + intros x Hx. rewrite Hd2, Hd. destruct (Hv x) as [Hx1 Hx2].
      { unfold in_log in *. congruence. }
      split; [|done]. destruct (decide (x = b)) as [->|Hne]; [by rewrite !fn_lookup_insert|].
      by rewrite !fn_lookup_insert_ne.
Qed.

(** The writes of [end_op], cut anywhere. *)
Lemma end_writes_means s v k :
  LInv s v ∅ → let d := vapply (take k (end_writes s v)) (dread (disk (bc s))) in
  means (l_start s) (l_size s) d (dread (disk (bc s))) ∨
  l_outstanding s = 1 ∧ means (l_start s) (l_size s) d v.
Proof using Type.
  intros Hinv d. subst d. unfold end_writes. case_decide as Hc.
  - pose proof (means_commit_prefix s v (dread (disk (bc s))) (li_wf _ _ _ Hinv)
      (li_dlen _ _ _ Hinv) (li_empty _ _ _ Hinv) (λ x Hx, LInv_clean s v x Hinv Hx) k) as Hm.
    case_decide; [by left|right; naive_solver].
  - left. rewrite take_nil. by eapply LInv_means.
Qed.

(** The home blocks after [end_op]. *)
Lemma end_writes_home s v x :
  LInv s v ∅ → ¬ in_log s x →
  vapply (end_writes s v) (dread (disk (bc s))) x =
  if decide (l_outstanding s = 1) then v x else dread (disk (bc s)) x.
Proof using Type.
  intros Hinv Hx. unfold end_writes. case_decide as Hc.
  - rewrite decide_True by tauto. rewrite <-dread_apply_writes. by apply commit_disk.
  - case_decide; [|done]. symmetry. apply LInv_clean; [done|]. unfold lblocks.
    rewrite (Z2Nat.nonpos (lh_n _)) by lia. by intros ?%elem_of_nil.
Qed.

Lemma end_step s o a v p :
  RInv sb s o a v → allowed sb o (End p) →
  wp (run (End p)) (λ _ s', step_post sb s o a (End p) s') s.
Proof using Type.
  intros Hr (k & Hp). pose proof Hr as [Hinv Hst Hsz Hidle Hops Hq Hbud Hv].
  pose proof (size_delete_empty _ _ _ Hp) as Hlast. pose proof (budget_delete _ _ _ Hp) as Hdel.
  pose proof (map_size_insert_None p k (delete p o) ltac:(apply lookup_delete_eq)) as Hsize.
  rewrite insert_delete_id in Hsize by done. simpl. apply wp_bind.
  eapply LInv_as_proc; [done|]. intros s1 Hinv1 (Hg1 & Hg2 & Hg3) Hlh Hc Ho Hd Hi.
  eapply wp_mono; [apply (end_op_spec s1 v); [done|congruence|lia]|].
  intros _ s2 (v2 & Hinv2 & Hv2 & (Hh1 & Hh2 & Hh3) & Hc2 & Ho2 & Hlb2 & [Hd2 Hi2 _]).
  assert (∀ x, ¬ in_log s1 x → ¬ in_log s x) as Hin by (unfold in_log; rewrite Hg1, Hg2; auto).
  split; [exists v2; split; simpl; try congruence; first [lia|idtac]|].
  - by apply map_Forall_delete.
  - pose proof (length_lblocks _ (li_wf _ _ _ Hinv1)) as L1.
    pose proof (length_lblocks _ (li_wf _ _ _ Hinv2)) as L2. rewrite Hlb2 in L2.
    pose proof (lw_n _ (li_wf _ _ _ Hinv2)). pose proof (lw_n _ (li_wf _ _ _ Hinv1)) as N1.
    rewrite Hlh in L1, N1. case_decide; simpl in L2; lia.
  - intros x Hx. assert (¬ in_log s1 x) as Hx1 by (unfold in_log in *; congruence).
    destruct (Hv x (Hin x Hx1)) as [Hva Hda]. rewrite (Hv2 x Hx1), Hva, Hd2, dread_apply_writes.
    rewrite end_writes_home, Hva, Hd, Hda by done.
    destruct (decide (l_outstanding s1 = 1)), (decide (delete p o = ∅)) as [E'|E'];
      rewrite Hlast in E'; simpl; first [done|lia].
  - exists (end_writes s1 v). rewrite Hd2, Hi2, Hd, Hi. split_and!; [done|done|].
    intros j. simpl. rewrite <-Hst, <-Hsz, <-Hg1, <-Hg2.
    pose proof (end_writes_means s1 v j Hinv1) as Hm. simpl in Hm. rewrite Hd in Hm.
    destruct Hm as [Hm|[Hone Hm]]; [left|right]; (eapply means_eq; [exact Hm|]); intros x Hx.
    + by apply Hv, Hin.
    + rewrite decide_True by (apply Hlast; lia). by apply Hv, Hin.
Qed.

(** Every call either completes or, for a [begin_op] without room, sleeps. *)
Lemma run_step s o a v e :
  RInv sb s o a v → allowed sb o e →
  wp (run e) (λ _ s', step_post sb s o a e s') s ∨
  (∃ p, e = Begin p) ∧ op_fits s = false ∧ run e s = Sleep "log".
Proof using Hsb.
  intros Hr Ha. destruct e as [p|p b d|p];
    [|left; by eapply write_step|left; by eapply end_step].
  destruct (op_fits s) eqn:Hf; [left; by eapply begin_step|right].
  split_and!; [by eexists|done|]. unfold run, mbind, K_bind, as_proc, modify.
  rewrite begin_op_run. unfold op_fits in *. simpl in *. by rewrite Hf.
Qed.

Hypothesis Hgeo : sb_ok sb.

Lemma reach_inv s o a : reach sb s o a → ∃ v, RInv sb s o a v.
Proof using Hsb Hgeo.
  induction 1 as [d pid w s Hm Hw Hrun|s o a e s' _ [v IH] Ha Hrun].
  - pose proof (wp_elim _ _ _ _ _ (boot_log_spec sb d pid w Hgeo Hm Hw) Hrun) as Hwp.
    clear Hrun. destruct Hwp as (v & Hinv & Hv & Hs & Hz & Ho & Hc & Hlb & _). exists v.
    split; try done.
    + pose proof (length_lblocks _ (li_wf _ _ _ Hinv)) as Hl. rewrite Hlb in Hl. simpl in Hl.
      pose proof (lw_n _ (li_wf _ _ _ Hinv)). unfold budget. rewrite map_to_list_empty. simpl. clia.
  - destruct (run_step s o a v e IH Ha) as [Hwp|(_ & _ & Hsl)]; [|congruence].
    apply (wp_elim _ _ _ _ _ Hwp Hrun).
Qed.

Lemma crash_step_means s o a v e d :
  RInv sb s o a v → allowed sb o e → crash_disk (run e) s d →
  means (sb_logstart sb) (sb_nlog sb) (dread d) (durable a) ∨
  means (sb_logstart sb) (sb_nlog sb) (dread d) (durable (alog_step o e a)).
Proof using Hsb.
  intros Hr Ha (s' & ws & k & Hrun & Hio & ->).
  destruct (run_step s o a v e Hr Ha) as [Hwp|(_ & _ & Hsl)]; [|congruence].
  destruct (wp_elim _ _ _ _ _ Hwp Hrun) as (_ & ws' & _ & Hio' & Hk).
  assert (ws = ws') as -> by (rewrite Hio in Hio'; by simplify_list_eq).
  assert (∀ w, means (sb_logstart sb) (sb_nlog sb) (vapply (take k ws') (dread (disk (bc s)))) w →
    means (sb_logstart sb) (sb_nlog sb) (dread (apply_writes (take k ws') (disk (bc s)))) w) as Hext.
  { intros w [Hok Heq]. split; [by rewrite dread_apply_writes|]. intros x Hx. rewrite <-Heq by done.
    unfold ldisk. rewrite dread_apply_writes. destruct (list_find _ _) as [[??]|]; apply dread_apply_writes. }
  destruct (Hk k) as [?|?]; [left|right]; by apply Hext.
Qed.
End steps.

(** Recovery reaches a disk that means the same contents, crash after crash. *)
Lemma recovered_means sb d d' w :
  sb_ok sb → recovered sb d d' → means (sb_logstart sb) (sb_nlog sb) (dread d) w →
  (∀ x, ¬ in_area (sb_logstart sb) (sb_nlog sb) x → length (w x) = Z.to_nat BSIZE) →
  ∀ x, ¬ in_area (sb_logstart sb) (sb_nlog sb) x → dread d' x = w x.
Proof.
  intros Hsb Hrec Hm Hw. induction Hrec as [d pid s Hrun|d pid d1 d2 Hcrash _ IH].
  - destruct (wp_elim _ _ _ _ _ (boot_log_spec sb d pid w Hsb Hm Hw) Hrun)
      as (v & _ & Hv & Hs & Hz & _).
    intros x Hx. apply Hv. unfold in_log. by rewrite Hs, Hz.
  - apply IH. destruct Hcrash as (s' & ws & k & Hrun & Hio & ->).
    destruct (wp_elim _ _ _ _ _ (boot_log_spec sb d pid w Hsb Hm Hw) Hrun)
      as (v & _ & _ & _ & _ & _ & _ & _ & Hef).
    assert (ws = recover_writes (sb_logstart sb) (dread d)) as ->.
    { rewrite (ef_io _ _ _ Hef), static_io, power_on_io in Hio. by symmetry. }
    clear Hrun Hef Hio. rewrite power_on_disk.
    destruct (means_recover_prefix _ _ _ _ k Hm) as [Hok Heq]. split.
    + by rewrite dread_apply_writes.
    + intros x Hx. rewrite <-Heq by done.
      unfold ldisk. rewrite dread_apply_writes. destruct (list_find _ _) as [[??]|]; apply dread_apply_writes.
Qed.

Lemma reach_length sb s o a :
  sb_ok sb → LOGSIZE ≤ sb_nlog sb → reach sb s o a →
  ∀ x, ¬ in_area (sb_logstart sb) (sb_nlog sb) x →
       length (durable a x) = Z.to_nat BSIZE ∧ length (current a x) = Z.to_nat BSIZE.
Proof.
  intros Hsb Hz. induction 1 as [d pid w s Hm Hw Hrun|s o a e s' Hr IH Ha Hrun]; [auto|].
  intros x Hx. destruct (IH x Hx). destruct e as [p|p b d|p]; simpl; [done| |by case_decide].
  split; [done|]. destruct (decide (x = b)) as [->|Hne]; [rewrite fn_lookup_insert; apply Ha|].
  by rewrite fn_lookup_insert_ne.
Qed.

(** ** A concrete run: one operation that logs one block *)
Definition demo_write : event := Write 1 100 (replicate (Z.to_nat BSIZE) 7).

Lemma demo_begin : ∃ s a, reach mkfs_sb s {[1 := quota]} a.
Proof.
  destruct (proj1 (wp_ok _ _ _) (boot_log_spec mkfs_sb ∅ 1 _ mkfs_sb_ok blank_means (λ x _, blank_length x)))
    as ([] & s & Hrun & v & Hinv & _ & _ & _ & Ho & Hc & Hlb & _).
  pose proof (reach_boot _ _ _ _ _ blank_means (λ x _, blank_length x) Hrun) as Hr. clear Hrun.
  destruct (reach_inv _ mkfs_sb_log mkfs_sb_ok _ _ _ Hr) as [v' Hi].
  assert (allowed mkfs_sb ∅ (Begin 1)) as Ha by apply lookup_empty.
  assert (op_fits s = true) as Hf.
  { unfold op_fits. rewrite Hc, Ho. pose proof (length_lblocks _ (li_wf _ _ _ Hinv)) as Hl.
    rewrite Hlb in Hl. simpl in Hl. apply Z.leb_le. clia. }
  destruct (proj1 (wp_ok _ _ _) (begin_step _ _ _ _ _ _ Hi Ha Hf)) as ([] & s1 & Hrun & _).
  exists s1, (alog_step ∅ (Begin 1) (Alog (dread ∅) (dread ∅))).
  exact (reach_step _ _ _ _ _ _ Hr Ha Hrun).
Qed.

Lemma demo_logged : ∃ s a, reach mkfs_sb s (ops_after demo_write {[1 := quota]}) a ∧
  allowed mkfs_sb (ops_after demo_write {[1 := quota]}) (End 1).
Proof.
  destruct demo_begin as (s & a & Hr). destruct (reach_inv _ mkfs_sb_log mkfs_sb_ok _ _ _ Hr) as [v Hi].
  assert (allowed mkfs_sb {[1 := quota]} demo_write) as Ha.
  { split_and!; [exists 8%nat; apply lookup_singleton_eq|done|done| |apply length_replicate].
    unfold in_area. vm_compute. naive_solver. }
  destruct (proj1 (wp_ok _ _ _) (write_step _ mkfs_sb_log _ _ _ _ _ _ _ Hi Ha)) as ([] & s1 & Hrun & _).
  exists s1, (alog_step {[1 := quota]} demo_write a). split; [exact (reach_step _ _ _ _ _ _ Hr Ha Hrun)|].
  exists 8%nat. reflexivity.
Qed.

Lemma demo_crash s o a (k : nat) :
  reach mkfs_sb s o a → allowed mkfs_sb o (End 1) →
  ∃ d d', crash_disk (run (End 1)) s d ∧ recovered mkfs_sb d d'.
Proof.
  intros Hr Ha. destruct (reach_inv _ mkfs_sb_log mkfs_sb_ok _ _ _ Hr) as [v Hi].
  destruct (proj1 (wp_ok _ _ _) (end_step _ _ _ _ _ _ Hi Ha)) as ([] & s1 & Hrun & _ & ws & _ & Hio & _).
  assert (crash_disk (run (End 1)) s (apply_writes (take k ws) (disk (bc s)))) as Hcr by (by exists s1, ws, k).
  eexists _. assert (∃ w, means (sb_logstart mkfs_sb) (sb_nlog mkfs_sb)
      (dread (apply_writes (take k ws) (disk (bc s)))) w ∧
      ∀ x, ¬ in_area (sb_logstart mkfs_sb) (sb_nlog mkfs_sb) x → length (w x) = Z.to_nat BSIZE) as (w & Hm & Hw).
  { pose proof (reach_length _ _ _ _ mkfs_sb_ok mkfs_sb_log Hr) as Hl.
    destruct (crash_step_means _ mkfs_sb_log _ _ _ _ _ _ Hi Ha Hcr) as [Hm|Hm];
      (eexists; split; [exact Hm|]); intros x Hx; [by apply Hl|]. simpl. case_decide; by apply Hl. }
  clear Hrun Hio.
  destruct (proj1 (wp_ok _ _ _) (boot_log_spec mkfs_sb _ 1 _ mkfs_sb_ok Hm Hw)) as ([] & s2 & Hrun & _).
  exists (disk (bc s2)). split; [exact Hcr|]. exact (recovered_done _ _ _ _ Hrun).
Qed.

(** * Properties *)

(** C1. Crash refinement of the log: let the system be in any state reached
    by interleaved file-system operations, stop the machine at any disk write
    of the next call ([begin_op], a logged block update, or [end_op] with the
    commit inside it), and reboot it, possibly crashing again at any point of
    [recover_from_log] any number of times.  When a recovery completes, the
    disk outside of the log area holds the durable contents of the abstract
    log from before the call or from after it, in full. *)
Theorem crash_refinement sb s o a e d d' :
  sb_ok sb → LOGSIZE ≤ sb_nlog sb → reach sb s o a → allowed sb o e →
  crash_disk (run e) s d → recovered sb d d' →
  (∀ x, ¬ in_area (sb_logstart sb) (sb_nlog sb) x → dread d' x = durable a x) ∨
  (∀ x, ¬ in_area (sb_logstart sb) (sb_nlog sb) x → dread d' x = durable (alog_step o e a) x).
Proof.
  intros Hsb Hz Hr Ha Hc Hrec. destruct (reach_inv sb Hz Hsb s o a Hr) as [v Hinv].
  assert (∀ x, ¬ in_area (sb_logstart sb) (sb_nlog sb) x →
    length (durable (alog_step o e a) x) = Z.to_nat BSIZE) as Hlen.
  { intros x Hx. destruct (reach_length _ _ _ _ Hsb Hz Hr x Hx).
    destruct e; simpl; [done..|by case_decide]. }
  destruct (crash_step_means sb Hz s o a v e d Hinv Ha Hc) as [Hm|Hm]; [left|right];
    eapply recovered_means; eauto.
  intros x Hx. by apply (reach_length _ _ _ _ Hsb Hz Hr).
Qed.

Lemma crash_refinement_witness : ∃ s o a d d',
  reach mkfs_sb s o a ∧ crash_disk (run (End 1)) s d ∧ recovered mkfs_sb d d' ∧
  ((∀ x, ¬ in_area 2 30 x → dread d' x = durable a x) ∨
   (∀ x, ¬ in_area 2 30 x → dread d' x = durable (alog_step o (End 1) a) x)).
Proof.
  destruct demo_logged as (s & a & Hr & Ha). destruct (demo_crash _ _ _ 2 Hr Ha) as (d & d' & Hc & Hrec).
  exists s, (ops_after demo_write {[1 := quota]}), a, d, d'. split; [exact Hr|]. split; [exact Hc|].
  split; [exact Hrec|].
  exact (crash_refinement mkfs_sb _ _ _ _ _ _ mkfs_sb_ok mkfs_sb_log Hr Ha Hc Hrec).
Defined.

(** C12. Progress: in every reachable state a process inside an operation can
    log a further block within its quota and can end its operation (no panic,
    no exhausted buffer cache, no waiting); a [begin_op] returns exactly when
    the new operation fits the log, and otherwise waits on the log. *)
Theorem log_progress sb s o a e :
  sb_ok sb → LOGSIZE ≤ sb_nlog sb → reach sb s o a → allowed sb o e →
  if (match e with Begin _ => op_fits s | _ => true end)
  then ∃ s', run e s = Ok (tt, s') ∧ reach sb s' (ops_after e o) (alog_step o e a)
  else run e s = Sleep "log".
Proof.
  intros Hsb Hz Hr Ha. destruct (reach_inv sb Hz Hsb s o a Hr) as [v Hinv].
  assert (wp (run e) (λ _ s', step_post sb s o a e s') s →
    ∃ s', run e s = Ok (tt, s') ∧ reach sb s' (ops_after e o) (alog_step o e a)) as Hok.
  { intros ([] & s' & Hrun & _)%wp_ok. exists s'. split; [done|by econstructor]. }
  destruct (run_step sb Hz s o a v e Hinv Ha) as [Hwp|((p & ->) & -> & Hs)]; [|done].
  destruct (match e with Begin _ => op_fits s | _ => true end) eqn:Hf; [auto|exfalso].
  destruct (Hok Hwp) as (s' & Hrun & _). destruct e as [p|p b d|p]; [|done..].
  unfold run, mbind, K_bind, as_proc, modify in Hrun. rewrite begin_op_run in Hrun.
  unfold op_fits in *. simpl in Hrun. by rewrite Hf in Hrun.
Qed.

Lemma log_progress_witness : ∃ s o a s',
  reach mkfs_sb s o a ∧ run (End 1) s = Ok (tt, s') ∧ reach mkfs_sb s' (ops_after (End 1) o) (alog_step o (End 1) a).
Proof.
  destruct demo_logged as (s & a & Hr & Ha).
  pose proof (log_progress mkfs_sb _ _ _ _ mkfs_sb_ok mkfs_sb_log Hr Ha) as Hp. cbv beta iota in Hp.
  destruct Hp as (s' & Hrun & Hr'). eexists s, _, a, s'. split; [exact Hr|]. split; [exact Hrun|exact Hr'].
Defined.

(** The calls of three processes that each start an operation and then log
    [n] blocks of their own. *)
Fixpoint run_all (es : list event) : K lst unit :=
  match es with
  | [] => mret tt
  | e :: es => run e;; run_all es
  end.
Definition three_operations (n : nat) : list event :=
  [Begin 1; Begin 2; Begin 3] ++
  p ← [1; 2; 3]; b ← seqZ 0 (Z.of_nat n); [Write p (100 * p + b) []].

(** The log of [mkfs] is one block too small for what [begin_op] admits:
    three operations may run at once, each entitled to [MAXOPBLOCKS] blocks,
    but the thirtieth [log_write] panics, because [mkfs] makes the log
    [LOGSIZE] blocks long including the header.  With one block less per
    operation all the writes succeed. *)
Theorem three_full_operations_panic :
  (boot_log mkfs_sb;; run_all (three_operations (Z.to_nat MAXOPBLOCKS))) (power_on ∅ 1)
    = Panic "too big a transaction" ∧
  match (boot_log mkfs_sb;; run_all (three_operations (Z.to_nat (MAXOPBLOCKS - 1)))) (power_on ∅ 1) with
  | Ok (_, s) => lh_n (l_lh s) = 27
  | _ => False
  end.
Proof. split; vm_compute; reflexivity. Qed.
