(* ===== verification/Mem.v ===== *)
(** * Byte-addressed memory

    The memory that C code reaches through pointers: a finite map from
    addresses to bytes.  An access to an address outside of it is undefined
    behaviour of the program.  Addresses are integers; pointer arithmetic does
    not wrap, as the language forbids it to. *)

From S2P Require Import Prelude Word.

Abbreviation mem := (gmap Z Z).

(** [*a] and [*a = v] for a [char*] [a] ([char] is unsigned on RISC-V). *)
Definition load (a : Z) : K mem Z :=
  m ← gets id;
  match m !! a with
  | Some v => mret v
  | None => undefined "load"
  end.
Definition store (a v : Z) : K mem unit :=
  m ← gets id;
  match m !! a with
  | Some _ => modify <[a := u8 v]>
  | None => undefined "store"
  end.

(** [m] holds the bytes [l] from [a] on. *)
Definition holds (m : mem) (a : Z) (l : list Z) : Prop :=
  ∀ i x, l !! i = Some x → m !! (a + Z.of_nat i) = Some x.

(** The [n] addresses from [a] on are mapped. *)
Definition mapped (m : mem) (a : Z) (n : nat) : Prop :=
  ∀ i, (i < n)%nat → is_Some (m !! (a + Z.of_nat i)).

(** [m] with the bytes [l] written from [a] on. *)
Fixpoint mput (m : mem) (a : Z) (l : list Z) : mem :=
  match l with
  | [] => m
  | x :: l => mput (<[a := x]> m) (a + 1) l
  end.

(** A C string: bytes other than 0, then 0. *)
Definition cstring (m : mem) (a : Z) (l : list Z) : Prop :=
  holds m a (l ++ [0]) ∧ Forall (λ x, x ≠ 0) l.

Lemma lookup_mput m a l b :
  mput m a l !! b =
  if decide (a ≤ b < a + Z.of_nat (length l)) then l !! Z.to_nat (b - a) else m !! b.
Proof.
  revert m a. induction l as [|x l IH]; intros m a; simpl.
  - rewrite decide_False by lia. done.
  - rewrite IH. destruct (decide (b = a)) as [->|Hne].
    + rewrite decide_False, lookup_insert_eq, decide_True by lia. by rewrite Z.sub_diag.
    + rewrite lookup_insert_ne by done. repeat case_decide; try lia; [|done].
      replace (Z.to_nat (b - a)) with (S (Z.to_nat (b - (a + 1)))) by lia. done.
Qed.

Lemma lookup_mput_out m a l b :
  ¬ (a ≤ b < a + Z.of_nat (length l)) → mput m a l !! b = m !! b.
Proof. intros. rewrite lookup_mput. by rewrite decide_False. Qed.

Lemma holds_mput m a l : holds (mput m a l) a l.
Proof.
  intros i x Hi. pose proof (lookup_lt_Some _ _ _ Hi). rewrite lookup_mput, decide_True by lia.
  by replace (Z.to_nat (a + Z.of_nat i - a)) with i by lia.
Qed.

Lemma mput_snoc m a l x : mput m a (l ++ [x]) = <[a + Z.of_nat (length l) := x]> (mput m a l).
Proof.
  revert m a. induction l as [|y l IH]; intros m a; simpl.
  - by rewrite Z.add_0_r.
  - rewrite IH. f_equal. lia.
Qed.

Lemma mput_app m a l1 l2 : mput m a (l1 ++ l2) = mput (mput m a l1) (a + Z.of_nat (length l1)) l2.
Proof.
  revert m a. induction l1 as [|y l IH]; intros m a; simpl.
  - by rewrite Z.add_0_r.
  - rewrite IH. f_equal. lia.
Qed.

(** Writes below the others commute with them. *)
Lemma insert_mput m a b x l :
  ¬ (a ≤ b < a + Z.of_nat (length l)) → <[b := x]> (mput m a l) = mput (<[b := x]> m) a l.
Proof.
  intros Hb. apply map_eq. intros k. rewrite lookup_mput. destruct (decide (k = b)) as [->|Hne].
  - rewrite lookup_insert_eq, decide_False by done. by rewrite lookup_insert_eq.
  - rewrite !lookup_insert_ne by done. by rewrite lookup_mput.
Qed.

Lemma holds_lookup m a l i x : holds m a l → l !! i = Some x → m !! (a + Z.of_nat i) = Some x.
Proof. auto. Qed.

Lemma holds_cons m a x l : holds m a (x :: l) ↔ m !! a = Some x ∧ holds m (a + 1) l.
Proof.
  split.
  - intros H. split; [rewrite <-(Z.add_0_r a); by apply (H 0%nat)|]. intros i y Hi.
    replace (a + 1 + Z.of_nat i) with (a + Z.of_nat (S i)) by lia. by apply H.
  - intros [H1 H2] [|i] y Hi; simplify_eq/=; [by rewrite Z.add_0_r|].
    replace (a + Z.of_nat (S i)) with (a + 1 + Z.of_nat i) by lia. by apply H2.
Qed.

Lemma holds_app m a l1 l2 :
  holds m a (l1 ++ l2) ↔ holds m a l1 ∧ holds m (a + Z.of_nat (length l1)) l2.
Proof.
  revert a. induction l1 as [|x l1 IH]; intros a; simpl.
  - rewrite Z.add_0_r. split; [intros H; split; [done|done]|tauto].
  - rewrite !holds_cons, IH. replace (a + 1 + Z.of_nat (length l1)) with (a + Z.of_nat (S (length l1))) by lia. tauto.
Qed.

Lemma holds_mapped m a l : holds m a l → mapped m a (length l).
Proof. intros H i Hi. destruct (lookup_lt_is_Some_2 l i Hi) as [x Hx]. exists x. by apply H. Qed.

(** The bytes of a mapped region. *)
Lemma mapped_holds m a n : mapped m a n → ∃ l, length l = n ∧ holds m a l.
Proof.
  revert a. induction n as [|n IH]; intros a Hm; [exists []; split; [done|]; intros i x Hi; done|].
  destruct (Hm 0%nat ltac:(lia)) as [x Hx]. rewrite Z.add_0_r in Hx.
  destruct (IH (a + 1)) as (l & Hl & Hh).
  { intros i Hi. replace (a + 1 + Z.of_nat i) with (a + Z.of_nat (S i)) by lia. apply Hm. lia. }
  exists (x :: l). simpl. split; [lia|]. by apply holds_cons.
Qed.

(** A write of other addresses keeps a region. *)
Lemma holds_mput_disjoint m a l b l' :
  holds m a l → a + Z.of_nat (length l) ≤ b ∨ b + Z.of_nat (length l') ≤ a →
  holds (mput m b l') a l.
Proof.
  intros H Hd i x Hi. pose proof (lookup_lt_Some _ _ _ Hi). rewrite lookup_mput_out by lia. by apply H.
Qed.

Lemma mapped_mput m a n b l : mapped m a n → mapped (mput m b l) a n.
Proof.
  intros H i Hi. rewrite lookup_mput. case_decide; [|by apply H].
  apply lookup_lt_is_Some_2. lia.
Qed.

(** ** Rules *)
Lemma wp_load a v (Q : Z → mem → Prop) m : m !! a = Some v → Q v m → wp (load a) Q m.
Proof. intros Hv HQ. unfold load, wp, mbind, K_bind, gets. simpl. by rewrite Hv. Qed.

Lemma wp_store a v (Q : unit → mem → Prop) m :
  is_Some (m !! a) → Q tt (<[a := u8 v]> m) → wp (store a v) Q m.
Proof. intros [x Hx] HQ. unfold store, wp, mbind, K_bind, gets. simpl. by rewrite Hx. Qed.

Lemma u8_byte v : is_byte v → u8 v = v.
Proof. intros. apply wrap_small. unfold is_byte in *. lia. Qed.

(** A loop that walks through mapped addresses ends within the memory. *)
Lemma holds_size m a l : holds m a l → (length l ≤ size m)%nat.
Proof.
  intros H. assert (list_to_set ((λ i, a + Z.of_nat i) <$> seq 0 (length l)) ⊆ dom m) as Hs.
  { intros x Hx. apply elem_of_list_to_set, list_elem_of_fmap in Hx as (i & -> & Hi%elem_of_seq).
    apply elem_of_dom. apply (holds_mapped _ _ _ H). lia. }
  apply subseteq_size in Hs. rewrite size_dom, size_list_to_set in Hs.
  - by rewrite length_fmap, length_seq in Hs.
  - apply NoDup_fmap_2; [intros i j; lia|apply NoDup_seq].
Qed.
