(* ===== verification/Printf.v ===== *)
(** * Formatted output ([kernel/printf.c], [user/printf.c])

    The characters go to [consputc] in the kernel and to [write] in user programs;
    both are the parameter [putc] here.  Formats and strings are lists of
    characters without their final zero; arguments are typed, and [va_arg] with
    another type than that of the argument is undefined, as is a write outside of
    the buffer of [printint].  [printf] of the kernel runs under [pr.lock]. *)

From S2P Require Import Prelude Word.

Inductive arg := AInt (x : Z) | AU64 (x : Z) | AStr (s : option (list Z)).

Definition DIGITS : list Z := [48; 49; 50; 51; 52; 53; 54; 55; 56; 57; 97; 98; 99; 100; 101; 102].
Definition UDIGITS : list Z := [48; 49; 50; 51; 52; 53; 54; 55; 56; 57; 65; 66; 67; 68; 69; 70].
Definition PERCENT : Z := 37.
Definition MINUS : Z := 45.
Definition NULLSTR : list Z := [40; 110; 117; 108; 108; 41].
Definition Cd : Z := 100.
Definition Cl : Z := 108.
Definition Cu : Z := 117.
Definition Cx : Z := 120.
Definition Cp : Z := 112.
Definition Cs : Z := 115.
Definition s64 (x : Z) : Z := swrap 64 x.

Section printf.
Context {S : Type} (putc : Z → K S unit).

Fixpoint emits (l : list Z) : K S unit :=
  match l with
  | [] => mret tt
  | c :: l => putc c;; emits l
  end.

Section digits.
Context (digits : list Z).

Definition digit (d : Z) : Z := nth (Z.to_nat d) digits 0.

(** [do buf[i++] = digits[x % base]; while((x /= base) != 0)] with [char buf[16]]. *)
Definition put_buf (buf : list Z) (c : Z) : K S (list Z) :=
  if (length buf <? 16)%nat then mret (buf ++ [c]) else undefined "buf".
Definition to_digits (x base : Z) : K S (list Z) :=
  while_loop 65 ([], x) (λ '(buf, x),
    buf ← put_buf buf (digit (x mod base));
    let x := x / base in
    mret (if x =? 0 then inr buf else inl (buf, x))).

(** The part of both versions of [printint] after [x] is known. *)
Definition print_digits (neg : bool) (x base : Z) : K S unit :=
  buf ← to_digits x base;
  buf ← (if neg then put_buf buf MINUS else mret buf);
  emits (reverse buf).

(** [digits[x >> 60]] sixteen times, [x] shifted left by four each time. *)
Fixpoint print_nibbles (n : nat) (x : Z) : K S unit :=
  match n with
  | O => mret tt
  | Datatypes.S n => putc (digit (Z.shiftr x 60));; print_nibbles n (u64 (Z.shiftl x 4))
  end.
Definition printptr (x : Z) : K S unit := putc 48;; putc 120;; print_nibbles 16 x.
End digits.

(** [kernel/printf.c]: [xx] is a [long long]; the negation of the least one overflows. *)
Definition printint (xx base : Z) (sign : bool) : K S unit :=
  let neg := sign && (xx <? 0) in
  if neg && (xx =? - 2 ^ 63) then undefined "negation" else
  print_digits DIGITS neg (if neg then - xx else u64 xx) base.

(** [user/printf.c]: [xx] is an [int]. *)
Definition uprintint (xx base : Z) (sgn : bool) : K S unit :=
  let neg := sgn && (xx <? 0) in
  if neg && (xx =? - 2 ^ 31) then undefined "negation" else
  print_digits UDIGITS neg (if neg then - xx else u32 xx) base.

(** [fmt[i] & 0xff] *)
Definition char_at (fmt : list Z) (i : nat) : K S Z :=
  match fmt !! i with
  | Some c => mret (u8 c)
  | None => if (i =? length fmt)%nat then mret 0 else undefined "fmt"
  end.
Definition va_int (args : list arg) : K S (Z * list arg) :=
  match args with AInt x :: args => mret (x, args) | _ => undefined "va_arg" end.
Definition va_u64 (args : list arg) : K S (Z * list arg) :=
  match args with AU64 x :: args => mret (x, args) | _ => undefined "va_arg" end.
Definition va_str (args : list arg) : K S (option (list Z) * list arg) :=
  match args with AStr x :: args => mret (x, args) | _ => undefined "va_arg" end.

(** The cases of both functions: the number of characters after [c0] that the
    directive has, and the arguments left. *)
Definition directive (pint : Z → Z → bool → K S unit) (conv : Z → Z) (digits : list Z) (c0 c1 c2 : Z) (args : list arg) : K S (nat * list arg) :=
  if c0 =? Cd then '(x, args) ← va_int args; pint x 10 true;; mret (0%nat, args)
  else if (c0 =? Cl) && (c1 =? Cd) then '(x, args) ← va_u64 args; pint (conv x) 10 true;; mret (1%nat, args)
  else if (c0 =? Cl) && (c1 =? Cl) && (c2 =? Cd) then '(x, args) ← va_u64 args; pint (conv x) 10 true;; mret (2%nat, args)
  else if c0 =? Cu then '(x, args) ← va_int args; pint x 10 false;; mret (0%nat, args)
  else if (c0 =? Cl) && (c1 =? Cu) then '(x, args) ← va_u64 args; pint (conv x) 10 false;; mret (1%nat, args)
  else if (c0 =? Cl) && (c1 =? Cl) && (c2 =? Cu) then '(x, args) ← va_u64 args; pint (conv x) 10 false;; mret (2%nat, args)
  else if c0 =? Cx then '(x, args) ← va_int args; pint x 16 false;; mret (0%nat, args)
  else if (c0 =? Cl) && (c1 =? Cx) then '(x, args) ← va_u64 args; pint (conv x) 16 false;; mret (1%nat, args)
  else if (c0 =? Cl) && (c1 =? Cl) && (c2 =? Cx) then '(x, args) ← va_u64 args; pint (conv x) 16 false;; mret (2%nat, args)
  else if c0 =? Cp then '(x, args) ← va_u64 args; printptr digits x;; mret (0%nat, args)
  else if c0 =? Cs then '(s, args) ← va_str args; emits (default NULLSTR s);; mret (0%nat, args)
  else if c0 =? PERCENT then putc PERCENT;; mret (0%nat, args)
  else putc PERCENT;; putc c0;; mret (0%nat, args).

(** [c1] and [c2], read only before the end of the format. *)
Definition lookahead (fmt : list Z) (i : nat) (c0 : Z) : K S (Z * Z) :=
  c1 ← (if c0 =? 0 then mret 0 else char_at fmt (i + 1));
  c2 ← (if c1 =? 0 then mret 0 else char_at fmt (i + 2));
  mret (c1, c2).

(** [printf] of the kernel. *)
Definition printf (fmt : list Z) (args : list arg) : K S Z :=
  while_loop (Datatypes.S (length fmt)) (0%nat, args) (λ '(i, args),
    cx ← char_at fmt i;
    if cx =? 0 then mret (inr 0)
    else if negb (cx =? PERCENT) then putc cx;; mret (inl (i + 1, args)%nat)
    else
      let i := (i + 1)%nat in
      c0 ← char_at fmt i;
      '(c1, c2) ← lookahead fmt i c0;
      if c0 =? 0 then mret (inr 0)
      else
        '(n, args) ← directive printint s64 DIGITS c0 c1 c2 args;
        mret (inl (i + n + 1, args)%nat)).

(** [vprintf] of user programs; the loop variable [state] is [%] or 0. *)
Definition vprintf (fmt : list Z) (args : list arg) : K S unit :=
  while_loop (Datatypes.S (length fmt)) (0%nat, false, args) (λ '(i, state, args),
    c0 ← char_at fmt i;
    if c0 =? 0 then mret (inr tt)
    else if negb state then
      if c0 =? PERCENT then mret (inl (i + 1, true, args)%nat)
      else putc c0;; mret (inl (i + 1, false, args)%nat)
    else
      '(c1, c2) ← lookahead fmt i c0;
      '(n, args) ← directive uprintint s32 UDIGITS c0 c1 c2 args;
      mret (inl (i + n + 1, false, args)%nat)).
End printf.

(** ** Numbers *)

(** The digits of [x] in a base, most significant first. *)
Fixpoint numeral_aux (n : nat) (base x : Z) : list Z :=
  match n with
  | O => [x]
  | S n => if x <? base then [x] else numeral_aux n base (x / base) ++ [x mod base]
  end.
Definition numeral (base x : Z) : list Z := numeral_aux 64 base x.

(** What a list of digits denotes. *)
Definition value (base : Z) (l : list Z) : Z := foldl (λ v d, v * base + d) 0 l.

Lemma value_app base l d : value base (l ++ [d]) = value base l * base + d.
Proof. unfold value. by rewrite foldl_snoc. Qed.
Lemma half_bound n base x : 2 ≤ base → 0 ≤ x < 2 ^ (Z.of_nat (S n) + 1) → 0 ≤ x / base < 2 ^ (Z.of_nat n + 1).
Proof.
  intros Hb [Hx Hx']. replace (Z.of_nat (S n) + 1) with (Z.succ (Z.of_nat n + 1)) in Hx' by lia. rewrite Z.pow_succ_r in Hx' by lia.
  split; [apply Z.div_pos; lia|]. apply Z.div_lt_upper_bound; [lia|]. nia.
Qed.
Lemma numeral_aux_spec n base x : 2 ≤ base → 0 ≤ x < 2 ^ (Z.of_nat n + 1) →
  value base (numeral_aux n base x) = x ∧ Forall (λ d, 0 ≤ d < base) (numeral_aux n base x) ∧
  (x ≠ 0 → head (numeral_aux n base x) ≠ Some 0) ∧ numeral_aux n base x ≠ [].
Proof.
  intros Hb. revert x. induction n as [|n IH]; intros x Hx; simpl numeral_aux.
  { simpl in Hx. split_and!; [done|by repeat constructor; lia|by intros ? [= ?]|done]. }
  destruct (Z.ltb_spec x base).
  { split_and!; [done|by repeat constructor; lia|by intros ? [= ?]|done]. }
  destruct (IH (x / base)) as (H1 & H2 & H3 & H4); [by apply half_bound|].
  assert (x / base ≠ 0) as Hq by (assert (0 < x / base) by (apply Z.div_str_pos; lia); lia).
  pose proof (Z.mod_pos_bound x base ltac:(lia)). split_and!.
  - rewrite value_app, H1. pose proof (Z.div_mod x base). lia.
  - apply Forall_app. split; [done|]. by repeat constructor; lia.
  - intros _. specialize (H3 Hq). by destruct (numeral_aux n base (x / base)).
  - by destruct (numeral_aux n base (x / base)).
Qed.
(** The number of digits. *)
Lemma numeral_aux_length n base x k : 2 ≤ base → 0 ≤ x < 2 ^ (Z.of_nat n + 1) →
  (length (numeral_aux n base x) ≤ S k)%nat ↔ x < base ^ (Z.of_nat k + 1).
Proof.
  intros Hb. revert x k. induction n as [|n IH]; intros x k Hx; simpl numeral_aux.
  - split; [intros _|simpl; lia]. simpl in Hx. assert (base ^ 1 ≤ base ^ (Z.of_nat k + 1)); [|lia]. apply Z.pow_le_mono_r; lia.
  - destruct (Z.ltb_spec x base).
    { split; [intros _|simpl; lia]. assert (base ^ 1 ≤ base ^ (Z.of_nat k + 1)); [|lia]. apply Z.pow_le_mono_r; lia. }
    rewrite length_app. simpl length. destruct k as [|k].
    + destruct (numeral_aux_spec n base (x / base) Hb) as (_ & _ & _ & Hne); [by apply half_bound|].
      destruct (numeral_aux n base (x / base)); [done|]. simpl. rewrite Z.pow_1_r. lia.
    + replace (length (numeral_aux n base (x / base)) + 1 ≤ S (S k))%nat with (length (numeral_aux n base (x / base)) + 1 ≤ S k + 1)%nat by (f_equal; lia).
      rewrite <-Nat.add_le_mono_r, IH by by apply half_bound.
      replace (Z.of_nat (S k) + 1) with (Z.succ (Z.of_nat k + 1)) by lia. rewrite Z.pow_succ_r by lia.
      split; intros Hlt; [pose proof (Z.mul_succ_div_gt x base ltac:(lia)); nia|apply Z.div_lt_upper_bound; lia].
Qed.

Lemma numeral_length base x k : 2 ≤ base → 0 ≤ x < 2 ^ 64 → (length (numeral base x) ≤ S k)%nat ↔ x < base ^ (Z.of_nat k + 1).
Proof. intros Hb Hx. apply (numeral_aux_length 64); lia. Qed.
#[global] Opaque numeral.

(** ** [printint] *)
Section numbers.
Context {S : Type} (putc : Z → K S unit).
Abbreviation emits := (emits putc).

Lemma emits_app l l' : emits (l ++ l') ≡ (emits l;; emits l').
Proof using Type.
  induction l as [|c l IH]; simpl; [done|]. rewrite K_bind_assoc. apply K_bind_proper; [intros _; apply IH|done].
Qed.

(** The loop that makes the digits. *)
Definition digit_loop (digits : list Z) (base : Z) (fuel : nat) (buf : list Z) (x : Z) : K S (list Z) :=
  while_loop fuel (buf, x) (λ '(buf, x),
    buf ← put_buf buf (digit digits (x mod base));
    let x := x / base in
    mret (if x =? 0 then inr buf else inl (buf, x))).
Lemma digit_loop_step digits base fuel buf x :
  digit_loop digits base (Datatypes.S fuel) buf x ≡
    if (length buf <? 16)%nat then
      let buf := buf ++ [digit digits (x mod base)] in
      if x / base =? 0 then mret buf else digit_loop digits base fuel buf (x / base)
    else undefined "buf".
Proof using Type.
  intros s. unfold digit_loop, put_buf. simpl. destruct (length buf <? 16)%nat; [|done].
  unfold mbind, K_bind, mret, K_ret. by destruct (x / base =? 0).
Qed.
Lemma digit_loop_spec digits base n fuel buf x : 2 ≤ base → 0 ≤ x < 2 ^ (Z.of_nat n + 1) → (n < fuel)%nat →
  digit_loop digits base fuel buf x ≡
    if decide (length buf + length (numeral_aux n base x) ≤ 16)%nat then mret (buf ++ (digit digits <$> reverse (numeral_aux n base x)))
    else undefined "buf".
Proof using Type.
  intros Hb. revert fuel buf x. induction n as [|n IH]; intros fuel buf x Hx Hf; (destruct fuel as [|fuel]; [lia|]); rewrite digit_loop_step;
    destruct (Nat.ltb_spec (length buf) 16) as [Hl|Hl]; cbn [numeral_aux]; cbv zeta.
  - simpl in Hx. rewrite (Z.div_small x base), (Z.mod_small x base) by lia. by rewrite decide_True by (simpl; lia).
  - by rewrite decide_False by (simpl; lia).
  - destruct (Z.ltb_spec x base) as [Hxb|Hxb].
    + rewrite (Z.div_small x base), (Z.mod_small x base) by lia. by rewrite decide_True by (simpl; lia).
    + assert (0 < x / base) by (apply Z.div_str_pos; lia). rewrite (proj2 (Z.eqb_neq _ 0)) by lia.
      rewrite IH; [|by apply half_bound|lia]. rewrite !length_app, reverse_app, fmap_app, <-app_assoc. simpl length.
      destruct (decide _), (decide _); [done|lia|lia|done].
  - rewrite decide_False; [done|]. destruct (x <? base); rewrite ?length_app; simpl; lia.
Qed.

(** What [printint] prints: the sign and the digits, if they fit into [buf]. *)
Definition shown (digits : list Z) (neg : bool) (base x : Z) : list Z :=
  (if neg then [MINUS] else []) ++ (digit digits <$> numeral base x).
Lemma print_digits_spec digits neg base x : 2 ≤ base → 0 ≤ x < 2 ^ 64 →
  print_digits putc digits neg x base ≡
    if decide (length (shown digits neg base x) ≤ 16)%nat then emits (shown digits neg base x) else undefined "buf".
Proof using Type.
  intros Hb Hx. unfold print_digits. change (to_digits digits x base) with (digit_loop digits base 65 [] x).
  rewrite (digit_loop_spec _ _ 64) by (lia || done). change (numeral_aux 64 base x) with (numeral base x). unfold shown. rewrite length_app, length_fmap. simpl (length [] + _)%nat.
  case_decide as H1; [rewrite K_ret_bind|by rewrite decide_False by (destruct neg; simpl; lia)].
  rewrite app_nil_l, fmap_reverse. destruct neg; simpl length.
  - unfold put_buf. rewrite length_reverse, length_fmap. destruct (Nat.ltb_spec (length (numeral base x)) 16).
    + rewrite decide_True by lia. rewrite K_ret_bind, reverse_snoc, reverse_involutive. done.
    + by rewrite decide_False by lia.
  - rewrite decide_True by lia. by rewrite K_ret_bind, reverse_involutive.
Qed.
End numbers.

(** [printint] of the kernel, on every [long long]: it prints a minus sign for a
    negative number that is to be signed, and then the digits that denote the
    number, without leading zeros; when that takes more than the 16 characters
    of its buffer, it writes outside of the buffer.  In base 10 that is so from
    10^16 on, and from -10^15 down. *)
Theorem printint_prints {S : Type} (putc : Z → K S unit) xx base sign :
  2 ≤ base ≤ 16 → - 2 ^ 63 < xx < 2 ^ 63 →
  let neg := sign && (xx <? 0) in
  let x := if neg then - xx else u64 xx in
  ∃ l, value base l = x ∧ Forall (λ d, 0 ≤ d < base) l ∧ l ≠ [] ∧ (x ≠ 0 → head l ≠ Some 0) ∧
    (∀ s, x < base ^ (if neg then 15 else 16) →
      printint putc xx base sign s = emits putc ((if neg then [MINUS] else []) ++ (digit DIGITS <$> l)) s) ∧
    (∀ s, base ^ (if neg then 15 else 16) ≤ x → printint putc xx base sign s = UB "buf").
Proof.
  intros Hb Hx neg x. assert (0 ≤ x < 2 ^ 64) as Hx64.
  { unfold x, neg. destruct (sign && (xx <? 0)) eqn:E; [apply andb_prop in E as [_ ?%Z.ltb_lt]; lia|]. apply wrap_range. lia. }
  destruct (numeral_aux_spec 64 base x) as (H1 & H2 & H3 & H4); [lia|lia|]. change (numeral_aux 64 base x) with (numeral base x) in *.
  assert (printint putc xx base sign ≡ print_digits putc DIGITS neg x base) as Hp.
  { unfold printint. fold neg. fold x. destruct (Z.eqb_spec xx (- 2 ^ 63)); [lia|]. by rewrite andb_false_r. }
  assert ((length (shown DIGITS neg base x) ≤ 16)%nat ↔ x < base ^ (if neg then 15 else 16)) as Hlen.
  { unfold shown. rewrite length_app, length_fmap. destruct neg; cbn [length].
    - change 15 with (Z.of_nat 14 + 1). rewrite <-numeral_length by lia. lia.
    - change 16 with (Z.of_nat 15 + 1). rewrite <-numeral_length by lia. done. }
  exists (numeral base x). split_and!; try done; intros s Hs; rewrite Hp, print_digits_spec by lia.
  - rewrite decide_True by by apply Hlen. done.
  - rewrite decide_False; [done|]. rewrite Hlen. lia.
Qed.

Lemma printint_prints_witness :
  ∃ l, value 10 l = 2024 ∧ printint (S := list Z) (λ c, modify (λ o, o ++ [c])) (-2024) 10 true [] =
    emits (λ c, modify (λ o, o ++ [c])) ([MINUS] ++ (digit DIGITS <$> l)) [].
Proof.
  destruct (printint_prints (S := list Z) (λ c, modify (λ o, o ++ [c])) (-2024) 10 true) as (l & Hv & _ & _ & _ & Hp & _); [lia|lia|].
  exists l. split; [exact Hv|]. apply Hp. by vm_compute.
Defined.

(** ** Formats *)
Inductive width := W | L | LL.
Inductive piece :=
  | Lit (c : Z)
  | Num (w : width) (conv : Z)      (** [conv] is one of d, u, x *)
  | Ptr
  | Str
  | Percent
  | Unknown (c : Z).

Definition wf_piece (p : piece) : Prop :=
  match p with
  | Lit c => 0 < c < 256 ∧ c ≠ PERCENT
  | Num _ c => c = Cd ∨ c = Cu ∨ c = Cx
  | Unknown c => 0 < c < 256 ∧ c ∉ [Cd; Cu; Cx; Cl; Cp; Cs; PERCENT]
  | _ => True
  end.
Definition format_of (p : piece) : list Z :=
  match p with
  | Lit c => [c]
  | Num W c => [PERCENT; c]
  | Num L c => [PERCENT; Cl; c]
  | Num LL c => [PERCENT; Cl; Cl; c]
  | Ptr => [PERCENT; Cp]
  | Str => [PERCENT; Cs]
  | Percent => [PERCENT; PERCENT]
  | Unknown c => [PERCENT; c]
  end.

(** All 64 bits of an address. *)
Definition hex64 (digits : list Z) (x : Z) : list Z := (λ k, digit digits ((x / 16 ^ (15 - k)) mod 16)) <$> seqZ 0 16.

(** What a piece shows, given how a number is shown, and the arguments left. *)
Section render.
Context (num : Z → Z → bool → option (list Z)) (conv : Z → Z) (digits : list Z).
Definition base_of (c : Z) : Z := if c =? Cx then 16 else 10.
Definition render_piece (p : piece) (args : list arg) : option (list Z * list arg) :=
  match p, args with
  | Lit c, _ => Some ([c], args)
  | Num W c, AInt x :: args => (λ l, (l, args)) <$> num x (base_of c) (c =? Cd)
  | Num (L | LL) c, AU64 x :: args => (λ l, (l, args)) <$> num (conv x) (base_of c) (c =? Cd)
  | Ptr, AU64 x :: args => if (0 <=? x) && (x <? 2 ^ 64) then Some ([48; 120] ++ hex64 digits x, args) else None
  | Str, AStr s :: args => Some (default NULLSTR s, args)
  | Percent, _ => Some ([PERCENT], args)
  | Unknown c, _ => Some ([PERCENT; c], args)
  | _, _ => None
  end.
Fixpoint render (ps : list piece) (args : list arg) : option (list Z) :=
  match ps with
  | [] => Some []
  | p :: ps => '(l, args) ← render_piece p args; l' ← render ps args; Some (l ++ l')
  end.
End render.

Section formats.
Context {S : Type} (putc : Z → K S unit).

Lemma nibble x k : 0 ≤ x < 2 ^ 64 → 0 ≤ k ≤ 15 → Z.shiftr (u64 (x * 16 ^ k)) 60 = (x / 16 ^ (15 - k)) mod 16.
Proof using Type.
  clear. intros Hx Hk. rewrite Z.shiftr_div_pow2 by lia. unfold u64, wrap. change (2 ^ 64) with (16 ^ 15 * 16). change (2 ^ 60) with (16 ^ 15).
  rewrite Z.rem_mul_r by lia. rewrite (Z.mul_comm (16 ^ 15)), Z.div_add by lia. rewrite (Z.div_small (_ mod _)) by (apply Z.mod_pos_bound; lia).
  rewrite Z.add_0_l. f_equal. replace 15 with (15 - k + k) at 1 by lia. rewrite Z.pow_add_r by lia. apply Z.div_mul_cancel_r; lia.
Qed.
Lemma print_nibbles_spec digits x n k : 0 ≤ x < 2 ^ 64 → 0 ≤ k → Z.of_nat n + k = 16 →
  print_nibbles putc digits n (u64 (x * 16 ^ k)) ≡ emits putc ((λ k, digit digits ((x / 16 ^ (15 - k)) mod 16)) <$> seqZ k (Z.of_nat n)).
Proof using Type.
  intros Hx. revert k. induction n as [|n IH]; intros k Hk Hn; [done|].
  rewrite seqZ_cons by lia. cbn [print_nibbles fmap list_fmap emits]. rewrite nibble by lia. apply K_bind_proper; [intros _|done].
  replace (Z.pred (Z.of_nat (Datatypes.S n))) with (Z.of_nat n) by lia. rewrite <-IH by lia.
  assert (u64 (Z.shiftl (u64 (x * 16 ^ k)) 4) = u64 (x * 16 ^ (k + 1))) as ->; [|done].
  rewrite Z.shiftl_mul_pow2 by lia. unfold u64, wrap. rewrite Z.mul_mod_idemp_l by lia. rewrite Z.pow_add_r by lia. f_equal. lia.
Qed.
Lemma printptr_spec digits x : 0 ≤ x < 2 ^ 64 → printptr putc digits x ≡ emits putc ([48; 120] ++ hex64 digits x).
Proof using Type.
  intros Hx. unfold printptr. cbn [emits app]. do 2 (apply K_bind_proper; [intros _|done]). unfold hex64.
  rewrite <-(print_nibbles_spec _ _ 16 0) by lia. rewrite Z.mul_1_r. unfold u64. by rewrite wrap_small.
Qed.

Section directive.
Context (num : Z → Z → bool → option (list Z)) (conv : Z → Z) (digits : list Z) (pint : Z → Z → bool → K S unit).
Context (Hnum : ∀ x b sg l, num x b sg = Some l → b = 10 ∨ b = 16 → pint x b sg ≡ emits putc l).

(** The characters of a directive after the percent sign. *)
Definition directive_chars (p : piece) (c0 c1 c2 : Z) : Prop :=
  match drop 1 (format_of p) with
  | [c] => c0 = c
  | [c; d] => c0 = c ∧ c1 = d
  | [c; d; e] => c0 = c ∧ c1 = d ∧ c2 = e
  | _ => False
  end.
Lemma directive_spec p args l args' c0 c1 c2 : wf_piece p → render_piece num conv digits p args = Some (l, args') →
  directive_chars p c0 c1 c2 →
  directive putc pint conv digits c0 c1 c2 args ≡ (emits putc l;; mret (length (format_of p) - 2, args')%nat).
Proof using Hnum.
  intros Hwf Hr Hc. destruct p as [c|w c| | | |c]; unfold directive_chars in Hc; simpl in Hc.
  - done.
  - assert (base_of c = 10 ∨ base_of c = 16) as Hb by (unfold base_of; destruct (c =? Cx); auto).
    destruct w; simpl in Hr, Hc; [destruct args as [|[x| |] args]|destruct args as [|[|x|] args]..]; try done;
      (destruct (num _ _ _) as [l'|] eqn:En; [|done]); simplify_eq/=; apply (Hnum _ _ _ _ En) in Hb; destruct_and?; subst;
      destruct Hwf as [->|[-> | ->]]; apply (K_bind_proper _ _ (λ _, reflexivity _) _ _ Hb).
  - subst c0. destruct args as [|[|x|] args]; try done. simpl in Hr. destruct ((0 <=? x) && (x <? 2 ^ 64)) eqn:E; [|done].
    apply andb_prop in E as [E1%Z.leb_le E2%Z.ltb_lt]. simplify_eq. apply (K_bind_proper _ _ (λ _, reflexivity _) _ _ (printptr_spec digits x (conj E1 E2))).
  - subst c0. destruct args as [|[| |x] args]; try done. simpl in Hr. by simplify_eq.
  - subst c0. simpl in Hr. simplify_eq. intros s. unfold directive. simpl. unfold mbind, K_bind. by destruct (putc PERCENT s) as [[[] s']| | | |].
  - subst c0. simpl in Hr. simplify_eq. destruct Hwf as [_ Hni]. unfold directive.
    rewrite !not_elem_of_cons in Hni. destruct Hni as (N1 & N2 & N3 & N4 & N5 & N6 & N7 & _).
    apply Z.eqb_neq in N1, N2, N3, N4, N5, N6, N7. rewrite N1, N2, N3, N4, N5, N6, N7. intros s. simpl. unfold mbind, K_bind.
    destruct (putc PERCENT s) as [[[] s']| | | |]; [|done..]. by destruct (putc c s') as [[[] s'']| | | |].
Qed.
End directive.

(** Characters of a format. *)
Lemma char_at_lt fmt i c : fmt !! i = Some c → 0 < c < 256 → char_at (S := S) fmt i ≡ mret c.
Proof using Type. clear. intros H Hc. unfold char_at. rewrite H. unfold u8. by rewrite wrap_small by lia. Qed.
Lemma char_at_end fmt i : i = length fmt → char_at (S := S) fmt i ≡ mret 0.
Proof using Type.
  clear. intros ->. unfold char_at. rewrite lookup_ge_None_2 by lia. by rewrite Nat.eqb_refl.
Qed.
Definition clean (fmt : list Z) : Prop := Forall (λ c, 0 < c < 256) fmt.
Lemma char_at_cases fmt i : clean fmt → (i ≤ length fmt)%nat → ∃ c, char_at (S := S) fmt i ≡ mret c ∧ (c = 0 ↔ i = length fmt) ∧
  ∀ d, fmt !! i = Some d → c = d.
Proof using Type.
  clear. intros Hf Hi. destruct (decide (i = length fmt)) as [E|E].
  - exists 0. split; [by apply char_at_end|]. split; [done|]. intros d Hd%lookup_lt_Some. lia.
  - destruct (lookup_lt_is_Some_2 fmt i) as [c Hc]; [lia|]. exists c. pose proof (Forall_lookup_1 _ _ _ _ Hf Hc) as Hr. simpl in Hr.
    split; [by apply char_at_lt|]. split; [lia|]. intros d. rewrite Hc. by intros [= ->].
Qed.
Lemma lookahead_spec fmt i c0 : clean fmt → (i < length fmt)%nat → c0 ≠ 0 → ∃ c1 c2, lookahead (S := S) fmt i c0 ≡ mret (c1, c2) ∧
  (∀ d, fmt !! (i + 1)%nat = Some d → c1 = d) ∧ (∀ d, fmt !! (i + 2)%nat = Some d → c2 = d).
Proof using Type.
  clear. intros Hf Hi H0. unfold lookahead. rewrite (proj2 (Z.eqb_neq c0 0)) by done.
  destruct (char_at_cases fmt (i + 1) Hf) as (c1 & E1 & Hz1 & Hd1); [lia|]. exists c1.
  destruct (Z.eqb_spec c1 0) as [->|Hne].
  - exists 0. split; [rewrite E1, !K_ret_bind; done|]. split; [done|]. intros d Hd%lookup_lt_Some. assert (i + 1 = length fmt)%nat by (by apply Hz1). lia.
  - destruct (char_at_cases fmt (i + 2) Hf) as (c2 & E2 & _ & Hd2).
    { assert (i + 1 ≠ length fmt)%nat by (intros E; by apply Hne, Hz1). lia. }
    exists c2. split; [|done]. rewrite E1, K_ret_bind, (proj2 (Z.eqb_neq c1 0)), E2 by done. done.
Qed.
Lemma format_clean p : wf_piece p → clean (format_of p).
Proof using Type.
  clear. destruct p as [c|w c| | | |c]; simpl; [intros [? _]|intros [->|[-> | ->]]; destruct w|intros _..|intros [? _]]; unfold clean; rewrite ?Forall_cons, Forall_nil;
    unfold PERCENT, Cd, Cl, Cu, Cx, Cp, Cs in *; split_and?; (done || lia).
Qed.
(** The characters that [lookahead] sees after the percent sign of a piece. *)
Lemma directive_seen pre p rest c0 c1 c2 : wf_piece p → (∀ c, p ≠ Lit c) →
  let fmt := pre ++ format_of p ++ rest in let i := (length pre + 1)%nat in
  (∀ d, fmt !! i = Some d → c0 = d) → (∀ d, fmt !! (i + 1)%nat = Some d → c1 = d) → (∀ d, fmt !! (i + 2)%nat = Some d → c2 = d) →
  directive_chars p c0 c1 c2.
Proof using Type.
  clear. intros Hwf Hl fmt i H0 H1 H2.
  assert (∀ k d, format_of p !! k = Some d → fmt !! (length pre + k)%nat = Some d) as Hk.
  { intros k d Hd. unfold fmt. rewrite lookup_app_r by lia. replace (length pre + k - length pre)%nat with k by lia.
    rewrite lookup_app_l; [done|]. by apply lookup_lt_Some in Hd. }
  unfold directive_chars, i in *. replace (length pre + 1 + 1)%nat with (length pre + 2)%nat in * by lia.
  replace (length pre + 1 + 2)%nat with (length pre + 3)%nat in * by lia.
  destruct p as [c|[] c| | | |c]; simpl; try (by destruct (Hl c)); split_and?; auto.
Qed.

Definition is_Lit (p : piece) : Prop := ∃ c, p = Lit c.
#[local] Instance is_Lit_dec p : Decision (is_Lit p).
Proof using Type. clear. destruct p as [c| | | | |]; [by left; exists c|right; by intros []..]. Defined.

(** The format of a list of pieces. *)
Definition format (ps : list piece) : list Z := mjoin (format_of <$> ps).
Lemma format_all_clean ps : Forall wf_piece ps → clean (format ps).
Proof using Type.
  clear. induction 1 as [|p ps Hp _ IH]; [constructor|]. apply Forall_app. split; [by apply format_clean|done].
Qed.
Lemma directive_format p : wf_piece p → (∀ c, p ≠ Lit c) → ∃ f l, format_of p = PERCENT :: f :: l ∧ f ≠ 0 ∧ 0 < f < 256.
Proof using Type.
  clear. destruct p as [d|[] d| | | |d]; simpl; intros Hwf Hl; try (by destruct (Hl d)); eexists _, _; (split; [done|]);
    unfold Cd, Cl, Cu, Cx, Cp, Cs, PERCENT in *; lia.
Qed.

Definition printf_body (fmt : list Z) : nat * list arg → K S ((nat * list arg) + Z) := λ '(i, args),
    cx ← char_at fmt i;
    if cx =? 0 then mret (inr 0)
    else if negb (cx =? PERCENT) then putc cx;; mret (inl (i + 1, args)%nat)
    else
      let i := (i + 1)%nat in
      c0 ← char_at fmt i;
      '(c1, c2) ← lookahead fmt i c0;
      if c0 =? 0 then mret (inr 0)
      else
        '(n, args) ← directive putc (printint putc) s64 DIGITS c0 c1 c2 args;
        mret (inl (i + n + 1, args)%nat).

Section loop.
Context (num : Z → Z → bool → option (list Z)).
Context (Hnum : ∀ x b sg l, num x b sg = Some l → b = 10 ∨ b = 16 → printint putc x b sg ≡ emits putc l).
(** One piece of the format. *)
Lemma printf_piece pre p rest args l args' : wf_piece p → clean (pre ++ format_of p ++ rest) →
  render_piece num s64 DIGITS p args = Some (l, args') →
  printf_body (pre ++ format_of p ++ rest) (length pre, args) ≡ (emits putc l;; mret (inl (length (pre ++ format_of p), args'))).
Proof using Hnum.
  intros Hwf Hcl Hr. set (fmt := pre ++ format_of p ++ rest) in *.
  assert (∀ k d, format_of p !! k = Some d → fmt !! (length pre + k)%nat = Some d) as Hk.
  { intros k d Hd. unfold fmt. rewrite lookup_app_r by lia. replace (length pre + k - length pre)%nat with k by lia.
    rewrite lookup_app_l; [done|]. by apply lookup_lt_Some in Hd. }
  assert (∀ k d, format_of p !! k = Some d → 0 < d < 256) as Hrng by (intros k d Hd; apply (Forall_lookup_1 _ _ _ _ Hcl (Hk _ _ Hd))).
  unfold printf_body. destruct (decide (is_Lit p)) as [[c ->]|Hl].
  - destruct Hwf as [Hc HP]. simpl in Hr. simplify_eq. rewrite (char_at_lt fmt (length pre) c); [|rewrite <-(Nat.add_0_r (length pre)); by apply Hk|done].
    rewrite K_ret_bind, (proj2 (Z.eqb_neq c 0)), (proj2 (Z.eqb_neq c PERCENT)) by lia. simpl. rewrite K_bind_assoc.
    rewrite length_app. done.
  - destruct (directive_format p Hwf) as (f & tl & Ef & Hf0 & Hf); [intros c ->; apply Hl; by exists c|].
    rewrite (char_at_lt fmt (length pre) PERCENT) by (done || (rewrite <-(Nat.add_0_r (length pre)); apply Hk; by rewrite Ef)).
    rewrite K_ret_bind. change (PERCENT =? 0) with false. rewrite Z.eqb_refl. cbv zeta. cbn [negb].
    assert (fmt !! (length pre + 1)%nat = Some f) as H1 by (apply Hk; by rewrite Ef).
    rewrite (char_at_lt _ _ f H1 Hf), K_ret_bind.
    destruct (lookahead_spec fmt (length pre + 1) f Hcl) as (c1 & c2 & -> & Hc1 & Hc2); [by apply lookup_lt_Some in H1|done|].
    rewrite K_ret_bind, (proj2 (Z.eqb_neq f 0)) by done.
    rewrite (directive_spec num s64 DIGITS (printint putc) Hnum p args l args' f c1 c2 Hwf Hr).
    2: { apply (directive_seen pre p rest); try done; [intros c ->; apply Hl; by exists c|]. intros d. fold fmt. rewrite H1. by intros [= ->]. }
    rewrite K_bind_assoc. apply K_bind_proper; [intros _|done]. rewrite K_ret_bind. rewrite length_app, Ef. simpl.
    replace (length pre + 1 + (length tl - 0) + 1)%nat with (length pre + Datatypes.S (Datatypes.S (length tl)))%nat by lia. done.
Qed.
Lemma printf_loop fuel pre ps args out : Forall wf_piece ps → clean pre → render num s64 DIGITS ps args = Some out →
  (length (format ps) < fuel)%nat →
  while_loop fuel (length pre, args) (printf_body (pre ++ format ps)) ≡ (emits putc out;; mret 0).
Proof using Hnum.
  intros Hps. revert fuel pre args out. induction Hps as [|p ps Hp Hps IH]; intros fuel pre args out Hpre Hr Hf.
  - injection Hr as <-. destruct fuel as [|fuel]; [simpl in Hf; lia|]. rewrite app_nil_r. cbn [while_loop]. 
    assert (printf_body pre (length pre, args) ≡ mret (inr 0)) as -> by (unfold printf_body; cbv beta iota; by rewrite (char_at_end pre (length pre) eq_refl)). done.
  - simpl in Hr. destruct (render_piece num s64 DIGITS p args) as [[l args']|] eqn:E1; [|done]. simpl in Hr.
    destruct (render num s64 DIGITS ps args') as [l'|] eqn:E2; [|done]. injection Hr as <-.
    change (format (p :: ps)) with (format_of p ++ format ps) in *. rewrite length_app in Hf.
    assert (0 < length (format_of p))%nat as Hlen by (destruct p as [|[]| | | |]; simpl; lia).
    assert (clean (pre ++ format_of p)) as Hpre' by (apply Forall_app; split; [done|by apply format_clean]).
    destruct fuel as [|fuel]; [lia|]. cbn [while_loop]. rewrite (printf_piece pre p (format ps) args l args' Hp); [| |done].
    2: { apply Forall_app; split; [done|]. apply Forall_app; split; [by apply format_clean|by apply format_all_clean]. }
    rewrite K_bind_assoc, emits_app, K_bind_assoc. apply K_bind_proper; [intros _|done]. rewrite K_ret_bind.
    rewrite app_assoc. apply IH; [done|done|lia].
Qed.
End loop.

(** ** [vprintf] *)
Definition vprintf_body (fmt : list Z) : nat * bool * list arg → K S ((nat * bool * list arg) + unit) := λ '(i, state, args),
    c0 ← char_at fmt i;
    if c0 =? 0 then mret (inr tt)
    else if negb state then
      if c0 =? PERCENT then mret (inl (i + 1, true, args)%nat)
      else putc c0;; mret (inl (i + 1, false, args)%nat)
    else
      '(c1, c2) ← lookahead fmt i c0;
      '(n, args) ← directive putc (uprintint putc) s32 UDIGITS c0 c1 c2 args;
      mret (inl (i + n + 1, false, args)%nat).
Section vloop.
Context (num : Z → Z → bool → option (list Z)).
Context (Hnum : ∀ x b sg l, num x b sg = Some l → b = 10 ∨ b = 16 → uprintint putc x b sg ≡ emits putc l).
(** A piece takes one turn of the loop, or two. *)
Lemma vprintf_piece pre p rest args l args' : wf_piece p → clean (pre ++ format_of p ++ rest) →
  render_piece num s32 UDIGITS p args = Some (l, args') →
  let body := vprintf_body (pre ++ format_of p ++ rest) in
  if decide (is_Lit p) then body (length pre, false, args) ≡ (emits putc l;; mret (inl (length (pre ++ format_of p), false, args')))
  else body (length pre, false, args) ≡ mret (inl (length pre + 1, true, args)%nat) ∧
       body (length pre + 1, true, args)%nat ≡ (emits putc l;; mret (inl (length (pre ++ format_of p), false, args'))).
Proof using Hnum.
  intros Hwf Hcl Hr. set (fmt := pre ++ format_of p ++ rest) in *. cbv zeta.
  assert (∀ k d, format_of p !! k = Some d → fmt !! (length pre + k)%nat = Some d) as Hk.
  { intros k d Hd. unfold fmt. rewrite lookup_app_r by lia. replace (length pre + k - length pre)%nat with k by lia.
    rewrite lookup_app_l; [done|]. by apply lookup_lt_Some in Hd. }
  unfold vprintf_body. destruct (decide (is_Lit p)) as [[c ->]|Hl].
  - destruct Hwf as [Hc HP]. simpl in Hr. simplify_eq. rewrite (char_at_lt fmt (length pre) c); [|rewrite <-(Nat.add_0_r (length pre)); by apply Hk|done].
    rewrite K_ret_bind, (proj2 (Z.eqb_neq c 0)), (proj2 (Z.eqb_neq c PERCENT)) by lia. simpl. rewrite K_bind_assoc.
    rewrite length_app. done.
  - destruct (directive_format p Hwf) as (f & tl & Ef & Hf0 & Hf); [intros c ->; apply Hl; by exists c|].
    rewrite (char_at_lt fmt (length pre) PERCENT) by (done || (rewrite <-(Nat.add_0_r (length pre)); apply Hk; by rewrite Ef)).
    assert (fmt !! (length pre + 1)%nat = Some f) as H1 by (apply Hk; by rewrite Ef). split; [done|].
    rewrite (char_at_lt _ _ f H1 Hf), K_ret_bind, (proj2 (Z.eqb_neq f 0)) by done. cbn [negb].
    destruct (lookahead_spec fmt (length pre + 1) f Hcl) as (c1 & c2 & -> & Hc1 & Hc2); [by apply lookup_lt_Some in H1|done|].
    rewrite K_ret_bind. rewrite (directive_spec num s32 UDIGITS (uprintint putc) Hnum p args l args' f c1 c2 Hwf Hr).
    2: { apply (directive_seen pre p rest); try done; [intros c ->; apply Hl; by exists c|]. intros d. fold fmt. rewrite H1. by intros [= ->]. }
    rewrite K_bind_assoc. apply K_bind_proper; [intros _|done]. rewrite K_ret_bind. rewrite length_app, Ef. simpl.
    replace (length pre + 1 + (length tl - 0) + 1)%nat with (length pre + Datatypes.S (Datatypes.S (length tl)))%nat by lia. done.
Qed.
Lemma vprintf_loop fuel pre ps args out : Forall wf_piece ps → clean pre → render num s32 UDIGITS ps args = Some out →
  (length (format ps) < fuel)%nat →
  while_loop fuel (length pre, false, args) (vprintf_body (pre ++ format ps)) ≡ emits putc out.
Proof using Hnum.
  intros Hps. revert fuel pre args out. induction Hps as [|p ps Hp Hps IH]; intros fuel pre args out Hpre Hr Hf.
  - injection Hr as <-. destruct fuel as [|fuel]; [simpl in Hf; lia|]. rewrite app_nil_r. cbn [while_loop]. 
    assert (vprintf_body pre (length pre, false, args) ≡ mret (inr tt)) as -> by (unfold vprintf_body; cbv beta iota; by rewrite (char_at_end pre (length pre) eq_refl)). done.
  - simpl in Hr. destruct (render_piece num s32 UDIGITS p args) as [[l args']|] eqn:E1; [|done]. simpl in Hr.
    destruct (render num s32 UDIGITS ps args') as [l'|] eqn:E2; [|done]. injection Hr as <-.
    change (format (p :: ps)) with (format_of p ++ format ps) in *. rewrite length_app in Hf.
    assert (clean (pre ++ format_of p)) as Hpre' by (apply Forall_app; split; [done|by apply format_clean]).
    pose proof (vprintf_piece pre p (format ps) args l args' Hp) as Hpiece. rewrite emits_app.
    destruct (decide (is_Lit p)) as [[c ->]|Hl]; [|assert (2 ≤ length (format_of p))%nat as Hlen by (destruct p as [c|[]| | | |]; simpl; try lia; destruct Hl; by exists c)].
    + destruct fuel as [|fuel]; [lia|]. cbn [while_loop]. rewrite Hpiece; [| |done].
      2: { apply Forall_app; split; [done|]. apply Forall_app; split; [by apply format_clean|by apply format_all_clean]. }
      rewrite K_bind_assoc. apply K_bind_proper; [intros _|done]. rewrite K_ret_bind, app_assoc. apply IH; [done|done|simpl in Hf; lia].
    + destruct fuel as [|[|fuel]]; [lia..|]. destruct Hpiece as [Hp1 Hp2]; [|done|].
      { apply Forall_app; split; [done|]. apply Forall_app; split; [by apply format_clean|by apply format_all_clean]. }
      cbn [while_loop]. rewrite Hp1, K_ret_bind, Hp2, K_bind_assoc. apply K_bind_proper; [intros _|done].
      rewrite K_ret_bind, app_assoc. apply IH; [done|done|lia].
Qed.
End vloop.
End formats.

(** How the two versions show a number; [None] where the code is undefined. *)
Definition knum (x base : Z) (sign : bool) : option (list Z) :=
  let neg := sign && (x <? 0) in
  let l := shown DIGITS neg base (if neg then - x else u64 x) in
  if decide ((- 2 ^ 63 ≤ x < 2 ^ 63 ∧ (sign = true → x ≠ - 2 ^ 63)) ∧ (length l ≤ 16)%nat) then Some l else None.
Definition unum (x base : Z) (sign : bool) : option (list Z) :=
  let neg := sign && (x <? 0) in
  if decide (- 2 ^ 31 ≤ x < 2 ^ 31 ∧ (sign = true → x ≠ - 2 ^ 31)) then Some (shown UDIGITS neg base (if neg then - x else u32 x)) else None.

(** ** What a format asks for

    The number that a directive stands for is a matter of its letters only: [%d]
    the [int], [%u] and [%x] the [unsigned int], and with [l] or [ll] the [long]
    and the [unsigned long], all 64 bits of it. *)
Definition denotes (w : width) (c x : Z) : Z :=
  match w with
  | W => if c =? Cd then s32 x else u32 x
  | L | LL => if c =? Cd then s64 x else u64 x
  end.

(** A number in its base: a minus sign if it is negative and its numeral. *)
Definition written (digits : list Z) (base v : Z) : list Z := shown digits (v <? 0) base (Z.abs v).

Fixpoint asked (digits : list Z) (ps : list piece) (args : list arg) : option (list Z) :=
  match ps, args with
  | [], _ => Some []
  | Lit c :: ps, _ => (λ l, c :: l) <$> asked digits ps args
  | Percent :: ps, _ => (λ l, PERCENT :: l) <$> asked digits ps args
  | Unknown c :: ps, _ => (λ l, PERCENT :: c :: l) <$> asked digits ps args
  | Num W c :: ps, AInt x :: args => (λ l, written digits (base_of c) (denotes W c x) ++ l) <$> asked digits ps args
  | Num ((L | LL) as w) c :: ps, AU64 x :: args => (λ l, written digits (base_of c) (denotes w c x) ++ l) <$> asked digits ps args
  | Ptr :: ps, AU64 x :: args => if (0 <=? x) && (x <? 2 ^ 64) then (λ l, [48; 120] ++ hex64 digits x ++ l) <$> asked digits ps args else None
  | Str :: ps, AStr s :: args => (λ l, default NULLSTR s ++ l) <$> asked digits ps args
  | _, _ => None
  end.

(** The directives for numbers, each with its argument. *)
Fixpoint numbers (ps : list piece) (args : list arg) : list (width * Z * Z) :=
  match ps, args with
  | [], _ => []
  | (Lit _ | Percent | Unknown _) :: ps, _ => numbers ps args
  | Num w c :: ps, (AInt x | AU64 x) :: args => (w, c, x) :: numbers ps args
  | _ :: ps, args => numbers ps (drop 1 args)
  end.

(** The numbers that the kernel gets right: [%u] and [%x] of a negative [int] are
    widened to 64 bits, and [buf] has 16 characters. *)
Definition kernel_fits : width * Z * Z → Prop := λ '(w, c, x),
  match w with
  | W => - 2 ^ 31 ≤ x < 2 ^ 31 ∧ (c ≠ Cd → 0 ≤ x)
  | L | LL => 0 ≤ x < 2 ^ 64 ∧ (c = Cd → - 10 ^ 15 < s64 x < 10 ^ 16) ∧ (c = Cu → x < 10 ^ 16)
  end.

(** Those that user programs get right: [printint] takes an [int], of which
    [%u] and [%x] show all 32 bits, and [-xx] overflows for the least one. *)
Definition user_fits : width * Z * Z → Prop := λ '(w, c, x),
  match w with
  | W => - 2 ^ 31 ≤ x < 2 ^ 31 ∧ (c = Cd → x ≠ - 2 ^ 31)
  | L | LL => 0 ≤ x < 2 ^ 64 ∧ (c = Cd → - 2 ^ 31 < s64 x < 2 ^ 31) ∧ (c ≠ Cd → x < 2 ^ 32)
  end.

Section asked.
Context (num : Z → Z → bool → option (list Z)) (conv : Z → Z) (digits : list Z) (fits : width * Z * Z → Prop).
Context (Hint : ∀ c x, fits (W, c, x) → c = Cd ∨ c = Cu ∨ c = Cx →
  num x (base_of c) (c =? Cd) = Some (written digits (base_of c) (denotes W c x))).
Context (Hlong : ∀ w c x, w ≠ W → fits (w, c, x) → c = Cd ∨ c = Cu ∨ c = Cx →
  num (conv x) (base_of c) (c =? Cd) = Some (written digits (base_of c) (denotes w c x))).

(** Where the numbers fit, the code shows what the format asks for. *)
Lemma asked_render ps args out : Forall wf_piece ps → Forall fits (numbers ps args) →
  asked digits ps args = Some out → render num conv digits ps args = Some out.
Proof using Hint Hlong.
  intros Hps. revert args out. induction Hps as [|p ps Hp Hps IH]; intros args out Hf Ha; [done|].
  destruct p as [c|w c| | | |c]; cbn [asked numbers wf_piece] in *; cbn [render].
  1,5,6: apply fmap_Some in Ha as (l & Ha & ->); cbn [render_piece mbind option_bind]; by rewrite (IH _ _ Hf Ha).
  - destruct w; destruct args as [|[x|x|s] args]; try done; apply Forall_cons in Hf as [Hx Hf]; apply fmap_Some in Ha as (l & Ha & ->); cbn [render_piece];
      [rewrite Hint by done|rewrite (Hlong L) by done|rewrite (Hlong LL) by done]; cbn [mbind option_bind fmap option_fmap option_map]; by rewrite (IH _ _ Hf Ha).
  - destruct args as [|[x|x|s] args]; try done. cbn [render_piece]. destruct ((0 <=? x) && (x <? 2 ^ 64)); [|done].
    apply fmap_Some in Ha as (l & Ha & ->). cbn [mbind option_bind]. rewrite (IH args l Hf Ha). cbn. done.
  - destruct args as [|[x|x|s] args]; try done. apply fmap_Some in Ha as (l & Ha & ->). cbn [render_piece mbind option_bind]. by rewrite (IH args l Hf Ha).
Qed.
End asked.

Section results.
Context {S : Type} (putc : Z → K S unit).
Lemma knum_spec x b sg l : knum x b sg = Some l → b = 10 ∨ b = 16 → printint putc x b sg ≡ emits putc l.
Proof using Type.
  intros Hk Hb. unfold knum in Hk. case_decide as Hd; [|done]. injection Hk as <-. destruct Hd as [[Hx Hsg] Hlen]. unfold printint.
  assert (sg && (x <? 0) && (x =? - 2 ^ 63) = false) as ->.
  { destruct sg; [|done]. destruct (Z.eqb_spec x (- 2 ^ 63)); [by destruct Hsg|]. apply andb_false_r. }
  rewrite print_digits_spec; [by rewrite decide_True|lia|].
  destruct (sg && (x <? 0)) eqn:E; [apply andb_prop in E as [_ ?%Z.ltb_lt]; lia|]. apply wrap_range. lia.
Qed.
(** The buffer of the user version is large enough. *)
Lemma unum_spec x b sg l : unum x b sg = Some l → b = 10 ∨ b = 16 → uprintint putc x b sg ≡ emits putc l.
Proof using Type.
  intros Hk Hb. unfold unum in Hk. case_decide as Hd; [|done]. injection Hk as <-. destruct Hd as [Hx Hsg]. unfold uprintint.
  assert (sg && (x <? 0) && (x =? - 2 ^ 31) = false) as ->.
  { destruct sg; [|done]. destruct (Z.eqb_spec x (- 2 ^ 31)); [by destruct Hsg|]. apply andb_false_r. }
  assert (0 ≤ (if sg && (x <? 0) then - x else u32 x) < 2 ^ 32) as Hr.
  { destruct (sg && (x <? 0)) eqn:E; [apply andb_prop in E as [_ ?%Z.ltb_lt]; lia|]. apply wrap_range. lia. }
  rewrite print_digits_spec by lia. rewrite decide_True; [done|]. unfold shown. rewrite length_app, length_fmap.
  set (v := if sg && (x <? 0) then - x else u32 x) in *. assert (length (numeral b v) ≤ 10)%nat; [|destruct (sg && (x <? 0)); simpl length; lia].
  apply (numeral_length _ _ 9); [lia|lia|]. destruct Hb as [-> | ->]; simpl; lia.
Qed.

(** A number whose digits and sign fit into [buf]. *)
Lemma written_length digits b v : b = 10 ∨ b = 16 → - b ^ 15 < v < b ^ 16 → (length (written digits b v) ≤ 16)%nat.
Proof using Type.
  clear. intros Hb Hv. unfold written, shown. rewrite length_app, length_fmap.
  assert (b ^ 16 ≤ 2 ^ 64) by (destruct Hb as [-> | ->]; lia). assert (b ^ 15 < b ^ 16) by (destruct Hb as [-> | ->]; lia).
  destruct (Z.ltb_spec v 0); cbn [length].
  - apply le_n_S, (numeral_length _ _ 14); [lia|lia|]. change (Z.of_nat 14 + 1) with 15. lia.
  - apply (numeral_length _ _ 15); [lia|lia|]. change (Z.of_nat 15 + 1) with 16. lia.
Qed.
(** What [printint] shows of [x] is the number [v] written out. *)
Lemma knum_written x b (sg : bool) v : b = 10 ∨ b = 16 → - 2 ^ 63 ≤ x < 2 ^ 63 → - b ^ 15 < v < b ^ 16 →
  v = (if sg then x else u64 x) → knum x b sg = Some (written DIGITS b v).
Proof using Type.
  clear. intros Hb Hx Hv ->. pose proof (written_length DIGITS b _ Hb Hv) as Hl.
  assert (0 ≤ u64 x < 2 ^ 64) as Hu by (apply wrap_range; lia).
  assert (shown DIGITS (sg && (x <? 0)) b (if sg && (x <? 0) then - x else u64 x) = written DIGITS b (if sg then x else u64 x)) as E.
  { unfold written. destruct sg; cbn [andb]; [|rewrite (proj2 (Z.ltb_ge _ 0)), Z.abs_eq by lia; done].
    destruct (Z.ltb_spec x 0); [by rewrite Z.abs_neq by lia|]. unfold u64. by rewrite Z.abs_eq, wrap_small by lia. }
  unfold knum. rewrite E. rewrite decide_True; [done|]. split; [|done]. split; [done|]. intros ->.
  assert (b ^ 15 ≤ 2 ^ 60) by (destruct Hb as [-> | ->]; lia). lia.
Qed.
Lemma unum_written x b (sg : bool) v : - 2 ^ 31 ≤ x < 2 ^ 31 → (sg = true → x ≠ - 2 ^ 31) →
  v = (if sg then x else u32 x) → unum x b sg = Some (written UDIGITS b v).
Proof using Type.
  clear. intros Hx Hsg ->. assert (0 ≤ u32 x < 2 ^ 32) as Hu by (apply wrap_range; lia).
  unfold unum. rewrite decide_True by done. f_equal. unfold written.
  destruct sg; cbn [andb]; [|rewrite (proj2 (Z.ltb_ge _ 0)), Z.abs_eq by lia; done].
  destruct (Z.ltb_spec x 0); [by rewrite Z.abs_neq by lia|]. unfold u32. by rewrite Z.abs_eq, wrap_small by lia.
Qed.

#[local] Ltac wraps := unfold s64, s32, u64, u32, swrap, wrap in *; cbn [Z.sub Z.add Z.opp Z.pos_sub Pos.pred_double] in *;
  change (2 ^ 31) with 2147483648 in *; change (2 ^ 32) with 4294967296 in *; change (2 ^ 63) with 9223372036854775808 in *;
  change (2 ^ 64) with 18446744073709551616 in *; Z.to_euclidean_division_equations; lia.
#[local] Ltac letters := match goal with H : _ = Cd ∨ _ = Cu ∨ _ = Cx |- _ => destruct H as [-> | [-> | ->]] end;
  change (base_of Cd) with 10; change (base_of Cu) with 10; change (base_of Cx) with 16;
  repeat match goal with H : ?P → _ |- _ => first [specialize (H eq_refl)|specialize (H ltac:(discriminate))|clear H] end;
  unfold denotes; cbn [Cd Cu Cx Z.eqb Pos.eqb].

Lemma kernel_int c x : kernel_fits (W, c, x) → c = Cd ∨ c = Cu ∨ c = Cx →
  knum x (base_of c) (c =? Cd) = Some (written DIGITS (base_of c) (denotes W c x)).
Proof using Type. clear. intros [Hx Hn] Hc. letters; (apply knum_written; [auto|lia|wraps|wraps]). Qed.
Lemma kernel_long w c x : w ≠ W → kernel_fits (w, c, x) → c = Cd ∨ c = Cu ∨ c = Cx →
  knum (s64 x) (base_of c) (c =? Cd) = Some (written DIGITS (base_of c) (denotes w c x)).
Proof using Type.
  clear. intros Hw Hf Hc. assert (- 2 ^ 63 ≤ s64 x < 2 ^ 63) by (apply (swrap_range 64); lia).
  destruct w; [done|destruct Hf as (Hx & Hd & Hu)..]; letters; (apply knum_written; [auto|done|wraps|wraps]).
Qed.
Lemma user_int c x : user_fits (W, c, x) → c = Cd ∨ c = Cu ∨ c = Cx →
  unum x (base_of c) (c =? Cd) = Some (written UDIGITS (base_of c) (denotes W c x)).
Proof using Type. clear. intros [Hx Hn] Hc. letters; (apply unum_written; [done|done|wraps]). Qed.
Lemma user_long w c x : w ≠ W → user_fits (w, c, x) → c = Cd ∨ c = Cu ∨ c = Cx →
  unum (s32 x) (base_of c) (c =? Cd) = Some (written UDIGITS (base_of c) (denotes w c x)).
Proof using Type.
  clear. intros Hw Hf Hc. assert (- 2 ^ 31 ≤ s32 x < 2 ^ 31) by (apply (swrap_range 32); lia).
  destruct w; [done|destruct Hf as (Hx & Hd & Hu)..]; letters; (apply unum_written; [done|try done; intros _; wraps|wraps]).
Qed.

(** C31. Formatted output.  For every format and arguments of the types that it
    asks for, [printf] of the kernel and [vprintf] of user programs print the
    literal characters and, in the place of each directive, its argument: the
    number that the directive denotes, with its sign and the numeral in its base,
    the sixteen digits of an address, the string, or [(null)].  This holds where
    the numbers fit ([kernel_fits], [user_fits]); for the others see
    [printf_negative] and [vprintf_truncates]. *)
Theorem formatted_output ps args : Forall wf_piece ps →
  (∀ out, asked DIGITS ps args = Some out → Forall kernel_fits (numbers ps args) →
    ∀ s, printf putc (format ps) args s = (emits putc out;; mret 0) s) ∧
  (∀ out, asked UDIGITS ps args = Some out → Forall user_fits (numbers ps args) →
    ∀ s, vprintf putc (format ps) args s = emits putc out s).
Proof using Type.
  intros Hps. split; intros out Ha Hf s.
  - apply (asked_render knum s64 _ _ kernel_int kernel_long) in Ha; [|done..].
    apply (printf_loop putc knum knum_spec (Datatypes.S (length (format ps))) [] ps args out Hps); [constructor|done|lia].
  - apply (asked_render unum s32 _ _ user_int user_long) in Ha; [|done..].
    apply (vprintf_loop putc unum unum_spec (Datatypes.S (length (format ps))) [] ps args out Hps); [constructor|done|lia].
Qed.
End results.

(** ["%d/%lx %s"] of -7, 0xbeef and ["ok"]. *)
Lemma formatted_output_witness :
  let putc := λ c, modify (λ o, o ++ [c]) in
  let ps := [Num W Cd; Lit 47; Num L Cx; Lit 32; Str] in let args := [AInt (-7); AU64 0xbeef; AStr (Some [111; 107])] in
  printf putc (format ps) args [] = (emits putc [45; 55; 47; 98; 101; 101; 102; 32; 111; 107];; mret 0) [] ∧
  vprintf putc (format ps) args [] = emits putc [45; 55; 47; 66; 69; 69; 70; 32; 111; 107] [].
Proof.
  intros putc ps args. destruct (formatted_output putc ps args) as [Hk Hu].
  - unfold ps, wf_piece. rewrite !Forall_cons, Forall_nil. unfold Cd, Cu, Cx, PERCENT. split_and?; lia || done.
  - assert (s64 0xbeef = 0xbeef) as E by reflexivity.
    split; [apply Hk; [reflexivity|]|apply Hu; [reflexivity|]]; cbn [numbers ps args]; repeat constructor; (done || lia).
Defined.

(** [%u] of a negative [int] is widened to 64 bits: twenty digits. *)
Theorem printf_unsigned_overrun {S : Type} (putc : Z → K S unit) s : printf putc [PERCENT; Cu] [AInt (-1)] s = UB "buf".
Proof. by vm_compute. Qed.

(** So is [%x]: the kernel prints sixteen digits of an [int] of which the format
    asks for eight. *)
Theorem printf_negative :
  asked DIGITS [Num W Cx] [AInt (-1)] = Some (replicate 8 102) ∧
  printf (λ c, modify (λ o, o ++ [c])) (format [Num W Cx]) [AInt (-1)] [] = Ok (0, replicate 16 102).
Proof. split; by vm_compute. Qed.

(** [printint] of user programs takes an [int]: of a [long] it prints the low half. *)
Theorem vprintf_truncates :
  asked UDIGITS [Num L Cx] [AU64 0x100000005] = Some [49; 48; 48; 48; 48; 48; 48; 48; 53] ∧
  vprintf (λ c, modify (λ o, o ++ [c])) (format [Num L Cx]) [AU64 0x100000005] [] = Ok (tt, [53]).
Proof. split; by vm_compute. Qed.
