(* ===== verification/Str.v ===== *)
(** * String and memory routines of the kernel ([kernel/string.c])

    Each routine runs on a byte memory.  Loops bounded by a count argument
    run that many iterations; loops that look for the end of a string get as
    much fuel as there are bytes of memory, which is always enough: each
    iteration reads a byte of its own ([strlen_total]). *)

From S2P Require Import Prelude Word Mem.

(** The counter [i] of [memset] is an [int] compared with an [uint]: it
    overflows when the count does not fit an [int]. *)
Definition memset (dst c n : Z) : K mem Z :=
  if 2 ^ 31 <=? n then undefined "memset: i++"
  else
    for_each (Z.to_nat n) 0 (λ i, store (dst + i) c);;
    mret dst.

Definition memcmp (v1 v2 n : Z) : K mem Z :=
  r ← for_loop (Z.to_nat n) 0 (λ i,
    x ← load (v1 + i);
    y ← load (v2 + i);
    mret (if x =? y then None else Some (x - y)));
  mret (default 0 r).

(** [while(n-- > 0) *--d = *--s] *)
Definition copy_backward (d s n : Z) : K mem unit :=
  for_each (Z.to_nat n) 0 (λ i,
    x ← load (s + n - 1 - i);
    store (d + n - 1 - i) x).
(** [while(n-- > 0) *d++ = *s++] *)
Definition copy_forward (d s n : Z) : K mem unit :=
  for_each (Z.to_nat n) 0 (λ i,
    x ← load (s + i);
    store (d + i) x).

Definition memmove (dst src n : Z) : K mem Z :=
  if n =? 0 then mret dst
  else
    (if (src <? dst) && (dst <? src + n) then copy_backward dst src n
     else copy_forward dst src n);;
    mret dst.

Definition memcpy (dst src n : Z) : K mem Z := memmove dst src n.

(** The loop variables are [n], and the offset [i] of [p] and [q]. *)
Definition strncmp (p q n : Z) : K mem Z :=
  r ← for_loop (Z.to_nat n) 0 (λ i,
    x ← load (p + i);
    if x =? 0 then y ← load (q + i); mret (Some (x - y))
    else
      y ← load (q + i);
      mret (if x =? y then None else Some (x - y)));
  mret (default 0 r).

(** First loop of [strncpy]: the bytes of [t] up to and including a zero.  It
    yields the offset after the copied zero, if there was one. *)
Definition copy_until_zero (s t n : Z) : K mem (option Z) :=
  for_loop (Z.to_nat n) 0 (λ i,
    x ← load (t + i);
    store (s + i) x;;
    mret (if x =? 0 then Some (i + 1) else None)).

Definition strncpy (s t n : Z) : K mem Z :=
  r ← copy_until_zero s t n;
  match r with
  | Some k => for_each (Z.to_nat (n - k)) k (λ i, store (s + i) 0)
  | None => mret tt
  end;;
  mret s.

Definition safestrcpy (s t n : Z) : K mem Z :=
  if n <=? 0 then mret s
  else
    r ← copy_until_zero s t (n - 1);
    store (s + default (n - 1) r) 0;;
    mret s.

Definition strlen (s : Z) : K mem Z :=
  fuel ← gets size;
  while_loop (S fuel) 0 (λ n,
    x ← load (s + n);
    mret (if x =? 0 then inr n else inl (n + 1))).

(** ** What they do *)
Section memory.
Implicit Types (m : mem) (l : list Z).

Lemma memset_spec m dst c n :
  0 ≤ n < 2 ^ 31 → mapped m dst (Z.to_nat n) →
  wp (memset dst c n) (λ r m', r = dst ∧ m' = mput m dst (replicate (Z.to_nat n) (u8 c))) m.
Proof.
  intros Hn Hm. unfold memset. rewrite (proj2 (Z.leb_gt _ _)) by lia. apply wp_bind.
  apply (wp_for_each (λ i m', m' = mput m dst (replicate (Z.to_nat i) (u8 c)))); [done| |].
  - intros i m' Hi ->. apply wp_store.
    + replace (dst + i) with (dst + Z.of_nat (Z.to_nat i)) by lia. apply (mapped_mput _ _ _ _ _ Hm). lia.
    + replace (Z.to_nat (i + 1)) with (S (Z.to_nat i)) by lia.
      rewrite replicate_S_end, mput_snoc, length_replicate. do 2 f_equal. lia.
  - intros m' ->. apply wp_ret. split; [done|]. do 2 f_equal. lia.
Qed.

(** One step of a copy loop. *)
Lemma wp_copy_byte a b x (Q : unit → mem → Prop) m :
  m !! b = Some x → is_byte x → is_Some (m !! a) →
  Q tt (<[a := x]> m) → wp (y ← load b; store a y) Q m.
Proof.
  intros Hb Hx Ha HQ. apply wp_bind. eapply wp_load; [done|]. apply wp_store; [done|]. by rewrite u8_byte.
Qed.

Lemma copy_forward_spec m d s l n :
  n = Z.of_nat (length l) → holds m s l → bytes l → mapped m d (length l) →
  d ≤ s ∨ s + n ≤ d →
  wp (copy_forward d s n) (λ _ m', m' = mput m d l) m.
Proof.
  intros Hn Hs Hb Hd Hdis. unfold copy_forward.
  apply (wp_for_each (λ i m', m' = mput m d (take (Z.to_nat i) l))); [done| |].
  - intros i m' Hi ->. destruct (lookup_lt_is_Some_2 l (Z.to_nat i)) as [x Hx]; [lia|].
    eapply wp_copy_byte.
    + rewrite lookup_mput_out by (rewrite length_take; lia).
      replace (s + i) with (s + Z.of_nat (Z.to_nat i)) by lia. by apply Hs.
    + unfold bytes in Hb. rewrite Forall_lookup in Hb. eauto.
    + replace (d + i) with (d + Z.of_nat (Z.to_nat i)) by lia. apply (mapped_mput _ _ _ _ _ Hd). lia.
    + replace (Z.to_nat (i + 1)) with (S (Z.to_nat i)) by lia.
      rewrite (take_S_r _ _ _ Hx), mput_snoc, length_take. do 2 f_equal. lia.
  - intros m' ->. rewrite take_ge by lia. done.
Qed.

Lemma copy_backward_spec m d s l n :
  n = Z.of_nat (length l) → holds m s l → bytes l → mapped m d (length l) → s ≤ d →
  wp (copy_backward d s n) (λ _ m', m' = mput m d l) m.
Proof.
  intros Hn Hs Hb Hd Hdis. unfold copy_backward.
  apply (wp_for_each (λ i m', m' = mput m (d + n - i) (drop (length l - Z.to_nat i) l))).
  - rewrite drop_ge by lia. done.
  - intros i m' Hi ->. set (k := (length l - S (Z.to_nat i))%nat).
    destruct (lookup_lt_is_Some_2 l k) as [x Hx]; [lia|]. eapply wp_copy_byte.
    + rewrite lookup_mput_out by (rewrite length_drop; lia).
      replace (s + n - 1 - i) with (s + Z.of_nat k) by lia. by apply Hs.
    + unfold bytes in Hb. rewrite Forall_lookup in Hb. eauto.
    + replace (d + n - 1 - i) with (d + Z.of_nat k) by lia.
      apply (mapped_mput _ _ _ _ _ Hd). lia.
    + replace (length l - Z.to_nat (i + 1))%nat with k by lia. rewrite (drop_S _ _ _ Hx). simpl.
      replace (S k) with (length l - Z.to_nat i)%nat by lia.
      replace (d + n - (i + 1) + 1) with (d + n - i) by lia.
      replace (d + n - 1 - i) with (d + n - (i + 1)) by lia.
      apply insert_mput. rewrite length_drop. lia.
  - intros m' ->. replace (length l - Z.to_nat (0 + Z.of_nat (Z.to_nat n)))%nat with O by lia.
    rewrite drop_0. f_equal. lia.
Qed.

Lemma memmove_spec m dst src l :
  holds m src l → bytes l → mapped m dst (length l) →
  wp (memmove dst src (Z.of_nat (length l))) (λ r m', r = dst ∧ m' = mput m dst l) m.
Proof.
  intros Hs Hb Hd. unfold memmove. destruct (Z.eqb_spec (Z.of_nat (length l)) 0) as [E|E].
  { destruct l; [|done]. by apply wp_ret. }
  eapply (wp_seq _ _ (λ _ m', m' = mput m dst l)); [|by intros _ m' ->].
  destruct (Z.ltb_spec src dst), (Z.ltb_spec dst (src + Z.of_nat (length l))); simpl;
    (apply copy_backward_spec || apply copy_forward_spec); try done; lia.
Qed.

(** Fuel: a terminated string is shorter than the memory. *)
Lemma strlen_spec m s l :
  cstring m s l → wp (strlen s) (λ r m', r = Z.of_nat (length l) ∧ m' = m) m.
Proof.
  intros [Hs Hl]. unfold strlen. apply wp_bind, wp_gets.
  pose proof (holds_size _ _ _ Hs) as Hsz. rewrite length_app in Hsz. simpl in Hsz.
  apply (wp_while_loop (λ k n m', m' = m ∧ 0 ≤ n ∧ Z.of_nat k + n = Z.of_nat (length l)) _ _ _ (length l));
    [split_and!; [done|lia|lia]|lia|].
  intros k n m' (-> & Hn & Hk). apply wp_bind.
  assert ((l ++ [0]) !! Z.to_nat n = if decide (k = 0)%nat then Some 0 else l !! Z.to_nat n) as E.
  { case_decide; [|apply lookup_app_l; lia].
    rewrite lookup_app_r by lia. by replace (Z.to_nat n - length l)%nat with O by lia. }
  replace (s + n) with (s + Z.of_nat (Z.to_nat n)) by lia. case_decide as Hk0.
  - eapply wp_load; [by apply Hs|]. apply wp_ret. simpl. split; [lia|done].
  - destruct (lookup_lt_is_Some_2 l (Z.to_nat n)) as [x Hx]; [lia|]. rewrite Hx in E.
    eapply wp_load; [by apply Hs|]. apply wp_ret. rewrite Forall_lookup in Hl. apply Hl in Hx.
    rewrite (proj2 (Z.eqb_neq x 0)) by done. exists (k - 1)%nat. split; [lia|]. split_and!; [done|lia|lia].
Qed.

(** The bytes of a string as a field of [n] bytes stores them: cut, or padded
    with zeros. *)
Definition field (n : nat) (l : list Z) : list Z := take n (l ++ replicate n 0).

Lemma length_field n l : length (field n l) = n.
Proof. unfold field. rewrite length_take, length_app, length_replicate. lia. Qed.

Lemma copy_until_zero_spec m s t n l :
  0 ≤ n → holds m t (take (Z.to_nat n) (l ++ [0])) → bytes l → Forall (λ x, x ≠ 0) l →
  mapped m s (Z.to_nat n) → s + n ≤ t ∨ t + Z.of_nat (length l) < s →
  wp (copy_until_zero s t n) (λ r m',
    r = (if decide (Z.of_nat (length l) < n) then Some (Z.of_nat (length l) + 1) else None) ∧
    m' = mput m s (take (Z.to_nat n) (l ++ [0]))) m.
Proof.
  intros Hn Ht Hb Hz Hs Hdis. unfold copy_until_zero.
  apply (wp_for_loop (λ i m', i ≤ Z.of_nat (length l) ∧ m' = mput m s (take (Z.to_nat i) (l ++ [0])))).
  - split; [lia|done].
  - intros i m' Hi [Hil ->].
    destruct (lookup_lt_is_Some_2 (l ++ [0]) (Z.to_nat i)) as [x Hx]; [rewrite length_app; simpl; lia|].
    assert (is_byte x ∧ (x = 0 ↔ i = Z.of_nat (length l))) as [Hxb Hx0].
    { apply lookup_app_Some in Hx as [Hx|[Hge Hx]].
      - pose proof (lookup_lt_Some _ _ _ Hx). unfold bytes in Hb. rewrite Forall_lookup in Hb, Hz.
        split; [eauto|]. split; [|lia]. intros ->. by destruct (Hz _ _ Hx).
      - apply list_lookup_singleton_Some in Hx as [Hx <-]. split; [unfold is_byte; lia|]. lia. }
    apply wp_bind. eapply wp_load.
    { rewrite lookup_mput_out by (rewrite length_take, length_app; simpl; lia).
      replace (t + i) with (t + Z.of_nat (Z.to_nat i)) by lia. apply Ht.
      rewrite lookup_take_lt by lia. done. }
    apply wp_bind, wp_store.
    { replace (s + i) with (s + Z.of_nat (Z.to_nat i)) by lia. apply (mapped_mput _ _ _ _ _ Hs). lia. }
    apply wp_ret. rewrite u8_byte by done.
    assert (<[s + i := x]> (mput m s (take (Z.to_nat i) (l ++ [0]))) =
            mput m s (take (Z.to_nat (i + 1)) (l ++ [0]))) as ->.
    { replace (Z.to_nat (i + 1)) with (S (Z.to_nat i)) by lia.
      rewrite (take_S_r _ _ _ Hx), mput_snoc, length_take, length_app. simpl. do 2 f_equal. lia. }
    destruct (Z.eqb_spec x 0) as [E|E].
    + rewrite decide_True by lia. split; [f_equal; lia|].
      rewrite !take_ge by (rewrite length_app; simpl; lia). done.
    + split; [|done]. destruct (decide (i = Z.of_nat (length l))); [naive_solver|lia].
  - intros m' [Hil ->]. rewrite decide_False by lia. split; [done|]. do 2 f_equal. lia.
Qed.

Lemma strncpy_spec m s t n l :
  0 ≤ n → holds m t (take (Z.to_nat n) (l ++ [0])) → bytes l → Forall (λ x, x ≠ 0) l →
  mapped m s (Z.to_nat n) → s + n ≤ t ∨ t + Z.of_nat (length l) < s →
  wp (strncpy s t n) (λ r m', r = s ∧ m' = mput m s (field (Z.to_nat n) l)) m.
Proof.
  intros Hn Ht Hb Hz Hs Hdis. unfold strncpy.
  eapply wp_seq; [by apply copy_until_zero_spec|]. intros r m1 [-> ->].
  set (m1 := mput m s (take (Z.to_nat n) (l ++ [0]))). apply wp_bind. unfold field. case_decide as Hl.
  - apply (wp_for_each (λ i m', m' = mput m s (l ++ replicate (Z.to_nat i - length l) 0))).
    + unfold m1. rewrite take_ge by (rewrite length_app; simpl; lia).
      by replace (Z.to_nat (Z.of_nat (length l) + 1) - length l)%nat with 1%nat by lia.
    + intros i m' Hi ->. apply wp_store.
      { replace (s + i) with (s + Z.of_nat (Z.to_nat i)) by lia. apply (mapped_mput _ _ _ _ _ Hs). lia. }
      replace (Z.to_nat (i + 1) - length l)%nat with (S (Z.to_nat i - length l)) by lia.
      rewrite replicate_S_end, app_assoc, mput_snoc, length_app, length_replicate. do 2 f_equal. lia.
    + intros m' ->. apply wp_ret. split; [done|]. f_equal.
      rewrite take_app_ge by lia. f_equal. rewrite take_replicate. f_equal. lia.
  - apply wp_ret, wp_ret. split; [done|]. unfold m1. f_equal.
    rewrite !take_app_le by lia. done.
Qed.

Lemma safestrcpy_spec m s t n l :
  0 < n → holds m t (take (Z.to_nat (n - 1)) (l ++ [0])) → bytes l → Forall (λ x, x ≠ 0) l →
  mapped m s (Z.to_nat n) → s + n ≤ t ∨ t + Z.of_nat (length l) < s →
  wp (safestrcpy s t n) (λ r m', r = s ∧ ∃ m1, m' = mput m1 s (take (Z.to_nat (n - 1)) l ++ [0]) ∧
    ∀ b, ¬ (s ≤ b < s + n) → m1 !! b = m !! b) m.
Proof.
  intros Hn Ht Hb Hz Hs Hdis. unfold safestrcpy. rewrite (proj2 (Z.leb_gt _ _)) by lia.
  eapply wp_seq; [apply copy_until_zero_spec; try done; [lia| |lia]|].
  { intros i Hi. apply Hs. lia. }
  intros r m1 [-> ->]. apply wp_bind, wp_store.
  - set (k := default _ _). assert (0 ≤ k < n) as Hk.
    { unfold k. case_decide; simpl; lia. }
    replace (s + k) with (s + Z.of_nat (Z.to_nat k)) by lia. apply (mapped_mput _ _ _ _ _ Hs). lia.
  - apply wp_ret. split; [done|]. change (u8 0) with 0. case_decide as Hl; simpl.
    + rewrite take_ge by (rewrite length_app; simpl; lia). rewrite take_ge by lia.
      exists (<[s + (Z.of_nat (length l) + 1) := 0]> m). split.
      * apply insert_mput. rewrite length_app. simpl. lia.
      * intros b Hb'. rewrite lookup_insert_ne; [done|lia].
    + exists m. split; [|done]. rewrite mput_snoc, length_take, !take_app_le by lia. do 2 f_equal. lia.
Qed.
End memory.

(** ** Comparison *)

(** [strncmp] on lists of bytes. *)
Fixpoint strncmp_l (n : nat) (p q : list Z) : Z :=
  match n, p, q with
  | S n, x :: p, y :: q =>
      if x =? 0 then x - y else if x =? y then strncmp_l n p q else x - y
  | _, _, _ => 0
  end.

(** The string stored in a field: the bytes before the first zero. *)
Fixpoint until_zero (l : list Z) : list Z :=
  match l with
  | [] => []
  | x :: l => if x =? 0 then [] else x :: until_zero l
  end.

(** Reading at most [n] bytes stays inside: there are so many, or a zero. *)
Definition readable (n : nat) (l : list Z) : Prop := (n ≤ length l)%nat ∨ 0 ∈ l.

Lemma strncmp_l_zero n p q :
  readable n p → readable n q →
  strncmp_l n p q = 0 ↔ until_zero (take n p) = until_zero (take n q).
Proof.
  revert p q. induction n as [|n IH]; intros p q Hp Hq; [done|].
  destruct p as [|x p]; [destruct Hp as [Hp|Hp]; [simpl in Hp; lia|by apply elem_of_nil in Hp]|].
  destruct q as [|y q]; [destruct Hq as [Hq|Hq]; [simpl in Hq; lia|by apply elem_of_nil in Hq]|].
  simpl. destruct (Z.eqb_spec x 0) as [->|Hx].
  - destruct (Z.eqb_spec y 0) as [->|Hy]; [done|]. split; [lia|done].
  - destruct (Z.eqb_spec x y) as [->|Hxy].
    + rewrite (proj2 (Z.eqb_neq y 0)) by done. rewrite IH; [split; [congruence|by intros [=]]|..].
      * destruct Hp as [Hp|Hp]; [left; simpl in Hp; lia|right]. apply elem_of_cons in Hp as [?|?]; [lia|done].
      * destruct Hq as [Hq|Hq]; [left; simpl in Hq; lia|right]. apply elem_of_cons in Hq as [?|?]; [lia|done].
    + split; [lia|]. destruct (Z.eqb_spec y 0); [done|]. congruence.
Qed.

Section compare.
Implicit Types (m : mem).

Lemma strncmp_run m p q n i lp lq :
  holds m (p + i) lp → holds m (q + i) lq → readable n lp → readable n lq →
  wp (r ← for_loop n i (λ i,
        x ← load (p + i);
        if x =? 0 then y ← load (q + i); mret (Some (x - y))
        else y ← load (q + i); mret (if x =? y then None else Some (x - y)));
      mret (default 0 r)) (λ r m', r = strncmp_l n lp lq ∧ m' = m) m.
Proof.
  revert i lp lq. induction n as [|n IH]; intros i lp lq Hp Hq Rp Rq; [done|].
  destruct lp as [|x lp]; [destruct Rp as [Rp|Rp]; [simpl in Rp; lia|by apply elem_of_nil in Rp]|].
  destruct lq as [|y lq]; [destruct Rq as [Rq|Rq]; [simpl in Rq; lia|by apply elem_of_nil in Rq]|].
  apply holds_cons in Hp as [Hx Hp], Hq as [Hy Hq]. simpl. apply wp_bind, wp_bind, wp_bind.
  eapply wp_load; [done|]. destruct (Z.eqb_spec x 0) as [->|Hx0].
  - apply wp_bind. eapply wp_load; [done|]. by repeat apply wp_ret.
  - apply wp_bind. eapply wp_load; [done|]. apply wp_ret. destruct (Z.eqb_spec x y) as [->|Hxy].
    + apply wp_bind_inv, IH.
      * by replace (p + (i + 1)) with (p + i + 1) by lia.
      * by replace (q + (i + 1)) with (q + i + 1) by lia.
      * destruct Rp as [Rp|Rp]; [left; simpl in Rp; lia|right]. apply elem_of_cons in Rp as [?|?]; [lia|done].
      * destruct Rq as [Rq|Rq]; [left; simpl in Rq; lia|right]. apply elem_of_cons in Rq as [?|?]; [lia|done].
    + by repeat apply wp_ret.
Qed.

Lemma memcmp_run m p q n i lp lq :
  holds m (p + i) lp → holds m (q + i) lq → length lp = n → length lq = n →
  wp (r ← for_loop n i (λ i,
        x ← load (p + i);
        y ← load (q + i);
        mret (if x =? y then None else Some (x - y)));
      mret (default 0 r)) (λ r m', (r = 0 ↔ lp = lq) ∧ m' = m) m.
Proof.
  revert i lp lq. induction n as [|n IH]; intros i lp lq Hp Hq Lp Lq.
  { by destruct lp, lq. }
  destruct lp as [|x lp], lq as [|y lq]; try done.
  apply holds_cons in Hp as [Hx Hp], Hq as [Hy Hq]. simpl. apply wp_bind, wp_bind, wp_bind.
  eapply wp_load; [done|]. apply wp_bind. eapply wp_load; [done|]. apply wp_ret.
  destruct (Z.eqb_spec x y) as [->|Hxy].
  - apply wp_bind_inv. eapply wp_mono; [apply (IH (i + 1) lp lq)|].
    + by replace (p + (i + 1)) with (p + i + 1) by lia.
    + by replace (q + (i + 1)) with (q + i + 1) by lia.
    + simpl in Lp. lia.
    + simpl in Lq. lia.
    + intros r m' [Hr ->]. split; [|done]. rewrite Hr. split; [congruence|by intros [=]].
  - repeat apply wp_ret. simpl. split; [|done]. split; [lia|]. congruence.
Qed.
End compare.

(** * Properties *)

(** [memmove] copies also between overlapping regions: whatever the
    relative position of source and destination, the destination ends up with
    the bytes the source had before the call, no other byte of memory changes,
    and the call returns the destination. *)
Theorem memmove_overlap m dst src l :
  holds m src l → bytes l → mapped m dst (length l) →
  wp (memmove dst src (Z.of_nat (length l)))
    (λ r m', r = dst ∧ holds m' dst l ∧
       ∀ b, ¬ (dst ≤ b < dst + Z.of_nat (length l)) → m' !! b = m !! b) m.
Proof.
  intros Hs Hb Hd. eapply wp_mono; [by apply memmove_spec|]. intros r m' [-> ->].
  split_and!; [done|apply holds_mput|]. intros b. apply lookup_mput_out.
Qed.

(** Moving four bytes up by two, over themselves. *)
Definition example_mem : mem := mput ∅ 100 [1; 2; 3; 4; 5; 6].

Lemma memmove_overlap_witness :
  wp (memmove 102 100 4) (λ r m', r = 102 ∧ holds m' 102 [1; 2; 3; 4] ∧
       ∀ b, ¬ (102 ≤ b < 106) → m' !! b = example_mem !! b) example_mem.
Proof.
  apply (memmove_overlap example_mem 102 100 [1; 2; 3; 4]).
  - apply (proj1 (proj1 (holds_app example_mem 100 [1; 2; 3; 4] [5; 6]) (holds_mput ∅ 100 [1; 2; 3; 4; 5; 6]))).
  - repeat constructor; unfold is_byte; lia.
  - intros i Hi. unfold example_mem. rewrite lookup_mput. simpl in *. rewrite decide_True by lia.
    apply lookup_lt_is_Some_2. simpl. lia.
Defined.

(** [strncpy] fills the whole field: after the call the [n] bytes of the
    destination are the string cut to [n] bytes or padded with zeros to [n]
    bytes, and nothing else changes. *)
Theorem strncpy_field m s t n l :
  0 ≤ n → holds m t (take (Z.to_nat n) (l ++ [0])) → bytes l → Forall (λ x, x ≠ 0) l →
  mapped m s (Z.to_nat n) → s + n ≤ t ∨ t + Z.of_nat (length l) < s →
  wp (strncpy s t n) (λ r m', r = s ∧ holds m' s (field (Z.to_nat n) l) ∧
    ∀ b, ¬ (s ≤ b < s + n) → m' !! b = m !! b) m.
Proof.
  intros Hn ?????. eapply wp_mono; [by apply strncpy_spec|]. intros r m' [-> ->].
  split_and!; [done|apply holds_mput|]. intros b Hb. apply lookup_mput_out. rewrite length_field. lia.
Qed.

Lemma strncpy_field_witness :
  wp (strncpy 200 100 5) (λ r m', r = 200 ∧ holds m' 200 [7; 8; 0; 0; 0] ∧
    ∀ b, ¬ (200 ≤ b < 205) → m' !! b = mput (mput ∅ 100 [7; 8; 0]) 200 [1; 1; 1; 1; 1] !! b)
    (mput (mput ∅ 100 [7; 8; 0]) 200 [1; 1; 1; 1; 1]).
Proof.
  apply (strncpy_field _ 200 100 5 [7; 8]).
  - lia.
  - apply (holds_mput_disjoint _ 100 [7; 8; 0]); [apply holds_mput|simpl; lia].
  - repeat constructor; unfold is_byte; lia.
  - repeat constructor; lia.
  - apply (holds_mapped _ 200 [1; 1; 1; 1; 1]), holds_mput.
  - simpl. lia.
Defined.

(** [safestrcpy] always leaves a terminated string: the destination holds
    the first [n-1] bytes of the source string followed by a zero, and only
    the [n] bytes of the destination change. *)
Theorem safestrcpy_terminates m s t n l :
  0 < n → holds m t (take (Z.to_nat (n - 1)) (l ++ [0])) → bytes l → Forall (λ x, x ≠ 0) l →
  mapped m s (Z.to_nat n) → s + n ≤ t ∨ t + Z.of_nat (length l) < s →
  wp (safestrcpy s t n) (λ r m', r = s ∧ cstring m' s (take (Z.to_nat (n - 1)) l) ∧
    ∀ b, ¬ (s ≤ b < s + n) → m' !! b = m !! b) m.
Proof.
  intros Hn ? ? Hz ??. eapply wp_mono; [by apply safestrcpy_spec|].
  intros r m' (-> & m1 & -> & Hm1). split_and!; [done| |].
  - split; [apply holds_mput|by apply Forall_take].
  - intros b Hb. rewrite lookup_mput_out; [by apply Hm1|].
    rewrite length_app, length_take. simpl. lia.
Qed.

Lemma safestrcpy_terminates_witness :
  wp (safestrcpy 200 100 3) (λ r m', r = 200 ∧ cstring m' 200 [7; 8] ∧
    ∀ b, ¬ (200 ≤ b < 203) → m' !! b = mput (mput ∅ 100 [7; 8; 9; 0]) 200 [1; 1; 1] !! b)
    (mput (mput ∅ 100 [7; 8; 9; 0]) 200 [1; 1; 1]).
Proof.
  apply (safestrcpy_terminates _ 200 100 3 [7; 8; 9]).
  - lia.
  - apply (holds_mput_disjoint _ 100 [7; 8]); [|simpl; lia].
    apply (proj1 (proj1 (holds_app _ 100 [7; 8] [9; 0]) (holds_mput ∅ 100 [7; 8; 9; 0]))).
  - repeat constructor; unfold is_byte; lia.
  - repeat constructor; lia.
  - apply (holds_mapped _ 200 [1; 1; 1]), holds_mput.
  - simpl. lia.
Defined.

(** [strncmp] returns 0 exactly when the two strings agree up to their
    end or up to the limit, for strings that are terminated or have at least
    [n] readable bytes, and changes no memory. *)
Theorem strncmp_equal m p q n lp lq :
  holds m p lp → holds m q lq → readable (Z.to_nat n) lp → readable (Z.to_nat n) lq →
  wp (strncmp p q n) (λ r m', m' = m ∧
    (r = 0 ↔ until_zero (take (Z.to_nat n) lp) = until_zero (take (Z.to_nat n) lq))) m.
Proof.
  intros Hp Hq Rp Rq. unfold strncmp. eapply wp_mono; [apply (strncmp_run m p q _ 0 lp lq)|].
  - by rewrite Z.add_0_r.
  - by rewrite Z.add_0_r.
  - done.
  - done.
  - intros r m' [-> ->]. split; [done|]. by apply strncmp_l_zero.
Qed.

Lemma strncmp_equal_witness :
  wp (strncmp 100 104 14) (λ r m', m' = mput ∅ 100 [7; 8; 0; 5; 7; 8; 0] ∧
    (r = 0 ↔ until_zero (take 14 [7; 8; 0; 5; 7; 8; 0]) = until_zero (take 14 [7; 8; 0])))
    (mput ∅ 100 [7; 8; 0; 5; 7; 8; 0]).
Proof.
  apply (strncmp_equal _ 100 104 14 [7; 8; 0; 5; 7; 8; 0] [7; 8; 0]).
  - apply holds_mput.
  - apply (proj2 (proj1 (holds_app _ 100 [7; 8; 0; 5] [7; 8; 0]) (holds_mput ∅ 100 [7; 8; 0; 5; 7; 8; 0]))).
  - right. set_solver.
  - right. set_solver.
Defined.
