(* ===== verification/Ulib.v ===== *)
(** * The C library of user programs ([user/ulib.c])

    Memory and string routines on the byte memory of the process, [atoi], and
    [gets] and [stat] on top of system calls.  [memmove], [memcmp] and the
    like differ from the kernel's versions of [Str]: this file models
    their own code. *)

From S2P Require Import Prelude Word Mem Str.

(** Loops that stop at the end of a string have the size of the memory as fuel. *)
Definition strcpy (s t : Z) : K mem Z :=
  fuel ← gets size;
  while_loop (S fuel) 0 (λ i,
    x ← load (t + i);
    store (s + i) x;;
    mret (if x =? 0 then inr tt else inl (i + 1)));;
  mret s.

Definition strcmp (p q : Z) : K mem Z :=
  fuel ← gets size;
  while_loop (S fuel) 0 (λ i,
    x ← load (p + i);
    if x =? 0 then y ← load (q + i); mret (inr (x - y))
    else
      y ← load (q + i);
      mret (if x =? y then inl (i + 1) else inr (x - y))).

Definition strlen (s : Z) : K mem Z :=
  fuel ← gets size;
  while_loop (S fuel) 0 (λ n,
    x ← load (s + n);
    mret (if x =? 0 then inr n else inl (n + 1))).

Definition memset (dst c n : Z) : K mem Z :=
  if 2 ^ 31 <=? n then undefined "memset: i++"
  else
    for_each (Z.to_nat n) 0 (λ i, store (dst + i) c);;
    mret dst.

(** The address of the first [c], or 0. *)
Definition strchr (s c : Z) : K mem Z :=
  fuel ← gets size;
  while_loop (S fuel) s (λ s,
    x ← load s;
    mret (if x =? 0 then inr 0 else if x =? c then inr s else inl (s + 1))).

(** [int n]: the sum [n*10 + *s] is computed before ['0'] is subtracted. *)
Definition atoi (s : Z) : K mem Z :=
  fuel ← gets size;
  while_loop (S fuel) (s, 0) (λ '(s, n),
    c ← load s;
    if (48 <=? c) && (c <=? 57) then
      if 2 ^ 31 <=? n * 10 + c then undefined "atoi: signed overflow"
      else mret (inl (s + 1, n * 10 + c - 48))
    else mret (inr n)).

Definition memmove (vdst vsrc n : Z) : K mem Z :=
  (if vdst <? vsrc then copy_forward vdst vsrc n else copy_backward vdst vsrc n);;
  mret vdst.

Definition memcmp (s1 s2 n : Z) : K mem Z :=
  r ← for_loop (Z.to_nat n) 0 (λ i,
    x ← load (s1 + i);
    y ← load (s2 + i);
    mret (if x =? y then None else Some (x - y)));
  mret (default 0 r).

Definition memcpy (dst src n : Z) : K mem Z := memmove dst src n.

(** ** [gets]: reading a line from standard input

    [u_in] is what [read(0, &c, 1)] delivers, one byte per call, until it
    returns less than 1. *)
Record ust := Ust { u_mem : mem; u_in : list Z }.
Definition um {A} (m : K mem A) : K ust A := lift u_mem (λ x s, Ust x (u_in s)) m.
Definition read1 : K ust (option Z) :=
  i ← Prelude.gets u_in;
  match i with
  | [] => mret None
  | c :: i => modify (λ s, Ust (u_mem s) i);; mret (Some c)
  end.

Definition gets (buf max : Z) : K ust Z :=
  i ← for_loop (Z.to_nat (max - 1)) 0 (λ i,
    c ← read1;
    match c with
    | None => mret (Some i)
    | Some c =>
        um (store (buf + i) c);;
        mret (if (c =? 10) || (c =? 13) then Some (i + 1) else None)
    end);
  um (store (buf + default (Z.max 0 (max - 1)) i) 0);;
  mret buf.

(** [stat] on top of [open], [fstat] and [close]; the kernel's answers are
    parameters. *)
Section stat.
Context {S F : Type} (open_ : K S Z) (fstat_ : Z → K S Z) (close_ : Z → K S unit).

Definition stat : K S Z :=
  fd ← open_;
  if fd <? 0 then mret (-1)
  else
    r ← fstat_ fd;
    close_ fd;;
    mret r.
End stat.

(** ** [strlen], [strcmp], [strcpy], [strchr] *)
Section strings.
Implicit Types (m : mem) (l : list Z).

(** Reading position [i] of a string. *)
Lemma cstring_lookup m a l i :
  cstring m a l → 0 ≤ i ≤ Z.of_nat (length l) →
  ∃ x, m !! (a + i) = Some x ∧ (x = 0 ↔ i = Z.of_nat (length l)) ∧
       (l ++ [0]) !! Z.to_nat i = Some x.
Proof.
  intros [Hs Hl] Hi.
  destruct (lookup_lt_is_Some_2 (l ++ [0]) (Z.to_nat i)) as [x Hx]; [rewrite length_app; simpl; lia|].
  exists x. split_and!; [|split|done].
  - replace (a + i) with (a + Z.of_nat (Z.to_nat i)) by lia. by apply Hs.
  - intros ->. apply lookup_app_Some in Hx as [Hx|[Hge Hx]].
    + rewrite Forall_lookup in Hl. by destruct (Hl _ _ Hx).
    + lia.
  - intros ->. apply lookup_app_Some in Hx as [Hx|[Hge Hx]].
    + apply lookup_lt_Some in Hx. lia.
    + by apply list_lookup_singleton_Some in Hx as [_ <-].
Qed.

Lemma cstring_size m a l : cstring m a l → (length l < size m)%nat.
Proof.
  intros [Hs _]. pose proof (holds_size _ _ _ Hs) as H. rewrite length_app in H. simpl in H. lia.
Qed.

Lemma strcmp_spec m p q lp lq :
  cstring m p lp → cstring m q lq → wp (strcmp p q) (λ r m', m' = m ∧ (r = 0 ↔ lp = lq)) m.
Proof.
  intros Hp Hq. unfold strcmp. apply wp_bind, wp_gets. pose proof (cstring_size _ _ _ Hp) as Hsz.
  apply (wp_while_loop (λ k i m', m' = m ∧ 0 ≤ i ∧ Z.of_nat k + i = Z.of_nat (length lp) ∧
     i ≤ Z.of_nat (length lq) ∧ take (Z.to_nat i) lp = take (Z.to_nat i) lq) _ _ _ (length lp));
    [split_and!; [done|lia|lia|lia|done]|lia|].
  intros k i m' (-> & Hi & Hk & Hiq & Heq).
  destruct (cstring_lookup _ _ _ i Hp ltac:(lia)) as (x & Hx & Hx0 & Hxl).
  destruct (cstring_lookup _ _ _ i Hq ltac:(lia)) as (y & Hy & Hy0 & Hyl).
  apply wp_bind. eapply wp_load; [done|]. destruct (Z.eqb_spec x 0) as [Ex|Ex].
  - apply wp_bind. eapply wp_load; [done|]. apply wp_ret. split; [done|]. rewrite Ex. split.
    + intros E. assert (i = Z.of_nat (length lq)) as Ei by (apply Hy0; lia).
      rewrite !take_ge in Heq by lia. done.
    + intros ->. assert (y = 0) by (apply Hy0, Hx0; done). lia.
  - apply wp_bind. eapply wp_load; [done|]. apply wp_ret. destruct (Z.eqb_spec x y) as [<-|Exy].
    + exists (k - 1)%nat. assert (i ≠ Z.of_nat (length lp)) by tauto.
      assert (i ≠ Z.of_nat (length lq)) by tauto. split; [lia|]. split_and!; [done|lia|lia|lia|].
      replace (Z.to_nat (i + 1)) with (S (Z.to_nat i)) by lia.
      rewrite lookup_app_l in Hxl, Hyl by lia. by rewrite (take_S_r _ _ _ Hxl), (take_S_r _ _ _ Hyl), Heq.
    + split; [done|]. split; [lia|]. intros ->. congruence.
Qed.
End strings.

(** ** [atoi] *)
Definition is_digit (c : Z) : Prop := 48 ≤ c ≤ 57.
Definition decimal (l : list Z) : Z := foldl (λ n c, n * 10 + (c - 48)) 0 l.

Lemma decimal_snoc l c : decimal (l ++ [c]) = decimal l * 10 + (c - 48).
Proof. unfold decimal. by rewrite foldl_app. Qed.

Lemma decimal_take_le l i : Forall is_digit l → 0 ≤ decimal (take i l) ≤ decimal l.
Proof.
  intros Hl. assert (∀ l, Forall is_digit l → 0 ≤ decimal l) as Hpos.
  { intros l' Hl'. induction l' as [|c l' IH] using rev_ind; [done|]. rewrite decimal_snoc.
    apply Forall_app in Hl' as [H1 H2]. rewrite Forall_singleton in H2. unfold is_digit in H2.
    specialize (IH H1). lia. }
  split; [apply Hpos; by apply Forall_take|].
  revert Hl. induction l as [|c l IH] using rev_ind; intros Hl; [by rewrite take_nil|].
  apply Forall_app in Hl as [H1 H2]. rewrite Forall_singleton in H2. unfold is_digit in H2.
  specialize (IH H1). specialize (Hpos l H1). rewrite decimal_snoc.
  destruct (decide (i ≤ length l)%nat).
  - rewrite take_app_le by lia. lia.
  - rewrite take_ge by (rewrite length_app; simpl; lia). rewrite decimal_snoc. lia.
Qed.

Lemma atoi_spec m s l c :
  holds m s (l ++ [c]) → Forall is_digit l → ¬ is_digit c → decimal l + 48 < 2 ^ 31 →
  wp (atoi s) (λ r m', r = decimal l ∧ m' = m) m.
Proof.
  intros Hs Hl Hc Hlim. unfold atoi. apply wp_bind, wp_gets.
  pose proof (holds_size _ _ _ Hs) as Hsz. rewrite length_app in Hsz. simpl in Hsz.
  apply (wp_while_loop (λ k '(a, n) m', m' = m ∧ (k ≤ length l)%nat ∧
    a = s + Z.of_nat (length l - k) ∧ n = decimal (take (length l - k) l)) _ _ _ (length l)).
  { split_and!; [done|done|lia|]. by rewrite Nat.sub_diag. }
  { lia. }
  intros k [a n] m' (-> & Hk & -> & ->). apply wp_bind. set (i := (length l - k)%nat).
  destruct (lookup_lt_is_Some_2 (l ++ [c]) i) as [x Hx]; [rewrite length_app; simpl; lia|].
  eapply wp_load; [by apply Hs|]. destruct (decide (k = 0)%nat) as [->|Hk0].
  - assert (x = c) as ->.
    { rewrite lookup_app_r in Hx by lia. replace (i - length l)%nat with O in Hx by lia. by simplify_eq/=. }
    replace ((48 <=? c) && (c <=? 57)) with false
      by (symmetry; apply andb_false_iff; rewrite !Z.leb_gt; unfold is_digit in Hc; lia).
    apply wp_ret. split; [|done]. rewrite take_ge by lia. done.
  - rewrite lookup_app_l in Hx by lia. assert (is_digit x) as Hd by (rewrite Forall_lookup in Hl; eauto).
    unfold is_digit in Hd. rewrite (proj2 (Z.leb_le 48 x)), (proj2 (Z.leb_le x 57)) by lia. simpl.
    pose proof (decimal_take_le l (S i) Hl) as Hle. rewrite (take_S_r _ _ _ Hx), decimal_snoc in Hle.
    rewrite (proj2 (Z.leb_gt _ _)) by lia. apply wp_ret. exists (k - 1)%nat. split; [lia|].
    replace (length l - (k - 1))%nat with (S i) by lia. split_and!; [done|lia|lia|].
    rewrite (take_S_r _ _ _ Hx), decimal_snoc. lia.
Qed.

(** ** [gets] *)

(** The line that [gets] takes from the input: through the first newline or
    carriage return, and at most [n] bytes. *)
Fixpoint line (n : nat) (l : list Z) : list Z :=
  match n, l with
  | S n, c :: l => if (c =? 10) || (c =? 13) then [c] else c :: line n l
  | _, _ => []
  end.

Lemma line_prefix n l : ∃ k, line n l = take k l ∧ (k ≤ n)%nat.
Proof.
  revert l. induction n as [|n IH]; intros [|c l]; simpl; try (exists 0%nat; split; [done|lia]).
  destruct (_ || _); [exists 1%nat; split; [done|lia]|].
  destruct (IH l) as (k & -> & Hk). exists (S k). split; [done|lia].
Qed.

Lemma length_line n l : (length (line n l) ≤ n)%nat.
Proof. destruct (line_prefix n l) as (k & -> & Hk). rewrite length_take. lia. Qed.

Lemma wp_um {A} (m : K mem A) (Q : A → ust → Prop) s :
  wp m (λ a x, Q a (Ust x (u_in s))) (u_mem s) → wp (um m) Q s.
Proof. intros. by apply wp_lift. Qed.

Lemma gets_loop m buf i n inp :
  0 ≤ i → bytes inp → mapped m (buf + i) n →
  wp (for_loop n i (λ i,
        c ← read1;
        match c with
        | None => mret (Some i)
        | Some c => um (store (buf + i) c);; mret (if (c =? 10) || (c =? 13) then Some (i + 1) else None)
        end))
     (λ r s', default (i + Z.of_nat n) r = i + Z.of_nat (length (line n inp)) ∧
        u_mem s' = mput m (buf + i) (line n inp) ∧ u_in s' = drop (length (line n inp)) inp) (Ust m inp).
Proof.
  revert m i inp. induction n as [|n IH]; intros m i inp Hi Hb Hm; simpl.
  { apply wp_ret. split_and!; [simpl; lia|done|done]. }
  apply wp_bind, wp_bind. unfold read1. apply wp_bind, wp_gets. simpl. destruct inp as [|c inp]; simpl.
  { repeat apply wp_ret. split_and!; [simpl; lia|done|done]. }
  apply Forall_cons in Hb as [Hc Hb]. apply wp_bind, wp_modify, wp_ret, wp_bind, wp_um, wp_store.
  { destruct (Hm 0%nat ltac:(lia)) as [x Hx]. rewrite Z.add_0_r in Hx. by exists x. }
  rewrite u8_byte by done. apply wp_ret. simpl. destruct ((c =? 10) || (c =? 13)).
  - apply wp_ret. split_and!; [done|done|]. simpl. by rewrite drop_0.
  - eapply wp_mono; [apply IH; [lia|done|]|].
    + intros j Hj. rewrite lookup_insert_ne by lia.
      replace (buf + (i + 1) + Z.of_nat j) with (buf + i + Z.of_nat (S j)) by lia. apply Hm. lia.
    + intros r s' (Hr & Hms & His). split_and!.
      * simpl. rewrite <-(Z.add_assoc i 1) in Hr.
        replace (i + Z.of_nat (S n)) with (i + (1 + Z.of_nat n)) by lia. rewrite Hr. lia.
      * rewrite Hms. simpl. f_equal. lia.
      * by rewrite His.
Qed.

(** * Properties *)

(** [gets] never writes past its buffer: it takes from the input the bytes
    through the first end of line, at most [max-1] of them, leaves the rest
    unread, and terminates the string inside the [max] bytes of the buffer. *)
Theorem gets_line m buf max inp :
  1 ≤ max → bytes inp → mapped m buf (Z.to_nat max) →
  wp (gets buf max) (λ r s', r = buf ∧
    holds (u_mem s') buf (line (Z.to_nat (max - 1)) inp ++ [0]) ∧
    u_in s' = drop (length (line (Z.to_nat (max - 1)) inp)) inp ∧
    ∀ b, ¬ (buf ≤ b < buf + max) → u_mem s' !! b = m !! b) (Ust m inp).
Proof.
  intros Hmax Hb Hm. unfold gets. set (n := Z.to_nat (max - 1)). pose proof (length_line n inp) as Hlen.
  eapply wp_seq; [apply (gets_loop m buf 0 n inp); [lia|done|]|].
  { rewrite Z.add_0_r. intros i Hi. apply Hm. lia. }
  intros r [m1 i1] (Hr & Hm1 & Hi1). simpl in Hm1, Hi1. subst m1 i1. rewrite Z.add_0_r.
  replace (Z.max 0 (max - 1)) with (0 + Z.of_nat n) by lia. rewrite Hr, Z.add_0_l.
  apply wp_bind, wp_um, wp_store; simpl; [apply (mapped_mput _ _ _ _ _ Hm); lia|].
  apply wp_ret. simpl. change (u8 0) with 0.
  rewrite <-mput_snoc. split_and!; [done|apply holds_mput|done|].
  intros b Hout. apply lookup_mput_out. rewrite length_app. simpl. lia.
Qed.

Lemma gets_line_witness :
  wp (gets 100 4) (λ r s', r = 100 ∧ holds (u_mem s') 100 [97; 98; 99; 0] ∧ u_in s' = [100; 10] ∧
    ∀ b, ¬ (100 ≤ b < 104) → u_mem s' !! b = mput ∅ 100 [1; 1; 1; 1] !! b)
    (Ust (mput ∅ 100 [1; 1; 1; 1]) [97; 98; 99; 100; 10]).
Proof.
  apply (gets_line (mput ∅ 100 [1; 1; 1; 1]) 100 4 [97; 98; 99; 100; 10]).
  - lia.
  - repeat constructor; unfold is_byte; lia.
  - apply (holds_mapped _ 100 [1; 1; 1; 1]), holds_mput.
Defined.

(** [atoi] returns the value of the decimal digits at the start of the
    string, provided that the value plus 48 fits an [int] (the intermediate
    sum of the last iteration overflows otherwise). *)
Theorem atoi_decimal m s l c :
  holds m s (l ++ [c]) → Forall is_digit l → ¬ is_digit c → decimal l + 48 < 2 ^ 31 →
  wp (atoi s) (λ r m', r = decimal l ∧ m' = m) m.
Proof. apply atoi_spec. Qed.

Lemma atoi_decimal_witness :
  wp (atoi 100) (λ r m', r = 205 ∧ m' = mput ∅ 100 [50; 48; 53; 0]) (mput ∅ 100 [50; 48; 53; 0]).
Proof.
  apply (atoi_decimal _ 100 [50; 48; 53] 0).
  - apply holds_mput.
  - repeat constructor; unfold is_digit; lia.
  - unfold is_digit. lia.
  - vm_compute. reflexivity.
Defined.
