(* ===== verification/Kalloc.v ===== *)
(** * The physical page allocator ([kernel/kalloc.c])

    Physical memory is a map from page addresses to the 4096 bytes of each
    page.  A free page stores the address of the next free page in its first
    eight bytes ([struct run]).  The end of the kernel image ([end], placed by
    the linker) is the parameter [kend]. *)

From S2P Require Import Prelude Word Param.

(** ** kernel/riscv.h, kernel/memlayout.h *)
Definition PGSIZE : Z := 4096.
Definition PGSHIFT : Z := 12.
(** [x & ~(PGSIZE-1)] clears the offset bits. *)
Definition PGROUNDDOWN (a : Z) : Z := a - a mod PGSIZE.
Definition PGROUNDUP (sz : Z) : Z := PGROUNDDOWN (u64 (sz + PGSIZE - 1)).
Definition KERNBASE : Z := 0x80000000.
Definition PHYSTOP : Z := KERNBASE + 128 * 1024 * 1024.

Ltac pages_lia := unfold PGROUNDUP, PGROUNDDOWN, PGSIZE, PHYSTOP, KERNBASE in *; lia.

(** The masks of the macros. *)
Lemma PGROUNDDOWN_land a : 0 ≤ a < 2 ^ 64 → PGROUNDDOWN a = Z.land a (2 ^ 64 - PGSIZE).
Proof.
  intros Ha. unfold PGROUNDDOWN, PGSIZE.
  replace (2 ^ 64 - 4096) with (Z.shiftl (Z.ones 52) 12) by (vm_compute; reflexivity).
  apply Z.bits_inj'. intros n Hn. rewrite Z.land_spec, Z.shiftl_spec by lia.
  assert (a - a mod 4096 = Z.shiftl (Z.shiftr a 12) 12) as ->.
  { rewrite Z.shiftl_mul_pow2, Z.shiftr_div_pow2 by lia. change (2 ^ 12) with 4096.
    pose proof (Z.div_mod a 4096). lia. }
  rewrite Z.shiftl_spec by lia. destruct (decide (n < 12)).
  - rewrite !(Z.testbit_neg_r _ (n - 12)) by lia. by rewrite andb_false_r.
  - rewrite Z.shiftr_spec by lia. replace (n - 12 + 12) with n by lia.
    rewrite Z.testbit_ones_nonneg by lia. destruct (Z.ltb_spec (n - 12) 52); [by rewrite andb_true_r|].
    rewrite (Z.bits_above_log2 a n); [done|lia|].
    destruct (decide (a = 0)) as [->|]; [simpl; lia|]. apply Z.log2_lt_pow2; [lia|].
    apply Z.lt_le_trans with (2 ^ 64); [lia|]. apply Z.pow_le_mono_r; lia.
Qed.

(** ** State *)
Abbreviation page := (list Z).
Record pst := Pst { pages : gmap Z page; freelist : Z }.

Definition page_get (p : Z) : K pst page :=
  ps ← gets pages;
  match ps !! p with
  | Some x => mret x
  | None => undefined "physical memory"
  end.
Definition page_put (p : Z) (x : page) : K pst unit :=
  page_get p;;
  modify (λ s, Pst (<[p := x]> (pages s)) (freelist s)).

(** [memset(p, c, PGSIZE)] of a page. *)
Definition const_page (c : Z) : page := replicate (Z.to_nat PGSIZE) c.
#[global] Arguments const_page : simpl never.
Definition page_fill (p c : Z) : K pst unit := page_put p (const_page c).

Lemma length_const_page c : length (const_page c) = Z.to_nat PGSIZE.
Proof. apply length_replicate. Qed.
#[global] Opaque const_page.

(** The [i]-th 64-bit word of a page. *)
Definition word_off (i : Z) : nat := Z.to_nat (8 * i).
Definition word_get (p i : Z) : K pst Z := x ← page_get p; mret (get64 x (word_off i)).
Definition word_put (p i w : Z) : K pst unit := x ← page_get p; page_put p (put64 x (word_off i) w).

(** ** Operations *)
Section kalloc.
Context (kend : Z).

Definition kfree (pa : Z) : K pst unit :=
  panic_if (negb (pa mod PGSIZE =? 0) || (pa <? kend) || (PHYSTOP <=? pa)) "kfree";;
  page_fill pa 1;;
  fl ← gets freelist;
  word_put pa 0 fl;;
  modify (λ s, Pst (pages s) pa).

Definition kalloc : K pst Z :=
  r ← gets freelist;
  if r =? 0 then mret 0
  else
    nx ← word_get r 0;
    modify (λ s, Pst (pages s) nx);;
    page_fill r 5;;
    mret r.

Definition freerange (pa_start pa_end : Z) : K pst unit :=
  let p := PGROUNDUP pa_start in
  for_each (Z.to_nat ((pa_end - p) / PGSIZE)) 0 (λ i, kfree (p + i * PGSIZE)).

Definition kinit : K pst unit := freerange kend PHYSTOP.
End kalloc.

(** ** The free list *)

(** Following [next] from [a] visits [l] and ends in 0. *)
Fixpoint chain (ps : gmap Z page) (a : Z) (l : list Z) : Prop :=
  match l with
  | [] => a = 0
  | p :: l => a = p ∧ p ≠ 0 ∧ ∃ x, ps !! p = Some x ∧ chain ps (get64 x 0) l
  end.

Definition page_ok (kend p : Z) : Prop := p mod PGSIZE = 0 ∧ kend ≤ p < PHYSTOP ∧ 0 < p.

Record KInv (kend : Z) (s : pst) (l : list Z) : Prop := {
  ki_chain : chain (pages s) (freelist s) l;
  ki_nodup : NoDup l;
  ki_ok : ∀ p, p ∈ l → page_ok kend p;
  ki_size : ∀ p x, pages s !! p = Some x → length x = Z.to_nat PGSIZE;
}.

Section specs.
Context (kend : Z).
Implicit Types (s : pst) (l : list Z).

Lemma chain_ext ps ps' a l :
  (∀ p, p ∈ l → ps' !! p = ps !! p) → chain ps a l → chain ps' a l.
Proof using Type.
  revert a. induction l as [|q l IH]; intros a Hp; [done|]. simpl.
  intros (-> & Hq & x & Hx & Hc). split_and!; [done|done|]. exists x.
  rewrite Hp by set_solver. split; [done|]. apply IH; [set_solver|done].
Qed.

Lemma wp_page_get p x (Q : page → pst → Prop) s :
  pages s !! p = Some x → Q x s → wp (page_get p) Q s.
Proof using Type. intros Hp HQ. unfold page_get. wp_steps. by rewrite Hp. Qed.

Lemma wp_page_put p x (Q : unit → pst → Prop) s :
  is_Some (pages s !! p) → Q tt (Pst (<[p := x]> (pages s)) (freelist s)) → wp (page_put p x) Q s.
Proof using Type.
  intros [y Hy] HQ. unfold page_put. apply wp_bind. by eapply wp_page_get.
Qed.

Lemma wp_word_get p i x (Q : Z → pst → Prop) s :
  pages s !! p = Some x → Q (get64 x (word_off i)) s → wp (word_get p i) Q s.
Proof using Type. intros Hp HQ. unfold word_get. apply wp_bind. by eapply wp_page_get. Qed.

Lemma wp_word_put p i w x (Q : unit → pst → Prop) s :
  pages s !! p = Some x → Q tt (Pst (<[p := put64 x (word_off i) w]> (pages s)) (freelist s)) →
  wp (word_put p i w) Q s.
Proof using Type.
  intros Hp HQ. unfold word_put. apply wp_bind. eapply wp_page_get; [done|]. apply wp_page_put; [by eexists|done].
Qed.

Lemma KInv_head s p l :
  KInv kend s (p :: l) → freelist s = p ∧ p ≠ 0 ∧ ∃ x, pages s !! p = Some x ∧ chain (pages s) (get64 x 0) l.
Proof using Type. intros [(-> & H) _ _ _]. naive_solver. Qed.

Lemma KInv_freelist s l : KInv kend s l → 0 ≤ freelist s < 2 ^ 64.
Proof using Type.
  intros Hinv. destruct l as [|p l].
  - pose proof (ki_chain _ _ _ Hinv) as Hc. simpl in Hc. lia.
  - destruct (KInv_head _ _ _ Hinv) as (-> & _). destruct (ki_ok _ _ _ Hinv p) as (_ & ? & ?); [by left|].
    pages_lia.
Qed.

Lemma kalloc_spec s l :
  KInv kend s l →
  wp kalloc (λ r s',
    match l with
    | [] => r = 0 ∧ s' = s
    | p :: l' => r = p ∧ KInv kend s' l' ∧
        pages s' = <[p := const_page 5]> (pages s)
    end) s.
Proof using Type.
  intros Hinv. unfold kalloc. apply wp_bind, wp_gets. destruct l as [|p l].
  - pose proof (ki_chain _ _ _ Hinv) as Hc. simpl in Hc. rewrite Hc. by apply wp_ret.
  - destruct (KInv_head _ _ _ Hinv) as (Hf & Hp0 & x & Hx & Hc). rewrite Hf.
    rewrite (proj2 (Z.eqb_neq p 0)) by done. apply wp_bind. eapply wp_word_get; [done|].
    change (word_off 0) with 0%nat. apply wp_bind, wp_modify, wp_bind, wp_page_put; [by eexists|].
    apply wp_ret. split_and!; [done| |done]. destruct Hinv as [_ Hnd Hok Hsz].
    apply NoDup_cons in Hnd as [Hnin Hnd]. split; cbn [pages freelist].
    + eapply chain_ext; [|done]. intros q Hq. rewrite lookup_insert_ne; [done|]. by intros ->.
    + done.
    + intros q Hq. apply Hok. by right.
    + intros q y [[<- <-]|[_ Hy]]%lookup_insert_Some; [apply length_const_page|eauto].
Qed.

Lemma kfree_exact s pa :
  page_ok kend pa → is_Some (pages s !! pa) →
  wp (kfree kend pa) (λ _ s', freelist s' = pa ∧ pages s' = <[pa := put64 (const_page 1) 0 (freelist s)]> (pages s)) s.
Proof using Type.
  intros (Hal & Hrng & Hpos) Hpg. unfold kfree. apply wp_bind, wp_panic_if.
  { rewrite !orb_false_iff, negb_false_iff, Z.eqb_eq, Z.ltb_ge, Z.leb_gt. lia. }
  apply wp_bind, wp_page_put; [done|]. apply wp_bind, wp_gets. cbn [pages freelist].
  apply wp_bind. eapply wp_word_put; [apply lookup_insert_eq|]. cbn [pages freelist]. apply wp_modify.
  change (word_off 0) with 0%nat. by rewrite insert_insert_eq.
Qed.

Lemma kfree_spec s l pa :
  KInv kend s l → page_ok kend pa → pa ∉ l → is_Some (pages s !! pa) →
  wp (kfree kend pa) (λ _ s', KInv kend s' (pa :: l) ∧
    ∀ q, q ≠ pa → pages s' !! q = pages s !! q) s.
Proof using Type.
  intros Hinv Hpa Hnin Hpg. pose proof (KInv_freelist _ _ Hinv) as Hfl. pose proof Hpa as (Hal & Hrng & Hpos).
  destruct Hinv as [Hc Hnd Hok Hsz]. eapply wp_mono; [by apply kfree_exact|]. intros [] [ps fl]; cbn [pages freelist]; intros [-> ->].
  split; [split|]; cbn [pages freelist].
  - split_and!; [done|lia|]. eexists. split; [apply lookup_insert_eq|].
    rewrite getn_putn_same by (rewrite length_const_page; unfold PGSIZE; lia).
    rewrite Z.mod_small by lia. eapply chain_ext; [|done].
    intros q Hq. rewrite lookup_insert_ne; [done|]. by intros ->.
  - by apply NoDup_cons.
  - intros q [->|Hq]%elem_of_cons; [done|by apply Hok].
  - intros q y [[<- <-]|[_ Hy]]%lookup_insert_Some; [|eauto].
    rewrite length_putn; rewrite length_const_page; [done|unfold PGSIZE; lia].
  - intros q Hq. by rewrite lookup_insert_ne.
Qed.

(** Page addresses from [p] on. *)
Definition page_seq (p : Z) (n : nat) : list Z := (λ i, p + Z.of_nat i * PGSIZE) <$> seq 0 n.

Lemma elem_of_page_seq p n q :
  q ∈ page_seq p n ↔ ∃ i, (i < n)%nat ∧ q = p + Z.of_nat i * PGSIZE.
Proof using Type.
  unfold page_seq. rewrite list_elem_of_fmap. setoid_rewrite elem_of_seq. split.
  - intros (i & -> & ?). exists i. split; [lia|done].
  - intros (i & ? & ->). exists i. split; [done|lia].
Qed.

Lemma PGROUNDUP_spec a :
  0 ≤ a < 2 ^ 64 - PGSIZE → PGROUNDUP a mod PGSIZE = 0 ∧ a ≤ PGROUNDUP a < a + PGSIZE.
Proof using Type.
  intros Ha. unfold PGROUNDUP, u64. rewrite wrap_small by (unfold PGSIZE in *; lia).
  unfold PGROUNDDOWN. pose proof (Z.mod_pos_bound (a + PGSIZE - 1) PGSIZE ltac:(done)).
  split; [|lia]. rewrite Zminus_mod_idemp_r, Z.sub_diag. done.
Qed.

Lemma page_ok_seq p :
  0 < kend < PHYSTOP →
  page_ok kend p ↔ p ∈ page_seq (PGROUNDUP kend) (Z.to_nat ((PHYSTOP - PGROUNDUP kend) / PGSIZE)).
Proof using Type.
  intros Hk. destruct (PGROUNDUP_spec kend) as [Hal Hr]; [pages_lia|].
  set (p0 := PGROUNDUP kend) in *. rewrite elem_of_page_seq. unfold page_ok.
  pose proof (Z.div_mod p0 PGSIZE ltac:(done)) as E0. rewrite Hal in E0. set (k0 := p0 / PGSIZE) in *.
  assert (PHYSTOP = 557056 * PGSIZE) as EP by done.
  assert ((PHYSTOP - p0) / PGSIZE = 557056 - k0) as ->.
  { rewrite E0, EP. replace (557056 * PGSIZE - (PGSIZE * k0 + 0)) with ((557056 - k0) * PGSIZE) by lia.
    by apply Z.div_mul. }
  split.
  - intros (Hp & Hrng & Hpos). pose proof (Z.div_mod p PGSIZE ltac:(done)) as E. rewrite Hp in E.
    exists (Z.to_nat (p / PGSIZE - k0)). unfold PGSIZE in *. lia.
  - intros (i & Hi & ->). unfold PGSIZE in *. split_and!; try lia.
    rewrite E0. replace (4096 * k0 + 0 + Z.of_nat i * 4096) with ((k0 + Z.of_nat i) * 4096) by lia.
    by apply Z.mod_mul.
Qed.

Lemma kinit_spec s :
  0 < kend < PHYSTOP → KInv kend s [] → (∀ p, page_ok kend p → is_Some (pages s !! p)) →
  wp (kinit kend) (λ _ s', ∃ l, KInv kend s' l ∧ (∀ p, p ∈ l ↔ page_ok kend p)) s.
Proof using Type.
  intros Hk Hinv Hram. unfold kinit, freerange. set (p0 := PGROUNDUP kend).
  set (n := Z.to_nat ((PHYSTOP - p0) / PGSIZE)).
  apply (wp_for_each (λ i s', KInv kend s' (reverse (page_seq p0 (Z.to_nat i))) ∧
    ∀ p, page_ok kend p → is_Some (pages s' !! p))); [done| |].
  - intros i s1 Hi [Hinv1 Hram1]. set (p := p0 + i * PGSIZE).
    assert (p ∈ page_seq p0 n) as Hp.
    { apply elem_of_page_seq. exists (Z.to_nat i). split; [lia|]. unfold p. by rewrite Z2Nat.id by lia. }
    apply page_ok_seq in Hp; [|done].
    eapply wp_mono; [apply (kfree_spec s1 _ p Hinv1 Hp)|].
    + rewrite elem_of_reverse, elem_of_page_seq. intros (j & Hj & E). unfold p, PGSIZE in E. lia.
    + by apply Hram1.
    + intros _ s2 [Hinv2 Hoth]. replace (Z.to_nat (i + 1)) with (S (Z.to_nat i)) by lia.
      unfold page_seq in *. rewrite seq_S, fmap_app, reverse_app. simpl.
      replace (Z.of_nat (Z.to_nat i)) with i by lia. split; [done|].
      intros q Hq. destruct (decide (q = p)) as [->|Hne]; [|rewrite Hoth by done; by apply Hram1].
      destruct (KInv_head _ _ _ Hinv2) as (_ & _ & x & Hx & _). by exists x.
  - intros s1 [Hinv1 _]. eexists. split; [exact Hinv1|]. intros p. rewrite elem_of_reverse.
    rewrite page_ok_seq by done. unfold n. rewrite Z.add_0_l, Nat2Z.id. done.
Qed.
End specs.

(** ** Clients of the allocator

    A run of the system: calls of [kalloc] and [kfree], and writes of its
    clients to pages they own.  [O] is the set of pages handed out. *)
Section clients.
Context (kend : Z).

Inductive kstep : pst → gset Z → pst → gset Z → Prop :=
  | step_alloc s O r s' :
      kalloc s = Ok (r, s') → kstep s O s' (if decide (r = 0) then O else {[r]} ∪ O)
  | step_free s O p s' :
      p ∈ O → kfree kend p s = Ok (tt, s') → kstep s O s' (O ∖ {[p]})
  | step_use s O p x :
      p ∈ O → length x = Z.to_nat PGSIZE →
      kstep s O (Pst (<[p := x]> (pages s)) (freelist s)) O.

Inductive kreach : pst → gset Z → Prop :=
  | reach_init s s' :
      KInv kend s [] → (∀ p, page_ok kend p → is_Some (pages s !! p)) →
      kinit kend s = Ok (tt, s') → kreach s' ∅
  | reach_next s O s' O' : kreach s O → kstep s O s' O' → kreach s' O'.

(** Every page is either free or handed out. *)
Definition Owned (s : pst) (O : gset Z) (l : list Z) : Prop :=
  KInv kend s l ∧ (∀ p, page_ok kend p ↔ p ∈ l ∨ p ∈ O) ∧ (∀ p, p ∈ l → p ∉ O) ∧
  (∀ p, p ∈ O → is_Some (pages s !! p)).

Lemma KInv_use s l p x :
  KInv kend s l → p ∉ l → length x = Z.to_nat PGSIZE →
  KInv kend (Pst (<[p := x]> (pages s)) (freelist s)) l.
Proof using Type.
  intros [Hc Hnd Hok Hsz] Hp Hx. split; cbn [pages freelist]; try done.
  - eapply chain_ext; [|done]. intros q Hq. rewrite lookup_insert_ne; [done|]. by intros ->.
  - intros q y [[<- <-]|[_ Hy]]%lookup_insert_Some; [done|eauto].
Qed.

Lemma Owned_alloc s O l :
  Owned s O l →
  wp kalloc (λ r s', (r = 0 ∧ l = [] ∧ Owned s' O l) ∨
    (r ≠ 0 ∧ ∃ l', l = r :: l' ∧ Owned s' ({[r]} ∪ O) l')) s.
Proof using Type.
  intros (Hinv & Hpart & Hdis & Hram). eapply wp_mono; [by eapply kalloc_spec|].
  intros r s' Hs. destruct l as [|p l]; [destruct Hs as [-> ->]; by left|].
  destruct Hs as (-> & Hinv' & Hpg). right. pose proof (ki_nodup _ _ _ Hinv) as [Hnin Hnd]%NoDup_cons.
  split; [apply (KInv_head _ _ _ _ Hinv)|]. exists l. split; [done|]. split_and!; [done| | |].
  - intros q. rewrite Hpart. set_solver.
  - intros q Hq. pose proof (Hdis q ltac:(by right)). set_solver.
  - intros q Hq. rewrite Hpg. apply lookup_insert_is_Some'. set_solver.
Qed.

Lemma Owned_free s O l p :
  Owned s O l → p ∈ O → wp (kfree kend p) (λ _ s', Owned s' (O ∖ {[p]}) (p :: l)) s.
Proof using Type.
  intros (Hinv & Hpart & Hdis & Hram) Hp.
  eapply wp_mono; [eapply kfree_spec; [done|apply Hpart; by right| |by apply Hram]|].
  { intros Hl. by apply (Hdis p). }
  intros _ s' [Hinv' Hoth]. split_and!; [done| | |].
  - intros q. rewrite Hpart. destruct (decide (q = p)); set_solver.
  - intros q Hq. apply elem_of_cons in Hq as [->|Hq]; [set_solver|]. pose proof (Hdis q Hq). set_solver.
  - intros q Hq. rewrite Hoth by set_solver. apply Hram. set_solver.
Qed.

Lemma kreach_owned s O : 0 < kend < PHYSTOP → kreach s O → ∃ l, Owned s O l.
Proof using Type.
  intros Hk. induction 1 as [s s' Hinv Hram Hrun|s O s' O' _ [l Hl] Hstep].
  - destruct (wp_elim _ _ _ _ _ (kinit_spec kend s Hk Hinv Hram) Hrun) as (l & Hl & Hall).
    exists l. clear Hrun. split_and!; [done| | |by intros p ?%elem_of_empty].
    + intros p. rewrite <-Hall. split; [by left|]. intros [?|Hp]; [done|by apply elem_of_empty in Hp].
    + intros p _. apply not_elem_of_empty.
  - destruct Hstep as [s O r s' Hrun|s O p s' Hp Hrun|s O p x Hp Hx].
    + destruct (wp_elim _ _ _ _ _ (Owned_alloc s O l Hl) Hrun) as [(-> & _ & Hl')|(Hr & l' & _ & Hl')].
      * rewrite decide_True by done. by exists l.
      * rewrite decide_False by done. by exists l'.
    + eexists. exact (wp_elim _ _ _ _ _ (Owned_free s O l p Hl Hp) Hrun).
    + destruct Hl as (Hinv & Hpart & Hdis & Hram). exists l. split_and!; [|done|done|].
      * apply KInv_use; [done| |done]. intros Hin. by apply (Hdis p).
      * intros q Hq. cbn [pages]. apply lookup_insert_is_Some'. right. by apply Hram.
Qed.
End clients.

(** * Properties *)

(** C18. The allocator hands out disjoint pages: in every state reached from
    [kinit] by allocating, freeing and using pages, [kalloc] either returns 0,
    and then every page of RAM is in use and nothing has changed, or returns an
    aligned page of RAM that nobody owns, filled with 5, every other page being as
    before.  Freeing an owned page never panics; it fills the page with 1, but for
    the link of the free list, and the next [kalloc] returns it. *)
Theorem kalloc_disjoint kend s O :
  0 < kend < PHYSTOP → kreach kend s O →
  wp kalloc (λ r s', if decide (r = 0) then s' = s ∧ ∀ p, page_ok kend p → p ∈ O
                     else page_ok kend r ∧ r ∉ O ∧ pages s' = <[r := const_page 5]> (pages s)) s ∧
  ∀ p, p ∈ O → wp (kfree kend p) (λ _ s', freelist s' = p ∧
    pages s' = <[p := put64 (const_page 1) 0 (freelist s)]> (pages s)) s.
Proof.
  intros Hk Hr. destruct (kreach_owned kend s O Hk Hr) as [l (Hinv & Hpart & Hdis & Hram)]. split.
  - eapply wp_mono; [by eapply kalloc_spec|]. intros r s' Hs. destruct l as [|q l].
    + destruct Hs as [-> ->]. rewrite decide_True by done. split; [done|]. intros p Hp%Hpart. set_solver.
    + destruct (KInv_head _ _ _ _ Hinv) as (_ & Hq0 & _). destruct Hs as (-> & _ & Hpg). rewrite decide_False by done.
      split_and!; [apply Hpart; left; set_solver|apply Hdis; set_solver|done].
  - intros p Hp. apply kfree_exact; [apply Hpart; by right|by apply Hram].
Qed.

(** RAM with two pages after the kernel. *)
Definition two_pages : pst :=
  Pst (<[PHYSTOP - 2 * PGSIZE := const_page 0]> (<[PHYSTOP - PGSIZE := const_page 0]> ∅)) 0.

Lemma two_pages_ok :
  KInv (PHYSTOP - 5000) two_pages [] ∧
  (∀ p, page_ok (PHYSTOP - 5000) p → is_Some (pages two_pages !! p)).
Proof.
  split; [split; [reflexivity|constructor|intros p Hp; by apply elem_of_nil in Hp|]|].
  - intros p x Hp. unfold two_pages in Hp. cbn [pages] in Hp.
    apply lookup_insert_Some in Hp as [[_ <-]|[_ [[_ <-]|[_ Hp]]%lookup_insert_Some]]; [apply length_const_page..|].
    by rewrite lookup_empty in Hp.
  - intros p (Hal & Hrng & _). assert (p = PHYSTOP - PGSIZE) as ->.
    { pose proof (Z.div_mod p PGSIZE ltac:(done)). pages_lia. }
    unfold two_pages. cbn [pages]. rewrite lookup_insert_ne by pages_lia. rewrite lookup_insert_eq. eexists. reflexivity.
Qed.

Lemma kalloc_disjoint_witness : ∃ s, kreach (PHYSTOP - 5000) s ∅ ∧
  wp kalloc (λ r s', r = PHYSTOP - PGSIZE ∧ pages s' !! r = Some (const_page 5)) s.
Proof.
  destruct two_pages_ok as [H1 H2].
  destruct (proj1 (wp_ok _ _ _) (kinit_spec (PHYSTOP - 5000) two_pages ltac:(done) H1 H2)) as ([] & s & Hrun & _).
  pose proof (reach_init _ _ _ H1 H2 Hrun) as Hr. exists s. split; [exact Hr|].
  eapply wp_mono; [exact (proj1 (kalloc_disjoint (PHYSTOP - 5000) s ∅ ltac:(done) Hr))|]. cbv beta. intros r s'. case_decide as Er.
  - intros [_ Hall]. exfalso. apply (not_elem_of_empty (C := gset Z) (PHYSTOP - PGSIZE)), Hall. split; [done|pages_lia].
  - intros ((Hal & Hrng & _) & _ & ->). rewrite lookup_insert_eq. split; [|done].
    pose proof (Z.div_mod r PGSIZE ltac:(done)). pages_lia.
Defined.
