(* ===== verification/Vm.v ===== *)
(** * Page tables and user memory ([kernel/vm.c])

    Sv39 page tables live in the pages of the allocator's physical memory:
    every entry is read and written as a 64-bit word of a page, and tables are
    allocated and freed with [kalloc] and [kfree].  User memory is accessed
    through [copyout], [copyin] and [copyinstr].  Buffers of the kernel are
    lists of bytes. *)

From S2P Require Import Prelude Word Param Kalloc.

(** ** kernel/riscv.h *)
Definition PTE_V : Z := 1.
Definition PTE_R : Z := 2.
Definition PTE_W : Z := 4.
Definition PTE_X : Z := 8.
Definition PTE_U : Z := 16.
Definition PA2PTE (pa : Z) : Z := u64 (Z.shiftl (Z.shiftr pa 12) 10).
Definition PTE2PA (pte : Z) : Z := u64 (Z.shiftl (Z.shiftr pte 10) 12).
Definition PTE_FLAGS (pte : Z) : Z := Z.land pte 0x3FF.
Definition PXMASK : Z := 0x1FF.
Definition PXSHIFT (level : Z) : Z := PGSHIFT + 9 * level.
Definition PX (level va : Z) : Z := Z.land (Z.shiftr va (PXSHIFT level)) PXMASK.
Definition MAXVA : Z := Z.shiftl 1 (9 + 9 + 9 + 12 - 1).
Definition SATP_SV39 : Z := Z.shiftl 8 60.
Definition MAKE_SATP (pagetable : Z) : Z := Z.lor SATP_SV39 (Z.shiftr pagetable 12).

(** [*pte] and [*pte = v] *)
Definition ld64 (a : Z) : K pst Z := word_get (PGROUNDDOWN a) (a mod PGSIZE / 8).
Definition st64 (a v : Z) : K pst unit := word_put (PGROUNDDOWN a) (a mod PGSIZE / 8) v.

(** [x & flag] as a condition *)
Definition bit (x flag : Z) : bool := negb (Z.land x flag =? 0).

(** ** kernel/memlayout.h *)
Definition UART0 : Z := 0x10000000.
Definition VIRTIO0 : Z := 0x10001000.
Definition PLIC : Z := 0x0c000000.
Definition TRAMPOLINE : Z := MAXVA - PGSIZE.
Definition KSTACK (p : Z) : Z := TRAMPOLINE - (p + 1) * 2 * PGSIZE.
Definition TRAPFRAME : Z := TRAMPOLINE - PGSIZE.

Section vm.
Context (kend : Z).

(** The loop of [walk], from [level] down to 1. *)
Fixpoint walk_levels (level : nat) (pagetable va : Z) (alloc : bool) : K pst Z :=
  match level with
  | O => mret (pagetable + 8 * PX 0 va)
  | S level' =>
      let pte := pagetable + 8 * PX (Z.of_nat level) va in
      v ← ld64 pte;
      if bit v PTE_V then walk_levels level' (PTE2PA v) va alloc
      else if negb alloc then mret 0
      else
        q ← kalloc;
        if q =? 0 then mret 0
        else
          page_fill q 0;;
          st64 pte (Z.lor (PA2PTE q) PTE_V);;
          walk_levels level' q va alloc
  end.

Definition walk (pagetable va : Z) (alloc : bool) : K pst Z :=
  panic_if (MAXVA <=? va) "walk";;
  walk_levels 2 pagetable va alloc.

Definition walkaddr (pagetable va : Z) : K pst Z :=
  if MAXVA <=? va then mret 0 else
  pte ← walk pagetable va false;
  if pte =? 0 then mret 0 else
  v ← ld64 pte;
  if negb (bit v PTE_V) then mret 0 else
  if negb (bit v PTE_U) then mret 0 else
  mret (PTE2PA v).

(** The loop of [mappages] ends when [a] reaches [last], after [size/PGSIZE]
    iterations. *)
Definition mappages (pagetable va size pa perm : Z) : K pst Z :=
  panic_if (negb (va mod PGSIZE =? 0)) "mappages: va not aligned";;
  panic_if (negb (size mod PGSIZE =? 0)) "mappages: size not aligned";;
  panic_if (size =? 0) "mappages: size";;
  let last := u64 (va + size - PGSIZE) in
  while_loop (Z.to_nat (size / PGSIZE)) (va, pa) (λ '(a, pa),
    pte ← walk pagetable a true;
    if pte =? 0 then mret (inr (-1)) else
    v ← ld64 pte;
    panic_if (bit v PTE_V) "mappages: remap";;
    st64 pte (Z.lor (Z.lor (PA2PTE pa) perm) PTE_V);;
    if a =? last then mret (inr 0) else mret (inl (u64 (a + PGSIZE), u64 (pa + PGSIZE)))).

Definition kvmmap (kpgtbl va pa sz perm : Z) : K pst unit :=
  r ← mappages kpgtbl va sz pa perm;
  panic_if (negb (r =? 0)) "kvmmap".

Definition uvmunmap (pagetable va npages : Z) (do_free : bool) : K pst unit :=
  panic_if (negb (va mod PGSIZE =? 0)) "uvmunmap: not aligned";;
  let stop := u64 (va + u64 (npages * PGSIZE)) in
  while_loop (S (Z.to_nat npages)) va (λ a,
    if negb (a <? stop) then mret (inr tt) else
    pte ← walk pagetable a false;
    panic_if (pte =? 0) "uvmunmap: walk";;
    v ← ld64 pte;
    panic_if (negb (bit v PTE_V)) "uvmunmap: not mapped";;
    panic_if (PTE_FLAGS v =? PTE_V) "uvmunmap: not a leaf";;
    when do_free (kfree kend (PTE2PA v));;
    st64 pte 0;;
    mret (inl (u64 (a + PGSIZE)))).

Definition uvmcreate : K pst Z :=
  pagetable ← kalloc;
  if pagetable =? 0 then mret 0 else
  page_fill pagetable 0;;
  mret pagetable.

(** [memmove] of bytes into one page at an offset; the source never runs over
    the end of the page. *)
Definition page_write (p : Z) (off : nat) (l : list Z) : K pst unit :=
  x ← page_get p;
  if (length x <? off + length l)%nat then undefined "page_write"
  else page_put p (splice x off l).
Definition page_read (p : Z) (off n : nat) : K pst (list Z) :=
  x ← page_get p;
  if (length x <? off + n)%nat then undefined "page_read"
  else mret (slice x off n).

Definition uvmfirst (pagetable : Z) (src : list Z) : K pst unit :=
  panic_if (PGSIZE <=? Z.of_nat (length src)) "uvmfirst: more than a page";;
  mem ← kalloc;
  page_fill mem 0;;
  mappages pagetable 0 PGSIZE mem (Z.lor PTE_W (Z.lor PTE_R (Z.lor PTE_X PTE_U)));;
  page_write mem 0 src.

(** [npages] is an [int]. *)
Definition uvmdealloc (pagetable oldsz newsz : Z) : K pst Z :=
  if oldsz <=? newsz then mret oldsz else
  when (PGROUNDUP newsz <? PGROUNDUP oldsz)
    (let npages := s32 ((PGROUNDUP oldsz - PGROUNDUP newsz) / PGSIZE) in
     uvmunmap pagetable (PGROUNDUP newsz) (u64 npages) true);;
  mret newsz.

Definition uvmalloc (pagetable oldsz newsz xperm : Z) : K pst Z :=
  if newsz <? oldsz then mret oldsz else
  let oldsz := PGROUNDUP oldsz in
  while_loop (S (Z.to_nat ((newsz - oldsz + PGSIZE - 1) / PGSIZE))) oldsz (λ a,
    if negb (a <? newsz) then mret (inr newsz) else
    mem ← kalloc;
    if mem =? 0 then uvmdealloc pagetable a oldsz;; mret (inr 0) else
    page_fill mem 0;;
    r ← mappages pagetable a PGSIZE mem (Z.lor (Z.lor PTE_R PTE_U) xperm);
    if negb (r =? 0) then kfree kend mem;; uvmdealloc pagetable a oldsz;; mret (inr 0) else
    mret (inl (u64 (a + PGSIZE)))).

(** The recursion of [freewalk] is as deep as the tree of tables. *)
Fixpoint freewalk (fuel : nat) (pagetable : Z) : K pst unit :=
  match fuel with
  | O => nofuel
  | S fuel =>
      for_each 512 0 (λ i,
        pte ← ld64 (pagetable + 8 * i);
        if bit pte PTE_V && (Z.land pte (Z.lor PTE_R (Z.lor PTE_W PTE_X)) =? 0) then
          freewalk fuel (PTE2PA pte);;
          st64 (pagetable + 8 * i) 0
        else panic_if (bit pte PTE_V) "freewalk: leaf");;
      kfree kend pagetable
  end.

Definition uvmfree (pagetable sz : Z) : K pst unit :=
  when (0 <? sz) (uvmunmap pagetable 0 (PGROUNDUP sz / PGSIZE) true);;
  freewalk 3 pagetable.

Definition uvmcopy (old new sz : Z) : K pst Z :=
  let err i := uvmunmap new 0 (i / PGSIZE) true;; mret (inr (-1)) in
  while_loop (S (Z.to_nat ((sz + PGSIZE - 1) / PGSIZE))) 0 (λ i,
    if negb (i <? sz) then mret (inr 0) else
    pte ← walk old i false;
    panic_if (pte =? 0) "uvmcopy: pte should exist";;
    v ← ld64 pte;
    panic_if (negb (bit v PTE_V)) "uvmcopy: page not present";;
    let pa := PTE2PA v in
    let flags := PTE_FLAGS v in
    mem ← kalloc;
    if mem =? 0 then err i else
    x ← page_get pa;
    page_put mem x;;
    r ← mappages new i PGSIZE mem flags;
    if negb (r =? 0) then kfree kend mem;; err i else
    mret (inl (u64 (i + PGSIZE)))).

Definition uvmclear (pagetable va : Z) : K pst unit :=
  pte ← walk pagetable va false;
  panic_if (pte =? 0) "uvmclear";;
  v ← ld64 pte;
  st64 pte (Z.land v (2 ^ 64 - 1 - PTE_U)).

(** Copying from kernel to user: [src] is the buffer, the loop keeps what is
    left of it.  Each iteration copies at least one byte. *)
Definition copyout (pagetable dstva : Z) (src : list Z) : K pst Z :=
  while_loop (S (length src)) (dstva, src) (λ '(dstva, src),
    let len := Z.of_nat (length src) in
    if len =? 0 then mret (inr 0) else
    let va0 := PGROUNDDOWN dstva in
    if MAXVA <=? va0 then mret (inr (-1)) else
    pte ← walk pagetable va0 false;
    if pte =? 0 then mret (inr (-1)) else
    v ← ld64 pte;
    if negb (bit v PTE_V) || negb (bit v PTE_U) || negb (bit v PTE_W) then mret (inr (-1)) else
    let pa0 := PTE2PA v in
    let n := Z.min (PGSIZE - (dstva - va0)) len in
    page_write pa0 (Z.to_nat (dstva - va0)) (take (Z.to_nat n) src);;
    mret (inl (u64 (va0 + PGSIZE), drop (Z.to_nat n) src))).

(** Copying from user to kernel: [dst] is what has been stored so far. *)
Definition copyin (pagetable srcva len : Z) : K pst (Z * list Z) :=
  while_loop (S (Z.to_nat len)) (srcva, len, []) (λ '(srcva, len, dst),
    if len =? 0 then mret (inr (0, dst)) else
    let va0 := PGROUNDDOWN srcva in
    pa0 ← walkaddr pagetable va0;
    if pa0 =? 0 then mret (inr (-1, dst)) else
    let n := Z.min (PGSIZE - (srcva - va0)) len in
    l ← page_read pa0 (Z.to_nat (srcva - va0)) (Z.to_nat n);
    mret (inl (u64 (va0 + PGSIZE), len - n, dst ++ l))).

(** The inner loop of [copyinstr] over the bytes left in a page: those before
    the first zero, and whether there is one. *)
Fixpoint str_chunk (l : list Z) : list Z * bool :=
  match l with
  | [] => ([], false)
  | c :: l => if c =? 0 then ([0], true) else let '(d, b) := str_chunk l in (c :: d, b)
  end.

Definition copyinstr (pagetable srcva max : Z) : K pst (Z * list Z) :=
  while_loop (S (Z.to_nat max)) (srcva, max, []) (λ '(srcva, max, dst),
    if max =? 0 then mret (inr (-1, dst)) else
    let va0 := PGROUNDDOWN srcva in
    pa0 ← walkaddr pagetable va0;
    if pa0 =? 0 then mret (inr (-1, dst)) else
    let n := Z.min (PGSIZE - (srcva - va0)) max in
    l ← page_read pa0 (Z.to_nat (srcva - va0)) (Z.to_nat n);
    let '(d, got_null) := str_chunk l in
    if got_null then mret (inr (0, dst ++ d))
    else mret (inl (u64 (va0 + PGSIZE), max - n, dst ++ d))).

(** [proc_mapstacks] of [kernel/proc.c]. *)
Definition proc_mapstacks (kpgtbl : Z) : K pst unit :=
  for_each (Z.to_nat NPROC) 0 (λ i,
    pa ← kalloc;
    panic_if (pa =? 0) "kalloc";;
    kvmmap kpgtbl (KSTACK i) pa PGSIZE (Z.lor PTE_R PTE_W)).

(** The linker symbols [etext] and [trampoline]. *)
Context (etext trampoline : Z).

Definition kvmmake : K pst Z :=
  kpgtbl ← kalloc;
  page_fill kpgtbl 0;;
  kvmmap kpgtbl UART0 UART0 PGSIZE (Z.lor PTE_R PTE_W);;
  kvmmap kpgtbl VIRTIO0 VIRTIO0 PGSIZE (Z.lor PTE_R PTE_W);;
  kvmmap kpgtbl PLIC PLIC 0x4000000 (Z.lor PTE_R PTE_W);;
  kvmmap kpgtbl KERNBASE KERNBASE (etext - KERNBASE) (Z.lor PTE_R PTE_X);;
  kvmmap kpgtbl etext etext (PHYSTOP - etext) (Z.lor PTE_R PTE_W);;
  kvmmap kpgtbl TRAMPOLINE trampoline PGSIZE (Z.lor PTE_R PTE_X);;
  proc_mapstacks kpgtbl;;
  mret kpgtbl.
End vm.
