(* ===== verification/Asm.v ===== *)
(** * The assembly code ([kernel/trampoline.S], [kernelvec.S], [swtch.S], [entry.S])

    The instructions that these files use, on the registers of a hart and a
    memory of 64-bit words.  Addresses are translated by the page table in
    [satp]; how the processor does so is the parameter [translate].  Code is a
    list of instructions; the C functions that it calls are parameters. *)

From S2P Require Import Prelude Word Param Kalloc Vm Riscv.

(** ** Memory *)
Class WordMem (M : Type) := {
  wm_load : M → Z → option Z;
  wm_store : M → Z → Z → option M;
}.
(** The words at the addresses [wm_ok m] can be used, and are apart. *)
Class WordMemLaws (M : Type) `{!WordMem M} := {
  wm_ok : M → Z → Prop;
  wm_load_ok m a : wm_ok m a → is_Some (wm_load m a);
  wm_store_ok m a v : wm_ok m a → ∃ m', wm_store m a v = Some m' ∧
    (∀ b, wm_ok m b → wm_ok m' b) ∧ wm_load m' a = Some (u64 v) ∧
    (∀ b, wm_ok m b → b ≠ a → wm_load m' b = wm_load m b);
}.

(** ** Instructions *)
Inductive instr :=
  | Sd (rs : reg) (off : Z) (base : reg)
  | Ld (rd : reg) (off : Z) (base : reg)
  | Li (rd : reg) (imm : Z)
  | Addi (rd rs : reg) (imm : Z)
  | Add (rd rs1 rs2 : reg)
  | Mul (rd rs1 rs2 : reg)
  | Csrw (c : csr) (rs : reg)
  | Csrr (rd : reg) (c : csr)
  | Sfence_vma.

(** ** The code *)
Module Code.
Import Reg Csr.

(** [trampoline.S]: [uservec] up to [jr t0]. *)
Definition uservec_save : list instr :=
  [Sd ra 40 a0; Sd sp 48 a0; Sd gp 56 a0; Sd tp 64 a0;
   Sd t0 72 a0; Sd t1 80 a0; Sd t2 88 a0; Sd s0 96 a0;
   Sd s1 104 a0; Sd a1 120 a0; Sd a2 128 a0; Sd a3 136 a0;
   Sd a4 144 a0; Sd a5 152 a0; Sd a6 160 a0; Sd a7 168 a0;
   Sd s2 176 a0; Sd s3 184 a0; Sd s4 192 a0; Sd s5 200 a0;
   Sd s6 208 a0; Sd s7 216 a0; Sd s8 224 a0; Sd s9 232 a0;
   Sd s10 240 a0; Sd s11 248 a0; Sd t3 256 a0; Sd t4 264 a0;
   Sd t5 272 a0; Sd t6 280 a0].
Definition uservec_code : list instr :=
  [Csrw sscratch a0; Li a0 TRAPFRAME] ++ uservec_save ++
  [Csrr t0 sscratch; Sd t0 112 a0;
   Ld sp 8 a0; Ld tp 32 a0; Ld t0 16 a0; Ld t1 0 a0;
   Sfence_vma; Csrw satp t1; Sfence_vma].
(** [userret] up to [sret]; [a0] is the argument of the call. *)
Definition userret_load : list instr :=
  [Ld ra 40 a0; Ld sp 48 a0; Ld gp 56 a0; Ld tp 64 a0;
   Ld t0 72 a0; Ld t1 80 a0; Ld t2 88 a0; Ld s0 96 a0;
   Ld s1 104 a0; Ld a1 120 a0; Ld a2 128 a0; Ld a3 136 a0;
   Ld a4 144 a0; Ld a5 152 a0; Ld a6 160 a0; Ld a7 168 a0;
   Ld s2 176 a0; Ld s3 184 a0; Ld s4 192 a0; Ld s5 200 a0;
   Ld s6 208 a0; Ld s7 216 a0; Ld s8 224 a0; Ld s9 232 a0;
   Ld s10 240 a0; Ld s11 248 a0; Ld t3 256 a0; Ld t4 264 a0;
   Ld t5 272 a0; Ld t6 280 a0].
Definition userret_code : list instr :=
  [Sfence_vma; Csrw satp a0; Sfence_vma; Li a0 TRAPFRAME] ++ userret_load ++ [Ld a0 112 a0].

(** [kernelvec.S], before and after [call kerneltrap]. *)
Definition kernelvec_save : list instr :=
  [Addi sp sp (-256);
   Sd ra 0 sp; Sd sp 8 sp; Sd gp 16 sp; Sd tp 24 sp;
   Sd t0 32 sp; Sd t1 40 sp; Sd t2 48 sp; Sd a0 72 sp;
   Sd a1 80 sp; Sd a2 88 sp; Sd a3 96 sp; Sd a4 104 sp;
   Sd a5 112 sp; Sd a6 120 sp; Sd a7 128 sp; Sd t3 216 sp;
   Sd t4 224 sp; Sd t5 232 sp; Sd t6 240 sp].
Definition kernelvec_load : list instr :=
  [Ld ra 0 sp; Ld sp 8 sp; Ld gp 16 sp;
   Ld t0 32 sp; Ld t1 40 sp; Ld t2 48 sp; Ld a0 72 sp;
   Ld a1 80 sp; Ld a2 88 sp; Ld a3 96 sp; Ld a4 104 sp;
   Ld a5 112 sp; Ld a6 120 sp; Ld a7 128 sp; Ld t3 216 sp;
   Ld t4 224 sp; Ld t5 232 sp; Ld t6 240 sp;
   Addi sp sp 256].

(** [swtch.S] up to [ret]. *)
Definition swtch_save : list instr :=
  [Sd ra 0 a0; Sd sp 8 a0; Sd s0 16 a0; Sd s1 24 a0; Sd s2 32 a0;
   Sd s3 40 a0; Sd s4 48 a0; Sd s5 56 a0; Sd s6 64 a0; Sd s7 72 a0;
   Sd s8 80 a0; Sd s9 88 a0; Sd s10 96 a0; Sd s11 104 a0].
Definition swtch_load : list instr :=
  [Ld ra 0 a1; Ld sp 8 a1; Ld s0 16 a1; Ld s1 24 a1; Ld s2 32 a1;
   Ld s3 40 a1; Ld s4 48 a1; Ld s5 56 a1; Ld s6 64 a1; Ld s7 72 a1;
   Ld s8 80 a1; Ld s9 88 a1; Ld s10 96 a1; Ld s11 104 a1].
Definition swtch_code : list instr := swtch_save ++ swtch_load.

(** [entry.S] up to [call start]; [stack0] is the array of [start.c]. *)
Definition entry_code (stack0 : Z) : list instr :=
  [Li sp stack0; Li a0 (1024 * 4); Csrr a1 mhartid; Addi a1 a1 1; Mul a0 a0 a1; Add sp sp a0].

(** The system calls of [initcode.S], with what they leave in [a0], [a1] and [a7]. *)
Definition initcode_exec (init argv SYS_exec : Z) : list instr := [Li a0 init; Li a1 argv; Li a7 SYS_exec].
Definition initcode_exit (SYS_exit : Z) : list instr := [Li a7 SYS_exit].
(** A stub made by [usys.pl], up to [ecall]. *)
Definition usys_stub (SYS_name : Z) : list instr := [Li a7 SYS_name].
End Code.

Section exec.
Context {M : Type} `{!WordMem M} (translate : Z → Z → option Z).
Abbreviation mach := (hart * M)%type.

Definition on_hw {A} (m : K hart A) : K mach A := lift fst (λ h s, (h, s.2)) m.
Definition rd (r : reg) : K mach Z := gets (λ s : mach, regs s.1 r).
Definition wr (r : reg) (x : Z) : K mach unit := modify (λ s : mach, (set_reg r (u64 x) s.1, s.2)).
(** The physical address of the operand of a load or store; a misaligned or
    unmapped one traps, which this code must not. *)
Definition operand (off : Z) (base : reg) : K mach Z :=
  b ← rd base;
  va ← mret (u64 (b + off));
  pt ← gets (λ s : mach, csrs s.1 Csr.satp);
  match translate pt va with
  | Some pa => if va mod 8 =? 0 then mret pa else undefined "misaligned"
  | None => undefined "page fault"
  end.

Definition exec1 (i : instr) : K mach unit :=
  match i with
  | Sd rs off base =>
      pa ← operand off base;
      v ← rd rs;
      s ← gets (λ s : mach, wm_store s.2 pa v);
      match s with
      | Some m' => modify (λ s : mach, (s.1, m'))
      | None => undefined "access fault"
      end
  | Ld d off base =>
      pa ← operand off base;
      v ← gets (λ s : mach, wm_load s.2 pa);
      match v with
      | Some x => wr d x
      | None => undefined "access fault"
      end
  | Li d imm => wr d imm
  | Addi d rs imm => x ← rd rs; wr d (x + imm)
  | Add d rs1 rs2 => x ← rd rs1; y ← rd rs2; wr d (x + y)
  | Mul d rs1 rs2 => x ← rd rs1; y ← rd rs2; wr d (x * y)
  | Csrw c rs => x ← rd rs; on_hw (csrw c x)
  | Csrr d c => x ← on_hw (csrr c); wr d x
  | Sfence_vma => on_hw sfence_vma
  end.
Fixpoint exec (l : list instr) : K mach unit :=
  match l with
  | [] => mret tt
  | i :: l => exec1 i;; exec l
  end.
(** [jr rs]. *)
Definition jr (rs : reg) : K mach unit := x ← rd rs; on_hw (modify (set_pc x)).


(** ** The routines *)
Definition uservec : K mach unit := exec Code.uservec_code;; jr Reg.t0.
Definition userret : K mach unit := exec Code.userret_code;; on_hw sret.
Definition kernelvec (kerneltrap : K mach unit) : K mach unit :=
  exec Code.kernelvec_save;; kerneltrap;; exec Code.kernelvec_load;; on_hw sret.
Definition swtch : K mach unit := exec Code.swtch_code;; jr Reg.ra.
Definition entry (stack0 : Z) (start : K mach unit) : K mach unit := exec (Code.entry_code stack0);; start.
End exec.

(** ** Saving and restoring registers *)
Definition stores (base : reg) (l : list (reg * Z)) : list instr := (λ x, Sd x.1 x.2 base) <$> l.
Definition loads (base : reg) (l : list (reg * Z)) : list instr := (λ x, Ld x.1 x.2 base) <$> l.

Section frames.
Context {M : Type} `{!WordMem M, !WordMemLaws M} (translate : Z → Z → option Z).
Abbreviation mach := (hart * M)%type.
Implicit Types (h : hart) (m : M).

(** The [n] bytes from virtual address [va] on lie at [pa] in the page table [pt]. *)
Record area m (pt va n pa : Z) : Prop := {
  ar_align : va mod 8 = 0;
  ar_range : 0 ≤ va ∧ va + n ≤ 2 ^ 64;
  ar_map : ∀ off, 0 ≤ off < n → off mod 8 = 0 → translate pt (va + off) = Some (pa + off);
  ar_ok : ∀ off, 0 ≤ off < n → off mod 8 = 0 → wm_ok m (pa + off);
}.
Definition word_of (n off : Z) : Prop := 0 ≤ off < n ∧ off mod 8 = 0.

Lemma wp_exec_app l l' (Q : unit → mach → Prop) s : wp (exec translate l) (λ _ s', wp (exec translate l') Q s') s → wp (exec translate (l ++ l')) Q s.
Proof using Type.
  clear. revert s. induction l as [|i l IH]; intros s H; simpl in *; [done|]. apply wp_bind. apply wp_bind_inv in H.
  eapply wp_mono; [done|]. intros u s' Hs'. by apply IH.
Qed.

Lemma wp_operand off base n pa (Q : Z → mach → Prop) h m :
  area m (csrs h Csr.satp) (regs h base) n pa → word_of n off → Q (pa + off) (h, m) → wp (operand translate off base) Q (h, m).
Proof using Type.
  intros [Ha Hr Hm _] [Hoff H8] HQ. unfold operand, rd. apply wp_bind, wp_gets, wp_bind, wp_ret, wp_bind, wp_gets. cbn [fst snd].
  unfold u64. rewrite wrap_small by lia. rewrite Hm by done.
  assert ((regs h base + off) mod 8 = 0) as -> by (rewrite Z.add_mod, Ha, H8 by lia; done). by apply wp_ret.
Qed.

Lemma exec_stores base n pa l h m :
  area m (csrs h Csr.satp) (regs h base) n pa → (∀ x, x ∈ l → word_of n x.2) → NoDup l.*2 →
  wp (exec translate (stores base l)) (λ _ s', s'.1 = h ∧
    (∀ b, wm_ok m b → wm_ok s'.2 b) ∧
    (∀ r off, (r, off) ∈ l → wm_load s'.2 (pa + off) = Some (u64 (regs h r))) ∧
    (∀ b, wm_ok m b → (∀ x, x ∈ l → b ≠ pa + x.2) → wm_load s'.2 b = wm_load m b)) (h, m).
Proof using Type.
  revert m. induction l as [|[r off] l IH]; intros m Har Hl Hnd.
  { split_and!; [done|done| |done]. by intros r off ?%elem_of_nil. }
  apply NoDup_cons in Hnd as [Hni Hnd]. assert (word_of n off) as Hw by (apply (Hl (r, off)); by left).
  simpl. apply wp_bind, wp_bind, (wp_operand _ _ n pa); [done|done|]. unfold rd. apply wp_bind, wp_gets, wp_bind, wp_gets. cbn [fst snd].
  destruct Hw as [Hw1 Hw2]. destruct (wm_store_ok m (pa + off) (regs h r)) as (m' & -> & Hok & Hld & Hfr); [by apply Har|].
  apply wp_modify. cbn [fst snd]. eapply wp_mono; [apply IH|].
  - destruct Har as [? ? ? Hok']. split; [done..|]. intros o ? ?. by apply Hok, Hok'.
  - intros x Hx. apply Hl. by right.
  - done.
  - intros _ s' (E & H1 & H2 & H3). split_and!; [done|auto| |].
    + intros r' off' [[= -> ->]|Hin]%elem_of_cons; [|by apply H2]. rewrite H3; [done|apply Hok, Har; done|].
      intros [r' o] Hx E'. apply Hni. apply list_elem_of_fmap. exists (r', o). simpl in *. split; [lia|done].
    + intros b Hb Hne. rewrite H3; [|by apply Hok|intros x Hx; apply Hne; by right]. apply Hfr; [done|]. apply (Hne (r, off)). by left.
Qed.

Lemma exec_loads base n pa l h m :
  area m (csrs h Csr.satp) (regs h base) n pa → (∀ x, x ∈ l → word_of n x.2) → NoDup l.*1 →
  (∀ off, (base, off) ∈ l → ∃ v, wm_load m (pa + off) = Some v ∧ u64 v = regs h base) →
  wp (exec translate (loads base l)) (λ _ s', s'.2 = m ∧ csrs s'.1 = csrs h ∧ pc s'.1 = pc h ∧ mode s'.1 = mode h ∧
    (∀ r off, (r, off) ∈ l → ∃ v, wm_load m (pa + off) = Some v ∧ regs s'.1 r = u64 v) ∧
    (∀ r, r ∉ l.*1 → regs s'.1 r = regs h r)) (h, m).
Proof using Type.
  revert h. induction l as [|[r off] l IH]; intros h Har Hl Hnd Hb.
  { split_and!; try done. by intros r off ?%elem_of_nil. }
  apply NoDup_cons in Hnd as [Hni Hnd]. assert (word_of n off) as Hw by (apply (Hl (r, off)); by left).
  simpl. apply wp_bind, wp_bind, (wp_operand _ _ n pa); [done|done|]. apply wp_bind, wp_gets. cbn [fst snd].
  destruct Hw as [Hw1 Hw2]. destruct (wm_load_ok m (pa + off)) as [v Hv]; [by apply Har|]. rewrite Hv. unfold wr. apply wp_modify. cbn [fst snd].
  assert (regs (set_reg r (u64 v) h) base = regs h base) as Hbase.
  { simpl. destruct (decide (r = base)) as [->|]; [|by rewrite fn_lookup_insert_ne]. rewrite fn_lookup_insert.
    destruct (Hb off) as (v' & Hv' & <-); [by left|]. rewrite Hv in Hv'. by injection Hv' as ->. }
  eapply wp_mono; [apply IH|].
  - by rewrite Hbase.
  - intros x Hx. apply Hl. by right.
  - done.
  - intros o Ho. rewrite Hbase. apply Hb. by right.
  - intros _ s' (E1 & E2 & E3 & E4 & H1 & H2). split_and!; try done.
    + intros r' off' [[= -> ->]|Hin]%elem_of_cons; [|by apply H1]. exists v. split; [done|]. rewrite H2 by done. apply fn_lookup_insert.
    + intros r' [Hne Hni']%not_elem_of_cons. rewrite H2 by done. simpl. by apply fn_lookup_insert_ne.
Qed.

Lemma wp_exec_nil (Q : unit → mach → Prop) s : Q tt s → wp (exec translate []) Q s.
Proof using Type. done. Qed.
Lemma wp_exec_cons i l (Q : unit → mach → Prop) s : wp (exec1 translate i) (λ _ s', wp (exec translate l) Q s') s → wp (exec translate (i :: l)) Q s.
Proof using Type. intros H. by apply wp_bind. Qed.
#[local] Arguments exec : simpl never.
Lemma wp_li r x (Q : unit → mach → Prop) h m : Q tt (set_reg r (u64 x) h, m) → wp (exec1 translate (Li r x)) Q (h, m).
Proof using Type. done. Qed.
Lemma wp_addi r r' x (Q : unit → mach → Prop) h m : Q tt (set_reg r (u64 (regs h r' + x)) h, m) → wp (exec1 translate (Addi r r' x)) Q (h, m).
Proof using Type. done. Qed.
Lemma wp_add r r1 r2 (Q : unit → mach → Prop) h m : Q tt (set_reg r (u64 (regs h r1 + regs h r2)) h, m) → wp (exec1 translate (Add r r1 r2)) Q (h, m).
Proof using Type. done. Qed.
Lemma wp_mul r r1 r2 (Q : unit → mach → Prop) h m : Q tt (set_reg r (u64 (regs h r1 * regs h r2)) h, m) → wp (exec1 translate (Mul r r1 r2)) Q (h, m).
Proof using Type. done. Qed.
Lemma wp_csrw c r (Q : unit → mach → Prop) h m : Q tt (set_csr c (regs h r) h, m) → wp (exec1 translate (Csrw c r)) Q (h, m).
Proof using Type. done. Qed.
Lemma wp_csrr c r (Q : unit → mach → Prop) h m : Q tt (set_reg r (u64 (csrs h c)) h, m) → wp (exec1 translate (Csrr r c)) Q (h, m).
Proof using Type. done. Qed.
Lemma wp_sfence (Q : unit → mach → Prop) h m : Q tt (h, m) → wp (exec1 translate Sfence_vma) Q (h, m).
Proof using Type. done. Qed.

(** ** Entering the kernel and leaving it *)
(** Where [struct trapframe] keeps the user registers, but for [a0] at 112. *)
Definition tf_regs : list (reg * Z) :=
  [(Reg.ra, 40); (Reg.sp, 48); (Reg.gp, 56); (Reg.tp, 64); (Reg.t0, 72); (Reg.t1, 80); (Reg.t2, 88); (Reg.s0, 96); (Reg.s1, 104);
   (Reg.a1, 120); (Reg.a2, 128); (Reg.a3, 136); (Reg.a4, 144); (Reg.a5, 152); (Reg.a6, 160); (Reg.a7, 168);
   (Reg.s2, 176); (Reg.s3, 184); (Reg.s4, 192); (Reg.s5, 200); (Reg.s6, 208); (Reg.s7, 216); (Reg.s8, 224); (Reg.s9, 232);
   (Reg.s10, 240); (Reg.s11, 248); (Reg.t3, 256); (Reg.t4, 264); (Reg.t5, 272); (Reg.t6, 280)].
Lemma tf_regs_all r : r = Reg.a0 ∨ r ∈ tf_regs.*1.
Proof using Type. clear. destruct r; first [by left|right; by apply (bool_decide_eq_true_1 _)]. Qed.
(** A saved register: its place, its value. *)
Definition saved m (tf : Z) h : Prop :=
  wm_load m (tf + 112) = Some (u64 (regs h Reg.a0)) ∧ ∀ r off, (r, off) ∈ tf_regs → wm_load m (tf + off) = Some (u64 (regs h r)).

Lemma tf_regs_off r off : (r, off) ∈ tf_regs → r ≠ Reg.a0 ∧ 40 ≤ off < 288 ∧ off mod 8 = 0 ∧ off ≠ 112.
Proof using Type.
  clear. revert r off. assert (Forall (λ x, x.1 ≠ Reg.a0 ∧ 40 ≤ x.2 < 288 ∧ x.2 mod 8 = 0 ∧ x.2 ≠ 112) tf_regs) as H.
  { unfold tf_regs. by repeat (constructor; [by vm_compute|]). }
  rewrite Forall_forall in H. intros r off Hin. apply (H _ Hin).
Qed.
Lemma tf_words x : x ∈ tf_regs → word_of 288 x.2.
Proof using Type. clear. destruct x as [r off]. intros (_ & ? & ? & _)%tf_regs_off. split; [simpl; lia|done]. Qed.
(** The words of the kernel in the frame. *)
Definition tf_kernel : list (reg * Z) := [(Reg.sp, 8); (Reg.tp, 32); (Reg.t0, 16); (Reg.t1, 0)].
Lemma tf_kernel_off r off : (r, off) ∈ tf_kernel → r ≠ Reg.a0 ∧ 0 ≤ off < 40 ∧ off mod 8 = 0.
Proof using Type.
  clear. revert r off. assert (Forall (λ x, x.1 ≠ Reg.a0 ∧ 0 ≤ x.2 < 40 ∧ x.2 mod 8 = 0) tf_kernel) as H.
  { by repeat (constructor; [by vm_compute|]). }
  rewrite Forall_forall in H. intros r off Hin. apply (H _ Hin).
Qed.

Lemma area_regs m m' pt va n pa : area m pt va n pa → (∀ b, wm_ok m b → wm_ok m' b) → area m' pt va n pa.
Proof using Type. intros [? ? ? Hok] H. split; [done..|]. intros off ? ?. by apply H, Hok. Qed.

Lemma uservec_spec h m tf ksatp ksp ktrap khart :
  area m (csrs h Csr.satp) TRAPFRAME 288 tf →
  wm_load m (tf + 0) = Some ksatp → wm_load m (tf + 8) = Some ksp → wm_load m (tf + 16) = Some ktrap → wm_load m (tf + 32) = Some khart →
  wp (uservec translate) (λ _ s', pc s'.1 = u64 ktrap ∧ mode s'.1 = mode h ∧
    csrs s'.1 = <[Csr.satp := u64 ksatp]> (<[Csr.sscratch := regs h Reg.a0]> (csrs h)) ∧
    regs s'.1 Reg.sp = u64 ksp ∧ regs s'.1 Reg.tp = u64 khart ∧
    saved s'.2 tf h ∧ (∀ b, wm_ok m b → wm_ok s'.2 b) ∧
    (∀ b, wm_ok m b → b < tf + 40 ∨ tf + 288 ≤ b → wm_load s'.2 b = wm_load m b)) (h, m).
Proof using Type.
  intros Har L0 L1 L2 L3. unfold uservec. apply wp_bind. unfold Code.uservec_code. apply wp_exec_app.
  apply wp_exec_cons, wp_csrw, wp_exec_cons, wp_li, wp_exec_nil.
  set (h1 := set_reg Reg.a0 _ _). apply wp_exec_app. change Code.uservec_save with (stores Reg.a0 tf_regs).
  assert (area m (csrs h1 Csr.satp) (regs h1 Reg.a0) 288 tf) as Har1 by done.
  eapply wp_mono; [apply (exec_stores _ 288 tf); [done|apply tf_words|]|].
  { apply (bool_decide_eq_true_1 _). by vm_compute. }
  intros _ [h2 m2] (E2 & Hok & Hst & Hfr). cbn [fst snd] in *. subst h2.
  apply wp_exec_cons, wp_csrr. set (h3 := set_reg Reg.t0 _ _).
  match goal with |- wp (exec _ (_ :: ?l)) _ _ => change (Sd Reg.t0 112 Reg.a0 :: l) with (stores Reg.a0 [(Reg.t0, 112)] ++ l) end.
  apply wp_exec_app. eapply wp_mono; [apply (exec_stores _ 288 tf); [by apply (area_regs m)|by intros x ->%list_elem_of_singleton|by apply NoDup_singleton]|].
  intros _ [h4 m4] (E4 & Hok4 & Hst4 & Hfr4). cbn [fst snd] in *. subst h4.
  assert (∀ b, wm_ok m b → b < tf + 40 ∨ tf + 288 ≤ b → wm_load m4 b = wm_load m b) as Hout.
  { intros b Hb Hr. rewrite Hfr4; [apply Hfr; [done|]|by apply Hok|]; intros x Hx.
    - destruct x as [r off]. apply tf_regs_off in Hx. simpl. lia.
    - apply list_elem_of_singleton in Hx as ->. simpl. lia. }
  match goal with |- wp (exec _ (_ :: _ :: _ :: _ :: ?l)) _ _ => change (exec _ (_ :: _ :: _ :: _ :: l)) with (exec translate (loads Reg.a0 tf_kernel ++ l)) end.
  apply wp_exec_app. eapply wp_mono; [apply (exec_loads _ 288 tf)|].
  - apply (area_regs m); [done|auto].
  - intros [r off] (_ & ? & ?)%tf_kernel_off. split; [simpl; lia|done].
  - apply (bool_decide_eq_true_1 _). by vm_compute.
  - by intros off (? & _)%tf_kernel_off.
  - intros _ [h5 m5] (E5 & Ec & _ & Emd & Hld & Hrest). cbn [fst snd] in *. subst m5.
    apply wp_exec_cons, wp_sfence, wp_exec_cons, wp_csrw, wp_exec_cons, wp_sfence, wp_exec_nil.
    unfold jr, rd, on_hw. apply wp_bind, wp_gets, wp_lift, wp_modify. cbn [fst snd].
    assert (∀ r off v, (r, off) ∈ tf_kernel → wm_load m (tf + off) = Some v → regs h5 r = u64 v) as Hget.
    { intros r off v Hin Hv. destruct (Hld r off Hin) as (v' & Hv' & ->). apply tf_kernel_off in Hin as (_ & ? & ?).
      rewrite Hout, Hv in Hv'; [by injection Hv' as ->|apply Har; [lia|done]|lia]. }
    split_and!; simpl.
    + apply (Hget _ 16); [clear; set_solver|done].
    + done.
    + rewrite Ec. simpl. by rewrite (Hget Reg.t1 0 ksatp); [|clear; set_solver|].
    + apply (Hget _ 8); [clear; set_solver|done].
    + apply (Hget _ 32); [clear; set_solver|done].
    + split; [rewrite (Hst4 Reg.t0); [|by left]; simpl; rewrite fn_lookup_insert; unfold u64; by rewrite wrap_wrap|].
      intros r off Hin. pose proof (Hst r off Hin) as Hv. apply tf_regs_off in Hin as (Hne & ? & ? & ?).
      rewrite Hfr4; [|apply Hok, Har; [lia|done]|intros x ->%list_elem_of_singleton; simpl; lia].
      rewrite Hv. simpl. by rewrite fn_lookup_insert_ne.
    + auto.
    + done.
Qed.

Lemma userret_spec h m tf hu : area m (regs h Reg.a0) TRAPFRAME 288 tf → saved m tf hu →
  wp (userret translate) (λ _ s', s'.2 = m ∧ (∀ r, regs s'.1 r = u64 (regs hu r)) ∧
    pc s'.1 = csrs h Csr.sepc ∧ mode s'.1 = (if SPP h then Supervisor else User) ∧ SIE s'.1 = SPIE h ∧
    csrs s'.1 Csr.satp = regs h Reg.a0 ∧ csrs s'.1 Csr.stvec = csrs h Csr.stvec) (h, m).
Proof using Type.
  intros Har [Hs0 Hs]. unfold userret. apply wp_bind. unfold Code.userret_code. apply wp_exec_app.
  apply wp_exec_cons, wp_sfence, wp_exec_cons, wp_csrw, wp_exec_cons, wp_sfence, wp_exec_cons, wp_li, wp_exec_nil.
  apply wp_exec_app. change Code.userret_load with (loads Reg.a0 tf_regs). set (h1 := set_reg Reg.a0 _ _).
  eapply wp_mono; [apply (exec_loads _ 288 tf)|]; [done|apply tf_words| | |].
  { apply (bool_decide_eq_true_1 _). by vm_compute. }
  { by intros off (? & _)%tf_regs_off. }
  intros _ [h2 m2] (E2 & Ec & _ & _ & Hld & Hrest). cbn [fst snd] in *. subst m2.
  assert (regs h2 Reg.a0 = regs h1 Reg.a0) as Ha0.
  { apply Hrest. intros ([r off] & E & Hin)%list_elem_of_fmap. simpl in E. subst r. by apply tf_regs_off in Hin as [? _]. }
  change [Ld Reg.a0 112 Reg.a0] with (loads Reg.a0 [(Reg.a0, 112)]).
  apply wp_exec_cons. simpl. apply wp_bind, (wp_operand _ _ 288 tf); [by rewrite Ha0, Ec|by split|]. apply wp_bind, wp_gets. cbn [fst snd].
  rewrite Hs0. unfold wr. apply wp_modify, wp_exec_nil. unfold on_hw. apply wp_lift, wp_sret. intros st Hst _ _. cbn [fst snd].
  unfold status_bit in *. cbn [fst snd regs csrs pc mode set_reg set_csr set_pc set_mode] in *. rewrite Ec in Hst |- *. split_and!; try done.
  - intros r. destruct (decide (r = Reg.a0)) as [->|Hne]; [rewrite fn_lookup_insert; unfold u64; by rewrite wrap_wrap|].
    rewrite fn_lookup_insert_ne by done. destruct (tf_regs_all r) as [?|([r' off] & Er & Hin)%list_elem_of_fmap]; [done|]. simpl in Er. subst r'.
    destruct (Hld _ _ Hin) as (v & Hv & ->). rewrite (Hs _ _ Hin) in Hv. injection Hv as <-. unfold u64. by rewrite wrap_wrap.
Qed.

(** ** Switching contexts *)
(** [struct context]. *)
Definition ctx_regs : list (reg * Z) :=
  [(Reg.ra, 0); (Reg.sp, 8); (Reg.s0, 16); (Reg.s1, 24); (Reg.s2, 32); (Reg.s3, 40); (Reg.s4, 48); (Reg.s5, 56);
   (Reg.s6, 64); (Reg.s7, 72); (Reg.s8, 80); (Reg.s9, 88); (Reg.s10, 96); (Reg.s11, 104)].
Lemma ctx_regs_off r off : (r, off) ∈ ctx_regs → r ≠ Reg.a1 ∧ 0 ≤ off < 112 ∧ off mod 8 = 0.
Proof using Type.
  clear. revert r off. assert (Forall (λ x, x.1 ≠ Reg.a1 ∧ 0 ≤ x.2 < 112 ∧ x.2 mod 8 = 0) ctx_regs) as H.
  { by repeat (constructor; [by vm_compute|]). }
  rewrite Forall_forall in H. intros r off Hin. apply (H _ Hin).
Qed.
Lemma ctx_words x : x ∈ ctx_regs → word_of 112 x.2.
Proof using Type. clear. destruct x as [r off]. intros (_ & ? & ?)%ctx_regs_off. split; [simpl; lia|done]. Qed.

Lemma swtch_spec h m old new :
  area m (csrs h Csr.satp) (regs h Reg.a0) 112 old → area m (csrs h Csr.satp) (regs h Reg.a1) 112 new → old + 112 ≤ new ∨ new + 112 ≤ old →
  wp (swtch translate) (λ _ s', csrs s'.1 = csrs h ∧ mode s'.1 = mode h ∧ pc s'.1 = regs s'.1 Reg.ra ∧
    (∀ r off, (r, off) ∈ ctx_regs → wm_load s'.2 (old + off) = Some (u64 (regs h r)) ∧
      ∃ v, wm_load m (new + off) = Some v ∧ regs s'.1 r = u64 v) ∧
    (∀ b, wm_ok m b → wm_ok s'.2 b) ∧
    (∀ b, wm_ok m b → b < old ∨ old + 112 ≤ b → wm_load s'.2 b = wm_load m b)) (h, m).
Proof using Type.
  intros Ho Hn Hd. unfold swtch. apply wp_bind. unfold Code.swtch_code. apply wp_exec_app.
  change Code.swtch_save with (stores Reg.a0 ctx_regs). change Code.swtch_load with (loads Reg.a1 ctx_regs).
  eapply wp_mono; [apply (exec_stores _ 112 old); [done|apply ctx_words|]|].
  { apply (bool_decide_eq_true_1 _). by vm_compute. }
  intros _ [h2 m2] (E2 & Hok & Hst & Hfr). cbn [fst snd] in *. subst h2.
  eapply wp_mono; [apply (exec_loads _ 112 new); [by apply (area_regs m)|apply ctx_words| |]|].
  { apply (bool_decide_eq_true_1 _). by vm_compute. }
  { by intros off (? & _)%ctx_regs_off. }
  intros _ [h3 m3] (E3 & Ec & _ & Em & Hld & _). cbn [fst snd] in *. subst m3.
  unfold jr, rd, on_hw. apply wp_bind, wp_gets, wp_lift, wp_modify. cbn [fst snd]. split_and!; try done.
  - intros r off Hin. split; [by apply Hst|]. destruct (Hld r off Hin) as (v & Hv & Hr). exists v. split; [|done].
    apply ctx_regs_off in Hin as (_ & ? & ?). rewrite Hfr in Hv; [done|by apply Hn|]. intros [r' o] (_ & ? & ?)%ctx_regs_off. simpl. lia.
  - intros b Hb Hr. apply Hfr; [done|]. intros [r' o] (_ & ? & ?)%ctx_regs_off. simpl. lia.
Qed.
End frames.

Section results.
Context {M : Type} `{!WordMem M, !WordMemLaws M} (translate : Z → Z → option Z).
Abbreviation mach := (hart * M)%type.
Implicit Types (h : hart) (m : M).

(** Registers hold 64 bits. *)
Definition regs_ok h : Prop := ∀ r, 0 ≤ regs h r < 2 ^ 64.

(** C30. A call of [swtch] returns: when, later and on any processor, [swtch] loads
    the context that was saved, and that context is as it was left, control is
    after the first call and the stack pointer and the registers that the callee
    saves are those of the first call. *)
Theorem swtch_returns h1 m1 A B h3 m3 C :
  regs_ok h1 →
  area translate m1 (csrs h1 Csr.satp) (regs h1 Reg.a0) 112 A → area translate m1 (csrs h1 Csr.satp) (regs h1 Reg.a1) 112 B →
  A + 112 ≤ B ∨ B + 112 ≤ A →
  ∃ h2 m2, swtch translate (h1, m1) = Ok (tt, (h2, m2)) ∧
    (area translate m3 (csrs h3 Csr.satp) (regs h3 Reg.a0) 112 C → area translate m3 (csrs h3 Csr.satp) (regs h3 Reg.a1) 112 A →
     A + 112 ≤ C ∨ C + 112 ≤ A → (∀ off, word_of 112 off → wm_load m3 (A + off) = wm_load m2 (A + off)) →
     ∃ h4 m4, swtch translate (h3, m3) = Ok (tt, (h4, m4)) ∧ pc h4 = regs h1 Reg.ra ∧
       ∀ r, r ∈ [Reg.sp; Reg.s0; Reg.s1; Reg.s2; Reg.s3; Reg.s4; Reg.s5; Reg.s6; Reg.s7; Reg.s8; Reg.s9; Reg.s10; Reg.s11] →
         regs h4 r = regs h1 r).
Proof using Type*.
  intros Hr HA HB Hd. pose proof (swtch_spec translate h1 m1 A B HA HB Hd) as ([] & [h2 m2] & E & _ & _ & _ & Hsv & _)%wp_ok.
  exists h2, m2. split; [done|]. intros HC HA' Hd' Hkeep.
  pose proof (swtch_spec translate h3 m3 C A HC HA' ltac:(lia)) as ([] & [h4 m4] & E4 & _ & _ & Hpc & Hld & _)%wp_ok. cbn [fst snd] in *.
  exists h4, m4. assert (∀ r off, (r, off) ∈ ctx_regs → regs h4 r = regs h1 r) as Hall.
  { intros r off Hin. destruct (Hld r off Hin) as (_ & v & Hv & ->). destruct (Hsv r off Hin) as [Hs _].
    rewrite Hkeep, Hs in Hv by (by apply (ctx_words (r, off))). injection Hv as <-. unfold u64. rewrite wrap_wrap by lia. by apply wrap_small. }
  split_and!; [done|rewrite Hpc; apply (Hall _ 0); by left|]. intros r Hin.
  change (r ∈ (tail ctx_regs).*1) in Hin. apply list_elem_of_fmap in Hin as ([r' off] & E' & Hin). simpl in E'. subst r'.
  apply (Hall _ off). unfold ctx_regs. by right.
Qed.

(** ** Interrupts of the kernel *)
Definition kv_regs : list (reg * Z) :=
  [(Reg.ra, 0); (Reg.sp, 8); (Reg.gp, 16); (Reg.tp, 24); (Reg.t0, 32); (Reg.t1, 40); (Reg.t2, 48); (Reg.a0, 72);
   (Reg.a1, 80); (Reg.a2, 88); (Reg.a3, 96); (Reg.a4, 104); (Reg.a5, 112); (Reg.a6, 120); (Reg.a7, 128); (Reg.t3, 216);
   (Reg.t4, 224); (Reg.t5, 232); (Reg.t6, 240)].
Definition kv_back : list (reg * Z) := filter (λ x, x.1 ≠ Reg.tp) kv_regs.
Lemma kv_words x : x ∈ kv_regs → word_of 256 x.2.
Proof using Type.
  clear. revert x. apply Forall_forall. unfold kv_regs, word_of. by repeat (constructor; [by vm_compute|]).
Qed.
Lemma kv_sp off : (Reg.sp, off) ∈ kv_regs → off = 8.
Proof using Type. clear. unfold kv_regs. intros H. repeat (apply elem_of_cons in H as [E|H]; [by simplify_eq|]). by apply elem_of_nil in H. Qed.

(** What the calling convention says of a C function: the registers that a callee
    saves are unchanged.  The function leaves alone the part of the stack above
    the stack pointer, here the 256 bytes at [pa]. *)
Definition callee_saved : list reg :=
  [Reg.sp; Reg.s0; Reg.s1; Reg.s2; Reg.s3; Reg.s4; Reg.s5; Reg.s6; Reg.s7; Reg.s8; Reg.s9; Reg.s10; Reg.s11].
Record c_call (pa : Z) (s s' : mach) : Prop := {
  cc_regs : ∀ r, r ∈ callee_saved → regs s'.1 r = regs s.1 r;
  cc_ok : ∀ b, wm_ok s.2 b → wm_ok s'.2 b;
  cc_stack : ∀ off, word_of 256 off → wm_load s'.2 (pa + off) = wm_load s.2 (pa + off);
}.
Lemma saved_or_callee r : r ≠ Reg.tp → r ∈ callee_saved ∨ r ∈ kv_back.*1.
Proof using Type. clear. destruct r; intros ?; first [done|left; by apply (bool_decide_eq_true_1 _)|right; by apply (bool_decide_eq_true_1 _)]. Qed.

Lemma kernelvec_saves h m pa :
  0 ≤ regs h Reg.sp < 2 ^ 64 → 256 ≤ regs h Reg.sp → area translate m (csrs h Csr.satp) (regs h Reg.sp - 256) 256 pa →
  let h1 := set_reg Reg.sp (regs h Reg.sp - 256) h in
  wp (exec translate Code.kernelvec_save) (λ _ s', s'.1 = h1 ∧ (∀ b, wm_ok m b → wm_ok s'.2 b) ∧
    (∀ r off, (r, off) ∈ kv_regs → wm_load s'.2 (pa + off) = Some (u64 (regs h1 r)))) (h, m).
Proof using Type.
  intros Hr Hsp Har h1. change Code.kernelvec_save with (Addi Reg.sp Reg.sp (-256) :: stores Reg.sp kv_regs).
  apply wp_exec_cons, wp_addi. assert (u64 (regs h Reg.sp + -256) = regs h Reg.sp - 256) as ->.
  { unfold u64. rewrite wrap_small by lia. lia. }
  fold h1. assert (regs h1 Reg.sp = regs h Reg.sp - 256) as Esp1 by (simpl; apply fn_lookup_insert).
  eapply wp_mono; [apply (exec_stores translate Reg.sp 256 pa); [by rewrite Esp1|apply kv_words|]|].
  { apply (bool_decide_eq_true_1 _). by vm_compute. }
  intros _ s' (E2 & Hok & Hst & _). done.
Qed.

(** An interrupt of the kernel: if [kerneltrap] keeps to the calling convention and
    leaves [sepc], [sstatus] and [satp] as they were, then after [kernelvec] every
    register but [tp] is as it was, the code goes on where it was, in supervisor
    mode and with interrupts as before. *)
Lemma kernelvec_spec h0 cause val m pa (kerneltrap : K mach unit) :
  regs_ok h0 → mode h0 = Supervisor → 256 ≤ regs h0 Reg.sp →
  area translate m (csrs h0 Csr.satp) (regs h0 Reg.sp - 256) 256 pa →
  (∀ h1 m1, exec translate Code.kernelvec_save (trap_enter cause val h0, m) = Ok (tt, (h1, m1)) →
    csrs h1 = csrs (trap_enter cause val h0) →
    wp kerneltrap (λ _ s', c_call pa (h1, m1) s' ∧
      csrs s'.1 Csr.sepc = csrs h1 Csr.sepc ∧ csrs s'.1 Csr.mstatus = csrs h1 Csr.mstatus ∧ csrs s'.1 Csr.satp = csrs h1 Csr.satp) (h1, m1)) →
  wp (kernelvec translate kerneltrap) (λ _ s', (∀ r, r ≠ Reg.tp → regs s'.1 r = regs h0 r) ∧
    pc s'.1 = pc h0 ∧ mode s'.1 = Supervisor ∧ SIE s'.1 = SIE h0) (trap_enter cause val h0, m).
Proof using Type.
  intros Hr Hmode Hsp Har Hk. set (h := trap_enter cause val h0). unfold kernelvec. apply wp_bind.
  change Code.kernelvec_load with (loads Reg.sp kv_back ++ [Addi Reg.sp Reg.sp 256]).
  pose proof (kernelvec_saves h m pa (Hr Reg.sp) Hsp Har) as ([] & [h2 m2] & E0 & E2 & Hok & Hst)%wp_ok. cbn [fst snd] in *. subst h2.
  set (h1 := set_reg Reg.sp _ h) in *. assert (regs h1 Reg.sp = regs h0 Reg.sp - 256) as Esp1 by (simpl; apply fn_lookup_insert).
  assert (∀ r, r ≠ Reg.sp → regs h1 r = regs h0 r) as Er1 by (intros r ?; simpl; by rewrite fn_lookup_insert_ne).
  apply wp_ok. exists tt, (h1, m2). split; [exact E0|].
  apply wp_bind. eapply wp_mono; [by apply Hk|]. intros _ [h3 m3] (Hcc & E1 & E2 & E3). destruct Hcc as [Hcr Hco Hcs]. cbn [fst snd] in *.
  assert (∀ x, x ∈ kv_back → x ∈ kv_regs ∧ x.1 ≠ Reg.tp) as Hback by (intros x [? ?]%list_elem_of_filter; done).
  assert (regs h3 Reg.sp = regs h0 Reg.sp - 256) as Esp3 by (rewrite Hcr; [done|by left]).
  assert (∀ r off, (r, off) ∈ kv_regs → wm_load m3 (pa + off) = Some (u64 (regs h1 r))) as Hst3.
  { intros r off Hin. rewrite Hcs by (by apply (kv_words (r, off))). by apply Hst. }
  apply wp_bind, wp_exec_app. eapply wp_mono; [apply (exec_loads translate Reg.sp 256 pa)|].
  - rewrite E3, Esp3. apply (area_regs _ m); [done|auto].
  - intros x [Hx _]%Hback. by apply kv_words.
  - apply (bool_decide_eq_true_1 _). by vm_compute.
  - intros off [Hx _]%Hback. exists (u64 (regs h1 Reg.sp)). split; [by apply Hst3|]. rewrite Esp1, Esp3.
    specialize (Hr Reg.sp). unfold u64. rewrite wrap_wrap by lia. apply wrap_small. lia.
  - intros _ [h4 m4] (_ & Ec4 & _ & _ & Hld & Hkeep). cbn [fst snd] in *.
    assert (∀ r off, (r, off) ∈ kv_back → regs h4 r = regs h1 r) as Hval.
    { intros r off Hin. destruct (Hld _ _ Hin) as (v & Hv & ->). apply Hback in Hin as [Hin _]. rewrite (Hst3 _ _ Hin) in Hv. injection Hv as <-.
      unfold u64. rewrite wrap_wrap by lia. apply wrap_small. destruct (decide (r = Reg.sp)) as [->|]; [|by rewrite Er1].
      rewrite Esp1. specialize (Hr Reg.sp). lia. }
    apply wp_exec_cons, wp_addi, wp_exec_nil. unfold on_hw. apply wp_lift, wp_sret. intros st Hbit _ _. cbn [fst snd].
    assert (regs h4 Reg.sp + 256 = regs h0 Reg.sp) as Esp4 by (rewrite (Hval _ 8); [lia|by apply list_elem_of_filter; split; [|right; left]]).
    destruct (trap_enter_status cause val h0) as (HSPP & HSPIE & _). unfold status_bit in *.
    cbn [fst snd regs pc mode set_reg set_csr set_pc set_mode csrs] in *. rewrite Ec4, E2 in Hbit. rewrite !Ec4, E1, E2. split_and!.
    + intros r Hne. destruct (decide (r = Reg.sp)) as [->|Hs].
      { rewrite fn_lookup_insert, Esp4. by apply wrap_small. }
      rewrite fn_lookup_insert_ne by done. rewrite <-Er1 by done.
      destruct (saved_or_callee r Hne) as [Hin|([r' off] & Er & Hin)%list_elem_of_fmap].
      * destruct (decide (r ∈ kv_back.*1)) as [([r' off] & Er & Hin')%list_elem_of_fmap|Hni]; [simpl in Er; subst r'; by apply (Hval _ off)|].
        rewrite Hkeep by done. by rewrite Hcr.
      * simpl in Er. subst r'. by apply (Hval _ off).
    + done.
    + change (csrs h1 Csr.mstatus) with (csrs h Csr.mstatus). unfold h. by rewrite HSPP, bool_decide_true.
    + by rewrite fn_lookup_insert, Hbit.
Qed.
End results.

(** ** A flat memory *)
Abbreviation fmem := (Z → Z).
#[global] Instance fmem_words : WordMem fmem := { wm_load m a := Some (m a); wm_store m a v := Some (<[a := u64 v]> m) }.
#[global] Program Instance fmem_laws : WordMemLaws fmem := { wm_ok _ _ := True }.
Next Obligation. intros m a _. by eexists. Qed.
Next Obligation.
  intros m a v _. eexists. split; [done|]. cbn [wm_load fmem_words]. split_and!; [done|by rewrite fn_lookup_insert|]. intros b _ Hne. by rewrite fn_lookup_insert_ne.
Qed.
Definition ident (_ va : Z) : option Z := Some va.
Lemma flat_area (m : fmem) pt va n : va mod 8 = 0 → 0 ≤ va → va + n ≤ 2 ^ 64 → area ident m pt va n va.
Proof. intros. by split. Qed.

Module Flat.
(** A caller with [a0] and [a1] as arguments, and a processor that switches back. *)
Definition caller : hart := Hart (<[Reg.a0 := 8000]> (<[Reg.a1 := 16000]> (λ _, 77))) (λ _, 0) 0 Supervisor.
Definition other : hart := Hart (<[Reg.a0 := 16000]> (<[Reg.a1 := 8000]> (λ _, 55))) (λ _, 0) 0 Supervisor.
Definition zeros : fmem := λ _, 0.
Definition switched : hart * fmem := after (swtch ident (caller, zeros)) (caller, zeros).
End Flat.

Lemma swtch_returns_witness : ∃ h4 m4, swtch ident (Flat.other, Flat.switched.2) = Ok (tt, (h4, m4)) ∧ pc h4 = 77 ∧ regs h4 Reg.s3 = 77.
Proof.
  destruct (swtch_returns ident Flat.caller Flat.zeros 8000 16000 Flat.other Flat.switched.2 16000) as (h2 & m2 & E & H).
  - intros r. destruct r; by vm_compute.
  - by apply flat_area.
  - by apply flat_area.
  - lia.
  - destruct H as (h4 & m4 & E4 & Hpc & Hregs); [by apply flat_area|by apply flat_area|lia| |].
    + intros off _. unfold Flat.switched. rewrite E. done.
    + exists h4, m4. split_and!; [done|done|]. apply (Hregs Reg.s3). by apply (bool_decide_eq_true_1 _).
Defined.
