(* ===== verification/Start.v ===== *)
(** * From reset to supervisor mode ([kernel/entry.S], [kernel/start.c])

    Each hart comes from [entry.S] on a stack of its own and leaves [start] in
    supervisor mode at [main]. *)

From S2P Require Import Prelude Word Param Kalloc Vm Riscv Asm.

Definition timerinit : K hart unit :=
  x ← r_mie; w_mie (Z.lor x MIE_STIE);;
  x ← r_menvcfg; w_menvcfg (Z.lor x (Z.shiftl 1 63));;
  x ← r_mcounteren; w_mcounteren (Z.lor x 2);;
  t ← r_time; w_stimecmp (u64 (t + 1000000)).

(** [main] is the address of the function. *)
Definition start (main : Z) : K hart unit :=
  x ← r_mstatus;
  let x := Z.land x (lnot64 MSTATUS_MPP_MASK) in
  let x := Z.lor x MSTATUS_MPP_S in
  w_mstatus x;;
  w_mepc main;;
  w_satp 0;;
  w_medeleg 0xffff;;
  w_mideleg 0xffff;;
  x ← r_sie; w_sie (Z.lor (Z.lor (Z.lor x SIE_SEIE) SIE_STIE) SIE_SSIE);;
  w_pmpaddr0 0x3fffffffffffff;;
  w_pmpcfg0 0xf;;
  timerinit;;
  id ← r_mhartid;
  w_tp (u64 (s32 id));;
  mret_.

(** The state in which [main] begins. *)
Record booted (h h' : hart) (main : Z) : Prop := {
  bt_mode : mode h' = Supervisor;
  bt_pc : pc h' = main;
  bt_satp : csrs h' Csr.satp = 0;
  bt_tp : regs h' Reg.tp = csrs h Csr.mhartid;
  bt_deleg : csrs h' Csr.medeleg = 0xffff ∧ csrs h' Csr.mideleg = 0xffff;
  bt_sie : ∀ n, n ∈ [1; 5; 9] → Z.testbit (csrs h' Csr.mie) n = true;
  bt_timer : Z.testbit (csrs h' Csr.menvcfg) 63 = true ∧ Z.testbit (csrs h' Csr.mcounteren) 1 = true ∧
    csrs h' Csr.stimecmp = u64 (csrs h Csr.time + 1000000);
  bt_off : SIE h' = SIE h;
}.

Ltac csrs_simp :=
  cbn [regs csrs pc mode set_reg set_csr set_pc set_mode];
  repeat first [rewrite fn_lookup_insert|rewrite fn_lookup_insert_ne by done].

Lemma start_spec main h : 0 ≤ csrs h Csr.mhartid < 2 ^ 31 →
  wp (start main) (λ _ h', booted h h' main ∧ ∀ r, r ≠ Reg.tp → regs h' r = regs h r) h.
Proof.
  intros Hid. unfold start, timerinit, r_mstatus, w_mstatus, w_mepc, w_satp, w_medeleg, w_mideleg, r_sie, w_sie, w_pmpaddr0, w_pmpcfg0,
    r_mie, w_mie, r_menvcfg, w_menvcfg, r_mcounteren, w_mcounteren, r_time, w_stimecmp, r_mhartid, w_tp, csrr, csrw, mret_.
  wp_steps. split; [split|]; unfold status_bit; csrs_simp; try done.
  - unfold mpp. rewrite !Z.lor_spec, !Z.land_spec, !lnot64_spec by lia.
    change (Z.testbit MSTATUS_MPP_MASK 11) with true. change (Z.testbit MSTATUS_MPP_MASK 12) with true.
    change (Z.testbit MSTATUS_MPP_S 11) with true. change (Z.testbit MSTATUS_MPP_S 12) with false.
    cbn [negb]. by rewrite !andb_false_r.
  - unfold s32, u64. rewrite swrap_small by lia. apply wrap_small. lia.
  - intros n Hn. assert (0 ≤ n < 64 ∧ Z.testbit 65535 n = true ∧ Z.testbit (Z.lor (Z.lor SIE_SEIE SIE_STIE) SIE_SSIE) n = true) as (H1 & H2 & H3).
    { repeat (apply elem_of_cons in Hn as [->|Hn]; [by vm_compute|]). by apply elem_of_nil in Hn. }
    rewrite Z.lor_spec, merge_spec, H2 by done. rewrite !Z.lor_spec in H3. rewrite !Z.lor_spec.
    destruct (Z.testbit SIE_SEIE n), (Z.testbit SIE_STIE n), (Z.testbit SIE_SSIE n); try done; by rewrite ?orb_true_r.
  - split_and!; [by rewrite Z.lor_spec, orb_true_r|by rewrite Z.lor_spec, orb_true_r|done].
  - rewrite !bit_set_to_spec by lia. rewrite !Z.lor_spec, !Z.land_spec, !lnot64_spec by lia.
    change (Z.testbit MSTATUS_MPP_MASK 1) with false. change (Z.testbit MSTATUS_MPP_S 1) with false.
    cbn [negb Z.eqb Pos.eqb]. by destruct (Z.testbit (csrs h Csr.mstatus) 1).
  - intros r Hr. by rewrite fn_lookup_insert_ne.
Qed.

(** Every hart that resets gets to [main] in supervisor mode, on a stack of its
    own in [stack0], with its number in [tp], with paging off, all traps delegated,
    its three kinds of supervisor interrupts enabled and the first timer
    interrupt requested. *)
Theorem boot_hart {M : Type} `{!WordMem M} translate stack0 main (h : hart) (m : M) :
  0 ≤ csrs h Csr.mhartid < NCPU → 0 ≤ stack0 → stack0 + 4096 * NCPU < 2 ^ 64 →
  wp (entry translate stack0 (on_hw (start main))) (λ _ s', booted h s'.1 main ∧ s'.2 = m ∧
    regs s'.1 Reg.sp = stack0 + 4096 * (csrs h Csr.mhartid + 1)) (h, m).
Proof.
  intros Hid H0 H1. unfold NCPU in *. unfold entry. apply wp_bind. unfold Code.entry_code.
  apply wp_exec_cons, wp_li, wp_exec_cons, wp_li, wp_exec_cons, wp_csrr, wp_exec_cons, wp_addi.
  apply wp_exec_cons, wp_mul, wp_exec_cons, wp_add, wp_exec_nil. unfold on_hw. apply wp_lift. cbn [fst].
  match goal with |- wp _ _ ?x => set (h' := x) end.
  assert (regs h' Reg.sp = stack0 + 4096 * (csrs h Csr.mhartid + 1)) as Hsp.
  { unfold h'. csrs_simp. unfold u64.
    rewrite (wrap_small 64 stack0), (wrap_small 64 (csrs h Csr.mhartid)), (wrap_small 64 (1024 * 4)) by lia.
    rewrite (wrap_small 64 (csrs h Csr.mhartid + 1)) by lia. rewrite (wrap_small 64 (_ * _)) by lia. rewrite wrap_small by lia. lia. }
  assert (csrs h' = csrs h) as Ec by done. clearbody h'. eapply wp_mono; [apply start_spec; rewrite Ec; lia|].
  intros _ h'' [Hb Hr]. cbn [fst snd]. split_and!; [|done|by rewrite Hr].
  destruct Hb. unfold status_bit in *. rewrite Ec in *. by split.
Qed.

(** The third hart. *)
Definition hart2 : hart := Hart (λ _, 0) (<[Csr.mhartid := 2]> (λ _, 0)) 0x80000000 Machine.
Lemma boot_hart_witness :
  wp (entry ident 0x80010000 (on_hw (start 0x80000e00)))
    (λ _ s', mode s'.1 = Supervisor ∧ pc s'.1 = 0x80000e00 ∧ regs s'.1 Reg.tp = 2 ∧ regs s'.1 Reg.sp = 0x80013000) (hart2, Flat.zeros).
Proof.
  eapply wp_mono; [apply (boot_hart ident 0x80010000 0x80000e00 hart2 Flat.zeros); by vm_compute|].
  intros _ s' (Hb & _ & Hsp). destruct Hb as [Hm Hp _ Ht _ _ _ _]. by rewrite Hm, Hp, Ht, Hsp.
Defined.
