(* ===== verification/Plic.v ===== *)
(** * The interrupt controller ([kernel/plic.c])

    The controller is a device with 32-bit registers in memory; it is a parameter,
    by what a read and a write of a register do. *)

From S2P Require Import Prelude Word Riscv.

(** ** [kernel/memlayout.h] *)
Definition UART0_IRQ : Z := 10.
Definition VIRTIO0_IRQ : Z := 1.
Definition PLIC : Z := 0x0c000000.
Definition PLIC_PRIORITY : Z := PLIC + 0x0.
Definition PLIC_PENDING : Z := PLIC + 0x1000.
Definition PLIC_SENABLE (hart : Z) : Z := PLIC + 0x2080 + hart * 0x100.
Definition PLIC_SPRIORITY (hart : Z) : Z := PLIC + 0x201000 + hart * 0x2000.
Definition PLIC_SCLAIM (hart : Z) : Z := PLIC + 0x201004 + hart * 0x2000.

Class PlicDev (D : Type) := {
  reg_read : Z → D → Z * D;
  reg_write : Z → Z → D → D;
}.

Section plic.
Context {D : Type} `{!PlicDev D}.
Definition rd32 (a : Z) : K D Z := λ d, Ok (reg_read a d).
Definition wr32 (a v : Z) : K D unit := modify (reg_write a (u32 v)).

Definition plicinit : K D unit :=
  wr32 (PLIC + UART0_IRQ * 4) 1;;
  wr32 (PLIC + VIRTIO0_IRQ * 4) 1.
(** [hart] is [cpuid()]. *)
Definition plicinithart (hart : Z) : K D unit :=
  wr32 (PLIC_SENABLE hart) (Z.lor (Z.shiftl 1 UART0_IRQ) (Z.shiftl 1 VIRTIO0_IRQ));;
  wr32 (PLIC_SPRIORITY hart) 0.
Definition plic_claim (hart : Z) : K D Z := irq ← rd32 (PLIC_SCLAIM hart); mret (s32 irq).
Definition plic_complete (hart irq : Z) : K D unit := wr32 (PLIC_SCLAIM hart) irq.
End plic.

(** What is documented of the controller: a claim takes an interrupt that is
    pending, enabled for the hart and of a priority above the threshold, if there
    is one, and completion lets the device interrupt again.  [waiting] are the
    interrupts pending, [serving] those claimed and not completed. *)
Class PlicLaws (D : Type) `{!PlicDev D} := {
  word : D → Z → Z;
  waiting : D → gset Z;
  serving : D → gset Z;
  ready (d : D) (hart irq : Z) : Prop :=
    irq ∈ waiting d ∧ 0 < irq < 32 ∧ Z.testbit (word d (PLIC_SENABLE hart)) irq = true ∧
    word d (PLIC_SPRIORITY hart) < word d (PLIC_PRIORITY + irq * 4);
  claim_some hart d d' irq : 0 ≤ hart → reg_read (PLIC_SCLAIM hart) d = (irq, d') → irq ≠ 0 →
    ready d hart irq ∧ waiting d' = waiting d ∖ {[irq]} ∧ serving d' = {[irq]} ∪ serving d;
  claim_none hart d d' : 0 ≤ hart → reg_read (PLIC_SCLAIM hart) d = (0, d') → d' = d ∧ ∀ irq, ¬ ready d hart irq;
  claim_word hart d d' irq a : reg_read (PLIC_SCLAIM hart) d = (irq, d') → word d' a = word d a;
  complete_law hart irq d : 0 ≤ hart →
    serving (reg_write (PLIC_SCLAIM hart) irq d) = serving d ∖ {[irq]} ∧
    waiting (reg_write (PLIC_SCLAIM hart) irq d) = waiting d ∧
    ∀ a, word (reg_write (PLIC_SCLAIM hart) irq d) a = word d a;
  write_law a v d b : (∀ hart, a ≠ PLIC_SCLAIM hart) →
    word (reg_write a v d) b = (if decide (b = a) then v else word d b) ∧
    waiting (reg_write a v d) = waiting d ∧ serving (reg_write a v d) = serving d;
}.

Section laws.
Context {D : Type} `{!PlicDev D, !PlicLaws D}.
Implicit Types d : D.

(** The controller is set up for a hart: the two devices are enabled. *)
Record configured (hart : Z) d : Prop := {
  cf_uart : word d (PLIC_PRIORITY + UART0_IRQ * 4) = 1;
  cf_disk : word d (PLIC_PRIORITY + VIRTIO0_IRQ * 4) = 1;
  cf_enable : word d (PLIC_SENABLE hart) = Z.lor (Z.shiftl 1 UART0_IRQ) (Z.shiftl 1 VIRTIO0_IRQ);
  cf_threshold : word d (PLIC_SPRIORITY hart) = 0 }.

Lemma plic_setup hart d :
  0 ≤ hart < 8 → wp (plicinit;; plicinithart hart) (λ _ d', configured hart d' ∧ waiting d' = waiting d ∧ serving d' = serving d) d.
Proof using Type.
  intros Hh. unfold plicinit, plicinithart, wr32.
  assert (∀ a, a = PLIC + UART0_IRQ * 4 ∨ a = PLIC + VIRTIO0_IRQ * 4 ∨ a = PLIC_SENABLE hart ∨ a = PLIC_SPRIORITY hart →
    ∀ h, a ≠ PLIC_SCLAIM h) as Hne.
  { intros a Ha h. unfold PLIC_SENABLE, PLIC_SPRIORITY, PLIC_SCLAIM, UART0_IRQ, VIRTIO0_IRQ, PLIC in *. lia. }
  repeat first [apply wp_bind|apply wp_modify]. cbv beta.
  set (d1 := reg_write _ _ d). set (d2 := reg_write _ _ d1). set (d3 := reg_write _ _ d2). set (d4 := reg_write _ _ d3).
  pose proof (λ b, write_law _ (u32 1) d b (Hne (PLIC + UART0_IRQ * 4) ltac:(auto))) as H1.
  pose proof (λ b, write_law _ (u32 1) d1 b (Hne (PLIC + VIRTIO0_IRQ * 4) ltac:(auto))) as H2.
  pose proof (λ b, write_law _ (u32 (Z.lor (Z.shiftl 1 UART0_IRQ) (Z.shiftl 1 VIRTIO0_IRQ))) d2 b (Hne (PLIC_SENABLE hart) ltac:(auto))) as H3.
  pose proof (λ b, write_law _ (u32 0) d3 b (Hne (PLIC_SPRIORITY hart) ltac:(auto))) as H4.
  fold d1 in H1. fold d2 in H2. fold d3 in H3. fold d4 in H4.
  assert (waiting d4 = waiting d ∧ serving d4 = serving d) as [E1 E2].
  { destruct (H1 0) as (_ & <- & <-), (H2 0) as (_ & <- & <-), (H3 0) as (_ & <- & <-), (H4 0) as (_ & -> & ->). done. }
  split; [|done].
  split; rewrite (proj1 (H4 _)); repeat (rewrite ?(proj1 (H3 _)), ?(proj1 (H2 _)), ?(proj1 (H1 _));
    try (rewrite decide_False by (unfold PLIC_PRIORITY, PLIC_SENABLE, PLIC_SPRIORITY, UART0_IRQ, VIRTIO0_IRQ, PLIC in *; lia)));
    rewrite ?decide_True by done; try reflexivity.
Qed.

(** Only the two devices can be claimed; who waits is claimed. *)
Record claimed (hart irq : Z) d d' : Prop := {
  cl_conf : configured hart d';
  cl_irq : irq = 0 ∨ irq = UART0_IRQ ∨ irq = VIRTIO0_IRQ;
  cl_zero : irq = 0 → d' = d ∧ (UART0_IRQ ∉ waiting d) ∧ (VIRTIO0_IRQ ∉ waiting d);
  cl_some : irq ≠ 0 → irq ∈ waiting d ∧ waiting d' = waiting d ∖ {[irq]} ∧ serving d' = {[irq]} ∪ serving d }.

Lemma configured_ext hart d d' : (∀ a, word d' a = word d a) → configured hart d → configured hart d'.
Proof using Type. intros E []. split; by rewrite E. Qed.

Lemma enabled_irq irq :
  0 < irq < 32 → Z.testbit (Z.lor (Z.shiftl 1 UART0_IRQ) (Z.shiftl 1 VIRTIO0_IRQ)) irq = true →
  irq = UART0_IRQ ∨ irq = VIRTIO0_IRQ.
Proof using Type.
  clear. intros Hr Hb. unfold UART0_IRQ, VIRTIO0_IRQ in *.
  rewrite Z.lor_spec, !Z.shiftl_spec in Hb by lia.
  apply orb_true_iff in Hb as [Hb|Hb]; [left|right].
  - destruct (decide (irq = 10)); [done|]. destruct (decide (irq < 10)); [by rewrite Z.testbit_neg_r in Hb by lia|].
    rewrite Z.bits_above_log2 in Hb; simpl; [done|lia|lia].
  - destruct (decide (irq = 1)); [done|]. rewrite Z.bits_above_log2 in Hb; simpl; [done|lia|lia].
Qed.

Lemma ready_device hart d irq :
  configured hart d → irq = UART0_IRQ ∨ irq = VIRTIO0_IRQ → irq ∈ waiting d → ready d hart irq.
Proof using Type.
  intros [C1 C2 C3 C4] Hi Hin. split; [done|]. rewrite C3, C4.
  destruct Hi as [->| ->]; (split; [by vm_compute|]); (split; [done|]); rewrite ?C1, ?C2; lia.
Qed.

Lemma plic_claim_spec hart d :
  0 ≤ hart → configured hart d → wp (plic_claim hart) (λ irq d', claimed hart irq d d') d.
Proof using Type.
  intros Hh Hc. unfold plic_claim, rd32. apply wp_bind. unfold wp at 1.
  destruct (reg_read (PLIC_SCLAIM hart) d) as [irq d'] eqn:E. apply wp_ret.
  assert (configured hart d') as Hc' by (eapply configured_ext, Hc; intros a; by eapply claim_word).
  destruct (decide (irq = 0)) as [->|Hne].
  { destruct (claim_none _ _ _ Hh E) as [-> Hno]. split; [done|by left|intros _|done].
    split; [done|]. split; intros Hin; (eapply Hno, ready_device; [done| |exact Hin]); auto. }
  destruct (claim_some _ _ _ _ Hh E Hne) as ((Hw & Hr & Hb & _) & E1 & E2).
  assert (s32 irq = irq) as -> by (unfold s32; apply swrap_small; lia).
  rewrite (cf_enable _ _ Hc) in Hb. split; [done| |done|done]. right. by apply enabled_irq.
Qed.

Lemma plic_complete_spec hart irq d :
  0 ≤ hart → 0 ≤ irq < 2 ^ 32 → configured hart d →
  wp (plic_complete hart irq) (λ _ d', configured hart d' ∧ waiting d' = waiting d ∧ serving d' = serving d ∖ {[irq]}) d.
Proof using Type.
  intros Hh Hi Hc. unfold plic_complete, wr32. apply wp_modify. unfold u32. rewrite wrap_small by done.
  destruct (complete_law hart irq d Hh) as (E1 & E2 & E3). split_and!; [by eapply configured_ext|done..].
Qed.
End laws.

(** ** A controller *)
Module Controller.
Record plic := Plic { words : gmap Z Z; wait : gset Z; serve : gset Z }.
Definition get (d : plic) (a : Z) : Z := default 0 (words d !! a).
Definition is_ready (d : plic) (hart irq : Z) : Prop :=
  irq ∈ wait d ∧ 0 < irq < 32 ∧ Z.testbit (get d (PLIC_SENABLE hart)) irq = true ∧
  get d (PLIC_SPRIORITY hart) < get d (PLIC_PRIORITY + irq * 4).
#[global] Instance is_ready_dec d hart irq : Decision (is_ready d hart irq).
Proof. apply _. Defined.
(** The hart whose claim register [a] is. *)
Definition claim_hart (a : Z) : option Z :=
  let x := a - (PLIC + 0x201004) in
  if (x mod 0x2000 =? 0) then Some (x / 0x2000) else None.
#[global] Instance plic_dev : PlicDev plic := {
  reg_read a d :=
    match claim_hart a with
    | Some hart =>
        match filter (is_ready d hart) (elements (wait d)) with
        | irq :: _ => (irq, Plic (words d) (wait d ∖ {[irq]}) ({[irq]} ∪ serve d))
        | [] => (0, d)
        end
    | None => (get d a, d)
    end;
  reg_write a v d :=
    match claim_hart a with
    | Some _ => Plic (words d) (wait d) (serve d ∖ {[v]})
    | None => Plic (<[a := v]> (words d)) (wait d) (serve d)
    end }.

Lemma claim_hart_claim hart : claim_hart (PLIC_SCLAIM hart) = Some hart.
Proof.
  unfold claim_hart, PLIC_SCLAIM. replace (_ - _) with (hart * 0x2000) by lia.
  rewrite Z.mod_mul, Z.div_mul by done. done.
Qed.
Lemma claim_hart_none a : (∀ hart, a ≠ PLIC_SCLAIM hart) → claim_hart a = None.
Proof.
  intros Ha. unfold claim_hart. destruct (Z.eqb_spec ((a - (PLIC + 0x201004)) mod 0x2000) 0) as [E|]; [|done].
  exfalso. apply Z.mod_divide in E as [h Hh]; [|done]. apply (Ha h). unfold PLIC_SCLAIM. lia.
Qed.

#[global] Program Instance plic_laws : PlicLaws plic := { word := get; waiting := wait; serving := serve }.
Next Obligation.
  intros hart d d' irq _. simpl. rewrite claim_hart_claim.
  destruct (filter _ _) as [|i l] eqn:E; intros [= <- <-] Hne; [done|].
  assert (i ∈ filter (is_ready d hart) (elements (wait d))) as Hi by (rewrite E; by left).
  apply list_elem_of_filter in Hi as [Hi _]. done.
Qed.
Next Obligation.
  intros hart d d' _. simpl. rewrite claim_hart_claim. destruct (filter _ _) as [|i l] eqn:E.
  - intros [= <-]. split; [done|]. intros irq Hr.
    assert (irq ∈ filter (is_ready d hart) (elements (wait d))) as Hin.
    { apply list_elem_of_filter. split; [done|]. apply elem_of_elements, Hr. }
    rewrite E in Hin. by apply elem_of_nil in Hin.
  - intros [= -> _]. exfalso.
    assert (0 ∈ filter (is_ready d hart) (elements (wait d))) as Hi by (rewrite E; by left).
    apply list_elem_of_filter in Hi as [(_ & ? & _) _]. lia.
Qed.
Next Obligation.
  intros hart d d' irq a. simpl. rewrite claim_hart_claim. destruct (filter _ _); by intros [= <- <-].
Qed.
Next Obligation. intros hart irq d _. simpl. by rewrite claim_hart_claim. Qed.
Next Obligation.
  intros a v d b Ha. simpl. rewrite claim_hart_none by done. split_and!; [|done..].
  unfold get. simpl. case_decide as E; [subst; by rewrite lookup_insert_eq|by rewrite lookup_insert_ne].
Qed.
End Controller.
