(* ===== verification/VmSpec.v ===== *)
(** * Address spaces: what a page table means

    The abstract view of a page table: [tabs] gives the page of each table of
    the tree, keyed by its level and the prefix of the virtual addresses it
    serves, and [leaf] the entry of each mapped virtual page.  [Space] relates
    it to the bytes in memory, for all three levels at once.  The specs of
    [walk], [mappages], [uvmunmap] and the functions built from them say how
    they change this view, that they never touch a page outside of the tables,
    and which pages they take from and return to the allocator. *)

From S2P Require Import Prelude Word Param Kalloc Vm.

(** ** Arithmetic of entries *)
Lemma lor_low k f : 0 ≤ f < 1024 → Z.lor (k * 1024) f = k * 1024 + f.
Proof.
  intros Hf. change 1024 with (2 ^ 10). rewrite <-Z.shiftl_mul_pow2 by lia.
  symmetry. apply Z.add_nocarry_lor. apply Z.bits_inj'. intros n Hn. rewrite Z.land_spec, Z.bits_0.
  destruct (decide (n < 10)).
  - by rewrite Z.shiftl_spec_low.
  - rewrite (Z.bits_above_log2 f n); [by rewrite andb_false_r|lia|].
    destruct (decide (f = 0)) as [->|]; [simpl; lia|].
    apply Z.log2_lt_pow2; [lia|]. apply Z.lt_le_trans with (2 ^ 10); [lia|]. apply Z.pow_le_mono_r; lia.
Qed.

Lemma PA2PTE_eq pa : 0 ≤ pa < 2 ^ 56 → PA2PTE pa = pa / 4096 * 1024.
Proof.
  intros Hpa. unfold PA2PTE, u64. rewrite Z.shiftr_div_pow2, Z.shiftl_mul_pow2 by lia.
  change (2 ^ 12) with 4096. change (2 ^ 10) with 1024. rewrite wrap_small; [done|].
  pose proof (Z.div_mod pa 4096). pose proof (Z.mod_pos_bound pa 4096). lia.
Qed.

Lemma PTE2PA_eq e : 0 ≤ e < 2 ^ 54 → PTE2PA e = e / 1024 * 4096.
Proof.
  intros He. unfold PTE2PA, u64. rewrite Z.shiftr_div_pow2, Z.shiftl_mul_pow2 by lia.
  change (2 ^ 12) with 4096. change (2 ^ 10) with 1024. rewrite wrap_small; [done|].
  pose proof (Z.div_mod e 1024). pose proof (Z.mod_pos_bound e 1024). lia.
Qed.

(** The entry for page [pa] with flag bits [f]. *)
Definition mkpte (pa f : Z) : Z := pa / 4096 * 1024 + f.

Section mkpte.
Context (pa f : Z).
Hypotheses (Hal : pa mod PGSIZE = 0) (Hpa : 0 ≤ pa < 2 ^ 56) (Hf : 0 ≤ f < 1024).

Lemma mkpte_range : 0 ≤ mkpte pa f < 2 ^ 54.
Proof using Hpa Hf. unfold mkpte. pose proof (Z.div_mod pa 4096). pose proof (Z.mod_pos_bound pa 4096). lia. Qed.

Lemma PTE2PA_mkpte : PTE2PA (mkpte pa f) = pa.
Proof using Hal Hpa Hf.
  rewrite PTE2PA_eq by apply mkpte_range. unfold mkpte.
  rewrite Z.div_add_l, (Z.div_small f) by lia. unfold PGSIZE in Hal.
  pose proof (Z.div_mod pa 4096). lia.
Qed.

Lemma mkpte_flags g : 0 ≤ g < 1024 → Z.land (mkpte pa f) g = Z.land f g.
Proof using Hf.
  intros Hg. unfold mkpte. rewrite <-lor_low by done. rewrite Z.land_lor_distr_l.
  assert (Z.land (pa / 4096 * 1024) g = 0) as ->; [|by rewrite Z.lor_0_l].
  change 1024 with (2 ^ 10). rewrite <-Z.shiftl_mul_pow2 by lia. apply Z.bits_inj'. intros n Hn.
  rewrite Z.land_spec, Z.bits_0. destruct (decide (n < 10)); [by rewrite Z.shiftl_spec_low|].
  rewrite (Z.bits_above_log2 g n); [by rewrite andb_false_r|lia|].
  destruct (decide (g = 0)) as [->|]; [simpl; lia|].
  apply Z.log2_lt_pow2; [lia|]. apply Z.lt_le_trans with (2 ^ 10); [lia|]. apply Z.pow_le_mono_r; lia.
Qed.

Lemma bit_mkpte g : 0 ≤ g < 1024 → bit (mkpte pa f) g = bit f g.
Proof using Hf. intros Hg. unfold bit. by rewrite mkpte_flags. Qed.
End mkpte.

Lemma lor_range a b n : 0 < n → 0 ≤ a < 2 ^ n → 0 ≤ b < 2 ^ n → 0 ≤ Z.lor a b < 2 ^ n.
Proof.
  intros Hn Ha Hb. assert (0 ≤ Z.lor a b) by (apply Z.lor_nonneg; lia). split; [done|].
  destruct (decide (Z.lor a b = 0)) as [->|Hne]; [lia|].
  apply Z.log2_lt_pow2; [lia|]. rewrite Z.log2_lor by lia. apply Z.max_lub_lt.
  - destruct (decide (a = 0)) as [->|]; [done|apply Z.log2_lt_pow2; lia].
  - destruct (decide (b = 0)) as [->|]; [done|apply Z.log2_lt_pow2; lia].
Qed.

(** The entry that [mappages] stores. *)
Lemma pte_store pa perm :
  0 ≤ pa < 2 ^ 56 → 0 ≤ perm < 1024 →
  Z.lor (Z.lor (PA2PTE pa) perm) PTE_V = mkpte pa (Z.lor perm PTE_V).
Proof.
  intros Hpa Hp. rewrite PA2PTE_eq by done. rewrite <-Z.lor_assoc. unfold mkpte. apply lor_low.
  apply (lor_range _ _ 10); [lia|done|unfold PTE_V; lia].
Qed.

(** The entry of [walk] for a table. *)
Lemma tpte_store pa : 0 ≤ pa < 2 ^ 56 → Z.lor (PA2PTE pa) PTE_V = mkpte pa PTE_V.
Proof. intros Hpa. rewrite PA2PTE_eq by done. unfold mkpte. apply lor_low. unfold PTE_V. lia. Qed.

Lemma page_ok_range kend p : page_ok kend p → p mod PGSIZE = 0 ∧ 0 ≤ p < 2 ^ 56.
Proof. intros (? & ? & ?). split; [done|]. pages_lia. Qed.

(** Virtual addresses: the prefix that selects the entry of level [n]. *)
Definition prefix (n : nat) (va : Z) : Z := va / 2 ^ (12 + 9 * Z.of_nat n).

Lemma PX_prefix n va : 0 ≤ va → PX (Z.of_nat n) va = prefix n va mod 512.
Proof.
  intros Hva. unfold PX, prefix, PXSHIFT, PXMASK, PGSHIFT. rewrite Z.shiftr_div_pow2 by lia.
  change 0x1FF with (Z.ones 9). by rewrite Z.land_ones by lia.
Qed.

Lemma prefix_S n va : prefix (S n) va = prefix n va / 512.
Proof.
  unfold prefix. rewrite Z.div_div by lia. f_equal.
  replace (12 + 9 * Z.of_nat (S n)) with (12 + 9 * Z.of_nat n + 9) by lia. by rewrite Z.pow_add_r by lia.
Qed.

Lemma prefix_top va : 0 ≤ va < MAXVA → prefix 3 va = 0.
Proof. intros Hva. unfold prefix. apply Z.div_small. change MAXVA with (2 ^ 38) in Hva. simpl. lia. Qed.

(** Addresses of entries. *)
Lemma entry_addr p i : p mod PGSIZE = 0 → 0 ≤ i < 512 →
  PGROUNDDOWN (p + 8 * i) = p ∧ (p + 8 * i) mod PGSIZE / 8 = i.
Proof.
  intros Hp Hi. unfold PGROUNDDOWN, PGSIZE in *.
  assert ((p + 8 * i) mod 4096 = 8 * i) as ->.
  { rewrite <-Zplus_mod_idemp_l, Hp, Z.add_0_l. apply Z.mod_small. lia. }
  split; [lia|]. rewrite Z.mul_comm. by apply Z.div_mul.
Qed.

(** ** Address spaces *)
Record aspace := Aspace { tabs : gmap (nat * Z) Z; leaf : gmap Z Z }.

(** The entry of level [n] with prefix [k]. *)
Definition entry (A : aspace) (n : nat) (k : Z) : Z :=
  match n with
  | O => default 0 (leaf A !! k)
  | S m => match tabs A !! (m, k) with Some p => mkpte p PTE_V | None => 0 end
  end.

(** A leaf entry: a page address, and flags with V and one of R, W, X. *)
Definition pte_ok (e : Z) : Prop :=
  ∃ pa f, e = mkpte pa f ∧ pa mod PGSIZE = 0 ∧ 0 ≤ pa < 2 ^ 56 ∧ 0 ≤ f < 1024 ∧
    bit f PTE_V = true ∧ bit f (Z.lor PTE_R (Z.lor PTE_W PTE_X)) = true.

Definition table_at (ps : gmap Z page) (A : aspace) (n : nat) (k p : Z) : Prop :=
  ∃ x, ps !! p = Some x ∧ length x = Z.to_nat PGSIZE ∧
    ∀ i, 0 ≤ i < 512 → get64 x (word_off i) = entry A n (k * 512 + i).

Record Space (kend : Z) (ps : gmap Z page) (root : Z) (A : aspace) : Prop := {
  sp_root : tabs A !! (2%nat, 0) = Some root;
  sp_key n k p : tabs A !! (n, k) = Some p → (n ≤ 2)%nat ∧ 0 ≤ k ∧ (n = 2%nat → k = 0) ∧ page_ok kend p;
  sp_parent n k p : tabs A !! (n, k) = Some p → (n < 2)%nat → is_Some (tabs A !! (S n, k / 512));
  sp_inj a b p : tabs A !! a = Some p → tabs A !! b = Some p → a = b;
  sp_page n k p : tabs A !! (n, k) = Some p → table_at ps A n k p;
  sp_leaf v e : leaf A !! v = Some e → is_Some (tabs A !! (0%nat, v / 512)) ∧ 0 ≤ v < 2 ^ 26 ∧ pte_ok e;
}.

(** The pages of the tables. *)
Definition tables (A : aspace) : gset Z := map_img (tabs A).

Definition set_leaf (v : Z) (e : option Z) (A : aspace) : aspace :=
  Aspace (tabs A) (match e with Some e => <[v := e]> (leaf A) | None => delete v (leaf A) end).
Definition add_table (a : nat * Z) (q : Z) (A : aspace) : aspace := Aspace (<[a := q]> (tabs A)) (leaf A).

Lemma elem_of_tables A p : p ∈ tables A ↔ ∃ a, tabs A !! a = Some p.
Proof. unfold tables. by rewrite elem_of_map_img. Qed.

Lemma of_le_zeros n : of_le (replicate n 0) = 0.
Proof. induction n as [|n IH]; [done|]. cbn [replicate of_le]. by rewrite IH. Qed.

Lemma get64_zero i : 0 ≤ i < 512 → get64 (const_page 0) (word_off i) = 0.
Proof.
  intros Hi. Transparent getn const_page. unfold getn, slice, const_page, word_off, PGSIZE.
  rewrite drop_replicate, take_replicate. apply of_le_zeros.
Qed.
Opaque getn const_page.

Section space.
Context (kend : Z).
Implicit Types (ps : gmap Z page) (A : aspace).

(** Writing one entry of a table. *)
Lemma table_at_write ps A A' n k p i x v :
  ps !! p = Some x → table_at ps A n k p → 0 ≤ i < 512 → 0 ≤ v < 2 ^ 64 →
  entry A' n (k * 512 + i) = v →
  (∀ j, 0 ≤ j < 512 → j ≠ i → entry A' n (k * 512 + j) = entry A n (k * 512 + j)) →
  table_at (<[p := put64 x (word_off i) v]> ps) A' n k p.
Proof using Type.
  intros Hx (x' & Hx' & Hlen & He) Hi Hv Hn Ho. assert (x' = x) as -> by congruence.
  exists (put64 x (word_off i) v). unfold word_off, PGSIZE in *. split_and!; [apply lookup_insert_eq| |].
  - rewrite length_putn by lia. done.
  - intros j Hj. destruct (decide (j = i)) as [->|Hne].
    + rewrite getn_putn_same by lia. rewrite Hn. apply Z.mod_small. done.
    + rewrite getn_putn_ne by lia. rewrite He by done. by rewrite Ho.
Qed.

Lemma table_at_other ps A A' n k p q y :
  p ≠ q → table_at ps A n k p →
  (∀ j, 0 ≤ j < 512 → entry A' n (k * 512 + j) = entry A n (k * 512 + j)) →
  table_at (<[q := y]> ps) A' n k p.
Proof using Type.
  intros Hne (x & Hx & Hlen & He) Ho. exists x. rewrite lookup_insert_ne by done.
  split_and!; [done|done|]. intros j Hj. by rewrite He, Ho.
Qed.

Lemma Space_frame ps ps' root A :
  Space kend ps root A → (∀ q, q ∈ tables A → ps' !! q = ps !! q) → Space kend ps' root A.
Proof using Type.
  intros [H1 H2 H3 H4 H5 H6] Hq. split; try done.
  intros n k p Hp. destruct (H5 _ _ _ Hp) as (x & Hx & Hr). exists x.
  rewrite Hq by (apply elem_of_tables; eauto). done.
Qed.

(** Keys that agree on table and index are equal. *)
Lemma key_inj k i k' i' : 0 ≤ i < 512 → 0 ≤ i' < 512 → k * 512 + i = k' * 512 + i' → k = k' ∧ i = i'.
Proof using Type. lia. Qed.

Lemma pte_ok_range e : pte_ok e → 0 ≤ e < 2 ^ 64.
Proof using Type.
  intros (pa & f & -> & _ & Hpa & Hf & _). pose proof (mkpte_range pa f Hpa Hf). lia.
Qed.

Lemma Space_set_leaf ps root A k i p x e :
  Space kend ps root A → tabs A !! (0%nat, k) = Some p → 0 ≤ i < 512 → k * 512 + i < 2 ^ 26 → ps !! p = Some x →
  (∀ e', e = Some e' → pte_ok e') →
  Space kend (<[p := put64 x (word_off i) (default 0 e)]> ps) root (set_leaf (k * 512 + i) e A).
Proof using Type.
  intros Hsp Hp Hi Hki Hx He. pose proof Hsp as [H1 H2 H3 H4 H5 H6].
  destruct (H2 _ _ _ Hp) as (_ & Hk & _). split; try done.
  - intros n k' p' Hp'. destruct (decide ((n, k') = (0%nat, k))) as [[= -> ->]|Hne].
    + assert (p' = p) as -> by (simpl in Hp'; congruence). apply (table_at_write _ A); [done|by apply H5|done| | |].
      * destruct e as [e|]; [by apply pte_ok_range, He|simpl; lia].
      * simpl. destruct e; simpl; [by rewrite lookup_insert_eq|by rewrite lookup_delete_eq].
      * intros j Hj Hji. simpl. destruct e; simpl; [rewrite lookup_insert_ne by lia|rewrite lookup_delete_ne by lia]; done.
    + apply (table_at_other _ A); [|by apply H5|].
      * intros ->. apply Hne. by eapply H4.
      * intros j Hj. destruct n as [|n]; [|done]. simpl. assert (k' ≠ k) by congruence.
        destruct e; simpl; [rewrite lookup_insert_ne by lia|rewrite lookup_delete_ne by lia]; done.
  - intros v e' Hv. destruct e as [e|]; simpl in Hv.
    + apply lookup_insert_Some in Hv as [[<- <-]|[_ Hv]]; [|by apply H6].
      split_and!; [|lia|lia|by apply He]. simpl. replace ((k * 512 + i) / 512) with k; [by exists p|].
      rewrite Z.div_add_l, (Z.div_small i) by lia. lia.
    + apply lookup_delete_Some in Hv as [_ Hv]. by apply H6.
Qed.

Lemma Space_add_table ps root A n k i p x q z :
  Space kend ps root A → tabs A !! (S n, k) = Some p → 0 ≤ i < 512 → ps !! p = Some x →
  tabs A !! (n, k * 512 + i) = None → q ∉ tables A → page_ok kend q →
  z = const_page 0 → ps !! q = Some z →
  Space kend (<[p := put64 x (word_off i) (mkpte q PTE_V)]> ps) root (add_table (n, k * 512 + i) q A).
Proof using Type.
  intros Hsp Hp Hi Hx Hnone Hq Hqok -> Hz. pose proof Hsp as [H1 H2 H3 H4 H5 H6].
  destruct (H2 _ _ _ Hp) as (Hn & Hk & Hk2 & _).
  assert (∀ m j v, tabs A !! (m, j) = Some v → v ≠ q) as Hvq.
  { intros m j v Hv ->. apply Hq, elem_of_tables. eauto. }
  assert (∀ m j, tabs A !! (m, j) ≠ None → entry (add_table (n, k * 512 + i) q A) (S m) j = entry A (S m) j) as Hent.
  { intros m j Hj. simpl. rewrite lookup_insert_ne; [done|]. intros [= <- <-]. by apply Hj. }
  assert ((k * 512 + i) / 512 = k) as Hdiv by (rewrite Z.div_add_l, (Z.div_small i) by lia; lia).
  split; cbn [tabs leaf add_table].
  - by rewrite lookup_insert_ne by (intros [= -> _]; lia).
  - intros n' k' p' [[[= <- <-] <-]|[_ Hv]]%lookup_insert_Some; [|by apply H2].
    split_and!; [lia|lia|intros ->; lia|done].
  - intros n' k' p' [[[= <- <-] <-]|[_ Hv]]%lookup_insert_Some Hlt; simpl.
    + rewrite Hdiv. rewrite lookup_insert_ne by (intros [= ?]; lia). by exists p.
    + apply lookup_insert_is_Some'. right. by eapply H3.
  - intros a b v [[<- <-]|[Ha Hva]]%lookup_insert_Some [[<- Hb]|[Hb Hvb]]%lookup_insert_Some; try done.
    + destruct b. by edestruct Hvq.
    + destruct a. subst. by edestruct Hvq.
    + by eapply H4.
  - intros n' k' p' [[[= <- <-] <-]|[Hne Hv]]%lookup_insert_Some.
    + exists (const_page 0). rewrite lookup_insert_ne by (by eapply Hvq). split_and!; [done|apply length_const_page|].
      intros j Hj. rewrite get64_zero by done. symmetry. destruct n as [|n]; simpl.
      * destruct (leaf A !! ((k * 512 + i) * 512 + j)) as [e|] eqn:E; [|done].
        apply H6 in E as ([p' Hp'] & _). rewrite Z.div_add_l, (Z.div_small j), Z.add_0_r in Hp' by lia. congruence.
      * rewrite lookup_insert_ne by (intros [= ?]; lia).
        destruct (tabs A !! (n, (k * 512 + i) * 512 + j)) as [e|] eqn:E; [|done].
        apply H3 in E as [p' Hp']; [|lia]. rewrite Z.div_add_l, (Z.div_small j), Z.add_0_r in Hp' by lia. congruence.
    + destruct (decide ((n', k') = (S n, k))) as [[= -> ->]|Hne'].
      * assert (p' = p) as -> by congruence. apply (table_at_write _ A); [done|by apply H5|done| | |].
        -- pose proof (page_ok_range _ _ Hqok) as [_ Hr].
           pose proof (mkpte_range q PTE_V Hr ltac:(unfold PTE_V; lia)). lia.
        -- simpl. by rewrite lookup_insert_eq.
        -- intros j Hj Hji. simpl. rewrite lookup_insert_ne by (intros [= ?]; lia). done.
      * apply (table_at_other _ A); [|by apply H5|].
        -- intros ->. apply Hne'. by eapply H4.
        -- intros j Hj. destruct n' as [|n']; [done|]. simpl. rewrite lookup_insert_ne; [done|].
           intros [= <- E]. apply Hne'. f_equal. lia.
  - intros v e He. destruct (H6 v e He) as (Hs & Hr). split; [|done]. simpl.
    apply lookup_insert_is_Some'. by right.
Qed.
End space.

(** ** The state with one address space in view

    [F] are the pages in use that are not tables of it: user memory, other
    page tables, pipes. *)
Record VInv (kend : Z) (s : pst) (root : Z) (A : aspace) (F : gset Z) (l : list Z) : Prop := {
  vi_owned : Owned kend s (tables A ∪ F) l;
  vi_disj : tables A ## F;
  vi_space : Space kend (pages s) root A;
}.

Definition frame (F : gset Z) (s s' : pst) : Prop := ∀ q, q ∈ F → pages s' !! q = pages s !! q.

#[global] Instance frame_preorder F : PreOrder (frame F).
Proof. split; [by intros s q|]. intros s1 s2 s3 H1 H2 q Hq. by rewrite H2, H1. Qed.

(** [r] is the address of the entry for [va] in the lowest table. *)
Definition pte_addr (A : aspace) (va r : Z) : Prop :=
  ∃ p0, tabs A !! (0%nat, prefix 1 va) = Some p0 ∧ r = p0 + 8 * PX 0 va.

Section walk.
Context (kend : Z).
Implicit Types (s : pst) (A : aspace) (F : gset Z).

Lemma Owned_write s O l p x :
  Owned kend s O l → p ∈ O → length x = Z.to_nat PGSIZE →
  Owned kend (Pst (<[p := x]> (pages s)) (freelist s)) O l.
Proof using Type.
  intros (Hinv & Hpart & Hdis & Hram) Hp Hx. split_and!; [|done|done|].
  - apply KInv_use; [done| |done]. intros Hin. by apply (Hdis p).
  - intros q Hq. cbn [pages]. apply lookup_insert_is_Some'. right. by apply Hram.
Qed.

Lemma PX_range level va : 0 ≤ PX level va < 512.
Proof using Type.
  unfold PX, PXMASK. change 0x1FF with (Z.ones 9). rewrite Z.land_ones by lia. apply Z.mod_pos_bound. lia.
Qed.

(** The key of the entry of level [n] for [va]. *)
Lemma prefix_key n va : 0 ≤ va → prefix (S n) va * 512 + PX (Z.of_nat n) va = prefix n va.
Proof using Type.
  intros Hva. rewrite PX_prefix, prefix_S by done. pose proof (Z.div_mod (prefix n va) 512). lia.
Qed.

Lemma wp_ld64 s root A n k p i (Q : Z → pst → Prop) :
  Space kend (pages s) root A → tabs A !! (n, k) = Some p → 0 ≤ i < 512 →
  Q (entry A n (k * 512 + i)) s → wp (ld64 (p + 8 * i)) Q s.
Proof using Type.
  intros Hsp Hp Hi HQ. destruct (sp_key _ _ _ _ Hsp _ _ _ Hp) as (_ & _ & _ & Hok).
  destruct (entry_addr p i) as [E1 E2]; [apply Hok|done|]. unfold ld64. rewrite E1, E2.
  destruct (sp_page _ _ _ _ Hsp _ _ _ Hp) as (x & Hx & _ & He). eapply wp_word_get; [done|]. by rewrite He.
Qed.

Lemma wp_st64 s root A n k p i v (Q : unit → pst → Prop) :
  Space kend (pages s) root A → tabs A !! (n, k) = Some p → 0 ≤ i < 512 →
  (∀ x, pages s !! p = Some x → length x = Z.to_nat PGSIZE →
    Q tt (Pst (<[p := put64 x (word_off i) v]> (pages s)) (freelist s))) →
  wp (st64 (p + 8 * i) v) Q s.
Proof using Type.
  intros Hsp Hp Hi HQ. destruct (sp_key _ _ _ _ Hsp _ _ _ Hp) as (_ & _ & _ & Hok).
  destruct (entry_addr p i) as [E1 E2]; [apply Hok|done|]. unfold st64. rewrite E1, E2.
  destruct (sp_page _ _ _ _ Hsp _ _ _ Hp) as (x & Hx & Hlen & _). eapply wp_word_put; [done|]. by apply HQ.
Qed.

(** Storing a leaf entry, or 0. *)
Lemma st64_leaf s root A F l va r e :
  VInv kend s root A F l → 0 ≤ va < MAXVA → pte_addr A va r → (∀ e', e = Some e' → pte_ok e') →
  wp (st64 r (default 0 e)) (λ _ s', VInv kend s' root (set_leaf (prefix 0 va) e A) F l ∧ frame F s s') s.
Proof using Type.
  intros [Ho Hd Hsp] Hva (p & Hp & ->) He. pose proof (PX_range 0 va) as Hi.
  eapply wp_st64; [done|done|done|]. intros x Hx Hlen.
  assert (p ∈ tables A) as Hpt by (apply elem_of_tables; eauto).
  split; [split|].
  - apply Owned_write; [exact Ho|set_solver|]. unfold word_off, PGSIZE in *. rewrite length_putn; lia.
  - done.
  - rewrite <-(prefix_key 0) by lia. apply Space_set_leaf; [done|done|done| |done|done].
    rewrite (prefix_key 0) by lia.
    unfold prefix. change MAXVA with (2 ^ 26 * 2 ^ 12) in Hva. apply Z.div_lt_upper_bound; simpl; lia.
  - intros q Hq. cbn [pages]. rewrite lookup_insert_ne; [done|]. intros ->. set_solver.
Qed.

Lemma ld64_leaf s root A va r (Q : Z → pst → Prop) :
  Space kend (pages s) root A → 0 ≤ va → pte_addr A va r →
  Q (default 0 (leaf A !! prefix 0 va)) s → wp (ld64 r) Q s.
Proof using Type.
  intros Hsp Hva (p & Hp & ->) HQ. eapply wp_ld64; [done|done|apply PX_range|].
  change (PX 0 va) with (PX (Z.of_nat 0) va). by rewrite (prefix_key 0).
Qed.

Lemma entry_bit_V s root A n k p i :
  Space kend (pages s) root A → tabs A !! (S n, k) = Some p → 0 ≤ i < 512 →
  match tabs A !! (n, k * 512 + i) with
  | Some q => bit (entry A (S n) (k * 512 + i)) PTE_V = true ∧ PTE2PA (entry A (S n) (k * 512 + i)) = q
  | None => bit (entry A (S n) (k * 512 + i)) PTE_V = false
  end.
Proof using Type.
  intros Hsp Hp Hi. simpl. destruct (tabs A !! (n, k * 512 + i)) as [q|] eqn:E; [|done].
  destruct (sp_key _ _ _ _ Hsp _ _ _ E) as (_ & _ & _ & Hok).
  destruct (page_ok_range _ _ Hok) as [Hal Hr]. split.
  - rewrite bit_mkpte by (unfold PTE_V; lia). done.
  - apply PTE2PA_mkpte; [done|done|unfold PTE_V; lia].
Qed.

(** If the lowest table for [va] exists then so do those above. *)
Lemma tables_above ps root A va m :
  Space kend ps root A → is_Some (tabs A !! (0%nat, prefix 1 va)) → (m ≤ 2)%nat →
  is_Some (tabs A !! (m, prefix (S m) va)).
Proof using Type.
  intros Hsp H0. induction m as [|m IH]; intros Hm; [done|]. destruct (IH ltac:(lia)) as [p Hp].
  rewrite (prefix_S (S m)). eapply sp_parent; [done|done|lia].
Qed.

Lemma pte_addr_pos ps root A va r : 0 ≤ va → Space kend ps root A → pte_addr A va r → r ≠ 0.
Proof using Type.
  intros Hva Hsp (p & Hp & ->). destruct (sp_key _ _ _ _ Hsp _ _ _ Hp) as (_ & _ & _ & _ & _ & Hpos).
  pose proof (PX_range 0 va). lia.
Qed.

Lemma walk_levels_look n p va s root A :
  Space kend (pages s) root A → 0 ≤ va → (n ≤ 2)%nat → tabs A !! (n, prefix (S n) va) = Some p →
  wp (walk_levels n p va false) (λ r s', s' = s ∧
    match tabs A !! (0%nat, prefix 1 va) with
    | Some _ => r ≠ 0 ∧ pte_addr A va r
    | None => r = 0
    end) s.
Proof using Type.
  intros Hsp Hva. revert p. induction n as [|n IH]; intros p Hn Hp.
  - simpl. apply wp_ret. rewrite Hp. split; [done|].
    assert (pte_addr A va (p + 8 * PX 0 va)) as Ha by (by exists p). split; [by eapply pte_addr_pos|done].
  - cbn [walk_levels]. apply wp_bind. pose proof (PX_range (Z.of_nat (S n)) va) as Hi.
    eapply wp_ld64; [done|done|done|]. pose proof (entry_bit_V s root A n _ p _ Hsp Hp Hi) as Hb.
    rewrite prefix_key in * by done. destruct (tabs A !! (n, prefix (S n) va)) as [q|] eqn:E.
    + destruct Hb as [-> ->]. apply IH; [lia|done].
    + rewrite Hb. simpl. split; [done|]. destruct (tabs A !! (0%nat, prefix 1 va)) eqn:E0; [|done].
      destruct (tables_above _ _ _ va n Hsp ltac:(by rewrite E0) ltac:(lia)) as [? Hc]. congruence.
Qed.

(** A new table page: taken from the free list, zeroed and linked in. *)
Lemma tables_add a q A : tabs A !! a = None → tables (add_table a q A) = {[q]} ∪ tables A.
Proof using Type. intros Ha. unfold tables. cbn [add_table tabs]. by rewrite map_img_insert_notin_L. Qed.

Lemma VInv_kalloc s root A F l :
  VInv kend s root A F l →
  wp kalloc (λ q s', (q = 0 ∧ l = [] ∧ s' = s) ∨
    (q ≠ 0 ∧ page_ok kend q ∧ (q ∉ tables A) ∧ (q ∉ F) ∧ ∃ l', l = q :: l' ∧ VInv kend s' root A ({[q]} ∪ F) l' ∧
      pages s' = <[q := const_page 5]> (pages s))) s.
Proof using Type.
  intros [Ho Hd Hsp]. pose proof Ho as (Hinv & Hpart & Hdis & Hram).
  pose proof (kalloc_spec kend s l Hinv) as H1. pose proof (Owned_alloc kend s _ l Ho) as H2.
  apply wp_ok in H1 as (q & s' & Hrun & H1). eapply (wp_elim _ _ _ _ _) in H2; [|exact Hrun].
  apply wp_ok. exists q, s'. split; [exact Hrun|]. clear Hrun.
  destruct l as [|p l]; [destruct H1 as [-> ->]; by left|]. destruct H1 as (-> & _ & Hpg). right.
  destruct H2 as [(_ & ? & _)|(Hq0 & l' & [= <-] & Ho')]; [done|].
  pose proof (Hdis p ltac:(by left)) as Hnot. split_and!; [done|apply Hpart; left; by left|set_solver|set_solver|].
  exists l. split_and!; [done| |done]. split; [|set_solver|].
  - by rewrite (union_assoc_L _ {[p]}), (union_comm_L _ {[p]}), <-union_assoc_L.
  - eapply Space_frame; [exact Hsp|]. intros q Hq. rewrite Hpg. rewrite lookup_insert_ne; [done|]. set_solver.
Qed.

(** Writing to a page in use that is not a table. *)
Lemma VInv_write s root A F l p x :
  VInv kend s root A F l → p ∈ F → length x = Z.to_nat PGSIZE →
  VInv kend (Pst (<[p := x]> (pages s)) (freelist s)) root A F l.
Proof using Type.
  intros [Ho Hd Hsp] Hp Hx. split; [apply Owned_write; [done|set_solver|done]|done|].
  eapply Space_frame; [exact Hsp|]. intros q Hq. cbn [pages]. rewrite lookup_insert_ne; [done|]. set_solver.
Qed.

Lemma VInv_has s root A F l p : VInv kend s root A F l → p ∈ F → is_Some (pages s !! p).
Proof using Type. intros [(_ & _ & _ & Hram) _ _] Hp. apply Hram. set_solver. Qed.

Lemma Owned_free_frame s O l p :
  Owned kend s O l → p ∈ O →
  wp (kfree kend p) (λ _ s', Owned kend s' (O ∖ {[p]}) (p :: l) ∧ frame (O ∖ {[p]}) s s') s.
Proof using Type.
  intros Ho Hp. pose proof Ho as (Hinv & Hpart & Hdis & Hram).
  pose proof (kfree_spec kend s l p Hinv ltac:(apply Hpart; by right) ltac:(intros ?; by apply (Hdis p)) (Hram p Hp)) as H1.
  pose proof (Owned_free kend s _ l p Ho Hp) as H2.
  apply wp_ok in H1 as (u & s' & Hrun & _ & Hoth). eapply (wp_elim _ _ _ _ _) in H2; [|exact Hrun].
  apply wp_ok. exists u, s'. split; [exact Hrun|]. clear Hrun. split; [exact H2|].
  intros q Hq. apply Hoth. set_solver.
Qed.

Lemma VInv_free s root A F l p :
  VInv kend s root A F l → p ∈ F →
  wp (kfree kend p) (λ _ s', VInv kend s' root A (F ∖ {[p]}) (p :: l) ∧ frame (F ∖ {[p]}) s s') s.
Proof using Type.
  intros [Ho Hd Hsp] Hp. eapply wp_mono; [apply (Owned_free_frame _ _ _ p Ho); set_solver|]. intros [] s' [Ho' Hfr].
  assert ((tables A ∪ F) ∖ {[p]} = tables A ∪ F ∖ {[p]}) as E by set_solver. rewrite E in *.
  split; [split|].
  - exact Ho'.
  - set_solver.
  - eapply Space_frame; [exact Hsp|]. intros q Hq. apply Hfr. set_solver.
  - intros q Hq. apply Hfr. set_solver.
Qed.

(** The tables on the way to page [k], below the root. *)
Definition on_path (k : Z) (a : nat * Z) : Prop := a = (0%nat, k / 512) ∨ a = (1%nat, k / 512 / 512).

(** [A'] has the tables of [A] and new ones in [R] only. *)
Definition more_tables (R : nat * Z → Prop) A A' : Prop :=
  tabs A ⊆ tabs A' ∧ ∀ a, is_Some (tabs A' !! a) → is_Some (tabs A !! a) ∨ R a.
Lemma more_refl R A : more_tables R A A.
Proof using Type. split; [done|tauto]. Qed.
Lemma more_trans (R R' : nat * Z → Prop) A A1 A2 : (∀ a, R a → R' a) → more_tables R' A A1 → more_tables R A1 A2 → more_tables R' A A2.
Proof using Type. intros HR [H1 H2] [H3 H4]. split; [by etrans|]. intros a [?|?]%H4; auto. Qed.
Lemma more_sub R A A' : more_tables R A A' → tables A ⊆ tables A'.
Proof using Type. intros [H _] q Hq. apply elem_of_map_img in Hq as [a Ha]. apply elem_of_map_img. exists a. by eapply lookup_weaken. Qed.

(** At most [n] free pages are used up, for tables on the way. *)
Definition walk_post (n : nat) (va : Z) (s : pst) root A F (l : list Z) (r : Z) (s' : pst) : Prop :=
  ∃ A' l', VInv kend s' root A' F l' ∧ leaf A' = leaf A ∧ frame F s s' ∧ (length l ≤ length l' + n)%nat ∧
    more_tables (on_path (prefix 0 va)) A A' ∧
    ((r = 0 ∧ l' = []) ∨ (r ≠ 0 ∧ pte_addr A' va r)).

Lemma link_table s root A F l n k p i q s1 :
  VInv kend s1 root A ({[q]} ∪ F) l → tabs A !! (S n, k) = Some p → 0 ≤ i < 512 →
  tabs A !! (n, k * 512 + i) = None → q ∉ tables A → q ∉ F → page_ok kend q → frame F s s1 →
  wp (page_fill q 0;; st64 (p + 8 * i) (Z.lor (PA2PTE q) PTE_V)) (λ _ s',
    VInv kend s' root (add_table (n, k * 512 + i) q A) F l ∧ frame F s s') s1.
Proof using Type.
  intros Hv Hp Hi Hnone Hq HqF Hok Hfr. apply wp_bind, wp_page_put; [eapply VInv_has; [done|set_solver]|].
  assert (q ∈ {[q]} ∪ F) as Hin by set_solver.
  pose proof (VInv_write _ _ _ _ _ _ (const_page 0) Hv Hin (length_const_page 0)) as [Ho Hd Hsp].
  destruct (page_ok_range _ _ Hok) as [_ Hr]. rewrite tpte_store by done.
  eapply wp_st64; [done|done|done|]. cbn [pages freelist]. intros x Hx Hlen.
  assert (p ∈ tables A) as Hpt by (apply elem_of_tables; eauto). split; [split|].
  - rewrite tables_add by done. rewrite (union_comm_L {[q]}), <-union_assoc_L.
    refine (Owned_write _ _ l p _ Ho _ _); [set_solver|].
    unfold word_off, PGSIZE in *. rewrite length_putn; lia.
  - rewrite tables_add by done. set_solver.
  - eapply Space_add_table; [exact Hsp|done|done|done|done|done|done|done|]. apply lookup_insert_eq.
  - intros y Hy. cbn [pages]. rewrite !lookup_insert_ne by set_solver. by apply Hfr.
Qed.

Lemma walk_levels_alloc n p va s root A F l :
  VInv kend s root A F l → 0 ≤ va → (n ≤ 2)%nat → tabs A !! (n, prefix (S n) va) = Some p →
  wp (walk_levels n p va true) (walk_post n va s root A F l) s.
Proof using Type.
  intros Hv Hva. revert p s A l Hv. induction n as [|n IH]; intros p s A l Hv Hn Hp.
  - simpl. apply wp_ret. exists A, l. split_and!; [done|done|done|lia|apply more_refl|]. right.
    assert (pte_addr A va (p + 8 * PX 0 va)) as Ha by (by exists p). split; [|done].
    by eapply pte_addr_pos; [|apply (vi_space _ _ _ _ _ _ Hv)|].
  - cbn [walk_levels]. apply wp_bind. pose proof (PX_range (Z.of_nat (S n)) va) as Hi.
    pose proof (vi_space _ _ _ _ _ _ Hv) as Hsp. eapply wp_ld64; [done|done|done|].
    pose proof (entry_bit_V s root A n _ p _ Hsp Hp Hi) as Hb.
    destruct (tabs A !! (n, prefix (S (S n)) va * 512 + PX (Z.of_nat (S n)) va)) as [q|] eqn:E.
    + destruct Hb as [-> ->]. eapply wp_mono; [apply (IH q s A l Hv); [lia|by rewrite <-(prefix_key (S n))]|].
      intros r s' (A' & l' & H1 & H2 & H3 & H4 & H5 & H6). exists A', l'. split_and!; [done|done|done|lia|done|done].
    + rewrite Hb. cbn [negb]. eapply wp_seq; [by apply (VInv_kalloc _ root A F l)|].
      intros q s1 [(-> & -> & ->)|(Hq0 & Hok & HqA & HqF & l' & -> & Hv1 & Hpg)].
      { apply wp_ret. exists A, []. split_and!; [done|done|done|simpl; lia|apply more_refl|by left]. }
      rewrite (proj2 (Z.eqb_neq q 0)) by done.
      assert (frame F s s1) as Hfr1.
      { intros y Hy. rewrite Hpg, lookup_insert_ne; [done|]. intros ->. done. }
      pose proof (link_table s root A F l' n _ p _ q s1 Hv1 Hp Hi E HqA HqF Hok Hfr1) as Hlink.
      apply wp_bind_inv in Hlink. apply wp_bind. eapply wp_mono; [exact Hlink|]. intros [] s2 Hs2.
      apply wp_bind. eapply wp_mono; [exact Hs2|]. intros [] s3 [Hv3 Hfr3].
      eapply wp_mono; [apply (IH q s3 _ l' Hv3); [lia|]|].
      { cbn [add_table tabs]. rewrite prefix_key by done. apply lookup_insert_eq. }
      intros r s4 (A' & l'' & H1 & H2 & H3 & H4 & H5 & H6). exists A', l''. split_and!; [done|done| | | |done].
      * by transitivity s3.
      * simpl. lia.
      * eapply (more_trans (on_path (prefix 0 va))); [done| |exact H5]. cbn [add_table tabs]. split; [by apply insert_subseteq|].
        intros a Ha. cbn [add_table tabs] in Ha. rewrite prefix_key in Ha by done.
        destruct (decide (a = (n, prefix (S n) va))) as [->|]; [|left; by rewrite lookup_insert_ne in Ha].
        right. unfold on_path. rewrite <-!prefix_S. destruct n as [|[|]]; [by left|by right|lia].
Qed.

Lemma walk_alloc_spec va s root A F l :
  VInv kend s root A F l → 0 ≤ va < MAXVA → wp (walk root va true) (walk_post 2 va s root A F l) s.
Proof using Type.
  intros Hv Hva. unfold walk. apply wp_bind, wp_panic_if; [apply Z.leb_gt; lia|].
  apply walk_levels_alloc; [done|lia|lia|]. rewrite prefix_top by done. apply (sp_root _ _ _ _ (vi_space _ _ _ _ _ _ Hv)).
Qed.

(** Without allocation: the entry of a mapped page is found, and when there
    is no table for it then the page is not mapped. *)
Lemma walk_look_spec va s root A :
  Space kend (pages s) root A → 0 ≤ va < MAXVA →
  wp (walk root va false) (λ r s', s' = s ∧
    ((r = 0 ∧ leaf A !! prefix 0 va = None) ∨ (r ≠ 0 ∧ pte_addr A va r))) s.
Proof using Type.
  intros Hsp Hva. unfold walk. apply wp_bind, wp_panic_if; [apply Z.leb_gt; lia|].
  eapply wp_mono; [apply (walk_levels_look _ _ _ _ root A); [done|lia|lia|]|].
  { rewrite prefix_top by done. apply (sp_root _ _ _ _ Hsp). }
  intros r s' [-> Hr]. split; [done|]. destruct (tabs A !! (0%nat, prefix 1 va)) eqn:E; [by right|]. left.
  split; [done|]. destruct (leaf A !! prefix 0 va) as [e|] eqn:El; [|done].
  apply (sp_leaf _ _ _ _ Hsp) in El as ([? Hc] & _). rewrite <-(prefix_S 0) in Hc. congruence.
Qed.
End walk.

(** ** Mapping a range *)
Fixpoint map_pages (n : nat) (v pa f : Z) (m : gmap Z Z) : gmap Z Z :=
  match n with
  | O => m
  | S n => <[v + Z.of_nat n := mkpte (pa + Z.of_nat n * PGSIZE) f]> (map_pages n v pa f m)
  end.

Lemma lookup_map_pages n v pa f m k :
  map_pages n v pa f m !! k =
    if decide (v ≤ k < v + Z.of_nat n) then Some (mkpte (pa + (k - v) * PGSIZE) f) else m !! k.
Proof.
  induction n as [|n IH]; simpl; [by rewrite decide_False by lia|].
  destruct (decide (k = v + Z.of_nat n)) as [->|Hne].
  - rewrite lookup_insert_eq, decide_True by lia. do 3 f_equal. lia.
  - rewrite lookup_insert_ne, IH by done. destruct (decide (v ≤ k < v + Z.of_nat n)).
    + by rewrite decide_True by lia.
    + by rewrite decide_False by lia.
Qed.

(** Flags of a leaf mapping. *)
Definition leaf_perm (perm : Z) : Prop :=
  0 ≤ perm < 1024 ∧ bit perm (Z.lor PTE_R (Z.lor PTE_W PTE_X)) = true.

Lemma bit_lor_r a b g : bit (Z.lor a b) g = bit a g || bit b g.
Proof.
  unfold bit. rewrite Z.land_lor_distr_l. destruct (Z.land a g =? 0) eqn:E1, (Z.land b g =? 0) eqn:E2; simpl;
    rewrite ?Z.eqb_eq, ?Z.eqb_neq in *; rewrite ?negb_true_iff, ?negb_false_iff, ?Z.eqb_eq, ?Z.eqb_neq, ?Z.lor_eq_0_iff; naive_solver.
Qed.

Lemma pte_ok_perm pa perm :
  pa mod PGSIZE = 0 → 0 ≤ pa < 2 ^ 56 → leaf_perm perm → pte_ok (mkpte pa (Z.lor perm PTE_V)).
Proof.
  intros Hal Hpa [Hp Hx]. exists pa, (Z.lor perm PTE_V).
  split_and!; [done|done|lia|lia|apply (lor_range _ _ 10); unfold PTE_V; lia..| |].
  - rewrite bit_lor_r. by rewrite orb_true_r.
  - by rewrite bit_lor_r, Hx.
Qed.

Lemma pte_ok_V e : pte_ok e → bit e PTE_V = true ∧ PTE_FLAGS e ≠ PTE_V.
Proof.
  intros (pa & f & -> & _ & _ & Hf & HV & HX). split.
  - rewrite bit_mkpte by (unfold PTE_V; lia). done.
  - unfold PTE_FLAGS. rewrite mkpte_flags by lia. intros E.
    assert (f = 1) as ->.
    { change 0x3FF with (Z.ones 10) in E. rewrite Z.land_ones, Z.mod_small in E by lia. done. }
    by vm_compute in HX.
Qed.

Lemma prefix0_page v : prefix 0 (v * PGSIZE) = v.
Proof. unfold prefix, PGSIZE. apply Z.div_mul. done. Qed.

Section mappages.
Context (kend : Z).

Record mapped_to (R : Z → Prop) (c : nat) (s : pst) root (A : aspace) F (l : list Z) (m : gmap Z Z) (s' : pst) (A' : aspace) l' : Prop := {
  mt_inv : VInv kend s' root A' F l';
  mt_leaf : leaf A' = m;
  mt_frame : frame F s s';
  mt_len : (length l ≤ length l' + c)%nat;
  mt_tabs : more_tables (λ a, ∃ k, R k ∧ on_path k a) A A';
}.

Definition mappages_post s root A F l v n pa f (r : Z) (s' : pst) : Prop :=
  ∃ A' l' j, mapped_to (λ k, v ≤ k < v + Z.of_nat n) (2 * n) s root A F l (map_pages j v pa f (leaf A)) s' A' l' ∧
    ((r = 0 ∧ j = n) ∨ (r = -1 ∧ (j < n)%nat ∧ l' = [])).

(** One iteration of the loop of [mappages]: page [j] of the range. *)
Lemma map_step R c s0 root A0 F l0 s A l v pa perm (j : nat) r :
  mapped_to R c s0 root A0 F l0 (map_pages j v pa (Z.lor perm PTE_V) (leaf A0)) s A l →
  0 ≤ v → (v + Z.of_nat j) * PGSIZE < MAXVA → pa mod PGSIZE = 0 → 0 ≤ pa + Z.of_nat j * PGSIZE < 2 ^ 56 →
  leaf_perm perm → pte_addr A ((v + Z.of_nat j) * PGSIZE) r →
  wp (st64 r (Z.lor (Z.lor (PA2PTE (pa + Z.of_nat j * PGSIZE)) perm) PTE_V)) (λ _ s',
    ∃ A', mapped_to R c s0 root A0 F l0 (map_pages (S j) v pa (Z.lor perm PTE_V) (leaf A0)) s' A' l) s.
Proof using Type.
  intros [Hv Hl Hfr Hsuf Htb] Hv0 Hmax Hal Hr Hperm Ha. pose proof Hperm as [Hpr _]. rewrite pte_store by done.
  assert ((pa + Z.of_nat j * PGSIZE) mod PGSIZE = 0) as Hal' by (rewrite Z.mod_add by done; done).
  eapply wp_mono; [apply (st64_leaf kend s root A F l ((v + Z.of_nat j) * PGSIZE) r (Some (mkpte (pa + Z.of_nat j * PGSIZE) (Z.lor perm PTE_V))) Hv)|].
  - unfold PGSIZE in *. lia.
  - done.
  - intros e [= <-]. by apply pte_ok_perm.
  - intros [] s' [Hv' Hfr']. eexists. split; [exact Hv'| | |exact Hsuf|exact Htb].
    + rewrite prefix0_page. cbn [set_leaf leaf map_pages]. by rewrite Hl.
    + by transitivity s.
Qed.

Lemma mapped_walk (R : Z → Prop) c s0 root A0 F l0 m s A l va r s' : R (prefix 0 va) →
  mapped_to R c s0 root A0 F l0 m s A l → walk_post kend 2 va s root A F l r s' →
  ∃ A' l', mapped_to R (c + 2) s0 root A0 F l0 m s' A' l' ∧ ((r = 0 ∧ l' = []) ∨ (r ≠ 0 ∧ pte_addr A' va r)).
Proof using Type.
  intros HR [Hv Hl Hfr Hsuf Htb] (A' & l' & Hv' & Hl' & Hfr' & Hsuf' & Ht & Hr). exists A', l'. split; [|done].
  split; [done|congruence|by transitivity s|lia|]. eapply more_trans; [|exact Htb|exact Ht]. intros a Ha. by exists (prefix 0 va).
Qed.

Lemma mapped_refl R s root A F l : VInv kend s root A F l → mapped_to R 0 s root A F l (leaf A) s A l.
Proof using Type. intros Hv. split; [done|done|done|lia|apply more_refl]. Qed.

Lemma mapped_weaken R c c' s root A F l m s' A' l' :
  (c ≤ c')%nat → mapped_to R c s root A F l m s' A' l' → mapped_to R c' s root A F l m s' A' l'.
Proof using Type. intros Hc [H1 H2 H3 H4 H5]. split; [done|done|done|lia|done]. Qed.

Lemma mappages_spec s root A F l v n pa perm :
  VInv kend s root A F l → 0 ≤ v → (0 < n)%nat → (v + Z.of_nat n) * PGSIZE ≤ MAXVA →
  pa mod PGSIZE = 0 → 0 ≤ pa → pa + Z.of_nat n * PGSIZE ≤ 2 ^ 56 → leaf_perm perm →
  (∀ k, v ≤ k < v + Z.of_nat n → leaf A !! k = None) →
  wp (mappages root (v * PGSIZE) (Z.of_nat n * PGSIZE) pa perm)
    (mappages_post s root A F l v n pa (Z.lor perm PTE_V)) s.
Proof using Type.
  intros Hv Hv0 Hn Hmax Hal Hpa0 Hpa Hperm Hfree. unfold mappages. change MAXVA with (2 ^ 38) in Hmax.
  apply wp_bind, wp_panic_if; [by rewrite Z.mod_mul|]. apply wp_bind, wp_panic_if; [by rewrite Z.mod_mul|].
  apply wp_bind, wp_panic_if; [apply Z.eqb_neq; unfold PGSIZE; lia|]. cbv zeta.
  rewrite Z.div_mul, Nat2Z.id by done.
  apply (wp_while_loop (λ k '(a, p) s', ∃ j A' l', (j < n)%nat ∧ k = (n - S j)%nat ∧
    a = (v + Z.of_nat j) * PGSIZE ∧ p = pa + Z.of_nat j * PGSIZE ∧
    mapped_to (λ k, v ≤ k < v + Z.of_nat n) (2 * j) s root A F l (map_pages j v pa (Z.lor perm PTE_V) (leaf A)) s' A' l') _ _ _ (n - 1)%nat).
  - exists 0%nat, A, l. split_and!; [done|lia|lia|lia|]. by apply mapped_refl.
  - lia.
  - intros k [a p] s1 (j & A1 & l1 & Hj & -> & -> & -> & Hm).
    eapply wp_seq; [apply (walk_alloc_spec kend _ s1 root A1 F l1 (mt_inv _ _ _ _ _ _ _ _ _ _ _ Hm))|].
    { change MAXVA with (2 ^ 38). unfold PGSIZE in *. nia. }
    intros r s2 Hw. destruct (mapped_walk (λ k, v ≤ k < v + Z.of_nat n) _ _ _ _ _ _ _ _ _ _ ((v + Z.of_nat j) * PGSIZE) _ _ ltac:(cbv beta; rewrite prefix0_page; lia) Hm Hw) as (A2 & l2 & Hm2 & [[-> ->]|[Hr Ha]]).
    { apply wp_ret. exists A2, [], j. split; [by apply (mapped_weaken _ (2 * j + 2)); [lia|]|]. right. split_and!; [done|lia|done]. }
    rewrite (proj2 (Z.eqb_neq r 0)) by done. apply wp_bind. assert (0 ≤ (v + Z.of_nat j) * PGSIZE) by (unfold PGSIZE; lia).
    eapply ld64_leaf; [apply (mt_inv _ _ _ _ _ _ _ _ _ _ _ Hm2)|done|done|]. apply wp_bind, wp_panic_if.
    { rewrite prefix0_page, (mt_leaf _ _ _ _ _ _ _ _ _ _ _ Hm2), lookup_map_pages, decide_False by lia.
      by rewrite Hfree by lia. }
    eapply wp_seq; [apply (map_step _ _ _ _ _ _ _ _ _ _ v pa perm j r Hm2); [done|change MAXVA with (2 ^ 38); unfold PGSIZE in *; nia|done|unfold PGSIZE in *; lia|done|done]|].
    intros [] s3 [A3 Hm3]. unfold u64. rewrite !(wrap_small 64) by (unfold PGSIZE in *; lia). case_match eqn:E.
    + apply Z.eqb_eq in E. apply wp_ret. exists A3, l2, (S j). split; [by apply (mapped_weaken _ (2 * j + 2)); [lia|]|]. left. split; [done|]. unfold PGSIZE in *. lia.
    + apply Z.eqb_neq in E. apply wp_ret. assert (S j < n)%nat by (unfold PGSIZE in *; nia).
      exists (n - S (S j))%nat. split; [lia|]. exists (S j), A3, l2. split_and!; [done|done|unfold PGSIZE in *; lia..|by apply (mapped_weaken _ (2 * j + 2)); [lia|]].
Qed.
End mappages.

(** ** Creating an address space *)
Definition empty_space (root : Z) : aspace := Aspace {[(2%nat, 0) := root]} ∅.

Section create.
Context (kend : Z).

Lemma empty_Space ps root :
  page_ok kend root → ps !! root = Some (const_page 0) → Space kend ps root (empty_space root).
Proof using Type.
  intros Hok Hp. unfold empty_space. split; cbn [tabs leaf].
  - apply lookup_singleton_eq.
  - intros n k p [[= <- <-] <-]%lookup_singleton_Some. split_and!; [lia|lia|done|done].
  - intros n k p [[= <- <-] <-]%lookup_singleton_Some. lia.
  - intros a b p [<- _]%lookup_singleton_Some [<- _]%lookup_singleton_Some. done.
  - intros n k p [[= <- <-] <-]%lookup_singleton_Some. exists (const_page 0).
    split_and!; [done|apply length_const_page|]. intros i Hi. rewrite get64_zero by done. cbn [entry tabs].
    rewrite lookup_singleton_ne by done. done.
  - intros v e He. by rewrite lookup_empty in He.
Qed.

Lemma uvmcreate_spec s F l :
  Owned kend s F l →
  wp uvmcreate (λ r s', (r = 0 ∧ l = [] ∧ s' = s) ∨
    (r ≠ 0 ∧ frame F s s' ∧ ∃ l', l = r :: l' ∧ VInv kend s' r (empty_space r) F l')) s.
Proof using Type.
  intros Ho. pose proof Ho as (Hinv & Hpart & Hdis & Hram). unfold uvmcreate.
  pose proof (kalloc_spec kend s l Hinv) as H1. pose proof (Owned_alloc kend s _ l Ho) as H2.
  apply wp_ok in H1 as (q & s' & Hrun & H1). eapply (wp_elim _ _ _ _ _) in H2; [|exact Hrun].
  apply wp_bind, wp_ok. exists q, s'. split; [exact Hrun|]. clear Hrun.
  destruct l as [|p l]; [destruct H1 as [-> ->]; by left|]. destruct H1 as (-> & _ & Hpg).
  destruct H2 as [(_ & ? & _)|(Hq0 & l' & [= <-] & Ho')]; [done|].
  rewrite (proj2 (Z.eqb_neq p 0)) by done. pose proof (Hdis p ltac:(by left)) as HpF.
  apply wp_bind, wp_page_put; [rewrite Hpg, lookup_insert_eq; by eexists|]. apply wp_ret. right. split; [done|]. split.
  { intros q Hq. cbn [pages]. rewrite Hpg, !lookup_insert_ne by (intros ->; done). done. }
  exists l. split; [done|].
  assert (tables (empty_space p) = {[p]}) as Et by (unfold tables, empty_space; simpl; apply map_img_singleton_L).
  split; rewrite ?Et; [|set_solver|].
  - apply Owned_write; [done|set_solver|apply length_const_page].
  - apply empty_Space; [apply Hpart; left; by left|]. cbn [pages]. apply lookup_insert_eq.
Qed.
End create.

(** ** Small machines, for examples: [n] pages of RAM *)
Definition ram_from (n : nat) : Z := PHYSTOP - Z.of_nat n * PGSIZE.
Definition ram (n : nat) : pst :=
  Pst (list_to_map ((λ p, (p, const_page 0)) <$> page_seq (ram_from n) n)) 0.

Section ram.
Context (n : nat) (Hn : 0 < Z.of_nat n ≤ 32768).

Lemma ram_pages p : page_ok (ram_from n) p ↔ p ∈ page_seq (ram_from n) n.
Proof using Hn.
  assert (PGROUNDUP (ram_from n) = ram_from n) as E.
  { destruct (PGROUNDUP_spec (ram_from n)) as [Hal Hr]; [unfold ram_from; unfold PGSIZE, PHYSTOP, KERNBASE; lia|].
    pose proof (Z.div_mod (PGROUNDUP (ram_from n)) PGSIZE ltac:(done)) as E0. rewrite Hal in E0.
    unfold ram_from, PGSIZE, PHYSTOP, KERNBASE in *. lia. }
  rewrite page_ok_seq by (unfold ram_from; pages_lia). rewrite E. unfold ram_from at 2.
  replace (PHYSTOP - (PHYSTOP - Z.of_nat n * PGSIZE)) with (Z.of_nat n * PGSIZE) by lia.
  by rewrite Z.div_mul, Nat2Z.id by done.
Qed.

Lemma ram_ok : KInv (ram_from n) (ram n) [] ∧ ∀ p, page_ok (ram_from n) p → is_Some (pages (ram n) !! p).
Proof using Hn.
  split; [split; [reflexivity|constructor|intros p Hp; by apply elem_of_nil in Hp|]|].
  - intros p x Hp%elem_of_list_to_map_2. apply list_elem_of_fmap in Hp as (q & [= -> ->] & _). apply length_const_page.
  - intros p Hp%ram_pages. unfold ram. cbn [pages]. set (L := _ <$> _).
    destruct ((list_to_map L : gmap Z page) !! p) eqn:E; [by eexists|].
    apply not_elem_of_list_to_map_2 in E. destruct E. unfold L. rewrite <-list_fmap_compose.
    apply list_elem_of_fmap. by exists p.
Qed.

Lemma ram_free l s : Owned (ram_from n) s ∅ l → length l = n.
Proof using Hn.
  intros ([_ Hnd _ _] & Hpart & _). transitivity (length (page_seq (ram_from n) n)).
  - apply Permutation_length, NoDup_Permutation; [done| |].
    + apply NoDup_fmap_2; [|apply NoDup_seq]. intros i j. unfold PGSIZE. lia.
    + intros p. rewrite <-ram_pages, Hpart. split; [by left|]. intros [?|Hp]; [done|by apply elem_of_empty in Hp].
  - unfold page_seq. by rewrite length_fmap, length_seq.
Qed.

(** After [kinit]. *)
Lemma ram_kinit : ∃ s l, Owned (ram_from n) s ∅ l ∧ length l = n.
Proof using Hn.
  destruct ram_ok as [H1 H2]. assert (0 < ram_from n < PHYSTOP) as Hr by (unfold ram_from; pages_lia).
  destruct (proj1 (wp_ok _ _ _) (kinit_spec (ram_from n) (ram n) Hr H1 H2)) as ([] & s & Hrun & _).
  destruct (kreach_owned (ram_from n) s ∅ Hr (reach_init _ _ _ H1 H2 Hrun)) as [l' Hl']. exists s, l'. split; [done|by eapply ram_free].
Qed.
End ram.

Definition ram_end : Z := PHYSTOP - 16 * PGSIZE.
Definition ram16 : pst := ram 16.
Lemma ram16_ok : KInv ram_end ram16 [] ∧ ∀ p, page_ok ram_end p → is_Some (pages ram16 !! p).
Proof. apply (ram_ok 16). lia. Qed.

(** After [kinit] and [uvmcreate]: an empty address space and free pages. *)
Lemma ram16_space : ∃ s root l, VInv ram_end s root (empty_space root) ∅ l ∧ length l = 15%nat.
Proof.
  destruct (ram_kinit 16 ltac:(lia)) as (s & l' & Hl' & Hlen). change (ram_from 16) with ram_end in Hl'.
  destruct (proj1 (wp_ok _ _ _) (uvmcreate_spec ram_end s ∅ l' Hl')) as (r & s' & _ & Hc).
  destruct Hc as [(_ & -> & _)|(_ & _ & l'' & -> & Hv)]; [done|]. exists s', r, l''. split; [done|]. simpl in Hlen. lia.
Qed.
