(* ===== verification/VmUser.v ===== *)
(** * User memory: growing, shrinking, copying and freeing address spaces *)

From S2P Require Import Prelude Word Param Kalloc Vm VmSpec.

(** ** Runs of pages in the leaf map *)
Fixpoint map_list (v : Z) (E : list Z) (m : gmap Z Z) : gmap Z Z :=
  match E with
  | [] => m
  | e :: E => <[v := e]> (map_list (v + 1) E m)
  end.

Fixpoint unmap (n : nat) (v : Z) (m : gmap Z Z) : gmap Z Z :=
  match n with
  | O => m
  | S n => delete (v + Z.of_nat n) (unmap n v m)
  end.

Definition is_run (m : gmap Z Z) (v : Z) (E : list Z) : Prop :=
  ∀ i e, E !! i = Some e → m !! (v + Z.of_nat i) = Some e.

Lemma lookup_map_list v E m k :
  map_list v E m !! k =
    if decide (v ≤ k < v + Z.of_nat (length E)) then E !! Z.to_nat (k - v) else m !! k.
Proof.
  revert v. induction E as [|e E IH]; intros v; simpl; [by rewrite decide_False by lia|].
  destruct (decide (k = v)) as [->|Hne].
  - rewrite lookup_insert_eq, decide_True by lia. by replace (v - v) with 0 by lia.
  - rewrite lookup_insert_ne, IH by done. destruct (decide (v + 1 ≤ k < v + 1 + Z.of_nat (length E))).
    + rewrite decide_True by lia. by replace (Z.to_nat (k - v)) with (S (Z.to_nat (k - (v + 1)))) by lia.
    + by rewrite decide_False by lia.
Qed.

Lemma lookup_unmap n v m k :
  unmap n v m !! k = if decide (v ≤ k < v + Z.of_nat n) then None else m !! k.
Proof.
  induction n as [|n IH]; simpl; [by rewrite decide_False by lia|].
  destruct (decide (k = v + Z.of_nat n)) as [->|Hne].
  - by rewrite lookup_delete_eq, decide_True by lia.
  - rewrite lookup_delete_ne, IH by done. destruct (decide (v ≤ k < v + Z.of_nat n)).
    + by rewrite decide_True by lia.
    + by rewrite decide_False by lia.
Qed.

Lemma map_list_snoc v E e m : map_list v (E ++ [e]) m = <[v + Z.of_nat (length E) := e]> (map_list v E m).
Proof.
  revert v. induction E as [|e' E IH]; intros v; simpl; [by rewrite Z.add_0_r|].
  rewrite IH. rewrite insert_insert_ne by lia. f_equal. lia.
Qed.

Lemma unmap_map_list v E m :
  (∀ k, v ≤ k < v + Z.of_nat (length E) → m !! k = None) → unmap (length E) v (map_list v E m) = m.
Proof.
  intros Hm. apply map_eq. intros k. rewrite lookup_unmap, lookup_map_list.
  destruct (decide _); [symmetry; by apply Hm|done].
Qed.

Lemma is_run_map_list v E m : is_run (map_list v E m) v E.
Proof.
  intros i e Hi. apply lookup_lt_Some in Hi as Hl. rewrite lookup_map_list, decide_True by lia.
  by replace (Z.to_nat (v + Z.of_nat i - v)) with i by lia.
Qed.

(** The physical pages of a list of entries. *)
Definition frames (E : list Z) : list Z := PTE2PA <$> E.

Section user.
Context (kend : Z).
Implicit Types (s : pst) (A : aspace) (F : gset Z).

Definition unmapped (j : nat) (v : Z) A : aspace := Aspace (tabs A) (unmap j v (leaf A)).

Lemma pte_ok_leaf s root A v e :
  Space kend (pages s) root A → leaf A !! v = Some e → pte_ok e ∧ 0 ≤ v * PGSIZE < MAXVA.
Proof using Type.
  intros Hsp He. destruct (sp_leaf _ _ _ _ Hsp _ _ He) as (_ & Hv & Hok). split; [done|].
  change MAXVA with (2 ^ 38). unfold PGSIZE. lia.
Qed.

(** ** Unmapping *)
Definition unmap_post s root A F l v E (free : bool) j s' : Prop :=
  let P := if free then frames (take j E) else [] in
  VInv kend s' root (unmapped j v A) (F ∖ list_to_set P) (reverse P ++ l) ∧
  frame (F ∖ list_to_set P) s s'.

Lemma take_frames E j e : E !! j = Some e → frames (take (S j) E) = frames (take j E) ++ [PTE2PA e].
Proof using Type. intros He. unfold frames. rewrite (take_S_r _ _ _ He). by rewrite fmap_app. Qed.

Lemma unmap_step s root A F l v E (free : bool) j e r s1 :
  unmap_post s root A F l v E free j s1 → is_run (leaf A) v E → E !! j = Some e →
  (free = true → NoDup (frames E) ∧ (list_to_set (frames E) : gset Z) ⊆ F) → 0 ≤ (v + Z.of_nat j) * PGSIZE < MAXVA →
  pte_addr (unmapped j v A) ((v + Z.of_nat j) * PGSIZE) r →
  wp (when free (kfree kend (PTE2PA e));; st64 r 0) (λ _ s', unmap_post s root A F l v E free (S j) s') s1.
Proof using Type.
  intros [Hv Hfr] Hrun He Hfree Hr Ha. destruct free.
  - destruct (Hfree eq_refl) as [Hnd Hsub]. unfold when.
    assert (frames E !! j = Some (PTE2PA e)) as Hfe by (unfold frames; by rewrite list_lookup_fmap, He).
    assert (PTE2PA e ∈ F ∖ list_to_set (frames (take j E))) as Hin.
    { apply elem_of_difference. split; [apply Hsub, elem_of_list_to_set; by eapply list_elem_of_lookup_2|].
      rewrite elem_of_list_to_set. unfold frames. rewrite fmap_take. intros (i & Hi)%list_elem_of_lookup.
      rewrite lookup_take in Hi. case_decide; [|done]. apply (NoDup_lookup _ i j _ Hnd) in Hi; [lia|done]. }
    eapply wp_seq; [apply (VInv_free kend _ _ _ _ _ _ Hv Hin)|]. intros [] s2 [Hv2 Hfr2].
    assert (F ∖ list_to_set (frames (take (S j) E)) = (F ∖ list_to_set (frames (take j E))) ∖ {[PTE2PA e]}) as EF.
    { rewrite (take_frames _ _ _ He), list_to_set_app_L. set_solver. }
    eapply wp_mono; [apply (st64_leaf kend _ _ _ _ _ _ r None Hv2 Hr); [exact Ha|done]|]. intros [] s3 [Hv3 Hfr3].
    unfold unmap_post. rewrite EF. split.
    + rewrite (take_frames _ _ _ He), reverse_app. simpl. rewrite prefix0_page in Hv3. exact Hv3.
    + transitivity s2; [|done]. intros q Hq. rewrite Hfr2 by done. apply Hfr. set_solver.
  - simpl. eapply wp_mono; [apply (st64_leaf kend _ _ _ _ _ _ r None Hv Hr); [exact Ha|done]|]. intros [] s3 [Hv3 Hfr3].
    split; simpl in *; [|by transitivity s1]. rewrite prefix0_page in Hv3. exact Hv3.
Qed.

Lemma uvmunmap_spec s root A F l v E (free : bool) :
  VInv kend s root A F l → 0 ≤ v → (v + Z.of_nat (length E)) * PGSIZE ≤ MAXVA → is_run (leaf A) v E →
  (free = true → NoDup (frames E) ∧ (list_to_set (frames E) : gset Z) ⊆ F) →
  wp (uvmunmap kend root (v * PGSIZE) (Z.of_nat (length E)) free)
    (λ _ s', unmap_post s root A F l v E free (length E) s') s.
Proof using Type.
  intros Hv Hv0 Hmax Hrun Hfree. unfold uvmunmap. set (n := length E) in *.
  assert (MAXVA = 2 ^ 38) as EM by done. apply wp_bind, wp_panic_if; [by rewrite Z.mod_mul|]. cbv zeta.
  unfold u64 at 2. rewrite (wrap_small 64 (Z.of_nat n * PGSIZE)) by (unfold PGSIZE in *; lia).
  unfold u64 at 1. rewrite wrap_small by (unfold PGSIZE in *; lia). rewrite Nat2Z.id.
  apply (wp_while_loop (λ k a s', ∃ j, (j ≤ n)%nat ∧ k = (n - j)%nat ∧ a = (v + Z.of_nat j) * PGSIZE ∧
    unmap_post s root A F l v E free j s') _ _ _ n); [|lia|].
  - exists 0%nat. split_and!; [lia|lia|lia|]. unfold unmap_post. replace (if free then frames (take 0 E) else []) with (@nil Z) by (by destruct free).
    simpl. rewrite difference_empty_L. split; [|done]. by destruct A.
  - intros k a s1 (j & Hj & -> & -> & Hm). destruct (Z.ltb_spec ((v + Z.of_nat j) * PGSIZE) (v * PGSIZE + Z.of_nat n * PGSIZE)) as [Hlt|Hge].
    2: { apply wp_ret. assert (j = n) as <- by (unfold PGSIZE in *; lia). done. }
    cbn [negb]. assert (j < n)%nat as Hjn by (unfold PGSIZE in *; lia).
    destruct (lookup_lt_is_Some_2 E j Hjn) as [e He]. pose proof Hm as [Hv1 _].
    pose proof (vi_space _ _ _ _ _ _ Hv1) as Hsp1.
    assert (0 ≤ (v + Z.of_nat j) * PGSIZE < MAXVA) as Hr by (unfold PGSIZE in *; lia).
    assert (leaf (unmapped j v A) !! (v + Z.of_nat j) = Some e) as Hle.
    { cbn [unmapped leaf]. rewrite lookup_unmap, decide_False by lia. by apply Hrun. }
    destruct (pte_ok_leaf _ _ _ _ _ Hsp1 Hle) as [Hok _].
    eapply wp_seq; [by apply (walk_look_spec kend _ s1 root _ Hsp1)|].
    intros r s2 [-> [[_ Hnone]|[Hr0 Ha]]]; [rewrite prefix0_page in Hnone; congruence|].
    apply wp_bind, wp_panic_if; [by apply Z.eqb_neq|]. apply wp_bind.
    apply (ld64_leaf kend _ _ _ _ _ _ Hsp1 (proj1 Hr) Ha). rewrite prefix0_page, Hle. change (default 0 (Some e)) with e.
    destruct (pte_ok_V e Hok) as [HeV Hef]. apply wp_bind, wp_panic_if; [by rewrite HeV|].
    apply wp_bind, wp_panic_if; [by apply Z.eqb_neq|].
    pose proof (unmap_step s root A F l v E free j e r s1 Hm Hrun He Hfree Hr Ha) as Hst.
    apply wp_bind_inv in Hst. apply wp_bind. eapply wp_mono; [exact Hst|]. intros [] s3 Hs3.
    apply wp_bind. eapply wp_mono; [exact Hs3|]. intros [] s4 Hs4. apply wp_ret.
    exists (n - S j)%nat. split; [lia|]. exists (S j). split_and!; [lia|done| |done].
    unfold u64. rewrite wrap_small by (unfold PGSIZE in *; lia). unfold PGSIZE. lia.
Qed.

(** ** Sizes in pages *)
Definition npg (sz : Z) : Z := (sz + PGSIZE - 1) / PGSIZE.

Lemma PGROUNDUP_npg sz : 0 ≤ sz ≤ MAXVA → PGROUNDUP sz = npg sz * PGSIZE.
Proof using Type.
  intros Hsz. assert (MAXVA = 2 ^ 38) as EM by done. unfold PGROUNDUP, PGROUNDDOWN, npg, u64, PGSIZE in *.
  rewrite wrap_small by lia. pose proof (Z.div_mod (sz + 4096 - 1) 4096). lia.
Qed.

Lemma npg_bounds sz : npg sz * PGSIZE - PGSIZE < sz ≤ npg sz * PGSIZE.
Proof using Type.
  unfold npg, PGSIZE. pose proof (Z.div_mod (sz + 4096 - 1) 4096).
  pose proof (Z.mod_pos_bound (sz + 4096 - 1) 4096). lia.
Qed.

Lemma npg_page v : npg (v * PGSIZE) = v.
Proof using Type. pose proof (npg_bounds (v * PGSIZE)). unfold PGSIZE in *. lia. Qed.

Lemma unmap_post_0 s root A F l v free :
  VInv kend s root A F l → unmap_post s root A F l v [] free 0 s.
Proof using Type.
  intros Hv. unfold unmap_post. replace (if free then frames (take 0 []) else []) with (@nil Z) by (by destruct free).
  simpl. rewrite difference_empty_L. split; [|done]. by destruct A.
Qed.

Lemma uvmdealloc_spec s root A F l oldsz newsz E :
  VInv kend s root A F l → 0 ≤ newsz ≤ oldsz → oldsz ≤ MAXVA → is_run (leaf A) (npg newsz) E →
  Z.of_nat (length E) = npg oldsz - npg newsz → NoDup (frames E) → (list_to_set (frames E) : gset Z) ⊆ F →
  wp (uvmdealloc kend root oldsz newsz) (λ r s', r = newsz ∧
    unmap_post s root A F l (npg newsz) E true (length E) s') s.
Proof using Type.
  intros Hv Hsz Hmax Hrun Hlen Hnd Hsub. unfold uvmdealloc. assert (MAXVA = 2 ^ 38) as EM by done.
  destruct (Z.leb_spec oldsz newsz).
  { apply wp_ret. assert (oldsz = newsz) as -> by lia. split; [done|]. destruct E; simpl in Hlen; [|lia].
    by apply unmap_post_0. }
  pose proof (npg_bounds oldsz). pose proof (npg_bounds newsz).
  rewrite !PGROUNDUP_npg by lia. apply wp_bind, wp_when; intros Hb.
  - replace (npg oldsz * PGSIZE - npg newsz * PGSIZE) with ((npg oldsz - npg newsz) * PGSIZE) by lia.
    rewrite Z.div_mul by done. unfold s32. rewrite swrap_small by (unfold PGSIZE in *; lia).
    unfold u64. rewrite wrap_small by (unfold PGSIZE in *; lia). rewrite <-Hlen.
    eapply wp_mono; [apply (uvmunmap_spec s root A F l _ E true Hv)|].
    + unfold PGSIZE in *. lia.
    + unfold PGSIZE in *. lia.
    + done.
    + done.
    + intros [] s' Hs'. by apply wp_ret.
  - apply Z.ltb_ge in Hb. apply wp_ret. split; [done|]. destruct E; [by apply unmap_post_0|].
    simpl in Hlen. unfold PGSIZE in *. lia.
Qed.

(** ** Growing

    The state while pages are added to an address space from page [v] on: [E]
    are the new entries and [X] the contents of their pages, all distinct and
    new; every page in use before is as it was. *)
Record grown s root A F v (E : list Z) (X : list page) (s' : pst) A' l' : Prop := {
  gr_inv : VInv kend s' root A' (list_to_set (frames E) ∪ F) l';
  gr_leaf : leaf A' = map_list v E (leaf A);
  gr_nodup : NoDup (frames E);
  gr_new p : p ∈ frames E → page_ok kend p ∧ p ∉ F;
  gr_data : Forall2 (λ e x, pages s' !! PTE2PA e = Some x) E X;
  gr_frame : frame F s s';
  gr_tabs : tabs A ⊆ tabs A';
}.

Lemma grown_0 s root A F v l : VInv kend s root A F l → grown s root A F v [] [] s A l.
Proof using Type.
  intros Hv. split; simpl; [by rewrite union_empty_l_L|done|constructor| |constructor|done|done].
  intros p Hp. by apply elem_of_nil in Hp.
Qed.

(** Taking back what has been mapped so far. *)
Lemma ungrow s root A F v E X s1 A1 l1 :
  grown s root A F v E X s1 A1 l1 → 0 ≤ v → (v + Z.of_nat (length E)) * PGSIZE ≤ MAXVA →
  (∀ k, v ≤ k < v + Z.of_nat (length E) → leaf A !! k = None) →
  ∀ s', unmap_post s1 root A1 (list_to_set (frames E) ∪ F) l1 v E true (length E) s' →
    ∃ A' l', VInv kend s' root A' F l' ∧ leaf A' = leaf A ∧ frame F s s' ∧ tabs A ⊆ tabs A'.
Proof using Type.
  intros [Hv Hl Hnd Hok _ Hfr Htb] Hv0 Hmax Hnone s2 [Hv2 Hfr2]. rewrite take_ge in Hv2, Hfr2 by lia.
  assert ((list_to_set (frames E) ∪ F) ∖ list_to_set (frames E) = F) as EF.
  { apply set_eq. intros q. rewrite elem_of_difference, elem_of_union, elem_of_list_to_set. split; [naive_solver|].
    intros Hq. split; [by right|]. intros Hp. by apply (Hok q). }
  rewrite EF in *. eexists _, _. split_and!; [exact Hv2| |by transitivity s1|done].
  cbn [unmapped leaf]. rewrite Hl. by apply unmap_map_list.
Qed.

(** A page [q] has been allocated and filled with [x]; map it. *)
Record fresh s root A F v E X (s1 : pst) A1 l1 q x : Prop := {
  fr_inv : VInv kend s1 root A1 ({[q]} ∪ (list_to_set (frames E) ∪ F)) l1;
  fr_leaf : leaf A1 = map_list v E (leaf A);
  fr_nodup : NoDup (frames E);
  fr_new p : p ∈ frames E → page_ok kend p ∧ p ∉ F;
  fr_data : Forall2 (λ e x, pages s1 !! PTE2PA e = Some x) E X;
  fr_frame : frame F s s1;
  fr_page : pages s1 !! q = Some x;
  fr_ok : page_ok kend q;
  fr_notin : (q ∉ frames E) ∧ (q ∉ F);
  fr_tabs : tabs A ⊆ tabs A1;
}.

Lemma Forall2_frame F E X s s' :
  frame (list_to_set (frames E) ∪ F) s s' →
  Forall2 (λ e x, pages s !! PTE2PA e = Some x) E X → Forall2 (λ e x, pages s' !! PTE2PA e = Some x) E X.
Proof using Type.
  intros Hfr. rewrite !Forall2_lookup. intros H i. specialize (H i). destruct (E !! i) as [e|] eqn:He; inversion H as [? x Hx|]; subst; constructor.
  rewrite Hfr; [done|]. apply elem_of_union. left. apply elem_of_list_to_set. unfold frames.
  apply list_elem_of_fmap. exists e. split; [done|]. by eapply list_elem_of_lookup_2.
Qed.

Lemma grow_kalloc s root A F v E X s1 A1 l1 :
  grown s root A F v E X s1 A1 l1 →
  wp kalloc (λ q s', (q = 0 ∧ l1 = [] ∧ s' = s1) ∨
    (q ≠ 0 ∧ ∃ l', l1 = q :: l' ∧ fresh s root A F v E X s' A1 l' q (const_page 5))) s1.
Proof using Type.
  intros [Hv Hl Hnd Hok Hd Hfr Htb]. eapply wp_mono; [by apply (VInv_kalloc kend _ _ _ _ _ Hv)|].
  intros q s' [(-> & -> & ->)|(Hq0 & Hqok & _ & HqF & l' & -> & Hv' & Hpg)]; [by left|right]. split; [done|].
  assert (frame (list_to_set (frames E) ∪ F) s1 s') as Hfr1.
  { intros y Hy. rewrite Hpg, lookup_insert_ne; [done|]. intros ->. done. }
  exists l'. split; [done|]. split; [done|done|done|done|by eapply Forall2_frame| | |done| |done].
  - transitivity s1; [done|]. intros y Hy. apply Hfr1. set_solver.
  - rewrite Hpg. apply lookup_insert_eq.
  - split; [|set_solver]. intros Hq. apply HqF, elem_of_union. left. by apply elem_of_list_to_set.
Qed.

Lemma fr_frame_old s root A F v E X s1 A1 l1 s2 q x l2 :
  grown s root A F v E X s1 A1 l1 → fresh s root A F v E X s2 A1 l2 q x →
  ∀ p, p ∈ F → pages s2 !! p = pages s1 !! p.
Proof using Type.
  intros Hg Hfr p Hp. rewrite (fr_frame _ _ _ _ _ _ _ _ _ _ _ _ Hfr p Hp).
  by rewrite (gr_frame _ _ _ _ _ _ _ _ _ _ Hg p Hp).
Qed.

(** Filling the new page. *)
Lemma fresh_put s root A F v E X s1 A1 l1 q x y :
  fresh s root A F v E X s1 A1 l1 q x → length y = Z.to_nat PGSIZE →
  wp (page_put q y) (λ _ s', fresh s root A F v E X s' A1 l1 q y ∧
    frame (list_to_set (frames E) ∪ F) s1 s') s1.
Proof using Type.
  intros [Hv Hl Hnd Hnew Hd Hfr Hpg Hok [Hq1 Hq2] Htb] Hy. apply wp_page_put; [by eexists|].
  assert (q ∈ {[q]} ∪ (list_to_set (frames E) ∪ F)) as Hin by set_solver.
  assert (frame (list_to_set (frames E) ∪ F) s1 (Pst (<[q := y]> (pages s1)) (freelist s1))) as Hfr1.
  { intros z Hz. cbn [pages]. rewrite lookup_insert_ne; [done|]. intros <-.
    apply elem_of_union in Hz as [Hz|?]; [|done]. by apply elem_of_list_to_set in Hz. }
  split; [|done]. split; [by apply VInv_write|done|done|done|by eapply Forall2_frame| |apply lookup_insert_eq|done|done|done].
  transitivity s1; [done|]. intros z Hz. apply Hfr1. set_solver.
Qed.

Lemma frames_snoc E q f :
  page_ok kend q → 0 ≤ f < 1024 → frames (E ++ [mkpte q f]) = frames E ++ [q].
Proof using Type.
  intros Hq Hf. unfold frames. rewrite fmap_app. simpl. do 2 f_equal.
  apply page_ok_range in Hq as [? ?]. by apply PTE2PA_mkpte.
Qed.

Lemma grow_map s root A F v E X s1 A1 l1 q x perm :
  fresh s root A F v E X s1 A1 l1 q x → 0 ≤ v → (v + Z.of_nat (length E) + 1) * PGSIZE ≤ MAXVA →
  leaf_perm perm → leaf A !! (v + Z.of_nat (length E)) = None →
  wp (mappages root ((v + Z.of_nat (length E)) * PGSIZE) PGSIZE q perm) (λ r s', ∃ A' l',
    (r = 0 ∧ grown s root A F v (E ++ [mkpte q (Z.lor perm PTE_V)]) (X ++ [x]) s' A' l' ∧
      (length l1 ≤ length l' + 2)%nat) ∨
    (r = -1 ∧ fresh s root A F v E X s' A' l' q x ∧ (length l1 ≤ 2)%nat)) s1.
Proof using Type.
  intros [Hv Hl Hnd Hnew Hd Hfr Hpg Hok [Hq1 Hq2] Htb] Hv0 Hmax Hperm Hnone. pose proof Hok as [Hal [Hrng Hpos]].
  change PGSIZE with (Z.of_nat 1 * PGSIZE) at 2. assert (0 ≤ Z.lor perm PTE_V < 1024) as Hf.
  { destruct Hperm. apply (lor_range _ _ 10); unfold PTE_V; lia. }
  eapply wp_mono; [apply (mappages_spec kend s1 root A1 _ l1 _ 1 q perm Hv)|]; [lia|lia|lia|done|lia| |done| |].
  { pages_lia. }
  { intros k Hk. assert (k = v + Z.of_nat (length E)) as -> by lia. rewrite Hl, lookup_map_list, decide_False by lia. done. }
  intros r s' (A' & l' & j & [Hv' Hl' Hfr' Hlen [Htb' _]] & Hr). exists A', l'. assert (tabs A ⊆ tabs A') as Htb2 by by etrans.
  assert (frame (list_to_set (frames E) ∪ F) s1 s') as Hfr1 by (intros y Hy; apply Hfr'; set_solver).
  assert (frame F s s') as HfrF by (transitivity s1; [done|]; intros y Hy; apply Hfr1; set_solver).
  assert (pages s' !! q = Some x) as Hpg' by (rewrite Hfr' by set_solver; done).
  destruct Hr as [[-> ->]|(-> & Hj & ->)]; [left|right].
  - split; [done|]. pose proof (frames_snoc E q _ Hok Hf) as EP. split; [|lia]. split; [| | | | |done|done].
    + rewrite EP, list_to_set_app_L. simpl. rewrite union_empty_r_L.
      by rewrite (union_comm_L _ {[q]}), <-union_assoc_L.
    + rewrite Hl', map_list_snoc, Hl. simpl. by rewrite !Z.add_0_r.
    + rewrite EP. apply NoDup_app. split_and!; [done| |apply NoDup_singleton].
      intros p Hp Hp2. apply list_elem_of_singleton in Hp2 as ->. done.
    + intros p. rewrite EP, elem_of_app, list_elem_of_singleton. intros [Hp| ->]; [by apply Hnew|done].
    + apply Forall2_app; [by eapply Forall2_frame|]. constructor; [|constructor].
      rewrite PTE2PA_mkpte; [done|done|pages_lia|done].
  - split; [done|]. destruct j; [|lia]. split; [|simpl in Hlen; lia]. split; [done|by rewrite Hl'|done|done|by eapply Forall2_frame|done|done|done|done|done].
Qed.

(** Giving the page back. *)
Lemma fresh_free s root A F v E X s1 A1 l1 q x :
  fresh s root A F v E X s1 A1 l1 q x →
  wp (kfree kend q) (λ _ s', grown s root A F v E X s' A1 (q :: l1)) s1.
Proof using Type.
  intros [Hv Hl Hnd Hnew Hd Hfr Hpg Hok [Hq1 Hq2] Htb].
  eapply wp_mono; [apply (VInv_free kend _ _ _ _ _ q Hv); set_solver|]. intros [] s' [Hv' Hfr'].
  assert (({[q]} ∪ (list_to_set (frames E) ∪ F)) ∖ {[q]} = list_to_set (frames E) ∪ F) as EF.
  { apply set_eq. intros y. rewrite elem_of_difference, !elem_of_union, elem_of_singleton, elem_of_list_to_set. naive_solver. }
  rewrite EF in *. split; [done|done|done|done|by eapply Forall2_frame| |done].
  transitivity s1; [done|]. intros y Hy. apply Hfr'. set_solver.
Qed.

Lemma PTE_FLAGS_mkpte p f : 0 ≤ f < 1024 → PTE_FLAGS (mkpte p f) = f.
Proof using Type.
  intros Hf. unfold PTE_FLAGS. rewrite mkpte_flags by lia. change 0x3FF with (Z.ones 10).
  rewrite Z.land_ones by lia. by apply Z.mod_small.
Qed.

Lemma npg_sub sz v : (sz - v * PGSIZE + PGSIZE - 1) / PGSIZE = npg sz - v.
Proof using Type.
  unfold npg. replace (sz - v * PGSIZE + PGSIZE - 1) with (sz + PGSIZE - 1 + (- v) * PGSIZE) by lia.
  rewrite Z.div_add by done. lia.
Qed.

(** [uvmalloc] and [uvmcopy] undo their work with [uvmdealloc] or
    [uvmunmap] and return. *)
Definition restored s root A F (s' : pst) : Prop :=
  ∃ A' l', VInv kend s' root A' F l' ∧ leaf A' = leaf A ∧ frame F s s' ∧ tabs A ⊆ tabs A'.

Lemma free_but_tables s s' root A A' F l l' :
  VInv kend s root A F l → VInv kend s' root A' F l' → tabs A ⊆ tabs A' → ∀ p, p ∈ l' ↔ p ∈ l ∧ p ∉ tables A'.
Proof using Type.
  intros [(_ & Hp & Hd & _) _ _] [(_ & Hp' & Hd' & _) _ _] Htb p.
  assert (tables A ⊆ tables A') as Hsub by by eapply (more_sub (λ _, True)); split; [|tauto].
  specialize (Hp p). specialize (Hp' p). specialize (Hd p). specialize (Hd' p). set_solver.
Qed.

Lemma ungrow_dealloc s root A F v E X s1 A1 l1 :
  grown s root A F v E X s1 A1 l1 → 0 ≤ v → (v + Z.of_nat (length E)) * PGSIZE ≤ MAXVA →
  (∀ k, v ≤ k < v + Z.of_nat (length E) → leaf A !! k = None) →
  wp (uvmdealloc kend root ((v + Z.of_nat (length E)) * PGSIZE) (v * PGSIZE)) (λ _ s', restored s root A F s') s1.
Proof using Type.
  intros Hg Hv0 Hmax Hnone. eapply wp_mono; [apply (uvmdealloc_spec s1 root A1 _ l1 _ _ E (gr_inv _ _ _ _ _ _ _ _ _ _ Hg))|].
  - unfold PGSIZE in *. lia.
  - done.
  - rewrite npg_page, (gr_leaf _ _ _ _ _ _ _ _ _ _ Hg). apply is_run_map_list.
  - rewrite !npg_page. lia.
  - apply (gr_nodup _ _ _ _ _ _ _ _ _ _ Hg).
  - apply union_subseteq_l.
  - intros r s2 [_ Hu]. rewrite npg_page in Hu. by eapply ungrow.
Qed.

Definition alloc_post s root A F (l : list Z) v n f (newsz r : Z) (s' : pst) : Prop :=
  (r = newsz ∧ ∃ E A' l', length E = n ∧ Forall (λ e, PTE_FLAGS e = f) E ∧
     grown s root A F v E (replicate n (const_page 0)) s' A' l' ∧ (length l ≤ length l' + 3 * n)%nat) ∨
  (r = 0 ∧ restored s root A F s' ∧ (length l ≤ 3 * n)%nat).

Lemma uvmalloc_spec s root A F l oldsz newsz xperm :
  let v := npg oldsz in
  let n := Z.to_nat (npg newsz - v) in
  let perm := Z.lor (Z.lor PTE_R PTE_U) xperm in
  VInv kend s root A F l → 0 ≤ oldsz ≤ newsz → newsz ≤ MAXVA → leaf_perm perm →
  (∀ k, v ≤ k < npg newsz → leaf A !! k = None) →
  wp (uvmalloc kend root oldsz newsz xperm) (alloc_post s root A F l v n (Z.lor perm PTE_V) newsz) s.
Proof using Type.
  intros v n perm Hv Hsz Hmax Hperm Hnone. unfold uvmalloc. assert (MAXVA = 2 ^ 38) as EM by done.
  rewrite (proj2 (Z.ltb_ge _ _)) by lia. cbv zeta. rewrite PGROUNDUP_npg by lia. fold v. rewrite npg_sub. fold n.
  pose proof (npg_bounds oldsz) as Hb1. pose proof (npg_bounds newsz) as Hb2.
  assert (0 ≤ v ≤ npg newsz) as Hv0 by (unfold v, PGSIZE in *; lia).
  assert (npg newsz * PGSIZE ≤ MAXVA) as Hmax' by (unfold PGSIZE in *; lia).
  assert (0 ≤ Z.lor perm PTE_V < 1024) as Hf by (destruct Hperm; apply (lor_range _ _ 10); unfold PTE_V; lia).
  apply (wp_while_loop (λ k a s', ∃ E A' l', (length E ≤ n)%nat ∧ (length l ≤ length l' + 3 * length E)%nat ∧ k = (n - length E)%nat ∧
    a = (v + Z.of_nat (length E)) * PGSIZE ∧ Forall (λ e, PTE_FLAGS e = Z.lor perm PTE_V) E ∧
    grown s root A F v E (replicate (length E) (const_page 0)) s' A' l') _ _ _ n); [|lia|].
  { exists [], A, l. split_and!; [simpl; lia|simpl; lia|simpl; lia|simpl; lia|constructor|by apply grown_0]. }
  intros k a s1 (E & A1 & l1 & Hlen & Hcnt & -> & -> & Hfl & Hg).
  assert (∀ k, v ≤ k < v + Z.of_nat (length E) → leaf A !! k = None) as HnE by (intros k ?; apply Hnone; lia).
  destruct (Z.ltb_spec ((v + Z.of_nat (length E)) * PGSIZE) newsz) as [Hlt|Hge]; cbn [negb].
  2: { apply wp_ret. left. assert (length E = n) as El by (unfold PGSIZE in *; lia). rewrite El in *. split; [done|]. by exists E, A1, l1. }
  assert (length E < n)%nat as Hn by (unfold PGSIZE in *; lia).
  eapply wp_seq; [by apply (grow_kalloc _ _ _ _ _ _ _ _ _ _ Hg)|].
  intros q s2 [(-> & -> & ->)|(Hq0 & l2 & -> & Hfr)].
  { eapply wp_seq; [eapply (ungrow_dealloc _ _ _ _ _ _ _ _ _ _ Hg); [lia|unfold PGSIZE in *; lia|done]|].
    intros r s3 Hs3. apply wp_ret. right. split_and!; [done|done|simpl in Hcnt; lia]. }
  rewrite (proj2 (Z.eqb_neq q 0)) by done.
  eapply wp_seq; [apply (fresh_put _ _ _ _ _ _ _ _ _ _ _ _ _ Hfr), length_const_page|]. intros [] s3 [Hfr3 _].
  eapply wp_seq; [apply (grow_map _ _ _ _ _ _ _ _ _ _ _ _ perm Hfr3); [lia|unfold PGSIZE in *; lia|done|apply Hnone; lia]|].
  intros r s4 (A4 & l4 & [(-> & Hg4 & Hc4)|(-> & Hfr4 & Hc4)]); cbn [Z.eqb negb].
  - apply wp_ret. exists (n - S (length E))%nat. split; [lia|]. eexists _, A4, l4. split_and!; [| | | | |].
    6: { rewrite <-replicate_S_end in Hg4.
         replace (S (length E)) with (length (E ++ [mkpte q (Z.lor perm PTE_V)])) in Hg4 by (rewrite length_app; simpl; lia).
         exact Hg4. }
    + rewrite length_app. simpl. lia.
    + rewrite length_app. simpl in *. lia.
    + rewrite length_app. simpl. lia.
    + rewrite length_app. unfold u64. rewrite wrap_small by (unfold PGSIZE in *; lia). simpl. unfold PGSIZE. lia.
    + apply Forall_app. split; [done|]. constructor; [by apply PTE_FLAGS_mkpte|constructor].
  - eapply wp_seq; [by apply (fresh_free _ _ _ _ _ _ _ _ _ _ _ _ Hfr4)|]. intros [] s5 Hg5.
    eapply wp_seq; [eapply (ungrow_dealloc _ _ _ _ _ _ _ _ _ _ Hg5); [lia|unfold PGSIZE in *; lia|done]|].
    intros r s6 Hs6. apply wp_ret. right. split_and!; [done|done|simpl in Hcnt; lia].
Qed.

(** ** Copying *)
Lemma pte_ok_flags e :
  pte_ok e → leaf_perm (PTE_FLAGS e) ∧ Z.lor (PTE_FLAGS e) PTE_V = PTE_FLAGS e ∧ e = mkpte (PTE2PA e) (PTE_FLAGS e).
Proof using Type.
  intros (pa & f & -> & Hal & Hpa & Hf & HV & HX). rewrite PTE_FLAGS_mkpte, PTE2PA_mkpte by done.
  split_and!; [done| |done]. apply Z.bits_inj'. intros n Hn. rewrite Z.lor_spec.
  destruct (decide (n = 0)) as [->|Hn0].
  - unfold bit, PTE_V in HV. apply negb_true_iff, Z.eqb_neq in HV. change 1 with (Z.ones 1) in HV.
    rewrite Z.land_ones in HV by lia. change (2 ^ 1) with 2 in HV. rewrite <-Z.bit0_mod in HV.
    destruct (Z.testbit f 0); [done|by destruct HV].
  - unfold PTE_V. rewrite (Z.bits_above_log2 1 n) by (simpl; lia). by rewrite orb_false_r.
Qed.

Lemma ungrow_unmap s root A F E X s1 A1 l1 :
  grown s root A F 0 E X s1 A1 l1 → Z.of_nat (length E) * PGSIZE ≤ MAXVA →
  (∀ k, 0 ≤ k < Z.of_nat (length E) → leaf A !! k = None) →
  wp (uvmunmap kend root 0 (Z.of_nat (length E) * PGSIZE / PGSIZE) true) (λ _ s', restored s root A F s') s1.
Proof using Type.
  intros Hg Hmax Hnone. rewrite Z.div_mul by done. change 0 with (0 * PGSIZE) at 1.
  eapply wp_mono; [apply (uvmunmap_spec s1 root A1 _ l1 _ E true (gr_inv _ _ _ _ _ _ _ _ _ _ Hg))|].
  - lia.
  - done.
  - rewrite (gr_leaf _ _ _ _ _ _ _ _ _ _ Hg). apply is_run_map_list.
  - intros _. split; [apply (gr_nodup _ _ _ _ _ _ _ _ _ _ Hg)|apply union_subseteq_l].
  - intros [] s2 Hu. eapply ungrow; [exact Hg|lia|done|intros k ?; apply Hnone; lia|exact Hu].
Qed.

(** The parent: an address space among the other pages in use, with its user
    pages [E] and their contents [X]. *)
Record parent (s : pst) (old : Z) (Ao : aspace) F (E : list Z) (X : list page) : Prop := {
  pa_space : Space kend (pages s) old Ao;
  pa_tables : tables Ao ⊆ F;
  pa_run : is_run (leaf Ao) 0 E;
  pa_frames : (list_to_set (frames E) : gset Z) ⊆ F;
  pa_data : Forall2 (λ e x, pages s !! PTE2PA e = Some x ∧ length x = Z.to_nat PGSIZE) E X;
}.

Lemma parent_frame s s' old Ao F E X : frame F s s' → parent s old Ao F E X → parent s' old Ao F E X.
Proof using Type.
  intros Hfr [H1 H2 H3 H4 H5]. split; [eapply Space_frame; [done|]; intros q Hq; apply Hfr, H2, Hq|done|done|done|].
  rewrite Forall2_lookup in *. intros i. specialize (H5 i).
  destruct (E !! i) as [e|] eqn:He; inversion H5 as [? x [Hx Hl]|]; subst; constructor.
  split; [|done]. rewrite Hfr; [done|]. apply H4, elem_of_list_to_set. unfold frames.
  apply list_elem_of_fmap. exists e. split; [done|]. by eapply list_elem_of_lookup_2.
Qed.

Definition copy_post s new A F (l : list Z) E X (r : Z) (s' : pst) : Prop :=
  (r = 0 ∧ ∃ E' A' l', Forall2 (λ e e', PTE_FLAGS e = PTE_FLAGS e') E E' ∧ grown s new A F 0 E' X s' A' l') ∨
  (r = -1 ∧ restored s new A F s' ∧ (length l ≤ 3 * length E)%nat).

Lemma copy_look s1 old Ao F E X j e x (Q : Z → pst → Prop) :
  parent s1 old Ao F E X → E !! j = Some e → X !! j = Some x →
  (∀ r, r ≠ 0 → wp (ld64 r) (λ w s', w = e ∧ s' = s1) s1 → Q r s1) →
  wp (walk old (Z.of_nat j * PGSIZE) false) Q s1.
Proof using Type.
  intros [H1 H2 H3 H4 H5] He Hx HQ. pose proof (H3 _ _ He) as Hle. rewrite Z.add_0_l in Hle.
  destruct (pte_ok_leaf _ _ _ _ _ H1 Hle) as [Hok Hr]. eapply wp_mono; [by apply (walk_look_spec kend _ s1 old Ao H1)|].
  intros r s2 [-> [[_ Hnone]|[Hr0 Ha]]]; [by rewrite prefix0_page, Hle in Hnone|].
  apply HQ; [done|]. apply (ld64_leaf kend _ _ _ _ _ _ H1 (proj1 Hr) Ha). rewrite prefix0_page, Hle. done.
Qed.

Lemma uvmcopy_spec s old Ao new A F l sz E X :
  VInv kend s new A F l → parent s old Ao F E X → 0 ≤ sz ≤ MAXVA → Z.of_nat (length E) = npg sz →
  (∀ k, 0 ≤ k < npg sz → leaf A !! k = None) →
  wp (uvmcopy kend old new sz) (copy_post s new A F l E X) s.
Proof using Type.
  intros Hv Hpar Hsz Hlen Hnone. unfold uvmcopy. cbv zeta. set (n := length E) in *.
  assert (MAXVA = 2 ^ 38) as EM by done. pose proof (npg_bounds sz) as Hb.
  assert (npg sz * PGSIZE ≤ MAXVA) as Hmax by (unfold PGSIZE in *; lia).
  replace (Z.to_nat ((sz + PGSIZE - 1) / PGSIZE)) with n by (fold (npg sz); lia).
  assert (length X = n) as HlX by (unfold n; symmetry; eapply Forall2_length, (pa_data _ _ _ _ _ _ Hpar)).
  apply (wp_while_loop (λ k a s', ∃ E' A' l', (length E' ≤ n)%nat ∧ (length l ≤ length l' + 3 * length E')%nat ∧ k = (n - length E')%nat ∧
    a = Z.of_nat (length E') * PGSIZE ∧ Forall2 (λ e e', PTE_FLAGS e = PTE_FLAGS e') (take (length E') E) E' ∧
    grown s new A F 0 E' (take (length E') X) s' A' l') _ _ _ n); [|lia|].
  { exists [], A, l. split_and!; [simpl; lia|simpl; lia|simpl; lia|simpl; lia|constructor|by apply grown_0]. }
  intros k a s1 (E' & A1 & l1 & Hle & Hcnt & -> & -> & Hfl & Hg).
  destruct (Z.ltb_spec (Z.of_nat (length E') * PGSIZE) sz) as [Hlt|Hge]; cbn [negb].
  2: { apply wp_ret. left. assert (length E' = n) as El by (unfold PGSIZE in *; lia).
       rewrite !take_ge in * by lia. split; [done|]. by exists E', A1, l1. }
  assert (length E' < n)%nat as Hn by (unfold PGSIZE in *; lia).
  assert (∀ k, 0 ≤ k < Z.of_nat (length E') → leaf A !! k = None) as HnE by (intros k ?; apply Hnone; lia).
  assert (Z.of_nat (length E') * PGSIZE ≤ MAXVA) as HmE by (unfold PGSIZE in *; lia).
  destruct (lookup_lt_is_Some_2 E (length E') Hn) as [e He].
  destruct (lookup_lt_is_Some_2 X (length E')) as [x Hx]; [lia|].
  pose proof (parent_frame _ _ _ _ _ _ _ (gr_frame _ _ _ _ _ _ _ _ _ _ Hg) Hpar) as Hpar1.
  destruct (Forall2_lookup_lr _ _ _ _ _ _ (pa_data _ _ _ _ _ _ Hpar1) He Hx) as [Hpx Hlx].
  pose proof (pa_run _ _ _ _ _ _ Hpar1 _ _ He) as Hlf. simpl in Hlf.
  destruct (pte_ok_leaf _ _ _ _ _ (pa_space _ _ _ _ _ _ Hpar1) Hlf) as [Hok _].
  destruct (pte_ok_flags e Hok) as (Hperm & HfV & _). destruct (pte_ok_V e Hok) as [HeV _].
  apply wp_bind. apply (copy_look s1 old Ao F E X _ e x _ Hpar1 He Hx). intros r Hr0 Hld.
  apply wp_bind, wp_panic_if; [by apply Z.eqb_neq|]. eapply wp_seq; [exact Hld|]. intros w s2 [-> ->].
  apply wp_bind, wp_panic_if; [by rewrite HeV|]. cbv zeta.
  eapply wp_seq; [by apply (grow_kalloc _ _ _ _ _ _ _ _ _ _ Hg)|].
  intros q s2 [(-> & -> & ->)|(Hq0 & l2 & -> & Hfr)].
  { eapply wp_seq; [by apply (ungrow_unmap _ _ _ _ _ _ _ _ _ Hg)|]. intros [] s3 Hs3. apply wp_ret. right. split_and!; [done|done|simpl in Hcnt; lia]. }
  rewrite (proj2 (Z.eqb_neq q 0)) by done. apply wp_bind. eapply wp_page_get.
  { rewrite <-Hpx. rewrite <-(fr_frame_old _ _ _ _ _ _ _ _ _ _ _ _ _ _ Hg Hfr); [reflexivity|]. apply (pa_frames _ _ _ _ _ _ Hpar1).
    apply elem_of_list_to_set. unfold frames. apply list_elem_of_fmap. exists e. split; [done|]. by eapply list_elem_of_lookup_2. }
  eapply wp_seq; [by apply (fresh_put _ _ _ _ _ _ _ _ _ _ _ _ x Hfr)|]. intros [] s3 [Hfr3 _].
  eapply wp_seq; [apply (grow_map _ _ _ _ _ _ _ _ _ _ _ _ (PTE_FLAGS e) Hfr3); [lia|unfold PGSIZE in *; lia|done|apply Hnone; lia]|].
  intros r' s4 (A4 & l4 & [(-> & Hg4 & Hc4)|(-> & Hfr4 & Hc4)]); cbn [Z.eqb negb].
  - apply wp_ret. exists (n - S (length E'))%nat. split; [lia|]. rewrite HfV in Hg4.
    exists (E' ++ [mkpte q (PTE_FLAGS e)]), A4, l4. split_and!; [| | | | |rewrite length_app; simpl; rewrite Nat.add_1_r, (take_S_r _ _ _ Hx); exact Hg4].
    + rewrite length_app. simpl. lia.
    + rewrite length_app. simpl in *. lia.
    + rewrite length_app. simpl. lia.
    + rewrite length_app. unfold u64. rewrite wrap_small by (unfold PGSIZE in *; lia). simpl. unfold PGSIZE. lia.
    + rewrite length_app. simpl. rewrite Nat.add_1_r, (take_S_r _ _ _ He). apply Forall2_app; [done|].
      constructor; [|constructor]. rewrite PTE_FLAGS_mkpte; [done|]. apply Hperm.
  - eapply wp_seq; [by apply (fresh_free _ _ _ _ _ _ _ _ _ _ _ _ Hfr4)|]. intros [] s5 Hg5.
    eapply wp_seq; [by apply (ungrow_unmap _ _ _ _ _ _ _ _ _ Hg5)|]. intros [] s6 Hs6. apply wp_ret. right. split_and!; [done|done|simpl in Hcnt; lia].
Qed.
End user.

(** * Properties *)

(** C21. Growing a process is all or nothing.  [uvmalloc] either returns the new
    size, with one new zeroed page, owned by nobody before, mapped readable for
    the user (and with [xperm]) at every page between the old and the new size;
    or it returns 0, which happens only when at most three free pages are left
    per page asked for, with the address space mapping what it mapped before, no
    user page allocated, and every page that was free still free, but for those
    that [walk] has made tables of: these stay, empty, until the process is freed.
    It never touches a page in use. *)
Theorem uvmalloc_all_or_nothing kend s root A F l oldsz newsz xperm :
  let v := npg oldsz in
  let n := Z.to_nat (npg newsz - v) in
  let perm := Z.lor (Z.lor PTE_R PTE_U) xperm in
  VInv kend s root A F l → 0 ≤ oldsz ≤ newsz → newsz ≤ MAXVA → leaf_perm perm →
  (∀ k, v ≤ k < npg newsz → leaf A !! k = None) →
  wp (uvmalloc kend root oldsz newsz xperm) (λ r s',
    frame F s s' ∧
    ((r = newsz ∧ ∃ P A' l', length P = n ∧ NoDup P ∧ (∀ p, p ∈ P → page_ok kend p ∧ p ∉ F) ∧
       (∀ p, p ∈ P → pages s' !! p = Some (const_page 0)) ∧
       VInv kend s' root A' (list_to_set P ∪ F) l' ∧
       ∀ i p, P !! i = Some p → ∃ e, leaf A' !! (v + Z.of_nat i) = Some e ∧
         PTE2PA e = p ∧ PTE_FLAGS e = Z.lor perm PTE_V) ∨
     (r = 0 ∧ (length l ≤ 3 * n)%nat ∧ ∃ A' l', VInv kend s' root A' F l' ∧ leaf A' = leaf A ∧ tabs A ⊆ tabs A' ∧
       (∀ p, p ∈ l' ↔ p ∈ l ∧ p ∉ tables A')))) s.
Proof.
  intros v n perm Hv Hsz Hmax Hperm Hnone.
  eapply wp_mono; [by apply (uvmalloc_spec kend s root A F l oldsz newsz xperm)|].
  intros r s' [(-> & E & A' & l' & Hlen & Hfl & [H1 H2 H3 H4 H5 H6 _] & _)|(-> & (A' & l' & H1 & H2 & H3 & H4) & Hc)].
  - split; [done|]. left. split; [done|]. exists (frames E), A', l'. split_and!; [|done|done| |done|].
    + unfold frames. by rewrite length_fmap.
    + intros p (i & Hi)%list_elem_of_lookup. unfold frames in Hi. rewrite list_lookup_fmap_Some in Hi.
      destruct Hi as (e & -> & Hi). destruct (Forall2_lookup_l _ _ _ _ _ H5 Hi) as (x & Hx & ->).
      by apply lookup_replicate in Hx as [-> _].
    + intros i p Hi. unfold frames in Hi. rewrite list_lookup_fmap_Some in Hi. destruct Hi as (e & -> & Hi).
      exists e. rewrite H2. split_and!; [by apply is_run_map_list|done|by eapply Forall_lookup_1 in Hfl].
  - split; [done|]. right. split_and!; [done|done|]. exists A', l'. split_and!; [done..|]. by eapply free_but_tables.
Qed.

Lemma uvmalloc_all_or_nothing_witness : ∃ s root l,
  VInv ram_end s root (empty_space root) ∅ l ∧
  wp (uvmalloc ram_end root 0 5000 PTE_W) (λ r _, r = 5000) s.
Proof.
  destruct ram16_space as (s & root & l & Hv & Hl). exists s, root, l. split; [exact Hv|].
  eapply wp_mono; [apply (uvmalloc_all_or_nothing ram_end s root _ ∅ l 0 5000 PTE_W Hv)|].
  - lia.
  - vm_compute. discriminate.
  - split; [vm_compute; split; congruence|reflexivity].
  - reflexivity.
  - intros r s' [_ [[-> _]|(_ & Hlen & _)]]; [done|]. rewrite Hl in Hlen. vm_compute in Hlen. lia.
Defined.

(** C22. [fork] copies memory: [uvmcopy] gives the child one new page for each
    page of the parent, with the same bytes and the same flags, at the same
    address; the new pages are distinct and were free, so that the memory of
    the two processes is disjoint.  On failure the child maps what it mapped
    before.  The parent's tables and memory are not touched. *)
Theorem uvmcopy_copies kend s old Ao new A F l sz E X :
  VInv kend s new A F l → parent kend s old Ao F E X → 0 ≤ sz ≤ MAXVA → Z.of_nat (length E) = npg sz →
  (∀ k, 0 ≤ k < npg sz → leaf A !! k = None) →
  wp (uvmcopy kend old new sz) (λ r s',
    parent kend s' old Ao F E X ∧
    ((r = 0 ∧ ∃ E' A' l', VInv kend s' new A' (list_to_set (frames E') ∪ F) l' ∧
       is_run (leaf A') 0 E' ∧ NoDup (frames E') ∧ (∀ p, p ∈ frames E' → p ∉ F) ∧
       Forall2 (λ e e', PTE_FLAGS e = PTE_FLAGS e') E E' ∧
       Forall2 (λ e' x, pages s' !! PTE2PA e' = Some x) E' X) ∨
     (r = -1 ∧ (length l ≤ 3 * length E)%nat ∧ ∃ A' l', VInv kend s' new A' F l' ∧ leaf A' = leaf A))) s.
Proof.
  intros Hv Hpar Hsz Hlen Hnone. eapply wp_mono; [by apply (uvmcopy_spec kend s old Ao new A F l sz E X)|].
  intros r s' [(-> & E' & A' & l' & Hfl & [H1 H2 H3 H4 H5 H6 _])|(-> & (A' & l' & H1 & H2 & H3 & _) & Hc)].
  - split; [by eapply parent_frame|]. left. split; [done|]. exists E', A', l'.
    split_and!; [done|rewrite H2; apply is_run_map_list|done|intros p Hp; by apply H4|done|done].
  - split; [by eapply parent_frame|]. right. split_and!; [done|done|]. by exists A', l'.
Qed.

(** A parent with one page of memory, and a new child. *)
Lemma parent_demo : ∃ s old Ao new F l E, VInv ram_end s new (empty_space new) F l ∧
  parent ram_end s old Ao F E [const_page 0] ∧ length E = 1%nat ∧ (3 < length l)%nat.
Proof.
  destruct ram16_space as (s & old & l & Hv & Hl).
  destruct (proj1 (wp_ok _ _ _) (uvmalloc_spec ram_end s old _ ∅ l 0 4096 PTE_W Hv ltac:(lia) ltac:(done)
    ltac:(split; [vm_compute; split; congruence|reflexivity]) ltac:(done))) as (r & s1 & _ & Hp).
  change (Z.to_nat (npg 4096 - npg 0)) with 1%nat in Hp.
  destruct Hp as [(_ & E & A1 & l1 & HE & _ & [H1 H2 H3 H4 H5 H6] & Hc)|(_ & _ & Hc)]; [|lia].
  rewrite union_empty_r_L in H1. destruct H1 as [Ho Hd Hsp].
  destruct (proj1 (wp_ok _ _ _) (uvmcreate_spec ram_end s1 _ l1 Ho)) as (new & s2 & _ & Hcr).
  destruct Hcr as [(_ & -> & _)|(_ & Hfr & l2 & -> & Hv2)]; [simpl in Hc; lia|].
  exists s2, old, A1, new, (tables A1 ∪ list_to_set (frames E)), l2, E. split_and!; [done| |done|simpl in Hc; lia].
  apply (parent_frame ram_end s1); [done|]. split; [done|set_solver|rewrite H2; apply is_run_map_list|set_solver|].
  eapply Forall2_impl; [exact H5|]. intros e x Hx. split; [done|]. destruct Ho as ([_ _ _ Hsz] & _). exact (Hsz _ _ Hx).
Qed.

Lemma uvmcopy_copies_witness : ∃ s old Ao new F l E,
  parent ram_end s old Ao F E [const_page 0] ∧ VInv ram_end s new (empty_space new) F l ∧
  wp (uvmcopy ram_end old new 4096) (λ r _, r = 0) s.
Proof.
  destruct parent_demo as (s & old & Ao & new & F & l & E & Hv & Hpar & HE & Hl).
  exists s, old, Ao, new, F, l, E. split; [exact Hpar|]. split; [exact Hv|].
  eapply wp_mono; [apply (uvmcopy_copies ram_end s old Ao new _ F l 4096 E _ Hv Hpar)|].
  - split; [lia|]. vm_compute. discriminate.
  - rewrite HE. reflexivity.
  - reflexivity.
  - intros r s' [_ [[-> _]|(_ & Hlen & _)]]; [done|]. lia.
Defined.
