(* ===== verification/VmFree.v ===== *)
(** * Freeing address spaces

    [freewalk] returns the pages of all tables, and [uvmfree] those of the
    user pages as well: afterwards the pages in use are exactly the others. *)

From S2P Require Import Prelude Word Param Kalloc Vm VmSpec VmUser.

Section free.
Context (kend : Z).
Implicit Types (s : pst) (A : aspace) (F : gset Z).

(** The pages of the tables of level at most [n] whose prefix, cut to level
    [n], lies between [lo] and [hi]: the subtrees of consecutive entries. *)
Definition below (n : nat) (lo hi : Z) (a : nat * Z) : Prop :=
  (a.1 ≤ n)%nat ∧ lo ≤ a.2 / 512 ^ Z.of_nat (n - a.1) < hi.
#[global] Instance below_dec n lo hi a : Decision (below n lo hi a).
Proof. unfold below. apply _. Defined.

Definition subtree A (n : nat) (lo hi : Z) : gset Z := map_img (filter (λ x, below n lo hi x.1) (tabs A)).

Lemma elem_of_subtree A n lo hi p :
  p ∈ subtree A n lo hi ↔ ∃ a, tabs A !! a = Some p ∧ below n lo hi a.
Proof using Type.
  unfold subtree. rewrite elem_of_map_img. setoid_rewrite map_lookup_filter_Some. done.
Qed.

Lemma below_up n lo hi m j :
  (m ≤ n)%nat → below (S n) lo hi (m, j) ↔ below n (lo * 512) (hi * 512) (m, j).
Proof using Type.
  intros Hm. unfold below. cbn [fst snd].
  replace (Z.of_nat (S n - m)) with (Z.of_nat (n - m) + 1) by lia. rewrite Z.pow_add_r by lia.
  change (512 ^ 1) with 512. rewrite <-Z.div_div by lia. set (y := j / _).
  pose proof (Z.div_mod y 512). pose proof (Z.mod_pos_bound y 512). split; intros [_ ?]; split; lia.
Qed.

Section tree.
Context (ps : gmap Z page) (root : Z) (A : aspace).
Hypothesis Hsp : Space kend ps root A.
Hypothesis Hleaf : leaf A = ∅.

(** Above every table there is one at each level. *)
Lemma ancestor n m j : (m ≤ n)%nat → (n ≤ 2)%nat → is_Some (tabs A !! (m, j)) →
  is_Some (tabs A !! (n, j / 512 ^ Z.of_nat (n - m))).
Proof using Hsp.
  intros Hmn. induction Hmn as [|n Hmn IH]; intros Hn Hs.
  - rewrite Nat.sub_diag. simpl. by rewrite Z.div_1_r.
  - destruct (IH ltac:(lia) Hs) as [p Hp]. apply (sp_parent _ _ _ _ Hsp) in Hp; [|lia].
    rewrite Z.div_div in Hp by lia. replace (512 ^ Z.of_nat (S n - m)) with (512 ^ Z.of_nat (n - m) * 512); [done|].
    replace (Z.of_nat (S n - m)) with (Z.of_nat (n - m) + 1) by lia. by rewrite Z.pow_add_r by lia.
Qed.

Lemma subtree_none n k : (n ≤ 2)%nat → tabs A !! (n, k) = None → subtree A n k (k + 1) = ∅.
Proof using Hsp.
  intros Hn Hnone. apply set_eq. intros p. rewrite elem_of_subtree. split; [|by intros ?%elem_of_empty].
  intros ([m j] & Ha & Hm & Hj). cbn [fst snd] in *. destruct (ancestor n m j Hm Hn ltac:(by eexists)) as [q Hq].
  replace (j / 512 ^ Z.of_nat (n - m)) with k in Hq by lia. congruence.
Qed.

Lemma subtree_split n lo mid hi : lo ≤ mid ≤ hi → subtree A n lo hi = subtree A n lo mid ∪ subtree A n mid hi.
Proof using Type.
  intros H. apply set_eq. intros p. rewrite elem_of_union, !elem_of_subtree. unfold below. split.
  - intros (a & Ha & Hm & Hr). destruct (decide (a.2 / 512 ^ Z.of_nat (n - a.1) < mid)); [left|right]; exists a; split_and!; done || lia.
  - intros [(a & Ha & Hm & Hr)|(a & Ha & Hm & Hr)]; exists a; split_and!; done || lia.
Qed.

Lemma subtree_disj n lo hi lo' hi' : hi ≤ lo' → subtree A n lo hi ## subtree A n lo' hi'.
Proof using Hsp.
  intros H. apply elem_of_disjoint. intros p. rewrite !elem_of_subtree. intros (a & Ha & _ & Hr) (b & Hb & _ & Hr').
  assert (a = b) as -> by (by eapply (sp_inj _ _ _ _ Hsp)). lia.
Qed.

Lemma subtree_node n k p :
  tabs A !! (S n, k) = Some p →
  subtree A (S n) k (k + 1) = {[p]} ∪ subtree A n (k * 512) (k * 512 + 512) ∧
  p ∉ subtree A n (k * 512) (k * 512 + 512).
Proof using Hsp.
  intros Hp. replace (k * 512 + 512) with ((k + 1) * 512) by lia. split.
  - apply set_eq. intros q. rewrite elem_of_union, elem_of_singleton, !elem_of_subtree. split.
    + intros ([m j] & Ha & Hb). destruct (decide (m ≤ n)%nat) as [Hm|Hm].
      * right. exists (m, j). by rewrite <-below_up.
      * left. destruct Hb as [Hm' Hr]. cbn [fst snd] in *. assert (m = S n) as -> by lia.
        rewrite Nat.sub_diag in Hr. simpl in Hr. rewrite Z.div_1_r in Hr. assert (j = k) as -> by lia. congruence.
    + intros [->|([m j] & Ha & Hb)].
      * exists (S n, k). split; [done|]. split; cbn [fst snd]; [lia|]. rewrite Nat.sub_diag. simpl. rewrite Z.div_1_r. lia.
      * exists (m, j). split; [done|]. apply below_up; [apply Hb|done].
  - rewrite elem_of_subtree. intros ([m j] & Ha & [Hm _]). assert ((m, j) = (S n, k)) as [= -> ->] by (by eapply (sp_inj _ _ _ _ Hsp)).
    simpl in Hm. lia.
Qed.

Lemma subtree_node0 k p : tabs A !! (0%nat, k) = Some p → subtree A 0 k (k + 1) = {[p]}.
Proof using Hsp.
  intros Hp. apply set_eq. intros q. rewrite elem_of_singleton, elem_of_subtree. split.
  - intros ([m j] & Ha & Hm & Hr). cbn [fst snd] in *. assert (m = 0%nat) as -> by lia. simpl in Hr.
    rewrite Z.div_1_r in Hr. assert (j = k) as -> by lia. congruence.
  - intros ->. exists (0%nat, k). split; [done|]. split; cbn [fst snd]; [lia|]. simpl. rewrite Z.div_1_r. lia.
Qed.

Lemma subtree_all : subtree A 2 0 1 = tables A.
Proof using Hsp.
  apply set_eq. intros p. rewrite elem_of_subtree, elem_of_tables. split; [naive_solver|]. intros ([m j] & Ha).
  exists (m, j). split; [done|]. destruct (sp_key _ _ _ _ Hsp _ _ _ Ha) as (Hm & Hj & _). split; [done|]. cbn [fst snd].
  destruct (ancestor 2 m j Hm ltac:(lia) ltac:(by eexists)) as [q Hq].
  destruct (sp_key _ _ _ _ Hsp _ _ _ Hq) as (_ & _ & Hk & _). rewrite (Hk eq_refl). lia.
Qed.

(** The subtrees of the entries from [i] on of the table with key [(n, k)]. *)
Definition children (n : nat) (k i : Z) : gset Z :=
  match n with O => ∅ | S m => subtree A m (k * 512 + i) (k * 512 + 512) end.

Record walked (n : nat) (k p : Z) F s i s' l' : Prop := {
  wk_owned : Owned kend s' ({[p]} ∪ (children n k i ∪ F)) l';
  wk_children q : q ∈ children n k i → pages s' !! q = ps !! q;
  wk_page : ∃ x, pages s' !! p = Some x ∧ length x = Z.to_nat PGSIZE ∧
    ∀ j, i ≤ j < 512 → get64 x (word_off j) = entry A n (k * 512 + j);
  wk_frame : frame F s s';
}.

Lemma children_split n k i q :
  (S n ≤ 2)%nat → 0 ≤ i < 512 → tabs A !! (n, k * 512 + i) = Some q →
  children (S n) k i = subtree A n (k * 512 + i) (k * 512 + i + 1) ∪ children (S n) k (i + 1).
Proof using Type.
  intros Hn Hi Hq. simpl. rewrite (subtree_split n _ (k * 512 + i + 1)) by lia. do 2 f_equal. lia.
Qed.

Lemma children_next n k i :
  (n ≤ 2)%nat → 0 ≤ i < 512 → entry A n (k * 512 + i) = 0 → children n k i = children n k (i + 1).
Proof using Hsp.
  intros Hn Hi He. destruct n as [|n]; [done|]. simpl in *. rewrite (subtree_split n _ (k * 512 + i + 1)) by lia.
  rewrite subtree_none; [|lia|].
  - rewrite union_empty_l_L. f_equal. lia.
  - destruct (tabs A !! (n, k * 512 + i)) as [q|] eqn:E; [|done]. exfalso.
    destruct (sp_key _ _ _ _ Hsp _ _ _ E) as (_ & _ & _ & Hok). apply page_ok_range in Hok as [_ Hr].
    unfold mkpte, PTE_V in He. pose proof (Z.div_pos q 4096). lia.
Qed.

(** Clearing the entry whose subtree has been freed. *)
Lemma walked_clear n k p F s i s1 l1 :
  walked n k p F s i s1 l1 → page_ok kend p → 0 ≤ i < 512 → p ∉ F ∪ children n k (i + 1) →
  ∀ s2 l2, Owned kend s2 ({[p]} ∪ (children n k (i + 1) ∪ F)) l2 →
  frame ({[p]} ∪ (children n k (i + 1) ∪ F)) s1 s2 → children n k (i + 1) ⊆ children n k i →
  wp (st64 (p + 8 * i) 0) (λ _ s', ∃ l', walked n k p F s (i + 1) s' l') s2.
Proof using Hsp Hleaf.
  intros [Ho Hc (x & Hx & Hlen & He) Hfr] Hok Hi Hp s2 l2 Ho2 Hfr2 Hsub.
  destruct (entry_addr p i) as [E1 E2]; [apply Hok|done|]. unfold st64. rewrite E1, E2.
  eapply wp_word_put; [rewrite Hfr2 by set_solver; exact Hx|]. exists l2. split; cbn [pages].
  - apply Owned_write; [done|set_solver|]. unfold word_off, PGSIZE in *. rewrite length_putn; lia.
  - intros q Hq. rewrite lookup_insert_ne by set_solver. rewrite Hfr2 by set_solver. apply Hc. set_solver.
  - eexists. split_and!; [apply lookup_insert_eq|unfold word_off, PGSIZE in *; rewrite length_putn; lia|].
    intros j Hj. unfold word_off, PGSIZE in *. rewrite getn_putn_ne by lia. apply He. lia.
  - intros q Hq. cbn [pages]. rewrite lookup_insert_ne by set_solver. rewrite Hfr2 by set_solver. by apply Hfr.
Qed.

Lemma entry_leaf n k : (bit (entry A n k) PTE_V = true → ∃ m q, n = S m ∧ tabs A !! (m, k) = Some q ∧ entry A n k = mkpte q PTE_V) ∧
  (bit (entry A n k) PTE_V = false → entry A n k = 0).
Proof using Hsp Hleaf.
  destruct n as [|n]; simpl; [by rewrite Hleaf, lookup_empty|]. destruct (tabs A !! (n, k)) as [q|] eqn:E; [|done].
  split; [by eauto|]. rewrite bit_mkpte by (unfold PTE_V; lia). done.
Qed.

(** Bookkeeping of the sets of pages. *)
Lemma sets_split (p : Z) (T C F : gset Z) : {[p]} ∪ (T ∪ C ∪ F) = T ∪ ({[p]} ∪ (C ∪ F)).
Proof using Type. clear. set_solver. Qed.
Lemma sets_disj (p : Z) (T C C0 F : gset Z) :
  T ∪ C ⊆ C0 → p ∉ C0 → {[p]} ∪ C0 ## F → T ## C → T ## {[p]} ∪ (C ∪ F).
Proof using Type. clear. set_solver. Qed.
Lemma sets_notin (p : Z) (C C0 F : gset Z) : C ⊆ C0 → p ∉ C0 → {[p]} ∪ C0 ## F → p ∉ F ∪ C.
Proof using Type. clear. set_solver. Qed.
Lemma sets_remove (p : Z) (F C : gset Z) : {[p]} ∪ C ## F → ({[p]} ∪ F) ∖ {[p]} = F.
Proof using Type. clear. set_solver. Qed.

Lemma freewalk_spec n k p s F l :
  (n ≤ 2)%nat → tabs A !! (n, k) = Some p → Owned kend s (subtree A n k (k + 1) ∪ F) l →
  subtree A n k (k + 1) ## F → (∀ q, q ∈ subtree A n k (k + 1) → pages s !! q = ps !! q) →
  wp (freewalk kend (S n) p) (λ _ s', ∃ l', Owned kend s' F l' ∧ frame F s s') s.
Proof using Hsp Hleaf.
  revert k p s F l. induction n as [n IH] using lt_wf_ind. intros k p s F l Hn Hp Ho Hdis Hps.
  assert (subtree A n k (k + 1) = {[p]} ∪ children n k 0 ∧ p ∉ children n k 0) as [Est Hpc].
  { destruct n; simpl; [rewrite (subtree_node0 _ p) by done; split; [by rewrite union_empty_r_L|apply not_elem_of_empty]|].
    rewrite Z.add_0_r. by apply subtree_node. }
  destruct (sp_key _ _ _ _ Hsp _ _ _ Hp) as (_ & _ & _ & Hok). cbn [freewalk].
  assert (∀ i, 0 ≤ i ≤ 512 → children n k i ⊆ children n k 0) as Hmono.
  { intros i Hi. destruct n; [done|]. simpl. rewrite (subtree_split n (k * 512 + 0) (k * 512 + i)) by lia. apply union_subseteq_r. }
  eapply wp_seq.
  - apply (wp_for_each (λ i s', ∃ l', walked n k p F s i s' l') (λ _ s', ∃ l', walked n k p F s 512 s' l')).
    + exists l. rewrite Est in *. split; [by rewrite union_assoc_L|intros q Hq; apply Hps, elem_of_union; by right| |done].
      destruct (sp_page _ _ _ _ Hsp _ _ _ Hp) as (x & Hx & Hlen & He). exists x. rewrite Hps by (apply elem_of_union; left; by apply elem_of_singleton). done.
    + intros i s1 Hi [l1 Hw]. change (0 + Z.of_nat 512) with 512 in Hi. pose proof Hw as [Ho1 Hc1 (x & Hx & Hlen & He) Hfr1].
      destruct (entry_addr p i) as [E1 E2]; [apply Hok|lia|]. apply wp_bind. unfold ld64. rewrite E1, E2.
      eapply wp_word_get; [exact Hx|]. rewrite He by lia. destruct (entry_leaf n (k * 512 + i)) as [H1 H0].
      destruct (bit (entry A n (k * 512 + i)) PTE_V) eqn:Eb; cbn [andb].
      * destruct (H1 eq_refl) as (m & q & -> & Hq & Ee). rewrite Ee.
        destruct (sp_key _ _ _ _ Hsp _ _ _ Hq) as (_ & _ & _ & Hqok). apply page_ok_range in Hqok as [Hqal Hqr].
        rewrite mkpte_flags by (vm_compute; intuition congruence). change (Z.land PTE_V _ =? 0) with true. cbn iota.
        rewrite PTE2PA_mkpte by (done || unfold PTE_V; lia).
        pose proof (children_split m k i q Hn ltac:(lia) Hq) as Ec.
        pose proof (subtree_disj m (k * 512 + i) (k * 512 + i + 1) (k * 512 + (i + 1)) (k * 512 + 512) ltac:(lia)) as Hd2.
        pose proof (Hmono i ltac:(lia)) as Hmi. rewrite Est in Hdis.
        eapply wp_seq; [apply (IH m ltac:(lia) (k * 512 + i) q s1 ({[p]} ∪ (children (S m) k (i + 1) ∪ F)) l1)|].
        -- lia.
        -- done.
        -- by rewrite <-sets_split, <-Ec.
        -- eapply sets_disj; [|exact Hpc|exact Hdis|exact Hd2]. by rewrite <-Ec.
        -- intros y Hy. apply Hc1. rewrite Ec. apply elem_of_union. by left.
        -- intros [] s2 (l2 & Ho2 & Hfr2).
           eapply (walked_clear (S m) k p F s i s1 l1 Hw Hok ltac:(lia)); [|done|done|rewrite Ec; apply union_subseteq_r].
           eapply sets_notin; [exact (Hmono (i + 1) ltac:(lia))|done|done].
      * apply wp_panic_if; [done|]. exists l1. pose proof (children_next n k i Hn ltac:(lia) (H0 eq_refl)) as Ec.
        split; [by rewrite <-Ec|by rewrite <-Ec| |done]. exists x. split_and!; [done|done|]. intros j Hj. apply He. lia.
    + intros s1 Hs1. exact Hs1.
  - intros [] s1 (l1 & [Ho1 _ _ Hfr1]).
    assert (children n k 512 = ∅) as Ec.
    { destruct n; [done|]. simpl. apply set_eq. intros q. rewrite elem_of_subtree. split; [intros (x & _ & _ & Hr); lia|by intros ?%elem_of_empty]. }
    rewrite Ec, union_empty_l_L in Ho1. rewrite Est in Hdis.
    eapply wp_mono; [apply (Owned_free_frame kend _ _ _ p Ho1), elem_of_union; left; by apply elem_of_singleton|]. intros [] s2 [Ho2 Hfr2].
    rewrite (sets_remove p F _ Hdis) in Ho2, Hfr2. eexists. split; [exact Ho2|]. by transitivity s1.
Qed.
End tree.

Lemma freewalk_root s root A F l :
  VInv kend s root A F l → leaf A = ∅ →
  wp (freewalk kend 3 root) (λ _ s', ∃ l', Owned kend s' F l' ∧ frame F s s') s.
Proof using Type.
  intros [Ho Hd Hsp] Hl. pose proof (subtree_all _ _ _ Hsp) as E.
  apply (freewalk_spec (pages s) root A Hsp Hl 2 0 root s F l); [lia|apply (sp_root _ _ _ _ Hsp)| | |done].
  - change (0 + 1) with 1. by rewrite E.
  - change (0 + 1) with 1. by rewrite E.
Qed.

Lemma uvmfree_spec s root A F l sz E :
  VInv kend s root A F l → 0 ≤ sz ≤ MAXVA → leaf A = map_list 0 E ∅ → Z.of_nat (length E) = npg sz →
  NoDup (frames E) → (list_to_set (frames E) : gset Z) ⊆ F →
  wp (uvmfree kend root sz) (λ _ s', ∃ l',
    Owned kend s' (F ∖ list_to_set (frames E)) l' ∧ frame (F ∖ list_to_set (frames E)) s s') s.
Proof using Type.
  intros Hv Hsz Hl Hlen Hnd Hsub. unfold uvmfree. pose proof (npg_bounds sz) as Hb. assert (MAXVA = 2 ^ 38) as EM by done.
  eapply (wp_seq _ _ (λ _ s', VInv kend s' root (unmapped (length E) 0 A) (F ∖ list_to_set (frames E)) (reverse (frames E) ++ l) ∧
    frame (F ∖ list_to_set (frames E)) s s')).
  - apply wp_when; intros Hb0.
    + rewrite PGROUNDUP_npg, Z.div_mul, <-Hlen by (done || lia). change 0 with (0 * PGSIZE) at 1.
      eapply wp_mono; [apply (uvmunmap_spec kend s root A F l 0 E true Hv)|].
      * lia.
      * unfold PGSIZE in *. lia.
      * rewrite Hl. apply is_run_map_list.
      * done.
      * intros [] s' [H1 H2]. by rewrite take_ge in H1, H2 by lia.
    + apply Z.ltb_ge in Hb0. destruct E; [|simpl in Hlen; unfold PGSIZE in *; lia]. simpl.
      rewrite difference_empty_L. split; [|done]. by destruct A.
  - intros [] s1 [Hv1 Hfr1]. eapply wp_mono; [apply (freewalk_root s1 root _ _ _ Hv1)|].
    + cbn [unmapped leaf]. rewrite Hl. by apply unmap_map_list.
    + intros [] s2 (l2 & Ho2 & Hfr2). exists l2. split; [done|]. by transitivity s1.
Qed.
End free.

(** * Properties *)

(** C23. Nothing leaks: freeing an address space of [sz] bytes returns every
    user page and every page of its tables to the allocator.  Afterwards the
    pages in use are exactly the others, which are untouched. *)
Theorem uvmfree_no_leak kend s root A F l sz E :
  VInv kend s root A F l → 0 ≤ sz ≤ MAXVA → leaf A = map_list 0 E ∅ → Z.of_nat (length E) = npg sz →
  NoDup (frames E) → (list_to_set (frames E) : gset Z) ⊆ F →
  wp (uvmfree kend root sz) (λ _ s', ∃ l',
    KInv kend s' l' ∧ frame (F ∖ list_to_set (frames E)) s s' ∧
    (∀ p, page_ok kend p → p ∈ l' ∨ p ∈ F ∖ list_to_set (frames E)) ∧
    (∀ p, p ∈ frames E ∨ p ∈ subtree A 2 0 1 → p ∈ l')) s.
Proof.
  intros Hv Hsz Hl Hlen Hnd Hsub. eapply wp_mono; [by eapply (uvmfree_spec kend s root A F l sz E)|].
  intros [] s' (l' & Ho & Hfr). pose proof Ho as (Hk & Hpart & _). destruct Hv as [(_ & Hpart0 & _) Hd Hsp].
  exists l'. split_and!; [done|done|intros p; apply Hpart|]. intros p. rewrite (subtree_all _ _ _ _ Hsp). intros Hp.
  assert (p ∈ tables A ∪ F ∧ p ∉ F ∖ list_to_set (frames E)) as [HpO HpF].
  { destruct Hp as [Hp|Hp]; [|set_solver]. apply (elem_of_list_to_set (C := gset Z)) in Hp. set_solver. }
  assert (page_ok kend p) as [?|?]%Hpart; [apply Hpart0; by right|done|done].
Qed.

Lemma uvmfree_no_leak_witness : ∃ s root A F l E,
  VInv ram_end s root A F l ∧ length E = 2%nat ∧
  wp (uvmfree ram_end root 5000) (λ _ s', ∃ l', KInv ram_end s' l' ∧ (∀ p, p ∈ frames E → p ∈ l')) s.
Proof.
  destruct ram16_space as (s & root & l & Hv & Hl).
  destruct (proj1 (wp_ok _ _ _) (uvmalloc_spec ram_end s root _ ∅ l 0 5000 PTE_W Hv ltac:(lia) ltac:(done)
    ltac:(split; [vm_compute; split; congruence|reflexivity]) ltac:(done))) as (r & s1 & _ & Hp).
  change (Z.to_nat (npg 5000 - npg 0)) with 2%nat in Hp.
  destruct Hp as [(_ & E & A1 & l1 & HE & _ & [H1 H2 H3 H4 H5 H6] & Hc)|(_ & _ & Hc)]; [|lia].
  exists s1, root, A1, (list_to_set (frames E) ∪ ∅), l1, E. split; [exact H1|]. split; [exact HE|].
  eapply wp_mono; [apply (uvmfree_no_leak ram_end s1 root A1 _ l1 5000 E H1)|].
  - split; [lia|]. vm_compute. discriminate.
  - exact H2.
  - rewrite HE. reflexivity.
  - exact H3.
  - apply union_subseteq_l.
  - intros [] s' (l' & Hk & _ & _ & Hall). exists l'. split; [exact Hk|]. intros p Hp. apply Hall. by left.
Defined.
