(* ===== verification/VmCopy.v ===== *)
(** * Copying between the kernel and user memory

    The memory a process sees: the byte at a virtual address is the one in the
    page that the table maps, if the user may access it.  [copyin] and
    [copyinstr] read this memory, [copyout] writes it. *)

From S2P Require Import Prelude Word Param Kalloc Vm VmSpec VmUser.

Definition vpage (A : aspace) (ps : gmap Z page) (v : Z) : option page :=
  e ← leaf A !! v; if bit e PTE_U then ps !! PTE2PA e else None.
Definition vbyte (A : aspace) (ps : gmap Z page) (va : Z) : option Z :=
  x ← vpage A ps (va / PGSIZE); x !! Z.to_nat (va mod PGSIZE).
Definition vread (A : aspace) (ps : gmap Z page) (va : Z) (n : nat) : option (list Z) :=
  mapM (vbyte A ps) (seqZ va (Z.of_nat n)).

Definition uwritable (A : aspace) (va : Z) : bool :=
  match leaf A !! (va / PGSIZE) with
  | Some e => bit e PTE_U && bit e PTE_W
  | None => false
  end.

(** User pages are in use, and each is mapped once. *)
Record user_ok (A : aspace) (F : gset Z) : Prop := {
  uo_in v e : leaf A !! v = Some e → bit e PTE_U = true → PTE2PA e ∈ F;
  uo_inj v v' e e' : leaf A !! v = Some e → leaf A !! v' = Some e' →
    bit e PTE_U = true → bit e' PTE_U = true → PTE2PA e = PTE2PA e' → v = v';
}.

Lemma seqZ_split va n m : seqZ va (Z.of_nat (n + m)) = seqZ va (Z.of_nat n) ++ seqZ (va + Z.of_nat n) (Z.of_nat m).
Proof. rewrite Nat2Z.inj_add, seqZ_app by lia. done. Qed.

Lemma mapM_app_option {X Y} (f : X → option Y) l1 l2 :
  mapM f (l1 ++ l2) = (r1 ← mapM f l1; r2 ← mapM f l2; Some (r1 ++ r2)).
Proof.
  induction l1 as [|x l1 IH]; simpl; [by destruct (mapM f l2)|]. destruct (f x); simpl; [|done].
  rewrite IH. destruct (mapM f l1); simpl; [|done]. by destruct (mapM f l2).
Qed.

Lemma mapM_cons_option {X Y} (f : X → option Y) x l :
  mapM f (x :: l) = (y ← f x; ys ← mapM f l; Some (y :: ys)).
Proof. done. Qed.

Lemma vread_split A ps va n m :
  vread A ps va (n + m) = (r1 ← vread A ps va n; r2 ← vread A ps (va + Z.of_nat n) m; Some (r1 ++ r2)).
Proof. unfold vread. by rewrite seqZ_split, mapM_app_option. Qed.

Section copy.
Context (kend : Z).
Implicit Types (s : pst) (A : aspace) (F : gset Z).

Lemma page_size s O l p x : Owned kend s O l → pages s !! p = Some x → length x = Z.to_nat PGSIZE.
Proof using Type. intros ([_ _ _ Hsz] & _) Hx. by eapply Hsz. Qed.

(** Reading inside one page. *)
Lemma vread_page A ps v off n x :
  vpage A ps v = Some x → length x = Z.to_nat PGSIZE → (off + n ≤ Z.to_nat PGSIZE)%nat →
  vread A ps (v * PGSIZE + Z.of_nat off) n = Some (slice x off n).
Proof using Type.
  intros Hv Hl. unfold vread. revert off. induction n as [|n IH]; intros off Hn; [done|].
  rewrite seqZ_cons, mapM_cons_option by lia. replace (Z.pred (Z.of_nat (S n))) with (Z.of_nat n) by lia.
  replace (Z.succ (v * PGSIZE + Z.of_nat off)) with (v * PGSIZE + Z.of_nat (S off)) by lia.
  assert ((v * PGSIZE + Z.of_nat off) / PGSIZE = v ∧ (v * PGSIZE + Z.of_nat off) mod PGSIZE = Z.of_nat off) as [E1 E2].
  { unfold PGSIZE in *. rewrite Z.div_add_l, Z.div_small by lia. split; [lia|].
    rewrite Z.add_comm, Z.mod_add by lia. apply Z.mod_small. lia. }
  destruct (lookup_lt_is_Some_2 x off) as [b Hb]; [unfold PGSIZE in *; lia|].
  assert (vbyte A ps (v * PGSIZE + Z.of_nat off) = Some b) as ->.
  { unfold vbyte. rewrite E1, E2, Hv. simpl. by rewrite Nat2Z.id. }
  rewrite IH by lia. simpl. f_equal. unfold slice. rewrite (drop_S _ _ _ Hb). done.
Qed.

Lemma vread_fault A ps v off n :
  vpage A ps v = None → (0 < n)%nat → (off < Z.to_nat PGSIZE)%nat →
  vread A ps (v * PGSIZE + Z.of_nat off) n = None.
Proof using Type.
  intros Hv Hn Ho. unfold vread. destruct n as [|n]; [lia|]. rewrite seqZ_cons, mapM_cons_option by lia.
  assert (vbyte A ps (v * PGSIZE + Z.of_nat off) = None) as ->; [|done]. unfold vbyte.
  replace ((v * PGSIZE + Z.of_nat off) / PGSIZE) with v; [by rewrite Hv|].
  unfold PGSIZE in *. rewrite Z.div_add_l, Z.div_small by lia. lia.
Qed.

(** An address is a page and an offset. *)
Lemma split_va va : 0 ≤ va →
  ∃ v off, va = v * PGSIZE + Z.of_nat off ∧ (off < Z.to_nat PGSIZE)%nat ∧ 0 ≤ v ∧ PGROUNDDOWN va = v * PGSIZE.
Proof using Type.
  intros Hva. exists (va / PGSIZE), (Z.to_nat (va mod PGSIZE)). unfold PGROUNDDOWN, PGSIZE.
  pose proof (Z.div_mod va 4096). pose proof (Z.mod_pos_bound va 4096). split_and!; lia.
Qed.

Lemma walkaddr_spec s root A F l v :
  VInv kend s root A F l → user_ok A F → 0 ≤ v →
  wp (walkaddr root (v * PGSIZE)) (λ r s', s' = s ∧
    match vpage A (pages s) v with
    | Some x => r ≠ 0 ∧ pages s !! r = Some x ∧ length x = Z.to_nat PGSIZE ∧ v < 2 ^ 26
    | None => r = 0
    end) s.
Proof using Type.
  intros Hv Hu Hv0. pose proof (vi_space _ _ _ _ _ _ Hv) as Hsp. unfold walkaddr, vpage. destruct (Z.leb_spec MAXVA (v * PGSIZE)) as [Hm|Hm].
  { apply wp_ret. split; [done|]. destruct (leaf A !! v) as [e|] eqn:E; [|done].
    apply (sp_leaf _ _ _ _ Hsp) in E as (_ & Hr & _). change MAXVA with (2 ^ 38) in Hm. unfold PGSIZE in *. lia. }
  assert (0 ≤ v * PGSIZE < MAXVA) as Hr by (unfold PGSIZE in *; lia).
  eapply wp_seq; [by apply (walk_look_spec kend _ s root A Hsp)|]. rewrite prefix0_page.
  intros r s' [-> [[-> Hnone]|[Hr0 Ha]]]; [rewrite Hnone; by apply wp_ret|].
  rewrite (proj2 (Z.eqb_neq r 0)) by done. apply wp_bind.
  apply (ld64_leaf kend _ _ _ _ _ _ Hsp (proj1 Hr) Ha). rewrite prefix0_page.
  destruct (leaf A !! v) as [e|] eqn:E; simpl; [|by apply wp_ret].
  pose proof (sp_leaf _ _ _ _ Hsp _ _ E) as (_ & Hvr & Hok). destruct (pte_ok_V e Hok) as [-> _]. cbn [negb].
  destruct (bit e PTE_U) eqn:EU; cbn [negb]; [|by apply wp_ret]. apply wp_ret. split; [done|].
  pose proof (uo_in _ _ Hu _ _ E EU) as HF. destruct (VInv_has _ _ _ _ _ _ _ Hv HF) as [x Hx]. rewrite Hx.
  pose proof (vi_owned _ _ _ _ _ _ Hv) as Ho. split_and!; [|done|by eapply page_size|lia].
  destruct Ho as (_ & Hpart & _). assert (page_ok kend (PTE2PA e)) as (_ & _ & ?) by (apply Hpart; right; set_solver). lia.
Qed.

Lemma copyin_spec s root A F l va n :
  VInv kend s root A F l → user_ok A F → 0 ≤ va →
  wp (copyin root va (Z.of_nat n)) (λ '(r, d) s', s' = s ∧
    match vread A (pages s) va n with
    | Some x => r = 0 ∧ d = x
    | None => r = -1
    end) s.
Proof using Type.
  intros Hv Hu Hva. unfold copyin. rewrite Nat2Z.id.
  apply (wp_while_loop (λ k '(a, len, d) s', s' = s ∧ 0 ≤ a ∧ len = Z.of_nat k ∧ (k ≤ n)%nat ∧ ((0 < k)%nat → a = va + Z.of_nat (n - k)) ∧
    vread A (pages s) va (n - k) = Some d) _ _ _ n); [|lia|].
  { split_and!; [done|lia|done|lia|lia|]. by rewrite Nat.sub_diag. }
  intros k [[a len] d] s1 (-> & Ha0 & -> & Hk & Ha & Hd). destruct (Z.eqb_spec (Z.of_nat k) 0) as [E|E].
  { apply wp_ret. assert (k = 0%nat) as -> by lia. rewrite Nat.sub_0_r in Hd. by rewrite Hd. }
  rewrite Ha in * by lia. clear Ha.
  destruct (split_va (va + Z.of_nat (n - k))) as (v & off & Ea & Hoff & Hv0 & ->); [lia|]. rewrite Ea in *.
  eapply wp_seq; [by apply (walkaddr_spec _ _ _ _ _ v Hv Hu)|]. intros r s' [-> Hr].
  destruct (vpage A (pages s) v) as [x|] eqn:Ex.
  - destruct Hr as (Hr0 & Hx & Hl & Hv26). rewrite (proj2 (Z.eqb_neq r 0)) by done. cbv zeta.
    replace (v * PGSIZE + Z.of_nat off - v * PGSIZE) with (Z.of_nat off) by lia. rewrite Nat2Z.id.
    set (m := Z.to_nat (Z.min (PGSIZE - Z.of_nat off) (Z.of_nat k))).
    assert (0 < m ≤ k ∧ off + m ≤ Z.to_nat PGSIZE)%nat as [Hm Hm2] by (unfold PGSIZE in *; lia).
    unfold page_read. apply wp_bind, wp_bind. eapply wp_page_get; [done|].
    rewrite (proj2 (Nat.ltb_ge _ _)) by lia. apply wp_ret, wp_ret. exists (k - m)%nat. split; [lia|].
    split_and!; [done|unfold u64; apply wrap_range; lia|lia|lia| |].
    + intros Hlt. unfold u64. rewrite wrap_small by (unfold PGSIZE in *; lia). unfold PGSIZE in *. lia.
    + replace (n - (k - m))%nat with ((n - k) + m)%nat by lia. rewrite vread_split, Hd. simpl. rewrite Ea.
      by rewrite (vread_page _ _ _ _ _ x).
  - rewrite Hr. cbn [Z.eqb]. apply wp_ret. split; [done|].
    pose proof (vread_split A (pages s) va (n - k) k) as Hs. replace (n - k + k)%nat with n in Hs by lia.
    rewrite Hs, Hd. simpl. rewrite Ea, vread_fault; [done|done|lia|done].
Qed.

(** ** Strings *)

(** The string at [va], with its terminating zero, if it is readable and ends
    within [n] bytes. *)
Fixpoint vstr A (ps : gmap Z page) (n : nat) (va : Z) : option (list Z) :=
  match n with
  | O => None
  | S n =>
      c ← vbyte A ps va;
      if c =? 0 then Some [0] else cons c <$> vstr A ps n (va + 1)
  end.

Lemma vstr_chunk A ps l a k :
  vread A ps a (length l) = Some l →
  vstr A ps (length l + k) a =
    let '(d, b) := str_chunk l in
    if b then Some d else app l <$> vstr A ps k (a + Z.of_nat (length l)).
Proof using Type.
  revert a. induction l as [|c l IH]; intros a Hl; simpl.
  - rewrite Z.add_0_r. by destruct (vstr A ps k a).
  - unfold vread in Hl. simpl length in Hl. rewrite seqZ_cons, mapM_cons_option in Hl by lia.
    destruct (vbyte A ps a) as [c'|]; simpl in Hl; [|done].
    replace (Z.pred (Z.of_nat (S (length l)))) with (Z.of_nat (length l)) in Hl by lia.
    destruct (mapM (vbyte A ps) (seqZ (Z.succ a) (Z.of_nat (length l)))) as [l'|] eqn:E; simpl in Hl; simplify_eq.
    simpl. destruct (c =? 0); [done|]. rewrite (IH (a + 1)) by exact E.
    destruct (str_chunk l) as [d b]. destruct b; [done|].
    replace (a + Z.of_nat (S (length l))) with (a + 1 + Z.of_nat (length l)) by lia. by destruct (vstr _ _ _ _).
Qed.

Lemma str_chunk_false l d : str_chunk l = (d, false) → d = l.
Proof using Type.
  revert d. induction l as [|c l IH]; intros d; simpl; [by intros [= <-]|].
  destruct (c =? 0); [done|]. destruct (str_chunk l) as [d' b]. intros [= <- ->]. f_equal. by apply IH.
Qed.

Lemma copyinstr_spec s root A F l va n :
  VInv kend s root A F l → user_ok A F → 0 ≤ va →
  wp (copyinstr root va (Z.of_nat n)) (λ '(r, d) s', s' = s ∧
    match vstr A (pages s) n va with
    | Some x => r = 0 ∧ d = x
    | None => r = -1
    end) s.
Proof using Type.
  intros Hv Hu Hva. unfold copyinstr. rewrite Nat2Z.id.
  apply (wp_while_loop (λ k '(a, len, d) s', s' = s ∧ 0 ≤ a ∧ len = Z.of_nat k ∧ (k ≤ n)%nat ∧
    vstr A (pages s) n va = app d <$> vstr A (pages s) k a) _ _ _ n); [|lia|].
  { split_and!; [done|lia|done|lia|]. by destruct (vstr _ _ _ _). }
  intros k [[a len] d] s1 (-> & Ha0 & -> & Hk & Hd). destruct (Z.eqb_spec (Z.of_nat k) 0) as [E|E].
  { apply wp_ret. assert (k = 0%nat) as -> by lia. by rewrite Hd. }
  destruct (split_va a Ha0) as (v & off & -> & Hoff & Hv0 & ->).
  eapply wp_seq; [by apply (walkaddr_spec _ _ _ _ _ v Hv Hu)|]. intros r s' [-> Hr].
  destruct (vpage A (pages s) v) as [x|] eqn:Ex.
  - destruct Hr as (Hr0 & Hx & Hl & Hv26). rewrite (proj2 (Z.eqb_neq r 0)) by done. cbv zeta.
    replace (v * PGSIZE + Z.of_nat off - v * PGSIZE) with (Z.of_nat off) by lia. rewrite Nat2Z.id.
    set (m := Z.to_nat (Z.min (PGSIZE - Z.of_nat off) (Z.of_nat k))).
    assert (0 < m ≤ k ∧ off + m ≤ Z.to_nat PGSIZE)%nat as [Hm Hm2] by (unfold PGSIZE in *; lia).
    unfold page_read. apply wp_bind, wp_bind. eapply wp_page_get; [done|].
    rewrite (proj2 (Nat.ltb_ge _ _)) by lia. apply wp_ret.
    pose proof (vread_page A (pages s) v off m x Ex Hl Hm2) as Hrd.
    assert (length (slice x off m) = m) as Hls by (apply length_slice; lia).
    pose proof (vstr_chunk A (pages s) (slice x off m) (v * PGSIZE + Z.of_nat off) (k - m)) as Hch.
    rewrite Hls in Hch. specialize (Hch Hrd). replace (m + (k - m))%nat with k in Hch by lia.
    destruct (str_chunk (slice x off m)) as [d' b] eqn:Es. destruct b; apply wp_ret.
    + split; [done|]. by rewrite Hd, Hch.
    + apply str_chunk_false in Es as ->. exists (k - m)%nat. split; [lia|].
      split_and!; [done|unfold u64; apply wrap_range; lia|lia|lia|]. rewrite Hd, Hch, <-option_fmap_compose.
      destruct (decide (k - m = 0)%nat) as [Ek|Ek]; [by rewrite Ek|].
      unfold u64. rewrite wrap_small by (unfold PGSIZE in *; lia).
      replace (v * PGSIZE + Z.of_nat off + Z.of_nat m) with (v * PGSIZE + PGSIZE) by (unfold PGSIZE in *; lia).
      destruct (vstr A (pages s) (k - m) (v * PGSIZE + PGSIZE)); simpl; [by rewrite app_assoc|done].
  - rewrite Hr. cbn [Z.eqb]. apply wp_ret. split; [done|]. rewrite Hd. destruct k as [|k]; [done|]. cbn [vstr].
    pose proof (vread_fault A (pages s) v off 1 Ex ltac:(lia) Hoff) as Hf. unfold vread in Hf.
    rewrite seqZ_cons, mapM_cons_option in Hf by lia. by destruct (vbyte A (pages s) _).
Qed.

(** ** Writing *)
Definition written A (ps ps' : gmap Z page) (va : Z) (l : list Z) : Prop :=
  ∀ a, vbyte A ps' a = if decide (va ≤ a < va + Z.of_nat (length l)) then l !! Z.to_nat (a - va) else vbyte A ps a.

Lemma written_page A F ps v off e x l :
  user_ok A F → leaf A !! v = Some e → bit e PTE_U = true → ps !! PTE2PA e = Some x →
  length x = Z.to_nat PGSIZE → (off + length l ≤ Z.to_nat PGSIZE)%nat →
  written A ps (<[PTE2PA e := splice x off l]> ps) (v * PGSIZE + Z.of_nat off) l.
Proof using Type.
  intros Hu He HU Hx Hlx Hl a. unfold vbyte, vpage.
  assert (a = a / PGSIZE * PGSIZE + a mod PGSIZE ∧ 0 ≤ a mod PGSIZE < PGSIZE) as [Ea Hm].
  { unfold PGSIZE. pose proof (Z.div_mod a 4096). pose proof (Z.mod_pos_bound a 4096). lia. }
  destruct (decide (a / PGSIZE = v)) as [Ev|Hne].
  - rewrite Ev in *. rewrite He. simpl. rewrite HU, lookup_insert_eq, Hx. simpl. rewrite lookup_splice by (unfold PGSIZE in *; lia).
    destruct (decide (v * PGSIZE + Z.of_nat off ≤ a < _)).
    + rewrite decide_True by (unfold PGSIZE in *; lia). f_equal. unfold PGSIZE in *. lia.
    + rewrite decide_False by (unfold PGSIZE in *; lia). done.
  - rewrite decide_False by (unfold PGSIZE in *; nia).
    destruct (leaf A !! (a / PGSIZE)) as [e'|] eqn:E'; simpl; [|done]. destruct (bit e' PTE_U) eqn:EU; [|done].
    rewrite lookup_insert_ne; [done|]. intros E. apply Hne. by eapply (uo_inj _ _ Hu).
Qed.

Lemma written_app A ps ps' ps'' va l1 l2 :
  written A ps ps' va l1 → written A ps' ps'' (va + Z.of_nat (length l1)) l2 → written A ps ps'' va (l1 ++ l2).
Proof using Type.
  intros H1 H2 a. rewrite H2, H1, length_app. destruct (decide (va + Z.of_nat (length l1) ≤ a < _)).
  - rewrite decide_True by lia. rewrite lookup_app_r by lia. f_equal. lia.
  - destruct (decide (va ≤ a < va + Z.of_nat (length l1))).
    + rewrite decide_True by lia. by rewrite lookup_app_l by lia.
    + by rewrite decide_False by lia.
Qed.

(** Only pages that the user may write have changed. *)
Definition only_user A (s s' : pst) : Prop :=
  ∀ q, (∀ v e, leaf A !! v = Some e → bit e PTE_U && bit e PTE_W = true → PTE2PA e ≠ q) →
    pages s' !! q = pages s !! q.

Record copied s root A F l va src (n : nat) (s' : pst) : Prop := {
  co_inv : VInv kend s' root A F l;
  co_written : written A (pages s) (pages s') va (take n src);
  co_writable i : (i < n)%nat → uwritable A (va + Z.of_nat i) = true;
  co_only : only_user A s s';
}.

Definition copyout_post s root A F l va src (r : Z) (s' : pst) : Prop :=
  ∃ n, copied s root A F l va src n s' ∧
    ((r = 0 ∧ n = length src) ∨ (r = -1 ∧ (n < length src)%nat ∧ uwritable A (va + Z.of_nat n) = false)).

Lemma page_div v off : (off < Z.to_nat PGSIZE)%nat → (v * PGSIZE + Z.of_nat off) / PGSIZE = v.
Proof using Type. intros H. unfold PGSIZE in *. rewrite Z.div_add_l, Z.div_small by lia. lia. Qed.

Lemma copied_chunk s root A F l va src n s1 v off e m x :
  copied s root A F l va src n s1 → user_ok A F → va + Z.of_nat n = v * PGSIZE + Z.of_nat off →
  leaf A !! v = Some e → bit e PTE_U = true → bit e PTE_W = true → pages s1 !! PTE2PA e = Some x →
  (off + m ≤ Z.to_nat PGSIZE)%nat → (n + m ≤ length src)%nat →
  copied s root A F l va src (n + m)
    (Pst (<[PTE2PA e := splice x off (take m (drop n src))]> (pages s1)) (freelist s1)).
Proof using Type.
  intros [Hv Hw Hwr Hon] Hu Ea He HU HW Hx Hm Hn. pose proof (page_size _ _ _ _ _ (vi_owned _ _ _ _ _ _ Hv) Hx) as Hlx.
  assert (length (take m (drop n src)) = m) as Hlm by (rewrite length_take, length_drop; lia).
  split; cbn [pages].
  - apply VInv_write; [done|by eapply uo_in|]. rewrite length_splice; lia.
  - rewrite <-take_take_drop. eapply written_app; [done|]. rewrite length_take, Nat.min_l, Ea by lia.
    eapply written_page; [done|done|done|done|done|lia].
  - intros i Hi. destruct (decide (i < n)%nat); [by apply Hwr|]. unfold uwritable.
    replace (va + Z.of_nat i) with (v * PGSIZE + Z.of_nat (off + (i - n))) by lia. rewrite page_div by lia.
    by rewrite He, HU, HW.
  - intros q Hq. cbn [pages]. rewrite lookup_insert_ne; [by apply Hon|]. apply (Hq v e He). by rewrite HU, HW.
Qed.

Lemma copyout_spec s root A F l va src :
  VInv kend s root A F l → user_ok A F → 0 ≤ va →
  wp (copyout root va src) (copyout_post s root A F l va src) s.
Proof using Type.
  intros Hv Hu Hva. unfold copyout.
  apply (wp_while_loop (λ k '(a, r) s', (k ≤ length src)%nat ∧ r = drop (length src - k) src ∧ 0 ≤ a ∧
    ((0 < k)%nat → a = va + Z.of_nat (length src - k)) ∧
    copied s root A F l va src (length src - k) s') _ _ _ (length src)); [|lia|].
  { rewrite Nat.sub_diag. split_and!; [lia|done|lia|lia|]. split; [done| |lia|done].
    intros a. simpl. by rewrite decide_False by lia. }
  intros k [a r] s1 (Hk & -> & Ha0 & Ha & Hc). set (n := (length src - k)%nat) in *.
  assert (length (drop n src) = k) as Hld by (rewrite length_drop; lia). rewrite Hld.
  destruct (Z.eqb_spec (Z.of_nat k) 0) as [E|E].
  { apply wp_ret. exists n. split; [done|]. left. split; [done|lia]. }
  rewrite Ha in * by lia. clear Ha. destruct (split_va (va + Z.of_nat n) ltac:(lia)) as (v & off & Ea & Hoff & Hv0 & ->).
  pose proof (co_inv _ _ _ _ _ _ _ _ _ Hc) as Hv1. pose proof (vi_space _ _ _ _ _ _ Hv1) as Hsp.
  assert (∀ s', s' = s1 → uwritable A (va + Z.of_nat n) = false → copyout_post s root A F l va src (-1) s') as Hfail.
  { intros s' -> Hw. exists n. split; [done|]. right. split_and!; [done|lia|done]. }
  assert (uwritable A (va + Z.of_nat n) = match leaf A !! v with Some e => bit e PTE_U && bit e PTE_W | None => false end) as Euw.
  { unfold uwritable. by rewrite Ea, page_div. }
  destruct (Z.leb_spec MAXVA (v * PGSIZE)) as [Hmx|Hmx].
  { apply wp_ret. apply Hfail; [done|]. rewrite Euw. destruct (leaf A !! v) as [e|] eqn:El; [|done].
    pose proof (pte_ok_leaf kend s1 root _ _ _ Hsp El) as [_ ?]; lia. }
  assert (0 ≤ v * PGSIZE < MAXVA) as Hr by (unfold PGSIZE in *; lia).
  eapply wp_seq; [by apply (walk_look_spec kend _ s1 root A Hsp)|]. rewrite prefix0_page.
  intros q s' [-> [[-> Hnone]|[Hr0 Hpa]]]; [apply wp_ret, Hfail; [done|by rewrite Euw, Hnone]|].
  rewrite (proj2 (Z.eqb_neq q 0)) by done. apply wp_bind.
  apply (ld64_leaf kend _ _ _ _ _ _ Hsp (proj1 Hr) Hpa). rewrite prefix0_page.
  destruct (leaf A !! v) as [e|] eqn:El; [|apply wp_ret, Hfail; [done|by rewrite Euw]]. simpl default.
  pose proof (sp_leaf _ _ _ _ Hsp _ _ El) as (_ & _ & Hok). destruct (pte_ok_V e Hok) as [-> _]. cbn [negb orb].
  destruct (bit e PTE_U) eqn:EU; [|apply wp_ret, Hfail; done]. destruct (bit e PTE_W) eqn:EW; [|apply wp_ret, Hfail; done].
  cbn [negb orb]. cbv zeta. destruct (VInv_has _ _ _ _ _ _ _ Hv1 (uo_in _ _ Hu _ _ El EU)) as [x Hx].
  rewrite Ea. replace (v * PGSIZE + Z.of_nat off - v * PGSIZE) with (Z.of_nat off) by lia. rewrite Nat2Z.id.
  set (m := Z.to_nat (Z.min (PGSIZE - Z.of_nat off) (Z.of_nat k))).
  assert (0 < m ≤ k ∧ off + m ≤ Z.to_nat PGSIZE)%nat as [Hm Hm2] by (unfold PGSIZE in *; lia).
  unfold page_write. apply wp_bind, wp_bind. eapply wp_page_get; [done|].
  pose proof (page_size _ _ _ _ _ (vi_owned _ _ _ _ _ _ Hv1) Hx) as Hlx.
  rewrite (proj2 (Nat.ltb_ge _ _)) by (rewrite length_take; lia). apply wp_page_put; [by eexists|].
  apply wp_ret. exists (k - m)%nat. split; [lia|]. replace (length src - (k - m))%nat with (n + m)%nat by lia.
  split_and!; [lia|by rewrite drop_drop|unfold u64; apply wrap_range; lia| |by eapply copied_chunk; try done; lia].
  intros Hlt. unfold u64. change MAXVA with (2 ^ 38) in Hr. rewrite wrap_small by (unfold PGSIZE in *; lia). unfold PGSIZE in *. lia.
Qed.
End copy.

Lemma written_vread A ps ps' va l : written A ps ps' va l → vread A ps' va (length l) = Some l.
Proof.
  intros Hw. unfold vread. apply mapM_Some_2, Forall2_same_length_lookup_2.
  { rewrite length_seqZ. lia. }
  intros i x y Hx Hy. apply lookup_seqZ in Hx as [-> Hi]. rewrite Hw, decide_True by lia.
  by replace (Z.to_nat (va + Z.of_nat i - va)) with i by lia.
Qed.

Lemma vread_vstr A ps va l k :
  Forall (λ c, c ≠ 0) l → vread A ps va (length (l ++ [0])) = Some (l ++ [0]) →
  vstr A ps (length (l ++ [0]) + k) va = Some (l ++ [0]).
Proof.
  intros Hl Hr. rewrite vstr_chunk by done.
  assert (str_chunk (l ++ [0]) = (l ++ [0], true)) as ->; [|done]. clear Hr.
  induction Hl as [|c l Hc Hl IH]; [done|]. simpl. rewrite (proj2 (Z.eqb_neq c 0)) by done. by rewrite IH.
Qed.

Definition writable_range (A : aspace) (va : Z) (n : nat) : bool :=
  forallb (λ i, uwritable A (va + Z.of_nat i)) (seq 0 n).

Lemma writable_range_true A va n :
  writable_range A va n = true ↔ ∀ i, (i < n)%nat → uwritable A (va + Z.of_nat i) = true.
Proof. unfold writable_range. rewrite forallb_forall. setoid_rewrite in_seq. naive_solver lia. Qed.

(** * Properties *)

(** C24. What the kernel copies out a process reads back: [copyout] followed by
    [copyin] of the same range returns the bytes, exactly when every byte of
    the range is mapped writable for the user, and fails with -1 otherwise.
    No page is changed but those the user may write: neither page tables, nor
    the memory of the kernel or of another process. *)
Theorem copyout_copyin kend s root A F l va src :
  VInv kend s root A F l → user_ok A F → 0 ≤ va →
  wp (r ← copyout root va src;
      if r =? 0 then copyin root va (Z.of_nat (length src)) else mret (r, []))
    (λ '(r, d) s', only_user A s s' ∧ VInv kend s' root A F l ∧
      if writable_range A va (length src) then r = 0 ∧ d = src else r = -1) s.
Proof.
  intros Hv Hu Hva. eapply wp_seq; [by apply (copyout_spec kend s root A F l va src Hv Hu)|].
  intros r s1 (n & [Hv1 Hw Hwr Hon] & [[-> ->]|(-> & Hn & Hf)]); cbn [Z.eqb].
  - eapply wp_mono; [by apply (copyin_spec kend s1 root A F l va (length src) Hv1 Hu)|]. intros [r d] s2 [-> Hr].
    rewrite take_ge in Hw by lia. rewrite (written_vread _ _ _ _ _ Hw) in Hr. by rewrite (proj2 (writable_range_true _ _ _)).
  - apply wp_ret. destruct (writable_range A va (length src)) eqn:E; [|done].
    rewrite writable_range_true in E. by rewrite E in Hf.
Qed.

(** Strings cross the boundary whole: a string without zero bytes, copied
    out with its terminator, is read back by [copyinstr] with any limit that
    leaves room for it. *)
Theorem copyout_copyinstr kend s root A F l va str k :
  VInv kend s root A F l → user_ok A F → 0 ≤ va → Forall (λ c, c ≠ 0) str →
  writable_range A va (length (str ++ [0])) = true →
  wp (r ← copyout root va (str ++ [0]); copyinstr root va (Z.of_nat (length (str ++ [0]) + k)))
    (λ '(r, d) _, r = 0 ∧ d = str ++ [0]) s.
Proof.
  intros Hv Hu Hva Hs Hall. rewrite writable_range_true in Hall. eapply wp_seq; [by apply (copyout_spec kend s root A F l va _ Hv Hu)|].
  intros r s1 (n & [Hv1 Hw Hwr Hon] & [[-> ->]|(-> & Hn & Hf)]); [|rewrite Hall in Hf by done; done].
  eapply wp_mono; [by apply (copyinstr_spec kend s1 root A F l va _ Hv1 Hu)|]. intros [r d] s2 [-> Hr].
  rewrite take_ge in Hw by lia. by rewrite vread_vstr in Hr by (done || by eapply written_vread).
Qed.

(** A process with two pages of memory. *)
Lemma copy_demo : ∃ s root A F l, VInv ram_end s root A F l ∧ user_ok A F ∧
  ∀ i, Z.of_nat i < 8192 → uwritable A (Z.of_nat i) = true.
Proof.
  destruct ram16_space as (s & root & l & Hv & Hl).
  destruct (proj1 (wp_ok _ _ _) (uvmalloc_spec ram_end s root _ ∅ l 0 8192 PTE_W Hv ltac:(lia) ltac:(done)
    ltac:(split; [vm_compute; split; congruence|reflexivity]) ltac:(done))) as (r & s1 & _ & Hp).
  change (Z.to_nat (npg 8192 - npg 0)) with 2%nat in Hp. change (npg 0) with 0 in Hp.
  destruct Hp as [(_ & E & A1 & l1 & HE & Hfl & [H1 H2 H3 H4 H5 H6] & Hc)|(_ & _ & Hc)]; [|lia].
  assert (∀ v e, leaf A1 !! v = Some e → ∃ i, v = Z.of_nat i ∧ E !! i = Some e) as Hrun.
  { intros v e He. rewrite H2, lookup_map_list in He. case_decide; [|by cbn in He; rewrite lookup_empty in He].
    exists (Z.to_nat (v - 0)). split; [lia|done]. }
  exists s1, root, A1, (list_to_set (frames E) ∪ ∅), l1. split; [exact H1|]. split; [split|].
  - intros v e He _. destruct (Hrun v e He) as (i & _ & Hi). apply elem_of_union. left. apply elem_of_list_to_set.
    unfold frames. apply list_elem_of_fmap. exists e. split; [done|]. by eapply list_elem_of_lookup_2.
  - intros v v' e e' He He' _ _ Heq. destruct (Hrun v e He) as (i & -> & Hi), (Hrun v' e' He') as (j & -> & Hj).
    f_equal. eapply NoDup_lookup; [exact H3|unfold frames; rewrite list_lookup_fmap, Hi; reflexivity|].
    unfold frames. rewrite list_lookup_fmap, Hj. simpl. by rewrite Heq.
  - intros i Hi. unfold uwritable. rewrite H2, lookup_map_list, HE. unfold PGSIZE.
    assert (0 ≤ Z.of_nat i / 4096 < 2) as Hd by (split; [apply Z.div_pos; lia|apply Z.div_lt_upper_bound; lia]).
    rewrite decide_True by (simpl; lia). destruct (lookup_lt_is_Some_2 E (Z.to_nat (Z.of_nat i / 4096 - 0))) as [e He]; [lia|].
    rewrite He. rewrite Forall_lookup in Hfl. specialize (Hfl _ _ He).
    assert (∀ g, 0 ≤ g < 1024 → bit e g = bit (PTE_FLAGS e) g) as Hb.
    { intros g Hg. unfold bit, PTE_FLAGS. rewrite <-Z.land_assoc. do 3 f_equal. change 0x3FF with (Z.ones 10).
      rewrite Z.land_comm, Z.land_ones, Z.mod_small by lia. done. }
    rewrite !Hb by (unfold PTE_U, PTE_W; lia). by rewrite Hfl.
Qed.

Lemma copyout_copyin_witness : ∃ s root, wp
  (r ← copyout root 4090 [1; 2; 3; 4; 5; 6; 7; 8; 9];
   if r =? 0 then copyin root 4090 9 else mret (r, [])) (λ '(r, d) _, r = 0 ∧ d = [1; 2; 3; 4; 5; 6; 7; 8; 9]) s.
Proof.
  destruct copy_demo as (s & root & A & F & l & Hv & Hu & Hw). exists s, root.
  eapply wp_mono; [apply (copyout_copyin ram_end s root A F l 4090 [1; 2; 3; 4; 5; 6; 7; 8; 9] Hv Hu); lia|].
  intros [r d] s' (_ & _ & Hr). rewrite (proj2 (writable_range_true _ _ _)) in Hr; [exact Hr|].
  intros i Hi. simpl in Hi. rewrite <-(Z2Nat.id (4090 + Z.of_nat i)) by lia. apply Hw. lia.
Defined.

Lemma copyout_copyinstr_witness : ∃ s root, wp
  (r ← copyout root 4094 [104; 101; 108; 108; 111; 0]; copyinstr root 4094 10)
  (λ '(r, d) _, r = 0 ∧ d = [104; 101; 108; 108; 111; 0]) s.
Proof.
  destruct copy_demo as (s & root & A & F & l & Hv & Hu & Hw). exists s, root.
  apply (copyout_copyinstr ram_end s root A F l 4094 [104; 101; 108; 108; 111] 4 Hv Hu).
  - lia.
  - repeat constructor; discriminate.
  - apply writable_range_true. intros i Hi. simpl in Hi. rewrite <-(Z2Nat.id (4094 + Z.of_nat i)) by lia. apply Hw. lia.
Defined.
