(* ===== verification/KvmSpec.v ===== *)
(** * The kernel's address space ([kvmmake] in [kernel/vm.c])

    What the hardware finds in the page table that [kvmmake] builds: the devices,
    the text and the data of the kernel and all of physical memory at their own
    addresses, the trampoline, and one stack for each process between unmapped
    pages.  [kvmmake] succeeds when enough pages are free, and no physical page can
    be both written and executed. *)

From S2P Require Import Prelude Word Param Kalloc Vm VmSpec.

(** ** The translation of the hardware

    Sv39, as the privileged architecture defines it: the entry that translates
    [va] from the table [table] of level [n] down, with the level it is at. *)
Fixpoint mmu (ps : gmap Z page) (n : nat) (table va : Z) : option (nat * Z) :=
  match ps !! table with
  | None => None
  | Some x =>
      let e := get64 x (word_off (PX (Z.of_nat n) va)) in
      if negb (bit e PTE_V) then None
      else if bit e (Z.lor PTE_R (Z.lor PTE_W PTE_X)) then Some (n, e)
      else match n with O => None | S n => mmu ps n (PTE2PA e) va end
  end.

Section mmu.
Context (kend : Z) (ps : gmap Z page) (root : Z) (A : aspace).
Hypothesis Hsp : Space kend ps root A.

Lemma mmu_level n p va : 0 ≤ va → (n ≤ 2)%nat → tabs A !! (n, prefix (S n) va) = Some p →
  mmu ps n p va = pair 0%nat <$> leaf A !! prefix 0 va.
Proof using Hsp.
  intros Hva. revert p. induction n as [|n IH]; intros p Hn Hp; destruct (sp_page _ _ _ _ Hsp _ _ _ Hp) as (x & Hx & _ & He);
    cbn [mmu]; rewrite Hx, He, prefix_key by (done || apply PX_range); cbn [entry].
  - destruct (leaf A !! prefix 0 va) as [e|] eqn:El; [|done]. change (default 0 (Some e)) with e.
    apply (sp_leaf _ _ _ _ Hsp) in El as (_ & _ & pa & f & -> & _ & _ & Hf & HV & HX). rewrite !bit_mkpte by (done || lia).
    by rewrite HV, HX.
  - destruct (tabs A !! (n, prefix (S n) va)) as [q|] eqn:Et.
    + destruct (sp_key _ _ _ _ Hsp _ _ _ Et) as (_ & _ & _ & Hok). destruct (page_ok_range _ _ Hok) as [Hal Hr].
      rewrite !bit_mkpte by (unfold PTE_V; done || lia). rewrite PTE2PA_mkpte by (unfold PTE_V; done || lia). apply IH; [lia|done].
    + cbn. destruct (leaf A !! prefix 0 va) as [e|] eqn:El; [|done]. exfalso.
      apply (sp_leaf _ _ _ _ Hsp) in El as ([q0 Hq0] & _). rewrite <-(prefix_S 0) in Hq0.
      destruct n as [|[|]]; [congruence| |lia]. apply (sp_parent _ _ _ _ Hsp) in Hq0 as [q1 Hq1]; [|lia].
      rewrite <-prefix_S in Hq1. congruence.
Qed.

Lemma mmu_space va : 0 ≤ va < MAXVA → mmu ps 2 root va = pair 0%nat <$> leaf A !! prefix 0 va.
Proof using Hsp.
  intros Hva. apply mmu_level; [lia|lia|]. rewrite prefix_top by done. apply (sp_root _ _ _ _ Hsp).
Qed.
End mmu.

(** ** What is mapped *)
Definition RW : Z := Z.lor (Z.lor PTE_R PTE_W) PTE_V.
Definition RX : Z := Z.lor (Z.lor PTE_R PTE_X) PTE_V.
Definition page_of (a : Z) : Z := a / PGSIZE.

(** The stack of process [i] is two pages below that of process [i - 1]. *)
Definition stack_page (stacks : list Z) (v : Z) : option Z :=
  let d := page_of TRAMPOLINE - v in
  if (0 <? d) && Z.even d then stacks !! Z.to_nat (d / 2 - 1) else None.

(** The entry of page [v]; [stacks] are the pages of the stacks. *)
Definition kernel_page (etext trampoline : Z) (stacks : list Z) (v : Z) : option Z :=
  if bool_decide (page_of PLIC ≤ v < page_of (VIRTIO0 + PGSIZE)) then Some (mkpte (v * PGSIZE) RW)
  else if bool_decide (page_of KERNBASE ≤ v < page_of etext) then Some (mkpte (v * PGSIZE) RX)
  else if bool_decide (page_of etext ≤ v < page_of PHYSTOP) then Some (mkpte (v * PGSIZE) RW)
  else if bool_decide (v = page_of TRAMPOLINE) then Some (mkpte trampoline RX)
  else (λ pa, mkpte pa RW) <$> stack_page stacks v.

Lemma stack_page_snoc stacks q v : stack_page (stacks ++ [q]) v =
  if decide (v = page_of TRAMPOLINE - 2 * (Z.of_nat (length stacks) + 1)) then Some q else stack_page stacks v.
Proof.
  unfold stack_page. set (T := page_of TRAMPOLINE). case_decide as Hd.
  - subst v. replace (T - (T - 2 * (Z.of_nat (length stacks) + 1))) with (2 * (Z.of_nat (length stacks) + 1)) by lia.
    rewrite (proj2 (Z.ltb_lt _ _)) by lia. rewrite Z.even_mul. cbn [Z.even orb andb].
    rewrite (Z.mul_comm 2), Z.div_mul by lia. replace (Z.to_nat (Z.of_nat (length stacks) + 1 - 1)) with (length stacks) by lia.
    by apply list_lookup_middle.
  - case_match eqn:E; [|done]. apply andb_prop in E as [E1%Z.ltb_lt E2%Z.even_spec]. destruct E2 as [d E2].
    rewrite E2 in *. rewrite (Z.mul_comm 2), Z.div_mul by lia.
    destruct (decide (Z.to_nat (d - 1) < length stacks)%nat); [by rewrite lookup_app_l|].
    rewrite lookup_app_r, !lookup_ge_None_2 by (simpl; lia). done.
Qed.

(** The tables that the mappings need: the root, three tables below it and 98 of
    the last level. *)
Definition kernel_tables : list (nat * Z) :=
  (2%nat, 0) :: ((1%nat,.) <$> [0; 2; 255]) ++ ((0%nat,.) <$> (seqZ 96 33 ++ seqZ 1024 64 ++ [131071])).
Definition needed (k : Z) : Prop := 0xc000 ≤ k < 0x10002 ∨ 0x80000 ≤ k < 0x88000 ∨ 2 ^ 26 - 512 ≤ k < 2 ^ 26.

Lemma needed_tables k a : needed k → on_path k a → a ∈ kernel_tables.
Proof.
  intros Hk Ha. unfold kernel_tables. rewrite elem_of_cons, elem_of_app, !list_elem_of_fmap.
  assert (k / 512 ∈ seqZ 96 33 ++ seqZ 1024 64 ++ [131071] ∧ k / 512 / 512 ∈ [0; 2; 255]) as [H0 H1].
  { rewrite !elem_of_app, !elem_of_seqZ, !elem_of_cons, elem_of_nil. unfold needed in Hk.
    Z.to_euclidean_division_equations. lia. }
  destruct Ha as [-> | ->]; eauto.
Qed.

(** ** Counting pages *)
Lemma Owned_count kend s O l s' O' l' : Owned kend s O l → Owned kend s' O' l' → (length l + size O = length l' + size O')%nat.
Proof.
  intros ([_ Hn _ _] & Hp & Hd & _) ([_ Hn' _ _] & Hp' & Hd' & _).
  rewrite <-(size_list_to_set (C := gset Z) l), <-(size_list_to_set (C := gset Z) l') by done.
  rewrite <-!size_union by set_solver. f_equal. apply set_eq. intros p. rewrite !elem_of_union, !elem_of_list_to_set. by rewrite <-Hp, Hp'.
Qed.
Lemma size_of_list (l : list Z) : (size (list_to_set l : gset Z) ≤ length l)%nat.
Proof.
  induction l as [|p l IH]; [done|]. cbn [list_to_set length]. rewrite size_union_alt, size_singleton.
  pose proof (subseteq_size (list_to_set l ∖ {[p]} : gset Z) (list_to_set l) ltac:(set_solver)). lia.
Qed.
Lemma tables_size A (L : list (nat * Z)) : (∀ a, is_Some (tabs A !! a) → a ∈ L) → (size (tables A) ≤ length L)%nat.
Proof.
  intros HL. rewrite <-(length_fmap (λ a, default 0 (tabs A !! a)) L). etrans; [|apply size_of_list].
  apply subseteq_size. intros p [a Ha]%elem_of_tables. apply elem_of_list_to_set, list_elem_of_fmap. exists a.
  rewrite Ha. split; [done|]. apply HL. by rewrite Ha.
Qed.

(** The mappings one after the other give [kernel_page]. *)
Lemma kernel_page_nil trampoline e (n3 n4 n5 : nat) v :
  0x80000 < e < 0x88000 → Z.of_nat n3 = 0x4000 → Z.of_nat n4 = e - 0x80000 → Z.of_nat n5 = 0x88000 - e →
  (if decide (2 ^ 26 - 1 ≤ v < 2 ^ 26 - 1 + Z.of_nat 1) then Some (mkpte (trampoline + (v - (2 ^ 26 - 1)) * PGSIZE) RX)
   else if decide (e ≤ v < e + Z.of_nat n5) then Some (mkpte (e * 4096 + (v - e) * PGSIZE) RW)
   else if decide (0x80000 ≤ v < 0x80000 + Z.of_nat n4) then Some (mkpte (KERNBASE + (v - 0x80000) * PGSIZE) RX)
   else if decide (0xc000 ≤ v < 0xc000 + Z.of_nat n3) then Some (mkpte (PLIC + (v - 0xc000) * PGSIZE) RW)
   else if decide (0x10001 ≤ v < 0x10001 + Z.of_nat 1) then Some (mkpte (VIRTIO0 + (v - 0x10001) * PGSIZE) RW)
   else if decide (0x10000 ≤ v < 0x10000 + Z.of_nat 1) then Some (mkpte (UART0 + (v - 0x10000) * PGSIZE) RW)
   else (∅ : gmap Z Z) !! v) = kernel_page (e * 4096) trampoline [] v.
Proof.
  intros He H3 H4 H5. unfold kernel_page, stack_page, page_of. rewrite lookup_nil, lookup_empty. unfold PGSIZE. rewrite Z.div_mul by done.
  change (PLIC / 4096) with 0xc000. change ((VIRTIO0 + 4096) / 4096) with 0x10002. change (KERNBASE / 4096) with 0x80000.
  change (PHYSTOP / 4096) with 0x88000. change (TRAMPOLINE / 4096) with (2 ^ 26 - 1). unfold UART0, VIRTIO0, PLIC, KERNBASE.
  repeat (case_decide; [repeat case_bool_decide; first [lia|do 2 f_equal; lia]|]).
  repeat case_bool_decide; first [lia|by destruct (_ && _)].
Qed.

(** What the linker script does: the text of the kernel, which contains the page of
    the trampoline, ends at the page boundary [etext], before the data. *)
Record linked (kend etext trampoline : Z) : Prop := {
  lk_etext : etext mod PGSIZE = 0;
  lk_text : KERNBASE < etext ≤ kend;
  lk_end : kend < PHYSTOP;
  lk_tramp : trampoline mod PGSIZE = 0;
  lk_tramp_text : KERNBASE ≤ trampoline < etext;
}.

Section layout.
Context (kend etext trampoline : Z).
Hypothesis HL : linked kend etext trampoline.
(** The page of the next stack. *)
Definition next_stack (stacks : list Z) : Z := 2 ^ 26 - 1 - 2 * (Z.of_nat (length stacks) + 1).

Lemma etext_page : etext = page_of etext * PGSIZE ∧ 0x80000 < page_of etext < 0x88000.
Proof using HL.
  destruct HL as [Het Hetr Hkend _ _]. pose proof (Z.div_mod etext PGSIZE ltac:(done)) as E. rewrite Het in E. unfold page_of. unfold PHYSTOP, KERNBASE, PGSIZE in *. lia.
Qed.
Lemma kernel_page_high stacks v : 0x88000 ≤ v → v ≠ 2 ^ 26 - 1 →
  kernel_page etext trampoline stacks v = (λ pa, mkpte pa RW) <$> stack_page stacks v.
Proof using HL.
  intros Hv Hne. pose proof etext_page as [_ He]. unfold kernel_page. change (page_of PLIC) with 0xc000. change (page_of (VIRTIO0 + PGSIZE)) with 0x10002.
  change (page_of KERNBASE) with 0x80000. change (page_of PHYSTOP) with 0x88000. change (page_of TRAMPOLINE) with (2 ^ 26 - 1).
  by rewrite !bool_decide_false by lia.
Qed.
Lemma kernel_page_snoc stacks q v : (length stacks < 64)%nat → kernel_page etext trampoline (stacks ++ [q]) v =
  if decide (v = next_stack stacks) then Some (mkpte q RW) else kernel_page etext trampoline stacks v.
Proof using HL.
  intros Hlen. case_decide as Hd.
  - rewrite kernel_page_high by (unfold next_stack in Hd; lia). by rewrite stack_page_snoc, decide_True.
  - unfold kernel_page. repeat case_bool_decide; try done. by rewrite stack_page_snoc, decide_False.
Qed.
Lemma next_stack_free stacks : (length stacks < 64)%nat → kernel_page etext trampoline stacks (next_stack stacks) = None.
Proof using HL.
  intros Hlen. rewrite kernel_page_high by (unfold next_stack; lia). unfold stack_page, next_stack. change (page_of TRAMPOLINE) with (2 ^ 26 - 1).
  rewrite lookup_ge_None_2; [by case_match|]. Z.to_euclidean_division_equations. lia.
Qed.
End layout.

(** ** [kvmmap] *)
Section kvm.
Context (kend : Z) (s0 : pst) (F0 : gset Z) (l0 : list Z).
Hypotheses (H0 : Owned kend s0 F0 l0) (Hl0 : (166 < length l0)%nat).

(** The table so far, with [j] pages given to stacks. *)
Record building (j : nat) (s : pst) (root : Z) (A : aspace) (F : gset Z) (l : list Z) : Prop := {
  bd_inv : VInv kend s root A F l;
  bd_tabs a : is_Some (tabs A !! a) → a ∈ kernel_tables;
  bd_size : (size F ≤ size F0 + j)%nat;
  bd_frame : frame F0 s0 s;
  bd_sub : F0 ⊆ F;
}.

Lemma building_count j s root A F l : building j s root A F l → (length l0 ≤ length l + 102 + j)%nat.
Proof using H0.
  clear Hl0. intros [[Ho Hd _] Ht HF _ _]. pose proof (Owned_count _ _ _ _ _ _ _ H0 Ho) as Hc. rewrite size_union in Hc by done.
  pose proof (tables_size _ _ Ht) as Hs. change (length kernel_tables) with 102%nat in Hs. lia.
Qed.
Lemma building_free j s root A F l : building j s root A F l → (j ≤ 64)%nat → l ≠ [].
Proof using H0 Hl0. intros HB%building_count Hj ->. simpl in HB. lia. Qed.

Lemma kvmmap_spec j s root A F l va sz v n pa perm :
  building j s root A F l → (j ≤ 64)%nat → va = v * PGSIZE → sz = Z.of_nat n * PGSIZE → 0 ≤ v → (0 < n)%nat →
  (v + Z.of_nat n) * PGSIZE ≤ MAXVA → pa mod PGSIZE = 0 → 0 ≤ pa → pa + sz ≤ 2 ^ 56 → leaf_perm perm →
  (∀ k, v ≤ k < v + Z.of_nat n → leaf A !! k = None ∧ needed k) →
  wp (kvmmap root va pa sz perm) (λ _ s', ∃ A' l', building j s' root A' F l' ∧
    leaf A' = map_pages n v pa (Z.lor perm PTE_V) (leaf A)) s.
Proof using H0 Hl0.
  intros HB Hj -> -> Hv Hn Hmax Hal Hpa Hpa' Hperm Hk. pose proof HB as [HV Ht HF Hfr Hsub]. unfold kvmmap.
  eapply wp_seq; [apply (mappages_spec kend s root A F l v n pa perm HV); try done; intros k ?; by apply Hk|].
  intros r s' (A' & l' & i & [HV' Hl' Hfr' _ Ht'] & Hr).
  assert (building j s' root A' F l') as HB'.
  { split; [done| |done| |done].
    - intros a [Ha|(k & Hr' & Ha)]%Ht'; [by apply Ht|]. eapply needed_tables; [|exact Ha]. by apply Hk.
    - intros q Hq. rewrite Hfr' by set_solver. by apply Hfr. }
  destruct Hr as [[-> ->]|(_ & _ & ->)]; [|by destruct (building_free _ _ _ _ _ _ HB' Hj)].
  apply wp_panic_if; [done|]. by exists A', l'.
Qed.

(** ** [proc_mapstacks] and [kvmmake] *)
Context (etext trampoline : Z).
Hypothesis HL : linked kend etext trampoline.

Definition with_stacks (stacks : list Z) (root : Z) (s : pst) : Prop :=
  NoDup stacks ∧ (∀ p, p ∈ stacks → page_ok kend p ∧ p ∉ F0) ∧ ∃ A l,
    building (length stacks) s root A (list_to_set stacks ∪ F0) l ∧ ∀ v, leaf A !! v = kernel_page etext trampoline stacks v.

Lemma mapstack_spec root stacks s : with_stacks stacks root s → (length stacks < 64)%nat →
  wp (pa ← kalloc; panic_if (pa =? 0) "kalloc";; kvmmap root (KSTACK (Z.of_nat (length stacks))) pa PGSIZE (Z.lor PTE_R PTE_W))
    (λ _ s', ∃ q, with_stacks (stacks ++ [q]) root s') s.
Proof using All.
  intros (Hnd & Hok & A & l & HB & Hl) Hlen. pose proof HB as [HV Ht HF Hfr Hsub].
  eapply wp_seq; [exact (VInv_kalloc kend s root A _ l HV)|].
  intros q s1 [(-> & -> & ->)|(Hq0 & Hqok & HqA & HqF & l' & -> & HV1 & Hpg)]; [by destruct (building_free _ _ _ _ _ _ HB ltac:(lia))|].
  apply wp_bind, wp_panic_if; [by apply Z.eqb_neq|].
  assert (building (length (stacks ++ [q])) s1 root A (list_to_set (stacks ++ [q]) ∪ F0) l') as HB1.
  { assert (list_to_set (stacks ++ [q]) ∪ F0 = {[q]} ∪ (list_to_set stacks ∪ F0)) as -> by set_solver. rewrite length_app. split; [done|done| | |set_solver].
    - rewrite size_union_alt, size_singleton. simpl.
      pose proof (subseteq_size ((list_to_set stacks ∪ F0) ∖ {[q]}) (list_to_set stacks ∪ F0) ltac:(set_solver)). lia.
    - intros p Hp. rewrite Hpg, lookup_insert_ne by set_solver. by apply Hfr. }
  pose proof Hqok as (Hqal & Hqr & Hqpos). unfold PHYSTOP, KERNBASE in Hqr. rewrite length_app in HB1. simpl in HB1.
  eapply wp_mono; [apply (kvmmap_spec _ _ _ _ _ _ (KSTACK (Z.of_nat (length stacks))) PGSIZE (next_stack stacks) 1 q (Z.lor PTE_R PTE_W) HB1)|].
  all: try done. all: try (unfold next_stack, KSTACK, TRAMPOLINE; change MAXVA with (2 ^ 38); unfold PGSIZE in *; lia).
  - intros k Hk. assert (k = next_stack stacks) as -> by lia. rewrite Hl. split; [by apply (next_stack_free kend)|].
    right; right. unfold next_stack. lia.
  - intros [] s2 (A' & l2 & HB2 & Hl2). exists q. split; [|split].
    + apply NoDup_app. split_and!; [done| |apply NoDup_singleton]. intros p Hp ->%list_elem_of_singleton. set_solver.
    + intros p [Hp| ->%list_elem_of_singleton]%elem_of_app; [by apply Hok|]. split; [done|set_solver].
    + exists A', l2. rewrite length_app. split; [done|]. intros v. rewrite Hl2, lookup_map_pages, (kernel_page_snoc kend) by done.
      destruct (decide (v = next_stack stacks)) as [->|Hne].
      * rewrite decide_True by lia. by rewrite Z.sub_diag, Z.add_0_r.
      * rewrite decide_False by lia. apply Hl.
Qed.

Lemma proc_mapstacks_spec root s : with_stacks [] root s →
  wp (proc_mapstacks root) (λ _ s', ∃ stacks, length stacks = 64%nat ∧ with_stacks stacks root s') s.
Proof using All.
  intros H. unfold proc_mapstacks.
  apply (wp_for_each (λ i s', ∃ stacks, i = Z.of_nat (length stacks) ∧ with_stacks stacks root s')).
  - by exists [].
  - intros j s1 Hj (stacks & -> & Hs). eapply wp_mono; [apply (mapstack_spec root stacks); [done|]|].
    + change (Z.of_nat (Z.to_nat NPROC)) with 64 in Hj. lia.
    + intros [] s2 [q Hq]. exists (stacks ++ [q]). rewrite length_app. split; [simpl; lia|done].
  - intros s' (stacks & Hn & Hs). exists stacks. split; [|done]. change (Z.of_nat (Z.to_nat NPROC)) with 64 in Hn. lia.
Qed.

(** The new, empty table; [l0] is not empty. *)
Lemma kvm_root (Q : Z → pst → Prop) (k : Z → K pst Z) :
  (∀ r s l, building 0 s r (empty_space r) F0 l → wp (k r) Q s) → wp (q ← kalloc; page_fill q 0;; k q) Q s0.
Proof using H0 Hl0.
  intros HQ. pose proof (uvmcreate_spec kend s0 F0 l0 H0) as H. unfold uvmcreate in H. apply wp_bind_inv in H.
  apply wp_bind. eapply wp_mono; [exact H|]. cbv beta. intros q s1 H1. destruct (q =? 0) eqn:E.
  { apply Z.eqb_eq in E as ->. apply wp_ok in H1 as (? & ? & [= <- <-] & [(_ & -> & _)|(? & _)]); [simpl in Hl0; lia|done]. }
  apply wp_bind_inv in H1. apply wp_bind. eapply wp_mono; [exact H1|]. cbv beta. intros [] s2 H2.
  apply wp_ok in H2 as (? & ? & [= <- <-] & [(-> & _)|(_ & Hfr & l' & _ & HV)]); [done|]. apply (HQ q s2 l'). split; [done| |lia|done|done].
  intros a [p Hp]. cbn [empty_space tabs] in Hp. apply lookup_singleton_Some in Hp as [<- _]. by left.
Qed.

(** One call of [kvmmap]: [E] is what is mapped after it. *)
Ltac kvm_side := try done; change MAXVA with (2 ^ 38); unfold PGSIZE, PHYSTOP, KERNBASE in *; try lia.
Ltac kvm_map HB va sz v n pa s' A' E :=
  eapply wp_seq; [apply (kvmmap_spec _ _ _ _ _ _ va sz v n pa _ HB)|]; kvm_side;
  [let k := fresh "k" in let Hk := fresh in intros k Hk;
   repeat match goal with H : leaf _ = map_pages _ _ _ _ _ |- _ => rewrite H, lookup_map_pages, decide_False by lia end;
   split; [apply lookup_empty|unfold needed; lia]|];
  clear HB; let l' := fresh "l" in intros [] s' (A' & l' & HB & E).
Lemma kvmmake_spec : wp (kvmmake etext trampoline) (λ root s', ∃ stacks A l',
  length stacks = 64%nat ∧ NoDup stacks ∧ (∀ p, p ∈ stacks → page_ok kend p ∧ p ∉ F0) ∧
  VInv kend s' root A (list_to_set stacks ∪ F0) l' ∧ frame F0 s0 s' ∧ (length l0 ≤ length l' + 166)%nat ∧
  ∀ v, leaf A !! v = kernel_page etext trampoline stacks v) s0.
Proof using All.
  destruct (etext_page _ _ _ HL) as [Ee He]. destruct HL as [Het _ _ Htal Htr]. unfold KERNBASE, PGSIZE in Ee, Htr.
  set (e := page_of etext) in *. clearbody e.
  destruct (Z_of_nat_complete 0x4000 ltac:(lia)) as [n3 Hn3]. destruct (Z_of_nat_complete (e - 0x80000) ltac:(lia)) as [n4 Hn4]. destruct (Z_of_nat_complete (0x88000 - e) ltac:(lia)) as [n5 Hn5].
  unfold kvmmake. apply kvm_root. intros root s l HB.
  kvm_map HB UART0 PGSIZE 0x10000 1%nat UART0 s1 A1 E1.
  kvm_map HB VIRTIO0 PGSIZE 0x10001 1%nat VIRTIO0 s2 A2 E2.
  kvm_map HB PLIC 0x4000000 0xc000 n3 PLIC s3 A3 E3.
  kvm_map HB KERNBASE (etext - KERNBASE) 0x80000 n4 KERNBASE s4 A4 E4.
  kvm_map HB etext (PHYSTOP - etext) e n5 etext s5 A5 E5.
  kvm_map HB TRAMPOLINE PGSIZE (2 ^ 26 - 1) 1%nat trampoline s6 A6 E6.
  eapply wp_seq; [apply proc_mapstacks_spec|].
  - split; [constructor|]. split; [by intros p ?%elem_of_nil|]. exists A6, l6. split; [cbn [list_to_set]; by rewrite union_empty_l_L|].
    intros v. rewrite E6, E5, E4, E3, E2, E1. rewrite !lookup_map_pages, Ee. by apply (kernel_page_nil _ e); subst.
  - intros [] s' (stacks & Hlen & Hnd & Hok & A & l' & HB' & Hleaf). apply wp_ret. exists stacks, A, l'.
    pose proof (building_count _ _ _ _ _ _ HB') as Hc. rewrite Hlen in Hc. destruct HB' as [HV _ _ Hfr _]. split_and!; try done; lia.
Qed.
End kvm.

(** ** What the mapping means *)
Ltac kernel_entry pa f := intros [= <-]; exists pa, f; split_and!; [done|done || (apply Z.mod_mul; lia)|lia|lia|];
  (left; split; [done|lia]) || (right; split; [done|lia]).
Lemma kernel_page_inv kend etext trampoline stacks v e :
  linked kend etext trampoline → (∀ p, p ∈ stacks → page_ok kend p) → kernel_page etext trampoline stacks v = Some e →
  ∃ pa f, e = mkpte pa f ∧ pa mod PGSIZE = 0 ∧ 0 ≤ pa < 2 ^ 56 ∧ (f = RW ∧ (pa < KERNBASE ∨ etext ≤ pa) ∨ f = RX ∧ KERNBASE ≤ pa < etext).
Proof.
  intros HL Hs. destruct (etext_page _ _ _ HL) as [Ee He]. destruct HL as [_ Het Hend Htal Htr]. unfold kernel_page, page_of in *. unfold PGSIZE, KERNBASE in *.
  change (PLIC / 4096) with 0xc000. change ((VIRTIO0 + 4096) / 4096) with 0x10002. change (0x80000000 / 4096) with 0x80000. change (PHYSTOP / 4096) with 0x88000.
  case_bool_decide; [by kernel_entry (v * 4096) RW|]. case_bool_decide; [by kernel_entry (v * 4096) RX|].
  case_bool_decide; [by kernel_entry (v * 4096) RW|]. case_bool_decide; [by unfold PHYSTOP, KERNBASE in *; kernel_entry trampoline RX|].
  intros (pa & Hpa & ->)%fmap_Some. unfold stack_page in Hpa. destruct (_ && _); [|done]. apply list_elem_of_lookup_2, Hs in Hpa.
  destruct (page_ok_range _ _ Hpa) as [Hal Hr]. destruct Hpa as (_ & Hpr & _). exists pa, RW. split_and!; [done|done|lia|lia|left; split; [done|lia]].
Qed.

(** C20. The kernel's address space.  [kvmmake] returns a page table when more than
    166 pages are free, and the hardware finds in it exactly what the layout of
    memory says: the devices and all of memory at their own addresses, the text
    readable and executable and the rest readable and writable, the trampoline at
    the top, and below it 64 stacks in pages of their own with an unmapped page
    below each.  No entry is for user mode, and no physical page is both writable
    and executable, through whichever addresses.  Pages in use are not touched. *)
Theorem kernel_space kend etext trampoline s F l :
  linked kend etext trampoline → Owned kend s F l → (166 < length l)%nat →
  wp (kvmmake etext trampoline) (λ root s', ∃ stacks,
    length stacks = 64%nat ∧ NoDup stacks ∧ (∀ p, p ∈ stacks → page_ok kend p ∧ p ∉ F) ∧ frame F s s' ∧
    (∀ va, 0 ≤ va < MAXVA → mmu (pages s') 2 root va = pair 0%nat <$> kernel_page etext trampoline stacks (page_of va)) ∧
    (∀ va n e, 0 ≤ va < MAXVA → mmu (pages s') 2 root va = Some (n, e) → bit e PTE_U = false ∧
      ∀ va' n' e', 0 ≤ va' < MAXVA → mmu (pages s') 2 root va' = Some (n', e') →
        bit e PTE_W = true → bit e' PTE_X = true → PTE2PA e ≠ PTE2PA e')) s.
Proof.
  intros HL Ho Hl. eapply wp_mono; [apply (kvmmake_spec kend s F l Ho Hl etext trampoline HL)|].
  intros root s' (stacks & A & l' & Hlen & Hnd & Hok & [_ _ Hsp] & Hfr & _ & Hleaf).
  assert (∀ va, 0 ≤ va < MAXVA → mmu (pages s') 2 root va = pair 0%nat <$> kernel_page etext trampoline stacks (page_of va)) as Hm.
  { intros va Hva. rewrite (mmu_space _ _ _ _ Hsp) by done. by rewrite Hleaf. }
  exists stacks. split_and!; [done..|]. intros va n e Hva He. rewrite Hm in He by done. apply fmap_Some in He as (e1 & He & [= -> ->]).
  destruct (kernel_page_inv _ _ _ _ _ _ HL (λ p Hp, proj1 (Hok p Hp)) He) as (pa & f & -> & Hal & Hr & Hf).
  assert (0 ≤ f < 1024) as Hf0 by (destruct Hf as [[-> _]|[-> _]]; done). split.
  { rewrite bit_mkpte by done. by destruct Hf as [[-> _]|[-> _]]. }
  intros va' n' e' Hva' He'. rewrite Hm in He' by done. apply fmap_Some in He' as (e1' & He' & [= -> ->]).
  destruct (kernel_page_inv _ _ _ _ _ _ HL (λ p Hp, proj1 (Hok p Hp)) He') as (pa' & f' & -> & Hal' & Hr' & Hf').
  assert (0 ≤ f' < 1024) as Hf0' by (destruct Hf' as [[-> _]|[-> _]]; done).
  rewrite !PTE2PA_mkpte, !bit_mkpte by done. destruct Hf as [[-> Hp]|[-> _]]; [|done]. destruct Hf' as [[-> _]|[-> Hp']]; [done|]. lia.
Qed.

(** A machine with 200 free pages, right after the text. *)
Lemma kernel_space_witness : ∃ s root s' (stacks : list Z),
  kvmmake (ram_from 200) KERNBASE s = Ok (root, s') ∧ length stacks = 64%nat ∧
  mmu (pages s') 2 root UART0 = Some (0%nat, mkpte UART0 RW) ∧ mmu (pages s') 2 root TRAMPOLINE = Some (0%nat, mkpte KERNBASE RX) ∧
  mmu (pages s') 2 root (TRAMPOLINE - PGSIZE) = None.
Proof.
  destruct (ram_kinit 200 ltac:(lia)) as (s & l & Ho & Hl).
  assert (linked (ram_from 200) (ram_from 200) KERNBASE) as HL by (split; by vm_compute).
  destruct (proj1 (wp_ok _ _ _) (kernel_space _ _ _ s ∅ l HL Ho ltac:(lia))) as (root & s' & Hrun & stacks & Hlen & _ & _ & _ & Hm & _).
  exists s, root, s', stacks. split; [exact Hrun|]. split; [exact Hlen|]. by rewrite !Hm by (split; by vm_compute).
Defined.
