(* ===== verification/Ring.v ===== *)
(** * Ring buffers with wrapping counters

    Shared by pipes, the console and the UART: an array indexed by free-running
    counters modulo its size.  The size divides [2^32], so that the counters may
    wrap around, as the [uint] counters of pipes and the console do. *)

From S2P Require Import Prelude Word.

Definition ring_put (sz i c : Z) (d : list Z) : list Z := <[Z.to_nat (i mod sz) := c]> d.
Definition ring_get (sz i : Z) (d : list Z) : Z := nth (Z.to_nat (i mod sz)) d 0.

(** The queue [q] is stored from the position [s] on. *)
Definition ring_holds (sz : Z) (d : list Z) (s : Z) (q : list Z) : Prop :=
  ∀ i x, q !! i = Some x → ring_get sz (s + Z.of_nat i) d = x.

(** Distance between two counters. *)
Lemma u32_diff a k : 0 ≤ k < 2 ^ 32 → u32 (u32 (a + k) - a) = k.
Proof.
  intros Hk. unfold u32, wrap. rewrite Zminus_mod_idemp_l. replace (a + k - a) with k by lia.
  by apply Z.mod_small.
Qed.

Lemma u32_diff2 a j k :
  0 ≤ j ≤ k → k < 2 ^ 32 → u32 (u32 (a + k) - u32 (a + j)) = k - j.
Proof.
  intros Hj Hk. unfold u32, wrap. rewrite Zminus_mod_idemp_l, Zminus_mod_idemp_r.
  replace (a + k - (a + j)) with (k - j) by lia. apply Z.mod_small. lia.
Qed.

Lemma u32_add a k : u32 (u32 a + k) = u32 (a + k).
Proof. unfold u32, wrap. apply Zplus_mod_idemp_l. Qed.

Lemma u32_inj a j k : 0 ≤ j < 2 ^ 32 → 0 ≤ k < 2 ^ 32 → u32 (a + j) = u32 (a + k) → j = k.
Proof.
  intros Hj Hk E. rewrite <-(u32_diff a j Hj), E. by apply u32_diff.
Qed.

Section ring.
Context (sz : Z).
Hypothesis Hsz : 0 < sz.
Hypothesis Hdiv : (sz | 2 ^ 32).

Lemma ring_index_wrap i : u32 i mod sz = i mod sz.
Proof using Hdiv. unfold u32, wrap. by apply Z.mod_mod_divide. Qed.

Lemma ring_get_wrap i d : ring_get sz (u32 i) d = ring_get sz i d.
Proof using Hdiv. unfold ring_get. by rewrite ring_index_wrap. Qed.

Lemma ring_put_wrap i c d : ring_put sz (u32 i) c d = ring_put sz i c d.
Proof using Hdiv. unfold ring_put. by rewrite ring_index_wrap. Qed.

Lemma length_ring_put i c d : length (ring_put sz i c d) = length d.
Proof using Type. apply length_insert. Qed.

Lemma ring_get_put i j c d :
  length d = Z.to_nat sz →
  ring_get sz i (ring_put sz j c d) = if decide (i mod sz = j mod sz) then c else ring_get sz i d.
Proof using Hsz.
  intros Hl. unfold ring_get, ring_put.
  pose proof (Z.mod_pos_bound i sz Hsz). pose proof (Z.mod_pos_bound j sz Hsz).
  rewrite !nth_lookup. case_decide as E.
  - rewrite E, list_lookup_insert_eq; [done|lia].
  - rewrite list_lookup_insert_ne; [done|lia].
Qed.

(** Only the counter modulo the size matters. *)
Lemma ring_holds_mod s s' d q : s mod sz = s' mod sz → ring_holds sz d s q → ring_holds sz d s' q.
Proof using Type.
  intros E H i x Hi. rewrite <-(H _ _ Hi). unfold ring_get.
  by rewrite (Zplus_mod s), (Zplus_mod s'), E.
Qed.

(** Positions less than a ring apart do not collide. *)
Lemma ring_apart s i j : 0 ≤ i < j → j - i < sz → (s + i) mod sz ≠ (s + j) mod sz.
Proof using Hsz.
  intros Hij Hlt E. assert ((j - i) mod sz = 0) as E'.
  { replace (j - i) with (s + j - (s + i)) by lia. by rewrite Zminus_mod, E, Z.sub_diag. }
  rewrite Z.mod_small in E'; lia.
Qed.

Lemma ring_push d s q c :
  length d = Z.to_nat sz → ring_holds sz d s q → Z.of_nat (length q) < sz →
  ring_holds sz (ring_put sz (u32 (s + Z.of_nat (length q))) c d) s (q ++ [c]).
Proof using Hsz Hdiv.
  intros Hl Hq Hlt i x Hi. rewrite ring_put_wrap, ring_get_put by done.
  apply lookup_app_Some in Hi as [Hi|[Hge Hi]].
  - pose proof (lookup_lt_Some _ _ _ Hi). rewrite decide_False; [by apply Hq|].
    apply ring_apart; lia.
  - apply list_lookup_singleton_Some in Hi as [Hi <-].
    replace i with (length q) by lia. by rewrite decide_True.
Qed.

Lemma ring_pop d s x q :
  ring_holds sz d s (x :: q) →
  ring_get sz s d = x ∧ ring_holds sz d (u32 (s + 1)) q.
Proof using Hdiv.
  intros Hq. split; [rewrite <-(Hq 0%nat x) by done; by rewrite Z.add_0_r|].
  intros i y Hi. rewrite <-(Hq (S i) y) by done.
  rewrite <-(ring_get_wrap (s + Z.of_nat (S i))), <-(ring_get_wrap (u32 _ + _)).
  f_equal. rewrite u32_add. f_equal. lia.
Qed.

Lemma ring_app d s q1 q2 :
  ring_holds sz d s (q1 ++ q2) ↔ ring_holds sz d s q1 ∧ ring_holds sz d (s + Z.of_nat (length q1)) q2.
Proof using Type.
  split.
  - intros H. split; intros i x Hi.
    + apply H. by apply lookup_app_l_Some.
    + rewrite <-Z.add_assoc, <-Nat2Z.inj_add. apply H. rewrite lookup_app_r by lia.
      by replace (length q1 + i - length q1)%nat with i by lia.
  - intros [H1 H2] i x [Hi|[Hge Hi]]%lookup_app_Some; [by apply H1|].
    rewrite <-(H2 _ _ Hi). f_equal. lia.
Qed.
End ring.
