(* ===== verification/Pipe.v ===== *)
(** * Pipes ([kernel/pipe.c])

    A pipe is a ring of [PIPESIZE] bytes with 32-bit counters of the bytes
    read and written.  A call that sleeps gives up the lock in the middle of
    its loop: [pipewrite_from] and [piperead_from] run from the loop head to
    the next [sleep] or to the return, and the outcome [Asleep i] carries the
    loop variable with which the loop goes on after the wake-up.  The calls of
    [wakeup] are recorded.

    User memory is a parameter: [copyin a] is the byte [copyin] fetches at the
    user address [a], or [None] when it fails; [copyout] goes to a byte
    memory.  [killed i] is the answer of [killed(pr)] in the iteration [i]:
    another processor may set the flag at any time. *)

From S2P Require Import Prelude Word Mem Ring.

Definition PIPESIZE : Z := 512.

Inductive chan := ChanRead | ChanWrite.  (** [&pi->nread], [&pi->nwrite] *)

Record pipe := Pipe {
  p_data : list Z;
  nread : Z;
  nwrite : Z;
  readopen : bool;
  writeopen : bool;
  wakes : list chan;     (** calls of [wakeup], latest first *)
  umem : mem;            (** memory of the reading process *)
}.

Definition set_ring (d : list Z) (r w : Z) (p : pipe) : pipe :=
  Pipe d r w (readopen p) (writeopen p) (wakes p) (umem p).
Definition wakeup (c : chan) : K pipe unit :=
  modify (λ p, Pipe (p_data p) (nread p) (nwrite p) (readopen p) (writeopen p) (c :: wakes p) (umem p)).
Definition set_umem (m : mem) (p : pipe) : pipe :=
  Pipe (p_data p) (nread p) (nwrite p) (readopen p) (writeopen p) (wakes p) m.

Inductive outcome := Return (r : Z) | Asleep (i : Z).

(** The fields that [pipealloc] sets in a fresh page. *)
Definition pipe_init (junk : list Z) (m : mem) : pipe := Pipe junk 0 0 true true [] m.

(** Returns whether the page of the pipe is freed. *)
Definition pipeclose (writable : bool) : K pipe bool :=
  (if writable then
     modify (λ p, Pipe (p_data p) (nread p) (nwrite p) (readopen p) false (wakes p) (umem p));;
     wakeup ChanRead
   else
     modify (λ p, Pipe (p_data p) (nread p) (nwrite p) false (writeopen p) (wakes p) (umem p));;
     wakeup ChanWrite);;
  r ← gets readopen;
  w ← gets writeopen;
  mret (negb r && negb w).

Section write.
Context (copyin : Z → option Z) (killed : Z → bool) (addr n : Z).

(** One iteration of [while(i < n)]: [inl] goes on, [inr (Some o)] leaves the
    function, [inr None] leaves the loop. *)
Definition write_iter (i : Z) : K pipe (Z + option outcome) :=
  ro ← gets readopen;
  if negb ro || killed i then mret (inr (Some (Return (-1))))
  else
    r ← gets nread;
    w ← gets nwrite;
    if w =? u32 (r + PIPESIZE) then
      wakeup ChanRead;;
      mret (inr (Some (Asleep i)))
    else
      match copyin (addr + i) with
      | None => mret (inr None)
      | Some ch =>
          modify (λ p, set_ring (ring_put PIPESIZE w ch (p_data p)) (nread p) (u32 (w + 1)) p);;
          mret (inl (i + 1))
      end.

Definition pipewrite_from (i : Z) : K pipe outcome :=
  r ← while_loop (S (Z.to_nat (n - i))) i (λ i,
    if i <? n then
      x ← write_iter i;
      mret match x with
           | inl i' => inl i'
           | inr o => inr (i, o)
           end
    else mret (inr (i, None)));
  match r with
  | (_, Some o) => mret o
  | (i, None) => wakeup ChanRead;; mret (Return i)
  end.

Definition pipewrite : K pipe outcome := pipewrite_from 0.
End write.

Section read.
Context (killed : bool) (addr n : Z).

(** The copying loop of [piperead]; the number of bytes copied. *)
Definition copy_loop : K pipe Z :=
  r ← for_loop (Z.to_nat n) 0 (λ i,
    r ← gets nread;
    w ← gets nwrite;
    if r =? w then mret (Some i)
    else
      ch ← gets (λ p, ring_get PIPESIZE r (p_data p));
      modify (λ p, set_ring (p_data p) (u32 (r + 1)) (nwrite p) p);;
      m ← gets umem;
      match m !! (addr + i) with
      | None => mret (Some i)
      | Some _ => modify (set_umem (<[addr + i := ch]> m));; mret None
      end);
  mret (default (Z.max 0 n) r).

(** [piperead] from its loop head: a sleep comes back here. *)
Definition piperead : K pipe outcome :=
  r ← gets nread;
  w ← gets nwrite;
  wo ← gets writeopen;
  if (r =? w) && wo then
    if killed then mret (Return (-1)) else mret (Asleep 0)
  else
    i ← copy_loop;
    wakeup ChanWrite;;
    mret (Return i).
End read.

(** ** The queue in the ring *)

(** [q] is what has been written and not yet read. *)
Record PipeInv (p : pipe) (q : list Z) : Prop := {
  pi_size : length (p_data p) = Z.to_nat PIPESIZE;
  pi_read : 0 ≤ nread p < 2 ^ 32;
  pi_write : nwrite p = u32 (nread p + Z.of_nat (length q));
  pi_room : (length q ≤ Z.to_nat PIPESIZE)%nat;
  pi_data : ring_holds PIPESIZE (p_data p) (nread p) q;
}.

Lemma PIPESIZE_divides : (PIPESIZE | 2 ^ 32).
Proof. exists (2 ^ 23). reflexivity. Qed.
Lemma PIPESIZE_pos : 0 < PIPESIZE.
Proof. done. Qed.
#[local] Hint Resolve PIPESIZE_divides PIPESIZE_pos : core.

Lemma PipeInv_full p q :
  PipeInv p q → (nwrite p =? u32 (nread p + PIPESIZE)) = bool_decide (length q = Z.to_nat PIPESIZE).
Proof.
  intros [_ Hr Hw Hroom _]. rewrite Hw. apply eq_bool_prop_intro. rewrite bool_decide_spec, Is_true_true, Z.eqb_eq.
  unfold PIPESIZE in *. split; [|intros ->; f_equal; lia]. intros E%u32_inj; lia.
Qed.

Lemma PipeInv_empty p q : PipeInv p q → (nread p =? nwrite p) = bool_decide (q = []).
Proof.
  intros [_ Hr Hw Hroom _]. rewrite Hw. apply eq_bool_prop_intro. rewrite bool_decide_spec, Is_true_true, Z.eqb_eq.
  rewrite <-length_zero_iff_nil. assert (u32 (nread p + 0) = nread p) as E0
    by (rewrite Z.add_0_r; apply wrap_small; lia).
  rewrite <-E0 at 1. unfold PIPESIZE in *. split; [intros E%u32_inj; lia|by intros ->].
Qed.

Lemma PipeInv_push p q ch :
  PipeInv p q → (length q < Z.to_nat PIPESIZE)%nat →
  PipeInv (set_ring (ring_put PIPESIZE (nwrite p) ch (p_data p)) (nread p) (u32 (nwrite p + 1)) p) (q ++ [ch]).
Proof.
  intros [Hs Hr Hw Hroom Hd] Hlt. split; simpl.
  - by rewrite length_ring_put.
  - done.
  - rewrite Hw, u32_add, length_app. simpl. f_equal. lia.
  - rewrite length_app. simpl. lia.
  - rewrite Hw. apply ring_push; auto. lia.
Qed.

Lemma PipeInv_pop p x q :
  PipeInv p (x :: q) →
  ring_get PIPESIZE (nread p) (p_data p) = x ∧
  PipeInv (set_ring (p_data p) (u32 (nread p + 1)) (nwrite p) p) q.
Proof.
  intros [Hs Hr Hw Hroom Hd]. simpl in *. apply ring_pop in Hd as [Hx Hd]; [|auto]. split; [done|].
  split; simpl; [done|apply wrap_range; lia| |lia|done].
  rewrite Hw, u32_add. f_equal. lia.
Qed.

(** ** What the calls do to the queue *)

(** Everything but the ring and the wake-ups. *)
Definition same_ends (p p' : pipe) : Prop :=
  readopen p' = readopen p ∧ writeopen p' = writeopen p ∧ umem p' = umem p.

Definition fetched (copyin : Z → option Z) (a : Z) (l : list Z) : Prop :=
  ∀ k x, l !! k = Some x → copyin (a + Z.of_nat k) = Some x.

Lemma fetched_snoc copyin a l x :
  fetched copyin a l → copyin (a + Z.of_nat (length l)) = Some x → fetched copyin a (l ++ [x]).
Proof.
  intros Hl Hx k y [Hk|[Hge Hk]]%lookup_app_Some; [by apply Hl|].
  apply list_lookup_singleton_Some in Hk as [Hk <-]. by replace k with (length l) by lia.
Qed.

(** What a write segment leaves, started at [i] with the queue [q]. *)
Definition write_post (copyin : Z → option Z) (killed : Z → bool) (addr n i : Z) (p : pipe) (q : list Z)
    (o : outcome) (p' : pipe) : Prop :=
  ∃ l, PipeInv p' (q ++ l) ∧ same_ends p p' ∧ fetched copyin (addr + i) l ∧
    let j := i + Z.of_nat (length l) in
    match o with
    | Asleep j' => j' = j ∧ j < n ∧ length (q ++ l) = Z.to_nat PIPESIZE ∧ head (wakes p') = Some ChanRead
    | Return r =>
        (r = -1 ∧ j < n ∧ (readopen p = false ∨ killed j = true)) ∨
        (r = j ∧ (j = n ∨ copyin (addr + j) = None) ∧ head (wakes p') = Some ChanRead)
    end.

Section write_spec.
Context (copyin : Z → option Z) (killed : Z → bool) (addr n : Z).

Lemma write_iter_spec p q i :
  PipeInv p q →
  wp (write_iter copyin killed addr i) (λ r p',
    match r with
    | inr (Some (Return v)) => v = -1 ∧ p' = p ∧ (readopen p = false ∨ killed i = true)
    | inr (Some (Asleep j)) => j = i ∧ PipeInv p' q ∧ same_ends p p' ∧
        length q = Z.to_nat PIPESIZE ∧ head (wakes p') = Some ChanRead
    | inr None => p' = p ∧ copyin (addr + i) = None
    | inl j => j = i + 1 ∧ same_ends p p' ∧ ∃ ch, copyin (addr + i) = Some ch ∧ PipeInv p' (q ++ [ch])
    end) p.
Proof using Type.
  intros Hinv. unfold write_iter. apply wp_bind, wp_gets.
  destruct (negb (readopen p) || killed i) eqn:Hk.
  { apply wp_ret. split_and!; [done|done|]. destruct (readopen p); [by right|by left]. }
  apply wp_bind, wp_gets, wp_bind, wp_gets. rewrite (PipeInv_full p q Hinv). case_bool_decide as Hf.
  { apply wp_bind, wp_modify, wp_ret. split_and!; try done. destruct Hinv. by split. }
  destruct (copyin (addr + i)) as [ch|] eqn:Hc; [|by apply wp_ret].
  apply wp_bind, wp_modify, wp_ret. split_and!; try done. exists ch. split; [done|].
  apply PipeInv_push; [done|]. pose proof (pi_room _ _ Hinv). lia.
Qed.

Lemma pipewrite_spec p q i :
  PipeInv p q → 0 ≤ i ≤ n →
  wp (pipewrite_from copyin killed addr n i) (write_post copyin killed addr n i p q) p.
Proof using Type.
  intros Hinv Hi. unfold pipewrite_from. apply wp_bind.
  apply (wp_while_loop (λ k i' p', ∃ l, PipeInv p' (q ++ l) ∧ same_ends p p' ∧
    fetched copyin (addr + i) l ∧ i' = i + Z.of_nat (length l) ∧ i' ≤ n ∧ k = Z.to_nat (n - i'))
    _ _ _ (Z.to_nat (n - i))); [|lia|].
  { exists []. rewrite app_nil_r. simpl. split_and!; try done; lia. }
  intros k i' p1 (l & Hinv1 & Hse & Hf & -> & Hle & ->). destruct (Z.ltb_spec (i + Z.of_nat (length l)) n) as [Hlt|Hge].
  - apply wp_bind. eapply wp_mono; [by apply write_iter_spec|]. pose proof Hse as (Hse1 & Hse2 & Hse3).
    intros [j|[[v|j]|]] p2 Hp2; apply wp_ret.
    + destruct Hp2 as (-> & (Hs1 & Hs2 & Hs3) & ch & Hch & Hinv2). exists (Z.to_nat (n - (i + Z.of_nat (length l) + 1))).
      split; [|exists (l ++ [ch]); split_and!].
      * lia.
      * by rewrite app_assoc.
      * unfold same_ends. split_and!; congruence.
      * apply fetched_snoc; [done|]. by rewrite <-Z.add_assoc.
      * rewrite length_app. simpl. lia.
      * lia.
      * lia.
    + destruct Hp2 as (-> & -> & Hk). apply wp_ret. exists l. split_and!; [done..|]. left.
      split_and!; [done|done|]. destruct Hk as [Hk|Hk]; [left; congruence|by right].
    + destruct Hp2 as (-> & Hinv2 & (Hs1 & Hs2 & Hs3) & Hfull & Hw). apply wp_ret. exists l.
      split_and!; try done. unfold same_ends. split_and!; congruence.
    + destruct Hp2 as (-> & Hc). apply wp_bind, wp_modify, wp_ret. exists l.
      split_and!; [by destruct Hinv1|done|done|]. right. split_and!; [done|by right|done].
  - apply wp_ret, wp_bind, wp_modify, wp_ret. exists l.
    split_and!; [by destruct Hinv1|done|done|]. right. split_and!; [done|left; lia|done].
Qed.
End write_spec.

(** What a read leaves: [k] bytes from the front of the queue are in user
    memory.  If the copy to user memory failed, one more byte is gone. *)
Definition read_post (addr n : Z) (p : pipe) (q : list Z) (r : Z) (p' : pipe) : Prop :=
  ∃ k, r = Z.of_nat k ∧ umem p' = mput (umem p) addr (take k q) ∧
    readopen p' = readopen p ∧ writeopen p' = writeopen p ∧ nwrite p' = nwrite p ∧ (k ≤ length q)%nat ∧
    ((k = Nat.min (Z.to_nat n) (length q) ∧ PipeInv p' (drop k q)) ∨
     ((k < Nat.min (Z.to_nat n) (length q))%nat ∧ umem p !! (addr + Z.of_nat k) = None ∧ PipeInv p' (drop (S k) q))).

Lemma read_loop_spec addr n j p q :
  PipeInv p q → 0 ≤ j →
  wp (for_loop n j (λ i,
    r ← gets nread;
    w ← gets nwrite;
    if r =? w then mret (Some i)
    else
      ch ← gets (λ p, ring_get PIPESIZE r (p_data p));
      modify (λ p, set_ring (p_data p) (u32 (r + 1)) (nwrite p) p);;
      m ← gets umem;
      match m !! (addr + i) with
      | None => mret (Some i)
      | Some _ => modify (set_umem (<[addr + i := ch]> m));; mret None
      end))
    (λ r p', ∃ k, default (j + Z.of_nat n) r = j + Z.of_nat k ∧
       umem p' = mput (umem p) (addr + j) (take k q) ∧
       readopen p' = readopen p ∧ writeopen p' = writeopen p ∧ nwrite p' = nwrite p ∧ wakes p' = wakes p ∧ (k ≤ length q)%nat ∧
       ((k = Nat.min n (length q) ∧ PipeInv p' (drop k q)) ∨
        ((k < Nat.min n (length q))%nat ∧ umem p !! (addr + j + Z.of_nat k) = None ∧
         PipeInv p' (drop (S k) q)))) p.
Proof.
  revert j p q. induction n as [|n IH]; intros j p q Hinv Hj.
  { apply wp_ret. exists 0%nat. simpl. rewrite drop_0. split_and!; first [done|lia|left; done]. }
  simpl. apply wp_bind, wp_bind, wp_gets, wp_bind, wp_gets.
  rewrite (PipeInv_empty p q Hinv). case_bool_decide as Hq.
  { subst q. repeat apply wp_ret. exists 0%nat. simpl. split_and!; first [done|lia|left; done]. }
  destruct q as [|x q]; [done|]. destruct (PipeInv_pop p x q Hinv) as [Hx Hinv'].
  apply wp_bind, wp_gets, wp_bind, wp_modify, wp_bind, wp_gets. rewrite Hx. simpl.
  destruct (umem p !! (addr + j)) as [y|] eqn:Hm.
  - apply wp_bind, wp_modify, wp_ret.
    set (p1 := set_umem _ _). assert (PipeInv p1 q) as Hinv1 by (by destruct Hinv').
    eapply wp_mono; [apply (IH (j + 1) p1 q Hinv1); lia|].
    intros r p' (k & Hr & Hu & Hro & Hwo & Hnw & Hwk & Hk & Hcase). exists (S k).
    replace (addr + (j + 1)) with (addr + j + 1) in * by lia.
    split_and!; try done.
    + replace (j + Z.of_nat (S n)) with (j + 1 + Z.of_nat n) by lia. rewrite Hr. lia.
    + simpl. lia.
    + destruct Hcase as [[-> Hi]|(Hlt & Hnone & Hi)]; [left; done|right].
      split_and!; [simpl; lia| |done]. unfold p1 in Hnone. simpl in Hnone.
      rewrite lookup_insert_ne in Hnone by lia.
      by replace (addr + j + Z.of_nat (S k)) with (addr + j + 1 + Z.of_nat k) by lia.
  - repeat apply wp_ret. exists 0%nat. simpl. rewrite drop_0.
    split_and!; first [done|lia|right]. rewrite Z.add_0_r. split_and!; [lia|done|done].
Qed.

Lemma copy_loop_spec addr n p q :
  PipeInv p q → wp (copy_loop addr n) (λ r p', read_post addr n p q r p' ∧ wakes p' = wakes p) p.
Proof.
  intros Hinv. unfold copy_loop. apply wp_bind.
  eapply wp_mono; [by apply (read_loop_spec addr (Z.to_nat n) 0 p q)|].
  intros r p' (k & Hr & Hu & Hro & Hwo & Hnw & Hwk & Hk & Hcase). apply wp_ret. split; [|done].
  rewrite Z.add_0_r in *. exists k. split_and!; try done.
  replace (Z.max 0 n) with (0 + Z.of_nat (Z.to_nat n)) by lia. rewrite Hr. lia.
Qed.

Lemma piperead_spec killed addr n p q :
  PipeInv p q →
  wp (piperead killed addr n) (λ o p',
    match o with
    | Asleep _ => q = [] ∧ writeopen p = true ∧ killed = false ∧ p' = p
    | Return r =>
        (r = -1 ∧ q = [] ∧ writeopen p = true ∧ killed = true ∧ p' = p) ∨
        (read_post addr n p q r p' ∧ head (wakes p') = Some ChanWrite ∧ (q = [] → writeopen p = false))
    end) p.
Proof.
  intros Hinv. unfold piperead. apply wp_bind, wp_gets, wp_bind, wp_gets, wp_bind, wp_gets.
  rewrite (PipeInv_empty p q Hinv). destruct (bool_decide (q = []) && writeopen p) eqn:Hb.
  - apply andb_true_iff in Hb as [Hq%bool_decide_eq_true Hw].
    destruct killed; apply wp_ret; [left|]; done.
  - eapply wp_seq; [by apply copy_loop_spec|]. intros r p1 [(k & Hr & Hu & Hro & Hwo & Hnw & Hk & Hc) Hwk].
    apply wp_bind, wp_modify, wp_ret. right. split_and!; [|done|].
    + exists k. split_and!; try done. destruct Hc as [[? H]|(? & ? & H)]; [left|right]; split_and!; try done; by destruct H.
    + intros ->. by destruct (writeopen p).
Qed.

(** ** Histories

    [W] are the bytes accepted from writers and [T] the bytes that readers have
    taken out of the ring, in order, in any interleaving of the calls of any number
    of processes.  Each of them is marked: [true] when it has been delivered to
    the memory of the reader, [false] when it is lost because [copyout] failed. *)
Definition accepted (copyin : Z → option Z) (a : Z) (p p' : pipe) : list Z :=
  (λ k, default 0 (copyin (a + Z.of_nat k))) <$> seq 0 (Z.to_nat (u32 (nwrite p' - nwrite p))).
Definition delivered (addr r : Z) (p' : pipe) : list Z :=
  (λ k, default 0 (umem p' !! (addr + Z.of_nat k))) <$> seq 0 (Z.to_nat r).
Definition taken (addr r : Z) (p p' : pipe) : list (Z * bool) :=
  ((λ c, (c, true)) <$> delivered addr r p') ++
  if u32 (nread p' - nread p) =? Z.max 0 r then [] else [(ring_get PIPESIZE (nread p + r) (p_data p), false)].

Inductive pipe_run : pipe → list Z → list (Z * bool) → Prop :=
  | run_init junk m : length junk = Z.to_nat PIPESIZE → pipe_run (pipe_init junk m) [] []
  | run_write p W T copyin killed addr n i o p' :
      pipe_run p W T → 0 ≤ i ≤ n → pipewrite_from copyin killed addr n i p = Ok (o, p') →
      pipe_run p' (W ++ accepted copyin (addr + i) p p') T
  | run_read p W T killed addr n m r p' :
      pipe_run p W T → piperead killed addr n (set_umem m p) = Ok (Return r, p') →
      pipe_run p' W (T ++ taken addr r p p')
  | run_read_sleep p W T killed addr n m i p' :
      pipe_run p W T → piperead killed addr n (set_umem m p) = Ok (Asleep i, p') → pipe_run p' W T
  | run_close p W T writable b p' :
      pipe_run p W T → pipeclose writable p = Ok (b, p') → pipe_run p' W T.

Lemma accepted_eq copyin a p p' q l :
  PipeInv p q → PipeInv p' (q ++ l) → nread p' = nread p → fetched copyin a l →
  accepted copyin a p p' = l.
Proof.
  intros [_ Hr Hw Hroom _] [_ _ Hw' Hroom' _] Hn Hf. unfold accepted.
  assert (u32 (nwrite p' - nwrite p) = Z.of_nat (length l)) as ->.
  { rewrite Hw, Hw', Hn, length_app. unfold u32, wrap. rewrite Zminus_mod_idemp_l, Zminus_mod_idemp_r.
    replace (nread p + Z.of_nat (length q + length l) - (nread p + Z.of_nat (length q)))
      with (Z.of_nat (length l)) by lia.
    apply Z.mod_small. rewrite length_app in Hroom'. unfold PIPESIZE in *. lia. }
  rewrite Nat2Z.id. apply list_eq_same_length with (length l); [done|by rewrite length_fmap, length_seq|].
  intros k x y Hk Hx Hy. rewrite list_lookup_fmap, lookup_seq_lt in Hx by done. simplify_eq/=.
  by rewrite (Hf k y Hy).
Qed.

Lemma delivered_eq addr k (q : list Z) p p' :
  umem p' = mput (umem p) addr (take k q) → (k ≤ length q)%nat → delivered addr (Z.of_nat k) p' = take k q.
Proof.
  intros Hu Hk. unfold delivered. rewrite Hu, Nat2Z.id.
  apply list_eq_same_length with k; [rewrite length_take; lia|by rewrite length_fmap, length_seq|].
  intros i x y Hi Hx Hy. rewrite list_lookup_fmap, lookup_seq_lt in Hx by done. simplify_eq/=.
  by rewrite (holds_mput _ _ _ _ _ Hy).
Qed.

(** The writer never moves the read counter. *)
Lemma pipewrite_nread copyin killed addr n i p o p' :
  pipewrite_from copyin killed addr n i p = Ok (o, p') → nread p' = nread p.
Proof.
  unfold pipewrite_from. generalize (S (Z.to_nat (n - i))) as f. intros f. revert i p.
  induction f as [|f IH]; intros i p; [done|]. simpl. unfold mbind, K_bind. simpl.
  destruct (i <? n).
  2:{ simpl. intros [= _ <-]. done. }
  unfold write_iter, mbind, K_bind, gets. simpl. destruct (negb (readopen p) || killed i); [by intros [= _ <-]|].
  destruct (nwrite p =? u32 (nread p + PIPESIZE)); [by intros [= _ <-]|].
  destruct (copyin (addr + i)); [|by intros [= _ <-]]. simpl. intros H. by apply IH in H.
Qed.

(** The bytes a read takes are the first of the queue. *)
Lemma taken_eq addr n p m q r p' : PipeInv p q → read_post addr n (set_umem m p) q r p' →
  ∃ l, q = (taken addr r p p').*1 ++ l ∧ PipeInv p' l.
Proof.
  intros [_ Hr Hw Hroom Hd] (k & -> & Hu & _ & _ & Ew & Hk & Hcase). unfold taken. rewrite (delivered_eq _ _ _ _ _ Hu Hk). simpl in Ew.
  assert (∀ j, (j ≤ length q)%nat → PipeInv p' (drop j q) → u32 (nread p' - nread p) = Z.of_nat j) as Hcount.
  { intros j Hj [_ Hr' Hw' _ _]. rewrite length_drop, Ew, Hw in Hw'. unfold u32, wrap, PIPESIZE in *.
    rewrite <- (Z.mod_small (Z.of_nat j) (2 ^ 32)) by lia.
    replace (nread p' - nread p) with ((nread p' + Z.of_nat (length q - j)) - (nread p + Z.of_nat (length q)) + Z.of_nat j) by lia.
    rewrite Z.add_mod, Zminus_mod, <-Hw', Z.sub_diag by lia. by rewrite Z.mod_0_l, Z.add_0_l, Z.mod_mod by lia. }
  rewrite fmap_app, <-list_fmap_compose. change (Datatypes.fst ∘ _) with (λ c : Z, c). rewrite list_fmap_id.
  destruct Hcase as [[_ Hi]|(Hlt & _ & Hi)].
  - exists (drop k q). rewrite (Hcount k Hk Hi), Z.max_r, Z.eqb_refl by lia. simpl. by rewrite app_nil_r, take_drop.
  - exists (drop (S k) q). rewrite (Hcount (S k) ltac:(lia) Hi), Z.max_r, (proj2 (Z.eqb_neq _ _)) by lia.
    destruct (lookup_lt_is_Some_2 q k ltac:(lia)) as [x Hx]. rewrite (Hd k x Hx). simpl. split; [|done].
    by rewrite <-(take_S_r _ _ _ Hx), take_drop.
Qed.

Lemma pipe_run_inv p W T : pipe_run p W T → ∃ q, PipeInv p q ∧ W = T.*1 ++ q.
Proof.
  induction 1 as [junk m Hl|p W T copyin killed addr n i o p' _ (q & Hinv & ->) Hi Hrun
    |p W T killed addr n m r p' _ (q & Hinv & ->) Hrun
    |p W T killed addr n m i p' _ (q & Hinv & ->) Hrun|p W T writable b p' _ (q & Hinv & ->) Hrun].
  - exists []. split; [|done]. split; simpl; try done; lia.
  - destruct (wp_elim _ _ _ _ _ (pipewrite_spec copyin killed addr n p q i Hinv Hi) Hrun) as (l & Hinv' & _ & Hf & _).
    exists (q ++ l). split; [done|]. rewrite <-app_assoc. do 2 f_equal.
    eapply accepted_eq; [done|done| |done]. by eapply pipewrite_nread.
  - assert (PipeInv (set_umem m p) q) as Hinv' by (by destruct Hinv).
    destruct (wp_elim _ _ _ _ _ (piperead_spec killed addr n _ q Hinv') Hrun) as [(-> & -> & _ & _ & ->)|[Hp _]].
    + exists []. split; [done|]. unfold taken. simpl. rewrite Z.sub_diag. simpl. by rewrite !app_nil_r.
    + destruct (taken_eq _ _ _ _ _ _ _ Hinv Hp) as (l & Hq & Hl). exists l. split; [done|].
      by rewrite fmap_app, <-app_assoc, <-Hq.
  - assert (PipeInv (set_umem m p) q) as Hinv' by (by destruct Hinv).
    destruct (wp_elim _ _ _ _ _ (piperead_spec killed addr n _ q Hinv') Hrun) as (-> & _ & _ & ->).
    by exists [].
  - exists q. split; [|done]. destruct writable; injection Hrun as _ <-; by destruct Hinv.
Qed.

(** * Properties *)

(** C28. A pipe is a FIFO queue: in every interleaving of writes, reads and
    closes by any number of processes, the bytes that readers have taken are, in
    order, a prefix of the bytes accepted from writers, and the ring holds exactly
    the others, at most [PIPESIZE]; the 32-bit counters wrap without harm.  A read
    then sleeps or returns -1 only while the pipe is empty and open for writing;
    otherwise it returns the number [k] of bytes that it has copied from the front
    of the queue to the caller, as many as asked for and present, unless the
    caller's buffer ends before: then the byte that did not fit is lost. *)
Theorem pipe_fifo p W T :
  pipe_run p W T → ∃ q, W = T.*1 ++ q ∧ PipeInv p q ∧
    ∀ killed addr n m, wp (piperead killed addr n) (λ o p',
      match o with
      | Asleep _ => q = [] ∧ writeopen p = true ∧ killed = false
      | Return r => (r = -1 ∧ q = [] ∧ writeopen p = true ∧ killed = true) ∨
          (q = [] → writeopen p = false) ∧ ∃ k, r = Z.of_nat k ∧ (k ≤ length q)%nat ∧ umem p' = mput m addr (take k q) ∧
            (k = Nat.min (Z.to_nat n) (length q) ∧ PipeInv p' (drop k q) ∨
             m !! (addr + Z.of_nat k) = None ∧ (k < Nat.min (Z.to_nat n) (length q))%nat ∧ PipeInv p' (drop (S k) q))
      end) (set_umem m p).
Proof.
  intros (q & Hinv & HW)%pipe_run_inv. exists q. split_and!; [done..|]. intros killed addr n m.
  assert (PipeInv (set_umem m p) q) as Hinv' by (by destruct Hinv).
  eapply wp_mono; [by apply piperead_spec|]. intros [r|i] p' H; [|naive_solver].
  destruct H as [(? & ? & ? & ? & _)|[(k & -> & Hu & _ & _ & _ & Hk & Hcase) [_ Hq]]]; [by left|right]. split; [done|].
  exists k. split_and!; [done..|]. naive_solver.
Qed.

(** Two bytes are written; a reader without a buffer loses the first, and the next
    one gets the second. *)
Lemma pipe_fifo_witness : ∃ p q,
  pipe_run p [65; 66] [(65, false); (66, true)] ∧ [65; 66] = [65; 66] ++ q ∧ PipeInv p q.
Proof.
  pose (p0 := pipe_init (replicate 512 0) ∅).
  pose (w := pipewrite_from (λ a, Some (65 + a)) (λ _, false) 0 2 0 p0).
  destruct w as [[o1 p1]| | | |] eqn:Ew; [|vm_compute in Ew; discriminate..].
  assert (pipe_run p1 [65; 66] []) as H1.
  { assert ([] ++ accepted (λ a, Some (65 + a)) (0 + 0) p0 p1 = [65; 66]) as E.
    { vm_compute in Ew. injection Ew as _ <-. vm_compute. reflexivity. }
    rewrite <-E. eapply (run_write p0 [] [] _ _ 0 2 0); [apply run_init; reflexivity|lia|exact Ew]. }
  assert (∃ p2, piperead false 7 1 (set_umem ∅ p1) = Ok (Return 0, p2) ∧ taken 7 0 p1 p2 = [(65, false)] ∧
    ∃ p3, piperead false 7 1 (set_umem {[7 := 0]} p2) = Ok (Return 1, p3) ∧ taken 7 1 p2 p3 = [(66, true)]) as (p2 & Er & Et & p3 & Er3 & Et3).
  { vm_compute in Ew. injection Ew as _ <-. eexists. split; [vm_compute; reflexivity|]. split; [vm_compute; reflexivity|].
    eexists. split; [vm_compute; reflexivity|]. vm_compute. reflexivity. }
  assert (pipe_run p3 [65; 66] ([(65, false)] ++ [(66, true)])) as H3.
  { rewrite <-Et3. eapply run_read; [|exact Er3]. rewrite <-Et. change (taken 7 0 p1 p2) with ([] ++ taken 7 0 p1 p2). eapply run_read; [exact H1|exact Er]. }
  destruct (pipe_fifo p3 _ _ H3) as (q & Hq & Hp & _). exists p3, q. split; [exact H3|]. split; [exact Hq|exact Hp].
Defined.

(** A write accepts as many bytes as there are and fit: the segment of
    [pipewrite] up to the next sleep or return appends a run of the caller's
    bytes to the queue, and then either has taken all of them or met an
    unreadable address and returns the count, or sleeps on a full pipe, in
    both cases after waking up the readers; or it returns -1 because the read
    end is closed or the process has been killed. *)
Theorem pipewrite_functional copyin killed addr n p q i :
  PipeInv p q → 0 ≤ i ≤ n →
  wp (pipewrite_from copyin killed addr n i) (write_post copyin killed addr n i p q) p.
Proof. apply pipewrite_spec. Qed.

Lemma pipewrite_functional_witness :
  wp (pipewrite_from (λ a, Some (65 + a)) (λ _, false) 0 3 0)
    (write_post (λ a, Some (65 + a)) (λ _, false) 0 3 0 (pipe_init (replicate 512 0) ∅) [])
    (pipe_init (replicate 512 0) ∅).
Proof.
  apply (pipewrite_functional (λ a, Some (65 + a)) (λ _, false) 0 3).
  - split; simpl; try done; lia.
  - lia.
Defined.

(** A writer that is killed between two bytes returns without waking up
    the readers, although it has put a byte into the pipe: a reader that sleeps
    on the empty pipe stays asleep while there is data for it. *)
Theorem killed_writer_skips_wakeup :
  ∃ p', pipewrite (λ _, Some 65) (λ i, i =? 1) 0 2 (pipe_init (replicate 512 0) ∅)
        = Ok (Return (-1), p') ∧
    PipeInv p' [65] ∧ wakes p' = [] ∧ writeopen p' = true.
Proof.
  eexists. split; [vm_compute; reflexivity|]. split_and!; [|done|done].
  split; simpl; try done; try (unfold PIPESIZE; lia).
  intros [|i] x Hx; simplify_eq/=. vm_compute. done.
Qed.
