(* ===== verification/Console.v ===== *)
(** * Console input and output ([kernel/console.c])

    [consoleintr] edits the line being typed; [consoleread] delivers whole
    lines.  A [consoleread] that waits gives up the lock: [consoleread_from]
    runs from the head of its loop to the next sleep or to the return, and the
    outcome [Asleep n dst] carries its loop variables.  [echo] is what
    [consputc] sends to the UART.  User memory is the byte memory [umem]. *)

From S2P Require Import Prelude Word Mem Ring.

Definition BACKSPACE : Z := 0x100.
(** [C(x)]: control characters. *)
Definition Ctrl (x : Z) : Z := x - 64.
Definition INPUT_BUF_SIZE : Z := 128.
Definition NEWLINE : Z := 10.

Record cons := Cons {
  c_buf : list Z;
  c_r : Z;
  c_w : Z;
  c_e : Z;
  echo : list Z;        (** bytes sent to the UART, oldest first *)
  woken : bool;         (** [wakeup(&cons.r)] was called *)
  umem : mem;
}.

Definition set_rwe (r w e : Z) (s : cons) : cons := Cons (c_buf s) r w e (echo s) (woken s) (umem s).
Definition set_buf (b : list Z) (s : cons) : cons := Cons b (c_r s) (c_w s) (c_e s) (echo s) (woken s) (umem s).
Definition set_echo (l : list Z) (s : cons) : cons := Cons (c_buf s) (c_r s) (c_w s) (c_e s) l (woken s) (umem s).
Definition set_umem (m : mem) (s : cons) : cons := Cons (c_buf s) (c_r s) (c_w s) (c_e s) (echo s) (woken s) m.
Definition wakeup : K cons unit :=
  modify (λ s, Cons (c_buf s) (c_r s) (c_w s) (c_e s) (echo s) true (umem s)).

Definition uartputc_sync (c : Z) : K cons unit := modify (λ s, set_echo (echo s ++ [c]) s).

Definition consputc (c : Z) : K cons unit :=
  if c =? BACKSPACE then uartputc_sync 8;; uartputc_sync 32;; uartputc_sync 8
  else uartputc_sync c.

(** [cons.e--; consputc(BACKSPACE)] *)
Definition erase : K cons unit :=
  modify (λ s, set_rwe (c_r s) (c_w s) (u32 (c_e s - 1)) s);;
  consputc BACKSPACE.

(** [procdump] only prints. *)
Definition consoleintr (procdump : K cons unit) (c : Z) : K cons unit :=
  if c =? Ctrl 80 then procdump
  else if c =? Ctrl 85 then
    len ← gets (λ s, u32 (c_e s - c_w s));
    while_loop (S (Z.to_nat len)) tt (λ _,
      go ← gets (λ s, negb (c_e s =? c_w s) &&
                      negb (ring_get INPUT_BUF_SIZE (u32 (c_e s - 1)) (c_buf s) =? NEWLINE));
      if (go : bool) then erase;; mret (inl tt) else mret (inr tt))
  else if (c =? Ctrl 72) || (c =? 0x7f) then
    more ← gets (λ s, negb (c_e s =? c_w s));
    when more erase
  else
    room ← gets (λ s, u32 (c_e s - c_r s) <? INPUT_BUF_SIZE);
    when (negb (c =? 0) && room) (
      let c := if c =? 13 then NEWLINE else c in
      consputc c;;
      modify (λ s, set_buf (ring_put INPUT_BUF_SIZE (c_e s) c (c_buf s)) s);;
      modify (λ s, set_rwe (c_r s) (c_w s) (u32 (c_e s + 1)) s);;
      full ← gets (λ s, u32 (c_e s - c_r s) =? INPUT_BUF_SIZE);
      when ((c =? NEWLINE) || (c =? Ctrl 68) || full) (
        modify (λ s, set_rwe (c_r s) (c_e s) (c_e s) s);;
        wakeup)).

Inductive outcome := Return (r : Z) | Asleep (n dst : Z).

Section read.
Context (killed : bool) (target : Z).

(** One iteration of [while(n > 0)]; [inr None] leaves the loop. *)
Definition read_iter (n dst : Z) : K cons ((Z * Z) + (Z * option outcome)) :=
  r ← gets c_r;
  w ← gets c_w;
  if r =? w then
    if killed then mret (inr (n, Some (Return (-1)))) else mret (inr (n, Some (Asleep n dst)))
  else
    c ← gets (λ s, ring_get INPUT_BUF_SIZE r (c_buf s));
    modify (λ s, set_rwe (u32 (r + 1)) (c_w s) (c_e s) s);;
    if c =? Ctrl 68 then
      when (n <? target) (modify (λ s, set_rwe (u32 (c_r s - 1)) (c_w s) (c_e s) s));;
      mret (inr (n, None))
    else
      m ← gets umem;
      match m !! dst with
      | None => mret (inr (n, None))
      | Some _ =>
          modify (set_umem (<[dst := c]> m));;
          mret (if c =? NEWLINE then inr (n - 1, None) else inl (n - 1, dst + 1))
      end.

Definition consoleread_from (n dst : Z) : K cons outcome :=
  r ← while_loop (S (Z.to_nat n)) (n, dst) (λ '(n, dst),
    if 0 <? n then read_iter n dst else mret (inr (n, None)));
  match r with
  | (_, Some o) => mret o
  | (n, None) => mret (Return (target - n))
  end.
End read.

Definition consoleread (killed : bool) (dst n : Z) : K cons outcome := consoleread_from killed n n dst.

(** [consolewrite]: bytes of the caller until one cannot be fetched. *)
Definition consolewrite (copyin : Z → option Z) (uartputc : Z → K cons unit) (src n : Z) : K cons Z :=
  r ← for_loop (Z.to_nat n) 0 (λ i,
    match copyin (src + i) with
    | None => mret (Some i)
    | Some c => uartputc c;; mret None
    end);
  mret (default (Z.max 0 n) r).

(** ** The editor *)

(** [com] is complete input that [consoleread] may take, [ed] the line being
    edited; together they fill the ring from [c_r] to [c_e]. *)
Record CInv (s : cons) (com ed : list Z) : Prop := {
  ci_size : length (c_buf s) = Z.to_nat INPUT_BUF_SIZE;
  ci_r : 0 ≤ c_r s < 2 ^ 32;
  ci_w : c_w s = u32 (c_r s + Z.of_nat (length com));
  ci_e : c_e s = u32 (c_r s + Z.of_nat (length com + length ed));
  ci_room : (length com + length ed ≤ Z.to_nat INPUT_BUF_SIZE)%nat;
  ci_data : ring_holds INPUT_BUF_SIZE (c_buf s) (c_r s) (com ++ ed);
  ci_line : NEWLINE ∉ ed;
}.

(** What a character typed does to the two lists. *)
Definition edit (c : Z) (st : list Z * list Z) : list Z * list Z :=
  let '(com, ed) := st in
  if c =? Ctrl 80 then (com, ed)
  else if c =? Ctrl 85 then (com, [])
  else if (c =? Ctrl 72) || (c =? 0x7f) then (com, take (length ed - 1) ed)
  else if negb (c =? 0) && bool_decide (length com + length ed < Z.to_nat INPUT_BUF_SIZE)%nat then
    let c := if c =? 13 then NEWLINE else c in
    if (c =? NEWLINE) || (c =? Ctrl 68) ||
       bool_decide (length com + length ed + 1 = Z.to_nat INPUT_BUF_SIZE)%nat
    then (com ++ ed ++ [c], [])
    else (com, ed ++ [c])
  else (com, ed).

(** What a read of at most [n] bytes takes from the complete input: the bytes
    delivered, the input left, and whether the read is over.  [got] says that
    the call has delivered a byte before. *)
Fixpoint take_line (n : nat) (got : bool) (com : list Z) : list Z * list Z * bool :=
  match n, com with
  | O, _ => ([], com, true)
  | S _, [] => ([], [], false)
  | S n, c :: com' =>
      if c =? Ctrl 68 then ([], if got then com else com', true)
      else if c =? NEWLINE then ([c], com', true)
      else let '(d, rest, over) := take_line n true com' in (c :: d, rest, over)
  end.

Lemma BUF_divides : (INPUT_BUF_SIZE | 2 ^ 32).
Proof. exists (2 ^ 25). reflexivity. Qed.
Lemma BUF_pos : 0 < INPUT_BUF_SIZE.
Proof. done. Qed.
#[local] Hint Resolve BUF_divides BUF_pos : core.

Section edit.
Implicit Types (s : cons) (com ed : list Z).

Lemma CInv_editing s com ed : CInv s com ed → negb (c_e s =? c_w s) = bool_decide (ed ≠ []).
Proof.
  intros [_ _ Hw He Hr _ _]. apply eq_bool_prop_intro.
  rewrite bool_decide_spec, negb_True, Is_true_true, Z.eqb_eq, Hw, He, <-length_zero_iff_nil.
  unfold INPUT_BUF_SIZE in *. split; intros H E; apply H; [f_equal; lia|].
  apply u32_inj in E; lia.
Qed.

Lemma CInv_len s com ed : CInv s com ed → u32 (c_e s - c_r s) = Z.of_nat (length com + length ed).
Proof.
  intros [_ Hr _ He Hroom _ _]. rewrite He. apply u32_diff. unfold INPUT_BUF_SIZE in *. lia.
Qed.

Lemma CInv_edlen s com ed : CInv s com ed → u32 (c_e s - c_w s) = Z.of_nat (length ed).
Proof.
  intros [_ Hr Hw He Hroom _ _]. rewrite He, Hw, u32_diff2; unfold INPUT_BUF_SIZE in *; lia.
Qed.

(** Fields that the invariant does not mention. *)
Lemma CInv_ext s s' com ed :
  c_buf s' = c_buf s → c_r s' = c_r s → c_w s' = c_w s → c_e s' = c_e s →
  CInv s com ed → CInv s' com ed.
Proof. destruct s, s'. simpl. intros -> -> -> -> []. by split. Qed.

Lemma erase_spec s com ed x :
  CInv s com (ed ++ [x]) →
  wp erase (λ _ s', CInv s' com ed ∧ c_w s' = c_w s ∧ c_r s' = c_r s) s.
Proof.
  intros [H1 H2 H3 H4 H5 H6 H7]. unfold erase, consputc, uartputc_sync. simpl. wp_steps. split; [|done].
  eapply CInv_ext; [reflexivity..|]. split; simpl; try done.
  - rewrite H4, length_app. simpl. unfold u32, wrap. rewrite Zminus_mod_idemp_l. f_equal. lia.
  - rewrite length_app in H5. simpl in H5. lia.
  - rewrite app_assoc in H6. by apply ring_app in H6 as [? _].
  - set_solver.
Qed.

(** The byte that [erase] would remove. *)
Lemma CInv_last s com ed x :
  CInv s com (ed ++ [x]) → ring_get INPUT_BUF_SIZE (u32 (c_e s - 1)) (c_buf s) = x.
Proof.
  intros [_ _ _ H4 _ H6 _]. rewrite ring_get_wrap by auto.
  rewrite <-(ring_get_wrap INPUT_BUF_SIZE) by auto. rewrite H4.
  replace (u32 (u32 (c_r s + Z.of_nat (length com + length (ed ++ [x]))) - 1))
    with (u32 (c_r s + Z.of_nat (length (com ++ ed)))).
  2:{ unfold u32, wrap. rewrite Zminus_mod_idemp_l. f_equal. rewrite !length_app. simpl. lia. }
  rewrite ring_get_wrap by auto. apply H6. rewrite app_assoc, lookup_app_r by done. by rewrite Nat.sub_diag.
Qed.

Lemma kill_spec s com ed :
  CInv s com ed →
  wp (while_loop (S (length ed)) tt (λ _,
      go ← gets (λ s, negb (c_e s =? c_w s) &&
                      negb (ring_get INPUT_BUF_SIZE (u32 (c_e s - 1)) (c_buf s) =? NEWLINE));
      if (go : bool) then erase;; mret (inl tt) else mret (inr tt))) (λ _ s', CInv s' com []) s.
Proof.
  intros Hinv. apply (wp_while_loop (λ k _ s', ∃ ed', CInv s' com ed' ∧ length ed' = k) _ _ _ (length ed));
    [by exists ed|lia|]. clear s Hinv.
  intros k [] s (ed' & Hinv & <-). apply wp_bind, wp_gets. rewrite (CInv_editing _ _ _ Hinv).
  destruct ed' as [|x ed' _] using rev_ind; [by apply wp_ret|].
  rewrite bool_decide_true by (by intros [_ ?]%app_nil). rewrite (CInv_last _ _ _ _ Hinv). simpl.
  destruct (Z.eqb_spec x NEWLINE) as [->|Hx].
  { destruct (ci_line _ _ _ Hinv). set_solver. }
  simpl. eapply wp_seq; [by eapply erase_spec|]. intros _ s' (Hinv' & _). apply wp_ret.
  exists (length ed'). rewrite length_app. simpl. split; [lia|]. by exists ed'.
Qed.
End edit.

(** Storing a character. *)
Lemma store_spec s com ed c :
  CInv s com ed → (length com + length ed < Z.to_nat INPUT_BUF_SIZE)%nat → c ≠ NEWLINE →
  CInv (set_rwe (c_r s) (c_w s) (u32 (c_e s + 1)) (set_buf (ring_put INPUT_BUF_SIZE (c_e s) c (c_buf s)) s))
    com (ed ++ [c]).
Proof.
  intros [H1 H2 H3 H4 H5 H6 H7] Hlt Hc. split; simpl.
  - by rewrite length_ring_put.
  - done.
  - done.
  - rewrite H4, u32_add, length_app. simpl. f_equal. lia.
  - rewrite length_app. simpl. lia.
  - rewrite app_assoc, H4, <-length_app. apply ring_push; auto. rewrite length_app. lia.
  - set_solver.
Qed.

(** Storing a character that completes the line. *)
Lemma store_commit_spec s com ed c :
  CInv s com ed → (length com + length ed < Z.to_nat INPUT_BUF_SIZE)%nat →
  CInv (set_rwe (c_r s) (u32 (c_e s + 1)) (u32 (c_e s + 1))
         (set_buf (ring_put INPUT_BUF_SIZE (c_e s) c (c_buf s)) s)) (com ++ ed ++ [c]) [].
Proof.
  intros [H1 H2 H3 H4 H5 H6 H7] Hlt. split; simpl.
  - by rewrite length_ring_put.
  - done.
  - rewrite H4, u32_add, !length_app. simpl. f_equal. lia.
  - rewrite H4, u32_add, !length_app. simpl. f_equal. lia.
  - rewrite !length_app. simpl. lia.
  - rewrite app_nil_r, app_assoc, H4, <-length_app. apply ring_push; auto. rewrite length_app. lia.
  - set_solver.
Qed.

Lemma consputc_spec c (Q : unit → cons → Prop) s :
  (∀ l, Q tt (set_echo l s)) → wp (consputc c) Q s.
Proof. intros H. unfold consputc, uartputc_sync. destruct (c =? BACKSPACE); wp_steps; apply H. Qed.

Lemma default_spec s com ed c :
  CInv s com ed → (length com + length ed < Z.to_nat INPUT_BUF_SIZE)%nat →
  let over := (c =? NEWLINE) || (c =? Ctrl 68) ||
              bool_decide (length com + length ed + 1 = Z.to_nat INPUT_BUF_SIZE)%nat in
  wp (consputc c;;
      modify (λ s, set_buf (ring_put INPUT_BUF_SIZE (c_e s) c (c_buf s)) s);;
      modify (λ s, set_rwe (c_r s) (c_w s) (u32 (c_e s + 1)) s);;
      full ← gets (λ s, u32 (c_e s - c_r s) =? INPUT_BUF_SIZE);
      when ((c =? NEWLINE) || (c =? Ctrl 68) || full) (
        modify (λ s, set_rwe (c_r s) (c_e s) (c_e s) s);;
        wakeup)) (λ _ s', if over then CInv s' (com ++ ed ++ [c]) [] ∧ woken s' = true
                          else CInv s' com (ed ++ [c])) s.
Proof.
  intros Hinv Hlt over. apply wp_bind, consputc_spec. intros l.
  assert (CInv (set_echo l s) com ed) as Hinv1 by (by eapply CInv_ext, Hinv).
  pose proof (store_commit_spec _ _ _ c Hinv1 Hlt) as Hcm.
  apply wp_bind, wp_modify, wp_bind, wp_modify, wp_bind, wp_gets. simpl.
  assert ((u32 (u32 (c_e s + 1) - c_r s) =? INPUT_BUF_SIZE) =
          bool_decide (length com + length ed + 1 = Z.to_nat INPUT_BUF_SIZE)%nat) as ->.
  { rewrite (ci_e _ _ _ Hinv), u32_add, <-Z.add_assoc, u32_diff by (unfold INPUT_BUF_SIZE in *; lia).
    apply eq_bool_prop_intro. rewrite bool_decide_spec, Is_true_true, Z.eqb_eq. unfold INPUT_BUF_SIZE. lia. }
  fold over. destruct over eqn:Ho; simpl.
  - apply wp_bind, wp_modify, wp_modify. split; [|done]. by eapply CInv_ext, Hcm.
  - apply wp_ret. apply (store_spec _ _ _ c Hinv1 Hlt). unfold over in Ho. intros ->. done.
Qed.

Lemma consoleintr_spec s com ed c procdump :
  CInv s com ed → (∀ s, wp procdump (λ _ s', ∃ l, s' = set_echo l s) s) →
  wp (consoleintr procdump c) (λ _ s', CInv s' (edit c (com, ed)).1 (edit c (com, ed)).2) s.
Proof.
  intros Hinv Hpd. unfold consoleintr, edit. destruct (c =? Ctrl 80).
  { eapply wp_mono; [apply Hpd|]. intros _ s' [l ->]. by eapply CInv_ext, Hinv. }
  destruct (c =? Ctrl 85).
  { apply wp_bind, wp_gets. rewrite (CInv_edlen _ _ _ Hinv), Nat2Z.id. by apply kill_spec. }
  destruct ((c =? Ctrl 72) || (c =? 0x7f)).
  { apply wp_bind, wp_gets. rewrite (CInv_editing _ _ _ Hinv).
    destruct ed as [|x ed _] using rev_ind; [done|].
    rewrite bool_decide_true by (by intros [_ ?]%app_nil). simpl.
    eapply wp_mono; [by eapply erase_spec|]. intros _ s' (Hinv' & _).
    rewrite length_app. simpl. replace (length ed + 1 - 1)%nat with (length ed) by lia. by rewrite take_app_length. }
  apply wp_bind, wp_gets. rewrite (CInv_len _ _ _ Hinv).
  assert ((Z.of_nat (length com + length ed) <? INPUT_BUF_SIZE) =
          bool_decide (length com + length ed < Z.to_nat INPUT_BUF_SIZE)%nat) as ->.
  { apply eq_bool_prop_intro. rewrite bool_decide_spec, Is_true_true, Z.ltb_lt. unfold INPUT_BUF_SIZE. lia. }
  destruct (negb (c =? 0)); simpl; [|done]. case_bool_decide as Hlt; simpl; [|done].
  eapply wp_mono; [by apply default_spec|]. intros u s'. cbv zeta.
  destruct (_ || _ || _); [by intros [? _]|done].
Qed.

(** ** Reading *)
Lemma CInv_empty s com ed : CInv s com ed → (c_r s =? c_w s) = bool_decide (com = []).
Proof.
  intros [_ Hr Hw _ Hroom _ _]. apply eq_bool_prop_intro.
  rewrite bool_decide_spec, Is_true_true, Z.eqb_eq, Hw, <-length_zero_iff_nil.
  assert (u32 (c_r s + 0) = c_r s) as E0 by (rewrite Z.add_0_r; apply wrap_small; lia).
  rewrite <-E0 at 1. unfold INPUT_BUF_SIZE in *. split; [intros E%u32_inj; lia|by intros ->].
Qed.

Lemma CInv_take s c com ed :
  CInv s (c :: com) ed →
  ring_get INPUT_BUF_SIZE (c_r s) (c_buf s) = c ∧
  CInv (set_rwe (u32 (c_r s + 1)) (c_w s) (c_e s) s) com ed.
Proof.
  intros [H1 H2 H3 H4 H5 H6 H7]. simpl in *. apply ring_pop in H6 as [Hc H6]; [|auto]. split; [done|].
  split; simpl; try done.
  - apply wrap_range. lia.
  - rewrite H3, u32_add. f_equal. lia.
  - rewrite H4, u32_add. f_equal. lia.
  - lia.
Qed.

Lemma read_iter_spec killed target s com ed n dst :
  CInv s com ed → is_Some (umem s !! dst) →
  wp (read_iter killed target n dst) (λ r s',
    match com with
    | [] => s' = s ∧ r = inr (n, Some (if killed then Return (-1) else Asleep n dst))
    | c :: com' =>
        if c =? Ctrl 68 then
          r = inr (n, None) ∧ CInv s' (if n <? target then com else com') ed ∧ umem s' = umem s
        else
          r = (if c =? NEWLINE then inr (n - 1, None) else inl (n - 1, dst + 1)) ∧
          CInv s' com' ed ∧ umem s' = <[dst := c]> (umem s)
    end) s.
Proof.
  intros Hinv [y Hy]. unfold read_iter. apply wp_bind, wp_gets, wp_bind, wp_gets.
  rewrite (CInv_empty _ _ _ Hinv). destruct com as [|c com].
  { rewrite bool_decide_true by done. by destruct killed; apply wp_ret. }
  destruct (CInv_take _ _ _ _ Hinv) as [Hc Hinv1].
  rewrite bool_decide_false by done. apply wp_bind, wp_gets, wp_bind, wp_modify. rewrite Hc.
  destruct (c =? Ctrl 68).
  - apply wp_bind. destruct (n <? target); simpl; apply wp_ret; [|done]. split_and!; try done.
    eapply CInv_ext, Hinv; try done. simpl. destruct Hinv as [_ Hr _ _ _ _ _].
    unfold u32, wrap. rewrite Zminus_mod_idemp_l.
    replace (c_r s + 1 - 1) with (c_r s) by lia. apply Z.mod_small. lia.
  - apply wp_bind, wp_gets. simpl. rewrite Hy. apply wp_bind, wp_modify, wp_ret.
    split_and!; [done|by eapply CInv_ext, Hinv1|done].
Qed.

(** Reading [n] more bytes of [target] to [dst]: the delivered bytes are in
    user memory, and the call returns their number, or waits for more. *)
Definition read_result (killed : bool) (target dst : Z) (n : nat) (d : list Z) (over : bool) : outcome :=
  let left := Z.of_nat n - Z.of_nat (length d) in
  if over then Return (target - left)
  else if killed then Return (-1) else Asleep left (dst + Z.of_nat (length d)).

Lemma consoleread_spec n killed target s com ed dst :
  CInv s com ed → Z.of_nat n ≤ target → mapped (umem s) dst n →
  let '(d, rest, over) := take_line n (bool_decide (Z.of_nat n < target)) com in
  wp (consoleread_from killed target (Z.of_nat n) dst) (λ o s',
    CInv s' rest ed ∧ umem s' = mput (umem s) dst d ∧ o = read_result killed target dst n d over) s.
Proof.
  unfold consoleread_from. rewrite Nat2Z.id. revert s com dst.
  induction n as [|n IH]; intros s com dst Hinv Hn Hm.
  { simpl. by apply wp_bind, wp_ret, wp_ret. }
  assert (is_Some (umem s !! dst)) as Hd by (rewrite <-(Z.add_0_r dst); apply (Hm 0%nat); lia).
  pose proof (read_iter_spec killed target s com ed (Z.of_nat (S n)) dst Hinv Hd) as Hit.
  destruct (take_line _ _ com) as [[d rest] over] eqn:Ht. cbn [while_loop take_line] in *.
  apply wp_bind, wp_bind. rewrite (proj2 (Z.ltb_lt 0 _)) by lia.
  eapply wp_mono; [exact Hit|]. intros r s1 Hr. clear Hit. unfold read_result.
  destruct com as [|c com]; [destruct Hr as [-> ->]; simplify_eq; destruct killed; repeat apply wp_ret;
    split_and!; first [done|simpl; f_equal; lia]|].
  destruct (c =? Ctrl 68); [|destruct (c =? NEWLINE)].
  - destruct Hr as (-> & Hi & Hu). simplify_eq. repeat apply wp_ret. split_and!; [|done|simpl; f_equal; lia].
    revert Hi. destruct (Z.ltb_spec (Z.of_nat (S n)) target);
      [rewrite bool_decide_true by done|rewrite bool_decide_false by lia]; done.
  - destruct Hr as (-> & Hi & Hu). simplify_eq. repeat apply wp_ret. split_and!; [done|done|simpl; f_equal; lia].
  - destruct Hr as (-> & Hi & Hu). destruct (take_line n true com) as [[d' rest'] over'] eqn:Ht'. simplify_eq.
    replace (Z.of_nat (S n) - 1) with (Z.of_nat n) by lia. apply wp_bind_inv.
    specialize (IH s1 com (dst + 1) Hi). rewrite bool_decide_true, Ht' in IH by lia.
    eapply wp_mono; [apply IH; [lia|]|].
    + intros i Hi'. rewrite Hu. apply lookup_insert_is_Some'. right.
      replace (dst + 1 + Z.of_nat i) with (dst + Z.of_nat (S i)) by lia. apply Hm. lia.
    + intros o s' (Hi' & Hu' & ->). split_and!; [done|by rewrite Hu', Hu|]. unfold read_result. cbn [length].
      destruct over, killed; try done; f_equal; lia.
Qed.

(** * Properties *)

(** C29. Line editing: the interrupt handler implements the abstract editor on
    the committed input and the line being typed.  Control-U drops the line,
    backspace and delete its last character, carriage return counts as
    newline; newline, control-D and a full buffer commit the line; characters
    that do not fit are ignored, and committed input is never touched. *)
Theorem consoleintr_edits s com ed c procdump :
  CInv s com ed → (∀ s, wp procdump (λ _ s', ∃ l, s' = set_echo l s) s) →
  wp (consoleintr procdump c) (λ _ s',
    CInv s' (edit c (com, ed)).1 (edit c (com, ed)).2 ∧
    ∃ l, (edit c (com, ed)).1 = com ++ l) s.
Proof.
  intros Hinv Hpd. eapply wp_mono; [by apply consoleintr_spec|]. intros u s' Hs. split; [exact Hs|].
  unfold edit. repeat (case_match; simpl); solve [by exists []; rewrite app_nil_r|by eexists].
Qed.

(** The console after [consoleinit]: zeroed. *)
Definition cons0 (m : mem) : cons := Cons (replicate 128 0) 0 0 0 [] false m.

Lemma cons0_inv m : CInv (cons0 m) [] [].
Proof. split; simpl; first [done|lia|by intros ?%elem_of_nil|by intros i x ?]. Qed.

Lemma consoleintr_edits_witness :
  wp (consoleintr (mret tt) 97) (λ _ s', CInv s' [] [97] ∧ ∃ l : list Z, [] = [] ++ l) (cons0 ∅).
Proof.
  apply (consoleintr_edits (cons0 ∅) [] [] 97 (mret tt)).
  - exact (cons0_inv ∅).
  - intros s. exists (echo s). destruct s; reflexivity.
Defined.

(** [consoleread] delivers one line at a time: it copies the committed
    bytes through the first newline, at most [n] of them, to the caller and
    returns their number; a control-D ends the input, and is kept for the
    next call (which then returns 0) if bytes have been delivered already.
    When the committed input runs out first, it waits with the rest of the
    request, or returns -1 if the process has been killed. *)
Theorem consoleread_line n killed s com ed dst :
  CInv s com ed → mapped (umem s) dst n →
  let '(d, rest, over) := take_line n false com in
  wp (consoleread killed dst (Z.of_nat n)) (λ o s',
    CInv s' rest ed ∧ umem s' = mput (umem s) dst d ∧
    o = read_result killed (Z.of_nat n) dst n d over) s.
Proof.
  intros Hinv Hm. pose proof (consoleread_spec n killed (Z.of_nat n) s com ed dst Hinv ltac:(lia) Hm) as H.
  by rewrite bool_decide_false in H by lia.
Qed.

Lemma consoleread_line_witness :
  wp (consoleread false 7 4) (λ o s', CInv s' [] [] ∧ umem s' = mput ∅ 7 [0; 0; 0; 0] ∧ o = Asleep 4 7)
    (cons0 (mput ∅ 7 [0; 0; 0; 0])).
Proof.
  apply (consoleread_line 4 false (cons0 (mput ∅ 7 [0; 0; 0; 0])) [] [] 7).
  - apply cons0_inv.
  - apply (holds_mapped _ 7 [0; 0; 0; 0]), holds_mput.
Defined.
