(* ===== verification/Uart.v ===== *)
(** * The UART driver ([kernel/uart.c])

    The transmit buffer and the device.  The device has received bytes in [rx] and
    can take [credit] more bytes for transmission before it is busy; what is
    written to its holding register goes to [thr].  The console, which gets the
    bytes that arrive, is a component of the state.  [uartputc] is split where it
    sleeps. *)

From S2P Require Import Prelude Word Mem Ring Console.

Definition RHR : Z := 0.
Definition THR : Z := 0.
Definition IER : Z := 1.
Definition IER_RX_ENABLE : Z := Z.shiftl 1 0.
Definition IER_TX_ENABLE : Z := Z.shiftl 1 1.
Definition FCR : Z := 2.
Definition FCR_FIFO_ENABLE : Z := Z.shiftl 1 0.
Definition FCR_FIFO_CLEAR : Z := Z.shiftl 3 1.
Definition ISR : Z := 2.
Definition LCR : Z := 3.
Definition LCR_EIGHT_BITS : Z := Z.shiftl 3 0.
Definition LCR_BAUD_LATCH : Z := Z.shiftl 1 7.
Definition LSR : Z := 5.
Definition LSR_RX_READY : Z := Z.shiftl 1 0.
Definition LSR_TX_IDLE : Z := Z.shiftl 1 5.
Definition UART_TX_BUF_SIZE : Z := 32.

Record uart := Uart {
  tx_buf : list Z;
  tx_w : Z;
  tx_r : Z;
  uart_panicked : bool;     (** [panicked] of [printf.c] *)
  rx : list Z;
  thr : list Z;
  credit : nat;
  ctl : list (Z * Z);       (** writes to the control registers *)
  tx_woken : bool;          (** [wakeup(&uart_tx_r)] was called *)
  console : cons;
}.
Definition set_tx (b : list Z) (w r : Z) (u : uart) : uart :=
  Uart b w r (uart_panicked u) (rx u) (thr u) (credit u) (ctl u) (tx_woken u) (console u).
Definition set_rx (l : list Z) (u : uart) : uart :=
  Uart (tx_buf u) (tx_w u) (tx_r u) (uart_panicked u) l (thr u) (credit u) (ctl u) (tx_woken u) (console u).
Definition set_thr (l : list Z) (n : nat) (u : uart) : uart :=
  Uart (tx_buf u) (tx_w u) (tx_r u) (uart_panicked u) (rx u) l n (ctl u) (tx_woken u) (console u).
Definition set_ctl (l : list (Z * Z)) (u : uart) : uart :=
  Uart (tx_buf u) (tx_w u) (tx_r u) (uart_panicked u) (rx u) (thr u) (credit u) l (tx_woken u) (console u).
Definition set_woken (b : bool) (u : uart) : uart :=
  Uart (tx_buf u) (tx_w u) (tx_r u) (uart_panicked u) (rx u) (thr u) (credit u) (ctl u) b (console u).
Definition set_console (c : cons) (u : uart) : uart :=
  Uart (tx_buf u) (tx_w u) (tx_r u) (uart_panicked u) (rx u) (thr u) (credit u) (ctl u) (tx_woken u) c.

(** Reading the receive register takes a byte; of the line status two bits are used. *)
Definition ReadReg (reg : Z) : K uart Z :=
  u ← gets id;
  if reg =? LSR then
    mret (Z.lor (if bool_decide (rx u = []) then 0 else LSR_RX_READY) (if (credit u =? 0)%nat then 0 else LSR_TX_IDLE))
  else if reg =? RHR then
    match rx u with
    | c :: l => modify (set_rx l);; mret c
    | [] => mret 0
    end
  else mret 0.
Definition WriteReg (reg v : Z) : K uart unit :=
  if reg =? THR then modify (λ u, set_thr (thr u ++ [u8 v]) (pred (credit u)) u)
  else modify (λ u, set_ctl (ctl u ++ [(reg, v)]) u).

(** The registers 0 and 1 hold the baud rate while the latch is set. *)
Definition uartinit : K uart unit :=
  WriteReg IER 0;;
  WriteReg LCR LCR_BAUD_LATCH;;
  modify (λ u, set_ctl (ctl u ++ [(0, 3); (1, 0)]) u);;
  WriteReg LCR LCR_EIGHT_BITS;;
  WriteReg FCR (Z.lor FCR_FIFO_ENABLE FCR_FIFO_CLEAR);;
  WriteReg IER (Z.lor IER_TX_ENABLE IER_RX_ENABLE).

Definition tx_wakeup : K uart unit := modify (set_woken true).

(** The loop ends with an empty buffer or a busy device. *)
Definition uartstart : K uart unit :=
  n ← gets (λ u, u64 (tx_w u - tx_r u));
  while_loop (S (Z.to_nat n)) tt (λ _,
    w ← gets tx_w;
    r ← gets tx_r;
    if w =? r then ReadReg ISR;; mret (inr tt)
    else
      st ← ReadReg LSR;
      if Z.land st LSR_TX_IDLE =? 0 then mret (inr tt)
      else
        c ← gets (λ u, ring_get UART_TX_BUF_SIZE r (tx_buf u));
        modify (λ u, set_tx (tx_buf u) (tx_w u) (u64 (r + 1)) u);;
        tx_wakeup;;
        WriteReg THR c;;
        mret (inl tt)).

(** [false] when the process sleeps on [uart_tx_r]; it then tries again. *)
Definition uartputc (c : Z) : K uart bool :=
  p ← gets uart_panicked;
  if (p : bool) then sleep_on "panicked" else
  w ← gets tx_w;
  r ← gets tx_r;
  if w =? u64 (r + UART_TX_BUF_SIZE) then mret false
  else
    modify (λ u, set_tx (ring_put UART_TX_BUF_SIZE w (u8 c) (tx_buf u)) (u64 (w + 1)) r u);;
    uartstart;;
    mret true.

(** The device is asked until it is idle. *)
Definition uartputc_sync (c : Z) : K uart unit :=
  p ← gets uart_panicked;
  if (p : bool) then sleep_on "panicked" else
  st ← ReadReg LSR;
  if Z.land st LSR_TX_IDLE =? 0 then sleep_on "polling" else
  WriteReg THR c.

Definition uartgetc : K uart Z :=
  st ← ReadReg LSR;
  if negb (Z.land st 1 =? 0) then ReadReg RHR else mret (-1).

Definition uartintr (procdump : K cons unit) : K uart unit :=
  n ← gets (λ u, length (rx u));
  while_loop (S n) tt (λ _,
    c ← uartgetc;
    if c =? -1 then mret (inr tt)
    else lift console set_console (consoleintr procdump c);; mret (inl tt));;
  uartstart.

(** ** The transmit buffer as a queue *)
Lemma tx_pos : 0 < UART_TX_BUF_SIZE.
Proof. done. Qed.
Lemma tx_div32 : (UART_TX_BUF_SIZE | 2 ^ 32).
Proof. by exists (2 ^ 27). Qed.
Lemma tx_index i : u64 i mod UART_TX_BUF_SIZE = i mod UART_TX_BUF_SIZE.
Proof. unfold u64, wrap. apply Z.mod_mod_divide. by exists (2 ^ 59). Qed.

Record TxInv (u : uart) (q : list Z) : Prop := {
  tx_len : length (tx_buf u) = Z.to_nat UART_TX_BUF_SIZE;
  tx_holds : ring_holds UART_TX_BUF_SIZE (tx_buf u) (tx_r u) q;
  tx_count : tx_w u = u64 (tx_r u + Z.of_nat (length q));
  tx_fits : (length q ≤ 32)%nat;
  tx_range : 0 ≤ tx_r u < 2 ^ 64;
  tx_bytes : Forall (λ c, u8 c = c) q }.

Lemma TxInv_ext u u' q :
  tx_buf u' = tx_buf u → tx_w u' = tx_w u → tx_r u' = tx_r u → TxInv u q → TxInv u' q.
Proof. intros E1 E2 E3 []. split; by rewrite ?E1, ?E2, ?E3. Qed.

(** Counters at most a buffer apart. *)
Lemma tx_compare r j k :
  0 ≤ r < 2 ^ 64 → 0 ≤ j ≤ 32 → 0 ≤ k ≤ 32 → (u64 (r + j) =? u64 (r + k)) = (j =? k).
Proof.
  intros Hr Hj Hk. destruct (Z.eqb_spec j k) as [->|Hne]; [by apply Z.eqb_refl|].
  apply Z.eqb_neq. unfold u64, wrap. intros E. apply Hne.
  assert ((r + j - (r + k)) mod 2 ^ 64 = 0) as E'.
  { by rewrite Zminus_mod, E, Z.sub_diag. }
  apply Z.mod_divide in E' as [n Hn]; lia.
Qed.

Lemma TxInv_empty u q : TxInv u q → (tx_w u =? tx_r u) = (length q =? 0)%nat.
Proof.
  intros [_ _ Hw Hq Hr _]. rewrite Hw. replace (tx_r u) with (u64 (tx_r u + 0)) at 2.
  - rewrite tx_compare by lia. destruct q; simpl; lia.
  - rewrite Z.add_0_r. by apply Z.mod_small.
Qed.

Lemma TxInv_full u q :
  TxInv u q → (tx_w u =? u64 (tx_r u + UART_TX_BUF_SIZE)) = (length q =? 32)%nat.
Proof.
  intros [_ _ Hw Hq Hr _]. rewrite Hw, tx_compare by (unfold UART_TX_BUF_SIZE; lia).
  unfold UART_TX_BUF_SIZE. destruct (Nat.eqb_spec (length q) 32); lia.
Qed.

Lemma TxInv_diff u q : TxInv u q → u64 (tx_w u - tx_r u) = Z.of_nat (length q).
Proof.
  intros [_ _ Hw Hq Hr _]. rewrite Hw. unfold u64, wrap. rewrite Zminus_mod_idemp_l.
  replace (tx_r u + _ - _) with (Z.of_nat (length q)) by lia. apply Z.mod_small. lia.
Qed.

Lemma TxInv_push u q c :
  TxInv u q → (length q < 32)%nat →
  TxInv (set_tx (ring_put UART_TX_BUF_SIZE (tx_w u) (u8 c) (tx_buf u)) (u64 (tx_w u + 1)) (tx_r u) u)
    (q ++ [u8 c]).
Proof.
  intros [Hl Hh Hw Hq Hr Hb] Hlt. split; simpl.
  - by rewrite length_ring_put.
  - unfold ring_put. rewrite Hw, tx_index.
    pose proof (ring_push _ tx_pos tx_div32 _ _ _ (u8 c) Hl Hh) as Hp.
    rewrite (ring_put_wrap _ tx_div32) in Hp. apply Hp. unfold UART_TX_BUF_SIZE. lia.
  - rewrite Hw, length_app. simpl. unfold u64, wrap. rewrite Zplus_mod_idemp_l. f_equal. lia.
  - rewrite length_app. simpl. lia.
  - done.
  - apply Forall_app_2; [done|]. apply Forall_singleton. by apply wrap_wrap.
Qed.

Lemma TxInv_pop u c q :
  TxInv u (c :: q) →
  ring_get UART_TX_BUF_SIZE (tx_r u) (tx_buf u) = c ∧
  TxInv (set_tx (tx_buf u) (tx_w u) (u64 (tx_r u + 1)) u) q.
Proof.
  intros [Hl Hh Hw Hq Hr [_ Hb]%Forall_cons].
  apply (ring_pop _ tx_div32) in Hh as [Hg Hh]. split; [done|]. split; simpl in *; try done.
  - eapply ring_holds_mod, Hh. by rewrite (ring_index_wrap _ tx_div32), tx_index.
  - rewrite Hw. unfold u64, wrap. rewrite Zplus_mod_idemp_l. f_equal. lia.
  - lia.
  - apply wrap_range. lia.
Qed.

(** ** Sending *)
Definition sends (u : uart) (q : list Z) : bool := negb (length q =? 0)%nat && negb (credit u =? 0)%nat.

(** From [u] with the queue [q], the result of sending all that the device takes. *)
Record Sent (u : uart) (q : list Z) (u' : uart) (q' : list Z) : Prop := {
  sent_thr : thr u' ++ take (credit u') q' = thr u ++ take (credit u) q;
  sent_rest : drop (credit u') q' = drop (credit u) q;
  sent_woken : tx_woken u' || sends u' q' = tx_woken u || sends u q;
  sent_rx : rx u' = rx u;
  sent_console : console u' = console u;
  sent_panicked : uart_panicked u' = uart_panicked u }.

Lemma Sent_refl u q : Sent u q u q.
Proof. by split. Qed.

Lemma LSR_tx u :
  wp (ReadReg LSR) (λ st u', u' = u ∧ (Z.land st LSR_TX_IDLE =? 0) = (credit u =? 0)%nat) u.
Proof.
  unfold ReadReg. apply wp_bind, wp_gets. simpl. apply wp_ret. split; [done|].
  by case_bool_decide; destruct (credit u).
Qed.

Lemma LSR_rx u :
  wp (ReadReg LSR) (λ st u', u' = u ∧ (Z.land st 1 =? 0) = bool_decide (rx u = [])) u.
Proof.
  unfold ReadReg. apply wp_bind, wp_gets. simpl. apply wp_ret. split; [done|].
  by case_bool_decide; destruct (credit u).
Qed.

Lemma uartstart_spec u q :
  TxInv u q →
  wp uartstart (λ _ u', ∃ q', TxInv u' q' ∧ Sent u q u' q' ∧ sends u' q' = false) u.
Proof.
  intros Hinv. unfold uartstart. apply wp_bind, wp_gets. rewrite (TxInv_diff _ _ Hinv), Nat2Z.id.
  apply wp_while_loop with (n := length q)
    (I := λ n _ s, ∃ q', length q' = n ∧ TxInv s q' ∧ Sent u q s q');
    [exists q; split_and!; [done..|apply Sent_refl]|lia|].
  clear Hinv. intros n _ s (q' & Hn & Hinv & HS). do 2 apply wp_bind, wp_gets.
  rewrite (TxInv_empty _ _ Hinv). destruct (Nat.eqb_spec (length q') 0) as [E0|E0].
  { apply wp_bind. unfold ReadReg. apply wp_bind, wp_gets. simpl. apply wp_ret, wp_ret.
    exists q'. split_and!; [done..|]. unfold sends. by rewrite E0. }
  apply wp_bind. eapply wp_mono; [apply LSR_tx|]. cbv beta. intros st ? [-> ->].
  destruct (Nat.eqb_spec (credit s) 0) as [Ec|Ec].
  { apply wp_ret. exists q'. split_and!; [done..|]. unfold sends. by rewrite Ec, andb_false_r. }
  destruct q' as [|c q']; [done|]. pose proof (tx_bytes _ _ Hinv) as [Hc _]%Forall_cons.
  destruct (TxInv_pop _ _ _ Hinv) as [Hg Hp]. apply wp_bind, wp_gets. rewrite Hg.
  unfold tx_wakeup. do 2 apply wp_bind, wp_modify. apply wp_bind.
  unfold WriteReg. simpl. apply wp_modify, wp_ret.
  exists (length q'). simpl in Hn. split; [lia|]. exists q'. split; [done|]. split.
  { eapply TxInv_ext, Hp; done. }
  destruct HS as [H1 H2 H3 H4 H5 H6]. destruct (credit s) as [|k] eqn:Ek; [done|].
  split; simpl; rewrite ?Ek in *; try done.
  - rewrite <-H1, Hc. simpl. by rewrite <-app_assoc.
  - rewrite <-H3. unfold sends. simpl. by rewrite Ek, orb_true_r.
Qed.

(** What [uartstart] leaves behind. *)
Record Started (u : uart) (q : list Z) (u' : uart) : Prop := {
  st_inv : TxInv u' (drop (credit u) q);
  st_thr : thr u' = thr u ++ take (credit u) q;
  st_woken : tx_woken u' = tx_woken u || sends u q;
  st_rx : rx u' = rx u;
  st_console : console u' = console u;
  st_panicked : uart_panicked u' = uart_panicked u }.

Lemma uartstart_sends u q : TxInv u q → wp uartstart (λ _ u', Started u q u') u.
Proof.
  intros Hinv. eapply wp_mono; [by apply uartstart_spec|].
  intros _ u' (q' & Hinv' & [H1 H2 H3 H4 H5 H6] & Hs).
  rewrite Hs, orb_false_r in H3. unfold sends in Hs.
  assert (take (credit u') q' = [] ∧ drop (credit u') q' = q') as [Et Ed].
  { destruct q' as [|c q']; [by destruct (credit u')|]. by destruct (credit u'). }
  rewrite Et, app_nil_r in H1. rewrite Ed in H2. subst q'. by split.
Qed.

Lemma uartputc_spec u q c :
  TxInv u q → uart_panicked u = false →
  wp (uartputc c) (λ ok u',
    if ok then (length q < 32)%nat ∧ Started u (q ++ [u8 c]) u' else u' = u ∧ length q = 32%nat) u.
Proof.
  intros Hinv Hp. unfold uartputc. apply wp_bind, wp_gets. rewrite Hp. do 2 apply wp_bind, wp_gets.
  rewrite (TxInv_full _ _ Hinv). destruct (Nat.eqb_spec (length q) 32) as [E|E]; [by apply wp_ret|].
  pose proof (tx_fits _ _ Hinv). apply wp_bind, wp_modify, wp_bind.
  eapply wp_mono; [apply uartstart_sends, (TxInv_push u q c); [done|lia]|].
  intros _ u' []. apply wp_ret. split; [lia|]. by split.
Qed.

(** ** Receiving *)
Definition typed (com_ed : list Z * list Z) (l : list Z) : list Z * list Z := foldl (λ p c, edit c p) com_ed l.
Lemma typed_app p l l' : typed p (l ++ l') = typed (typed p l) l'.
Proof. apply foldl_app. Qed.

Lemma uartgetc_spec u :
  Forall (λ c, 0 ≤ c) (rx u) →
  wp uartgetc (λ c u', match rx u with
                       | [] => c = -1 ∧ u' = u
                       | x :: l => c = x ∧ u' = set_rx l u
                       end) u.
Proof.
  intros Hrx. unfold uartgetc. apply wp_bind. eapply wp_mono; [apply LSR_rx|]. cbv beta.
  intros st ? [-> ->]. case_bool_decide as E.
  { simpl. apply wp_ret. by rewrite E. }
  simpl. unfold ReadReg. apply wp_bind, wp_gets. simpl. destruct (rx u); [done|].
  by apply wp_bind, wp_modify, wp_ret.
Qed.

Definition prints (procdump : K cons unit) : Prop :=
  ∀ s, wp procdump (λ _ s', ∃ l, s' = set_echo l s) s.

(** Every byte that has arrived is given to the console, then the buffer is sent. *)
Lemma uartintr_spec procdump u q com ed :
  TxInv u q → CInv (console u) com ed → Forall (λ c, 0 ≤ c) (rx u) → prints procdump →
  wp (uartintr procdump) (λ _ u',
    TxInv u' (drop (credit u) q) ∧ thr u' = thr u ++ take (credit u) q ∧
    tx_woken u' = tx_woken u || sends u q ∧ uart_panicked u' = uart_panicked u ∧ rx u' = [] ∧
    CInv (console u') (typed (com, ed) (rx u)).1 (typed (com, ed) (rx u)).2) u.
Proof.
  intros Hinv Hc Hrx Hpd. unfold uartintr. apply wp_bind, wp_gets, wp_bind.
  apply wp_while_loop with (n := length (rx u)) (I := λ n _ s, ∃ k l p,
    length l = n ∧ Forall (λ c, 0 ≤ c) l ∧ s = set_rx l (set_console k u) ∧
    CInv k p.1 p.2 ∧ typed p l = typed (com, ed) (rx u)).
  - exists (console u), (rx u), (com, ed). split_and!; try done. by destruct u.
  - lia.
  - intros n _ s (k & l & p & Hn & Hl & -> & Hk & Ht). apply wp_bind.
    eapply wp_mono; [by apply uartgetc_spec|]. simpl. intros c s' Hcs. destruct l as [|x l].
    + destruct Hcs as [-> ->]. simpl. apply wp_ret.
      eapply wp_mono; [apply (uartstart_sends _ q); by eapply TxInv_ext, Hinv|].
      intros _ u' [H1 H2 H3 H4 H5 H6]. rewrite H5. simpl in *. by rewrite <-Ht.
    + destruct Hcs as [-> ->]. apply Forall_cons in Hl as [Hx Hl].
      destruct (Z.eqb_spec x (-1)) as [->|_]; [lia|]. apply wp_bind, wp_lift. simpl.
      destruct p as [com' ed']. simpl in Hk.
      eapply wp_mono; [by apply consoleintr_spec|]. intros ? k' Hk'. apply wp_ret.
      exists (length l). simpl in Hn. split; [lia|]. by exists k', l, (edit x (com', ed')).
Qed.

(** ** Writers, interrupts and the device *)
Inductive interleaves : list Z → list Z → list Z → Prop :=
| il_nil : interleaves [] [] []
| il_left l1 l2 l x : interleaves l1 l2 l → interleaves (l1 ++ [x]) l2 (l ++ [x])
| il_right l1 l2 l x : interleaves l1 l2 l → interleaves l1 (l2 ++ [x]) (l ++ [x]).

Lemma il_lefts l1 l2 l xs : interleaves l1 l2 l → interleaves (l1 ++ xs) l2 (l ++ xs).
Proof.
  intros H. induction xs as [|x xs IH] using rev_ind; [by rewrite !app_nil_r|].
  rewrite !app_assoc. by apply il_left.
Qed.

(** [accepted] is what [uartputc] has taken, [synced] what [uartputc_sync] has
    written; [waiting] are the writers asleep in [uartputc] with their character,
    [true] when [wakeup] has made them runnable; [arrived] is what the device has
    received. *)
Record line := Line {
  dev : uart;
  accepted : list Z;
  synced : list Z;
  waiting : list (Z * bool);
  arrived : list Z;
}.

(** [wakeup] makes every sleeper runnable. *)
Definition wake (u : uart) (l : list (Z * bool)) : list (Z * bool) :=
  if tx_woken u then prod_map id (λ _, true) <$> l else l.
Definition settle (u : uart) : uart := set_woken false u.

Section system.
Context (procdump : K cons unit).

Inductive line_step : line → line → Prop :=
| ls_put u u' a sy w ar c :
    uartputc c u = Ok (true, u') →
    line_step (Line u a sy w ar) (Line (settle u') (a ++ [u8 c]) sy (wake u' w) ar)
| ls_sleep u u' a sy w ar c :
    uartputc c u = Ok (false, u') →
    line_step (Line u a sy w ar) (Line u' a sy (w ++ [(c, false)]) ar)
| ls_retry u u' a sy w1 w2 ar c :
    uartputc c u = Ok (true, u') →
    line_step (Line u a sy (w1 ++ (c, true) :: w2) ar) (Line (settle u') (a ++ [u8 c]) sy (wake u' (w1 ++ w2)) ar)
| ls_again u u' a sy w1 w2 ar c :
    uartputc c u = Ok (false, u') →
    line_step (Line u a sy (w1 ++ (c, true) :: w2) ar) (Line u' a sy (w1 ++ (c, false) :: w2) ar)
| ls_sync u u' a sy w ar c :
    uartputc_sync c u = Ok (tt, u') →
    line_step (Line u a sy w ar) (Line u' a (sy ++ [u8 c]) w ar)
| ls_intr u u' a sy w ar :
    uartintr procdump u = Ok (tt, u') →
    line_step (Line u a sy w ar) (Line (settle u') a sy (wake u' w) ar)
| ls_ready u a sy w ar n :
    line_step (Line u a sy w ar) (Line (set_thr (thr u) (credit u + n)%nat u) a sy w ar)
| ls_arrive u a sy w ar c :
    0 ≤ c < 256 →
    line_step (Line u a sy w ar) (Line (set_rx (rx u ++ [c]) u) a sy w (ar ++ [c])).

Definition line_reachable (s0 : line) : line → Prop := rtc line_step s0.

(** Of the bytes that arrived, the console has got all but those that the device
    still holds: it is as if they had been typed into the empty editor. *)
Definition delivered (u : uart) (ar : list Z) : Prop :=
  ∃ got, ar = got ++ rx u ∧ CInv (console u) (typed ([], []) got).1 (typed ([], []) got).2.

(** The transmitted bytes are the accepted ones in order, but for the last [q],
    mixed with the synchronous ones; only a full buffer keeps a writer asleep. *)
Record LineInv (s : line) (q : list Z) : Prop := {
  li_tx : TxInv (dev s) q;
  li_console : delivered (dev s) (arrived s);
  li_rx : Forall (λ c, 0 ≤ c) (rx (dev s));
  li_running : uart_panicked (dev s) = false;
  li_settled : tx_woken (dev s) = false;
  li_order : ∃ sent, accepted s = sent ++ q ∧ interleaves sent (synced s) (thr (dev s));
  li_asleep : ∀ c, (c, false) ∈ waiting s → length q = 32%nat }.

Lemma wake_all u w c : tx_woken u = true → (c, false) ∉ wake u w.
Proof.
  unfold wake. intros ->. rewrite list_elem_of_fmap. by intros ([??] & ? & _).
Qed.

(** Sending from the queue [q] keeps the order and wakes who sleeps. *)
Lemma LineInv_send u q a sy w ar u' :
  tx_woken u = false → TxInv u' (drop (credit u) q) →
  delivered u' ar → Forall (λ c, 0 ≤ c) (rx u') → uart_panicked u' = false →
  thr u' = thr u ++ take (credit u) q → tx_woken u' = tx_woken u || sends u q →
  (∃ sent, a = sent ++ q ∧ interleaves sent sy (thr u)) →
  (∀ c, (c, false) ∈ w → length q = 32%nat ∨ sends u q = true) →
  LineInv (Line (settle u') a sy (wake u' w) ar) (drop (credit u) q).
Proof using Type.
  intros Hw Ht Hc Hrx Hp Hthr Hwk (sent & -> & Hi) Has. split; simpl; try done.
  - by eapply TxInv_ext, Ht.
  - exists (sent ++ take (credit u) q). rewrite <-app_assoc, take_drop, Hthr.
    split; [done|]. by apply il_lefts.
  - intros c Hin. destruct (sends u q) eqn:Es.
    { exfalso. eapply wake_all, Hin. by rewrite Hwk, orb_true_r. }
    unfold wake in Hin. rewrite Hwk, Hw in Hin. simpl in Hin.
    destruct (Has c Hin) as [Hl|?]; [|done]. unfold sends in Es. rewrite Hl in Es. simpl in Es.
    apply negb_false_iff, Nat.eqb_eq in Es. by rewrite Es, drop_0.
Qed.

(** A character taken: the queue had room, so that nobody needed to sleep. *)
Lemma LineInv_put u q a sy w ar c u' :
  LineInv (Line u a sy w ar) q → uartputc c u = Ok (true, u') →
  ∃ q', LineInv (Line (settle u') (a ++ [u8 c]) sy (wake u' w) ar) q'.
Proof using Type.
  intros [Ht Hc Hrx Hp Hw Ho Has] E. simpl in *. destruct Ho as (sent & -> & Hi).
  pose proof (wp_elim _ _ _ _ _ (uartputc_spec _ _ c Ht Hp) E) as [Hlt [S1 S2 S3 S4 S5 S6]].
  eexists. apply (LineInv_send u (q ++ [u8 c]) ((sent ++ q) ++ [u8 c])); try done.
  - unfold delivered. by rewrite S4, S5.
  - by rewrite S4.
  - by rewrite S6.
  - exists sent. by rewrite app_assoc.
  - intros d Hd. specialize (Has d Hd). lia.
Qed.

Lemma LineInv_waiting u q a sy w w' ar :
  LineInv (Line u a sy w ar) q → (∀ c, (c, false) ∈ w' → (c, false) ∈ w ∨ length q = 32%nat) →
  LineInv (Line u a sy w' ar) q.
Proof using Type. intros [] Hw. split; try done. intros c [?|?]%Hw; eauto. Qed.

(** A character refused: the buffer is full, and nothing changes. *)
Lemma LineInv_refuse u q a sy w w' ar c u' :
  LineInv (Line u a sy w ar) q → uartputc c u = Ok (false, u') →
  LineInv (Line u' a sy w' ar) q.
Proof using Type.
  intros H E.
  pose proof (wp_elim _ _ _ _ _ (uartputc_spec _ _ c (li_tx _ _ H) (li_running _ _ H)) E) as [-> Hl].
  eapply LineInv_waiting; [done|]. by right.
Qed.

Lemma LineInv_sync u q a sy w ar c u' :
  LineInv (Line u a sy w ar) q → uartputc_sync c u = Ok (tt, u') →
  LineInv (Line u' a (sy ++ [u8 c]) w ar) q.
Proof using Type.
  intros [Ht Hc Hrx Hp Hw Ho Has] E. simpl in *. run_elim E. unfold uartputc_sync.
  apply wlp_bind, wlp_gets. rewrite Hp. apply wlp_bind.
  eapply wlp_mono; [apply wlp_wp, LSR_tx|]. cbv beta. intros st ? [-> _].
  case_match; [done|]. unfold WriteReg. simpl. apply wlp_modify. split; simpl; try done.
  - by eapply TxInv_ext, Ht.
  - destruct Ho as (sent & -> & Hi). exists sent. split; [done|]. by apply il_right.
Qed.

Lemma line_step_inv s s' q :
  prints procdump → LineInv s q → line_step s s' → ∃ q', LineInv s' q'.
Proof using Type.
  intros Hpd H Hs. destruct Hs.
  - by eapply LineInv_put.
  - exists q. by eapply LineInv_refuse.
  - eapply LineInv_put; [|done]. eapply LineInv_waiting; [done|]. clear. set_solver.
  - exists q. by eapply LineInv_refuse.
  - exists q. by eapply LineInv_sync.
  - destruct H as [Ht (got & Eg & Hc) Hrx Hp Hw Ho Has]. simpl in *. subst ar.
    match goal with E : uartintr _ _ = _ |- _ =>
      pose proof (wp_elim _ _ _ _ _ (uartintr_spec procdump _ _ _ _ Ht Hc Hrx Hpd) E)
        as (S1 & S2 & S3 & S4 & S5 & S6) end.
    eexists. eapply LineInv_send; try done; [|rewrite S5; constructor|by rewrite S4|]; [|eauto].
    exists (got ++ rx u). rewrite S5, app_nil_r. split; [done|]. rewrite typed_app. by destruct (typed ([], []) got).
  - exists q. destruct H. split; simpl in *; try done. by apply (TxInv_ext u).
  - exists q. destruct H. split; simpl in *; try done; [by apply (TxInv_ext u)|..].
    + destruct li_console0 as (got & Eg & Hc). exists got. simpl in *. by rewrite Eg, app_assoc.
    + apply Forall_app_2; [done|]. apply Forall_singleton. lia.
Qed.

Lemma line_reachable_inv s0 s q :
  prints procdump → LineInv s0 q → line_reachable s0 s → ∃ q', LineInv s q'.
Proof using Type.
  intros Hpd H0 Hr. revert q H0. induction Hr as [|s1 s2 s3 Hs _ IH]; intros q H0; [by exists q|].
  destruct (line_step_inv _ _ _ Hpd H0 Hs) as [q' H']. by eapply IH.
Qed.
End system.

(** The driver after [uartinit], with the console zeroed. *)
Definition uart0 (m : mem) : uart := Uart (replicate 32 0) 0 0 false [] [] 1 [] false (cons0 m).
Definition line0 (u : uart) : line := Line u [] [] [] [].

Lemma uartinit_ready m :
  wp uartinit (λ _ u, LineInv (line0 u) [] ∧ thr u = []) (uart0 m).
Proof.
  unfold uartinit, WriteReg. simpl. repeat (apply wp_bind, wp_modify). apply wp_modify.
  split; [|done]. split; simpl; try done.
  - split; simpl; try done; try lia.
  - exists []. split; [done|]. apply cons0_inv.
  - exists []. split; [done|constructor].
  - by intros c ?%elem_of_nil.
Qed.


(** Two characters are written while the device takes one, and one is typed; an
    interrupt follows. *)
Module Terminal.
Definition u1 : uart := default (uart0 ∅) (match uartinit (uart0 ∅) with Ok (_, u) => Some u | _ => None end).
Definition run {A} (m : K uart A) (u : uart) : uart := match m u with Ok (_, u') => u' | _ => u end.
Definition u2 : uart := settle (run (uartputc 104) u1).
Definition u3 : uart := settle (run (uartputc 105) u2).
Definition u4 : uart := set_rx (rx u3 ++ [120]) u3.
Definition last : line := Line u4 [104; 105] [] [] [120].
End Terminal.

