(* ===== verification/Primes.v ===== *)
(** * The prime sieve ([user/primes.c])

    A chain of processes joined by pipes: a generator writes the numbers from
    2 to [MAX-1], each filter passes on what its prime does not divide, and
    the main process reads the end of the chain, prints what it reads and
    appends a filter for it.

    The processes run concurrently.  [net] is the state of all of them and of
    the pipes; [net_step] is one step of one process: a [read] or a [write] of
    an [int] on a pipe, the closing of its pipes, its exit, or one of the calls of
    [primes] in the main process.  Filters have no other state than the number
    they hold between [read] and [write].  Pipes hold at most [CAP] numbers
    ([PIPESIZE] bytes); as all reads and writes are of four bytes and [PIPESIZE]
    is a multiple of four, no number is ever split.

    [pipe] and [fork] can fail and the program does not look: [pipe] when fewer
    than two entries of the file table are free, [fork] when the process table is
    full, and both for want of memory, which is the parameter [scarce].  [files]
    counts the open files as the descriptors are inherited and closed.  After a
    failure main goes on with descriptors that were never set, or without a
    filter: that is [Broken], where the model ends.  No process is killed, so that
    [read] does not return -1, which the loops would take for a number. *)

From S2P Require Import Prelude Param.
From Stdlib Require Import Znumtheory.

Definition MAX : Z := 280.
Definition CAP : nat := 128.

(** A process that writes a pipe: it runs, it has closed its pipes (it still has
    the read end of the one it wrote), it has exited. *)
Inductive life := Running | Closed | Gone.
Definition closed (l : life) : bool := match l with Running => false | _ => true end.
Definition gone (l : life) : bool := match l with Gone => true | _ => false end.

(** A filter: its prime, the number it has read and must still write, and the
    pipe it writes. *)
Record stage := Stage { st_prime : Z; st_hold : option Z; st_life : life; st_out : list Z }.

(** The main process: in [read]; in [primes] for a number it has printed, before
    and after [pipe]; after its exit; after a call that has failed. *)
Inductive main_phase := Reading | Called (p : Z) | Piped (p : Z) | Exited | Broken (p : Z).

(** [n_src]: numbers the generator has not written; [n_pipe]: its pipe;
    [n_stages]: the filters, the last one first; [n_out]: what main printed. *)
Record net := Net {
  n_src : list Z;
  n_gen : life;
  n_pipe : list Z;
  n_stages : list stage;
  n_out : list Z;
  n_main : main_phase;
}.

(** [main] after its [pipe] and [fork], which have succeeded, and its [close]. *)
Definition init_net (max : Z) : net := Net (seqZ 2 (max - 2)) Running [] [] [] Reading.

(** The pipe at the end of the chain: its contents and whether it is closed. *)
Definition tail_pipe (n : net) : list Z * bool :=
  match n_stages n with
  | [] => (n_pipe n, closed (n_gen n))
  | st :: _ => (st_out st, closed (st_life st))
  end.

(** The open ends of the pipes: a write end is open until its writer closes it, a
    read end until the writer, which inherited it, has exited and the reader has
    closed it. *)
Definition pipe_ends (w : life) (reader : bool) : nat := Nat.b2n (negb (closed w)) + Nat.b2n (negb (gone w) || reader).
Fixpoint chain_files (g : life) (reader : bool) (sts : list stage) : nat :=
  match sts with
  | [] => pipe_ends g reader
  | st :: sts => pipe_ends (st_life st) reader + chain_files g (negb (closed (st_life st))) sts
  end.

(** The open files: the console, the pipes of the chain and, after [pipe], the
    two ends of the new one. *)
Definition files (n : net) : nat :=
  1 + chain_files (n_gen n) true (n_stages n) + match n_main n with Piped _ => 2 | _ => 0 end.

(** Init, the shell, main and the generator; filters that have exited stay in
    the process table, as main does not wait for them. *)
Definition procs (n : net) : nat := 4 + length (n_stages n).

Definition alive (m : main_phase) : bool := match m with Exited | Broken _ => false | _ => true end.

(** Step of the filters.  [up] is the pipe a filter reads, and whether it is
    closed; the first filter of the (reversed) list reads the pipe of the
    second one, the last filter the pipe of the generator. *)
Inductive filter_step : list Z → bool → list stage → list Z → list stage → Prop :=
  | f_read_keep q x c p o :
      (* [read(in, &num, 4)]; [num % prime != 0] *)
      x mod p ≠ 0 →
      filter_step (x :: q) c [Stage p None Running o] q [Stage p (Some x) Running o]
  | f_read_drop q x c p o :
      x mod p = 0 →
      filter_step (x :: q) c [Stage p None Running o] q [Stage p None Running o]
  | f_write q c p x o :
      (* [write(out_fd[1], &num, 4)]: blocks while the pipe is full *)
      (length o < CAP)%nat →
      filter_step q c [Stage p (Some x) Running o] q [Stage p None Running (o ++ [x])]
  | f_close p o :
      (* [read] returns 0: [close(in); close(out_fd[1])] *)
      filter_step [] true [Stage p None Running o] [] [Stage p None Closed o]
  | f_exit q c p o :
      (* [exit(0)], which closes [out_fd[0]] *)
      filter_step q c [Stage p None Closed o] q [Stage p None Gone o]
  | f_inner q c q' st sts sts' :
      (* some other filter of the chain *)
      sts ≠ [] → filter_step q c sts q' sts' →
      filter_step q c (st :: sts) q' (st :: sts')
  | f_outer q c st1 st1' st2 sts o2' :
      (* the filter that reads the pipe of [st2] *)
      filter_step (st_out st2) (closed (st_life st2)) [st1] o2' [st1'] →
      filter_step q c (st1 :: st2 :: sts) q
        (st1' :: Stage (st_prime st2) (st_hold st2) (st_life st2) o2' :: sts).

Section step.
Context (scarce : Prop).
Inductive net_step : net → net → Prop :=
  | s_gen_write x src pipe sts out m :
      alive m = true → (length pipe < CAP)%nat →
      net_step (Net (x :: src) Running pipe sts out m) (Net src Running (pipe ++ [x]) sts out m)
  | s_gen_close pipe sts out m :
      (* [close(fd[1])] *)
      alive m = true →
      net_step (Net [] Running pipe sts out m) (Net [] Closed pipe sts out m)
  | s_gen_exit src pipe sts out m :
      (* [exit(0)], which closes [fd[0]] *)
      alive m = true →
      net_step (Net src Closed pipe sts out m) (Net src Gone pipe sts out m)
  | s_filter src g pipe sts out m pipe' sts' :
      alive m = true → filter_step pipe (closed g) sts pipe' sts' →
      net_step (Net src g pipe sts out m) (Net src g pipe' sts' out m)
  | s_main_first src g x pipe out :
      (* main reads a number, prints it, and calls [primes] *)
      net_step (Net src g (x :: pipe) [] out Reading) (Net src g pipe [] (out ++ [x]) (Called x))
  | s_main_next src g pipe p h e x o sts out :
      net_step (Net src g pipe (Stage p h e (x :: o) :: sts) out Reading)
               (Net src g pipe (Stage p h e o :: sts) (out ++ [x]) (Called x))
  | s_main_pipe src g pipe sts out p :
      (* [pipe(out_fd)] *)
      (files (Net src g pipe sts out (Called p)) + 2 ≤ Z.to_nat NFILE)%nat →
      net_step (Net src g pipe sts out (Called p)) (Net src g pipe sts out (Piped p))
  | s_main_pipe_fails src g pipe sts out p :
      (Z.to_nat NFILE < files (Net src g pipe sts out (Called p)) + 2)%nat ∨ scarce →
      net_step (Net src g pipe sts out (Called p)) (Net src g pipe sts out (Broken p))
  | s_main_fork src g pipe sts out p :
      (* [fork()], then [close(in); close(out_fd[1]); return out_fd[0]] *)
      (procs (Net src g pipe sts out (Piped p)) < Z.to_nat NPROC)%nat →
      net_step (Net src g pipe sts out (Piped p)) (Net src g pipe (Stage p None Running [] :: sts) out Reading)
  | s_main_fork_fails src g pipe sts out p :
      (Z.to_nat NPROC ≤ procs (Net src g pipe sts out (Piped p)))%nat ∨ scarce →
      net_step (Net src g pipe sts out (Piped p)) (Net src g pipe sts out (Broken p))
  | s_main_exit src g pipe sts out :
      tail_pipe (Net src g pipe sts out Reading) = ([], true) →
      net_step (Net src g pipe sts out Reading) (Net src g pipe sts out Exited).
End step.

(** ** The function the network computes *)

(** [while(read(in, &num)) if(num % prime) write(out, &num)] *)
Definition keep (p : Z) (l : list Z) : list Z := filter (λ n, n mod p ≠ 0) l.

(** What main prints for a stream of numbers. *)
Fixpoint sieve (fuel : nat) (l : list Z) : list Z :=
  match fuel, l with
  | S fuel, p :: l => p :: sieve fuel (keep p l)
  | _, _ => []
  end.

(** The numbers still to come out of the end of the chain. *)
Fixpoint stream (src : list Z) (sts : list stage) : list Z :=
  match sts with
  | [] => src
  | st :: sts => st_out st ++ option_list (st_hold st) ++ keep (st_prime st) (stream src sts)
  end.

Lemma keep_app p l1 l2 : keep p (l1 ++ l2) = keep p l1 ++ keep p l2.
Proof. apply filter_app. Qed.

Lemma length_keep p l : (length (keep p l) ≤ length l)%nat.
Proof. apply length_filter. Qed.

(** More fuel than numbers changes nothing. *)
Lemma sieve_fuel f1 f2 l : (length l ≤ f1)%nat → (length l ≤ f2)%nat → sieve f1 l = sieve f2 l.
Proof.
  revert f2 l. induction f1 as [|f1 IH]; intros f2 l H1 H2.
  - destruct l; [|simpl in H1; lia]. by destruct f2.
  - destruct l as [|p l]; [by destruct f2|]. destruct f2 as [|f2]; [simpl in H2; lia|].
    simpl in *. f_equal. pose proof (length_keep p l). apply IH; lia.
Qed.

Definition sieve_all (l : list Z) : list Z := sieve (length l) l.

Lemma sieve_all_cons p l : sieve_all (p :: l) = p :: sieve_all (keep p l).
Proof.
  unfold sieve_all. simpl. f_equal. apply sieve_fuel; [apply length_keep|done].
Qed.

(** A step of a filter does not change what comes out of the chain. *)
Lemma filter_step_stream q c sts q' sts' src :
  filter_step q c sts q' sts' → stream (q' ++ src) sts' = stream (q ++ src) sts.
Proof.
  intros H. revert src. induction H as [q x c p o Hx|q x c p o Hx|q c p x o Ho|p o|q c p o
    |q c q' st sts sts' Hne H IH|q c st1 st1' st2 sts o2' H IH]; intros src.
  - simpl. unfold keep. rewrite filter_cons_True by done. done.
  - simpl. unfold keep. rewrite filter_cons_False by naive_solver. done.
  - simpl. by rewrite <-!app_assoc.
  - done.
  - done.
  - simpl. by rewrite IH.
  - specialize (IH (option_list (st_hold st2) ++ keep (st_prime st2) (stream (q ++ src) sts))).
    simpl in *. exact IH.
Qed.

(** The numbers that main has still to see; those after a prime that has no
    filter yet are to pass through one. *)
Definition pending (m : main_phase) (l : list Z) : list Z :=
  match m with Called p | Piped p | Broken p => keep p l | _ => l end.
Definition remaining (n : net) : list Z := pending (n_main n) (stream (n_pipe n ++ n_src n) (n_stages n)).

Lemma net_step_output scarce n n' :
  net_step scarce n n' →
  n_out n' ++ sieve_all (remaining n') = n_out n ++ sieve_all (remaining n).
Proof.
  unfold remaining. destruct 1 as [x src pipe sts out m Hm Hl|pipe sts out m Hm|src pipe sts out m Hm|src g pipe sts out m pipe' sts' Hm Hf
    |src g x pipe out|src g pipe p h e x o sts out| | | | |]; simpl; try done.
  - by rewrite <-app_assoc.
  - by rewrite (filter_step_stream _ _ _ _ _ _ Hf).
  - rewrite sieve_all_cons, <-app_assoc. done.
  - rewrite sieve_all_cons, <-app_assoc. done.
Qed.

(** ** The sieve keeps the primes *)
#[global] Instance prime_decision p : Decision (prime p) := prime_dec p.

(** No divisor between 2 and [m-1]. *)
Definition rough (m n : Z) : Prop := Forall (λ d, n mod d ≠ 0) (seqZ 2 (m - 2)).
#[global] Instance rough_decision m n : Decision (rough m n).
Proof. unfold rough. apply _. Defined.

Lemma rough_spec m n : rough m n ↔ ∀ d, 2 ≤ d < m → ¬ (d | n).
Proof.
  unfold rough. rewrite Forall_forall. setoid_rewrite elem_of_seqZ. split.
  - intros H d Hd Hdiv. apply (H d); [lia|]. by apply Z.mod_divide; [lia|].
  - intros H d Hd Hmod. apply (H d); [lia|]. by apply Z.mod_divide; [lia|].
Qed.

Lemma rough_self m : 2 ≤ m → rough m m ↔ prime m.
Proof.
  intros Hm. rewrite rough_spec, <-prime_alt. unfold Z.prime. split.
  - intros H. split; [lia|]. intros d Hd. apply H. lia.
  - intros [_ H] d Hd. apply H. lia.
Qed.

Lemma rough_succ m n : 2 ≤ m → rough (m + 1) n ↔ rough m n ∧ ¬ (m | n).
Proof.
  intros Hm. rewrite !rough_spec. split.
  - intros H. split; [intros d Hd; apply H; lia|apply H; lia].
  - intros [H Hn] d Hd. destruct (decide (d = m)) as [->|]; [done|]. apply H. lia.
Qed.

Lemma sieve_rough n m :
  2 ≤ m → sieve_all (filter (rough m) (seqZ m (Z.of_nat n))) = filter prime (seqZ m (Z.of_nat n)).
Proof.
  revert m. induction n as [|n IH]; intros m Hm; [done|].
  rewrite seqZ_cons by lia. replace (Z.pred (Z.of_nat (S n))) with (Z.of_nat n) by lia.
  destruct (decide (prime m)) as [Hp|Hp].
  - rewrite (filter_cons_True prime), (filter_cons_True (rough m)) by (done || by apply rough_self).
    rewrite sieve_all_cons, <-IH by lia. do 2 f_equal. unfold keep. rewrite list_filter_filter.
    apply list_filter_iff. intros x. rewrite <-Z.add_1_r, rough_succ, <-Z.mod_divide by lia. tauto.
  - rewrite (filter_cons_False prime), (filter_cons_False (rough m)) by (done || by rewrite rough_self).
    rewrite <-IH by lia. f_equal. apply list_filter_iff. intros x. rewrite <-Z.add_1_r, rough_succ by lia.
    split; [|tauto]. intros H. split; [done|]. intros Hmx. apply Hp. apply rough_self; [done|].
    rewrite rough_spec in *. intros d Hd Hdm. apply (H d Hd). by transitivity m.
Qed.

Lemma filter_all {A} (P : A → Prop) `{!∀ x, Decision (P x)} (l : list A) : Forall P l → filter P l = l.
Proof. induction 1; [done|]. rewrite filter_cons_True by done. by f_equal. Qed.

Lemma sieve_primes max : 2 ≤ max → sieve_all (seqZ 2 (max - 2)) = filter prime (seqZ 2 (max - 2)).
Proof.
  intros Hmax. rewrite <-(Z2Nat.id (max - 2)) by lia. rewrite <-sieve_rough by lia. f_equal. symmetry.
  apply filter_all, Forall_forall. intros x _. apply rough_spec. intros d Hd. lia.
Qed.

(** ** What has been closed is exhausted *)
Fixpoint chain_ok (src : list Z) (sts : list stage) : Prop :=
  match sts with
  | [] => True
  | st :: sts => (closed (st_life st) = true → st_hold st = None ∧ stream src sts = []) ∧ chain_ok src sts
  end.

(** The primes printed are those with a filter and the one that is to get one. *)
Definition calling (m : main_phase) : nat := match m with Called _ | Piped _ | Broken _ => 1 | _ => 0 end.
Record NInv (max : Z) (n : net) : Prop := {
  ni_gen : closed (n_gen n) = true → n_src n = [];
  ni_chain : chain_ok (n_pipe n ++ n_src n) (n_stages n);
  ni_out : n_out n ++ sieve_all (remaining n) = sieve_all (seqZ 2 (max - 2));
  ni_count : (length (n_stages n) + calling (n_main n) = length (n_out n))%nat;
  ni_done : n_main n = Exited → remaining n = [];
}.

Lemma filter_step_ok q c sts q' sts' src :
  filter_step q c sts q' sts' → (c = true → src = []) →
  chain_ok (q ++ src) sts → chain_ok (q' ++ src) sts'.
Proof.
  intros H. revert src. induction H as [q x c p o Hx|q x c p o Hx|q c p x o Ho|p o|q c p o
    |q c q' st sts sts' Hne H IH|q c st1 st1' st2 sts o2' H IH]; intros src Hc Hok; try done.
  - simpl. rewrite Hc by done. done.
  - destruct Hok as [H1 H2]. split; [|by apply IH].
    intros He. destruct (H1 He) as [Hh Hs]. split; [done|]. by rewrite (filter_step_stream _ _ _ _ _ _ H).
  - destruct Hok as (H1 & H2 & H3).
    specialize (IH (option_list (st_hold st2) ++ keep (st_prime st2) (stream (q ++ src) sts))).
    destruct IH as [H1' _].
    + intros He. destruct (H2 He) as [-> ->]. done.
    + split; [exact H1|done].
    + split; [exact H1'|]. split; [exact H2|exact H3].
Qed.

Lemma filter_step_length q c sts q' sts' :
  filter_step q c sts q' sts' → length sts' = length sts.
Proof. induction 1; simpl in *; lia. Qed.

Lemma net_step_inv scarce max n n' : NInv max n → net_step scarce n n' → NInv max n'.
Proof.
  intros [Hg Hc Ho Hn Hd] Hs. pose proof (net_step_output _ _ _ Hs) as Hout. rewrite Ho in Hout.
  destruct Hs as [x src pipe sts out m Hm Hl|pipe sts out m Hm|src pipe sts out m Hm|src g pipe sts out m pipe' sts' Hm Hf
    |src g x pipe out|src g pipe p h e x o sts out| | | | |src g pipe sts out Ht]; split; simpl in *; try done; try lia; try (by intros ->).
  - by rewrite <-app_assoc.
  - by eapply filter_step_ok.
  - by rewrite (filter_step_length _ _ _ _ _ Hf).
  - rewrite length_app. simpl. lia.
  - rewrite length_app. simpl. lia.
  - intros _. unfold remaining. simpl. unfold tail_pipe in Ht. simpl in Ht. destruct sts as [|st sts].
    + injection Ht as -> Hcl. by rewrite Hg.
    + simpl. injection Ht as Ho' He. destruct Hc as [Hc _]. destruct (Hc He) as [-> ->]. by rewrite Ho'.
Qed.

Lemma init_inv max : NInv max (init_net max).
Proof. split; done. Qed.

Lemma net_reach_inv scarce max n : rtc (net_step scarce) (init_net max) n → NInv max n.
Proof. intros H. assert (NInv max (init_net max)) as Hi by apply init_inv. revert Hi. induction H as [|x y z Hs _ IH]; [done|]. intros Hx. by eapply IH, net_step_inv. Qed.

(** ** Progress *)
Lemma filter_progress q c st sts :
  st_out st = [] → closed (st_life st) = false →
  (∃ q' sts', filter_step q c (st :: sts) q' sts') ∨ (q = [] ∧ c = false).
Proof.
  revert st. induction sts as [|st2 sts IH]; intros [p h [] o] Ho He; simpl in *; try done; subst.
  - destruct h as [x|]; [left; do 2 eexists; apply f_write; simpl; unfold CAP; lia|].
    destruct q as [|x q]; [destruct c; [left; do 2 eexists; apply f_close|by right]|left].
    destruct (decide (x mod p = 0)); do 2 eexists; [by apply f_read_drop|by apply f_read_keep].
  - destruct h as [x|]; [left; do 2 eexists; eapply f_outer, f_write; simpl; unfold CAP; lia|].
    destruct (st_out st2) as [|x q2] eqn:Ho2.
    + destruct (closed (st_life st2)) eqn:He2.
      * left. do 2 eexists. eapply f_outer. rewrite Ho2, He2. apply f_close.
      * destruct (IH st2 Ho2 He2) as [(q' & sts' & H)|?]; [left|by right].
        do 2 eexists. by apply f_inner.
    + left. destruct (decide (x mod p = 0)); do 2 eexists; eapply f_outer; rewrite Ho2;
        [by apply f_read_drop|by apply f_read_keep].
Qed.

Lemma gen_progress scarce src sts out m : alive m = true → ∃ n', net_step scarce (Net src Running [] sts out m) n'.
Proof. intros Hm. destruct src; eexists; [by apply s_gen_close|]. apply s_gen_write; [done|]. simpl. unfold CAP. lia. Qed.

Lemma net_progress scarce n : alive (n_main n) = true → ∃ n', net_step scarce n n'.
Proof.
  destruct n as [src g pipe sts out m]. simpl. destruct m as [|p|p| |p]; try done; intros Hm.
  - destruct sts as [|[p h e o] sts].
    + destruct pipe as [|x pipe]; [|eexists; apply s_main_first].
      destruct g; [by apply gen_progress|eexists; by apply s_main_exit..].
    + destruct o as [|x o]; [|eexists; apply s_main_next].
      destruct e; [|eexists; by apply s_main_exit..].
      destruct (filter_progress pipe (closed g) (Stage p h Running []) sts eq_refl eq_refl) as [(q' & sts' & H)|[-> Hg]].
      * eexists. by apply s_filter.
      * destruct g; [by apply gen_progress|done..].
  - destruct (decide (files (Net src g pipe sts out (Called p)) + 2 ≤ Z.to_nat NFILE)%nat);
      eexists; [by apply s_main_pipe|apply s_main_pipe_fails; left; lia].
  - destruct (decide (procs (Net src g pipe sts out (Piped p)) < Z.to_nat NPROC)%nat);
      eexists; [by apply s_main_fork|apply s_main_fork_fails; left; lia].
Qed.

(** ** Termination: numbers only move towards the end of the chain *)
Fixpoint items (sts : list stage) : nat :=
  match sts with
  | [] => 0
  | st :: sts => length (st_out st) + length (option_list (st_hold st)) + items sts
  end.

(** The steps left to a writer, and to main. *)
Definition rest (l : life) : nat := match l with Running => 2 | Closed => 1 | Gone => 0 end.
Definition main_rest (m : main_phase) (i : nat) : nat :=
  match m with Reading => 1 | Called _ => 2 * i + 5 | Piped _ => 2 * i + 4 | _ => 0 end.

(** [c] is the weight of a number in the pipe that the first filter writes. *)
Fixpoint dist (c : nat) (pipe src : list Z) (g : life) (sts : list stage) : nat :=
  match sts with
  | [] => c * length pipe + (c + 1) * length src + rest g
  | st :: sts => c * length (st_out st) + (c + 1) * length (option_list (st_hold st)) +
                 rest (st_life st) + dist (c + 2) pipe src g sts
  end.

Definition n_items (n : net) : nat := items (n_stages n) + length (n_pipe n) + length (n_src n).

Definition variant (n : net) : nat :=
  n_items n * n_items n + 6 * n_items n + dist 0 (n_pipe n) (n_src n) (n_gen n) (n_stages n) +
  main_rest (n_main n) (n_items n).

Lemma dist_shift k c pipe src g sts :
  dist (c + k) pipe src g sts = (dist c pipe src g sts + k * (items sts + length pipe + length src))%nat.
Proof.
  revert c. induction sts as [|st sts IH]; intros c; simpl; [lia|].
  replace (c + k + 2)%nat with (c + 2 + k)%nat by lia. rewrite IH. lia.
Qed.

(** The generator is at the far end of the chain. *)
Lemma dist_gen pipe src g pipe' src' g' :
  (length pipe + length src = length pipe' + length src')%nat → (length src' + rest g' < length src + rest g)%nat →
  ∀ sts c, (dist c pipe' src' g' sts < dist c pipe src g sts)%nat.
Proof. intros Hi Hr. induction sts as [|st sts IH]; intros c; simpl; [nia|]. specialize (IH (c + 2)%nat). lia. Qed.

(** A filter step keeps the numbers and brings one closer to the end, or drops one. *)
Lemma filter_step_variant q c sts q' sts' :
  filter_step q c sts q' sts' → ∀ src g w,
  let i := (items sts + length q)%nat in let i' := (items sts' + length q')%nat in
  let d := dist w q src g sts in let d' := dist w q' src g sts' in
  (i' = i ∧ d' < d ∨ i' < i ∧ d' ≤ d)%nat.
Proof.
  induction 1 as [q x c p o Hx|q x c p o Hx|q c p x o Ho|p o|q c p o
    |q c q' st sts sts' Hne H IH|q c st1 st1' st2 sts o2' H IH]; intros src g w; simpl.
  - lia.
  - lia.
  - rewrite length_app. simpl. lia.
  - lia.
  - lia.
  - specialize (IH src g (w + 2)%nat). simpl in IH. lia.
  - specialize (IH [] Gone w). simpl in IH. lia.
Qed.

Lemma main_rest_mono m i j : (i ≤ j)%nat → (main_rest m i ≤ main_rest m j)%nat.
Proof. destruct m; simpl; lia. Qed.

Lemma net_step_variant scarce n n' : net_step scarce n n' → (variant n' < variant n)%nat.
Proof.
  unfold variant, n_items. destruct 1 as [x src pipe sts out m Hm Hl|pipe sts out m Hm|src pipe sts out m Hm|src g pipe sts out m pipe' sts' Hm Hf
    |src g x pipe out|src g pipe p h e x o sts out| | |src g pipe sts out p Hp| |]; simpl; try lia.
  - pose proof (dist_gen pipe (x :: src) Running (pipe ++ [x]) src Running) as Hd. rewrite length_app in *. simpl in *.
    specialize (Hd ltac:(lia) ltac:(lia) sts 0%nat).
    replace (items sts + (length pipe + 1) + length src)%nat with (items sts + length pipe + S (length src))%nat by lia. lia.
  - pose proof (dist_gen pipe [] Running pipe [] Closed eq_refl ltac:(simpl; lia) sts 0). lia.
  - pose proof (dist_gen pipe src Closed pipe src Gone eq_refl ltac:(simpl; lia) sts 0). lia.
  - pose proof (filter_step_variant _ _ _ _ _ Hf src g 0) as Hv. simpl in Hv.
    pose proof (main_rest_mono m (items sts' + length pipe' + length src) (items sts + length pipe + length src)). nia.
  - pose proof (dist_shift 2 0 pipe src g sts) as Hs. simpl in Hs. lia.
Qed.

Lemma nsteps_variant scarce k n n' : nsteps (net_step scarce) k n n' → (k + variant n' ≤ variant n)%nat.
Proof.
  induction 1 as [|k x y z Hs _ IH]; [lia|]. pose proof (net_step_variant _ _ _ Hs). lia.
Qed.

(** ** The file table and the process table *)
Lemma chain_files_le g r sts : (chain_files g r sts ≤ 2 * length sts + 2)%nat.
Proof.
  assert (∀ w b, pipe_ends w b ≤ 2)%nat as He by (intros [] []; unfold pipe_ends; simpl; lia).
  revert r. induction sts as [|st sts IH]; intros r; simpl; [apply He|].
  specialize (IH (negb (closed (st_life st)))). specialize (He (st_life st) r). lia.
Qed.

(** There is room for [k] filters. *)
Definition room (k : nat) : Prop := (2 * k + 3 ≤ Z.to_nat NFILE)%nat ∧ (k + 4 ≤ Z.to_nat NPROC)%nat.

Lemma net_step_room scarce max n n' p : ¬ scarce → room (length (sieve_all (seqZ 2 (max - 2)))) →
  NInv max n → net_step scarce n n' → n_main n' ≠ Broken p.
Proof.
  intros Hs [Hf Hp] [_ _ Ho Hn _] Hst. apply (f_equal length) in Ho. rewrite length_app in Ho.
  destruct Hst as [x src pipe sts out m Hm Hl|pipe sts out m Hm|src pipe sts out m Hm|src g pipe sts out m pipe' sts' Hm Hc
    | | | |src g pipe sts out p' [Hx|Hx]| |src g pipe sts out p' [Hx|Hx]|]; simpl in *; try done; try (by destruct m).
  - unfold files in Hx. simpl in Hx. pose proof (chain_files_le g true sts). lia.
  - unfold procs in Hx. simpl in Hx. lia.
Qed.

Lemma net_reach_room scarce max n p : ¬ scarce → room (length (sieve_all (seqZ 2 (max - 2)))) →
  rtc (net_step scarce) (init_net max) n → n_main n ≠ Broken p.
Proof.
  intros Hs Hr H. apply rtc_inv_r in H as [<-|(n0 & H & Hst)]; [done|].
  apply (net_step_room scarce max n0); [done|done|by eapply net_reach_inv|done].
Qed.

(** The primes below 227 are 48. *)
Lemma room_227 max : max ≤ 227 → room (length (sieve_all (seqZ 2 (max - 2)))).
Proof.
  intros Hm. destruct (decide (2 ≤ max)); [|rewrite seqZ_nil by lia; unfold room, NFILE, NPROC; simpl; lia].
  rewrite sieve_primes by done. assert (seqZ 2 225 = seqZ 2 (max - 2) ++ seqZ max (227 - max)) as E.
  { replace 225 with ((max - 2) + (227 - max)) at 1 by lia. rewrite seqZ_app by lia. do 2 f_equal. lia. }
  assert (length (filter prime (seqZ 2 225)) = 48%nat) as Hl by (change 225 with (227 - 2); rewrite <-sieve_primes by done; by vm_compute).
  rewrite E, filter_app, length_app in Hl. unfold room, NFILE, NPROC. lia.
Qed.

(** ** A schedule

    Main first, then the filters, the last one first, and the generator when
    nothing else can move. *)
Definition filter_sched (q : list Z) (c : bool) (st : stage) : option (list Z * stage) :=
  match st_hold st, st_life st, q with
  | Some x, Running, _ => if (length (st_out st) <? CAP)%nat then Some (q, Stage (st_prime st) None Running (st_out st ++ [x])) else None
  | None, Running, x :: q => Some (q, Stage (st_prime st) (if x mod st_prime st =? 0 then None else Some x) Running (st_out st))
  | None, Running, [] => if c then Some ([], Stage (st_prime st) None Closed (st_out st)) else None
  | None, Closed, _ => Some (q, Stage (st_prime st) None Gone (st_out st))
  | _, _, _ => None
  end.
Fixpoint chain_sched (q : list Z) (c : bool) (sts : list stage) : option (list Z * list stage) :=
  match sts with
  | [] => None
  | [st] => '(q, st) ← filter_sched q c st; Some (q, [st])
  | st1 :: ((st2 :: sts) as sts2) =>
      match filter_sched (st_out st2) (closed (st_life st2)) st1 with
      | Some (o2, st1) => Some (q, st1 :: Stage (st_prime st2) (st_hold st2) (st_life st2) o2 :: sts)
      | None => '(q, sts) ← chain_sched q c sts2; Some (q, st1 :: sts)
      end
  end.
Definition main_sched (n : net) : option net :=
  let 'Net src g pipe sts out m := n in
  match m with
  | Reading =>
      match sts, pipe with
      | [], x :: pipe => Some (Net src g pipe [] (out ++ [x]) (Called x))
      | Stage p h e (x :: o) :: sts, _ => Some (Net src g pipe (Stage p h e o :: sts) (out ++ [x]) (Called x))
      | _, _ => if closed (default g (st_life <$> head sts)) then Some (Net src g pipe sts out Exited) else None
      end
  | Called p => Some (Net src g pipe sts out (if (files n + 2 <=? Z.to_nat NFILE)%nat then Piped p else Broken p))
  | Piped p =>
      Some (if (procs n <? Z.to_nat NPROC)%nat then Net src g pipe (Stage p None Running [] :: sts) out Reading
            else Net src g pipe sts out (Broken p))
  | Exited | Broken _ => None
  end.
Definition gen_sched (n : net) : option net :=
  match n with
  | Net (x :: src) Running pipe sts out m => if (length pipe <? CAP)%nat then Some (Net src Running (pipe ++ [x]) sts out m) else None
  | Net [] Running pipe sts out m => Some (Net [] Closed pipe sts out m)
  | Net src Closed pipe sts out m => Some (Net src Gone pipe sts out m)
  | _ => None
  end.
Definition next_step (n : net) : option net :=
  if alive (n_main n) then
    match main_sched n, chain_sched (n_pipe n) (closed (n_gen n)) (n_stages n) with
    | Some n', _ => Some n'
    | None, Some (pipe, sts) => Some (Net (n_src n) (n_gen n) pipe sts (n_out n) (n_main n))
    | None, None => gen_sched n
    end
  else None.
Fixpoint run (fuel : nat) (n : net) : net :=
  match fuel with
  | O => n
  | S fuel => match next_step n with Some n' => run fuel n' | None => n end
  end.

Lemma filter_sched_step q c st q' st' : filter_sched q c st = Some (q', st') → filter_step q c [st] q' [st'].
Proof.
  destruct st as [p [x|] [] o]; unfold filter_sched; simpl; try done.
  - destruct (Nat.ltb_spec (length o) CAP); [|done]. intros [= <- <-]. by constructor.
  - destruct q as [|x q]; [destruct c; [|done]; intros [= <- <-]; constructor|]. intros [= <- <-].
    destruct (Z.eqb_spec (x mod p) 0); by constructor.
  - intros [= <- <-]. constructor.
Qed.
Lemma chain_sched_step q c sts q' sts' : chain_sched q c sts = Some (q', sts') → filter_step q c sts q' sts'.
Proof.
  revert q' sts'. induction sts as [|st1 sts IH]; intros q' sts'; [done|]. cbn [chain_sched]. destruct sts as [|st2 sts].
  - destruct (filter_sched q c st1) as [[q1 st']|] eqn:E; [|done]. intros [= <- <-]. by apply filter_sched_step.
  - destruct (filter_sched (st_out st2) _ st1) as [[o2 st']|] eqn:E.
    + intros [= <- <-]. by apply f_outer, filter_sched_step.
    + destruct (chain_sched q c (st2 :: sts)) as [[q1 sts1]|]; [|done]. intros [= <- <-]. apply f_inner; [done|]. by apply IH.
Qed.
Lemma main_sched_step n n' : main_sched n = Some n' → net_step False n n'.
Proof.
  destruct n as [src g pipe sts out [|p|p| |p]]; cbn [main_sched]; try done.
  - destruct sts as [|[p h e [|x o]] sts]; [destruct pipe as [|x pipe]|..]; simpl.
    + destruct (closed g) eqn:E; [|done]. intros [= <-]. apply s_main_exit. unfold tail_pipe. simpl. by rewrite E.
    + intros [= <-]. apply s_main_first.
    + destruct (closed e) eqn:E; [|done]. intros [= <-]. apply s_main_exit. unfold tail_pipe. simpl. by rewrite E.
    + intros [= <-]. apply s_main_next.
  - destruct (Nat.leb_spec (files (Net src g pipe sts out (Called p)) + 2) (Z.to_nat NFILE)); intros [= <-].
    + by apply s_main_pipe.
    + apply s_main_pipe_fails. by left.
  - destruct (Nat.ltb_spec (procs (Net src g pipe sts out (Piped p))) (Z.to_nat NPROC)); intros [= <-].
    + by apply s_main_fork.
    + apply s_main_fork_fails. by left.
Qed.
Lemma gen_sched_step n n' : alive (n_main n) = true → gen_sched n = Some n' → net_step False n n'.
Proof.
  destruct n as [[|x src] [] pipe sts out m]; cbn [gen_sched n_main]; intros Hm; try done; try (intros [= <-]; by constructor).
  destruct (Nat.ltb_spec (length pipe) CAP); [|done]. intros [= <-]. by apply s_gen_write.
Qed.
Lemma next_step_sound n n' : next_step n = Some n' → net_step False n n'.
Proof.
  unfold next_step. destruct (alive (n_main n)) eqn:Hm; [|done]. destruct (main_sched n) as [n1|] eqn:E1.
  - intros [= <-]. by apply main_sched_step.
  - destruct (chain_sched _ _ _) as [[pipe sts]|] eqn:E2; [|by apply gen_sched_step].
    intros [= <-]. destruct n as [src g pipe0 sts0 out m]. apply s_filter; [done|]. by apply chain_sched_step.
Qed.
Lemma run_reach fuel n : rtc (net_step False) n (run fuel n).
Proof.
  revert n. induction fuel as [|fuel IH]; intros n; [apply rtc_refl|]. cbn [run].
  destruct (next_step n) as [n'|] eqn:E; [|apply rtc_refl]. eapply rtc_l; [by apply next_step_sound|apply IH].
Qed.

(** * Properties *)





(** The file table is too small for [MAX] = 280: when the generator has not
    finished before the 49th prime reaches main, [pipe] fails. *)
Theorem primes_pipe_fails : ∃ n, rtc (net_step False) (init_net MAX) n ∧ n_main n = Broken 227.
Proof. exists (run (Z.to_nat 100000) (init_net MAX)). split; [apply run_reach|]. vm_compute. reflexivity. Qed.

(** The process table is large enough: with [MAX] = 280 there are never
    more than 59 filters, so that with the generator, main, the shell and init
    at most 63 of the [NPROC] = 64 processes exist. *)
Theorem primes_fits_process_table scarce n :
  rtc (net_step scarce) (init_net MAX) n → Z.of_nat (procs n) < NPROC.
Proof.
  intros [_ _ Hout Hn _]%net_reach_inv. unfold procs.
  assert (length (sieve_all (seqZ 2 (MAX - 2))) = 59%nat) as Hl by (vm_compute; reflexivity).
  rewrite <-Hout, length_app in Hl. unfold NPROC. lia.
Qed.

Lemma primes_fits_process_table_witness : Z.of_nat (procs (init_net MAX)) < NPROC.
Proof. apply (primes_fits_process_table False (init_net MAX)). apply rtc_refl. Defined.
