(* ===== verification/Grep.v ===== *)
(** * grep ([user/grep.c])

    The matcher works on C strings, here lists of bytes without zeros; the
    end of the list is the terminating zero.  [match], [matchhere] and
    [matchstar] are the three functions of the file.  [grep] processes input
    through a buffer of 1024 bytes; [read] returns the input in pieces of any
    size up to what is asked for. *)

From S2P Require Import Prelude Word.

Definition STAR : Z := 42.    (** '*' *)
Definition DOT : Z := 46.     (** '.' *)
Definition CARET : Z := 94.   (** '^' *)
Definition DOLLAR : Z := 36.  (** '$' *)
Definition NL : Z := 10.

(** ** The matcher *)

(** [matchstar]'s loop: try the rest [mh], then skip a character that [c] matches. *)
Fixpoint matchstar_loop (c : Z) (mh : list Z → bool) (text : list Z) : bool :=
  if mh text then true
  else
    match text with
    | [] => false
    | x :: text' => if (x =? c) || (c =? DOT) then matchstar_loop c mh text' else false
    end.

(** [matchhere] calls [matchstar] on [re+2]. *)
Fixpoint matchhere (re : list Z) (text : list Z) : bool :=
  match re with
  | [] => true
  | c :: re' =>
      match re' with
      | s :: re'' =>
          if s =? STAR then matchstar_loop c (matchhere re'') text
          else
            match text with
            | x :: text' => if (c =? DOT) || (c =? x) then matchhere re' text' else false
            | [] => false
            end
      | [] =>
          if c =? DOLLAR then bool_decide (text = [])
          else
            match text with
            | x :: text' => if (c =? DOT) || (c =? x) then matchhere re' text' else false
            | [] => false
            end
      end
  end.

Definition matchstar (c : Z) (re text : list Z) : bool := matchstar_loop c (matchhere re) text.

(** The loop of [match]: every suffix, the empty one included. *)
Fixpoint match_loop (re text : list Z) : bool :=
  if matchhere re text then true
  else match text with
       | [] => false
       | _ :: text' => match_loop re text'
       end.

Definition match_ (re text : list Z) : bool :=
  match re with
  | c :: re' => if c =? CARET then matchhere re' text else match_loop re text
  | [] => match_loop re text
  end.

(** ** What a pattern means *)

(** [c] stands for the character [x]. *)
Definition char_ok (c x : Z) : Prop := c = DOT ∨ c = x.

(** The pattern [re] matches an initial segment of [text]. *)
Inductive matches : list Z → list Z → Prop :=
  | m_nil text : matches [] text
  | m_star c re k text :
      Forall (char_ok c) (take k text) → (k ≤ length text)%nat → matches re (drop k text) →
      matches (c :: STAR :: re) text
  | m_end : matches [DOLLAR] []
  | m_char c re x text :
      head re ≠ Some STAR → (c = DOLLAR → re ≠ []) → char_ok c x → matches re text →
      matches (c :: re) (x :: text).

Lemma char_ok_bool c x : (c =? DOT) || (c =? x) = true ↔ char_ok c x.
Proof. unfold char_ok. rewrite orb_true_iff, !Z.eqb_eq. done. Qed.

Lemma char_ok_bool' c x : (x =? c) || (c =? DOT) = true ↔ char_ok c x.
Proof. unfold char_ok. rewrite orb_true_iff, !Z.eqb_eq. naive_solver. Qed.

Lemma matchstar_loop_spec c mh text :
  matchstar_loop c mh text = true ↔
  ∃ k, (k ≤ length text)%nat ∧ Forall (char_ok c) (take k text) ∧ mh (drop k text) = true.
Proof.
  induction text as [|x text IH]; simpl.
  - destruct (mh []) eqn:E; split; try done.
    + intros _. exists 0%nat. done.
    + intros (k & Hk & _ & H). replace k with 0%nat in H by lia. simpl in H. congruence.
  - destruct (mh (x :: text)) eqn:E.
    + split; [|done]. intros _. exists 0%nat. split_and!; [lia|by rewrite take_0|done].
    + destruct ((x =? c) || (c =? DOT)) eqn:Ec.
      * rewrite IH. apply char_ok_bool' in Ec. split.
        -- intros (k & Hk & Hf & H). exists (S k). simpl. split_and!; [lia|by constructor|done].
        -- intros ([|k] & Hk & Hf & H); simpl in *; [congruence|]. exists k.
           apply Forall_cons in Hf as [_ Hf]. split_and!; [lia|done|done].
      * split; [done|]. intros ([|k] & Hk & Hf & H); simpl in *; [congruence|].
        apply Forall_cons in Hf as [Hx _]. apply char_ok_bool' in Hx. congruence.
Qed.

Lemma matchhere_spec re text : matchhere re text = true ↔ matches re text.
Proof.
  assert (∀ n re text, (length re ≤ n)%nat → matchhere re text = true ↔ matches re text) as H; [|by eapply H].
  clear. induction n as [|n IH]; intros re text Hn.
  { destruct re; [|simpl in Hn; lia]. split; [intros _; constructor|done]. }
  destruct re as [|c re]; [split; [intros _; constructor|done]|].
  assert (∀ x text', head re ≠ Some STAR → (c = DOLLAR → re ≠ []) →
    (if (c =? DOT) || (c =? x) then matchhere re text' else false) = true ↔ matches (c :: re) (x :: text')) as Hchar.
  { intros x text' Hs Hd. destruct ((c =? DOT) || (c =? x)) eqn:Ec.
    - rewrite IH by (simpl in Hn; lia). apply char_ok_bool in Ec. split; [by constructor|].
      inversion 1; subst; [by destruct Hs|done].
    - split; [done|]. inversion 1; subst; [by destruct Hs|]. apply char_ok_bool in H6. congruence. }
  cbn [matchhere]. destruct re as [|s re].
  - destruct (Z.eqb_spec c DOLLAR) as [->|Hd].
    + rewrite bool_decide_eq_true. split; [intros ->; constructor|]. inversion 1; subst; [done|naive_solver].
    + destruct text as [|x text]; [|by apply Hchar]. split; [done|]. inversion 1; subst; done.
  - destruct (Z.eqb_spec s STAR) as [->|Hs].
    + rewrite matchstar_loop_spec. split.
      * intros (k & Hk & Hf & H). apply (m_star _ _ k); [done|done|]. apply IH; [simpl in Hn; lia|done].
      * inversion 1; subst; [|by destruct H2]. exists k. split_and!; [done|done|]. apply IH; [simpl in Hn; lia|done].
    + destruct text as [|x text]; [|apply Hchar; [intros [= ?]; done|done]].
      split; [done|]. inversion 1; subst; done.
Qed.

Lemma match_loop_spec re text : match_loop re text = true ↔ ∃ k, (k ≤ length text)%nat ∧ matches re (drop k text).
Proof.
  induction text as [|x text IH]; cbn [match_loop].
  - destruct (matchhere re []) eqn:E.
    + split; [|done]. intros _. exists 0%nat. split; [done|]. by apply matchhere_spec.
    + split; [done|]. intros (k & Hk & H). rewrite drop_nil in H. apply matchhere_spec in H. congruence.
  - destruct (matchhere re (x :: text)) eqn:E.
    + split; [|done]. intros _. exists 0%nat. split; [simpl; lia|]. by apply matchhere_spec.
    + rewrite IH. split.
      * intros (k & Hk & H). exists (S k). simpl. split; [lia|done].
      * intros ([|k] & Hk & H); [apply matchhere_spec in H; simpl in H; congruence|].
        exists k. simpl in *. split; [lia|done].
Qed.

(** ** The buffer loop *)
Definition BUFSZ : nat := 1024.

(** [strchr(p, '\n')]: the offset of the newline, unless a zero comes first. *)
Fixpoint strchr_nl (p : list Z) : option nat :=
  match p with
  | [] => None
  | x :: p => if x =? 0 then None else if x =? NL then Some 0%nat else S <$> strchr_nl p
  end.

(** [while((q = strchr(p, '\n')) != 0)]: the output, and the bytes from [p] on. *)
Fixpoint grep_lines (fuel : nat) (re p : list Z) : list Z * list Z :=
  match fuel with
  | O => ([], p)
  | S fuel =>
      match strchr_nl p with
      | None => ([], p)
      | Some i =>
          let '(o, r) := grep_lines fuel re (drop (S i) p) in
          ((if match_ re (take i p) then take (S i) p else []) ++ o, r)
      end
  end.

(** The outer loop: [left] is what is in [buf], [inp] the input not yet read,
    and [sz] decides how much each [read] returns (at least one byte as long
    as there is input and room). *)
Fixpoint grep (fuel : nat) (re : list Z) (sz : nat → nat) (left inp : list Z) : list Z :=
  match fuel with
  | O => []
  | S fuel =>
      let want := (BUFSZ - length left - 1)%nat in
      let n := Nat.min want (Nat.min (length inp) (Nat.max 1 (sz fuel))) in
      if (n =? 0)%nat then []
      else
        let b := left ++ take n inp in
        let '(o, r) := grep_lines (S (length b)) re b in
        o ++ grep fuel re sz r (drop n inp)
  end.

(** ** What it prints *)
Definition line_ok (l : list Z) : Prop := (NL ∉ l) ∧ (0 ∉ l) ∧ (length l + 1 < BUFSZ)%nat.
Definition unlines (ls : list (list Z)) : list Z := l ← ls; l ++ [NL].
Definition expected (re : list Z) (ls : list (list Z)) : list Z :=
  unlines (filter (λ l, match_ re l = true) ls).

Lemma unlines_cons l ls : unlines (l :: ls) = l ++ NL :: unlines ls.
Proof. unfold unlines. simpl. rewrite <-app_assoc. done. Qed.

Lemma strchr_nl_none p : NL ∉ p → strchr_nl p = None.
Proof.
  induction p as [|x p IH]; [done|]. intros Hn. simpl. destruct (x =? 0); [done|].
  rewrite (proj2 (Z.eqb_neq x NL)) by set_solver. rewrite IH; [done|set_solver].
Qed.

Lemma strchr_nl_some l p : NL ∉ l → 0 ∉ l → strchr_nl (l ++ NL :: p) = Some (length l).
Proof.
  induction l as [|x l IH]; intros Hn Hz; [done|]. simpl.
  rewrite (proj2 (Z.eqb_neq x 0)), (proj2 (Z.eqb_neq x NL)) by set_solver.
  rewrite IH; [done|set_solver|set_solver].
Qed.

Lemma grep_lines_spec fuel re ls t :
  Forall (λ l, (NL ∉ l) ∧ 0 ∉ l) ls → NL ∉ t → (length (unlines ls ++ t) < fuel)%nat →
  grep_lines fuel re (unlines ls ++ t) = (expected re ls, t).
Proof.
  revert ls. induction fuel as [|fuel IH]; intros ls Hls Ht Hf; [lia|]. cbn [grep_lines].
  destruct ls as [|l ls]; [by rewrite strchr_nl_none|].
  apply Forall_cons in Hls as [[Hn Hz] Hls]. rewrite unlines_cons, <-app_assoc. simpl.
  rewrite strchr_nl_some by done.
  rewrite unlines_cons, <-app_assoc, length_app in Hf. simpl in Hf.
  replace (drop (S (length l)) (l ++ NL :: unlines ls ++ t)) with (unlines ls ++ t).
  2:{ rewrite drop_app_ge by lia. by replace (S (length l) - length l)%nat with 1%nat by lia. }
  rewrite IH by (done || lia). f_equal. rewrite take_app_length. unfold expected.
  replace (take (S (length l)) (l ++ NL :: unlines ls ++ t)) with (l ++ [NL]).
  2:{ rewrite take_app_ge by lia. by replace (S (length l) - length l)%nat with 1%nat by lia. }
  destruct (match_ re l) eqn:E.
  - rewrite filter_cons_True by done. rewrite unlines_cons, <-app_assoc. done.
  - rewrite filter_cons_False by (by rewrite E). done.
Qed.

(** Cutting a stream of lines anywhere: whole lines, then a part of a line. *)
Lemma cut_lines ls t b c :
  Forall line_ok ls → NL ∉ t → b ++ c = unlines ls ++ t →
  ∃ ls1 ls2 p, ls = ls1 ++ ls2 ∧ b = unlines ls1 ++ p ∧ p ++ c = unlines ls2 ++ t ∧ (NL ∉ p) ∧
    (ls2 ≠ [] → (length p + 1 < BUFSZ)%nat).
Proof.
  revert b. induction ls as [|l ls IH]; intros b Hls Ht E.
  - exists [], [], b. simpl in E. split_and!; try done. subst t. intros ?. apply Ht. set_solver.
  - apply Forall_cons in Hls as [(Hn & Hz & Hl) Hls]. rewrite unlines_cons, <-app_assoc in E. simpl in E.
    apply app_eq_inv in E as [(k & -> & Ek)|(k & -> & Ek)].
    + destruct k as [|x k]; simplify_eq/=.
      * exists [], (l :: ls), l. rewrite unlines_cons, app_nil_r, <-app_assoc. split_and!; first [done|intros _; lia].
      * destruct (IH k Hls Ht) as (ls1 & ls2 & p & -> & -> & Hp & Hnp & Hlen); [done|].
        exists (l :: ls1), ls2, p. rewrite unlines_cons, <-app_assoc. by split_and!.
    + exists [], ((b ++ k) :: ls), b. rewrite unlines_cons, Ek, <-!app_assoc.
      split_and!; try done; [set_solver|]. intros _. rewrite length_app in Hl. lia.
Qed.

Lemma grep_spec fuel re sz left inp ls t :
  Forall line_ok ls → NL ∉ t → left ++ inp = unlines ls ++ t → NL ∉ left →
  (ls ≠ [] → (length left + 1 < BUFSZ)%nat) → (length inp < fuel)%nat →
  grep fuel re sz left inp = expected re ls.
Proof.
  revert left inp ls. induction fuel as [|fuel IH]; intros left inp ls Hls Ht E Hl Hlen Hf; [lia|].
  cbn [grep]. set (n := Nat.min _ _). destruct (Nat.eqb_spec n 0) as [Hn|Hn].
  - destruct ls as [|l ls]; [done|exfalso]. specialize (Hlen ltac:(done)).
    assert (inp = []) as -> by (apply length_zero_iff_nil; unfold n in Hn; lia).
    rewrite app_nil_r, unlines_cons, <-app_assoc in E. subst left. set_solver.
  - rewrite <-(take_drop n inp), app_assoc in E.
    destruct (cut_lines ls t (left ++ take n inp) (drop n inp) Hls Ht E)
      as (ls1 & ls2 & p & -> & Hb & Hp & Hnp & Hlen2).
    apply Forall_app in Hls as [Hls1 Hls2]. rewrite Hb, (grep_lines_spec _ re ls1 p).
    + unfold expected. rewrite filter_app, (IH p _ ls2) by (done || rewrite length_drop; lia).
      unfold expected, unlines. by rewrite bind_app.
    + eapply Forall_impl; [exact Hls1|]. by intros l (? & ? & _).
    + done.
    + lia.
Qed.

(** * Properties *)

(** C36. The matcher implements its regular expressions: [match] finds the
    pattern in a text exactly when some suffix of the text (the text itself,
    if the pattern starts with a caret) starts with a string the pattern
    denotes, where a dot stands for any character, a starred character for any
    number of repetitions, and a final dollar for the end of the text. *)
Theorem match_correct re text :
  match_ re text = true ↔
  match re with
  | c :: re' => if decide (c = CARET) then matches re' text
                else ∃ k, (k ≤ length text)%nat ∧ matches re (drop k text)
  | [] => True
  end.
Proof.
  destruct re as [|c re]; [by destruct text|]. unfold match_.
  destruct (Z.eqb_spec c CARET) as [->|Hc].
  - rewrite decide_True by done. apply matchhere_spec.
  - rewrite decide_False by done. apply match_loop_spec.
Qed.

(** [grep] prints exactly the matching lines, in order, however the input
    arrives: for every way in which [read] cuts the input into pieces, if the
    lines are shorter than the buffer and contain no zero byte, the output is
    the concatenation of the terminated lines that match; text after the last
    newline is not printed. *)
Theorem grep_prints_matching_lines re sz ls t :
  Forall line_ok ls → NL ∉ t →
  grep (S (length (unlines ls ++ t))) re sz [] (unlines ls ++ t) = expected re ls.
Proof.
  intros Hls Ht. apply (grep_spec _ re sz [] _ ls t); try done; [by intros ?%elem_of_nil|intros _; unfold BUFSZ; simpl; lia|lia].
Qed.

Lemma grep_prints_matching_lines_witness :
  grep (S (length (unlines [[97; 98]; [99]] ++ [97]))) [98] (λ _, 2%nat) [] (unlines [[97; 98]; [99]] ++ [97])
    = expected [98] [[97; 98]; [99]].
Proof.
  apply (grep_prints_matching_lines [98] (λ _, 2%nat) [[97; 98]; [99]] [97]).
  - repeat constructor; simpl; try set_solver; unfold BUFSZ; lia.
  - set_solver.
Defined.
