(* ===== verification/Find.v ===== *)
(** * find ([user/find.c])

    The file system is a parameter: [env path] is what [open] and [fstat] (or
    [stat]) find at a path, with the contents of a directory as the sequence
    of its entries.  Every directory being searched keeps its descriptor open
    and [stat] needs one more, so the number of descriptors in use is part of
    the state.  A directory entry stores its name in [DIRSIZ] bytes, without a
    terminating zero if it has full length; [strcmp] on it reads on behind the
    field in that case.  The user stack is not modelled: each
    recursive call takes more than the 512 bytes of [buf] of its two pages. *)

From S2P Require Import Prelude Param Str.

Definition SLASH : Z := 47.
Definition DOTC : Z := 46.

(** [struct dirent]: the inode number and the [DIRSIZ] bytes of the name. *)
Record dirent := Dirent { de_inum : Z; de_name : list Z }.

Inductive node := NFile | NDevice | NDir (entries : list dirent).

Inductive out :=
  | Line (path : list Z)           (** [printf("%s\n", buf)] *)
  | CannotOpen (path : list Z)
  | TooLong.

(** [sizeof buf]. *)
Definition BUFLEN : nat := 512.

(** [strcmp(de.name, t)]: whether the strings are equal.  The comparison ends
    at the first difference or at the end of both; if it gets to the byte
    after the field it reads other memory. *)
Fixpoint strcmp_field (name t : list Z) : res bool :=
  match name, t with
  | [], _ => UB "find: strcmp reads past de.name"
  | x :: name, y :: t =>
      if x =? 0 then Ok false
      else if x =? y then strcmp_field name t
      else Ok false
  | x :: _, [] => Ok (x =? 0)
  end.

Definition rbind {A B} (m : res A) (f : A → res B) : res B :=
  match m with
  | Ok a => f a
  | Panic e => Panic e
  | Sleep c => Sleep c
  | UB w => UB w
  | NoFuel => NoFuel
  end.

Section find.
Context (env : list Z → option node) (file : list Z).

(** The loop over the entries of the directory [path]; [rec] is the recursive
    call and [nfd] the number of descriptors in use. *)
Fixpoint find_entries (rec : list Z → res (list out)) (nfd : nat) (path : list Z) (es : list dirent)
    : res (list out) :=
  match es with
  | [] => Ok []
  | de :: es =>
      let next := find_entries rec nfd path es in
      if de_inum de =? 0 then next
      else
        let buf := path ++ SLASH :: until_zero (de_name de) in
        rbind (strcmp_field (de_name de) [DOTC]) (λ dot,
        if dot then next else
        rbind (strcmp_field (de_name de) [DOTC; DOTC]) (λ dotdot,
        if dotdot then next else
        match (if (nfd <? Z.to_nat NOFILE)%nat then env buf else None) with
        | None => next
        | Some n =>
            rbind (strcmp_field (de_name de) file) (λ eq,
            rbind (match n with NDir _ => rec buf | _ => Ok [] end) (λ sub,
            rbind next (λ rest,
            Ok ((if (eq : bool) then [Line buf] else []) ++ sub ++ rest))))
        end))
  end.

Fixpoint find (fuel : nat) (nfd : nat) (path : list Z) : res (list out) :=
  match fuel with
  | O => NoFuel
  | S fuel =>
      match (if (nfd <? Z.to_nat NOFILE)%nat then env path else None) with
      | None => Ok [CannotOpen path]
      | Some (NDir es) =>
          if (BUFLEN <? length path + 1 + Z.to_nat DIRSIZ + 1)%nat then Ok [TooLong]
          else find_entries (find fuel (S nfd)) (S nfd) path es
      | Some _ => Ok []
      end
  end.
End find.

(** Standard input, output and error are open. *)
Definition main (env : list Z → option node) (fuel : nat) (argv : list (list Z)) : option (res (list out)) :=
  match argv with
  | [_; path; file] => Some (find env file fuel 3 path)
  | _ => None
  end.

(** ** The tree below a path *)
Inductive tree := TFile | TDev | TDir (children : list (list Z * tree)).

(** Names that fit the field with their terminating zero. *)
Definition name_ok (n : list Z) : Prop :=
  Forall (λ x, x ≠ 0) n ∧ (0 < length n < Z.to_nat DIRSIZ)%nat ∧ n ≠ [DOTC] ∧ n ≠ [DOTC; DOTC].

Definition entry (inum : Z) (n : list Z) : dirent := Dirent inum (field (Z.to_nat DIRSIZ) n).

(** [es] lists the children with free and dot entries in between. *)
Inductive lists : list dirent → list (list Z) → Prop :=
  | l_nil : lists [] []
  | l_free de es ns : de_inum de = 0 → lists es ns → lists (de :: es) ns
  | l_dot i es ns : lists es ns → lists (entry i [DOTC] :: es) ns
  | l_dotdot i es ns : lists es ns → lists (entry i [DOTC; DOTC] :: es) ns
  | l_entry i n es ns : i ≠ 0 → name_ok n → lists es ns → lists (entry i n :: es) (n :: ns).

Inductive describes (env : list Z → option node) : nat → list Z → tree → Prop :=
  | d_file h p : env p = Some NFile → describes env h p TFile
  | d_dev h p : env p = Some NDevice → describes env h p TDev
  | d_dir h p es cs :
      env p = Some (NDir es) → lists es cs.*1 → (length p + 1 + Z.to_nat DIRSIZ + 1 ≤ BUFLEN)%nat →
      Forall (λ c, describes env h (p ++ SLASH :: c.1) c.2) cs →
      describes env (S h) p (TDir cs).

(** The paths below [p] whose last component is [file], in the order of the
    directories. *)
Fixpoint found (file p : list Z) (t : tree) : list out :=
  match t with
  | TDir cs =>
      (fix go cs := match cs with
       | [] => []
       | (n, c) :: cs =>
           (if bool_decide (n = file) then [Line (p ++ SLASH :: n)] else []) ++
           found file (p ++ SLASH :: n) c ++ go cs
       end) cs
  | _ => []
  end.

(** ** Names in fields *)
Lemma field_short k n : (length n ≤ k)%nat → field k n = n ++ replicate (k - length n) 0.
Proof.
  intros Hl. unfold field. rewrite take_app_ge by lia. f_equal. rewrite take_replicate. f_equal. lia.
Qed.

Lemma until_zero_pad n j : Forall (λ x, x ≠ 0) n → until_zero (n ++ replicate j 0) = n.
Proof.
  induction 1 as [|x n Hx Hn IH]; simpl; [by destruct j|].
  rewrite (proj2 (Z.eqb_neq x 0)) by done. by rewrite IH.
Qed.

Lemma strcmp_field_pad n j t :
  Forall (λ x, x ≠ 0) n → Forall (λ x, x ≠ 0) t → (0 < j)%nat →
  strcmp_field (n ++ replicate j 0) t = Ok (bool_decide (n = t)).
Proof.
  intros Hn. revert t. induction Hn as [|x n Hx Hn IH]; intros t Ht Hj.
  - destruct j as [|j]; [lia|]. by destruct t.
  - simpl. rewrite (proj2 (Z.eqb_neq x 0)) by done. destruct t as [|y t]; [done|].
    apply Forall_cons in Ht as [Hy Ht]. destruct (Z.eqb_spec x y) as [->|Hxy].
    + rewrite IH by done. f_equal. apply bool_decide_ext. split; [by intros ->|by intros [= ->]].
    + by rewrite bool_decide_false by congruence.
Qed.

Lemma strcmp_entry i n t :
  Forall (λ x, x ≠ 0) n → (length n < Z.to_nat DIRSIZ)%nat → Forall (λ x, x ≠ 0) t →
  strcmp_field (de_name (entry i n)) t = Ok (bool_decide (n = t)).
Proof.
  intros Hn Hl Ht. simpl. rewrite field_short by lia. apply strcmp_field_pad; [done|done|lia].
Qed.

Lemma until_zero_entry i n :
  Forall (λ x, x ≠ 0) n → (length n < Z.to_nat DIRSIZ)%nat → until_zero (de_name (entry i n)) = n.
Proof. intros Hn Hl. simpl. rewrite field_short by lia. by apply until_zero_pad. Qed.

Lemma dots_nonzero : Forall (λ x, x ≠ 0) [DOTC] ∧ Forall (λ x, x ≠ 0) [DOTC; DOTC].
Proof. split; repeat constructor; done. Qed.

Section search.
Context (env : list Z → option node) (file : list Z).
Hypothesis Hfile : Forall (λ x, x ≠ 0) file.

(** The subtrees that a recursive call explores. *)
Definition explored (rec : list Z → res (list out)) (p : list Z) (c : list Z * tree) : Prop :=
  let buf := p ++ SLASH :: c.1 in
  match c.2 with
  | TFile => env buf = Some NFile
  | TDev => env buf = Some NDevice
  | TDir _ => (∃ es, env buf = Some (NDir es)) ∧ rec buf = Ok (found file buf c.2)
  end.

Lemma find_entries_spec rec nfd p es cs :
  lists es cs.*1 → Forall (explored rec p) cs → (nfd < Z.to_nat NOFILE)%nat →
  find_entries env file rec nfd p es = Ok (found file p (TDir cs)).
Proof using Hfile.
  intros Hl. remember cs.*1 as ns eqn:Ens. revert cs Ens. destruct dots_nonzero as [Hd1 Hd2].
  induction Hl as [|de es ns Hi Hl IH|i es ns Hl IH|i es ns Hl IH|i n es ns Hi Hn Hl IH]; intros cs Ens Hex Hfd.
  - destruct cs; done.
  - cbn [find_entries]. rewrite (proj2 (Z.eqb_eq _ _)) by done. by apply IH.
  - cbn [find_entries]. destruct (de_inum _ =? 0); [by apply IH|].
    rewrite strcmp_entry by (done || simpl; clia). simpl. by apply IH.
  - cbn [find_entries]. destruct (de_inum _ =? 0); [by apply IH|].
    rewrite !strcmp_entry by (done || simpl; clia). simpl. by apply IH.
  - destruct cs as [|[n' t] cs]; simplify_eq/=. apply Forall_cons in Hex as [Hc Hex].
    destruct Hn as (Hnz & Hlen & Hn1 & Hn2). rewrite (proj2 (Z.eqb_neq _ _)) by done.
    change (field (Z.to_nat DIRSIZ) n') with (de_name (entry i n')).
    rewrite !strcmp_entry, until_zero_entry by (done || lia). simpl.
    rewrite (bool_decide_false (n' = [DOTC])), (bool_decide_false (n' = [DOTC; DOTC])) by done.
    rewrite (proj2 (Nat.ltb_lt _ _)) by done. unfold explored in Hc. simpl in Hc.
    specialize (IH cs eq_refl Hex Hfd). destruct t as [| |cs'].
    + rewrite Hc. simpl. rewrite IH. done.
    + rewrite Hc. simpl. rewrite IH. done.
    + destruct Hc as [[es' ->] ->]. simpl. rewrite IH. done.
Qed.

Lemma find_spec h fuel nfd p t :
  describes env h p t → (h < fuel)%nat → (nfd + h + 1 ≤ Z.to_nat NOFILE)%nat →
  find env file fuel nfd p = Ok (found file p t).
Proof using Hfile.
  revert h nfd p t. induction fuel as [|fuel IH]; intros h nfd p t Hd Hf Hfd; [lia|].
  cbn [find]. rewrite (proj2 (Nat.ltb_lt _ _)) by lia.
  destruct Hd as [h p He|h p He|h p es cs He Hl Hlen Hcs]; rewrite He; [done|done|].
  rewrite (proj2 (Nat.ltb_ge _ _)) by done. apply find_entries_spec; [done| |lia].
  eapply Forall_impl; [exact Hcs|]. intros [n t] Hc. unfold explored. simpl in *.
  pose proof (IH h (S nfd) _ t Hc ltac:(lia) ltac:(lia)) as Hrec.
  destruct Hc as [| |h' p' es' cs' He']; [done|done|]. split; [by exists es'|done].
Qed.
End search.

(** * Properties *)

(** C38. [find] prints exactly the paths below the starting directory whose
    last component is the name searched for, each directory before its
    contents and in directory order, and nothing else: on every tree whose
    names are shorter than [DIRSIZ], whose paths fit the buffer and which is
    not deeper than the free descriptors allow. *)
Theorem find_complete env file h p t argv0 :
  Forall (λ x, x ≠ 0) file → describes env h p t → (3 + h + 1 ≤ Z.to_nat NOFILE)%nat →
  main env (S h) [argv0; p; file] = Some (Ok (found file p t)).
Proof. intros Hf Hd Hfd. unfold main. f_equal. apply (find_spec env file Hf h); [done|lia|done]. Qed.

(** A directory "." with an entry "a" and a sub-directory "d" that has one too. *)
Definition demo_env (p : list Z) : option node :=
  if decide (p = [46]) then Some (NDir [entry 1 [46]; entry 1 [46; 46]; entry 2 [97]; entry 3 [100]])
  else if decide (p = [46; 47; 97]) then Some NFile
  else if decide (p = [46; 47; 100]) then Some (NDir [entry 3 [46]; entry 1 [46; 46]; entry 4 [97]])
  else if decide (p = [46; 47; 100; 47; 97]) then Some NFile
  else None.

Lemma demo_describes : describes demo_env 2 [46] (TDir [([97], TFile); ([100], TDir [([97], TFile)])]).
Proof.
  assert (∀ x, x = 97 ∨ x = 100 → name_ok [x]) as Hn.
  { intros x Hx. split_and!; [repeat constructor; lia|simpl; lia|simpl; clia|intros [= ->]; unfold DOTC in Hx; lia|done]. }
  eapply d_dir; [reflexivity| |simpl; unfold BUFLEN; clia|].
  - apply l_dot, l_dotdot, l_entry; [done|by apply Hn; left|]. apply l_entry; [done|by apply Hn; right|]. constructor.
  - repeat apply List.Forall_cons; [by constructor| |by constructor].
    eapply d_dir; [reflexivity| |simpl; unfold BUFLEN; clia|].
    + apply l_dot, l_dotdot, l_entry; [done|by apply Hn; left|]. constructor.
    + repeat apply List.Forall_cons; [by constructor|by constructor].
Qed.

Lemma find_complete_witness :
  main demo_env 3 [[]; [46]; [97]] = Some (Ok [Line [46; 47; 97]; Line [46; 47; 100; 47; 97]]).
Proof.
  apply (find_complete demo_env [97] 2 [46] (TDir [([97], TFile); ([100], TDir [([97], TFile)])])).
  - repeat constructor. discriminate.
  - exact demo_describes.
  - vm_compute. lia.
Defined.

(** Names of full length are compared beyond the end of the entry: if a
    directory holds an entry whose [DIRSIZ] bytes are the first bytes of the
    name searched for, [strcmp] reads past [de.name]. *)
Theorem find_full_name_overruns env file nfd fuel p i es :
  (nfd + 1 < Z.to_nat NOFILE)%nat → i ≠ 0 →
  (Z.to_nat DIRSIZ ≤ length file)%nat → Forall (λ x, x ≠ 0) file → head file ≠ Some DOTC →
  env p = Some (NDir (entry i file :: es)) → (length p + 1 + Z.to_nat DIRSIZ + 1 ≤ BUFLEN)%nat →
  is_Some (env (p ++ SLASH :: take (Z.to_nat DIRSIZ) file)) →
  find env file (S fuel) nfd p = UB "find: strcmp reads past de.name".
Proof.
  intros Hfd Hi Hl Hnz Hdot Hp Hlen [n Hn]. cbn [find]. rewrite (proj2 (Nat.ltb_lt _ _)), Hp by lia.
  rewrite (proj2 (Nat.ltb_ge _ _)) by done. cbn [find_entries]. rewrite (proj2 (Z.eqb_neq _ _)) by done.
  assert (de_name (entry i file) = take (Z.to_nat DIRSIZ) file) as Ef.
  { simpl. unfold field. by rewrite take_app_le by lia. }
  rewrite Ef.
  assert (until_zero (take (Z.to_nat DIRSIZ) file) = take (Z.to_nat DIRSIZ) file) as Eu.
  { rewrite <-(app_nil_r (take _ _)) at 1. apply (until_zero_pad _ 0). by apply Forall_take. }
  rewrite Eu. destruct file as [|x file]; [simpl in Hl; clia|].
  assert (∀ t, strcmp_field (take (Z.to_nat DIRSIZ) (x :: file)) (DOTC :: t) = Ok false) as Hne.
  { intros t. change (Z.to_nat DIRSIZ) with 14%nat. simpl. apply Forall_cons in Hnz as [Hx _].
    rewrite (proj2 (Z.eqb_neq x 0)) by done. rewrite (proj2 (Z.eqb_neq x DOTC)) by (intros ->; by apply Hdot). done. }
  rewrite !Hne. cbn [rbind]. rewrite (proj2 (Nat.ltb_lt _ _)) by lia. rewrite Hn.
  assert (∀ k l, Forall (λ x, x ≠ 0) l → (k ≤ length l)%nat →
    strcmp_field (take k l) l = UB "find: strcmp reads past de.name") as Hub.
  { induction k as [|k IH]; intros l Hl' Hk; [by destruct l|]. destruct l as [|y l]; [simpl in Hk; lia|].
    apply Forall_cons in Hl' as [Hy Hl']. simpl. rewrite (proj2 (Z.eqb_neq y 0)), Z.eqb_refl by done.
    apply IH; [done|simpl in Hk; lia]. }
  by rewrite Hub.
Qed.

Lemma find_full_name_overruns_witness :
  let file := replicate 14 97 in
  let env p := if decide (p = [46]) then Some (NDir [entry 5 file]) else Some NFile in
  find env file 1 3 [46] = UB "find: strcmp reads past de.name".
Proof.
  apply (find_full_name_overruns _ (replicate 14 97) 3 0 [46] 5 []).
  - vm_compute. lia.
  - discriminate.
  - vm_compute. lia.
  - repeat constructor; discriminate.
  - discriminate.
  - reflexivity.
  - vm_compute. lia.
  - vm_compute. eexists. reflexivity.
Defined.
