(* ===== verification/Fs.v ===== *)
(** * The file system ([kernel/fs.c])

    Blocks, inodes, directories and path names, on top of the log.  The file
    system sees the disk through the interface [BlockStore]: buffers obtained
    with [bread], whose data it reads and assigns, announces with [log_write]
    and gives back with [brelse].  [kernel/log.c] is an instance of it.

    The memory of the current process is the second component of the state:
    [ucopyout] and [ucopyin] are [copyout] and [copyin] on its page table.
    Sections under the spin-lock [itable.lock] run atomically; a sleep-lock of
    an inode that is taken makes the caller [Sleep].  [printf] is left out. *)

From S2P Require Import Prelude Word Param Bio Log Str.

(** ** The block interface *)
Class BlockStore (S : Type) := {
  bread : Z → Z → K S nat;
  bp_data : nat → K S block;
  bp_set : nat → block → K S unit;
  log_write : nat → K S unit;
  brelse : nat → K S unit;
  mypid : S → Z;
}.

#[global] Instance log_store : BlockStore lst := {
  bread dev b := bio (Bio.bread dev (u32 b));
  bp_data i := bio (bdata i);
  bp_set i d := bio (bset_data i d);
  log_write i := Log.log_write i;
  brelse i := bio (Bio.brelse i);
  mypid s := me (bc s);
}.

(** ** Inodes in memory *)
Record inode := Inode {
  i_dev : Z;
  i_inum : Z;
  i_ref : Z;
  i_lock : sleeplock;
  i_valid : bool;
  i_type : Z;
  i_major : Z;
  i_minor : Z;
  i_nlink : Z;
  i_size : Z;
  i_addrs : list Z;
}.

Definition set_idlock (dev inum ref : Z) (lk : sleeplock) (valid : bool) (i : inode) : inode :=
  Inode dev inum ref lk valid (i_type i) (i_major i) (i_minor i) (i_nlink i) (i_size i) (i_addrs i).
Definition set_ref (r : Z) (i : inode) : inode := set_idlock (i_dev i) (i_inum i) r (i_lock i) (i_valid i) i.
Definition set_ilock (lk : sleeplock) (i : inode) : inode := set_idlock (i_dev i) (i_inum i) (i_ref i) lk (i_valid i) i.
Definition set_ivalid (v : bool) (i : inode) : inode := set_idlock (i_dev i) (i_inum i) (i_ref i) (i_lock i) v i.
Definition set_disk_part (ty mj mn nl sz : Z) (ad : list Z) (i : inode) : inode :=
  Inode (i_dev i) (i_inum i) (i_ref i) (i_lock i) (i_valid i) ty mj mn nl sz ad.
Definition set_type (t : Z) (i : inode) : inode :=
  set_disk_part t (i_major i) (i_minor i) (i_nlink i) (i_size i) (i_addrs i) i.
Definition set_dev (mj mn : Z) (i : inode) : inode :=
  set_disk_part (i_type i) mj mn (i_nlink i) (i_size i) (i_addrs i) i.
Definition set_nlink (n : Z) (i : inode) : inode :=
  set_disk_part (i_type i) (i_major i) (i_minor i) n (i_size i) (i_addrs i) i.
Definition set_size (n : Z) (i : inode) : inode :=
  set_disk_part (i_type i) (i_major i) (i_minor i) (i_nlink i) n (i_addrs i) i.
Definition set_addr (k : nat) (a : Z) (i : inode) : inode :=
  set_disk_part (i_type i) (i_major i) (i_minor i) (i_nlink i) (i_size i) (<[k := a]> (i_addrs i)) i.

(** ** [struct dinode] in a block *)
Definition dinode_off (inum : Z) : nat := Z.to_nat (inum mod IPB * sizeof_dinode).
Definition d_type (d : block) (o : nat) : Z := s16 (get16 d o).
Definition d_major (d : block) (o : nat) : Z := s16 (get16 d (o + 2)).
Definition d_minor (d : block) (o : nat) : Z := s16 (get16 d (o + 4)).
Definition d_nlink (d : block) (o : nat) : Z := s16 (get16 d (o + 6)).
Definition d_size (d : block) (o : nat) : Z := get32 d (o + 8).
Definition d_addrs (d : block) (o : nat) : list Z :=
  (λ k, get32 d (o + 12 + 4 * k)) <$> seq 0 (Z.to_nat (NDIRECT + 1)).

(** The assignments of [iupdate]. *)
Definition put_addrs (o : nat) (ad : list Z) (d : block) : block :=
  splice d (o + 12) (ad ≫= le_bytes 4).
Definition put_dinode (i : inode) (o : nat) (d : block) : block :=
  put_addrs o (i_addrs i)
    (put32 (put16 (put16 (put16 (put16 d o (i_type i)) (o + 2) (i_major i)) (o + 4) (i_minor i))
       (o + 6) (i_nlink i)) (o + 8) (i_size i)).

(** ** [struct dirent] *)
Record dirent := Dirent { de_inum : Z; de_name : list Z }.
Definition dirent_bytes (e : dirent) : list Z := le_bytes 2 (de_inum e) ++ de_name e.
Definition dirent_of (l : list Z) : dirent := Dirent (of_le (take 2 l)) (take (Z.to_nat DIRSIZ) (drop 2 l)).

(** [struct stat] *)
Record stat := Stat { st_dev : Z; st_ino : Z; st_type : Z; st_nlink : Z; st_size : Z }.

(** ** State *)
Record fst (S M : Type) := Fst {
  store : S;
  sb : superblock;
  itable : list inode;
  umem : M;
}.
Arguments Fst {S M}.
Arguments store {S M}.
Arguments sb {S M}.
Arguments itable {S M}.
Arguments umem {S M}.

Section fs.
Context {S M : Type} `{!BlockStore S}.
Context (ucopyout : Z → list Z → K M Z) (ucopyin : Z → Z → K M (Z * list Z)).
Abbreviation F := (fst S M).

Definition on_store {A} (m : K S A) : K F A := lift store (λ x s, Fst x (sb s) (itable s) (umem s)) m.
Definition on_mem {A} (m : K M A) : K F A := lift umem (λ x s, Fst (store s) (sb s) (itable s) x) m.

(** [ip->field], and assignments to [*ip]. *)
Definition ig {A} (ip : nat) (f : inode → A) : K F A :=
  t ← gets itable;
  match t !! ip with
  | Some i => mret (f i)
  | None => undefined "inode"
  end.
Definition iset (ip : nat) (f : inode → inode) : K F unit :=
  ig ip id;;
  modify (λ s, Fst (store s) (sb s) (alter f ip (itable s)) (umem s)).
Definition ilk {A} (ip : nat) (m : Z → K sleeplock A) : K F A :=
  pid ← gets (λ s, mypid (store s));
  lk ← ig ip i_lock;
  match m pid lk with
  | Ok (a, lk') => iset ip (set_ilock lk');; mret a
  | Panic e => panic e
  | Sleep c => sleep_on c
  | UB w => undefined w
  | NoFuel => nofuel
  end.

(** [either_copyout], [either_copyin] of [kernel/proc.c]: a kernel buffer is a
    list of bytes; [l] is what is there. *)
Definition either_copyout (user_dst : bool) (dst : Z) (l : list Z) : K F Z :=
  if user_dst then on_mem (ucopyout dst l) else mret 0.
Definition either_copyin (user_src : bool) (kbuf : list Z) (off src len : Z) : K F (Z * list Z) :=
  if user_src then on_mem (ucopyin src len)
  else mret (0, slice kbuf (Z.to_nat off) (Z.to_nat len)).

(** ** Blocks *)
Definition readsb (dev : Z) : K F superblock :=
  bp ← on_store (bread dev 1);
  d ← on_store (bp_data bp);
  on_store (brelse bp);;
  mret (Superblock (get32 d 0) (get32 d 4) (get32 d 8) (get32 d 12) (get32 d 16) (get32 d 20)
         (get32 d 24) (get32 d 28)).

Definition fsinit (initlog : Z → superblock → K S unit) (dev : Z) : K F unit :=
  x ← readsb dev;
  modify (λ s, Fst (store s) x (itable s) (umem s));;
  panic_if (negb (sb_magic x =? FSMAGIC)) "invalid file system";;
  on_store (initlog dev x).

Definition bzero (dev bno : Z) : K F unit :=
  bp ← on_store (bread dev bno);
  on_store (bp_set bp zero_block);;
  on_store (log_write bp);;
  on_store (brelse bp).

(** [bp->data[bi/8] & m], [|= m] and [&= ~m] for [m = 1 << (bi % 8)]. *)
Definition bit_get (d : block) (bi : Z) : bool := Z.testbit (d !!! Z.to_nat (bi / 8)) (bi mod 8).
Definition bit_set (d : block) (bi : Z) : block :=
  alter (λ x, Z.lor x (Z.shiftl 1 (bi mod 8))) (Z.to_nat (bi / 8)) d.
Definition bit_clear (d : block) (bi : Z) : block :=
  alter (λ x, Z.ldiff x (Z.shiftl 1 (bi mod 8))) (Z.to_nat (bi / 8)) d.

Definition balloc (dev : Z) : K F Z :=
  x ← gets sb;
  r ← for_loop (Z.to_nat ((sb_size x + BPB - 1) / BPB)) 0 (λ k,
    let b := k * BPB in
    bp ← on_store (bread dev (BBLOCK b x));
    d ← on_store (bp_data bp);
    found ← for_loop (Z.to_nat (Z.min BPB (sb_size x - b))) 0 (λ bi,
      if negb (bit_get d bi) then
        on_store (bp_set bp (bit_set d bi));;
        on_store (log_write bp);;
        on_store (brelse bp);;
        bzero dev (b + bi);;
        mret (Some (b + bi))
      else mret None);
    match found with
    | Some a => mret (Some a)
    | None => on_store (brelse bp);; mret None
    end);
  mret (default 0 r).

Definition bfree (dev b : Z) : K F unit :=
  x ← gets sb;
  bp ← on_store (bread dev (BBLOCK b x));
  let bi := b mod BPB in
  d ← on_store (bp_data bp);
  panic_if (negb (bit_get d bi)) "freeing free block";;
  on_store (bp_set bp (bit_clear d bi));;
  on_store (log_write bp);;
  on_store (brelse bp).

(** ** Inodes *)
Definition iinit : K F unit :=
  for_each (Z.to_nat NINODE) 0 (λ i, iset (Z.to_nat i) (set_ilock initsleeplock)).

(** The scan of [iget]: the entry of the inode, and the first free one. *)
Fixpoint iget_scan (dev inum : Z) (t : list inode) (i : nat) (empty : option nat) : option nat * option nat :=
  match t with
  | [] => (None, empty)
  | ip :: t =>
      if (0 <? i_ref ip) && (i_dev ip =? dev) && (i_inum ip =? inum) then (Some i, empty)
      else
        let empty := match empty with
                     | None => if i_ref ip =? 0 then Some i else None
                     | Some e => Some e
                     end in
        iget_scan dev inum t (Datatypes.S i) empty
  end.

Definition iget (dev inum : Z) : K F nat :=
  t ← gets itable;
  match iget_scan dev inum t 0 None with
  | (Some ip, _) =>
      r ← ig ip i_ref;
      iset ip (set_ref (r + 1));;
      mret ip
  | (None, None) => panic "iget: no inodes"
  | (None, Some ip) =>
      iset ip (λ i, set_idlock dev inum 1 (i_lock i) false i);;
      mret ip
  end.

Definition ialloc (dev type : Z) : K F (option nat) :=
  x ← gets sb;
  for_loop (Z.to_nat (sb_ninodes x - 1)) 1 (λ inum,
    bp ← on_store (bread dev (IBLOCK inum x));
    d ← on_store (bp_data bp);
    let o := dinode_off inum in
    if d_type d o =? 0 then
      on_store (bp_set bp (put16 (splice d o (replicate (Z.to_nat sizeof_dinode) 0)) o type));;
      on_store (log_write bp);;
      on_store (brelse bp);;
      ip ← iget dev inum;
      mret (Some ip)
    else
      on_store (brelse bp);;
      mret None).

Definition iupdate (ip : nat) : K F unit :=
  x ← gets sb;
  i ← ig ip id;
  bp ← on_store (bread (i_dev i) (IBLOCK (i_inum i) x));
  d ← on_store (bp_data bp);
  on_store (bp_set bp (put_dinode i (dinode_off (i_inum i)) d));;
  on_store (log_write bp);;
  on_store (brelse bp).

Definition idup (ip : nat) : K F nat :=
  r ← ig ip i_ref;
  iset ip (set_ref (r + 1));;
  mret ip.

Definition ilock (ip : option nat) : K F unit :=
  match ip with
  | None => panic "ilock"
  | Some ip =>
      r ← ig ip i_ref;
      panic_if (r <? 1) "ilock";;
      ilk ip acquiresleep;;
      v ← ig ip i_valid;
      when (negb v) (
        x ← gets sb;
        i ← ig ip id;
        bp ← on_store (bread (i_dev i) (IBLOCK (i_inum i) x));
        d ← on_store (bp_data bp);
        let o := dinode_off (i_inum i) in
        iset ip (set_disk_part (d_type d o) (d_major d o) (d_minor d o) (d_nlink d o) (d_size d o) (d_addrs d o));;
        on_store (brelse bp);;
        iset ip (set_ivalid true);;
        t ← ig ip i_type;
        panic_if (t =? 0) "ilock: no type")
  end.

Definition iunlock (ip : option nat) : K F unit :=
  match ip with
  | None => panic "iunlock"
  | Some ip =>
      h ← ilk ip holdingsleep;
      r ← ig ip i_ref;
      panic_if (negb h || (r <? 1)) "iunlock";;
      ilk ip (λ _, releasesleep)
  end.

(** [ip->addrs[k]] and [ip->addrs[k] = a] *)
Definition addr_get (ip : nat) (k : Z) : K F Z :=
  l ← ig ip i_addrs;
  match l !! Z.to_nat k with
  | Some a => mret a
  | None => undefined "addrs"
  end.
Definition addr_set (ip : nat) (k a : Z) : K F unit := iset ip (set_addr (Z.to_nat k) a).

Definition bmap (ip : nat) (bn : Z) : K F Z :=
  dev ← ig ip i_dev;
  if bn <? NDIRECT then
    addr ← addr_get ip bn;
    if addr =? 0 then
      addr ← balloc dev;
      if addr =? 0 then mret 0
      else addr_set ip bn addr;; mret addr
    else mret addr
  else
    let bn := bn - NDIRECT in
    if bn <? NINDIRECT then
      addr ← addr_get ip NDIRECT;
      addr ← (if addr =? 0 then
                addr ← balloc dev;
                (if addr =? 0 then mret tt else addr_set ip NDIRECT addr);;
                mret addr
              else mret addr);
      if addr =? 0 then mret 0 else
      bp ← on_store (bread dev addr);
      d ← on_store (bp_data bp);
      let addr := get32 d (Z.to_nat (4 * bn)) in
      addr ← (if addr =? 0 then
                addr ← balloc dev;
                when (negb (addr =? 0)) (
                  d ← on_store (bp_data bp);
                  on_store (bp_set bp (put32 d (Z.to_nat (4 * bn)) addr));;
                  on_store (log_write bp));;
                mret addr
              else mret addr);
      on_store (brelse bp);;
      mret addr
    else panic "bmap: out of range".

Definition itrunc (ip : nat) : K F unit :=
  dev ← ig ip i_dev;
  for_each (Z.to_nat NDIRECT) 0 (λ i,
    a ← addr_get ip i;
    when (negb (a =? 0)) (bfree dev a;; addr_set ip i 0));;
  a ← addr_get ip NDIRECT;
  when (negb (a =? 0)) (
    bp ← on_store (bread dev a);
    for_each (Z.to_nat NINDIRECT) 0 (λ j,
      d ← on_store (bp_data bp);
      let b := get32 d (Z.to_nat (4 * j)) in
      when (negb (b =? 0)) (bfree dev b));;
    on_store (brelse bp);;
    a ← addr_get ip NDIRECT;
    bfree dev a;;
    addr_set ip NDIRECT 0);;
  iset ip (set_size 0);;
  iupdate ip.

Definition iput (ip : nat) : K F unit :=
  i ← ig ip id;
  when ((i_ref i =? 1) && i_valid i && (i_nlink i =? 0)) (
    ilk ip acquiresleep;;
    itrunc ip;;
    iset ip (set_type 0);;
    iupdate ip;;
    iset ip (set_ivalid false);;
    ilk ip (λ _, releasesleep));;
  r ← ig ip i_ref;
  iset ip (set_ref (r - 1)).

Definition iunlockput (ip : nat) : K F unit := iunlock (Some ip);; iput ip.

Definition stati (ip : nat) : K F stat :=
  i ← ig ip id;
  mret (Stat (i_dev i) (i_inum i) (i_type i) (i_nlink i) (i_size i)).

(** ** Contents *)

(** [readi] returns the result and the bytes it stored at [dst]; the loop
    variables are [tot], [off] and [dst], and what has been stored. *)
Definition readi (ip : nat) (user_dst : bool) (dst off n : Z) : K F (Z * list Z) :=
  size ← ig ip i_size;
  if (size <? off) || (u32 (off + n) <? off) then mret (0, []) else
  let n := if size <? u32 (off + n) then u32 (size - off) else n in
  while_loop (Datatypes.S (Z.to_nat n)) (0, off, dst, []) (λ '(tot, off, dst, out),
    if negb (tot <? n) then mret (inr (tot, out)) else
    addr ← bmap ip (off / BSIZE);
    if addr =? 0 then mret (inr (tot, out)) else
    dev ← ig ip i_dev;
    bp ← on_store (bread dev addr);
    let m := Z.min (n - tot) (BSIZE - off mod BSIZE) in
    d ← on_store (bp_data bp);
    let l := slice d (Z.to_nat (off mod BSIZE)) (Z.to_nat m) in
    r ← either_copyout user_dst dst l;
    if r =? -1 then on_store (brelse bp);; mret (inr (-1, out))
    else
      on_store (brelse bp);;
      mret (inl (tot + m, u32 (off + m), u64 (dst + m), out ++ l))).

(** The loop of [writei]; [kbuf] is the kernel buffer at [src] when [user_src]
    is false. *)
Definition writei_step (ip : nat) (user_src : bool) (kbuf : list Z) (n : Z) (st : Z * Z * Z)
    : K F (Z * Z * Z + Z * Z) :=
  let '(tot, off, src) := st in
  if negb (tot <? n) then mret (inr (tot, off)) else
  addr ← bmap ip (off / BSIZE);
  if addr =? 0 then mret (inr (tot, off)) else
  dev ← ig ip i_dev;
  bp ← on_store (bread dev addr);
  let m := Z.min (n - tot) (BSIZE - off mod BSIZE) in
  '(r, l) ← either_copyin user_src kbuf tot src m;
  d ← on_store (bp_data bp);
  on_store (bp_set bp (splice d (Z.to_nat (off mod BSIZE)) l));;
  if r =? -1 then on_store (brelse bp);; mret (inr (tot, off))
  else
    on_store (log_write bp);;
    on_store (brelse bp);;
    mret (inl (tot + m, u32 (off + m), u64 (src + m))).

Definition writei (ip : nat) (user_src : bool) (kbuf : list Z) (src off n : Z) : K F Z :=
  size ← ig ip i_size;
  if (size <? off) || (u32 (off + n) <? off) then mret (-1) else
  if MAXFILE * BSIZE <? u32 (off + n) then mret (-1) else
  '(tot, off) ← while_loop (Datatypes.S (Z.to_nat n)) (0, off, src) (writei_step ip user_src kbuf n);
  size ← ig ip i_size;
  when (size <? off) (iset ip (set_size off));;
  iupdate ip;;
  mret tot.

(** ** Directories *)

(** A path element is a buffer of [DIRSIZ] bytes; [name] are the bytes before
    its zero, all of them when there is none. *)
Definition namecmp (name field : list Z) : Z := strncmp_l (Z.to_nat DIRSIZ) (name ++ [0]) field.

(** [readi(dp, 0, &de, off, sizeof(de))] *)
Definition read_dirent (dp : nat) (off : Z) (msg : string) : K F dirent :=
  '(r, l) ← readi dp false 0 off sizeof_dirent;
  panic_if (negb (r =? sizeof_dirent)) msg;;
  mret (dirent_of l).

(** Number of entries the loops over a directory visit. *)
Definition nentries (size : Z) : nat := Z.to_nat ((size + sizeof_dirent - 1) / sizeof_dirent).

Definition dirlookup (dp : nat) (name : list Z) : K F (option (nat * Z)) :=
  t ← ig dp i_type;
  panic_if (negb (t =? T_DIR)) "dirlookup not DIR";;
  size ← ig dp i_size;
  for_loop (nentries size) 0 (λ k,
    let off := k * sizeof_dirent in
    de ← read_dirent dp off "dirlookup read";
    if de_inum de =? 0 then mret None
    else if namecmp name (de_name de) =? 0 then
      dev ← ig dp i_dev;
      ip ← iget dev (de_inum de);
      mret (Some (ip, off))
    else mret None).

Definition dirlink (dp : nat) (name : list Z) (inum : Z) : K F Z :=
  r ← dirlookup dp name;
  match r with
  | Some (ip, _) => iput ip;; mret (-1)
  | None =>
      size ← ig dp i_size;
      o ← for_loop (nentries size) 0 (λ k,
        let off := k * sizeof_dirent in
        de ← read_dirent dp off "dirlink read";
        mret (if de_inum de =? 0 then Some off else None));
      let off := default (Z.of_nat (nentries size) * sizeof_dirent) o in
      let de := Dirent (u16 inum) (field (Z.to_nat DIRSIZ) name) in
      w ← writei dp false (dirent_bytes de) 0 off sizeof_dirent;
      mret (if negb (w =? sizeof_dirent) then -1 else 0)
  end.

(** ** Paths *)
Definition SLASH : Z := 47.
Fixpoint skip_slashes (p : list Z) : list Z :=
  match p with
  | c :: p' => if c =? SLASH then skip_slashes p' else p
  | [] => []
  end.
Fixpoint span_elem (p : list Z) : list Z * list Z :=
  match p with
  | c :: p' => if c =? SLASH then ([], p) else let '(a, b) := span_elem p' in (c :: a, b)
  | [] => ([], [])
  end.

(** The element, cut to [DIRSIZ] bytes, and the rest of the path. *)
Definition skipelem (path : list Z) : option (list Z * list Z) :=
  match skip_slashes path with
  | [] => None
  | p => let '(s, rest) := span_elem p in Some (take (Z.to_nat DIRSIZ) s, skip_slashes rest)
  end.

Definition namex (cwd : nat) (path : list Z) (nameiparent : bool) : K F (option (nat * list Z)) :=
  ip ← (if match path with c :: _ => c =? SLASH | [] => false end
        then iget ROOTDEV ROOTINO else idup cwd);
  while_loop (Datatypes.S (length path)) (ip, path, []) (λ '(ip, path, name),
    match skipelem path with
    | None =>
        if nameiparent then iput ip;; mret (inr None)
        else mret (inr (Some (ip, name)))
    | Some (name, path) =>
        ilock (Some ip);;
        t ← ig ip i_type;
        if negb (t =? T_DIR) then iunlockput ip;; mret (inr None) else
        if nameiparent && bool_decide (path = []) then
          iunlock (Some ip);; mret (inr (Some (ip, name)))
        else
          next ← dirlookup ip name;
          match next with
          | None => iunlockput ip;; mret (inr None)
          | Some (nx, _) => iunlockput ip;; mret (inl (nx, path, name))
          end
    end).

Definition namei (cwd : nat) (path : list Z) : K F (option nat) :=
  r ← namex cwd path false; mret (Datatypes.fst <$> r).
Definition nameiparent (cwd : nat) (path : list Z) : K F (option (nat * list Z)) := namex cwd path true.
End fs.
