(* ===== verification/File.v ===== *)
(** * Open files ([kernel/file.c], [pipealloc] of [kernel/pipe.c])

    The table of open files, shared by all processes, with reference counts.
    What the files refer to — inodes, pipes, devices, the memory of the
    current process — is behind the interface [FileOps], which [kernel/fs.c],
    [kernel/log.c], [kernel/pipe.c], [kernel/kalloc.c] and the device switch
    implement.  Sections under [ftable.lock] run atomically. *)

From S2P Require Import Prelude Word Param Fs.

(** ** What [file.c] and [sysfile.c] call *)
Class FileOps (S : Type) := {
  begin_op : K S unit;
  end_op : K S unit;
  o_ilock : nat → K S unit;
  o_iunlock : nat → K S unit;
  o_iput : nat → K S unit;
  o_stati : nat → K S stat;
  o_readi : nat → Z → Z → Z → K S Z;      (** inode, user address, offset, length *)
  o_writei : nat → Z → Z → Z → K S Z;
  o_copyout : Z → list Z → K S Z;
  o_piperead : Z → Z → Z → K S Z;         (** pipe, user address, length *)
  o_pipewrite : Z → Z → Z → K S Z;
  o_pipeclose : Z → bool → K S unit;
  o_pipeinit : Z → K S unit;              (** the assignments to [*pi] in [pipealloc] *)
  o_kalloc : K S Z;
  o_kfree : Z → K S unit;
  dev_read : Z → option (Z → Z → K S Z);  (** [devsw[major].read], [None] for 0 *)
  dev_write : Z → option (Z → Z → K S Z);
}.

(** ** State *)
Inductive ftype := FD_NONE | FD_PIPE | FD_INODE | FD_DEVICE.
#[global] Instance ftype_eq_dec : EqDecision ftype.
Proof. solve_decision. Defined.

Record file := File {
  f_type : ftype;
  f_ref : Z;
  f_readable : bool;
  f_writable : bool;
  f_pipe : Z;
  f_ip : nat;
  f_off : Z;
  f_major : Z;
}.

Definition set_fref (r : Z) (f : file) : file :=
  File (f_type f) r (f_readable f) (f_writable f) (f_pipe f) (f_ip f) (f_off f) (f_major f).
Definition set_ftype (t : ftype) (f : file) : file :=
  File t (f_ref f) (f_readable f) (f_writable f) (f_pipe f) (f_ip f) (f_off f) (f_major f).
Definition set_off (o : Z) (f : file) : file :=
  File (f_type f) (f_ref f) (f_readable f) (f_writable f) (f_pipe f) (f_ip f) o (f_major f).
Definition set_rw (r w : bool) (f : file) : file :=
  File (f_type f) (f_ref f) r w (f_pipe f) (f_ip f) (f_off f) (f_major f).
Definition set_pipe (p : Z) (f : file) : file :=
  File (f_type f) (f_ref f) (f_readable f) (f_writable f) p (f_ip f) (f_off f) (f_major f).
Definition set_ip (ip : nat) (f : file) : file :=
  File (f_type f) (f_ref f) (f_readable f) (f_writable f) (f_pipe f) ip (f_off f) (f_major f).
Definition set_major (m : Z) (f : file) : file :=
  File (f_type f) (f_ref f) (f_readable f) (f_writable f) (f_pipe f) (f_ip f) (f_off f) m.

Record fls (S : Type) := Fls { below : S; ftable : list file }.
Arguments Fls {S}.
Arguments below {S}.
Arguments ftable {S}.

(** [sizeof(struct stat)] is 24: four bytes [dev], four [ino], two [type], two
    [nlink], four of padding and eight [size]. *)
Definition stat_bytes (pad : list Z) (st : stat) : list Z :=
  le_bytes 4 (st_dev st) ++ le_bytes 4 (st_ino st) ++ le_bytes 2 (st_type st) ++
  le_bytes 2 (st_nlink st) ++ pad ++ le_bytes 8 (st_size st).

Section file.
Context {S : Type} `{!FileOps S}.
Abbreviation F := (fls S).

Definition on_below {A} (m : K S A) : K F A := lift below (λ x s, Fls x (ftable s)) m.
Definition fg (f : nat) : K F file :=
  t ← gets ftable;
  match t !! f with
  | Some x => mret x
  | None => undefined "struct file"
  end.
Definition fset (f : nat) (g : file → file) : K F unit :=
  fg f;; modify (λ s, Fls (below s) (alter g f (ftable s))).

(** The first entry with [ref == 0]. *)
Fixpoint free_file (t : list file) (i : nat) : option nat :=
  match t with
  | [] => None
  | f :: t => if f_ref f =? 0 then Some i else free_file t (Datatypes.S i)
  end.

Definition filealloc : K F (option nat) :=
  t ← gets ftable;
  match free_file t 0 with
  | Some f => fset f (set_fref 1);; mret (Some f)
  | None => mret None
  end.

Definition filedup (f : nat) : K F nat :=
  x ← fg f;
  panic_if (f_ref x <? 1) "filedup";;
  fset f (set_fref (f_ref x + 1));;
  mret f.

Definition fileclose (f : nat) : K F unit :=
  x ← fg f;
  panic_if (f_ref x <? 1) "fileclose";;
  fset f (set_fref (f_ref x - 1));;
  if 0 <? f_ref x - 1 then mret tt
  else
    ff ← fg f;
    fset f (set_fref 0);;
    fset f (set_ftype FD_NONE);;
    match f_type ff with
    | FD_PIPE => on_below (o_pipeclose (f_pipe ff) (f_writable ff))
    | FD_INODE | FD_DEVICE =>
        on_below begin_op;;
        on_below (o_iput (f_ip ff));;
        on_below end_op
    | FD_NONE => mret tt
    end.

(** [pad] are the bytes of the padding of the local variable [st]. *)
Definition filestat (pad : list Z) (f : nat) (addr : Z) : K F Z :=
  x ← fg f;
  match f_type x with
  | FD_INODE | FD_DEVICE =>
      on_below (o_ilock (f_ip x));;
      st ← on_below (o_stati (f_ip x));
      on_below (o_iunlock (f_ip x));;
      r ← on_below (o_copyout addr (stat_bytes pad st));
      mret (if r <? 0 then -1 else 0)
  | _ => mret (-1)
  end.

Definition fileread (f : nat) (addr n : Z) : K F Z :=
  x ← fg f;
  if negb (f_readable x) then mret (-1) else
  match f_type x with
  | FD_PIPE => on_below (o_piperead (f_pipe x) addr n)
  | FD_DEVICE =>
      if (f_major x <? 0) || (NDEV <=? f_major x) then mret (-1) else
      match dev_read (f_major x) with
      | None => mret (-1)
      | Some rd => on_below (rd addr n)
      end
  | FD_INODE =>
      on_below (o_ilock (f_ip x));;
      x ← fg f;
      r ← on_below (o_readi (f_ip x) addr (f_off x) n);
      when (0 <? r) (fset f (λ y, set_off (u32 (f_off y + r)) y));;
      on_below (o_iunlock (f_ip x));;
      mret r
  | FD_NONE => panic "fileread"
  end.

(** [((MAXOPBLOCKS-1-1-2) / 2) * BSIZE] *)
Definition write_max : Z := (MAXOPBLOCKS - 1 - 1 - 2) / 2 * BSIZE.

(** Body of the loop of [filewrite]. *)
Definition write_chunk (f : nat) (addr n i : Z) : K F (Z + Z) :=
  if negb (i <? n) then mret (inr i) else
  let n1 := Z.min (n - i) write_max in
  x ← fg f;
  on_below begin_op;;
  on_below (o_ilock (f_ip x));;
  x ← fg f;
  r ← on_below (o_writei (f_ip x) (u64 (addr + i)) (f_off x) n1);
  when (0 <? r) (fset f (λ y, set_off (u32 (f_off y + r)) y));;
  on_below (o_iunlock (f_ip x));;
  on_below end_op;;
  if negb (r =? n1) then mret (inr i) else mret (inl (i + r)).

Definition filewrite (f : nat) (addr n : Z) : K F Z :=
  x ← fg f;
  if negb (f_writable x) then mret (-1) else
  match f_type x with
  | FD_PIPE => on_below (o_pipewrite (f_pipe x) addr n)
  | FD_DEVICE =>
      if (f_major x <? 0) || (NDEV <=? f_major x) then mret (-1) else
      match dev_write (f_major x) with
      | None => mret (-1)
      | Some wr => on_below (wr addr n)
      end
  | FD_INODE =>
      i ← while_loop (Datatypes.S (Z.to_nat n)) 0 (write_chunk f addr n);
      mret (if i =? n then n else -1)
  | FD_NONE => panic "filewrite"
  end.

(** [pipealloc]: the file structures of the two ends. *)
Definition pipealloc : K F (option (nat * nat)) :=
  let bad (pi : Z) (f0 f1 : option nat) : K F (option (nat * nat)) :=
    (if pi =? 0 then mret tt else on_below (o_kfree pi));;
    (match f0 with Some f => fileclose f | None => mret tt end);;
    (match f1 with Some f => fileclose f | None => mret tt end);;
    mret None in
  f0 ← filealloc;
  match f0 with
  | None => bad 0 None None
  | Some f0 =>
      f1 ← filealloc;
      match f1 with
      | None => bad 0 (Some f0) None
      | Some f1 =>
          pi ← on_below o_kalloc;
          if pi =? 0 then bad 0 (Some f0) (Some f1) else
          on_below (o_pipeinit pi);;
          fset f0 (λ x, set_pipe pi (set_rw true false (set_ftype FD_PIPE x)));;
          fset f1 (λ x, set_pipe pi (set_rw false true (set_ftype FD_PIPE x)));;
          mret (Some (f0, f1))
      end
  end.
End file.
