(* ===== verification/FsSpec.v ===== *)
(** * What the file system needs of the block layer, and that the log gives it

    [StoreSpec] states the contract of [BlockStore] inside a transaction: the
    file system sees the current contents [v] of every block, holds buffers
    [H], has changed those in [D] without logging them yet, and has the blocks
    [L] in its transaction.  [kernel/log.c] fulfils it. *)

From S2P Require Import Prelude Word Param Bio BioSpec Log LogSpec LogCrash LogTx Str Fs.

(** Block numbers outside of the log area. *)
Definition home (sb : superblock) (b : Z) : Prop :=
  0 ≤ b < 2 ^ 31 ∧ ¬ (sb_logstart sb ≤ b < sb_logstart sb + sb_nlog sb).

(** Blocks that one transaction may hold, with a few buffers in use besides. *)
Definition logcap : nat := 27.

Class StoreSpec (S : Type) `{!BlockStore S} := {
  tx : superblock → Z → S → (Z → block) → gmap Z nat → gset Z → gset Z → Prop;
  tx_pid : ∀ sb pid s v H D L, tx sb pid s v H D L → mypid s = pid;
  tx_len : ∀ sb pid s v H D L b, tx sb pid s v H D L → home sb b → length (v b) = Z.to_nat BSIZE;
  tx_read : ∀ sb pid s v H D L b,
    tx sb pid s v H D L → home sb b → H !! b = None → (size H ≤ 2)%nat →
    wp (bread ROOTDEV b) (λ i s', tx sb pid s' v (<[b := i]> H) (D ∖ {[b]}) L) s;
  tx_data : ∀ sb pid s v H D L b i,
    tx sb pid s v H D L → H !! b = Some i → wp (bp_data i) (λ d s', d = v b ∧ s' = s) s;
  tx_set : ∀ sb pid s v H D L b i d,
    tx sb pid s v H D L → H !! b = Some i → length d = Z.to_nat BSIZE →
    wp (bp_set i d) (λ _ s', tx sb pid s' (<[b := d]> v) H ({[b]} ∪ D) L) s;
  tx_write : ∀ sb pid s v H D L b i,
    tx sb pid s v H D L → H !! b = Some i → b ∈ L ∨ (size L < logcap)%nat →
    wp (log_write i) (λ _ s', tx sb pid s' v H (D ∖ {[b]}) ({[b]} ∪ L)) s;
  tx_relse : ∀ sb pid s v H D L b i,
    tx sb pid s v H D L → H !! b = Some i → b ∉ D →
    wp (brelse i) (λ _ s', tx sb pid s' v (delete b H) D L) s;
}.

(** ** The log *)
Record log_tx (sb : superblock) (pid : Z) (s : lst) (v : Z → block) (H : gmap Z nat) (D L : gset Z) : Prop := {
  lt_inv : LInv s v H;
  lt_pid : me (bc s) = pid;
  lt_start : l_start s = sb_logstart sb;
  lt_size : l_size s = sb_nlog sb;
  lt_room : Z.of_nat logcap < l_size s - 1;
  lt_op : 1 ≤ l_outstanding s;
  lt_blocks : L = list_to_set (lblocks s);
  lt_cap : (size L ≤ logcap)%nat;
  lt_home : ∀ b i, H !! b = Some i → home sb b;
  lt_clean : ∀ b i, H !! b = Some i → b ∉ D → b ∈ L ∨ v b = dread (disk (bc s)) b;
}.

Section log.
Context (sb : superblock) (pid : Z).
Implicit Types (s : lst) (v : Z → block) (H : gmap Z nat) (D L : gset Z).

Lemma log_tx_home s v H D L b : log_tx sb pid s v H D L → home sb b → ¬ in_log s b.
Proof. intros [] [_ Hn]. unfold in_log. by rewrite lt_start0, lt_size0. Qed.

Lemma log_tx_count s v H D L : log_tx sb pid s v H D L → Z.to_nat (lh_n (l_lh s)) = size L.
Proof.
  intros []. rewrite lt_blocks0, size_list_to_set by apply lt_inv0. symmetry. apply length_lblocks, lt_inv0.
Qed.

(** Cache operations that leave the disk and the log alone. *)
Lemma log_tx_cache s v H D L b' v' H' D' :
  log_tx sb pid s v H D L → same_disk (bc s) b' → PInv b' v' H' L →
  (∀ x, home sb x → length (v' x) = Z.to_nat BSIZE) →
  (∀ x, ¬ in_log s x → length (v' x) = Z.to_nat BSIZE) →
  (∀ x i, H' !! x = Some i → home sb x) →
  (∀ x i, H' !! x = Some i → x ∉ D' → x ∈ L ∨ v' x = dread (disk (bc s)) x) →
  log_tx sb pid (set_bc b' s) v' H' D' L.
Proof.
  intros HT (Hd & _ & Hm) HP _ Hl Hh Hc. pose proof HT as []. split; simpl; try done; [|congruence|by rewrite Hd].
  eapply LInv_cache; try done; [by rewrite <-lt_blocks0|].
  intros x i Hx. apply (log_tx_home _ _ _ _ _ _ HT). by eapply Hh.
Qed.

Lemma log_read s v H D L b :
  log_tx sb pid s v H D L → home sb b → H !! b = None → (size H ≤ 2)%nat →
  wp (bio (Bio.bread ROOTDEV (u32 b))) (λ i s', log_tx sb pid s' v (<[b := i]> H) (D ∖ {[b]}) L) s.
Proof.
  intros HT Hb Hn Hs. pose proof HT as []. destruct (Hb) as [Hr _]. unfold u32. rewrite wrap_small by lia.
  apply wp_at, wp_bio. eapply wp_mono; [eapply pread_spec; [apply lt_inv0|done|]|].
  { right. rewrite <-lt_blocks0. unfold nbuf, logcap in *. clia. }
  intros i b' [HP Hd]. rewrite <-lt_blocks0 in HP. eapply log_tx_cache; try done.
  - intros x Hx. apply lt_inv0. by eapply log_tx_home.
  - apply lt_inv0.
  - intros x j. rewrite lookup_insert_Some. naive_solver.
  - intros x j. rewrite lookup_insert_Some. intros [[<- <-]|[Hne Hj]] HnD.
    + destruct (decide (b ∈ L)) as [|HL]; [by left|right]. eapply PInv_clean; [apply lt_inv0|done|].
      by rewrite <-lt_blocks0.
    + apply (lt_clean0 x j Hj). set_solver.
Qed.

Lemma log_set s v H D L b i d :
  log_tx sb pid s v H D L → H !! b = Some i → length d = Z.to_nat BSIZE →
  wp (bio (bset_data i d)) (λ _ s', log_tx sb pid s' (<[b := d]> v) H ({[b]} ∪ D) L) s.
Proof.
  intros HT Hi Hd. pose proof HT as []. apply wp_at, wp_bio.
  eapply wp_mono; [eapply pset_data_spec; [apply lt_inv0|done]|]. intros _ b' [HP Hs].
  rewrite <-lt_blocks0 in HP.
  assert (∀ x, ¬ in_log s x → length (<[b := d]> v x) = Z.to_nat BSIZE) as Hl.
  { intros x Hx. destruct (decide (x = b)) as [->|]; [by rewrite fn_lookup_insert|].
    rewrite fn_lookup_insert_ne by done. by apply lt_inv0. }
  eapply log_tx_cache; try done.
  - intros x Hx. apply Hl. by eapply log_tx_home.
  - intros x j Hj HnD. rewrite fn_lookup_insert_ne by set_solver. apply (lt_clean0 x j Hj). set_solver.
Qed.

Lemma log_log_write s v H D L b i :
  log_tx sb pid s v H D L → H !! b = Some i → b ∈ L ∨ (size L < logcap)%nat →
  wp (Log.log_write i) (λ _ s', log_tx sb pid s' v H (D ∖ {[b]}) ({[b]} ∪ L)) s.
Proof.
  intros HT Hi Hroom. pose proof HT as []. pose proof (log_tx_count _ _ _ _ _ HT) as Hcnt.
  pose proof (lw_n _ (li_wf _ _ _ lt_inv0)) as Hn. destruct (lt_home0 b i Hi) as [Hrng _].
  pose proof (log_tx_home _ _ _ _ _ _ HT (lt_home0 b i Hi)) as Hout.
  apply wp_at. eapply wp_mono.
  { apply (log_write_spec s (bc s) v H b i); try done; [apply lt_inv0|apply lt_inv0|unfold logcap in *; clia|].
    unfold logcap in *. lia. }
  intros _ s' (b' & h & -> & Hwf & Hlb & (Hd & Hio & Hm) & HP).
  assert (list_to_set (lblocks (set_lh h s)) = {[b]} ∪ L) as HL.
  { rewrite Hlb, lt_blocks0. unfold absorb. case_decide; rewrite ?list_to_set_app_L; set_solver. }
  assert (size ({[b]} ∪ L) ≤ logcap)%nat as Hcap.
  { destruct Hroom as [Hin|Hlt]; [by rewrite subseteq_union_1_L by set_solver|].
    pose proof (size_union_alt {[b]} L) as E. rewrite size_singleton in E.
    pose proof (subseteq_size (L ∖ {[b]}) L ltac:(set_solver)). lia. }
  split; simpl; try done; [|congruence|].
  - split; simpl; rewrite ?Hd; try apply lt_inv0; try done.
    + by eapply LWf_ext, Hwf.
    + pose proof (size_list_to_set (C := gset Z) _ (lw_nodup _ Hwf)) as E.
      rewrite HL, (length_lblocks _ Hwf) in E. pose proof (lw_n _ Hwf). simpl in *. unfold logcap in *. clia.
  - intros x j Hj HnD. rewrite Hd. destruct (decide (x = b)) as [->|Hne]; [left; set_solver|].
    destruct (lt_clean0 x j Hj); [set_solver|left; set_solver|by right].
Qed.

Lemma log_relse s v H D L b i :
  log_tx sb pid s v H D L → H !! b = Some i → b ∉ D →
  wp (bio (Bio.brelse i)) (λ _ s', log_tx sb pid s' v (delete b H) D L) s.
Proof.
  intros HT Hi HnD. pose proof HT as []. apply wp_at, wp_bio.
  eapply wp_mono; [eapply prelse_spec; [apply lt_inv0|done|]|].
  { rewrite <-lt_blocks0. by eapply lt_clean0. }
  intros _ b' [HP Hs]. rewrite <-lt_blocks0 in HP. eapply log_tx_cache; try done.
  - intros x Hx. apply lt_inv0. by eapply log_tx_home.
  - apply lt_inv0.
  - intros x j [_ Hj]%lookup_delete_Some. by eapply lt_home0.
  - intros x j [_ Hj]%lookup_delete_Some. by apply (lt_clean0 x j).
Qed.
End log.

#[global] Program Instance log_store_spec : StoreSpec lst := { tx := log_tx }.
Next Obligation. intros sb pid s v H D L []. done. Qed.
Next Obligation. intros sb pid s v H D L b HT Hb. apply (li_len s v H), (log_tx_home _ _ _ _ _ _ _ _ HT Hb). apply HT. Qed.
Next Obligation. intros. by apply log_read. Qed.
Next Obligation.
  intros sb pid s v H D L b i [] Hi. simpl. apply wp_at, wp_bio. eapply pdata_spec; [apply lt_inv0|done|].
  split; [done|]. by destruct s.
Qed.
Next Obligation. intros. by apply log_set. Qed.
Next Obligation. intros. by apply log_log_write. Qed.
Next Obligation. intros. by apply log_relse. Qed.
