(* ===== verification/FsBlock.v ===== *)
(** * Disk blocks: the free map ([balloc], [bfree] of [kernel/fs.c])

    The geometry of the disk, the operations of the block interface as seen
    from the state of the file system, and the allocation of blocks. *)

From S2P Require Import Prelude Word Param Bio Str Fs FsSpec.

(** ** Geometry

    [mkfs] lays out boot block, super block, log, inodes, free map and data;
    the free map fits into one block. *)
Record geo (x : superblock) : Prop := {
  geo_log : 0 ≤ sb_logstart x ∧ 0 ≤ sb_nlog x ∧ sb_logstart x + sb_nlog x ≤ sb_inodestart x;
  geo_inode : 1 ≤ sb_ninodes x ∧ sb_inodestart x + (sb_ninodes x - 1) / IPB < sb_bmapstart x;
  geo_data : sb_bmapstart x < sb_size x;
  geo_size : sb_size x ≤ BPB;
}.
Lemma geo_mkfs : geo mkfs_sb.
Proof. split; vm_compute; repeat split; congruence. Qed.

(** A data block. *)
Definition data (x : superblock) (b : Z) : Prop := sb_bmapstart x < b < sb_size x.

Lemma data_home x b : geo x → data x b → home x b.
Proof.
  intros [] []. pose proof (Z.div_pos (sb_ninodes x - 1) IPB ltac:(lia) ltac:(reflexivity)).
  split; change BPB with 8192 in *; lia.
Qed.
Lemma bmap_home x : geo x → home x (sb_bmapstart x).
Proof.
  intros []. pose proof (Z.div_pos (sb_ninodes x - 1) IPB ltac:(lia) ltac:(reflexivity)).
  split; change BPB with 8192 in *; lia.
Qed.
Lemma BBLOCK_one x b : geo x → 0 ≤ b < sb_size x → BBLOCK b x = sb_bmapstart x.
Proof. intros [] Hb. unfold BBLOCK. rewrite Z.div_small by lia. lia. Qed.
Lemma data_range x b : geo x → data x b → 0 < b < sb_size x ∧ b < 2 ^ 31.
Proof.
  intros [] []. pose proof (Z.div_pos (sb_ninodes x - 1) IPB ltac:(lia) ltac:(reflexivity)).
  change BPB with 8192 in *. lia.
Qed.

(** ** Bits *)
Lemma bit_alter_lookup (d : block) (f : Z → Z) i j : (i < length d)%nat →
  alter f i d !!! j = if decide (i = j) then f (d !!! j) else d !!! j.
Proof.
  intros Hi. rewrite !list_lookup_total_alt. case_decide as E; [subst|].
  - rewrite list_lookup_alter_eq. destruct (lookup_lt_is_Some_2 d j Hi) as [z ->]. done.
  - by rewrite list_lookup_alter_ne.
Qed.

Lemma bit_index bi bj : 0 ≤ bi → 0 ≤ bj → Z.to_nat (bi / 8) = Z.to_nat (bj / 8) → bi mod 8 = bj mod 8 → bi = bj.
Proof.
  intros H1 H2 E1 E2. pose proof (Z.div_pos bi 8). pose proof (Z.div_pos bj 8).
  rewrite (Z.div_mod bi 8), (Z.div_mod bj 8) by lia. lia.
Qed.

Lemma testbit_shift k j : 0 ≤ k → 0 ≤ j → Z.testbit (Z.shiftl 1 k) j = bool_decide (k = j).
Proof.
  intros. rewrite Z.shiftl_1_l. case_bool_decide as E; [subst; by apply Z.pow2_bits_true|].
  by apply Z.pow2_bits_false.
Qed.

Section bits.
Context (d : block) (Hd : length d = Z.to_nat BSIZE).
Implicit Types bi bj : Z.

Lemma bit_pos bi : 0 ≤ bi < BPB → (Z.to_nat (bi / 8) < length d)%nat.
Proof using Hd. intros H. rewrite Hd. assert (bi / 8 < BSIZE) by (apply Z.div_lt_upper_bound; clia).
  pose proof (Z.div_pos bi 8). lia. Qed.

Lemma bit_set_get bi bj : 0 ≤ bi < BPB → 0 ≤ bj →
  bit_get (bit_set d bi) bj = bool_decide (bi = bj) || bit_get d bj.
Proof using Hd.
  intros Hi Hj. unfold bit_get, bit_set. rewrite bit_alter_lookup by by apply bit_pos.
  pose proof (Z.mod_pos_bound bi 8). pose proof (Z.mod_pos_bound bj 8).
  case_decide as E.
  - rewrite Z.lor_spec, testbit_shift by lia. rewrite orb_comm. f_equal. apply bool_decide_ext.
    split; [intros E2; apply bit_index; [lia|lia|done|done]|by intros ->].
  - rewrite bool_decide_false; [done|]. by intros ->.
Qed.

Lemma bit_clear_get bi bj : 0 ≤ bi < BPB → 0 ≤ bj →
  bit_get (bit_clear d bi) bj = negb (bool_decide (bi = bj)) && bit_get d bj.
Proof using Hd.
  intros Hi Hj. unfold bit_get, bit_clear. rewrite bit_alter_lookup by by apply bit_pos.
  pose proof (Z.mod_pos_bound bi 8). pose proof (Z.mod_pos_bound bj 8).
  case_decide as E.
  - rewrite Z.ldiff_spec, testbit_shift by lia. rewrite andb_comm. do 2 f_equal. apply bool_decide_ext.
    split; [intros E2; apply bit_index; [lia|lia|done|done]|by intros ->].
  - rewrite bool_decide_false; [done|]. by intros ->.
Qed.

Lemma length_bit_set bi : length (bit_set d bi) = Z.to_nat BSIZE.
Proof using Hd. unfold bit_set. by rewrite length_alter. Qed.
Lemma length_bit_clear bi : length (bit_clear d bi) = Z.to_nat BSIZE.
Proof using Hd. unfold bit_clear. by rewrite length_alter. Qed.
End bits.

(** Block [b] is marked in the free map. *)
Definition inuse (x : superblock) (v : Z → block) (b : Z) : bool := bit_get (v (sb_bmapstart x)) b.

(** The contents after allocating or freeing a block. *)
Definition alloc_view (x : superblock) (v : Z → block) (a : Z) : Z → block :=
  <[a := zero_block]> (<[sb_bmapstart x := bit_set (v (sb_bmapstart x)) a]> v).
Definition free_view (x : superblock) (v : Z → block) (a : Z) : Z → block :=
  <[sb_bmapstart x := bit_clear (v (sb_bmapstart x)) a]> v.

(** Blocks before the data area are never free. *)
Definition meta_used (x : superblock) (v : Z → block) : Prop :=
  ∀ b, 0 ≤ b ≤ sb_bmapstart x → inuse x v b = true.

Lemma length_zero_block : length zero_block = Z.to_nat BSIZE.
Proof. apply length_replicate. Qed.

(** ** The state of the file system *)
Section blocks.
Context {S M : Type} `{!BlockStore S, !StoreSpec S}.
Abbreviation F := (fst S M).
Implicit Types (v : Z → block) (H : gmap Z nat) (D L : gset Z) (t : list inode) (m : M) (s : F).
Context (x : superblock) (pid : Z).

Record at_ v H D L t m s : Prop := At {
  at_tx : tx x pid (store s) v H D L;
  at_sb : sb s = x;
  at_table : itable s = t;
  at_mem : umem s = m;
}.

Lemma wp_on_store {A} (c : K S A) (Q : A → F → Prop) s :
  wp c (λ a (s1 : S), Q a (Fst s1 (sb s) (itable s) (umem s))) (store s) → wp (on_store c) Q s.
Proof using Type. intros Hc. apply wp_lift. exact Hc. Qed.

Lemma at_read v H L t m s b (Q : nat → F → Prop) :
  at_ v H ∅ L t m s → home x b → H !! b = None → (size H ≤ 2)%nat →
  (∀ i s', at_ v (<[b := i]> H) ∅ L t m s' → Q i s') → wp (on_store (bread ROOTDEV b)) Q s.
Proof using Type.
  intros [] Hb Hn Hs HQ. apply wp_on_store. eapply wp_mono; [by eapply tx_read|].
  intros i s1 Ht. replace (∅ ∖ {[b]}) with (∅ : gset Z) in Ht by set_solver. by apply HQ.
Qed.
Lemma at_data v H D L t m s b i (Q : block → F → Prop) :
  at_ v H D L t m s → H !! b = Some i → Q (v b) s → wp (on_store (bp_data i)) Q s.
Proof using Type.
  intros [] Hi HQ. apply wp_on_store. eapply wp_mono; [by eapply tx_data|]. intros d s1 [-> ->].
  by destruct s.
Qed.
Lemma at_set v H D L t m s b i d (Q : unit → F → Prop) :
  at_ v H D L t m s → H !! b = Some i → length d = Z.to_nat BSIZE → D ⊆ {[b]} →
  (∀ s', at_ (<[b := d]> v) H {[b]} L t m s' → Q tt s') → wp (on_store (bp_set i d)) Q s.
Proof using Type.
  intros [] Hi Hd HD HQ. apply wp_on_store. eapply wp_mono; [by eapply tx_set|]. intros [] s1 Ht.
  replace ({[b]} ∪ D) with ({[b]} : gset Z) in Ht by set_solver. by apply HQ.
Qed.
Lemma at_write v H D L t m s b i (Q : unit → F → Prop) :
  at_ v H D L t m s → H !! b = Some i → D ⊆ {[b]} → b ∈ L ∨ (size L < logcap)%nat →
  (∀ s', at_ v H ∅ ({[b]} ∪ L) t m s' → Q tt s') → wp (on_store (log_write i)) Q s.
Proof using Type.
  intros [] Hi HD Hr HQ. apply wp_on_store. eapply wp_mono; [by eapply tx_write|]. intros [] s1 Ht.
  replace (D ∖ {[b]}) with (∅ : gset Z) in Ht by set_solver. by apply HQ.
Qed.
Lemma at_relse v H L t m s b i (Q : unit → F → Prop) :
  at_ v H ∅ L t m s → H !! b = Some i →
  (∀ s', at_ v (delete b H) ∅ L t m s' → Q tt s') → wp (on_store (brelse i)) Q s.
Proof using Type.
  intros [] Hi HQ. apply wp_on_store. eapply wp_mono; [eapply tx_relse; [done..|set_solver]|].
  intros [] s1 Ht. by apply HQ.
Qed.
Lemma at_len v H D L t m s b : at_ v H D L t m s → home x b → length (v b) = Z.to_nat BSIZE.
Proof using Type. intros [] Hb. by eapply tx_len. Qed.

Lemma size_add1 (L : gset Z) b n : (size L + 1 ≤ n)%nat → (size ({[b]} ∪ L) ≤ n)%nat.
Proof using Type.
  intros Hn. pose proof (size_union_alt {[b]} L) as E. rewrite size_singleton in E.
  pose proof (subseteq_size (L ∖ {[b]}) L ltac:(set_solver)). lia.
Qed.

Lemma bzero_spec v H L t m s b (Q : unit → F → Prop) :
  at_ v H ∅ L t m s → home x b → H !! b = None → (size H ≤ 2)%nat → b ∈ L ∨ (size L < logcap)%nat →
  (∀ s', at_ (<[b := zero_block]> v) H ∅ ({[b]} ∪ L) t m s' → Q tt s') →
  wp (bzero ROOTDEV b) Q s.
Proof using Type.
  intros Hat Hb Hn Hs HL HQ. unfold bzero. apply wp_bind. eapply at_read; [done..|]. intros i s1 H1.
  apply wp_bind. eapply at_set; [done|apply lookup_insert_eq|apply length_zero_block|set_solver|]. intros s2 H2.
  apply wp_bind. eapply at_write; [done|apply lookup_insert_eq|set_solver|done|]. intros s3 H3.
  eapply at_relse; [done|apply lookup_insert_eq|]. intros s4 H4. rewrite delete_insert_id in H4 by done. by apply HQ.
Qed.

(** ** Allocation *)
Lemma scan_count : geo x → (sb_size x + BPB - 1) / BPB = 1.
Proof using Type.
  intros Hg. destruct (Hg). pose proof (data_range x (sb_bmapstart x + 1) Hg).
  pose proof (bmap_home x Hg) as [? _]. unfold data in *. change BPB with 8192 in *.
  symmetry. apply Z.div_unique with (sb_size x - 1); lia.
Qed.

Definition balloc_post v H L t m (r : Z) s' : Prop :=
  (r = 0 ∧ (∀ b, 0 ≤ b < sb_size x → inuse x v b = true) ∧ at_ v H ∅ L t m s') ∨
  (data x r ∧ inuse x v r = false ∧ at_ (alloc_view x v r) H ∅ ({[sb_bmapstart x; r]} ∪ L) t m s').

Lemma balloc_spec v H L t m s :
  at_ v H ∅ L t m s → geo x → meta_used x v → (size H ≤ 1)%nat →
  (∀ b, is_Some (H !! b) → b ≠ sb_bmapstart x ∧ inuse x v b = true) → (size L + 2 ≤ logcap)%nat →
  wp (balloc ROOTDEV) (balloc_post v H L t m) s.
Proof using Type.
  intros Hat Hg Hm HH Hheld HL. unfold balloc. apply wp_bind, wp_gets. rewrite (at_sb _ _ _ _ _ _ _ Hat).
  rewrite scan_count by done. pose proof (bmap_home x Hg) as Hbh.
  assert (0 < sb_size x) as Hpos by (destruct Hg, Hbh; lia). set (bb := sb_bmapstart x) in *.
  assert (H !! bb = None) as Hbb.
  { destruct (H !! bb) eqn:E; [|done]. destruct (Hheld bb); [by eexists|done]. }
  assert (sb_size x ≤ BPB) as Hsz by apply Hg.
  apply wp_bind. apply (wp_for_loop (λ k s1, at_ v H ∅ L t m s1 ∧
    (k = 0 ∨ ∀ b, 0 ≤ b < sb_size x → inuse x v b = true))); [by split; [|left]| |].
  2: { intros s1 [H1 [?|Hall]]; [lia|]. apply wp_ret. left. done. }
  intros k s1 Hk [H1 _]. assert (k = 0) as -> by lia. rewrite Z.mul_0_l. rewrite BBLOCK_one by (done || lia).
  fold bb. apply wp_bind. eapply at_read; [exact H1|done|done|lia|]. intros i s2 H2.
  apply wp_bind. eapply at_data; [exact H2|apply lookup_insert_eq|].
  assert (length (v bb) = Z.to_nat BSIZE) as Hlen by by eapply at_len.
  apply wp_bind. rewrite Z.sub_0_r, Z.min_r by done.
  apply (wp_for_loop (λ bi s3, at_ v (<[bb := i]> H) ∅ L t m s3 ∧
    ∀ b, 0 ≤ b < bi → inuse x v b = true)); [split; [done|lia]| |].
  - intros bi s3 Hbi [H3 Hused]. destruct (bit_get (v bb) bi) eqn:Ebit; simpl.
    { apply wp_ret. split; [done|]. intros b Hb. destruct (decide (b = bi)) as [->|]; [done|apply Hused; lia]. }
    assert (data x bi) as Hdata.
    { split; [|lia]. destruct (Z.lt_ge_cases bb bi) as [|Hle]; [done|].
      pose proof (Hm bi ltac:(fold bb; lia)) as Hu. unfold inuse in Hu. fold bb in Hu. congruence. }
    apply wp_bind. eapply at_set; [exact H3|apply lookup_insert_eq|by apply length_bit_set|set_solver|]. intros s4 H4.
    apply wp_bind. eapply at_write; [exact H4|apply lookup_insert_eq|done|right; lia|]. intros s5 H5.
    apply wp_bind. eapply at_relse; [exact H5|apply lookup_insert_eq|]. rewrite delete_insert_id by done. intros s6 H6.
    apply wp_bind. eapply bzero_spec; [exact H6|by apply data_home| |lia| |].
    + destruct (H !! bi) eqn:E; [|done]. destruct (Hheld bi) as [_ Hu]; [by eexists|].
      unfold inuse in Hu. fold bb in Hu. congruence.
    + right. pose proof (size_add1 L bb (size L + 1) ltac:(lia)). lia.
    + intros s7 H7. apply wp_ret, wp_ret, wp_ret. right. split_and!; [done..|].
      replace ({[bb; 0 + bi]} ∪ L) with ({[bi]} ∪ ({[bb]} ∪ L)) by set_solver. done.
  - intros s3 [H3 Hused]. apply wp_bind. eapply at_relse; [exact H3|apply lookup_insert_eq|].
    rewrite delete_insert_id by done. intros s4 H4. apply wp_ret. split; [done|]. right.
    intros b Hb. apply Hused. lia.
Qed.

Lemma bfree_spec v H L t m s b :
  at_ v H ∅ L t m s → geo x → data x b → inuse x v b = true → H !! sb_bmapstart x = None → (size H ≤ 1)%nat →
  (size L < logcap)%nat →
  wp (bfree ROOTDEV b) (λ _ s', at_ (free_view x v b) H ∅ ({[sb_bmapstart x]} ∪ L) t m s') s.
Proof using Type.
  intros Hat Hg Hb Hu Hn Hs HL. unfold bfree. apply wp_bind, wp_gets. rewrite (at_sb _ _ _ _ _ _ _ Hat).
  pose proof (data_range x b Hg Hb) as [Hr _]. rewrite BBLOCK_one by (done || lia).
  pose proof (bmap_home x Hg) as Hbh.
  apply wp_bind. eapply at_read; [exact Hat|done|done|lia|]. intros i s2 H2.
  apply wp_bind. eapply at_data; [exact H2|apply lookup_insert_eq|].
  rewrite Z.mod_small by (destruct Hg; lia). apply wp_bind, wp_panic_if; [unfold inuse in Hu; by rewrite Hu|].
  assert (length (v (sb_bmapstart x)) = Z.to_nat BSIZE) as Hlen by by eapply at_len.
  apply wp_bind. eapply at_set; [exact H2|apply lookup_insert_eq|by apply length_bit_clear|set_solver|]. intros s4 H4.
  apply wp_bind. eapply at_write; [exact H4|apply lookup_insert_eq|done|by right|]. intros s5 H5.
  eapply at_relse; [exact H5|apply lookup_insert_eq|]. rewrite delete_insert_id by done. intros s6 H6. exact H6.
Qed.

(** The free map after both. *)
Lemma inuse_alloc v a b : geo x → length (v (sb_bmapstart x)) = Z.to_nat BSIZE → data x a → 0 ≤ b →
  inuse x (alloc_view x v a) b = bool_decide (a = b) || inuse x v b.
Proof using Type.
  intros Hg Hl Ha Hb. pose proof (data_range x a Hg Ha). destruct (Hg), (Ha). unfold inuse, alloc_view.
  rewrite fn_lookup_insert_ne, fn_lookup_insert by lia. apply bit_set_get; [done|lia|done].
Qed.
Lemma inuse_free v a b : geo x → length (v (sb_bmapstart x)) = Z.to_nat BSIZE → data x a → 0 ≤ b →
  inuse x (free_view x v a) b = negb (bool_decide (a = b)) && inuse x v b.
Proof using Type.
  intros Hg Hl Ha Hb. pose proof (data_range x a Hg Ha). destruct (Hg), (Ha). unfold inuse, free_view.
  rewrite fn_lookup_insert. apply bit_clear_get; [done|lia|done].
Qed.
End blocks.
