(* ===== verification/FsInode.v ===== *)
(** * Inodes: the block map and the contents of files ([kernel/fs.c])

    The contents of a file is a sequence of blocks, absent ones being zero.
    [bmap] may allocate a block but never changes the contents; [readi]
    returns a part of it and [writei] changes it. *)

From S2P Require Import Prelude Word Param Bio Str Fs FsSpec FsBlock.

(** ** The map from positions to blocks *)
Definition direct (i : inode) (k : Z) : Z := i_addrs i !!! Z.to_nat k.
Definition ind (i : inode) : Z := direct i NDIRECT.
Definition ind_off (k : Z) : nat := Z.to_nat (4 * (k - NDIRECT)).
Definition slot (v : Z → block) (i : inode) (k : Z) : Z :=
  if k <? NDIRECT then direct i k
  else if ind i =? 0 then 0 else get32 (v (ind i)) (ind_off k).

(** The block at a position. *)
Definition fblock (v : Z → block) (i : inode) (k : Z) : block :=
  if slot v i k =? 0 then zero_block else v (slot v i k).

Section inode.
Context (x : superblock) (Hgeo : geo x).
Implicit Types (v : Z → block) (i : inode) (k a b : Z).
Abbreviation bb := (sb_bmapstart x).

(** All blocks of the file are allocated, and to one position only. *)
Record FInv v i : Prop := {
  fi_len : length (i_addrs i) = 13%nat;
  fi_bits : length (v bb) = Z.to_nat BSIZE;
  fi_meta : meta_used x v;
  fi_ind : ind i ≠ 0 → data x (ind i) ∧ inuse x v (ind i) = true ∧ length (v (ind i)) = Z.to_nat BSIZE;
  fi_slot : ∀ k, 0 ≤ k < MAXFILE → slot v i k ≠ 0 →
    data x (slot v i k) ∧ inuse x v (slot v i k) = true ∧ slot v i k ≠ ind i;
  fi_inj : ∀ k k', 0 ≤ k < MAXFILE → 0 ≤ k' < MAXFILE → slot v i k ≠ 0 →
    slot v i k = slot v i k' → k = k';
}.

(** [v'], [i'] have more blocks than [v], [i] and the same contents; other
    blocks in use are as they were. *)
Record grown v i v' i' : Prop := {
  gr_inv : FInv v' i';
  gr_fields : i' = set_disk_part (i_type i) (i_major i) (i_minor i) (i_nlink i) (i_size i) (i_addrs i') i;
  gr_block : ∀ k, 0 ≤ k < MAXFILE → fblock v' i' k = fblock v i k;
  gr_slot : ∀ k, 0 ≤ k < MAXFILE → slot v i k ≠ 0 → slot v' i' k = slot v i k;
  gr_ind : ind i ≠ 0 → ind i' = ind i;
  gr_new : ind i = 0 → ind i' ≠ 0 → inuse x v (ind i') = false;
  gr_fresh : ∀ k, 0 ≤ k < MAXFILE → slot v i k = 0 → slot v' i' k ≠ 0 → inuse x v (slot v' i' k) = false;
  gr_frame : ∀ b, 0 ≤ b → inuse x v b = true → b ≠ bb → b ≠ ind i ∨ ind i = 0 → v' b = v b;
  gr_used : ∀ b, 0 ≤ b → inuse x v b = true → inuse x v' b = true;
}.

Lemma set_disk_part_id i : set_disk_part (i_type i) (i_major i) (i_minor i) (i_nlink i) (i_size i) (i_addrs i) i = i.
Proof using Type. by destruct i. Qed.

Lemma grown_refl v i : FInv v i → grown v i v i.
Proof using Type. intros HI. split; try done. symmetry. apply set_disk_part_id. Qed.

Lemma grown_trans v i v1 i1 v2 i2 : grown v i v1 i1 → grown v1 i1 v2 i2 → grown v i v2 i2.
Proof using Hgeo.
  intros [] []. split; try done.
  - rewrite gr_fields1, gr_fields0. done.
  - intros k Hk. by rewrite gr_block1, gr_block0.
  - intros k Hk Hs. rewrite gr_slot1; [by apply gr_slot0|done|]. by rewrite gr_slot0.
  - intros Hi. rewrite gr_ind1; [by apply gr_ind0|]. by rewrite gr_ind0.
  - intros Hi Hn. destruct (decide (ind i1 = 0)) as [E|E].
    + pose proof (gr_new1 E Hn) as Hf. destruct (inuse x v (ind i2)) eqn:Eu; [|done].
      assert (0 ≤ ind i2) as Hp.
      { destruct (fi_ind _ _ gr_inv1 Hn) as [Hd _]. pose proof (data_range x _ Hgeo Hd). lia. }
      rewrite (gr_used0 _ Hp Eu) in Hf. done.
    + rewrite gr_ind1 by done. by apply gr_new0.
  - intros k Hk Hs Hn. destruct (decide (slot v1 i1 k = 0)) as [E|E].
    + pose proof (gr_fresh1 k Hk E Hn) as Hf. destruct (inuse x v (slot v2 i2 k)) eqn:Eu; [|done].
      destruct (fi_slot _ _ gr_inv1 k Hk Hn) as [Hd _]. pose proof (data_range x _ Hgeo Hd).
      rewrite (gr_used0 (slot v2 i2 k) ltac:(lia) Eu) in Hf. done.
    + rewrite gr_slot1 by done. by apply gr_fresh0.
  - intros b Hb Hu Hbb Hbi. rewrite gr_frame1; [by apply gr_frame0|done|by apply gr_used0|done|].
    destruct (decide (ind i = 0)) as [E|E].
    + destruct (decide (ind i1 = 0)) as [E1|E1]; [by right|left]. intros ->. rewrite (gr_new0 E E1) in Hu. done.
    + left. rewrite gr_ind0 by done. by destruct Hbi.
  - intros b Hb Hu. by apply gr_used1, gr_used0.
Qed.

Lemma getn_zero n off : (off + n ≤ Z.to_nat BSIZE)%nat → getn n zero_block off = 0.
Proof using Type.
  intros H. Local Transparent getn. unfold getn, slice, zero_block. Local Opaque getn.
  rewrite drop_replicate, take_replicate. generalize (Nat.min n (Z.to_nat BSIZE - off)). intros k.
  induction k as [|k IH]; [done|]. simpl. lia.
Qed.

Lemma ind_off_bound k : NDIRECT ≤ k < MAXFILE → (ind_off k + 4 ≤ Z.to_nat BSIZE)%nat.
Proof using Type. intros. unfold ind_off. change NDIRECT with 12 in *. change MAXFILE with 268 in *. change BSIZE with 1024. lia. Qed.

Lemma direct_set i k k' a : (length (i_addrs i) = 13)%nat → 0 ≤ k ≤ NDIRECT → 0 ≤ k' →
  direct (set_addr (Z.to_nat k) a i) k' = if decide (k = k') then a else direct i k'.
Proof using Type.
  intros Hl Hk Hk'. unfold direct, set_addr. simpl. rewrite !list_lookup_total_alt.
  change NDIRECT with 12 in Hk. case_decide as E.
  - subst. rewrite list_lookup_insert_eq by lia. done.
  - rewrite list_lookup_insert_ne by lia. done.
Qed.

Lemma data_ne_bb b : data x b → b ≠ bb.
Proof using Type. clear Hgeo. intros []. lia. Qed.

(** *** A fresh block *)
Section fresh.
Context (v : Z → block) (i : inode) (a : Z).
Hypothesis HI : FInv v i.
Hypothesis Ha : data x a.
Hypothesis Hfree : inuse x v a = false.

Lemma fresh_ne_ind : a ≠ ind i.
Proof using HI Ha Hfree Hgeo.
  intros E. pose proof (data_range x a Hgeo Ha). destruct (fi_ind _ _ HI) as (_ & Hu & _); [lia|]. congruence.
Qed.
Lemma fresh_ne_slot k : 0 ≤ k < MAXFILE → a ≠ slot v i k.
Proof using HI Ha Hfree Hgeo.
  intros Hk E. pose proof (data_range x a Hgeo Ha). destruct (fi_slot _ _ HI k Hk) as (_ & Hu & _); [lia|]. congruence.
Qed.
Lemma fresh_ne_bb : a ≠ bb.
Proof using Ha. destruct Ha. lia. Qed.

Lemma alloc_other b : b ≠ a → b ≠ bb → alloc_view x v a b = v b.
Proof using Type. intros. unfold alloc_view. by rewrite !fn_lookup_insert_ne. Qed.
Lemma alloc_self : alloc_view x v a a = zero_block.
Proof using Type. unfold alloc_view. by rewrite fn_lookup_insert. Qed.
Lemma alloc_bits : length (alloc_view x v a bb) = Z.to_nat BSIZE.
Proof using HI Ha.
  unfold alloc_view. rewrite fn_lookup_insert_ne, fn_lookup_insert by (by apply fresh_ne_bb).
  apply length_bit_set, HI.
Qed.
Lemma alloc_used b : 0 ≤ b → inuse x (alloc_view x v a) b = bool_decide (a = b) || inuse x v b.
Proof using HI Ha Hgeo. intros. apply inuse_alloc; [done|apply HI|done|done]. Qed.
Lemma alloc_meta : meta_used x (alloc_view x v a).
Proof using HI Ha Hgeo. intros b Hb. rewrite alloc_used by lia. rewrite (fi_meta _ _ HI b Hb). by rewrite orb_true_r. Qed.

(** One position gets the block. *)
Lemma grown_slot (v1 : Z → block) (i1 : inode) k :
  0 ≤ k < MAXFILE → slot v i k = 0 →
  (∀ k', 0 ≤ k' < MAXFILE → slot v1 i1 k' = if decide (k' = k) then a else slot v i k') →
  ind i1 = ind i → length (i_addrs i1) = 13%nat →
  i1 = set_disk_part (i_type i) (i_major i) (i_minor i) (i_nlink i) (i_size i) (i_addrs i1) i →
  (∀ b, b ≠ ind i ∨ ind i = 0 → v1 b = alloc_view x v a b) →
  (ind i ≠ 0 → length (v1 (ind i)) = Z.to_nat BSIZE) →
  grown v i v1 i1.
Proof using HI Ha Hfree Hgeo.
  intros Hk H0 Hslot Hind Hlen Hf Hv Hvl. pose proof (data_range x a Hgeo Ha) as Har.
  pose proof fresh_ne_ind as Hai. pose proof fresh_ne_bb as Hab.
  assert (bb ≠ ind i ∨ ind i = 0) as Hbi.
  { destruct (decide (ind i = 0)); [by right|left]. destruct (fi_ind _ _ HI n) as (Hd & _).
    intros E. by apply (data_ne_bb (ind i)). }
  assert (v1 bb = alloc_view x v a bb) as Hbb by by apply Hv.
  assert (∀ b, 0 ≤ b → inuse x v1 b = bool_decide (a = b) || inuse x v b) as Hu.
  { intros b Hb. rewrite <-alloc_used by done. unfold inuse. by rewrite Hbb. }
  assert (∀ k', 0 ≤ k' < MAXFILE → slot v i k' ≠ 0 → v1 (slot v i k') = v (slot v i k')) as Hdata.
  { intros k' Hk' Hn. destruct (fi_slot _ _ HI k' Hk' Hn) as (Hd & _ & Hni). rewrite Hv by by left.
    apply alloc_other; [|by apply data_ne_bb]. intros E. apply (fresh_ne_slot k' Hk'). congruence. }
  split; [split| | | | | | | |]; try done.
  - rewrite Hbb. apply alloc_bits.
  - intros b Hb. rewrite Hu by lia. rewrite (fi_meta _ _ HI b Hb). by rewrite orb_true_r.
  - rewrite Hind. intros Hn. destruct (fi_ind _ _ HI Hn) as (Hd & Hui & _).
    split_and!; [done| |auto]. pose proof (data_range x _ Hgeo Hd). rewrite Hu by lia. rewrite Hui. by rewrite orb_true_r.
  - intros k' Hk'. rewrite (Hslot k' Hk'), Hind. case_decide.
    + intros _. split_and!; [done| |done]. rewrite Hu by lia. by rewrite bool_decide_true.
    + intros Hn. destruct (fi_slot _ _ HI k' Hk' Hn) as (Hd & Hui & Hni). split_and!; [done| |done].
      pose proof (data_range x _ Hgeo Hd). rewrite Hu by lia. rewrite Hui. by rewrite orb_true_r.
  - intros k1 k2 H1 H2. rewrite (Hslot k1 H1), (Hslot k2 H2). repeat case_decide; subst; try done.
    + intros _ E. by destruct (fresh_ne_slot k2 H2).
    + intros _ E. by destruct (fresh_ne_slot k1 H1).
    + by apply (fi_inj _ _ HI).
  - intros k' Hk'. unfold fblock. rewrite (Hslot k' Hk'). case_decide as E.
    + subst k'. rewrite H0, (proj2 (Z.eqb_neq a 0)) by lia. simpl. rewrite Hv by by left. apply alloc_self.
    + destruct (Z.eqb_spec (slot v i k') 0); [done|by apply Hdata].
  - intros k' Hk' Hn. rewrite (Hslot k' Hk'). case_decide; [congruence|done].
  - congruence.
  - intros k' Hk' H0' Hn'. rewrite (Hslot k' Hk') in *. by case_decide.
  - intros b Hb Hub Hnb Hni. rewrite Hv by done. apply alloc_other; [|done]. congruence.
  - intros b Hb Hub. rewrite Hu by done. rewrite Hub. by rewrite orb_true_r.
Qed.

Lemma grown_direct k : 0 ≤ k < NDIRECT → direct i k = 0 →
  grown v i (alloc_view x v a) (set_addr (Z.to_nat k) a i).
Proof using HI Ha Hfree Hgeo.
  intros Hk H0. pose proof (fi_len _ _ HI) as Hl. pose proof fresh_ne_ind as Hai.
  assert (0 ≤ k < MAXFILE) as HkM by (change MAXFILE with 268; change NDIRECT with 12 in *; lia).
  assert (ind (set_addr (Z.to_nat k) a i) = ind i) as Hi1.
  { unfold ind. rewrite direct_set by (done || clia). rewrite decide_False by lia. done. }
  assert (ind i ≠ 0 → alloc_view x v a (ind i) = v (ind i)) as Hvi.
  { intros Hn. apply alloc_other; [done|]. destruct (fi_ind _ _ HI Hn) as (Hd & _). by apply data_ne_bb. }
  apply (grown_slot _ _ k); try done.
  - unfold slot. by rewrite (proj2 (Z.ltb_lt k NDIRECT)) by lia.
  - intros k' Hk'. unfold slot. destruct (Z.ltb_spec k' NDIRECT).
    + rewrite direct_set by (done || lia). repeat case_decide; congruence || done.
    + rewrite decide_False by lia. rewrite Hi1. destruct (Z.eqb_spec (ind i) 0); [done|]. by rewrite Hvi.
  - unfold set_addr. simpl. by rewrite length_insert.
  - intros Hn. rewrite Hvi by done. by apply (fi_ind _ _ HI).
Qed.

(** The indirect block. *)
Lemma grown_ind : ind i = 0 → grown v i (alloc_view x v a) (set_addr (Z.to_nat NDIRECT) a i).
Proof using HI Ha Hfree Hgeo.
  intros H0. pose proof (fi_len _ _ HI) as Hl. pose proof (data_range x a Hgeo Ha) as Har.
  set (i1 := set_addr (Z.to_nat NDIRECT) a i).
  assert (ind i1 = a) as Hi1. { unfold ind, i1. rewrite direct_set by (done || clia). by rewrite decide_True. }
  assert (∀ k, 0 ≤ k < MAXFILE → slot (alloc_view x v a) i1 k = slot v i k) as Hslot.
  { intros k Hk. unfold slot. rewrite H0, Hi1. destruct (Z.ltb_spec k NDIRECT).
    - unfold i1. rewrite direct_set by (done || clia). by rewrite decide_False by lia.
    - rewrite (proj2 (Z.eqb_neq a 0)) by lia. simpl. rewrite alloc_self. apply getn_zero. apply ind_off_bound; lia. }
  split; [split| | | | | | | |]; try done.
  - unfold i1, set_addr. simpl. by rewrite length_insert.
  - apply alloc_bits.
  - apply alloc_meta.
  - intros _. rewrite Hi1. split_and!; [done| |rewrite alloc_self; apply length_zero_block].
    rewrite alloc_used by lia. by rewrite bool_decide_true.
  - intros k Hk. rewrite (Hslot k Hk), Hi1. intros Hn. destruct (fi_slot _ _ HI k Hk Hn) as (Hd & Hu & _).
    split_and!; [done| |]; [|intros E; apply (fresh_ne_slot k Hk); congruence].
    pose proof (data_range x _ Hgeo Hd). rewrite alloc_used by lia. rewrite Hu. by rewrite orb_true_r.
  - intros k1 k2 H1 H2. rewrite (Hslot k1 H1), (Hslot k2 H2). by apply (fi_inj _ _ HI).
  - intros k Hk. unfold fblock. rewrite (Hslot k Hk). destruct (Z.eqb_spec (slot v i k) 0) as [|Hn]; [done|].
    destruct (fi_slot _ _ HI k Hk Hn) as (Hd & _). apply alloc_other; [|by apply data_ne_bb].
    intros E. apply (fresh_ne_slot k Hk); congruence.
  - intros k Hk _. by apply Hslot.
  - intros _ _. by rewrite Hi1.
  - intros k Hk E0 Hn. by rewrite (Hslot k Hk) in Hn.
  - intros b Hb Hub Hnb _. apply alloc_other; [congruence|done].
  - intros b Hb Hub. rewrite alloc_used by done. rewrite Hub. by rewrite orb_true_r.
Qed.

(** An entry of the indirect block. *)
Lemma grown_entry k : NDIRECT ≤ k < MAXFILE → ind i ≠ 0 → slot v i k = 0 →
  grown v i (<[ind i := put32 (v (ind i)) (ind_off k) a]> (alloc_view x v a)) i.
Proof using HI Ha Hfree Hgeo.
  intros Hk Hn H0. destruct (fi_ind _ _ HI Hn) as (Hd & Hui & Hil). pose proof (data_range x a Hgeo Ha) as Har.
  pose proof (ind_off_bound k Hk) as Hok. pose proof fresh_ne_ind as Hai.
  assert (0 ≤ k) by (change NDIRECT with 12 in *; lia).
  apply (grown_slot _ _ k); try done; [lia| |apply HI|symmetry; apply set_disk_part_id| |].
  - intros k' Hk'. unfold slot. destruct (Z.ltb_spec k' NDIRECT); [by rewrite decide_False by lia|].
    rewrite (proj2 (Z.eqb_neq (ind i) 0)) by done. rewrite fn_lookup_insert. case_decide as E.
    + subst k'. rewrite getn_putn_same by lia. apply Z.mod_small. change (256 ^ Z.of_nat 4) with (2 ^ 32). lia.
    + rewrite getn_putn_ne; [done|lia|]. unfold ind_off. lia.
  - intros b [Hb|Hb]; [|done]. by rewrite fn_lookup_insert_ne.
  - intros _. rewrite fn_lookup_insert. rewrite length_putn; lia.
Qed.
End fresh.
End inode.

(** ** [bmap] *)
(** No block is free. *)
Definition full (x : superblock) (v : Z → block) : Prop := ∀ b, 0 ≤ b < sb_size x → inuse x v b = true.

Definition nz (b : Z) : gset Z := if decide (b = 0) then ∅ else {[b]}.

Section bmap.
Context {S M : Type} `{!BlockStore S, !StoreSpec S}.
Abbreviation F := (fst S M).
Implicit Types (v : Z → block) (H : gmap Z nat) (D L : gset Z) (t : list inode) (m : M) (s : F).
Context (x : superblock) (pid : Z) (Hgeo : geo x).
Abbreviation at_ := (at_ x pid).
Abbreviation bb := (sb_bmapstart x).

Lemma wp_ig {A} v H D L t m s ip i (f : inode → A) (Q : A → F → Prop) :
  at_ v H D L t m s → t !! ip = Some i → Q (f i) s → wp (ig ip f) Q s.
Proof using Type. intros [] Hi HQ. unfold ig. wp_steps. by rewrite at_table, Hi. Qed.
Lemma wp_iset v H D L t m s ip i (f : inode → inode) (Q : unit → F → Prop) :
  at_ v H D L t m s → t !! ip = Some i →
  (∀ s', at_ v H D L (<[ip := f i]> t) m s' → Q tt s') → wp (iset ip f) Q s.
Proof using Type.
  intros Hat Hi HQ. unfold iset. apply wp_bind. eapply wp_ig; [done..|]. apply wp_modify. apply HQ.
  destruct Hat. split; try done. simpl. rewrite at_table. apply list_eq. intros j.
  destruct (decide (j = ip)) as [->|].
  - rewrite list_lookup_alter_eq, Hi, list_lookup_insert_eq; [done|]. by eapply lookup_lt_Some.
  - by rewrite list_lookup_alter_ne, list_lookup_insert_ne.
Qed.
Lemma wp_addr_get v H D L t m s ip i k (Q : Z → F → Prop) :
  at_ v H D L t m s → t !! ip = Some i → length (i_addrs i) = 13%nat → 0 ≤ k ≤ NDIRECT →
  Q (direct i k) s → wp (addr_get ip k) Q s.
Proof using Type.
  intros Hat Hi Hl Hk HQ. unfold addr_get. apply wp_bind. eapply wp_ig; [done..|].
  destruct (lookup_lt_is_Some_2 (i_addrs i) (Z.to_nat k)) as [a Ha]; [change NDIRECT with 12 in Hk; lia|].
  rewrite Ha. apply wp_ret. unfold direct in HQ. by rewrite (list_lookup_total_correct _ _ _ Ha) in HQ.
Qed.

(** [balloc] for the inode, with the indirect block held or not. *)
Lemma balloc_for v i H L t m s (Q : Z → F → Prop) :
  at_ v H ∅ L t m s → FInv x v i → (H = ∅ ∨ ∃ j, H = {[ind i := j]} ∧ ind i ≠ 0) → (size L + 2 ≤ logcap)%nat →
  (∀ s', full x v → at_ v H ∅ L t m s' → Q 0 s') →
  (∀ a s', data x a → a ≠ 0 → inuse x v a = false → at_ (alloc_view x v a) H ∅ ({[bb; a]} ∪ L) t m s' → Q a s') →
  wp (balloc ROOTDEV) Q s.
Proof using Hgeo.
  intros Hat HI HH HL Hfail Hok. eapply wp_mono.
  - eapply balloc_spec; try done; [apply HI| |].
    + destruct HH as [->|(j & -> & _)]; [rewrite map_size_empty; lia|by rewrite map_size_singleton].
    + intros b Hb. destruct HH as [->|(j & -> & Hn)]; [by destruct Hb|].
      destruct Hb as [? [<- _]%lookup_singleton_Some]. destruct (fi_ind _ _ _ HI Hn) as (Hd & Hu & _).
      split; [by apply data_ne_bb|done].
  - intros r s' [(-> & Hf & H')|(Hd & Hu & H')]; [by apply Hfail|].
    apply Hok; [done| |done|done]. pose proof (data_range x r Hgeo Hd). lia.
Qed.

Record bmap_post v i (bn : Z) L t m ip (r : Z) (s' : F) : Prop := BmapPost {
  bp_post : ∃ v' i' L', at_ v' ∅ ∅ L' (<[ip := i']> t) m s' ∧ grown x v i v' i' ∧
    L' ⊆ L ∪ {[bb]} ∪ nz (ind i') ∪ nz r ∧
    (r = 0 ∧ slot v i bn = 0 ∧ full x v' ∨ r ≠ 0 ∧ slot v' i' bn = r);
}.

(** The branch of the direct blocks. *)
Lemma bmap_direct v i L t m s ip bn :
  at_ v ∅ ∅ L t m s → FInv x v i → t !! ip = Some i → i_dev i = ROOTDEV →
  0 ≤ bn < NDIRECT → (size L + 2 ≤ logcap)%nat →
  wp (bmap ip bn) (bmap_post v i bn L t m ip) s.
Proof using Hgeo.
  intros Hat HI Hi Hdev Hbn HL. unfold bmap. apply wp_bind. eapply wp_ig; [done..|]. rewrite Hdev.
  assert (slot v i bn = direct i bn) as Hslot by (unfold slot; by rewrite (proj2 (Z.ltb_lt _ _)) by lia).
  rewrite (proj2 (Z.ltb_lt bn NDIRECT)) by lia.
  assert (<[ip := i]> t = t) as Et by by apply list_insert_id.
  apply wp_bind. eapply wp_addr_get; [done|done|apply HI|lia|]. destruct (Z.eqb_spec (direct i bn) 0) as [E|E].
  - apply wp_bind. eapply (balloc_for v i); [done..|by left|done| |].
    + intros s1 Hf H1. apply wp_ret. split. exists v, i, L. rewrite Et.
      split_and!; [done|by apply grown_refl|set_solver|left; split; [done|split; [congruence|done]]].
    + intros a s1 Ha Ha0 Hu H1. rewrite (proj2 (Z.eqb_neq a 0)) by done. apply wp_bind. unfold addr_set.
      eapply wp_iset; [done..|]. intros s2 H2. apply wp_ret. split. eexists _, _, _.
      split; [exact H2|]. split; [by apply grown_direct|]. split.
      * unfold nz at 2. rewrite decide_False by done. set_solver.
      * right. split; [done|]. unfold slot. rewrite (proj2 (Z.ltb_lt _ _)) by lia.
        rewrite direct_set by (apply HI || lia). by rewrite decide_True.
  - apply wp_ret. split. exists v, i, L. rewrite Et.
    split_and!; [done|by apply grown_refl|set_solver|right; split; [done|congruence]].
Qed.

(** The indirect block is there; the entry may have to be allocated. *)
Lemma bmap_entry v i L t m s ip bn (dev addr : Z) :
  at_ v ∅ ∅ L t m s → FInv x v i → t !! ip = Some i → dev = ROOTDEV → addr = ind i → ind i ≠ 0 →
  NDIRECT ≤ bn < MAXFILE → (size L + 3 ≤ logcap)%nat →
  wp (bp ← on_store (bread dev addr);
      d ← on_store (bp_data bp);
      let addr := get32 d (Z.to_nat (4 * (bn - NDIRECT))) in
      addr ← (if addr =? 0 then
                addr ← balloc dev;
                when (negb (addr =? 0)) (
                  d ← on_store (bp_data bp);
                  on_store (bp_set bp (put32 d (Z.to_nat (4 * (bn - NDIRECT))) addr));;
                  on_store (log_write bp));;
                mret addr
              else mret addr);
      on_store (brelse bp);;
      mret addr) (bmap_post v i bn L t m ip) s.
Proof using Hgeo.
  intros Hat HI Hi -> -> Hn Hbn HL. destruct (fi_ind _ _ _ HI Hn) as (Hd & Hu & Hlen).
  fold (ind_off bn). pose proof (ind_off_bound bn Hbn) as Hoff.
  assert (slot v i bn = get32 (v (ind i)) (ind_off bn)) as Hslot.
  { unfold slot. by rewrite (proj2 (Z.ltb_ge _ _)), (proj2 (Z.eqb_neq _ _)) by (done || lia). }
  assert (<[ip := i]> t = t) as Et by by apply list_insert_id.
  apply wp_bind. eapply at_read; [done|by apply data_home|done|rewrite map_size_empty; lia|]. intros j s1 H1.
  apply wp_bind. eapply at_data; [done|apply lookup_insert_eq|]. rewrite <-Hslot.
  assert (∀ (v' : Z → block) L' (r : Z) s, at_ v' {[ind i := j]} ∅ L' t m s → grown x v i v' i →
    L' ⊆ L ∪ {[bb]} ∪ nz (ind i) ∪ nz r → (r = 0 ∧ slot v i bn = 0 ∧ full x v' ∨ r ≠ 0 ∧ slot v' i bn = r) →
    wp (on_store (brelse j);; mret r) (bmap_post v i bn L t m ip) s) as Hdone.
  { intros v' L' r s2 H2 Hg HL' Hr. apply wp_bind. eapply at_relse; [done|apply lookup_singleton_eq|].
    intros s3 H3. apply wp_ret. split. exists v', i, L'. rewrite Et. rewrite delete_singleton_eq in H3. done. }
  apply wp_bind. destruct (Z.eqb_spec (slot v i bn) 0) as [E|E].
  - apply wp_bind. eapply (balloc_for v i); [done|done|right; by exists j|lia| |].
    + intros s2 Hf H2. rewrite (proj2 (Z.eqb_eq 0 0)) by done. apply wp_bind, wp_ret, wp_ret.
      eapply Hdone; [done|by apply grown_refl|set_solver|by left].
    + intros a s2 Ha Ha0 Hua H2. rewrite (proj2 (Z.eqb_neq a 0)) by done. simpl. apply wp_bind, wp_bind.
      assert (alloc_view x v a (ind i) = v (ind i)) as Hvi.
      { apply alloc_other; [|by apply data_ne_bb]. intros E'. rewrite <-E' in Hua. congruence. }
      eapply at_data; [done|apply lookup_insert_eq|]. rewrite Hvi. apply wp_bind.
      eapply at_set; [done|apply lookup_insert_eq|rewrite length_putn; lia|set_solver|]. intros s3 H3.
      eapply at_write; [done|apply lookup_insert_eq|done| |].
      { right. pose proof (size_add1 L a (size L + 1) ltac:(lia)).
        pose proof (size_add1 ({[a]} ∪ L) bb (size L + 2) ltac:(lia)).
        replace ({[bb; a]} ∪ L) with ({[bb]} ∪ ({[a]} ∪ L)) by set_solver. lia. }
      intros s4 H4. apply wp_ret. pose proof (grown_entry x Hgeo v i a HI Ha Hua bn Hbn Hn E) as Hg.
      eapply Hdone; [exact H4|exact Hg| |].
      * unfold nz. rewrite !decide_False by done. set_solver.
      * right. split; [done|]. unfold slot. rewrite (proj2 (Z.ltb_ge _ _)), (proj2 (Z.eqb_neq (ind i) 0)) by (done || lia).
        rewrite fn_lookup_insert, getn_putn_same by lia. pose proof (data_range x a Hgeo Ha).
        apply Z.mod_small. change (256 ^ Z.of_nat 4) with (2 ^ 32). lia.
  - apply wp_ret. eapply Hdone; [done|by apply grown_refl|set_solver|by right].
Qed.

Lemma bmap_spec v i L t m s ip bn :
  at_ v ∅ ∅ L t m s → FInv x v i → t !! ip = Some i → i_dev i = ROOTDEV →
  0 ≤ bn < MAXFILE → (size L + 5 ≤ logcap)%nat →
  wp (bmap ip bn) (bmap_post v i bn L t m ip) s.
Proof using Hgeo.
  intros Hat HI Hi Hdev Hbn HL. destruct (Z.lt_ge_cases bn NDIRECT) as [Hd|Hd].
  { apply bmap_direct; done || lia. }
  unfold bmap. apply wp_bind. eapply wp_ig; [done..|]. rewrite Hdev.
  rewrite (proj2 (Z.ltb_ge bn NDIRECT)) by lia.
  rewrite (proj2 (Z.ltb_lt (bn - NDIRECT) NINDIRECT)) by (unfold MAXFILE in *; lia).
  apply wp_bind. eapply wp_addr_get; [done|done|apply HI|clia|]. fold (ind i). apply wp_bind.
  assert (<[ip := i]> t = t) as Et by by apply list_insert_id.
  destruct (Z.eqb_spec (ind i) 0) as [E|E].
  - apply wp_bind. eapply (balloc_for v i); [done..|by left|lia| |].
    + intros s1 Hf H1. rewrite (proj2 (Z.eqb_eq 0 0)) by done. apply wp_bind, wp_ret, wp_ret.
      rewrite (proj2 (Z.eqb_eq 0 0)) by done. apply wp_ret. split. exists v, i, L. rewrite Et.
      split_and!; [done|by apply grown_refl|set_solver|left; split; [done|split; [|done]]].
      unfold slot. by rewrite (proj2 (Z.ltb_ge _ _)), E by lia.
    + intros a s1 Ha Ha0 Hu H1. rewrite (proj2 (Z.eqb_neq a 0)) by done. apply wp_bind. unfold addr_set.
      eapply wp_iset; [done..|]. intros s2 H2. apply wp_ret. rewrite (proj2 (Z.eqb_neq a 0)) by done.
      pose proof (grown_ind x Hgeo v i a HI Ha Hu E) as Hg. set (i1 := set_addr (Z.to_nat NDIRECT) a i) in *.
      assert (ind i1 = a) as Hi1.
      { unfold ind, i1. rewrite direct_set by (apply HI || clia). by rewrite decide_True. }
      eapply wp_mono.
      * eapply (bmap_entry _ i1); [exact H2|apply Hg| |done|done|by rewrite Hi1|lia|].
        { apply list_lookup_insert_eq. by eapply lookup_lt_Some. }
        pose proof (size_add1 L a (size L + 1) ltac:(lia)).
        pose proof (size_add1 ({[a]} ∪ L) bb (size L + 2) ltac:(lia)).
        replace ({[bb; a]} ∪ L) with ({[bb]} ∪ ({[a]} ∪ L)) by set_solver. lia.
      * intros r s3 [(v' & i' & L' & H3 & Hg' & HL' & Hr)]. split. exists v', i', L'.
        rewrite list_insert_insert_eq in H3. split_and!; [done|by eapply grown_trans| |].
        -- assert (ind i' = a) as Hi'. { rewrite (gr_ind _ _ _ _ _ Hg'); [done|]. by rewrite Hi1. }
           rewrite Hi' in *. unfold nz in *. rewrite (decide_False (P := a = 0)) in * by done. set_solver.
        -- destruct Hr as [(-> & Hs & Hf)|Hr]; [left|by right]. split_and!; [done| |done].
           unfold slot. by rewrite (proj2 (Z.ltb_ge _ _)), E by lia.
  - apply wp_ret. rewrite (proj2 (Z.eqb_neq (ind i) 0)) by done.
    eapply bmap_entry; try done; lia.
Qed.
End bmap.
