(* ===== verification/FsFile.v ===== *)
(** * Reading and writing files ([readi], [writei], [iupdate] of [kernel/fs.c])

    The bytes of a file as a function of the offset; [readi] returns a range
    of them and [writei] replaces one. *)

From S2P Require Import Prelude Word Param Bio Str Fs FsSpec FsBlock FsInode.

(** ** Bytes *)
Definition fbyte (v : Z → block) (i : inode) (o : Z) : Z := fblock v i (o / BSIZE) !!! Z.to_nat (o mod BSIZE).
Definition fread (v : Z → block) (i : inode) (off : Z) (n : nat) : list Z :=
  (λ j, fbyte v i (off + Z.of_nat j)) <$> seq 0 n.

Lemma length_fread v i off n : length (fread v i off n) = n.
Proof. unfold fread. by rewrite length_fmap, length_seq. Qed.
Lemma fread_lookup v i off n j : (j < n)%nat → fread v i off n !! j = Some (fbyte v i (off + Z.of_nat j)).
Proof. intros Hj. unfold fread. rewrite list_lookup_fmap, lookup_seq_lt by done. done. Qed.
Lemma fread_app v i off n m : fread v i off (n + m) = fread v i off n ++ fread v i (off + Z.of_nat n) m.
Proof.
  unfold fread. rewrite seq_app, fmap_app. f_equal.
  replace (seq (0 + n) m) with (seq (n + 0) m) by (f_equal; lia). rewrite <-(fmap_add_seq n 0 m), <-list_fmap_compose.
  apply list_fmap_ext. intros j y _. simpl. f_equal. lia.
Qed.
Lemma fread_ext v i v' i' off n : (∀ o, off ≤ o < off + Z.of_nat n → fbyte v' i' o = fbyte v i o) →
  fread v' i' off n = fread v i off n.
Proof.
  intros Hf. unfold fread. apply list_fmap_ext. intros j y Hj%lookup_seq. apply Hf. lia.
Qed.

(** The blocks of a file have the size of a block. *)
Definition full_blocks (v : Z → block) (i : inode) : Prop :=
  ∀ k, 0 ≤ k < MAXFILE → length (fblock v i k) = Z.to_nat BSIZE.

(** A range within a block. *)
Lemma fread_block v i off n :
  full_blocks v i → 0 ≤ off → off / BSIZE < MAXFILE → off mod BSIZE + Z.of_nat n ≤ BSIZE →
  fread v i off n = slice (fblock v i (off / BSIZE)) (Z.to_nat (off mod BSIZE)) n.
Proof.
  intros Hf Ho Hk Hn. pose proof (Z.mod_pos_bound off BSIZE ltac:(reflexivity)) as Hm.
  assert (length (fblock v i (off / BSIZE)) = Z.to_nat BSIZE) as Hl.
  { apply Hf. split; [apply Z.div_pos; [lia|reflexivity]|done]. }
  apply list_eq_same_length with n; [apply length_slice; lia|apply length_fread|].
  intros j a b Hj Ha Hb. rewrite fread_lookup in Ha by done. injection Ha as <-.
  unfold slice in Hb. rewrite lookup_take_lt, lookup_drop in Hb by done.
  unfold fbyte. assert ((off + Z.of_nat j) / BSIZE = off / BSIZE) as Ed.
  { symmetry. apply Z.div_unique with (off mod BSIZE + Z.of_nat j); [left; lia|].
    pose proof (Z.div_mod off BSIZE ltac:(discriminate)). lia. }
  assert ((off + Z.of_nat j) mod BSIZE = off mod BSIZE + Z.of_nat j) as Em.
  { symmetry. apply Z.mod_unique with (off / BSIZE); [left; lia|].
    pose proof (Z.div_mod off BSIZE ltac:(discriminate)). lia. }
  rewrite Ed, Em. replace (Z.to_nat (off mod BSIZE + Z.of_nat j)) with (Z.to_nat (off mod BSIZE) + j)%nat by lia.
  by rewrite (list_lookup_total_correct _ _ _ Hb).
Qed.

Section file.
Context {S M : Type} `{!BlockStore S, !StoreSpec S}.
Context (ucopyout : Z → list Z → K M Z) (ucopyin : Z → Z → K M (Z * list Z)).
Abbreviation F := (fst S M).
Implicit Types (v : Z → block) (H : gmap Z nat) (D L : gset Z) (t : list inode) (m : M) (s : F) (i : inode).
Context (x : superblock) (pid : Z) (Hgeo : geo x).
Abbreviation at_ := (at_ x pid).
Abbreviation bb := (sb_bmapstart x).

Lemma at_full_blocks v H D L t m s i : at_ v H D L t m s → FInv x v i → full_blocks v i.
Proof using Hgeo.
  intros Hat HI k Hk. unfold fblock. destruct (Z.eqb_spec (slot v i k) 0) as [E|E]; [apply length_zero_block|].
  destruct (fi_slot _ _ _ HI k Hk E) as (Hd & _). eapply at_len; [done|]. by apply data_home.
Qed.

(** A file has all of its blocks. *)
Definition dense v i : Prop := ∀ k, 0 ≤ k → k * BSIZE < i_size i → slot v i k ≠ 0.

(** ** Reading *)
Lemma bmap_hit v L t m s ip i bn :
  at_ v ∅ ∅ L t m s → FInv x v i → t !! ip = Some i → i_dev i = ROOTDEV →
  0 ≤ bn < MAXFILE → slot v i bn ≠ 0 →
  wp (bmap ip bn) (λ r s', r = slot v i bn ∧ at_ v ∅ ∅ L t m s') s.
Proof using Hgeo.
  intros Hat HI Hi Hdev Hbn Hn. unfold bmap. apply wp_bind. eapply wp_ig; [done..|]. rewrite Hdev.
  unfold slot in *. destruct (Z.ltb_spec bn NDIRECT) as [Hd|Hd].
  - apply wp_bind. eapply wp_addr_get; [done|done|apply HI|lia|].
    rewrite (proj2 (Z.eqb_neq _ _)) by done. by apply wp_ret.
  - rewrite (proj2 (Z.ltb_lt (bn - NDIRECT) NINDIRECT)) by (unfold MAXFILE in *; lia).
    apply wp_bind. eapply wp_addr_get; [done|done|apply HI|clia|]. fold (ind i).
    destruct (Z.eqb_spec (ind i) 0) as [|Hni]; [done|]. apply wp_bind, wp_ret.
    rewrite (proj2 (Z.eqb_neq (ind i) 0)) by done. destruct (fi_ind _ _ _ HI Hni) as (Hdi & _).
    apply wp_bind. eapply at_read; [done|by apply data_home|done|rewrite map_size_empty; lia|]. intros j s1 H1.
    apply wp_bind. eapply at_data; [done|apply lookup_insert_eq|]. fold (ind_off bn).
    rewrite (proj2 (Z.eqb_neq (get32 _ _) 0)) by done. apply wp_bind, wp_ret, wp_bind.
    eapply at_relse; [done|apply lookup_insert_eq|]. intros s2 H2. rewrite delete_insert_id in H2 by done.
    by apply wp_ret.
Qed.

(** How much of the range is there. *)
Definition avail (size off n : Z) : Z := if size <? off then 0 else Z.min n (size - off).

(** The guards of [readi] compute it. *)
Lemma readi_clip size off n : 0 ≤ size < 2 ^ 32 → 0 ≤ off < 2 ^ 32 → 0 ≤ n → off + n < 2 ^ 32 →
  (size <? off) || (u32 (off + n) <? off) = (size <? off) ∧
  ((size <? off) = false → (if size <? u32 (off + n) then u32 (size - off) else n) = avail size off n).
Proof using Type.
  intros Hs Ho Hn Hw. unfold u32, avail. rewrite wrap_small by lia.
  rewrite (proj2 (Z.ltb_ge (off + n) off)), orb_false_r by lia. split; [done|]. intros E. rewrite E.
  apply Z.ltb_ge in E. destruct (Z.ltb_spec size (off + n)); [rewrite wrap_small by lia|]; lia.
Qed.

(** A chunk of a loop over blocks. *)
Lemma chunk_bounds off n : 0 ≤ off → 0 < n → let c := Z.min n (BSIZE - off mod BSIZE) in
  0 < c ≤ n ∧ off mod BSIZE + c ≤ BSIZE.
Proof using Type. intros Ho Hn. pose proof (Z.mod_pos_bound off BSIZE ltac:(reflexivity)). lia. Qed.

Lemma readi_spec v L t m s ip i off n :
  at_ v ∅ ∅ L t m s → FInv x v i → dense v i → t !! ip = Some i → i_dev i = ROOTDEV →
  0 ≤ i_size i ≤ MAXFILE * BSIZE → 0 ≤ off → 0 ≤ n → off + n < 2 ^ 32 →
  wp (readi ucopyout ip false 0 off n) (λ '(r, l) s', r = avail (i_size i) off n ∧
    l = fread v i off (Z.to_nat (avail (i_size i) off n)) ∧ at_ v ∅ ∅ L t m s') s.
Proof using Hgeo.
  intros Hat HI Hden Hi Hdev Hsz Ho Hn Hw. unfold readi. apply wp_bind. eapply wp_ig; [done..|].
  destruct (readi_clip (i_size i) off n) as [-> Hclip]; [change (MAXFILE * BSIZE) with 274432 in *; lia|lia..|].
  destruct (i_size i <? off) eqn:Eso.
  { apply wp_ret. unfold avail. by rewrite Eso. }
  rewrite (Hclip eq_refl). clear Hclip. apply Z.ltb_ge in Eso.
  set (c := avail (i_size i) off n). assert (c = Z.min n (i_size i - off)) as Hc.
  { unfold c, avail. by rewrite (proj2 (Z.ltb_ge _ _)) by lia. }
  assert (full_blocks v i) as Hfull by by eapply at_full_blocks.
  eapply (wp_while_loop (λ k '(tot, o, dst, out) s1, 0 ≤ tot ≤ c ∧ k = Z.to_nat (c - tot) ∧ o = off + tot ∧
    out = fread v i off (Z.to_nat tot) ∧ at_ v ∅ ∅ L t m s1)).
  { split_and!; [lia|lia|reflexivity|lia|done|exact Hat]. }
  { lia. }
  intros k [[[tot o] dst] out] s1 (Ht & -> & -> & -> & H1). destruct (Z.ltb_spec tot c) as [Hlt|Hge]; simpl.
  2: { apply wp_ret. assert (tot = c) as -> by lia. done. }
  destruct (chunk_bounds (off + tot) (c - tot)) as [Hcb1 Hcb2]; [lia..|].
  set (q := Z.min (c - tot) (BSIZE - (off + tot) mod BSIZE)) in *.
  assert (0 ≤ (off + tot) / BSIZE < MAXFILE) as Hk.
  { split; [apply Z.div_pos; [lia|reflexivity]|]. apply Z.div_lt_upper_bound; [reflexivity|lia]. }
  assert (slot v i ((off + tot) / BSIZE) ≠ 0) as Hslot.
  { apply Hden; [lia|]. pose proof (Z.mul_div_le (off + tot) BSIZE ltac:(reflexivity)). lia. }
  apply wp_bind. eapply wp_mono; [by eapply bmap_hit|]. intros r s2 [-> H2].
  rewrite (proj2 (Z.eqb_neq _ _)) by done. apply wp_bind. eapply wp_ig; [done..|]. rewrite Hdev.
  destruct (fi_slot _ _ _ HI _ Hk Hslot) as (Hd & _). apply wp_bind.
  eapply at_read; [done|by apply data_home|done|rewrite map_size_empty; lia|]. intros j s3 H3.
  apply wp_bind. eapply at_data; [done|apply lookup_insert_eq|]. apply wp_bind. unfold either_copyout. apply wp_ret.
  simpl. apply wp_bind. eapply at_relse; [done|apply lookup_insert_eq|]. rewrite delete_insert_id by done.
  intros s4 H4. apply wp_ret. fold q. exists (Z.to_nat (c - (tot + q))). split; [lia|].
  split_and!; [lia|lia|done| | |exact H4].
  - unfold u32. rewrite wrap_small; lia.
  - replace (Z.to_nat (tot + q)) with (Z.to_nat tot + Z.to_nat q)%nat by lia. rewrite fread_app. f_equal.
    replace (off + Z.of_nat (Z.to_nat tot)) with (off + tot) by lia.
    rewrite fread_block; [|done|lia|lia|lia]. unfold fblock. by rewrite (proj2 (Z.eqb_neq _ _)) by done.
Qed.

(** ** Writing *)
Definition owned v i (b : Z) : Prop := b ≠ 0 ∧ (b = ind i ∨ ∃ k, 0 ≤ k < MAXFILE ∧ slot v i k = b).

(** Blocks of the file may have changed; those of others have not. *)
Record evolve v i v' i' : Prop := {
  ev_inv : FInv x v' i';
  ev_fields : i' = set_disk_part (i_type i) (i_major i) (i_minor i) (i_nlink i) (i_size i) (i_addrs i') i;
  ev_slot : ∀ k, 0 ≤ k < MAXFILE → slot v i k ≠ 0 → slot v' i' k = slot v i k;
  ev_ind : ind i ≠ 0 → ind i' = ind i;
  ev_own : ∀ b, 0 ≤ b → owned v' i' b → owned v i b ∨ inuse x v b = false;
  ev_frame : ∀ b, 0 ≤ b → inuse x v b = true → b ≠ bb → ¬ owned v i b → v' b = v b;
  ev_used : ∀ b, 0 ≤ b → inuse x v b = true → inuse x v' b = true;
}.

Lemma evolve_refl v i : FInv x v i → evolve v i v i.
Proof using Type. intros HI. split; try done; [symmetry; apply set_disk_part_id|by left]. Qed.

Lemma evolve_trans v i v1 i1 v2 i2 : evolve v i v1 i1 → evolve v1 i1 v2 i2 → evolve v i v2 i2.
Proof using Type.
  intros [] []. split; try done.
  - rewrite ev_fields1, ev_fields0. done.
  - intros k Hk Hs. rewrite ev_slot1; [by apply ev_slot0|done|]. by rewrite ev_slot0.
  - intros Hi. rewrite ev_ind1; [by apply ev_ind0|]. by rewrite ev_ind0.
  - intros b Hb Ho. destruct (ev_own1 b Hb Ho) as [Ho1|Hf]; [by apply ev_own0|right].
    destruct (inuse x v b) eqn:E; [|done]. by rewrite (ev_used0 b Hb E) in Hf.
  - intros b Hb Hu Hbb Ho. rewrite ev_frame1; [by apply ev_frame0|done|by apply ev_used0|done|].
    intros [?|?]%ev_own0; [done|congruence|done].
  - intros b Hb Hu. by apply ev_used1, ev_used0.
Qed.

Lemma owned_data v i b : FInv x v i → owned v i b → data x b ∧ inuse x v b = true.
Proof using Type.
  intros HI [Hn [->|(k & Hk & <-)]]; [by destruct (fi_ind _ _ _ HI Hn) as (? & ? & _)|].
  by destruct (fi_slot _ _ _ HI k Hk Hn) as (? & ? & _).
Qed.

Lemma grown_evolve v i v' i' : FInv x v i → grown x v i v' i' → evolve v i v' i'.
Proof using Type.
  intros HI []. split; try done.
  - intros b Hb Ho. destruct (inuse x v b) eqn:E; [left|by right]. destruct Ho as [Hn Ho]. split; [done|].
    destruct Ho as [->|(k & Hk & Hs)].
    + left. destruct (decide (ind i = 0)) as [E0|E0]; [|by apply gr_ind]. rewrite (gr_new E0 Hn) in E. done.
    + right. exists k. split; [done|]. destruct (decide (slot v i k = 0)) as [E0|E0].
      * subst b. rewrite (gr_fresh k Hk E0 Hn) in E. done.
      * by rewrite <-(gr_slot k Hk E0).
  - intros b Hb Hu Hbb Ho. apply gr_frame; [done..|]. destruct (decide (ind i = 0)) as [E0|E0]; [by right|left].
    intros ->. apply Ho. split; [done|by left].
Qed.

(** Changing the data of one block. *)
Section put.
Context (v : Z → block) (i : inode) (k : Z) (d : block).
Hypothesis HI : FInv x v i.
Hypothesis Hk : 0 ≤ k < MAXFILE.
Hypothesis Hn : slot v i k ≠ 0.
Let v' : Z → block := <[slot v i k := d]> v.

Lemma put_bb : v' bb = v bb.
Proof using HI Hk Hn.
  unfold v'. apply fn_lookup_insert_ne. destruct (fi_slot _ _ _ HI k Hk Hn) as ([] & _). lia.
Qed.
Lemma put_ind : v' (ind i) = v (ind i).
Proof using HI Hk Hn. unfold v'. apply fn_lookup_insert_ne. apply (fi_slot _ _ _ HI k Hk Hn). Qed.
Lemma put_slot k' : slot v' i k' = slot v i k'.
Proof using HI Hk Hn. unfold slot. by rewrite put_ind. Qed.
Lemma put_used b : inuse x v' b = inuse x v b.
Proof using HI Hk Hn. unfold inuse. by rewrite put_bb. Qed.

Lemma put_fblock k' : 0 ≤ k' < MAXFILE → fblock v' i k' = if decide (k' = k) then d else fblock v i k'.
Proof using HI Hk Hn.
  intros Hk'. unfold fblock. rewrite put_slot. case_decide as E.
  - subst k'. rewrite (proj2 (Z.eqb_neq _ _)) by done. unfold v'. by rewrite fn_lookup_insert.
  - destruct (Z.eqb_spec (slot v i k') 0); [done|]. unfold v'. apply fn_lookup_insert_ne. intros E'.
    apply E. symmetry. by apply (fi_inj _ _ _ HI).
Qed.

Lemma put_FInv : FInv x v' i.
Proof using HI Hk Hn.
  destruct (HI). split.
  - done.
  - by rewrite put_bb.
  - intros b Hb. rewrite put_used. by apply fi_meta.
  - rewrite put_used, put_ind. done.
  - intros k'. rewrite put_slot, put_used. apply fi_slot.
  - intros k1 k2. rewrite !put_slot. apply fi_inj.
Qed.

Lemma put_evolve : evolve v i v' i.
Proof using HI Hk Hn.
  split.
  - apply put_FInv.
  - symmetry. apply set_disk_part_id.
  - intros k' Hk' _. apply put_slot.
  - done.
  - intros b Hb [Hb0 Ho]. left. split; [done|]. destruct Ho as [?|(k' & ? & Hs)]; [by left|right].
    rewrite put_slot in Hs. eauto.
  - intros b Hb Hu Hbb Ho. unfold v'. apply fn_lookup_insert_ne. intros <-. apply Ho. split; [done|right; eauto].
  - intros b Hb. by rewrite put_used.
Qed.
End put.

(** The bytes after replacing a range within a block. *)
Lemma splice_lookup (d l : list Z) o j : (o + length l ≤ length d)%nat →
  splice d o l !!! j = if decide (o ≤ j < o + length l)%nat then l !!! (j - o)%nat else d !!! j.
Proof using Type.
  intros Hl. unfold splice. rewrite !list_lookup_total_alt.
  assert (length (take o d) = o) as Ht by (rewrite length_take; lia).
  destruct (decide (j < o)%nat) as [H1|H1].
  { rewrite lookup_app_l by lia. rewrite lookup_take_lt by done. by rewrite decide_False by lia. }
  rewrite lookup_app_r, Ht by lia. destruct (decide (j < o + length l)%nat) as [H2|H2].
  - rewrite decide_True by lia. by rewrite lookup_app_l by lia.
  - rewrite decide_False by lia. rewrite lookup_app_r, lookup_drop by lia. do 2 f_equal. lia.
Qed.

Lemma put_fbyte v i off l o :
  FInv x v i → full_blocks v i → 0 ≤ off → off / BSIZE < MAXFILE → slot v i (off / BSIZE) ≠ 0 →
  off mod BSIZE + Z.of_nat (length l) ≤ BSIZE → 0 ≤ o < MAXFILE * BSIZE →
  fbyte (<[slot v i (off / BSIZE) :=
      splice (v (slot v i (off / BSIZE))) (Z.to_nat (off mod BSIZE)) l]> v) i o =
  if decide (off ≤ o < off + Z.of_nat (length l)) then l !!! Z.to_nat (o - off) else fbyte v i o.
Proof using Type.
  intros HI Hfull Hoff Hk Hn Hl Ho. unfold fbyte.
  pose proof (Z.div_pos off BSIZE Hoff ltac:(reflexivity)). pose proof (Z.div_pos o BSIZE ltac:(lia) ltac:(reflexivity)).
  assert (o / BSIZE < MAXFILE) by (apply Z.div_lt_upper_bound; [reflexivity|lia]).
  rewrite put_fblock by (done || lia).
  pose proof (Z.div_mod off BSIZE ltac:(discriminate)) as Eo. pose proof (Z.div_mod o BSIZE ltac:(discriminate)) as Eo'.
  pose proof (Z.mod_pos_bound off BSIZE ltac:(reflexivity)). pose proof (Z.mod_pos_bound o BSIZE ltac:(reflexivity)).
  change BSIZE with 1024 in *. case_decide as E.
  - assert (length (v (slot v i (off / 1024))) = 1024%nat) as Hlen.
    { pose proof (Hfull (off / 1024) ltac:(lia)) as Hf. unfold fblock in Hf.
      by rewrite (proj2 (Z.eqb_neq _ _)) in Hf by done. }
    rewrite splice_lookup by lia. rewrite E in *.
    assert (fblock v i (off / 1024) = v (slot v i (off / 1024))) as ->.
    { unfold fblock. by rewrite (proj2 (Z.eqb_neq _ _)) by done. }
    repeat case_decide; try lia; try done. f_equal. lia.
  - rewrite decide_False; [done|]. lia.
Qed.
End file.
