(* ===== verification/FsWrite.v ===== *)
(** * [iupdate] and [writei] ([kernel/fs.c])

    Writing to a file replaces a range of its bytes, allocating blocks as
    needed, and stores the inode; what one call adds to the transaction is
    bounded.  Reading back gives what was written. *)

From S2P Require Import Prelude Word Param Bio Str Fs File FsSpec FsBlock FsInode FsFile.

(** ** The inode on disk *)
Lemma dinode_fits inum : 0 ≤ inum → (dinode_off inum + 64 ≤ Z.to_nat BSIZE)%nat.
Proof.
  intros H. unfold dinode_off. pose proof (Z.mod_pos_bound inum IPB ltac:(reflexivity)).
  change IPB with 16 in *. change sizeof_dinode with 64. change BSIZE with 1024. lia.
Qed.

Lemma length_addr_bytes ad : length (ad ≫= le_bytes 4) = (4 * length ad)%nat.
Proof.
  induction ad as [|a ad IH]; [done|]. cbn [mbind list_bind]. rewrite length_app, length_le_bytes, IH. simpl. lia.
Qed.

Lemma length_put_dinode i o d :
  length (i_addrs i) = 13%nat → (o + 64 ≤ length d)%nat → length (put_dinode i o d) = length d.
Proof.
  intros Hl Ho. unfold put_dinode, put_addrs.
  assert (∀ w, length w = length d → length (splice w (o + 12) (i_addrs i ≫= le_bytes 4)) = length d) as H.
  { intros w Hw. rewrite length_splice; rewrite ?length_addr_bytes; lia. }
  assert (∀ n w p z, (p + n ≤ o + 64)%nat → length w = length d → length (putn n w p z) = length d) as Hp.
  { intros n w p z Hn Hw. rewrite length_putn; lia. }
  apply H. do 5 (apply Hp; [lia|]). done.
Qed.

(** ** How much a write adds to the transaction *)

(** Number of blocks touched by a range. *)
Definition nblk (off n : Z) : nat := if n =? 0 then 0 else Z.to_nat ((off + n - 1) / BSIZE - off / BSIZE + 1).

Lemma nblk_step off tot q : 0 ≤ off → 0 ≤ tot → 0 < q → tot = 0 ∨ (off + tot) mod BSIZE = 0 →
  (nblk off tot + 1 ≤ nblk off (tot + q))%nat.
Proof.
  intros Ho Ht Hq Hb. unfold nblk. rewrite (proj2 (Z.eqb_neq (tot + q) 0)) by lia.
  assert (off / BSIZE ≤ (off + (tot + q) - 1) / BSIZE) by (apply Z.div_le_mono; [reflexivity|lia]).
  destruct (Z.eqb_spec tot 0) as [|Hn]; [lia|]. destruct Hb as [|Hb]; [lia|].
  pose proof (Z.div_mod (off + tot) BSIZE ltac:(discriminate)) as E. rewrite Hb in E.
  assert ((off + tot - 1) / BSIZE = (off + tot) / BSIZE - 1) as E1.
  { symmetry. apply Z.div_unique with (BSIZE - 1); [left; clia|]. lia. }
  assert ((off + tot) / BSIZE ≤ (off + (tot + q) - 1) / BSIZE) by (apply Z.div_le_mono; [reflexivity|lia]).
  assert (off / BSIZE ≤ (off + tot - 1) / BSIZE) by (apply Z.div_le_mono; [reflexivity|lia]).
  lia.
Qed.
Lemma nblk_mono off n n' : 0 ≤ n ≤ n' → (nblk off n ≤ nblk off n')%nat.
Proof.
  intros Hn. unfold nblk. destruct (Z.eqb_spec n 0); [lia|]. rewrite (proj2 (Z.eqb_neq n' 0)) by lia.
  assert ((off + n - 1) / BSIZE ≤ (off + n' - 1) / BSIZE) by (apply Z.div_le_mono; [reflexivity|lia]). lia.
Qed.

Section logged.
Context (x : superblock).
Implicit Types (v : Z → block) (L : gset Z) (i : inode).
Abbreviation bb := (sb_bmapstart x).

(** What has been added to the transaction: the free map, the indirect block
    and the data blocks of at most [c] positions. *)
Definition logged L v i L1 (c : nat) : Prop :=
  ∃ ks, L1 ⊆ L ∪ {[bb]} ∪ nz (ind i) ∪ list_to_set (slot v i <$> ks) ∧
    Forall (λ k, 0 ≤ k < MAXFILE ∧ slot v i k ≠ 0) ks ∧ (length ks ≤ c)%nat.

Lemma logged_init v i L : logged L v i L 0.
Proof. exists []. split_and!; [set_solver|done|done]. Qed.
Lemma logged_sub L v i L1 L2 c c' : logged L v i L1 c → L2 ⊆ L1 → (c ≤ c')%nat → logged L v i L2 c'.
Proof. intros (ks & H1 & H2 & H3) HL Hc. exists ks. split_and!; [set_solver|done|lia]. Qed.
Lemma logged_evolve L v i v' i' L1 c : logged L v i L1 c → evolve x v i v' i' →
  logged L v' i' (L1 ∪ {[bb]} ∪ nz (ind i')) c.
Proof.
  intros (ks & H1 & H2 & H3) [].
  assert (slot v' i' <$> ks = slot v i <$> ks) as E.
  { apply list_fmap_ext. intros j k Hk. rewrite Forall_lookup in H2. destruct (H2 j k Hk). by apply ev_slot. }
  assert (nz (ind i) ⊆ nz (ind i')) as Hnz.
  { unfold nz. destruct (decide (ind i = 0)); [set_solver|]. by rewrite ev_ind, decide_False. }
  exists ks. rewrite E. split_and!; [set_solver| |done]. eapply Forall_impl; [exact H2|]. simpl.
  intros k [Hk Hs]. by rewrite ev_slot.
Qed.
Lemma logged_add L v i L1 c k : logged L v i L1 c → 0 ≤ k < MAXFILE → slot v i k ≠ 0 →
  logged L v i ({[slot v i k]} ∪ L1) (c + 1).
Proof.
  intros (ks & H1 & H2 & H3) Hk Hs. exists (k :: ks). split_and!; [|by constructor|simpl; lia].
  rewrite fmap_cons, list_to_set_cons. set_solver.
Qed.
Lemma size_nz b : (size (nz b) ≤ 1)%nat.
Proof. unfold nz. case_decide; [by rewrite size_empty; lia|by rewrite size_singleton]. Qed.
Lemma size_union_le (A B : gset Z) : (size (A ∪ B) ≤ size A + size B)%nat.
Proof.
  rewrite size_union_alt. pose proof (subseteq_size (B ∖ A) B ltac:(set_solver)). lia.
Qed.
Lemma size_list (zs : list Z) : (size (list_to_set zs : gset Z) ≤ length zs)%nat.
Proof.
  induction zs as [|z zs IH]; [done|]. rewrite list_to_set_cons. simpl.
  pose proof (size_union_le {[z]} (list_to_set zs)) as E. rewrite size_singleton in E. lia.
Qed.
Lemma logged_size L v i L1 c : logged L v i L1 c → (size L1 ≤ size L + 2 + c)%nat.
Proof.
  intros (ks & Hsub & _ & Hlen). apply subseteq_size in Hsub.
  pose proof (size_union_le (L ∪ {[bb]} ∪ nz (ind i)) (list_to_set (slot v i <$> ks))).
  pose proof (size_union_le (L ∪ {[bb]}) (nz (ind i))). pose proof (size_union_le L {[bb]}).
  pose proof (size_nz (ind i)). rewrite size_singleton in *.
  pose proof (size_list (slot v i <$> ks)). rewrite length_fmap in *. lia.
Qed.

End logged.

Section write.
Context {S M : Type} `{!BlockStore S, !StoreSpec S}.
Context (ucopyin : Z → Z → K M (Z * list Z)).
Abbreviation F := (fst S M).
Implicit Types (v : Z → block) (H : gmap Z nat) (D L : gset Z) (t : list inode) (m : M) (s : F) (i : inode).
Context (x : superblock) (pid : Z) (Hgeo : geo x).
Abbreviation at_ := (at_ x pid).
Abbreviation bb := (sb_bmapstart x).

(** The block with the inode. *)
Definition iblock (i : inode) : Z := IBLOCK (i_inum i) x.
Definition stored (v : Z → block) (i : inode) : Z → block :=
  <[iblock i := put_dinode i (dinode_off (i_inum i)) (v (iblock i))]> v.

Lemma iblock_range i : 1 ≤ i_inum i < sb_ninodes x → sb_logstart x + sb_nlog x ≤ iblock i < bb.
Proof using Hgeo.
  intros Hi. unfold iblock, IBLOCK. destruct Hgeo. pose proof (Z.div_pos (i_inum i) IPB ltac:(lia) ltac:(reflexivity)).
  pose proof (Z.div_le_mono (i_inum i) (sb_ninodes x - 1) IPB ltac:(reflexivity) ltac:(lia)). lia.
Qed.
Lemma iblock_home i : 1 ≤ i_inum i < sb_ninodes x → home x (iblock i).
Proof using Hgeo.
  intros Hi. pose proof (iblock_range i Hi). destruct (bmap_home x Hgeo) as [? _]. destruct Hgeo.
  split; [|lia]. lia.
Qed.

Lemma iupdate_spec v L t m s ip i :
  at_ v ∅ ∅ L t m s → t !! ip = Some i → i_dev i = ROOTDEV → 1 ≤ i_inum i < sb_ninodes x →
  length (i_addrs i) = 13%nat → (size L < logcap)%nat →
  wp (iupdate ip) (λ _ s', at_ (stored v i) ∅ ∅ ({[iblock i]} ∪ L) t m s') s.
Proof using Hgeo.
  intros Hat Hi Hdev Hin Hl HL. unfold iupdate. apply wp_bind, wp_gets. rewrite (at_sb _ _ _ _ _ _ _ _ _ Hat).
  apply wp_bind. eapply wp_ig; [done..|]. unfold id. rewrite Hdev. fold (iblock i).
  pose proof (iblock_home i Hin) as Hh. pose proof (dinode_fits (i_inum i) ltac:(lia)) as Hf.
  assert (length (v (iblock i)) = Z.to_nat BSIZE) as Hlen by by eapply at_len.
  apply wp_bind. eapply at_read; [done|done|done|rewrite map_size_empty; lia|]. intros j s1 H1.
  apply wp_bind. eapply at_data; [done|apply lookup_insert_eq|].
  apply wp_bind. eapply at_set; [done|apply lookup_insert_eq|rewrite length_put_dinode; [done|done|lia]|set_solver|].
  intros s2 H2. apply wp_bind. eapply at_write; [done|apply lookup_insert_eq|done|by right|]. intros s3 H3.
  eapply at_relse; [done|apply lookup_insert_eq|]. intros s4 H4. rewrite delete_insert_id in H4 by done. exact H4.
Qed.

(** Storing an inode does not touch files. *)
Lemma stored_other v i b : 1 ≤ i_inum i < sb_ninodes x → b = bb ∨ data x b → stored v i b = v b.
Proof using Hgeo.
  intros Hi Hb. unfold stored. apply fn_lookup_insert_ne. pose proof (iblock_range i Hi).
  destruct Hb as [->|[]]; lia.
Qed.
Lemma stored_slot v i i' k : 1 ≤ i_inum i' < sb_ninodes x → FInv x v i → slot (stored v i') i k = slot v i k.
Proof using Hgeo.
  intros Hi HI. unfold slot. destruct (k <? NDIRECT); [done|]. destruct (Z.eqb_spec (ind i) 0) as [|Hn]; [done|].
  destruct (fi_ind _ _ _ HI Hn) as (Hd & _). by rewrite stored_other by auto.
Qed.
Lemma stored_FInv v i i' : 1 ≤ i_inum i' < sb_ninodes x → FInv x v i → FInv x (stored v i') i.
Proof using Hgeo.
  intros Hi HI. assert (∀ b, inuse x (stored v i') b = inuse x v b) as Hu.
  { intros b. unfold inuse. by rewrite stored_other by auto. }
  destruct (HI). split.
  - done.
  - by rewrite stored_other by auto.
  - intros b Hb. rewrite Hu. by apply fi_meta.
  - intros Hn. destruct (fi_ind Hn) as (Hd & ? & ?). rewrite Hu, stored_other by auto. done.
  - intros k. rewrite stored_slot, Hu by done. apply fi_slot.
  - intros k1 k2. rewrite !stored_slot by done. apply fi_inj.
Qed.
Lemma stored_fbyte v i i' o : 1 ≤ i_inum i' < sb_ninodes x → FInv x v i → 0 ≤ o < MAXFILE * BSIZE →
  fbyte (stored v i') i o = fbyte v i o.
Proof using Hgeo.
  intros Hi HI Ho. unfold fbyte, fblock. rewrite stored_slot by done.
  destruct (Z.eqb_spec (slot v i (o / BSIZE)) 0) as [|Hn]; [done|].
  assert (0 ≤ o / BSIZE < MAXFILE) as Hk.
  { split; [apply Z.div_pos; [lia|reflexivity]|apply Z.div_lt_upper_bound; [reflexivity|lia]]. }
  destruct (fi_slot _ _ _ HI _ Hk Hn) as (Hd & _). by rewrite stored_other by auto.
Qed.

(** ** [writei] *)

(** [l] is what [either_copyin] finds from [src] on, or in the buffer. *)
Definition source (user : bool) (kbuf : list Z) (src n : Z) (l : list Z) m : Prop :=
  length l = Z.to_nat n ∧ 0 ≤ src < 2 ^ 64 ∧
  ∀ tot c, 0 ≤ tot → 0 ≤ c → tot + c ≤ n →
    if user then ucopyin (u64 (src + tot)) c m = Ok ((0, slice l (Z.to_nat tot) (Z.to_nat c)), m)
    else slice kbuf (Z.to_nat tot) (Z.to_nat c) = slice l (Z.to_nat tot) (Z.to_nat c).

(** The contents with [l] at [off]. *)
Definition patched v i v' i' (off : Z) (l : list Z) : Prop :=
  ∀ o, 0 ≤ o < MAXFILE * BSIZE → fbyte v' i' o =
    if decide (off ≤ o < off + Z.of_nat (length l)) then l !!! Z.to_nat (o - off) else fbyte v i o.

(** The file after [tot] bytes have been written. *)
Record wcore v i off (l : list Z) (tot : Z) v1 i1 : Prop := {
  wc_evolve : evolve x v i v1 i1;
  wc_bytes : patched v i v1 i1 off (take (Z.to_nat tot) l);
  wc_dense : ∀ k, 0 ≤ k → k * BSIZE < Z.max (i_size i) (off + tot) → slot v1 i1 k ≠ 0;
}.

(** [bmap] in the loop. *)
Lemma wcore_grown v i off l tot v1 i1 v2 i2 :
  wcore v i off l tot v1 i1 → grown x v1 i1 v2 i2 →
  0 ≤ i_size i ≤ MAXFILE * BSIZE → 0 ≤ off → off + tot ≤ MAXFILE * BSIZE →
  wcore v i off l tot v2 i2.
Proof using Type.
  clear Hgeo. intros [] HG Hsz Hoff Htot. pose proof (grown_evolve _ _ _ _ _ (ev_inv _ _ _ _ _ wc_evolve0) HG) as HE.
  split; [by eapply evolve_trans| |].
  - intros o Ho. rewrite <-wc_bytes0 by done. unfold fbyte. rewrite (gr_block _ _ _ _ _ HG); [done|].
    split; [apply Z.div_pos; [lia|reflexivity]|apply Z.div_lt_upper_bound; [reflexivity|lia]].
  - intros k Hk Hlt. rewrite (gr_slot _ _ _ _ _ HG); [by apply wc_dense0| |by apply wc_dense0].
    split; [done|]. apply Z.mul_lt_mono_pos_r with BSIZE; [reflexivity|lia].
Qed.

(** The block found by [bmap] is overwritten from the source. *)
Lemma wcore_put v i off l tot v1 i1 q :
  let k := (off + tot) / BSIZE in let b := slot v1 i1 k in
  wcore v i off l tot v1 i1 → full_blocks v1 i1 →
  0 ≤ off → 0 ≤ tot → off + tot + q ≤ MAXFILE * BSIZE → off ≤ i_size i → b ≠ 0 →
  0 < q → (off + tot) mod BSIZE + q ≤ BSIZE → tot + q ≤ Z.of_nat (length l) →
  wcore v i off l (tot + q)
    (<[b := splice (v1 b) (Z.to_nat ((off + tot) mod BSIZE)) (slice l (Z.to_nat tot) (Z.to_nat q))]> v1) i1.
Proof using Type.
  clear Hgeo. intros k b [] Hfull Hoff Htot Hmax Hos Hb Hq Hfit Hlen.
  assert (0 ≤ k < MAXFILE) as Hk.
  { split; [apply Z.div_pos; [lia|reflexivity]|apply Z.div_lt_upper_bound; [reflexivity|lia]]. }
  pose proof (ev_inv _ _ _ _ _ wc_evolve0) as HI1.
  assert (length (slice l (Z.to_nat tot) (Z.to_nat q)) = Z.to_nat q) as Hsl by (apply length_slice; lia).
  split.
  - eapply evolve_trans; [done|]. by apply put_evolve.
  - intros z Hz. unfold b, k. rewrite (put_fbyte x); [|done|done|lia|lia|done|lia|done].
    rewrite (wc_bytes0 z Hz), Hsl, !length_take, !Nat.min_l by lia.
    rewrite !Z2Nat.id by lia. unfold slice. rewrite !list_lookup_total_alt.
    repeat case_decide; try lia; try done.
    + rewrite lookup_take_lt, lookup_drop, lookup_take_lt by lia. do 2 f_equal. lia.
    + rewrite !lookup_take_lt by lia. done.
  - intros k' Hk' Hlt. rewrite (put_slot x v1 i1 k _ HI1 Hk Hb). destruct (decide (k' = k)) as [->|Hne]; [done|].
    apply wc_dense0; [done|]. pose proof (Z.div_mod (off + tot) BSIZE ltac:(discriminate)) as E. fold k in E.
    pose proof (Z.mod_pos_bound (off + tot) BSIZE ltac:(reflexivity)). change BSIZE with 1024 in *. lia.
Qed.

Lemma wp_copyin v H D L t m s user kbuf src n l tot c (Q : Z * list Z → F → Prop) :
  at_ v H D L t m s → source user kbuf src n l m → 0 ≤ tot → 0 ≤ c → tot + c ≤ n →
  Q (0, slice l (Z.to_nat tot) (Z.to_nat c)) s →
  wp (either_copyin ucopyin user kbuf tot (u64 (src + tot)) c) Q s.
Proof using Type.
  intros [] (_ & _ & Hsrc) Ht Hc Htc HQ. specialize (Hsrc tot c Ht Hc Htc). unfold either_copyin. destruct user.
  - unfold on_mem. apply wp_lift. rewrite at_mem. unfold wp. rewrite Hsrc. subst m. by destruct s.
  - apply wp_ret. by rewrite Hsrc.
Qed.

(** The state of the loop. *)
Definition wloop v i L t m ip off (l : list Z) (tot : Z) (s1 : F) v1 i1 L1 : Prop :=
  at_ v1 ∅ ∅ L1 (<[ip := i1]> t) m s1 ∧ wcore v i off l tot v1 i1 ∧ logged x L v1 i1 L1 (nblk off tot).

Lemma writei_step_spec v i L t m ip off n l user kbuf src tot v1 i1 L1 s1 :
  wloop v i L t m ip off l tot s1 v1 i1 L1 → t !! ip = Some i → i_dev i = ROOTDEV →
  source user kbuf src n l m → 0 ≤ off ≤ i_size i → i_size i ≤ MAXFILE * BSIZE → 0 ≤ tot ≤ n →
  off + n ≤ MAXFILE * BSIZE → tot = 0 ∨ tot = n ∨ (off + tot) mod BSIZE = 0 →
  (size L + nblk off n + 8 ≤ logcap)%nat →
  wp (writei_step ucopyin ip user kbuf n (tot, off + tot, u64 (src + tot))) (λ r s',
    match r with
    | inl (tot', o', src') => o' = off + tot' ∧ src' = u64 (src + tot') ∧ tot < tot' ≤ n ∧
        (tot' = n ∨ (off + tot') mod BSIZE = 0) ∧
        ∃ v' i' L', wloop v i L t m ip off l tot' s' v' i' L'
    | inr (tot', o') => tot' = tot ∧ o' = off + tot ∧
        ∃ v' i' L', wloop v i L t m ip off l tot s' v' i' L' ∧ (tot < n → full x v')
    end) s1.
Proof using Hgeo.
  intros (Hat & HW & Hlog) Hi Hdev Hsrc Hoff Hsz Htot Hmax Hbd HL. unfold writei_step.
  destruct (Z.ltb_spec tot n) as [Hlt|Hge]; simpl.
  2: { apply wp_ret. split_and!; [done..|]. exists v1, i1, L1. split; [done|lia]. }
  assert (tot = 0 ∨ (off + tot) mod BSIZE = 0) as Hbd' by lia. clear Hbd.
  pose proof (logged_size _ _ _ _ _ _ Hlog) as Hls. pose proof (nblk_mono off tot n ltac:(lia)) as Hmono.
  pose proof HW as [Hev _ _]. pose proof (ev_inv _ _ _ _ _ Hev) as HI1.
  assert (ip < length t)%nat as Hip by by eapply lookup_lt_Some.
  assert (i_dev i1 = ROOTDEV) as Hdev1 by (rewrite (ev_fields _ _ _ _ _ Hev); done).
  destruct (chunk_bounds (off + tot) (n - tot)) as [Hq1 Hq2]; [lia..|].
  set (q := Z.min (n - tot) (BSIZE - (off + tot) mod BSIZE)) in *.
  assert (0 ≤ (off + tot) / BSIZE < MAXFILE) as Hk.
  { split; [apply Z.div_pos; [lia|reflexivity]|apply Z.div_lt_upper_bound; [reflexivity|lia]]. }
  apply wp_bind. eapply wp_mono;
    [eapply (bmap_spec x pid Hgeo v1 i1); [done|done|by apply list_lookup_insert_eq|done|done|lia]|].
  intros r s2 [(v2 & i2 & L2 & H2 & HG & HL2 & Hr)]. rewrite list_insert_insert_eq in H2.
  assert (wcore v i off l tot v2 i2) as HW2 by (eapply wcore_grown; [done..|lia|lia|lia]).
  pose proof (logged_evolve _ _ _ _ _ _ _ _ Hlog (grown_evolve _ _ _ _ _ HI1 HG)) as Hlog2.
  destruct Hr as [(-> & Hs0 & Hfull)|[Hrn Hr]].
  { rewrite (proj2 (Z.eqb_eq 0 0)) by done. apply wp_ret. split_and!; [done..|]. exists v2, i2, L2.
    split; [|done]. split_and!; [done..|]. eapply logged_sub; [done| |done].
    unfold nz at 2 in HL2. rewrite decide_True in HL2 by done. set_solver. }
  rewrite (proj2 (Z.eqb_neq r 0)) by done. unfold nz at 2 in HL2. rewrite decide_False in HL2 by done.
  apply wp_bind. eapply wp_ig; [exact H2|by apply list_lookup_insert_eq|].
  assert (i_dev i2 = ROOTDEV) as -> by (rewrite (gr_fields _ _ _ _ _ HG); done).
  pose proof (gr_inv _ _ _ _ _ HG) as HI2.
  destruct (fi_slot _ _ _ HI2 _ Hk ltac:(congruence)) as (Hd & _). rewrite Hr in Hd.
  apply wp_bind. eapply at_read; [done|by apply data_home|done|rewrite map_size_empty; lia|]. intros j s3 H3.
  apply wp_bind. eapply wp_copyin; [done|done|lia|lia|lia|].
  apply wp_bind. eapply at_data; [done|apply lookup_insert_eq|].
  assert (length (v2 r) = Z.to_nat BSIZE) as Hlr by (eapply at_len; [exact H2|by apply data_home]).
  assert (length l = Z.to_nat n) as Hll by apply Hsrc.
  assert (length (slice l (Z.to_nat tot) (Z.to_nat q)) = Z.to_nat q) as Hsl by (apply length_slice; lia).
  pose proof (Z.mod_pos_bound (off + tot) BSIZE ltac:(reflexivity)) as Hmod.
  apply wp_bind. eapply at_set; [done|apply lookup_insert_eq|rewrite length_splice; lia|set_solver|]. intros s4 H4.
  rewrite (proj2 (Z.eqb_neq 0 (-1))) by done. apply wp_bind.
  assert (logged x L v2 i2 ({[r]} ∪ L2) (nblk off tot + 1)) as Hlog3.
  { rewrite <-Hr. eapply logged_sub; [apply logged_add; [exact Hlog2|done|congruence]|set_solver|done]. }
  pose proof (logged_size _ _ _ _ _ _ Hlog3) as Hls3.
  assert (size L2 < logcap)%nat as HL2s.
  { pose proof (subseteq_size L2 ({[r]} ∪ L2) ltac:(set_solver)). lia. }
  eapply at_write; [done|apply lookup_insert_eq|done|by right|]. intros s5 H5.
  apply wp_bind. eapply at_relse; [done|apply lookup_insert_eq|]. rewrite delete_insert_id by done. intros s6 H6.
  apply wp_ret. split_and!.
  - unfold u32. rewrite wrap_small; [lia|]. change (MAXFILE * BSIZE) with 274432 in *. lia.
  - unfold u64, wrap. rewrite Zplus_mod_idemp_l. f_equal. lia.
  - lia.
  - lia.
  - destruct (decide (tot + q = n)) as [|Hne]; [by left|right].
    assert (q = BSIZE - (off + tot) mod BSIZE) as Eq by lia.
    replace (off + (tot + q)) with ((off + tot) / BSIZE * BSIZE + BSIZE)
      by (pose proof (Z.div_mod (off + tot) BSIZE ltac:(discriminate)); lia).
    rewrite Z.add_comm, Z.mod_add, Z.mod_same; done.
  - exists (<[r := splice (v2 r) (Z.to_nat ((off + tot) mod BSIZE)) (slice l (Z.to_nat tot) (Z.to_nat q))]> v2), i2, ({[r]} ∪ L2).
    split_and!; [done| |].
    + rewrite <-Hr. apply wcore_put; try done; [by eapply at_full_blocks|lia|lia|lia|lia|congruence|lia|lia].
    + rewrite <-Hr in Hlog3 |- *.
      eapply logged_sub; [eapply logged_evolve; [exact Hlog3|]|set_solver|by apply nblk_step; [lia..|]].
      apply put_evolve; [done|done|congruence].
Qed.

(** Only the addresses of an inode matter to its blocks. *)
Lemma FInv_size v i z : FInv x v i → FInv x v (set_size z i).
Proof using Type. intros []. by split. Qed.

(** The result of a write of [r] bytes of [l]. *)
Record written v i L t m ip off n (l : list Z) (r : Z) (s' : F) v' i' L' : Prop := {
  wr_range : 0 ≤ r ≤ n;
  wr_cut : r = 0 ∨ r = n ∨ (off + r) mod BSIZE = 0;
  wr_at : at_ v' ∅ ∅ L' (<[ip := i']> t) m s';
  wr_inv : FInv x v' i';
  wr_dense : dense v' i';
  wr_fields : i' = set_disk_part (i_type i) (i_major i) (i_minor i) (i_nlink i)
                     (Z.max (i_size i) (off + r)) (i_addrs i') i;
  wr_bytes : patched v i v' i' off (take (Z.to_nat r) l);
  wr_log : (size L' ≤ size L + 3 + nblk off n)%nat;
  wr_frame : ∀ b, 0 ≤ b → inuse x v b = true → b ≠ bb → b ≠ iblock i → ¬ owned v i b → v' b = v b;
  wr_own : ∀ b, 0 ≤ b → owned v' i' b → owned v i b ∨ inuse x v b = false;
  wr_used : ∀ b, 0 ≤ b → inuse x v b = true → inuse x v' b = true;
  wr_full : r < n → full x v';
}.

Lemma writei_spec v i L t m ip off n l user kbuf src s :
  at_ v ∅ ∅ L t m s → FInv x v i → dense v i → t !! ip = Some i → i_dev i = ROOTDEV →
  1 ≤ i_inum i < sb_ninodes x → 0 ≤ off ≤ i_size i → i_size i ≤ MAXFILE * BSIZE →
  0 ≤ n → off + n ≤ MAXFILE * BSIZE → source user kbuf src n l m →
  (size L + nblk off n + 8 ≤ logcap)%nat →
  wp (writei ucopyin ip user kbuf src off n) (λ r s',
    ∃ v' i' L', written v i L t m ip off n l r s' v' i' L') s.
Proof using Hgeo.
  intros Hat HI Hden Hi Hdev Hin Hoff Hsz Hn Hmax Hsrc HL. unfold writei.
  assert (ip < length t)%nat as Hip by by eapply lookup_lt_Some.
  change (MAXFILE * BSIZE) with 274432 in Hsz, Hmax |- *.
  apply wp_bind. eapply wp_ig; [done..|]. unfold u32. rewrite wrap_small by lia.
  rewrite (proj2 (Z.ltb_ge (i_size i) off)), (proj2 (Z.ltb_ge (off + n) off)), (proj2 (Z.ltb_ge 274432 _)) by lia.
  cbn [orb]. apply wp_bind.
  eapply (wp_while_loop (λ k '(tot, o, sr) s1, 0 ≤ tot ≤ n ∧ k = Z.to_nat (n - tot) ∧ o = off + tot ∧
    sr = u64 (src + tot) ∧ (tot = 0 ∨ tot = n ∨ (off + tot) mod BSIZE = 0) ∧
    ∃ v1 i1 L1, wloop v i L t m ip off l tot s1 v1 i1 L1)).
  { split_and!; [lia|lia|reflexivity|lia| |by left|].
    - rewrite Z.add_0_r. unfold u64. rewrite wrap_small; [done|]. apply Hsrc.
    - exists v, i, L. split_and!; [by rewrite list_insert_id| |].
      + split; [by apply evolve_refl|intros o Ho; rewrite decide_False by (simpl; lia); done|].
        intros k Hk Hlt. apply Hden; [done|lia].
      + eapply logged_sub; [apply logged_init|done|lia]. }
  { lia. }
  { intros k [[tot o] sr] s1 (Ht & -> & -> & -> & Hbd & v1 & i1 & L1 & HW).
    eapply wp_mono; [eapply writei_step_spec; try done|].
    intros [[[tot' o'] sr']|[tot' o']] s2.
    - intros (-> & -> & Ht' & Hbd' & HW'). exists (Z.to_nat (n - tot')). split; [lia|]. split_and!; try done; lia || tauto.
    - intros (-> & -> & v2 & i2 & L2 & (H2 & HC & Hlog) & Hfull).
      assert (i_size i2 = i_size i) as Hs2 by (rewrite (ev_fields _ _ _ _ _ (wc_evolve _ _ _ _ _ _ _ HC)); done).
      assert (i_inum i2 = i_inum i ∧ i_dev i2 = i_dev i) as [Hin2 Hdv2].
      { rewrite (ev_fields _ _ _ _ _ (wc_evolve _ _ _ _ _ _ _ HC)). done. }
      pose proof (ev_inv _ _ _ _ _ (wc_evolve _ _ _ _ _ _ _ HC)) as HI2.
      apply wp_bind. eapply wp_ig; [exact H2|by apply list_lookup_insert_eq|]. rewrite Hs2.
      set (i3 := set_size (Z.max (i_size i) (off + tot)) i2).
      apply (wp_seq _ _ (λ _ s3, at_ v2 ∅ ∅ L2 (<[ip := i3]> t) m s3)).
      { apply wp_when; intros Hb.
        - apply Z.ltb_lt in Hb. eapply wp_iset; [exact H2|by apply list_lookup_insert_eq|]. intros s3 H3.
          rewrite list_insert_insert_eq in H3. unfold i3. by rewrite Z.max_r by lia.
        - apply Z.ltb_ge in Hb. unfold i3. rewrite Z.max_l by lia. rewrite <-Hs2. destruct i2. exact H2. }
      intros _ s3 H3. pose proof (logged_size _ _ _ _ _ _ Hlog) as Hls. pose proof (nblk_mono off tot n Ht) as Hmn.
      apply wp_bind. eapply wp_mono.
      { eapply (iupdate_spec v2 L2 _ m s3 ip i3); [exact H3|by apply list_lookup_insert_eq| | |apply HI2|lia].
        - simpl. congruence.
        - simpl. rewrite Hin2. done. }
      intros [] s4 H4. apply wp_ret. exists (stored v2 i3), i3, ({[iblock i3]} ∪ L2).
      assert (1 ≤ i_inum i3 < sb_ninodes x) as Hin3 by (simpl; lia).
      assert (FInv x v2 i3) as HI3 by by apply FInv_size.
      split.
      + done.
      + done.
      + done.
      + by apply stored_FInv.
      + intros k Hk Hlt. rewrite stored_slot by done. apply (wc_dense _ _ _ _ _ _ _ HC); [done|]. exact Hlt.
      + unfold i3. rewrite (ev_fields _ _ _ _ _ (wc_evolve _ _ _ _ _ _ _ HC)). done.
      + intros z Hz. rewrite stored_fbyte by done. exact (wc_bytes _ _ _ _ _ _ _ HC z Hz).
      + pose proof (size_union_le {[iblock i3]} L2) as Hu. rewrite size_singleton in Hu. lia.
      + intros b Hb Hu Hbb Hib Ho. unfold stored. rewrite fn_lookup_insert_ne.
        2: { unfold iblock in *. simpl. rewrite Hin2. congruence. }
        by apply (ev_frame _ _ _ _ _ (wc_evolve _ _ _ _ _ _ _ HC)).
      + intros b Hb [Hb0 Ho]. apply (ev_own _ _ _ _ _ (wc_evolve _ _ _ _ _ _ _ HC)); [done|]. split; [done|].
        destruct Ho as [?|(k & Hk & Hs)]; [by left|right]. exists k. rewrite stored_slot in Hs by done. done.
      + intros b Hb Hu. unfold inuse. rewrite stored_other by auto.
        by apply (ev_used _ _ _ _ _ (wc_evolve _ _ _ _ _ _ _ HC)).
      + intros Hlt b Hb. unfold inuse. rewrite stored_other by auto. by apply Hfull. }
Qed.

(** What [writei] may assume: the file is well-formed, its inode is in memory,
    the range begins within the file and there is room in the transaction. *)
Record writable v i L t m ip off n l user kbuf src s : Prop := {
  wb_at : at_ v ∅ ∅ L t m s;
  wb_inv : FInv x v i;
  wb_dense : dense v i;
  wb_inode : t !! ip = Some i;
  wb_dev : i_dev i = ROOTDEV;
  wb_inum : 1 ≤ i_inum i < sb_ninodes x;
  wb_off : 0 ≤ off ≤ i_size i;
  wb_size : i_size i ≤ MAXFILE * BSIZE;
  wb_n : 0 ≤ n;
  wb_max : off + n ≤ MAXFILE * BSIZE;
  wb_src : source user kbuf src n l m;
  wb_room : (size L + nblk off n + 8 ≤ logcap)%nat;
}.
Lemma writei_ok v i L t m ip off n l user kbuf src s :
  writable v i L t m ip off n l user kbuf src s →
  wp (writei ucopyin ip user kbuf src off n) (λ r s',
    ∃ v' i' L', written v i L t m ip off n l r s' v' i' L') s.
Proof using Hgeo. intros []. by eapply writei_spec. Qed.

Lemma patched_fread v i v' i' off l :
  patched v i v' i' off l → 0 ≤ off → off + Z.of_nat (length l) ≤ MAXFILE * BSIZE → fread v' i' off (length l) = l.
Proof using Type.
  clear Hgeo. intros Hp Hoff Hmax. apply list_eq_same_length with (length l); [done|apply length_fread|].
  intros j a b Hj Ha Hb. rewrite fread_lookup in Ha by done. injection Ha as <-.
  rewrite Hp by lia. rewrite decide_True by lia. replace (Z.to_nat _) with j by lia.
  by rewrite (list_lookup_total_correct _ _ _ Hb).
Qed.

(** C6. What is written to a file is read back.  [writei] stores the first [r]
    bytes of its source, where [r] is less than asked for only when no block of
    the disk is free, and [readi] of the same range returns exactly them. *)
Theorem writei_readi (ucopyout : Z → list Z → K M Z) v i L t m ip off n l user kbuf src s :
  writable v i L t m ip off n l user kbuf src s →
  wp (r ← writei ucopyin ip user kbuf src off n;
      b ← readi ucopyout ip false 0 off r;
      mret (r, b))
    (λ '(r, (k, bs)) s', 0 ≤ r ≤ n ∧ k = r ∧ bs = take (Z.to_nat r) l ∧
       ∃ v', (r < n → full x v') ∧ ∃ H D L t m, at_ v' H D L t m s') s.
Proof using Hgeo.
  intros HW. pose proof HW as [Hat HI Hden Hi Hdev Hin Hoff Hsz Hn Hmax (Hll & _) _].
  apply wp_bind. eapply wp_mono; [by eapply writei_ok|]. intros r s1 (v1 & i1 & L1 & []).
  assert (ip < length t)%nat as Hip by by eapply lookup_lt_Some.
  assert (i_size i1 = Z.max (i_size i) (off + r) ∧ i_dev i1 = ROOTDEV) as [Hs1 Hd1] by (rewrite wr_fields0; done).
  change (MAXFILE * BSIZE) with 274432 in *.
  apply wp_bind. eapply wp_mono.
  { eapply (readi_spec ucopyout x pid Hgeo); [exact wr_at0|done|done|by apply list_lookup_insert_eq|done| |lia|lia|lia].
    change (MAXFILE * BSIZE) with 274432. lia. }
  intros [k bs] s2 (-> & -> & H2). apply wp_ret.
  assert (avail (i_size i1) off r = r) as ->.
  { unfold avail. rewrite Hs1, (proj2 (Z.ltb_ge _ _)) by lia. lia. }
  split_and!; [lia|lia|done| |exists v1; split; [done|]; by eexists _, _, _, _, _].
  assert (length (take (Z.to_nat r) l) = Z.to_nat r) as Hlr by (rewrite length_take; lia).
  pose proof (patched_fread _ _ _ _ _ _ wr_bytes0 ltac:(lia)) as Hf. rewrite Hlr in Hf. apply Hf.
  change (MAXFILE * BSIZE) with 274432. lia.
Qed.

(** Another file: its blocks are not those of the first. *)
Definition apart v i j : Prop := ∀ b, owned v i b → owned v j b → False.

Lemma frame_file v i v' i' j :
  FInv x v i → FInv x v j → apart v i j → FInv x v' i' →
  (∀ b, data x b → inuse x v b = true → ¬ owned v i b → v' b = v b) →
  (∀ b, 0 ≤ b → owned v' i' b → owned v i b ∨ inuse x v b = false) →
  (∀ b, 0 ≤ b → inuse x v b = true → inuse x v' b = true) →
  (∀ k, slot v' j k = slot v j k) ∧ FInv x v' j ∧ apart v' i' j ∧
  ∀ k, 0 ≤ k < MAXFILE → fblock v' j k = fblock v j k.
Proof using Hgeo.
  intros HI HJ Hap HI' Hfr Hown Hused.
  assert (∀ b, owned v j b → v' b = v b) as Hsame.
  { intros b Hb. destruct (owned_data _ _ _ _ HJ Hb) as [Hd Hu]. apply Hfr; [done..|]. intros Ho. by apply (Hap b). }
  assert (∀ k, slot v' j k = slot v j k) as Hslot.
  { intros k. unfold slot. destruct (k <? NDIRECT); [done|]. destruct (Z.eqb_spec (ind j) 0); [done|].
    rewrite Hsame; [done|]. split; [done|by left]. }
  assert (∀ b, owned v' j b ↔ owned v j b) as Hoj.
  { intros b. unfold owned. by setoid_rewrite Hslot. }
  split_and!; [done| | |].
  - split; [apply HJ|apply HI'|apply HI'| | |].
    + intros Hn. destruct (fi_ind _ _ _ HJ Hn) as (Hd & Hu & Hl). pose proof (data_range x _ Hgeo Hd).
      split_and!; [done|by apply Hused; [lia|]|]. rewrite Hsame; [done|]. split; [done|by left].
    + intros k Hk. rewrite Hslot. intros Hn. destruct (fi_slot _ _ _ HJ k Hk Hn) as (Hd & Hu & Hl).
      pose proof (data_range x _ Hgeo Hd). split_and!; [done|by apply Hused; [lia|]|done].
    + intros k1 k2. rewrite !Hslot. apply HJ.
  - intros b Hb Hbj. apply Hoj in Hbj. destruct (owned_data _ _ _ _ HJ Hbj) as [Hd Hu].
    pose proof (data_range x _ Hgeo Hd). destruct (Hown b ltac:(lia) Hb) as [Ho|]; [by apply (Hap b)|congruence].
  - intros k Hk. unfold fblock. rewrite Hslot. destruct (Z.eqb_spec (slot v j k) 0); [done|].
    apply Hsame. split; [done|right; eauto].
Qed.

(** C14. Files are kept apart.  Writing to a file keeps it well-formed, its blocks
    allocated once each and all present up to its size, and leaves every other
    file well-formed, disjoint from it and with the same contents. *)
Theorem writei_keeps_files v i L t m ip off n l user kbuf src s j :
  writable v i L t m ip off n l user kbuf src s → FInv x v j → apart v i j →
  wp (writei ucopyin ip user kbuf src off n) (λ r s', ∃ v' i' L',
    at_ v' ∅ ∅ L' (<[ip := i']> t) m s' ∧ FInv x v' i' ∧ dense v' i' ∧
    i_size i' = Z.max (i_size i) (off + r) ∧ patched v i v' i' off (take (Z.to_nat r) l) ∧
    FInv x v' j ∧ apart v' i' j ∧ ∀ k, 0 ≤ k < MAXFILE → fblock v' j k = fblock v j k) s.
Proof using Hgeo.
  intros HW HJ Hap. eapply wp_mono; [by eapply writei_ok|]. intros r s' (v' & i' & L' & []).
  exists v', i', L'. destruct (frame_file v i v' i' j) as (_ & H1 & H2 & H3); try done; [apply HW| |].
  - intros b Hd Hu Ho. pose proof (data_range x b Hgeo Hd). apply wr_frame0; [lia|done| | |done].
    + by apply data_ne_bb.
    + pose proof (iblock_range i (wb_inum _ _ _ _ _ _ _ _ _ _ _ _ _ HW)). destruct Hd. lia.
  - split_and!; try done. rewrite wr_fields0. done.
Qed.

(** C40. A chunk of [filewrite] fits its transaction.  Writing at most
    [write_max] bytes adds at most seven blocks to the transaction: the free
    map, the inode, the indirect block and four data blocks, within the
    [MAXOPBLOCKS] that [begin_op] has reserved. *)
Theorem writei_chunk_fits v i L t m ip off n l user kbuf src s :
  writable v i L t m ip off n l user kbuf src s → n ≤ File.write_max →
  wp (writei ucopyin ip user kbuf src off n) (λ r s', ∃ v' L' t',
    at_ v' ∅ ∅ L' t' m s' ∧ (size L' ≤ size L + 7)%nat ∧ 7 ≤ MAXOPBLOCKS) s.
Proof using Hgeo.
  intros HW Hn. eapply wp_mono; [by eapply writei_ok|]. intros r s' (v' & i' & L' & []).
  exists v', L', (<[ip := i']> t). split_and!; [done| |done]. change File.write_max with 3072 in Hn.
  assert (nblk off n ≤ 4)%nat; [|lia]. unfold nblk. destruct (Z.eqb_spec n 0); [lia|].
  pose proof (wb_n _ _ _ _ _ _ _ _ _ _ _ _ _ HW).
  assert ((off + n - 1) / BSIZE ≤ off / BSIZE + 3); [|lia]. change BSIZE with 1024.
  replace (off / 1024 + 3) with ((off + 3 * 1024) / 1024) by (rewrite Z.div_add by lia; lia).
  apply Z.div_le_mono; lia.
Qed.
End write.

(** ** A disk in memory

    The simplest block store: contents only, a buffer is its block. *)
Module RamDisk.
#[local] Instance ram_store : BlockStore (Z → block) := {
  bread _ b := mret (Z.to_nat b);
  bp_data i := gets (λ v, v (Z.of_nat i));
  bp_set i d := modify (λ v, <[Z.of_nat i := d]> v);
  log_write _ := mret tt;
  brelse _ := mret tt;
  mypid _ := 1;
}.
Record ram_tx (sb : superblock) (pid : Z) (s v : Z → block) (H : gmap Z nat) (D L : gset Z) : Prop := {
  rt_eq : s = v;
  rt_pid : pid = 1;
  rt_len : ∀ b, home sb b → length (v b) = Z.to_nat BSIZE;
  rt_held : ∀ b i, H !! b = Some i → 0 ≤ b ∧ i = Z.to_nat b;
}.
#[local] Program Instance ram_spec : StoreSpec (Z → block) := { tx := ram_tx }.
Next Obligation. by intros sb pid s v H D L []. Qed.
Next Obligation. intros sb pid s v H D L b []. auto. Qed.
Next Obligation.
  intros sb pid s v H D L b [] Hb _ _. apply wp_ret. split; try done. intros b' i.
  rewrite lookup_insert_Some. destruct Hb. intros [[<- <-]|[_ Hi]]; [split; [lia|done]|by apply rt_held0].
Qed.
Next Obligation.
  intros sb pid s v H D L b i [] Hi. apply wp_gets. destruct (rt_held0 b i Hi) as [? ->].
  rewrite Z2Nat.id by done. by subst.
Qed.
Next Obligation.
  intros sb pid s v H D L b i d [] Hi Hd. apply wp_modify. destruct (rt_held0 b i Hi) as [? ->].
  rewrite Z2Nat.id by done. subst. split; try done. intros b' Hb'.
  destruct (decide (b' = b)) as [->|]; [by rewrite fn_lookup_insert|rewrite fn_lookup_insert_ne by done; auto].
Qed.
Next Obligation. intros sb pid s v H D L b i [] Hi _. by apply wp_ret. Qed.
Next Obligation.
  intros sb pid s v H D L b i [] Hi _. apply wp_ret. split; try done. intros b' j [_ Hj]%lookup_delete_Some. auto.
Qed.

(** An empty file on the disk of [mkfs]; blocks 0 to 45 are in use. *)
Definition free_map : block := replicate 5 255 ++ [63] ++ replicate 1018 0.
Definition v0 (b : Z) : block := if b =? 45 then free_map else zero_block.
Definition i0 : inode := Inode ROOTDEV 2 1 initsleeplock true T_FILE 0 0 1 0 (replicate 13 0).
Definition s0 : fst (Z → block) unit := Fst v0 mkfs_sb [i0] tt.

Lemma slot0 i k : i_addrs i = replicate 13 0 → slot v0 i k = 0.
Proof.
  intros E. unfold slot, ind, direct. rewrite E.
  assert (∀ j, (j < 13)%nat → replicate 13 0 !!! j = 0) as Hz.
  { intros j Hj. apply list_lookup_total_correct. by apply lookup_replicate. }
  rewrite (Hz (Z.to_nat NDIRECT)) by clia. destruct (Z.ltb_spec k NDIRECT); [|done].
  apply Hz. change NDIRECT with 12 in *. lia.
Qed.
Lemma FInv0 i : i_addrs i = replicate 13 0 → FInv mkfs_sb v0 i.
Proof.
  intros E. pose proof (λ k, slot0 i k E) as Hs. split.
  - by rewrite E.
  - reflexivity.
  - intros b Hb. change (sb_bmapstart mkfs_sb) with 45 in Hb.
    assert (forallb (inuse mkfs_sb v0) (Z.of_nat <$> seq 0 46) = true) as Hall by (vm_compute; reflexivity).
    rewrite forallb_forall in Hall. apply Hall, list_elem_of_In, list_elem_of_fmap. exists (Z.to_nat b).
    split; [lia|]. apply elem_of_seq. lia.
  - unfold ind, direct. rewrite E. by intros [].
  - intros k Hk. by rewrite Hs.
  - intros k k' Hk Hk'. by rewrite Hs.
Qed.
Lemma at0 : at_ mkfs_sb 1 v0 ∅ ∅ ∅ [i0] tt s0.
Proof.
  split; try done. split; try done. intros b _. unfold v0. destruct (b =? 45); [done|apply length_zero_block].
Qed.
(** No user memory. *)
Definition nocopyin : Z → Z → K unit (Z * list Z) := λ _ _, undefined "copyin".
Definition nocopyout : Z → list Z → K unit Z := λ _ _, undefined "copyout".
Lemma writable0 : writable nocopyin mkfs_sb 1 v0 i0 ∅ [i0] tt 0 0 3 [7; 8; 9] false [7; 8; 9] 0 s0.
Proof.
  split; try done; try (vm_compute; lia).
  - apply at0.
  - apply FInv0. reflexivity.
  - intros k Hk Hlt. change (i_size i0) with 0 in Hlt. change BSIZE with 1024 in Hlt. lia.
Qed.
End RamDisk.

#[local] Existing Instances RamDisk.ram_store RamDisk.ram_spec.

Lemma writei_readi_witness :
  wp (r ← writei RamDisk.nocopyin 0 false [7; 8; 9] 0 0 3;
      b ← readi RamDisk.nocopyout 0 false 0 0 r; mret (r, b))
    (λ '(r, (k, bs)) s', 0 ≤ r ≤ 3 ∧ k = r ∧ bs = take (Z.to_nat r) [7; 8; 9]) RamDisk.s0.
Proof.
  eapply wp_mono; [exact (writei_readi _ mkfs_sb 1 geo_mkfs _ _ _ _ _ _ _ _ _ _ _ _ _ _ RamDisk.writable0)|].
  intros [r [k bs]] s' (? & ? & ? & _). done.
Defined.

Lemma writei_keeps_files_witness :
  wp (writei RamDisk.nocopyin 0 false [7; 8; 9] 0 0 3) (λ r s', ∃ v' i' L',
    at_ mkfs_sb 1 v' ∅ ∅ L' [i'] tt s' ∧ FInv mkfs_sb v' i' ∧
    ∀ k, 0 ≤ k < MAXFILE → fblock v' RamDisk.i0 k = fblock RamDisk.v0 RamDisk.i0 k) RamDisk.s0.
Proof.
  eapply wp_mono; [refine (writei_keeps_files _ mkfs_sb 1 geo_mkfs _ _ _ _ _ _ _ _ _ _ _ _ _ RamDisk.i0 RamDisk.writable0 _ _)|].
  - by apply RamDisk.FInv0.
  - intros b [Hb [->|(k & Hk & Hs)]] _; [by vm_compute in Hb|]. rewrite RamDisk.slot0 in Hs by reflexivity. congruence.
  - intros r s' (v' & i' & L' & H1 & H2 & _ & _ & _ & _ & _ & H3). exists v', i', L'. done.
Defined.

Lemma writei_chunk_fits_witness :
  wp (writei RamDisk.nocopyin 0 false [7; 8; 9] 0 0 3) (λ r s', ∃ v' L' t',
    at_ mkfs_sb 1 v' ∅ ∅ L' t' tt s' ∧ (size L' ≤ size (∅ : gset Z) + 7)%nat ∧ 7 ≤ MAXOPBLOCKS) RamDisk.s0.
Proof.
  apply (writei_chunk_fits _ mkfs_sb 1 geo_mkfs _ _ _ _ _ _ _ _ _ _ _ _ _ RamDisk.writable0). vm_compute. congruence.
Defined.
