(* ===== verification/FsDir.v ===== *)
(** * Directories ([dirlookup], [dirlink], [iget] of [kernel/fs.c])

    A directory is a file of entries of sixteen bytes; an entry with inode
    number 0 is free.  [dirlookup] finds the first entry with a name, and what
    [dirlink] enters is found. *)

From S2P Require Import Prelude Word Param Bio Str Fs File FsSpec FsBlock FsInode FsFile FsWrite.

(** ** Entries and names *)
Definition ent (v : Z → block) (i : inode) (k : Z) : dirent := dirent_of (fread v i (k * sizeof_dirent) 16).
Definition entry_name (e : dirent) : list Z := until_zero (take 14 (de_name e)).
Definition matches (v : Z → block) (i : inode) (name : list Z) (k : Z) : Prop :=
  de_inum (ent v i k) ≠ 0 ∧ entry_name (ent v i k) = name.
#[global] Instance matches_dec v i name k : Decision (matches v i name k).
Proof. apply _. Defined.

(** Path elements: not empty, without zeros, at most [DIRSIZ] bytes. *)
Definition proper (name : list Z) : Prop := Forall (λ c, c ≠ 0) name ∧ (length name ≤ 14)%nat.

Lemma until_zero_app l l' : Forall (λ c, c ≠ 0) l → until_zero (l ++ 0 :: l') = l.
Proof. induction 1 as [|c l Hc _ IH]; [done|]. simpl. by rewrite (proj2 (Z.eqb_neq c 0)), IH. Qed.
Lemma until_zero_id l : Forall (λ c, c ≠ 0) l → until_zero l = l.
Proof. induction 1 as [|c l Hc _ IH]; [done|]. simpl. by rewrite (proj2 (Z.eqb_neq c 0)), IH. Qed.

Lemma proper_buf name l : proper name → until_zero (take 14 (name ++ 0 :: l)) = name.
Proof.
  intros [Hz Hl]. rewrite take_app_ge by done. destruct (14 - length name)%nat eqn:E; simpl.
  - rewrite app_nil_r. by apply until_zero_id.
  - by apply until_zero_app.
Qed.

Lemma namecmp_zero name e : proper name → length (de_name e) = 14%nat →
  namecmp name (de_name e) = 0 ↔ entry_name e = name.
Proof.
  intros Hn He. unfold namecmp. change (Z.to_nat DIRSIZ) with 14%nat. rewrite strncmp_l_zero.
  - rewrite (proper_buf name []) by done. unfold entry_name. done.
  - right. apply elem_of_app. right. by left.
  - left. lia.
Qed.

(** What is written is decoded again. *)
Lemma dirent_roundtrip inum name : 0 ≤ inum < 2 ^ 16 → proper name →
  let e := dirent_of (dirent_bytes (Dirent (u16 inum) (field (Z.to_nat DIRSIZ) name))) in
  de_inum e = inum ∧ entry_name e = name.
Proof.
  intros Hi Hn e. unfold e, dirent_of, dirent_bytes, entry_name. cbn [de_inum de_name].
  change (Z.to_nat DIRSIZ) with 14%nat.
  rewrite take_app_length', drop_app_length' by (symmetry; apply length_le_bytes).
  unfold u16. rewrite wrap_small by lia. rewrite of_le_le_bytes_small by lia. split; [done|].
  rewrite take_take. unfold field. rewrite take_take. change (replicate 14 0) with (0 :: replicate 13 0).
  by apply proper_buf.
Qed.

Lemma length_dirent_bytes inum name : length (dirent_bytes (Dirent inum (field (Z.to_nat DIRSIZ) name))) = 16%nat.
Proof. unfold dirent_bytes. simpl. rewrite length_field. done. Qed.

Lemma length_ent_name v i k : length (de_name (ent v i k)) = 14%nat.
Proof. unfold ent, dirent_of. cbn [de_name]. by rewrite length_take, length_drop, length_fread. Qed.

(** ** The inode table *)
Lemma iget_scan_key dev inum t t' n e :
  Forall2 (λ i i', i_ref i' = i_ref i ∧ i_dev i' = i_dev i ∧ i_inum i' = i_inum i) t t' →
  iget_scan dev inum t' n e = iget_scan dev inum t n e.
Proof.
  intros HF. revert n e. induction HF as [|i i' t t' (Hr & Hd & Hi) _ IH]; intros n e; [done|].
  simpl. rewrite Hr, Hd, Hi. by rewrite IH.
Qed.

Lemma iget_scan_spec dev inum t n e r e' :
  iget_scan dev inum t n e = (r, e') →
  match r with
  | Some j => ∃ k i, j = (n + k)%nat ∧ t !! k = Some i ∧ i_dev i = dev ∧ i_inum i = inum
  | None => match e' with
            | Some j => e = Some j ∨ ∃ k i, j = (n + k)%nat ∧ t !! k = Some i ∧ i_ref i = 0
            | None => True
            end
  end.
Proof.
  revert n e. induction t as [|i t IH]; intros n e; simpl.
  { intros [= <- <-]. destruct e; [by left|done]. }
  destruct ((0 <? i_ref i) && (i_dev i =? dev) && (i_inum i =? inum)) eqn:Em.
  { intros [= <- <-]. apply andb_true_iff in Em as [[_ Hd]%andb_true_iff Hi].
    exists 0%nat, i. split_and!; [lia|done|by apply Z.eqb_eq|by apply Z.eqb_eq]. }
  intros HS. apply IH in HS. destruct r as [j|].
  { destruct HS as (k & i' & -> & ? & ? & ?). exists (S k), i'. split_and!; [lia|done..]. }
  destruct e' as [j|]; [|done]. destruct HS as [HS|(k & i' & -> & ? & ?)].
  - destruct e as [e|]; [by left|]. destruct (Z.eqb_spec (i_ref i) 0); [|done]. injection HS as <-.
    right. exists 0%nat, i. split_and!; [lia|done..].
  - right. exists (S k), i'. split_and!; [lia|done..].
Qed.

Section dir.
Context {S M : Type} `{!BlockStore S, !StoreSpec S}.
Context (ucopyout : Z → list Z → K M Z) (ucopyin : Z → Z → K M (Z * list Z)).
Abbreviation F := (fst S M).
Implicit Types (v : Z → block) (L : gset Z) (t : list inode) (m : M) (s : F) (i : inode) (name : list Z).
Context (x : superblock) (pid : Z) (Hgeo : geo x).
Abbreviation at_ := (at_ x pid).

(** There is an entry for the inode, or a free one. *)
Definition has_room t (inum : Z) : Prop := iget_scan ROOTDEV inum t 0 None ≠ (None, None).

(** [i] is the entry [ip] of the table with a reference more, or takes the place of
    one that had none. *)
Definition referenced t (ip : nat) i : Prop := ∃ i0, t !! ip = Some i0 ∧ (i = set_ref (i_ref i0 + 1) i0 ∨ i_ref i0 = 0).

Lemma iget_spec v H D L t m s inum :
  at_ v H D L t m s → has_room t inum →
  wp (iget ROOTDEV inum) (λ ip s', ∃ i, at_ v H D L (<[ip := i]> t) m s' ∧ i_dev i = ROOTDEV ∧ i_inum i = inum ∧
    referenced t ip i) s.
Proof using Type.
  intros Hat Hr. unfold iget. apply wp_bind, wp_gets. rewrite (at_table _ _ _ _ _ _ _ _ _ Hat).
  unfold has_room in Hr. destruct (iget_scan ROOTDEV inum t 0 None) as [[ip|] e] eqn:Es.
  - apply iget_scan_spec in Es as (k & i & -> & Hi & Hd & Hn). simpl. apply wp_bind.
    eapply wp_ig; [done..|]. apply wp_bind. eapply wp_iset; [done..|]. intros s' H'. apply wp_ret.
    exists (set_ref (i_ref i + 1) i). split_and!; [done|done|done|]. exists i. by split; [|left].
  - destruct e as [ip|]; [|done]. apply iget_scan_spec in Es as [|(k & i & -> & Hi & Hd)]; [done|].
    simpl. apply wp_bind. eapply wp_iset; [done..|]. intros s' H'. apply wp_ret.
    eexists. split_and!; [exact H'|done|done|]. exists i. by split; [|right].
Qed.

(** A directory in memory. *)
Record dir_ok v i : Prop := {
  do_inv : FInv x v i;
  do_dense : dense v i;
  do_type : i_type i = T_DIR;
  do_dev : i_dev i = ROOTDEV;
  do_inum : 1 ≤ i_inum i < sb_ninodes x;
  do_size : 0 ≤ i_size i ≤ MAXFILE * BSIZE;
  do_align : i_size i mod sizeof_dirent = 0;
}.

Lemma nentries_size i : 0 ≤ i_size i → i_size i mod sizeof_dirent = 0 →
  Z.of_nat (nentries (i_size i)) * sizeof_dirent = i_size i.
Proof using Type.
  clear Hgeo. intros Hs Ha. unfold nentries. change sizeof_dirent with 16 in *.
  pose proof (Z.div_mod (i_size i) 16 ltac:(lia)) as E. rewrite Ha in E.
  assert ((i_size i + 16 - 1) / 16 = i_size i / 16) as ->.
  { symmetry. apply Z.div_unique with 15; lia. }
  pose proof (Z.div_pos (i_size i) 16). lia.
Qed.

Lemma read_dirent_spec v L t m s dp i k msg :
  at_ v ∅ ∅ L t m s → dir_ok v i → t !! dp = Some i → 0 ≤ k < Z.of_nat (nentries (i_size i)) →
  wp (read_dirent ucopyout dp (k * sizeof_dirent) msg) (λ e s', e = ent v i k ∧ at_ v ∅ ∅ L t m s') s.
Proof using Hgeo.
  intros Hat [] Hi Hk. pose proof (nentries_size i ltac:(lia) do_align0) as Hn.
  change (MAXFILE * BSIZE) with 274432 in *. unfold read_dirent. apply wp_bind.
  eapply wp_mono; [eapply (readi_spec ucopyout x pid Hgeo); try done|].
  - change sizeof_dirent with 16. lia.
  - change sizeof_dirent with 16 in *. lia.
  - intros [r l] s' (-> & -> & H').
    assert (avail (i_size i) (k * sizeof_dirent) sizeof_dirent = sizeof_dirent) as ->.
    { unfold avail. change sizeof_dirent with 16 in *. rewrite (proj2 (Z.ltb_ge _ _)) by lia. lia. }
    rewrite Z.eqb_refl. apply wp_bind, wp_panic_if; [done|]. by apply wp_ret.
Qed.

(** [dirlookup] finds the first entry with the name. *)
Lemma dirlookup_spec v L t m s dp i name :
  at_ v ∅ ∅ L t m s → dir_ok v i → t !! dp = Some i → proper name →
  (∀ k, 0 ≤ k < Z.of_nat (nentries (i_size i)) → matches v i name k → has_room t (de_inum (ent v i k))) →
  wp (dirlookup ucopyout dp name) (λ r s',
    match r with
    | None => at_ v ∅ ∅ L t m s' ∧ ∀ k, 0 ≤ k < Z.of_nat (nentries (i_size i)) → ¬ matches v i name k
    | Some (ip, off) => ∃ k j, off = k * sizeof_dirent ∧ 0 ≤ k < Z.of_nat (nentries (i_size i)) ∧
        matches v i name k ∧ (∀ k', 0 ≤ k' < k → ¬ matches v i name k') ∧
        at_ v ∅ ∅ L (<[ip := j]> t) m s' ∧ i_dev j = ROOTDEV ∧ i_inum j = de_inum (ent v i k) ∧ referenced t ip j
    end) s.
Proof using Hgeo.
  intros Hat Hd Hi Hp Hroom. unfold dirlookup. apply wp_bind. eapply wp_ig; [done..|].
  apply wp_bind, wp_panic_if; [by rewrite (do_type _ _ Hd), Z.eqb_refl|].
  apply wp_bind. eapply wp_ig; [done..|].
  apply (wp_for_loop (λ k s', at_ v ∅ ∅ L t m s' ∧ ∀ k', 0 ≤ k' < k → ¬ matches v i name k')).
  - split; [done|lia].
  - intros k s1 Hk [H1 Hno]. apply wp_bind. eapply wp_mono; [eapply read_dirent_spec; try done; lia|].
    intros e s2 [-> H2]. destruct (Z.eqb_spec (de_inum (ent v i k)) 0) as [E0|E0].
    + apply wp_ret. split; [done|]. intros k' Hk' Hm. destruct (decide (k' = k)) as [->|].
      * by destruct Hm.
      * apply (Hno k'); [lia|done].
    + pose proof (namecmp_zero name (ent v i k) Hp (length_ent_name v i k)) as Hcmp.
      destruct (Z.eqb_spec (namecmp name (de_name (ent v i k))) 0) as [Ec|Ec].
      * assert (matches v i name k) as Hm by (split; [done|by apply Hcmp]).
        apply wp_bind. eapply wp_ig; [done..|]. rewrite (do_dev _ _ Hd). apply wp_bind.
        eapply wp_mono; [eapply iget_spec; [done|by apply Hroom; [lia|]]|]. intros ip s3 (j & H3 & Hjd & Hji & Hip).
        apply wp_ret. exists k, j. split_and!; try done; lia.
      * apply wp_ret. split; [done|]. intros k' Hk' Hm. destruct (decide (k' = k)) as [->|].
        -- apply Ec, Hcmp, Hm.
        -- apply (Hno k'); [lia|done].
  - intros s1 [H1 Hno]. split; [done|]. intros k Hk. apply Hno. lia.
Qed.

(** The entry a write of sixteen bytes at slot [k0] leaves in slot [k]. *)
Lemma ent_patched v i v' i' k0 l k :
  patched v i v' i' (k0 * sizeof_dirent) l → 0 ≤ k → (k + 1) * sizeof_dirent ≤ MAXFILE * BSIZE →
  (length l ≤ 16)%nat → 0 ≤ k0 → k ≠ k0 ∨ l = [] → ent v' i' k = ent v i k.
Proof using Type.
  clear Hgeo. change sizeof_dirent with 16. intros Hp Hk Hmax Hl Hk0 Hne. unfold ent. f_equal.
  apply fread_ext. change sizeof_dirent with 16. intros j Hj. rewrite Hp by lia. rewrite decide_False; [done|].
  destruct Hne as [Hne| ->]; simpl; lia.
Qed.

(** What [dirlink] may assume: the directory is well-formed and has no entry
    with the name, it is referenced, an entry more fits the file, the transaction
    has room and so has the inode table. *)
Record linkable v i L t m dp name (inum : Z) s : Prop := {
  lk_at : at_ v ∅ ∅ L t m s;
  lk_dir : dir_ok v i;
  lk_dp : t !! dp = Some i;
  lk_ref : 0 < i_ref i;
  lk_name : proper name;
  lk_absent : ∀ k, 0 ≤ k < Z.of_nat (nentries (i_size i)) → ¬ matches v i name k;
  lk_inum : 1 ≤ inum < 2 ^ 16;
  lk_size : i_size i + sizeof_dirent ≤ MAXFILE * BSIZE;
  lk_log : (size L + 10 ≤ logcap)%nat;
  lk_room : has_room t inum;
}.

Lemma nblk_dirent off : (nblk off sizeof_dirent ≤ 2)%nat.
Proof using Type.
  clear Hgeo. unfold nblk. change (sizeof_dirent =? 0) with false. cbn match. change sizeof_dirent with 16.
  change BSIZE with 1024. assert ((off + 16 - 1) / 1024 ≤ (off + 1 * 1024) / 1024) by (apply Z.div_le_mono; lia).
  rewrite Z.div_add in H by lia. lia.
Qed.

(** [dirlink] writes the entry to a slot: a free one or the next after the last. *)
Lemma dirlink_spec v i L t m dp name inum s :
  linkable v i L t m dp name inum s →
  wp (dirlink ucopyout ucopyin dp name inum) (λ r s', ∃ k0 w v' i' L',
    0 ≤ k0 ≤ Z.of_nat (nentries (i_size i)) ∧
    (k0 < Z.of_nat (nentries (i_size i)) → de_inum (ent v i k0) = 0) ∧ r = (if negb (w =? sizeof_dirent) then -1 else 0) ∧
    written x pid v i L t m dp (k0 * sizeof_dirent) sizeof_dirent
      (dirent_bytes (Dirent (u16 inum) (field (Z.to_nat DIRSIZ) name))) w s' v' i' L') s.
Proof using Hgeo.
  intros [Hat Hd Hi Href Hp Hno Hin Hsz HL Hroom]. pose proof Hd as [].
  pose proof (nentries_size i ltac:(lia) do_align0) as Hn.
  unfold dirlink. apply wp_bind. eapply wp_mono.
  { eapply dirlookup_spec; try done. intros k Hk Hm. by destruct (Hno k Hk). }
  intros [[ip off]|] s1; [intros (k & j & _ & Hk & Hm & _); by destruct (Hno k Hk)|]. intros [H1 _].
  apply wp_bind. eapply wp_ig; [done..|].
  apply (wp_seq _ _ (λ o s2, at_ v ∅ ∅ L t m s2 ∧ ∃ k0, 0 ≤ k0 ≤ Z.of_nat (nentries (i_size i)) ∧
    (k0 < Z.of_nat (nentries (i_size i)) → de_inum (ent v i k0) = 0) ∧
    default (Z.of_nat (nentries (i_size i)) * sizeof_dirent) o = k0 * sizeof_dirent)).
  - apply (wp_for_loop (λ _ s2, at_ v ∅ ∅ L t m s2)); [done| |].
    + intros k s2 Hk H2. apply wp_bind. eapply wp_mono; [eapply read_dirent_spec; try done; lia|].
      intros e s3 [-> H3]. apply wp_ret. destruct (Z.eqb_spec (de_inum (ent v i k)) 0) as [E0|]; [|done].
      split; [done|]. exists k. split_and!; [lia|lia|done|reflexivity].
    + intros s2 H2. split; [done|]. eexists. split_and!; [| | |reflexivity]; lia.
  - intros o s2 (H2 & k0 & Hk0 & Hfree & ->). apply wp_bind. pose proof (nblk_dirent (k0 * sizeof_dirent)) as Hnb.
    change (MAXFILE * BSIZE) with 274432 in *. change sizeof_dirent with 16 in *.
    eapply wp_mono; [eapply (writei_spec ucopyin x pid Hgeo v i L t m dp (k0 * 16)); try done|].
    + lia.
    + change (MAXFILE * BSIZE) with 274432. lia.
    + change (MAXFILE * BSIZE) with 274432. lia.
    + split; [apply length_dirent_bytes|]. split; [lia|done].
    + lia.
    + intros w s3 (v' & i' & L' & HW). apply wp_ret. by exists k0, w, v', i', L'.
Qed.

(** The directory after [dirlink] has written [w] bytes to slot [k0]. *)
Lemma linked v i L t m dp name inum s s' k0 w v' i' L' :
  linkable v i L t m dp name inum s → 0 ≤ k0 ≤ Z.of_nat (nentries (i_size i)) →
  written x pid v i L t m dp (k0 * sizeof_dirent) sizeof_dirent
    (dirent_bytes (Dirent (u16 inum) (field (Z.to_nat DIRSIZ) name))) w s' v' i' L' →
  dir_ok v' i' ∧ (w = 0 ∨ w = sizeof_dirent) ∧
  (∀ k, 0 ≤ k < Z.of_nat (nentries (i_size i')) → matches v' i' name k ↔ w = sizeof_dirent ∧ k = k0) ∧
  (∀ k, 0 ≤ k < Z.of_nat (nentries (i_size i)) → k ≠ k0 ∨ w = 0 → ent v' i' k = ent v i k) ∧
  (w = sizeof_dirent → k0 < Z.of_nat (nentries (i_size i')) ∧ de_inum (ent v' i' k0) = inum ∧ entry_name (ent v' i' k0) = name) ∧
  (∀ k, 0 ≤ k < Z.of_nat (nentries (i_size i')) → k < Z.of_nat (nentries (i_size i)) ∨ w = sizeof_dirent ∧ k = k0) ∧
  i_size i ≤ i_size i'.
Proof using Hgeo.
  clear ucopyout ucopyin. intros [Hat [] Hi Href Hp Hno Hin Hsz HL Hroom] Hk0 [].
  pose proof (nentries_size i ltac:(lia) do_align0) as Hn.
  set (l := dirent_bytes _) in *. assert (length l = 16%nat) as Hl by apply length_dirent_bytes.
  change (MAXFILE * BSIZE) with 274432 in *. change BSIZE with 1024 in wr_cut. change sizeof_dirent with 16 in *.
  assert (w = 0 ∨ w = 16) as Hw.
  { destruct wr_cut as [|[|Hc]]; [by left|by right|]. pose proof (Z.div_mod (k0 * 16 + w) 1024 ltac:(lia)). lia. }
  assert (i_size i' = Z.max (i_size i) (k0 * 16 + w)) as Hs' by by rewrite wr_fields.
  assert (dir_ok v' i') as Hd'.
  { split; try done; try (rewrite wr_fields; done).
    - rewrite Hs'. change (MAXFILE * BSIZE) with 274432. lia.
    - rewrite Hs'. change sizeof_dirent with 16. destruct (Z.max_spec (i_size i) (k0 * 16 + w)) as [[_ ->]|[_ ->]]; [|done].
      destruct Hw as [-> | ->]; [rewrite Z.add_0_r; apply Z.mod_mul; lia|].
      replace (k0 * 16 + 16) with ((k0 + 1) * 16) by lia. apply Z.mod_mul. lia. }
  pose proof (nentries_size i' ltac:(lia) (do_align _ _ Hd')) as Hn'. change sizeof_dirent with 16 in Hn'.
  assert (∀ k, 0 ≤ k < Z.of_nat (nentries (i_size i')) → k ≠ k0 ∨ w = 0 → ent v' i' k = ent v i k) as Hsame.
  { intros k Hk Hne. eapply (ent_patched v i v' i' k0); [exact wr_bytes|lia| | |lia|].
    - change (MAXFILE * BSIZE) with 274432. change sizeof_dirent with 16. lia.
    - rewrite length_take. lia.
    - destruct Hne as [| ->]; [by left|by right]. }
  assert (w = 16 → de_inum (ent v' i' k0) = inum ∧ entry_name (ent v' i' k0) = name) as Hnew.
  { intros ->. unfold ent. change sizeof_dirent with 16. change (Z.to_nat 16) with 16%nat in wr_bytes.
    rewrite take_ge in wr_bytes by lia.
    pose proof (patched_fread _ _ _ _ _ _ wr_bytes ltac:(lia)) as Hf. rewrite Hl in Hf.
    rewrite Hf by (change (MAXFILE * BSIZE) with 274432; lia). apply dirent_roundtrip; [lia|done]. }
  split_and!; [done|done|..].
  - intros k Hk. split.
    + intros Hm. destruct (decide (k ≠ k0 ∨ w = 0)) as [Hne|]; [|destruct Hw; [naive_solver|]; split; [done|lia]].
      exfalso. unfold matches in Hm. rewrite Hsame in Hm by done. apply (Hno k); [|done]. lia.
    + intros [Hw' ->]. destruct (Hnew Hw') as [E1 E2]. split; [lia|done].
  - intros k Hk Hne. apply Hsame; [lia|done].
  - intros Hw'. split; [lia|by apply Hnew].
  - intros k Hk. destruct Hw as [-> | ->]; lia.
  - lia.
Qed.

Lemma has_room_insert t dp i i' inum : t !! dp = Some i →
  i_ref i' = i_ref i → i_dev i' = i_dev i → i_inum i' = i_inum i → has_room t inum → has_room (<[dp := i']> t) inum.
Proof using Type.
  clear Hgeo. intros Hi Hr Hd Hn. unfold has_room. rewrite (iget_scan_key _ _ t (<[dp := i']> t)); [done|].
  apply Forall2_same_length_lookup_2; [by rewrite length_insert|]. intros j a b Ha Hb.
  destruct (decide (j = dp)) as [->|].
  - rewrite list_lookup_insert_eq in Hb by by eapply lookup_lt_Some. simplify_eq. done.
  - rewrite list_lookup_insert_ne in Hb by done. simplify_eq. done.
Qed.

Lemma dir_ok_ref v i n : dir_ok v i → dir_ok v (set_ref n i).
Proof using Type. intros [[]]. split; [by split|done..]. Qed.
(** A referenced entry is still there after another reference was taken. *)
Lemma referenced_keeps t dp i ip j : t !! dp = Some i → 0 < i_ref i → referenced t ip j →
  ∃ n, <[ip := j]> t !! dp = Some (set_ref n i).
Proof using Type.
  clear Hgeo. intros Hi Href (i0 & Hi0 & Hj). destruct (decide (ip = dp)) as [->|Hne].
  - replace i0 with i in * by congruence. destruct Hj as [->|]; [|lia]. eexists. apply list_lookup_insert_eq. by eapply lookup_lt_Some.
  - rewrite list_lookup_insert_ne by done. exists (i_ref i). rewrite Hi. by destruct i.
Qed.

(** C15. What is linked is found.  Once [dirlink] has entered a name with an inode
    number, [dirlookup] of the name returns an entry of the inode table for
    that number, and the offset it reports is that of the new entry.  The inode
    [i'] of the directory afterwards has this entry and those it had before, each
    in its place, and no others, but for unused ones.  [dirlink] fails only when
    the disk has no free block; then the entries are those of before and the name
    is not found. *)
Theorem dirlink_dirlookup v i L t m dp name inum s :
  linkable v i L t m dp name inum s →
  wp (r ← dirlink ucopyout ucopyin dp name inum;
      o ← dirlookup ucopyout dp name;
      mret (r, o))
    (λ '(r, o) s', ∃ v' i' L' t', at_ v' ∅ ∅ L' t' m s' ∧ t' !! dp = Some i' ∧ dir_ok v' i' ∧ i_inum i' = i_inum i ∧
       i_size i ≤ i_size i' ∧
       match o with
       | Some (ip, off) => r = 0 ∧ (∃ j, t' !! ip = Some j ∧ i_dev j = ROOTDEV ∧ i_inum j = inum) ∧
           ∃ k0, off = k0 * sizeof_dirent ∧ 0 ≤ k0 < Z.of_nat (nentries (i_size i')) ∧
             (k0 < Z.of_nat (nentries (i_size i)) → de_inum (ent v i k0) = 0) ∧
             de_inum (ent v' i' k0) = inum ∧ entry_name (ent v' i' k0) = name ∧
             ∀ k, 0 ≤ k < Z.of_nat (nentries (i_size i')) → k ≠ k0 →
               k < Z.of_nat (nentries (i_size i)) ∧ ent v' i' k = ent v i k
       | None => r = -1 ∧ full x v' ∧
           ∀ k, 0 ≤ k < Z.of_nat (nentries (i_size i')) → k < Z.of_nat (nentries (i_size i)) ∧ ent v' i' k = ent v i k
       end) s.
Proof using Hgeo.
  intros HL. apply wp_bind. eapply wp_mono; [by eapply dirlink_spec|].
  intros r s1 (k0 & w & v' & i' & L' & Hk0 & Hfree & -> & HW).
  destruct (linked _ _ _ _ _ _ _ _ _ _ _ _ _ _ _ HL Hk0 HW) as (Hd' & Hw & Hm & Hsame & Hnew & Hall & Hgrow).
  destruct HL as [Hat Hd Hi Href Hp Hno Hin Hsz HLs Hroom]. destruct HW.
  assert (<[dp := i']> t !! dp = Some i') as Hdp by by (apply list_lookup_insert_eq; eapply lookup_lt_Some).
  assert (i_inum i' = i_inum i ∧ i_ref i' = i_ref i) as [Enum Eref] by by rewrite wr_fields.
  assert (has_room (<[dp := i']> t) inum) as Hroom' by (eapply has_room_insert; try done; by rewrite wr_fields).
  apply wp_bind. eapply wp_mono.
  { eapply dirlookup_spec; [exact wr_at|done|exact Hdp|done|].
    intros k Hk [Hw' ->]%(Hm k Hk). destruct (Hnew Hw') as (_ & -> & _). done. }
  intros [[ip off]|] s2.
  - intros (k & j & -> & Hk & Hmk & _ & H2 & Hjd & Hji & Hip). apply wp_ret.
    apply (Hm k Hk) in Hmk as [Hw' ->]. destruct (Hnew Hw') as (Hlt & E1 & E2).
    destruct (referenced_keeps _ _ _ _ _ Hdp ltac:(lia) Hip) as [n Hdp2].
    eexists v', (set_ref n i'), L', _. split_and!; [exact H2|exact Hdp2|by apply dir_ok_ref|done|done|by rewrite Hw'| |].
    { exists j. destruct Hip as (i0 & Hi0 & _). split_and!; [apply list_lookup_insert_eq; by eapply lookup_lt_Some|done|congruence]. }
    exists k0. split_and!; [done|lia|exact Hlt|exact Hfree|done|done|]. intros k Hk2 Hne. change (i_size (set_ref n i')) with (i_size i') in Hk2.
    destruct (Hall k Hk2) as [Hlt2|[_ ?]]; [|done]. split; [done|]. by apply Hsame; [lia|left].
  - intros [H2 Hnone]. apply wp_ret.
    assert (w = 0) as Hw0.
    { destruct Hw as [|Hw']; [done|]. exfalso. destruct (Hnew Hw') as (Hlt & _). apply (Hnone k0); [lia|]. apply Hm; [lia|done]. }
    eexists v', i', L', _. split_and!; [exact H2|exact Hdp|done|done|done|by rewrite Hw0|by apply wr_full; rewrite Hw0|].
    intros k Hk. destruct (Hall k Hk) as [Hlt2|[? _]]; [|by rewrite Hw0 in *]. split; [done|].
    by apply Hsame; [lia|right].
Qed.
End dir.

(** An empty directory on the disk of [mkfs]. *)
Module EmptyDir.
#[local] Existing Instances RamDisk.ram_store RamDisk.ram_spec.
Definition d0 : inode := Inode ROOTDEV 2 1 initsleeplock true T_DIR 0 0 1 0 (replicate 13 0).
Definition t0 : list inode := [d0; Inode 0 0 0 initsleeplock false 0 0 0 0 0 (replicate 13 0)].
Definition s0 : fst (Z → block) unit := Fst RamDisk.v0 mkfs_sb t0 tt.
(** The name a in the directory, for inode 3. *)
Lemma linkable0 : linkable mkfs_sb 1 RamDisk.v0 d0 ∅ t0 tt 0 [97] 3 s0.
Proof.
  split; try done; try (vm_compute; lia).
  - split; try done. apply RamDisk.at0.
  - split; try done; try (vm_compute; lia).
    + by apply RamDisk.FInv0.
    + intros k Hk Hlt. change (i_size d0) with 0 in Hlt. change BSIZE with 1024 in Hlt. lia.
  - split; [by repeat constructor|simpl; lia].
  - intros k Hk. change (nentries (i_size d0)) with 0%nat in Hk. lia.
Qed.
End EmptyDir.

#[local] Existing Instances RamDisk.ram_store RamDisk.ram_spec.
(** The directory has one entry then, with the name a and the number 3, or the disk
    is full. *)
Lemma dirlink_dirlookup_witness :
  wp (r ← dirlink RamDisk.nocopyout RamDisk.nocopyin 0 [97] 3;
      o ← dirlookup RamDisk.nocopyout 0 [97];
      mret (r, o))
    (λ '(r, o) s', ∃ v' i', itable s' !! 0%nat = Some i' ∧
       match o with
       | Some (ip, off) => r = 0 ∧ off = 0 ∧ nentries (i_size i') = 1%nat ∧ de_inum (ent v' i' 0) = 3 ∧ entry_name (ent v' i' 0) = [97] ∧
           i_inum <$> itable s' !! ip = Some 3
       | None => r = -1 ∧ full mkfs_sb v'
       end) EmptyDir.s0.
Proof.
  eapply wp_mono; [exact (dirlink_dirlookup _ _ mkfs_sb 1 geo_mkfs _ _ _ _ _ _ _ _ _ EmptyDir.linkable0)|].
  intros [r o] s' (v' & i' & L' & t' & Hat & Hi & _ & _ & _ & Ho). exists v', i'. rewrite (at_table _ _ _ _ _ _ _ _ _ Hat). split; [done|].
  destruct o as [[ip off]|]; [|by destruct Ho as (-> & Hf & _)].
  destruct Ho as (-> & (j & Hj & _ & Ej) & k0 & -> & Hk & _ & E1 & E2 & Hk2). rewrite Hj. change (nentries (i_size EmptyDir.d0)) with 0%nat in Hk2.
  assert (k0 = 0) as ->. { destruct (decide (k0 = 0)); [done|]. destruct (Hk2 0); lia. }
  split_and!; [done|done| |done|done|by rewrite <- Ej].
  destruct (decide (nentries (i_size i') = 1%nat)); [done|]. destruct (Hk2 1); lia.
Defined.
