(* ===== verification/Mkfs.v ===== *)
(** * The file system image ([mkfs/mkfs.c])

    The image is an array of [FSSIZE] sectors; a [die] or a failed assertion is the
    outcome [Panic].  A file of the host that [mkfs] is given is its path and what
    the calls of [read] return, or nothing when it cannot be opened.  [struct
    dinode] is its 64 bytes. *)

From S2P Require Import Prelude Word Param Bio Str Fs.

Record mk := Mk { img : Z → block; freeinode : Z; freeblock : Z }.
Definition set_img (v : Z → block) (s : mk) : mk := Mk v (freeinode s) (freeblock s).
Definition set_freeinode (n : Z) (s : mk) : mk := Mk (img s) n (freeblock s).
Definition set_freeblock (n : Z) (s : mk) : mk := Mk (img s) (freeinode s) n.

(** The bytes in memory order, read again as an integer. *)
Definition xshort (x : Z) : Z := of_le [u8 x; u8 (x / 2 ^ 8)].
Definition xint (x : Z) : Z := of_le [u8 x; u8 (x / 2 ^ 8); u8 (x / 2 ^ 16); u8 (x / 2 ^ 24)].

Definition wsect (sec : Z) (buf : block) : K mk unit := modify (λ s, set_img (<[sec := buf]> (img s)) s).
(** A read past the end of the image is short. *)
Definition rsect (sec : Z) : K mk block :=
  panic_if (negb (sec <? FSSIZE)) "read";;
  gets (λ s, img s sec).

Definition winode (inum : Z) (ip : list Z) : K mk unit :=
  let bn := IBLOCK inum mkfs_sb in
  buf ← rsect bn;
  wsect bn (splice buf (dinode_off inum) ip).
Definition rinode (inum : Z) : K mk (list Z) :=
  let bn := IBLOCK inum mkfs_sb in
  buf ← rsect bn;
  mret (slice buf (dinode_off inum) (Z.to_nat sizeof_dinode)).

(** Fields of [struct dinode]. *)
Definition din_size : nat := 8.
Definition din_addr (k : Z) : nat := Z.to_nat (12 + 4 * k).

Definition ialloc (type : Z) : K mk Z :=
  inum ← gets freeinode;
  modify (set_freeinode (u32 (inum + 1)));;
  let din := replicate (Z.to_nat sizeof_dinode) 0 in
  let din := put16 din 0 (xshort type) in
  let din := put16 din 6 (xshort 1) in
  let din := put32 din din_size (xint 0) in
  winode inum din;;
  mret inum.

(** The free map with the first [n] bits set. *)
Fixpoint used_map (n : nat) : block :=
  match n with
  | O => zero_block
  | S m => bit_set (used_map m) (Z.of_nat m)
  end.
Definition balloc (used : Z) : K mk unit :=
  panic_if (negb (used <? BPB)) "assert";;
  wsect (sb_bmapstart mkfs_sb) (used_map (Z.to_nat used)).

(** [freeblock++] *)
Definition next_block : K mk Z :=
  b ← gets freeblock;
  modify (set_freeblock (u32 (b + 1)));;
  mret b.

(** The sector of block [fbn] of the file, allocated if there is none. *)
Definition block_for (din : list Z) (fbn : Z) : K mk (list Z * Z) :=
  if fbn <? NDIRECT then
    din ← (if xint (get32 din (din_addr fbn)) =? 0
           then b ← next_block; mret (put32 din (din_addr fbn) (xint b))
           else mret din);
    mret (din, xint (get32 din (din_addr fbn)))
  else
    din ← (if xint (get32 din (din_addr NDIRECT)) =? 0
           then b ← next_block; mret (put32 din (din_addr NDIRECT) (xint b))
           else mret din);
    let ind := xint (get32 din (din_addr NDIRECT)) in
    let o := Z.to_nat (4 * (fbn - NDIRECT)) in
    indirect ← rsect ind;
    indirect ← (if get32 indirect o =? 0
                then b ← next_block;
                     let indirect := put32 indirect o (xint b) in
                     wsect ind indirect;; mret indirect
                else mret indirect);
    mret (din, xint (get32 indirect o)).

Definition append_step : list Z * Z * list Z → K mk ((list Z * Z * list Z) + (list Z * Z)) := λ '(din, off, p),
  if bool_decide (p = []) then mret (inr (din, off))
  else
    let fbn := off / BSIZE in
    panic_if (negb (fbn <? MAXFILE)) "assert";;
    '(din, x) ← block_for din fbn;
    let n1 := Z.min (Z.of_nat (length p)) ((fbn + 1) * BSIZE - off) in
    buf ← rsect x;
    wsect x (splice buf (Z.to_nat (off - fbn * BSIZE)) (take (Z.to_nat n1) p));;
    mret (inl (din, u32 (off + n1), drop (Z.to_nat n1) p)).
Definition iappend (inum : Z) (p : list Z) : K mk unit :=
  din ← rinode inum;
  '(din, off) ← while_loop (S (length p)) (din, xint (get32 din din_size), p) append_step;
  winode inum (put32 din din_size (xint off)).

(** ** [main] *)
Definition sb_bytes (sb : superblock) : list Z :=
  le_bytes 4 (sb_magic sb) ++ le_bytes 4 (xint (sb_size sb)) ++ le_bytes 4 (xint (sb_nblocks sb)) ++
  le_bytes 4 (xint (sb_ninodes sb)) ++ le_bytes 4 (xint (sb_nlog sb)) ++ le_bytes 4 (xint (sb_logstart sb)) ++
  le_bytes 4 (xint (sb_inodestart sb)) ++ le_bytes 4 (xint (sb_bmapstart sb)).

Definition SLASH : Z := 47.
Definition UNDERSCORE : Z := 95.
Definition USER : list Z := [117; 115; 101; 114; 47].
(** Up to the check that there is no slash, and the rest. *)
Definition short (path : list Z) : list Z :=
  if bool_decide (take 5 path = USER) then drop 5 path else path.
Definition skip_underscore (name : list Z) : list Z :=
  match name with
  | c :: l => if c =? UNDERSCORE then l else name
  | [] => name
  end.
(** [bzero(&de)], the inode number and the name. *)
Definition dirent_for (inum : Z) (name : list Z) : list Z := le_bytes 2 (xshort inum) ++ field (Z.to_nat DIRSIZ) name.

Fixpoint iappends (inum : Z) (l : list (list Z)) : K mk unit :=
  match l with
  | [] => mret tt
  | p :: l => iappend inum p;; iappends inum l
  end.
Definition hostfile : Type := list Z * option (list (list Z)).
Definition add_file (rootino : Z) (f : hostfile) : K mk unit :=
  let shortname := short f.1 in
  panic_if (bool_decide (SLASH ∈ shortname)) "assert";;
  match f.2 with
  | None => panic "open"
  | Some chunks =>
      let shortname := skip_underscore shortname in
      panic_if (negb (Z.of_nat (length shortname) <=? DIRSIZ)) "assert";;
      inum ← ialloc T_FILE;
      iappend rootino (dirent_for inum shortname);;
      iappends inum chunks
  end.
Fixpoint add_files (rootino : Z) (l : list hostfile) : K mk unit :=
  match l with
  | [] => mret tt
  | f :: l => add_file rootino f;; add_files rootino l
  end.

Definition DOT : list Z := [46].
Definition DOTDOT : list Z := [46; 46].
(** From the opening of the image on. *)
Definition main (files : list hostfile) : K mk unit :=
  modify (set_freeblock nmeta);;
  modify (set_img (λ _, zero_block));;
  wsect 1 (splice zero_block 0 (sb_bytes mkfs_sb));;
  rootino ← ialloc T_DIR;
  panic_if (negb (rootino =? ROOTINO)) "assert";;
  iappend rootino (dirent_for rootino DOT);;
  iappend rootino (dirent_for rootino DOTDOT);;
  add_files rootino files;;
  din ← rinode rootino;
  let off := xint (get32 din din_size) in
  let off := u32 ((off / BSIZE + 1) * BSIZE) in
  winode rootino (put32 din din_size (xint off));;
  used ← gets freeblock;
  balloc used.
