(* ===== verification/MkfsSpec.v ===== *)
(** * The image that [mkfs] makes

    The image is a well-formed file system in the sense of the kernel's own
    invariants ([FInv] of [FsInode], [dir_ok] of [FsDir]), with the files it was
    given. *)

From S2P Require Import Prelude Word Param Bio Str Fs FsSpec FsBlock FsInode FsFile FsWrite FsDir Mkfs.

Ltac mlia :=
  change NDIRECT with 12 in *; change MAXFILE with 268 in *; change BSIZE with 1024 in *;
  change FSSIZE with 2000 in *; change nmeta with 46 in *; lia.

(** ** Bytes *)
Lemma xint_u32 x : xint x = u32 x.
Proof.
  transitivity (of_le (le_bytes 4 x)); [|apply (of_le_le_bytes 4)]. unfold xint, u8, wrap. cbn [le_bytes].
  rewrite !Z.div_div by lia. done.
Qed.
Lemma xshort_u16 x : xshort x = u16 x.
Proof. transitivity (of_le (le_bytes 2 x)); [done|apply (of_le_le_bytes 2)]. Qed.

Lemma slice_slice l o n o' n' : (o' + n' ≤ n)%nat → slice (slice l o n) o' n' = slice l (o + o') n'.
Proof.
  intros H. apply list_eq. intros i. rewrite !lookup_slice. case_decide; [|done].
  rewrite decide_True by lia. f_equal. lia.
Qed.
Lemma getn_slice n l o m off : (off + n ≤ m)%nat → getn n (slice l o m) off = getn n l (o + off).
Proof. intros H. Local Transparent getn. unfold getn. Local Opaque getn. by rewrite slice_slice. Qed.
Lemma get32_put32_same d o x : (o + 4 ≤ length d)%nat → get32 (put32 d o x) o = u32 x.
Proof. intros. by rewrite getn_putn_same. Qed.

(** ** A dinode as the kernel loads it *)
Definition node (inum : Z) (din : list Z) : inode :=
  Inode ROOTDEV inum 1 initsleeplock true (s16 (get16 din 0)) (s16 (get16 din 2)) (s16 (get16 din 4)) (s16 (get16 din 6))
    (get32 din din_size) ((λ k : nat, get32 din (12 + 4 * k)) <$> seq 0 13).

Lemma node_direct inum din k : 0 ≤ k ≤ NDIRECT → direct (node inum din) k = get32 din (din_addr k).
Proof.
  intros Hk. unfold direct, node. cbn [i_addrs].
  rewrite list_lookup_total_alt, list_lookup_fmap, lookup_seq_lt by mlia. simpl. f_equal. unfold din_addr. lia.
Qed.
Lemma din_addr_bound k : 0 ≤ k ≤ NDIRECT → (din_addr k + 4 ≤ 64)%nat.
Proof. intros. unfold din_addr. mlia. Qed.

(** Assigning a block address. *)
Definition with_addr (din : list Z) (k b : Z) : list Z := put32 din (din_addr k) (xint b).
Lemma with_addr_direct inum din k b j :
  length din = 64%nat → 0 ≤ k ≤ NDIRECT → 0 ≤ j ≤ NDIRECT → 0 ≤ b < 2 ^ 32 →
  direct (node inum (with_addr din k b)) j = if decide (j = k) then b else direct (node inum din) j.
Proof.
  intros Hl Hk Hj Hb. rewrite !node_direct by done. unfold with_addr. case_decide as E.
  - subst. rewrite get32_put32_same by (rewrite Hl; by apply din_addr_bound).
    rewrite xint_u32. unfold u32. rewrite wrap_wrap by lia. by apply wrap_small.
  - apply getn_putn_ne; [rewrite Hl; by apply din_addr_bound|]. unfold din_addr. lia.
Qed.
Lemma length_with_addr din k b : length din = 64%nat → 0 ≤ k ≤ NDIRECT → length (with_addr din k b) = 64%nat.
Proof. intros Hl Hk. unfold with_addr. rewrite length_putn; [done|]. rewrite Hl. by apply din_addr_bound. Qed.
(** The fields before the addresses. *)
Lemma with_addr_header n din k b off :
  length din = 64%nat → 0 ≤ k ≤ NDIRECT → (off + n ≤ 12)%nat → getn n (with_addr din k b) off = getn n din off.
Proof.
  intros Hl Hk Ho. unfold with_addr. apply getn_putn_ne; [rewrite Hl; by apply din_addr_bound|]. unfold din_addr. lia.
Qed.

Lemma blk_range o : 0 ≤ o < MAXFILE * BSIZE → 0 ≤ o / BSIZE < MAXFILE.
Proof.
  change BSIZE with 1024. change MAXFILE with 268. intros H. split; [apply Z.div_pos; lia|apply Z.div_lt_upper_bound; lia].
Qed.

(** ** Files under construction *)
Implicit Types (v : Z → block) (i : inode) (c : list Z) (fb n : Z).

(** Every sector has its size, and those from [fb] on are still zero. *)
Record clear_from v fb : Prop := {
  cf_len : ∀ b, length (v b) = Z.to_nat BSIZE;
  cf_zero : ∀ b, fb ≤ b < FSSIZE → v b = zero_block;
  cf_meta : nmeta ≤ fb;
}.

(** The file [i] has its first [n] blocks, and contains [c] and then zeros. *)
Record holds v fb i n c : Prop := {
  ho_len : length (i_addrs i) = 13%nat;
  ho_n : 0 ≤ n ≤ MAXFILE;
  ho_fit : Z.of_nat (length c) ≤ n * BSIZE;
  ho_ind : ind i ≠ 0 ↔ NDIRECT < n;
  ho_indr : ind i ≠ 0 → nmeta ≤ ind i < fb;
  ho_slot : ∀ k, 0 ≤ k < MAXFILE → slot v i k ≠ 0 ↔ k < n;
  ho_slotr : ∀ k, 0 ≤ k < MAXFILE → slot v i k ≠ 0 → nmeta ≤ slot v i k < fb ∧ slot v i k ≠ ind i;
  ho_inj : ∀ k k', 0 ≤ k < MAXFILE → 0 ≤ k' < MAXFILE → slot v i k ≠ 0 → slot v i k = slot v i k' → k = k';
  ho_byte : ∀ o, 0 ≤ o < MAXFILE * BSIZE → fbyte v i o = default 0 (c !! Z.to_nat o);
}.

(** Blocks of a file with [n] blocks of contents. *)
Definition cost (n : Z) : Z := n + if NDIRECT <? n then 1 else 0.

(** Between two states of building the file [i]. *)
Record built v fb i v' fb' i' : Prop := {
  bu_fb : fb ≤ fb';
  bu_frame : ∀ b, b < fb → ¬ owned v i b → v' b = v b;
  bu_owned : ∀ b, owned v' i' b → owned v i b ∨ fb ≤ b < fb';
}.

Lemma built_refl v fb i : built v fb i v fb i.
Proof. split; [lia|done|by left]. Qed.
Lemma built_trans v1 fb1 i1 v2 fb2 i2 v3 fb3 i3 :
  built v1 fb1 i1 v2 fb2 i2 → built v2 fb2 i2 v3 fb3 i3 → built v1 fb1 i1 v3 fb3 i3.
Proof.
  intros [A1 A2 A3] [B1 B2 B3]. split; [lia|..].
  - intros b Hb Hn. rewrite B2, A2; [done|done|done|lia|]. intros [?|?]%A3; [done|lia].
  - intros b [Ho|?]%B3; [|right; lia]. destruct (A3 _ Ho); [by left|right; lia].
Qed.

Lemma slot_ext v v' i k : (ind i ≠ 0 → v' (ind i) = v (ind i)) → slot v' i k = slot v i k.
Proof.
  intros H. unfold slot. destruct (k <? NDIRECT); [done|]. destruct (Z.eqb_spec (ind i) 0); [done|]. by rewrite H.
Qed.

(** A file is not concerned by changes of blocks that it does not have. *)
Lemma holds_ext v fb i n c v' fb' :
  holds v fb i n c → fb ≤ fb' → (∀ b, owned v i b → v' b = v b) →
  holds v' fb' i n c ∧ (∀ b, owned v' i b ↔ owned v i b).
Proof.
  intros [H1 H2 H3 H4 H5 H6 H7 H8 H9] Hfb Hv.
  assert (∀ k, slot v' i k = slot v i k) as Hs.
  { intros k. apply slot_ext. intros Hi. apply Hv. split; [done|by left]. }
  assert (∀ b, owned v' i b ↔ owned v i b) as Ho by (intros b; unfold owned; by setoid_rewrite Hs).
  split; [|done]. split; try done.
  - intros Hi. specialize (H5 Hi). lia.
  - intros k Hk. by rewrite Hs, H6.
  - intros k Hk. rewrite Hs. intros Hk'. destruct (H7 k Hk Hk'). split; [lia|done].
  - intros k k' Hk Hk'. rewrite !Hs. by apply H8.
  - intros o Ho'. rewrite <-H9 by done. unfold fbyte, fblock. rewrite Hs.
    destruct (Z.eqb_spec (slot v i (o / BSIZE)) 0); [done|]. rewrite Hv; [done|]. split; [done|]. right.
    exists (o / BSIZE). split; [by apply blk_range|done].
Qed.

(** ** Allocation *)
(** Position [n] of the file gets the block [a], entered in the inode or in the
    indirect block [ind i'], which may be new as well. *)
Section alloc.
Context v fb i n c v' fb' i' (a : Z).
Hypothesis (Hh : holds v fb i n c) (Hc : clear_from v fb) (Hn : n < MAXFILE) (Hlen : length (i_addrs i') = 13%nat).
Hypothesis Hslot : ∀ k, 0 ≤ k < MAXFILE → slot v' i' k = if decide (k = n) then a else slot v i k.
Hypothesis Hind : (ind i' = ind i ∧ (ind i ≠ 0 → ind i < fb)) ∨ (ind i = 0 ∧ fb ≤ ind i' < fb').
Hypothesis Hiff : ind i' ≠ 0 ↔ NDIRECT < n + 1.
Hypothesis (Ha : fb ≤ a < fb') (Hfb : fb' ≤ FSSIZE) (Hai : a ≠ ind i').
Hypothesis Hv : ∀ b, b ≠ ind i' ∨ ind i' = 0 → v' b = v b.
Hypothesis Hl : ∀ b, length (v' b) = Z.to_nat BSIZE.

Lemma alloc_fresh k : 0 ≤ k < MAXFILE → slot v i k ≠ 0 → nmeta ≤ slot v i k < fb ∧ slot v i k ≠ ind i'.
Proof using All.
  intros Hk Hs. destruct (ho_slotr _ _ _ _ _ Hh k Hk Hs) as [Hr Hne]. split; [done|]. destruct Hind as [[-> _]|[_ ?]]; [done|lia].
Qed.
Lemma alloc_empty : slot v i n = 0.
Proof using All.
  destruct (decide (slot v i n = 0)) as [|Hne]; [done|]. apply (ho_slot _ _ _ _ _ Hh) in Hne; [lia|]. pose proof (ho_n _ _ _ _ _ Hh). lia.
Qed.

Lemma alloc_holds : holds v' fb' i' (n + 1) c.
Proof using All.
  pose proof Hh as [H1 H2 H3 H4 H5 H6 H7 H8 H9]. pose proof (cf_meta _ _ Hc) as Hm.
  assert (0 < nmeta) by done. split; try done.
  - lia.
  - change BSIZE with 1024 in *. lia.
  - intros Hne. destruct Hind as [[E Hi]|[_ ?]]; [|lia]. rewrite E in *. specialize (H5 Hne). lia.
  - intros k Hk. rewrite Hslot by done. case_decide; [lia|]. rewrite H6 by done. lia.
  - intros k Hk. rewrite Hslot by done. case_decide; [intros _; split; [lia|done]|].
    intros Hs. destruct (alloc_fresh k Hk Hs). split; [lia|done].
  - intros k k' Hk Hk'. rewrite !Hslot by done. repeat case_decide; subst; try done.
    + intros _ E. destruct (alloc_fresh k' Hk' ltac:(lia)). lia.
    + intros Hs E. destruct (alloc_fresh k Hk Hs). lia.
    + by apply H8.
  - intros o Ho. rewrite <-H9 by done. pose proof (blk_range o Ho) as Hk. unfold fbyte. f_equal. unfold fblock.
    rewrite Hslot by done. case_decide as E.
    + rewrite E, alloc_empty. rewrite (proj2 (Z.eqb_neq a 0)) by lia. rewrite Hv by (by left). apply (cf_zero _ _ Hc). lia.
    + destruct (Z.eqb_spec (slot v i (o / BSIZE)) 0) as [|Hs]; [done|]. apply Hv. left. by apply alloc_fresh.
Qed.

Lemma alloc_clear : clear_from v' fb'.
Proof using All.
  pose proof (cf_meta _ _ Hc). split; [done| |lia]. intros b Hb. rewrite Hv; [apply (cf_zero _ _ Hc); lia|].
  destruct (decide (ind i' = 0)); [by right|left]. destruct Hind as [[E Hi]|[_ ?]]; [|lia].
  rewrite E in *. specialize (Hi ltac:(done)). lia.
Qed.

Lemma alloc_built : built v fb i v' fb' i'.
Proof using All.
  split; [lia|..].
  - intros b Hb Hno. apply Hv. destruct (decide (ind i' = 0)); [by right|left]. intros ->.
    destruct Hind as [[E Hi]|[_ ?]]; [|lia]. apply Hno. rewrite E in *. split; [done|by left].
  - intros b [Hb [->|(k & Hk & <-)]].
    + destruct Hind as [[E _]|[_ ?]]; [left|by right]. rewrite E in *. split; [done|by left].
    + rewrite Hslot in * by done. case_decide; [by right|left]. split; [done|]. right. by exists k.
Qed.

Lemma alloc_all : holds v' fb' i' (n + 1) c ∧ clear_from v' fb' ∧ built v fb i v' fb' i'.
Proof using All. split_and!; [apply alloc_holds|apply alloc_clear|apply alloc_built]. Qed.
End alloc.

(** ** [block_for] *)
Definition same_header (din din' : list Z) : Prop := ∀ w off : nat, (off + w ≤ 12)%nat → getn w din' off = getn w din off.

Record grown_to (inum : Z) (din : list Z) n n' c (s : mk) (din' : list Z) (s' : mk) : Prop := {
  gt_len : length din' = 64%nat;
  gt_header : same_header din din';
  gt_holds : holds (img s') (freeblock s') (node inum din') n' c;
  gt_clear : clear_from (img s') (freeblock s');
  gt_built : built (img s) (freeblock s) (node inum din) (img s') (freeblock s') (node inum din');
  gt_fb : freeblock s' = freeblock s + cost n' - cost n;
  gt_inode : freeinode s' = freeinode s;
}.

Section block_for.
Context (inum : Z) (din : list Z) n c (s : mk).
Abbreviation i := (node inum din).
Abbreviation v := (img s).
Abbreviation fb := (freeblock s).
Hypothesis (Hlen : length din = 64%nat) (Hh : holds v fb i n c) (Hc : clear_from v fb) (Hfb : fb ≤ FSSIZE).

Lemma entered_slot (ib a : Z) (i1 : inode) k :
  NDIRECT ≤ n < MAXFILE → 0 ≤ k < MAXFILE → 0 < a < FSSIZE → ind i1 = ib → ib ≠ 0 →
  (∀ j, 0 ≤ j < NDIRECT → direct i1 j = direct i j) → ib = ind i ∨ (ind i = 0 ∧ v ib = zero_block) →
  slot (<[ib := put32 (v ib) (ind_off n) (xint a)]> v) i1 k = if decide (k = n) then a else slot v i k.
Proof using Hc.
  clear -Hc. intros Hn Hk Ha E Hne Hdir Hib. unfold slot. destruct (Z.ltb_spec k NDIRECT).
  { rewrite decide_False by lia. by apply Hdir; lia. }
  rewrite E. rewrite (proj2 (Z.eqb_neq _ 0)) by done. rewrite fn_lookup_insert.
  assert (ind_off n + 4 ≤ length (v ib))%nat as Hb by (rewrite (cf_len _ _ Hc); by apply ind_off_bound).
  case_decide as Ek.
  - subst k. rewrite get32_put32_same by done. rewrite xint_u32. unfold u32. rewrite wrap_wrap by lia. apply wrap_small. mlia.
  - rewrite getn_putn_ne; [|done|unfold ind_off; mlia]. destruct Hib as [Ei|[-> Ez]].
    + rewrite <-Ei. rewrite (proj2 (Z.eqb_neq _ 0)) by done. done.
    + rewrite Ez. apply getn_zero. apply ind_off_bound; lia.
Qed.

Lemma xint_small a : 0 ≤ a < FSSIZE → xint a = a.
Proof using Type. clear. intros Ha. rewrite xint_u32. apply wrap_small. mlia. Qed.
Lemma wp_next (Q : Z → mk → Prop) s1 : 0 ≤ freeblock s1 < FSSIZE → Q (freeblock s1) (set_freeblock (freeblock s1 + 1) s1) → wp next_block Q s1.
Proof using Type.
  clear. intros Hb HQ. unfold next_block. apply wp_bind, wp_gets, wp_bind, wp_modify, wp_ret.
  unfold u32. by rewrite wrap_small by mlia.
Qed.
Lemma wp_rsect b (Q : block → mk → Prop) s1 : b < FSSIZE → Q (img s1 b) s1 → wp (rsect b) Q s1.
Proof using Type.
  clear. intros Hb HQ. unfold rsect. apply wp_bind, wp_panic_if; [by rewrite (proj2 (Z.ltb_lt _ _))|]. by apply wp_gets.
Qed.
Lemma slot_small k : 0 ≤ k < MAXFILE → 0 ≤ slot v i k < FSSIZE.
Proof using All.
  intros Hk. destruct (decide (slot v i k = 0)) as [->|Hne]; [done|].
  pose proof (ho_slotr _ _ _ _ _ Hh k Hk Hne). assert (0 < nmeta) by done. lia.
Qed.
Lemma ind_small : 0 ≤ ind i < FSSIZE.
Proof using All.
  destruct (decide (ind i = 0)) as [->|Hne]; [done|]. pose proof (ho_indr _ _ _ _ _ Hh Hne). assert (0 < nmeta) by done. lia.
Qed.

(** The block is there. *)
Lemma block_for_hit fbn :
  0 ≤ fbn < n →
  wp (block_for din fbn) (λ r s', r = (din, slot v i fbn) ∧ s' = s) s.
Proof using All.
  intros Hf. pose proof (ho_n _ _ _ _ _ Hh) as Hn. assert (0 ≤ fbn < MAXFILE) as Hk by lia.
  pose proof (proj2 (ho_slot _ _ _ _ _ Hh fbn Hk) ltac:(lia)) as Hne. pose proof (slot_small _ Hk) as Hs.
  unfold block_for. unfold slot in *. destruct (Z.ltb_spec fbn NDIRECT) as [Hd|Hd].
  - rewrite node_direct in * by lia. rewrite xint_small by done. rewrite (proj2 (Z.eqb_neq _ 0)) by done.
    apply wp_bind, wp_ret, wp_ret. by rewrite xint_small.
  - destruct (Z.eqb_spec (ind i) 0) as [E|Hi]; [done|]. pose proof ind_small as Hsm. unfold ind in Hi, Hsm.
    rewrite node_direct in Hi, Hsm by mlia. fold (ind i) in *. rewrite xint_small by done. rewrite (proj2 (Z.eqb_neq _ 0)) by done.
    apply wp_bind, wp_ret. rewrite xint_small by done. cbv zeta. apply wp_bind, wp_rsect; [lia|].
    assert (ind i = get32 din (din_addr NDIRECT)) as E by (unfold ind; by rewrite node_direct).
    rewrite <-E. fold (ind_off fbn). rewrite (proj2 (Z.eqb_neq _ 0)) by done. apply wp_bind, wp_ret, wp_ret. by rewrite xint_small.
Qed.

Definition fetched (fbn n' : Z) (r : list Z * Z) (s' : mk) : Prop :=
  r.2 = slot (img s') (node inum r.1) fbn ∧ grown_to inum din n n' c s r.1 s'.

Lemma node_len din' : length (i_addrs (node inum din')) = 13%nat.
Proof using Type. clear. reflexivity. Qed.
Lemma ind_node din' : ind (node inum din') = get32 din' (din_addr NDIRECT).
Proof using Type. clear. unfold ind. by rewrite node_direct by mlia. Qed.
Lemma with_addr_same k b : 0 ≤ k ≤ NDIRECT → same_header din (with_addr din k b).
Proof using Hlen. clear -Hlen. intros Hk w off Ho. by apply with_addr_header. Qed.
Lemma old_ind_range : ind i ≠ 0 → ind i < fb.
Proof using Hh. clear -Hh. intros Hi. apply (ho_indr _ _ _ _ _ Hh Hi). Qed.
Lemma fb_pos : 0 < fb.
Proof using Hc. clear -Hc. pose proof (cf_meta _ _ Hc). assert (0 < nmeta) by done. lia. Qed.

(** A direct block. *)
Lemma block_for_direct :
  n < NDIRECT → fb < FSSIZE → wp (block_for din n) (fetched n (n + 1)) s.
Proof using All.
  intros Hd Hroom. pose proof (ho_n _ _ _ _ _ Hh) as Hn. pose proof fb_pos as Hpos.
  assert (direct i n = 0) as E0.
  { pose proof (ho_slot _ _ _ _ _ Hh n ltac:(mlia)) as Hs. unfold slot in Hs. rewrite (proj2 (Z.ltb_lt _ _)) in Hs by done. lia. }
  rewrite node_direct in E0 by lia. unfold block_for. rewrite (proj2 (Z.ltb_lt _ _)) by done. rewrite E0. cbn [Z.eqb xint].
  apply wp_bind, wp_bind, wp_next; [lia|]. apply wp_ret, wp_ret. set (din' := put32 _ _ _).
  assert (∀ j, 0 ≤ j ≤ NDIRECT → direct (node inum din') j = if decide (j = n) then fb else direct i j) as Hdir.
  { intros j Hj. apply with_addr_direct; [done|lia|done|mlia]. }
  assert (ind (node inum din') = ind i) as Ei by (unfold ind; rewrite Hdir, decide_False by mlia; done).
  assert (∀ k, 0 ≤ k < MAXFILE → slot v (node inum din') k = if decide (k = n) then fb else slot v i k) as Hslot.
  { intros k Hk. unfold slot. destruct (Z.ltb_spec k NDIRECT); [by apply Hdir; lia|]. rewrite decide_False by lia. by rewrite Ei. }
  assert (xint (get32 din' (din_addr n)) = fb) as Ex.
  { rewrite <-(node_direct inum) by lia. rewrite Hdir, decide_True by (done || lia). apply xint_small. lia. }
  split; cbn [Datatypes.fst snd].
  { rewrite Ex. simpl. by rewrite Hslot, decide_True by mlia. }
  assert (n < MAXFILE) by mlia. assert (fb + 1 ≤ FSSIZE) by lia. assert (fb ≤ fb < fb + 1) by lia.
  assert ((ind (node inum din') = ind i ∧ (ind i ≠ 0 → ind i < fb)) ∨ (ind i = 0 ∧ fb ≤ ind (node inum din') < fb + 1)) as Hind
    by (left; split; [done|apply old_ind_range]).
  assert (ind (node inum din') ≠ 0 ↔ NDIRECT < n + 1) as Hiff by (rewrite Ei, (ho_ind _ _ _ _ _ Hh); lia).
  assert (fb ≠ ind (node inum din')) as Hai.
  { rewrite Ei. destruct (decide (ind i = 0)); [lia|]. pose proof (old_ind_range ltac:(done)). lia. }
  destruct (alloc_all v fb i n c v (fb + 1) (node inum din') fb) as (A1 & A2 & A3); try done; [apply Hc|].
  split; simpl; try done.
  - apply length_with_addr; [done|lia].
  - apply with_addr_same. lia.
  - unfold cost. rewrite !(proj2 (Z.ltb_ge _ _)) by lia. lia.
Qed.

(** An entry of the indirect block [ib]: [din1] and [s1] are after it was allocated, if it was. *)
Lemma block_for_entry din1 s1 :
  let i1 := node inum din1 in let ib := ind i1 in let a := freeblock s1 in
  let s2 := set_img (<[ib := put32 (v ib) (ind_off n) (xint a)]> v) (set_freeblock (a + 1) s1) in
  NDIRECT ≤ n < MAXFILE → length din1 = 64%nat → same_header din din1 → img s1 = v → freeinode s1 = freeinode s →
  (∀ j, 0 ≤ j < NDIRECT → direct i1 j = direct i j) → ib ≠ 0 →
  (ib = ind i ∧ a = fb ∧ NDIRECT < n) ∨ (ind i = 0 ∧ ib = fb ∧ a = fb + 1 ∧ n = NDIRECT) → a < FSSIZE →
  slot (img s2) i1 n = a ∧ grown_to inum din n (n + 1) c s din1 s2.
Proof using All.
  intros i1 ib a s2 Hn Hl1 Hh1 Ev Efi Hdir Hne Hcase Hroom. pose proof fb_pos as Hpos. pose proof old_ind_range as Hold.
  assert (0 < a < FSSIZE) as Ha by lia.
  assert (ib = ind i ∨ (ind i = 0 ∧ v ib = zero_block)) as Hib.
  { destruct Hcase as [[? _]|(? & -> & ? & _)]; [by left|right]. split; [done|]. apply (cf_zero _ _ Hc). lia. }
  assert (∀ k, 0 ≤ k < MAXFILE → slot (img s2) i1 k = if decide (k = n) then a else slot v i k) as Hslot.
  { intros k Hk. by apply entered_slot. }
  split; [by rewrite Hslot, decide_True by mlia|].
  assert (NDIRECT < n + 1) by lia.
  destruct (alloc_all v fb i n c (img s2) (a + 1) i1 a) as (A1 & A2 & A3); try done; try lia.
  - fold ib. intros b [Hb|?]; [|done]. simpl. by apply fn_lookup_insert_ne.
  - intros b. simpl. destruct (decide (b = ib)) as [->|]; [|rewrite fn_lookup_insert_ne by done; apply Hc].
    rewrite fn_lookup_insert, length_putn; [apply Hc|]. rewrite (cf_len _ _ Hc). by apply ind_off_bound.
  - split; try done. simpl. unfold cost. subst a.
    destruct Hcase as [(_ & Ea & ?)|(_ & _ & Ea & ->)]; [|change (NDIRECT <? NDIRECT) with false; change (NDIRECT <? NDIRECT + 1) with true; cbv iota; lia].
    rewrite !(proj2 (Z.ltb_lt _ _)) by lia. lia.
Qed.

Lemma block_for_indirect :
  NDIRECT ≤ n < MAXFILE → fb + cost (n + 1) - cost n ≤ FSSIZE → wp (block_for din n) (fetched n (n + 1)) s.
Proof using All.
  intros Hn Hroom. pose proof fb_pos as Hpos. pose proof ind_small as Hsm. unfold block_for.
  rewrite (proj2 (Z.ltb_ge _ _)) by lia. pose proof (ho_slot _ _ _ _ _ Hh n ltac:(mlia)) as Hs0.
  assert (slot v i n = 0) as Hs by lia. clear Hs0. unfold slot in Hs. rewrite (proj2 (Z.ltb_ge _ _)) in Hs by lia.
  rewrite <-(ind_node din), xint_small by done. destruct (Z.eqb_spec (ind i) 0) as [E0|E0].
  - (* the first one *)
    assert (n = NDIRECT) as En by (pose proof (ho_ind _ _ _ _ _ Hh); lia).
    assert (fb + 1 < FSSIZE) as Hr1.
    { unfold cost in Hroom. rewrite En in Hroom. change (NDIRECT <? NDIRECT) with false in Hroom.
      change (NDIRECT <? NDIRECT + 1) with true in Hroom. cbv iota in Hroom. lia. }
    apply wp_bind, wp_bind, wp_next; [lia|]. apply wp_ret. cbv zeta. fold (with_addr din NDIRECT fb). set (din1 := with_addr _ _ _).
    assert (∀ j, 0 ≤ j ≤ NDIRECT → direct (node inum din1) j = if decide (j = NDIRECT) then fb else direct i j) as Hdir.
    { intros j Hj. apply with_addr_direct; [done|mlia|done|mlia]. }
    assert (ind (node inum din1) = fb) as Ei by (unfold ind; rewrite Hdir, decide_True by (done || mlia); done).
    rewrite <-(ind_node din1), Ei, xint_small by lia. apply wp_bind, wp_rsect; [lia|]. simpl img.
    rewrite (cf_zero _ _ Hc) by lia. fold (ind_off n). rewrite getn_zero by (by apply ind_off_bound). cbn [Z.eqb].
    apply wp_bind, wp_bind, wp_next; [simpl; lia|]. apply wp_bind. apply wp_modify, wp_ret, wp_ret.
    destruct (block_for_entry din1 (set_freeblock (fb + 1) s)) as [G1 G2]; try done.
    + apply length_with_addr; [done|mlia].
    + apply with_addr_same. mlia.
    + intros j Hj. rewrite Hdir, decide_False by lia. done.
    + rewrite Ei. lia.
    + right. rewrite Ei. simpl. split_and!; done || lia.
    + cbn [snd Datatypes.fst]. rewrite Ei in *. rewrite (cf_zero _ _ Hc fb) in G1, G2 by lia.
      split; cbn [snd Datatypes.fst]; [|exact G2]. etransitivity; [|symmetry; exact G1]. rewrite get32_put32_same by (rewrite length_zero_block; by apply ind_off_bound).
      rewrite !xint_u32. unfold u32. rewrite !wrap_wrap by lia. apply wrap_small. simpl. mlia.
  - assert (NDIRECT < n) as En by (by apply (ho_ind _ _ _ _ _ Hh)).
    assert (fb < FSSIZE) as Hr1.
    { unfold cost in Hroom. rewrite !(proj2 (Z.ltb_lt _ _)) in Hroom by lia. lia. }
    apply wp_bind, wp_ret. cbv zeta. rewrite <-(ind_node din), xint_small by done. apply wp_bind, wp_rsect; [lia|].
    fold (ind_off n). rewrite Hs. cbn [Z.eqb].
    apply wp_bind, wp_bind, wp_next; [lia|]. apply wp_bind. apply wp_modify, wp_ret, wp_ret.
    destruct (block_for_entry din s) as [G1 G2]; try done; [by left|].
    split; cbn [snd Datatypes.fst]; [|exact G2]. etransitivity; [|symmetry; exact G1].
    rewrite get32_put32_same by (rewrite (cf_len _ _ Hc); by apply ind_off_bound).
    rewrite !xint_u32. unfold u32. rewrite !wrap_wrap by lia. apply wrap_small. simpl. mlia.
Qed.
End block_for.

Lemma block_for_spec inum din n c s fbn :
  length din = 64%nat → holds (img s) (freeblock s) (node inum din) n c → clear_from (img s) (freeblock s) →
  0 ≤ fbn ≤ n → fbn < MAXFILE → freeblock s + cost (Z.max n (fbn + 1)) - cost n ≤ FSSIZE →
  wp (block_for din fbn) (fetched inum din n c s fbn (Z.max n (fbn + 1))) s.
Proof.
  intros Hl Hh Hc Hf Hm Hroom. destruct (decide (fbn < n)) as [Hlt|Hge].
  - rewrite Z.max_l in * by lia. eapply wp_mono; [apply (block_for_hit inum din n c s); [done..|lia|lia]|].
    intros r s' [-> ->]. split; [done|]. split; try done; [apply built_refl|lia].
  - assert (fbn = n) as -> by lia. rewrite Z.max_r in * by lia. destruct (decide (n < NDIRECT)) as [Hd|Hd].
    + apply block_for_direct; try done; unfold cost in Hroom; rewrite !(proj2 (Z.ltb_ge _ _)) in Hroom by lia; lia.
    + apply block_for_indirect; try done; [|lia]. unfold cost in Hroom. pose proof (cf_meta _ _ Hc).
      destruct (Z.ltb_spec NDIRECT n), (Z.ltb_spec NDIRECT (n + 1)); lia.
Qed.

(** ** Writing into a block of the file *)
Lemma lookup_total_splice (l l' : list Z) off j :
  (off + length l' ≤ length l)%nat → (j < length l)%nat →
  splice l off l' !!! j = if decide (off ≤ j < off + length l')%nat then l' !!! (j - off)%nat else l !!! j.
Proof. intros Hl Hj. rewrite !list_lookup_total_alt, lookup_splice by done. by case_decide. Qed.

Section write.
Context v fb i n c (fbn : Z) (l : list Z).
Hypothesis (Hh : holds v fb i n c) (Hc : clear_from v fb) (Hf : fbn = Z.of_nat (length c) / BSIZE) (Hn : fbn < n).
Hypothesis Hl : Z.of_nat (length c + length l) ≤ (fbn + 1) * BSIZE.
Abbreviation x := (slot v i fbn).
Abbreviation v' := (<[x := splice (v x) (Z.to_nat (Z.of_nat (length c) - fbn * BSIZE)) l]> v).

Lemma write_pos : 0 ≤ Z.of_nat (length c) - fbn * BSIZE < BSIZE ∧ 0 ≤ fbn < MAXFILE.
Proof using All.
  pose proof (ho_n _ _ _ _ _ Hh). rewrite Hf in *. change BSIZE with 1024 in *.
  pose proof (Z.div_mod (Z.of_nat (length c)) 1024 ltac:(lia)). pose proof (Z.mod_pos_bound (Z.of_nat (length c)) 1024 ltac:(lia)).
  pose proof (Z.div_pos (Z.of_nat (length c)) 1024 ltac:(lia) ltac:(lia)). lia.
Qed.
Lemma write_slot : x ≠ 0 ∧ x ≠ ind i ∧ x < fb.
Proof using All.
  destruct write_pos as [_ Hk]. assert (x ≠ 0) as Hx by (by apply (ho_slot _ _ _ _ _ Hh)).
  destruct (ho_slotr _ _ _ _ _ Hh fbn Hk Hx). split_and!; [done|done|lia].
Qed.
Lemma write_slots k : slot v' i k = slot v i k.
Proof using All. apply slot_ext. intros _. apply fn_lookup_insert_ne. apply write_slot. Qed.

Lemma write_byte o : 0 ≤ o < MAXFILE * BSIZE → fbyte v' i o = default 0 ((c ++ l) !! Z.to_nat o).
Proof using All.
  intros Ho. destruct write_pos as [Hp Hk], write_slot as (Hx & Hxi & Hxf). pose proof (blk_range o Ho) as Hb.
  pose proof (ho_byte _ _ _ _ _ Hh o Ho) as Hold. unfold fbyte, fblock in *. rewrite write_slots.
  pose proof (Z.div_mod o BSIZE ltac:(done)) as Ed. pose proof (Z.mod_pos_bound o BSIZE ltac:(done)) as Em.
  destruct (decide (o / BSIZE = fbn)) as [E|E].
  - rewrite E in *. rewrite (proj2 (Z.eqb_neq x 0)) in * by done. rewrite fn_lookup_insert.
    assert (length (v x) = 1024%nat) as Hlen by apply (cf_len _ _ Hc).
    rewrite lookup_total_splice by (rewrite Hlen; change BSIZE with 1024 in *; lia). case_decide as Hin.
    + rewrite lookup_app_r by (change BSIZE with 1024 in *; lia). rewrite list_lookup_total_alt.
      replace (Z.to_nat (o mod BSIZE) - Z.to_nat (Z.of_nat (length c) - fbn * BSIZE))%nat with (Z.to_nat o - length c)%nat
        by (change BSIZE with 1024 in *; lia).
      destruct (l !! _) eqn:El; [done|]. apply lookup_ge_None in El. change BSIZE with 1024 in *. lia.
    + rewrite Hold. change BSIZE with 1024 in *. destruct (decide (Z.to_nat o < length c)%nat); [by rewrite lookup_app_l|].
      rewrite !lookup_ge_None_2; rewrite ?length_app; [done|lia|lia].
  - assert (slot v i (o / BSIZE) ≠ 0 → slot v i (o / BSIZE) ≠ x) as Hne.
    { intros H0 H1. apply E. by apply (ho_inj _ _ _ _ _ Hh). }
    assert ((if slot v i (o / BSIZE) =? 0 then zero_block else v' (slot v i (o / BSIZE))) =
            if slot v i (o / BSIZE) =? 0 then zero_block else v (slot v i (o / BSIZE))) as ->.
    { destruct (Z.eqb_spec (slot v i (o / BSIZE)) 0); [done|]. rewrite fn_lookup_insert_ne; [done|]. apply not_eq_sym. auto. }
    rewrite Hold. change BSIZE with 1024 in *. destruct (decide (Z.to_nat o < length c)%nat); [by rewrite lookup_app_l|].
    assert (Z.of_nat (length c + length l) ≤ o).
    { assert (fbn < o / 1024); [|nia]. apply Z.le_neq. split; [|done]. rewrite Hf. apply Z.div_le_mono; lia. }
    rewrite !lookup_ge_None_2; rewrite ?length_app; [done|lia|lia].
Qed.

Lemma write_all : holds v' fb i n (c ++ l) ∧ clear_from v' fb ∧ built v fb i v' fb i.
Proof using All.
  destruct write_pos as [Hp Hk], write_slot as (Hx & Hxi & Hxf). pose proof Hh as [H1 H2 H3 H4 H5 H6 H7 H8 H9].
  split_and!; split; try done.
  - rewrite length_app. change BSIZE with 1024 in *. nia.
  - intros k. rewrite write_slots. apply H6.
  - intros k. rewrite write_slots. apply H7.
  - intros k k'. rewrite !write_slots. apply H8.
  - apply write_byte.
  - intros b. destruct (decide (b = x)) as [->|]; [|rewrite fn_lookup_insert_ne by done; apply Hc].
    rewrite fn_lookup_insert, length_splice; [apply Hc|]. rewrite (cf_len _ _ Hc). change BSIZE with 1024 in *. lia.
  - intros b Hb. rewrite fn_lookup_insert_ne by lia. by apply (cf_zero _ _ Hc).
  - apply (cf_meta _ _ Hc).
  - intros b Hb Hno. apply fn_lookup_insert_ne. intros <-. apply Hno. split; [done|]. right. by exists fbn.
  - intros b Ho. left. unfold owned in *. by setoid_rewrite write_slots in Ho.
Qed.
End write.

(** ** [iappend] *)
Definition blocks_of c : Z := (Z.of_nat (length c) + BSIZE - 1) / BSIZE.

Lemma blocks_of_step c l :
  l ≠ [] → Z.of_nat (length c + length l) ≤ (Z.of_nat (length c) / BSIZE + 1) * BSIZE →
  0 ≤ Z.of_nat (length c) / BSIZE ≤ blocks_of c ∧
  Z.max (blocks_of c) (Z.of_nat (length c) / BSIZE + 1) = blocks_of (c ++ l).
Proof.
  intros Hl Hle. assert (0 < length l)%nat by (destruct l; simpl; [done|lia]). unfold blocks_of. rewrite length_app.
  change BSIZE with 1024 in *. set (x := Z.of_nat (length c)) in *.
  assert (0 ≤ x / 1024) by (apply Z.div_pos; lia).
  assert (x / 1024 ≤ (x + 1024 - 1) / 1024) by (apply Z.div_le_mono; lia).
  assert ((x + 1024 - 1) / 1024 < x / 1024 + 2) by (apply Z.div_lt_upper_bound; [lia|]; pose proof (Z.div_mod x 1024); pose proof (Z.mod_pos_bound x 1024); lia).
  assert ((Z.of_nat (length c + length l) + 1024 - 1) / 1024 = x / 1024 + 1) as ->; [|lia].
  symmetry. pose proof (Z.div_mod x 1024 ltac:(lia)). pose proof (Z.mod_pos_bound x 1024 ltac:(lia)).
  apply Z.div_unique with (Z.of_nat (length c + length l) + 1024 - 1 - 1024 * (x / 1024 + 1)); lia.
Qed.
Lemma blocks_of_mono c l : blocks_of c ≤ blocks_of (c ++ l).
Proof. unfold blocks_of. rewrite length_app. change BSIZE with 1024. apply Z.div_le_mono; lia. Qed.
Lemma cost_mono n m : n ≤ m → cost n ≤ cost m.
Proof. unfold cost. destruct (Z.ltb_spec NDIRECT n), (Z.ltb_spec NDIRECT m); lia. Qed.

(** The state in the middle of an append: [c] is there, [p] to come. *)
Record appending (inum : Z) (din0 : list Z) (c0 p0 : list Z) (s0 : mk) (din : list Z) (off : Z) (p : list Z) (s : mk) c : Prop := {
  ap_len : length din = 64%nat;
  ap_header : same_header din0 din;
  ap_off : off = Z.of_nat (length c);
  ap_holds : holds (img s) (freeblock s) (node inum din) (blocks_of c) c;
  ap_clear : clear_from (img s) (freeblock s);
  ap_built : built (img s0) (freeblock s0) (node inum din0) (img s) (freeblock s) (node inum din);
  ap_fb : freeblock s = freeblock s0 + cost (blocks_of c) - cost (blocks_of c0);
  ap_inode : freeinode s = freeinode s0;
  ap_split : c ++ p = c0 ++ p0;
}.

Lemma append_step_spec inum din0 c0 p0 s0 din off p s c :
  appending inum din0 c0 p0 s0 din off p s c → p ≠ [] →
  Z.of_nat (length (c0 ++ p0)) ≤ MAXFILE * BSIZE →
  freeblock s0 + cost (blocks_of (c0 ++ p0)) - cost (blocks_of c0) ≤ FSSIZE →
  wp (append_step (din, off, p)) (λ r s', ∃ din' off' p' c',
    r = inl (din', off', p') ∧ (length p' < length p)%nat ∧ appending inum din0 c0 p0 s0 din' off' p' s' c') s.
Proof.
  intros [A1 A2 A3 A4 A5 A6 A7 A8 A9] Hp Hmax Hroom. unfold append_step. rewrite bool_decide_false by done. cbv zeta.
  set (fbn := off / BSIZE). set (n1 := Z.min _ _). set (l := take (Z.to_nat n1) p).
  assert (0 < length p)%nat as Hlp by (destruct p; simpl; [done|lia]).
  assert (off < (fbn + 1) * BSIZE) as Hlt.
  { pose proof (Z.div_mod off BSIZE ltac:(done)). pose proof (Z.mod_pos_bound off BSIZE ltac:(done)). unfold fbn. lia. }
  assert (0 < n1 ≤ Z.of_nat (length p) ∧ off + n1 ≤ (fbn + 1) * BSIZE) as (Hn1 & Hend) by (unfold n1; lia).
  assert (length l = Z.to_nat n1) as Hll by (unfold l; rewrite length_take; lia).
  assert (l ≠ []) as Hl0 by (intros E; rewrite E in Hll; simpl in Hll; lia).
  pose proof (f_equal length A9) as Hlen. rewrite !length_app in Hlen. rewrite length_app in Hmax.
  destruct (blocks_of_step c l Hl0) as [Hb1 Hb2]. { rewrite Hll. unfold fbn in Hend. rewrite A3 in Hend. lia. }
  rewrite <-A3 in Hb1, Hb2. fold fbn in Hb1, Hb2.
  assert (fbn < MAXFILE) as Hf by (unfold fbn; apply Z.div_lt_upper_bound; [done|]; mlia).
  rewrite (proj2 (Z.ltb_lt _ _)) by done. apply wp_bind, wp_panic_if; [done|]. apply wp_bind.
  assert (cost (blocks_of (c ++ l)) ≤ cost (blocks_of (c0 ++ p0))) as Hcost.
  { apply cost_mono. rewrite <-A9. replace (c ++ p) with ((c ++ l) ++ drop (Z.to_nat n1) p) by (rewrite <-app_assoc; unfold l; by rewrite take_drop).
    apply blocks_of_mono. }
  eapply wp_mono; [apply (block_for_spec inum din (blocks_of c) c s fbn); try done; rewrite Hb2; lia|].
  cbv beta. intros [din' x] s1 [Ex G]. cbn [snd Datatypes.fst] in Ex, G. rewrite Hb2 in G. destruct G as [G1 G2 G3 G4 G5 G6 G7].
  destruct (write_all (img s1) (freeblock s1) (node inum din') _ c fbn l G3 G4) as (W1 & W2 & W3).
  { unfold fbn. by rewrite A3. } { lia. } { rewrite Hll, Nat2Z.inj_add, Z2Nat.id by lia. lia. }
  rewrite <-Ex, <-A3 in W1, W2, W3. apply wp_bind, wp_rsect.
  { rewrite Ex. pose proof (ho_slotr _ _ _ _ _ G3 fbn ltac:(lia) (proj2 (ho_slot _ _ _ _ _ G3 fbn ltac:(lia)) ltac:(lia))). lia. }
  apply wp_bind. unfold wsect. apply wp_modify, wp_ret.
  exists din', (u32 (off + n1)), (drop (Z.to_nat n1) p), (c ++ l). split; [done|]. split; [rewrite length_drop; lia|].
  split; simpl; try done.
  - intros w o Ho. rewrite G2 by done. by apply A2.
  - rewrite length_app, Hll. unfold u32. rewrite wrap_small; [lia|]. mlia.
  - by eapply built_trans, built_trans.
  - lia.
  - congruence.
  - rewrite <-app_assoc. unfold l. by rewrite take_drop.
Qed.

(** The whole append, up to the inode. *)
Lemma append_loop_spec inum din c p s :
  length din = 64%nat → holds (img s) (freeblock s) (node inum din) (blocks_of c) c → clear_from (img s) (freeblock s) →
  Z.of_nat (length (c ++ p)) ≤ MAXFILE * BSIZE → freeblock s + cost (blocks_of (c ++ p)) - cost (blocks_of c) ≤ FSSIZE →
  wp (while_loop (S (length p)) (din, Z.of_nat (length c), p) append_step) (λ r s', ∃ din' off',
    r = (din', off') ∧ appending inum din c p s din' off' [] s' (c ++ p)) s.
Proof.
  intros Hl Hh Hc Hmax Hroom. apply wp_while_loop with (n := length p)
    (I := λ m '(din', off', p') s', length p' = m ∧ ∃ c', appending inum din c p s din' off' p' s' c').
  - split; [done|]. exists c. split; try done; [apply built_refl|lia].
  - lia.
  - intros m [[din' off'] p'] s' (Hm & c' & Ha). destruct (decide (p' = [])) as [->|Hne].
    + unfold append_step. rewrite bool_decide_true by done. apply wp_ret. exists din', off'. split; [done|].
      pose proof (ap_split _ _ _ _ _ _ _ _ _ _ Ha) as E. rewrite app_nil_r in E. by rewrite <-E.
    + eapply wp_mono; [by eapply append_step_spec|]. cbv beta. intros r s2 (d2 & o2 & p2 & c2 & -> & Hlt & Ha2).
      exists (length p2). split; [lia|]. split; [done|]. by exists c2.
Qed.

(** ** The inode table *)
Definition din_at v (inum : Z) : list Z := slice (v (IBLOCK inum mkfs_sb)) (dinode_off inum) 64.
Definition with_din v (inum : Z) (din : list Z) : Z → block :=
  <[IBLOCK inum mkfs_sb := splice (v (IBLOCK inum mkfs_sb)) (dinode_off inum) din]> v.

Lemma inode_sector inum : 0 ≤ inum < NINODES → 32 ≤ IBLOCK inum mkfs_sb < 45.
Proof.
  intros H. unfold IBLOCK. change IPB with 16. change (sb_inodestart mkfs_sb) with 32. change NINODES with 200 in H.
  pose proof (Z.div_pos inum 16). pose proof (Z.div_lt_upper_bound inum 16 13). lia.
Qed.
Lemma din_fits inum : (dinode_off inum + 64 ≤ 1024)%nat.
Proof. unfold dinode_off. change IPB with 16. change sizeof_dinode with 64. pose proof (Z.mod_pos_bound inum 16). lia. Qed.

Lemma din_at_same v fb inum din :
  clear_from v fb → length din = 64%nat → din_at (with_din v inum din) inum = din.
Proof.
  intros Hc Hl. unfold din_at, with_din. rewrite fn_lookup_insert, <-Hl. apply slice_splice_same.
  rewrite Hl, (cf_len _ _ Hc). apply din_fits.
Qed.
Lemma din_at_other v fb inum din j :
  clear_from v fb → length din = 64%nat → 0 ≤ inum → 0 ≤ j → j ≠ inum → din_at (with_din v inum din) j = din_at v j.
Proof.
  intros Hc Hl Hi Hj Hne. unfold din_at, with_din. destruct (decide (IBLOCK inum mkfs_sb = IBLOCK j mkfs_sb)) as [E|E].
  - rewrite <-E, fn_lookup_insert. apply slice_splice_disjoint; [rewrite Hl, (cf_len _ _ Hc); apply din_fits|].
    rewrite Hl. unfold IBLOCK in E. unfold dinode_off. change IPB with 16 in *. change sizeof_dinode with 64.
    pose proof (Z.div_mod inum 16). pose proof (Z.div_mod j 16). pose proof (Z.mod_pos_bound inum 16). pose proof (Z.mod_pos_bound j 16). lia.
  - by rewrite fn_lookup_insert_ne.
Qed.
Lemma with_din_data v inum din b : 0 ≤ inum < NINODES → ¬ (32 ≤ b < 45) → with_din v inum din b = v b.
Proof. intros Hi Hb. apply fn_lookup_insert_ne. pose proof (inode_sector inum Hi). lia. Qed.
Lemma with_din_clear v fb inum din :
  clear_from v fb → length din = 64%nat → 0 ≤ inum < NINODES → clear_from (with_din v inum din) fb.
Proof.
  intros Hc Hl Hi. pose proof (cf_meta _ _ Hc) as Hm. pose proof (inode_sector inum Hi). split; [| |done].
  - intros b. unfold with_din. destruct (decide (b = IBLOCK inum mkfs_sb)) as [->|]; [|rewrite fn_lookup_insert_ne by done; apply Hc].
    rewrite fn_lookup_insert, length_splice; [apply Hc|]. rewrite Hl, (cf_len _ _ Hc). apply din_fits.
  - intros b Hb. rewrite with_din_data; [by apply (cf_zero _ _ Hc)|done|]. mlia.
Qed.

Lemma wp_rinode inum (Q : list Z → mk → Prop) s :
  0 ≤ inum < NINODES → Q (din_at (img s) inum) s → wp (rinode inum) Q s.
Proof. intros Hi HQ. pose proof (inode_sector inum Hi). unfold rinode. cbv zeta. apply wp_bind, wp_rsect; [mlia|]. by apply wp_ret. Qed.
Lemma wp_winode inum din (Q : unit → mk → Prop) s :
  0 ≤ inum < NINODES → Q tt (set_img (with_din (img s) inum din) s) → wp (winode inum din) Q s.
Proof. intros Hi HQ. pose proof (inode_sector inum Hi). unfold winode. cbv zeta. apply wp_bind, wp_rsect; [mlia|]. by apply wp_modify. Qed.

(** ** All files *)
Implicit Types (fs : list (list Z * list Z)).
Fixpoint total fs : Z := match fs with [] => 0 | x :: l => cost (blocks_of x.2) + total l end.
Lemma total_app fs fs' : total (fs ++ fs') = total fs + total fs'.
Proof. induction fs as [|x fs IH]; simpl; lia. Qed.
Lemma total_insert fs k din c din' c' :
  fs !! k = Some (din, c) → total (<[k := (din', c')]> fs) = total fs + cost (blocks_of c') - cost (blocks_of c).
Proof.
  revert k. induction fs as [|x fs IH]; intros [|k] Hk; simpl in *; [done..| |].
  - injection Hk as ->. simpl. lia.
  - rewrite IH by done. lia.
Qed.

(** The file number [k] has the inode [k + 1]. *)
Definition inum_of (k : nat) : Z := Z.of_nat k + 1.
Record one_file (s : mk) (k : nat) (din : list Z) c : Prop := {
  of_din : din_at (img s) (inum_of k) = din;
  of_len : length din = 64%nat;
  of_size : get32 din din_size = Z.of_nat (length c);
  of_holds : holds (img s) (freeblock s) (node (inum_of k) din) (blocks_of c) c;
}.
Record system (s : mk) fs : Prop := {
  sy_inode : freeinode s = inum_of (length fs);
  sy_number : Z.of_nat (length fs) < NINODES;
  sy_clear : clear_from (img s) (freeblock s);
  sy_file : ∀ k din c, fs !! k = Some (din, c) → one_file s k din c;
  sy_apart : ∀ j k xj xk b, fs !! j = Some xj → fs !! k = Some xk → j ≠ k →
    owned (img s) (node (inum_of j) xj.1) b → owned (img s) (node (inum_of k) xk.1) b → False;
  sy_fb : freeblock s = nmeta + total fs;
}.

Lemma inum_range s fs k x : system s fs → fs !! k = Some x → 0 ≤ inum_of k < NINODES.
Proof. intros HS Hk. apply lookup_lt_Some in Hk. pose proof (sy_number _ _ HS). unfold inum_of. lia. Qed.

Lemma owned_above_meta v fb i n c b : holds v fb i n c → owned v i b → nmeta ≤ b < fb.
Proof.
  intros Hh [Hb [->|(k & Hk & <-)]]; [by apply (ho_indr _ _ _ _ _ Hh)|by apply (ho_slotr _ _ _ _ _ Hh)].
Qed.

(** The block map does not depend on the rest of the inode. *)
Lemma holds_set_size v fb inum din sz n c :
  length din = 64%nat → holds v fb (node inum din) n c →
  holds v fb (node inum (put32 din din_size sz)) n c ∧
  ∀ b, owned v (node inum (put32 din din_size sz)) b ↔ owned v (node inum din) b.
Proof.
  intros Hl Hh. assert (∀ j, 0 ≤ j ≤ NDIRECT → direct (node inum (put32 din din_size sz)) j = direct (node inum din) j) as Hd.
  { intros j Hj. rewrite !node_direct by done. apply getn_putn_ne; [rewrite Hl; unfold din_size; lia|]. unfold din_addr, din_size. lia. }
  assert (ind (node inum (put32 din din_size sz)) = ind (node inum din)) as Ei by (apply Hd; mlia).
  assert (∀ k, 0 ≤ k → slot v (node inum (put32 din din_size sz)) k = slot v (node inum din) k) as Hs.
  { intros k Hk. unfold slot. rewrite Ei. destruct (Z.ltb_spec k NDIRECT); [|done]. apply Hd. lia. }
  split.
  - destruct Hh as [H1 H2 H3 H4 H5 H6 H7 H8 H9]. split; rewrite ?Ei; try done.
    + intros k Hk. rewrite Hs by lia. by apply H6.
    + intros k Hk. rewrite Hs by lia. by apply H7.
    + intros k k' Hk Hk'. rewrite !Hs by lia. by apply H8.
    + intros o Ho. rewrite <-H9 by done. unfold fbyte, fblock. rewrite Hs; [done|]. by apply blk_range.
  - intros b. unfold owned. rewrite Ei. split; intros [Hb [->|(k & Hk & E)]]; (split; [done|]); [by left|right|by left|right];
      exists k; (split; [done|]); [rewrite <-Hs by lia|rewrite Hs by lia]; done.
Qed.

(** One file changes from [din], [c] to [din'], [c']: the others stay. *)
Section update.
Context (s : mk) (fs : list (list Z * list Z)) (k : nat) (din c : list Z) (s' : mk) (din1 din' c' : list Z).
Hypothesis HS : system s fs.
Hypothesis Hk : fs !! k = Some (din, c).
Hypothesis Hb : built (img s) (freeblock s) (node (inum_of k) din) (img s') (freeblock s') (node (inum_of k) din1).
Hypothesis Hc' : clear_from (img s') (freeblock s').
Hypothesis Hh' : holds (img s') (freeblock s') (node (inum_of k) din') (blocks_of c') c'.
Hypothesis Ho : ∀ b, owned (img s') (node (inum_of k) din') b ↔ owned (img s') (node (inum_of k) din1) b.
Hypothesis Hl : length din' = 64%nat.
Hypothesis Hsz : get32 din' din_size = Z.of_nat (length c').
Hypothesis Hfi : freeinode s' = freeinode s.
Hypothesis Hfb : freeblock s' = freeblock s + cost (blocks_of c') - cost (blocks_of c).
Let s2 : mk := set_img (with_din (img s') (inum_of k) din') s'.

Lemma update_meta b : b < nmeta → img s' b = img s b.
Proof using All.
  intros Hb'. apply (bu_frame _ _ _ _ _ _ Hb); [pose proof (cf_meta _ _ (sy_clear _ _ HS)); lia|].
  intros Hob. pose proof (owned_above_meta _ _ _ _ _ _ (of_holds _ _ _ _ (sy_file _ _ HS _ _ _ Hk)) Hob). lia.
Qed.
Lemma update_data b : nmeta ≤ b → img s2 b = img s' b.
Proof using All. intros Hb'. simpl. apply with_din_data; [by eapply inum_range|mlia]. Qed.

Lemma update_other j dj cj : fs !! j = Some (dj, cj) → j ≠ k →
  one_file s2 j dj cj ∧ ∀ b, owned (img s2) (node (inum_of j) dj) b ↔ owned (img s) (node (inum_of j) dj) b.
Proof using All.
  intros Hj Hne. destruct (sy_file _ _ HS _ _ _ Hj) as [F1 F2 F3 F4].
  destruct (holds_ext _ _ _ _ _ (img s2) (freeblock s') F4 (bu_fb _ _ _ _ _ _ Hb)) as [F5 F6].
  { intros b Hob. pose proof (owned_above_meta _ _ _ _ _ _ F4 Hob). rewrite update_data by lia. apply (bu_frame _ _ _ _ _ _ Hb); [lia|].
    intros Hok. by apply (sy_apart _ _ HS _ _ _ _ b Hj Hk Hne). }
  split; [|done]. split; [|done..]. rewrite <-F1. simpl. pose proof (inum_range _ _ _ _ HS Hk). pose proof (inum_range _ _ _ _ HS Hj) as Hij.
  pose proof (inode_sector _ Hij). rewrite (din_at_other _ (freeblock s')); [|done|done|lia|lia|unfold inum_of; lia].
  unfold din_at. by rewrite update_meta by mlia.
Qed.
Lemma update_own : holds (img s2) (freeblock s') (node (inum_of k) din') (blocks_of c') c' ∧
  ∀ b, owned (img s2) (node (inum_of k) din') b → owned (img s) (node (inum_of k) din) b ∨ freeblock s ≤ b.
Proof using All.
  destruct (holds_ext _ _ _ _ _ (img s2) (freeblock s') Hh' ltac:(lia)) as [Hh2 Ho2].
  { intros b Hob. apply update_data. by apply (owned_above_meta _ _ _ _ _ _ Hh'). }
  split; [done|]. intros b Hob. rewrite Ho2, Ho in Hob. destruct (bu_owned _ _ _ _ _ _ Hb b Hob); [by left|right; lia].
Qed.
Lemma update_sep j xj b : fs !! j = Some xj → j ≠ k → owned (img s2) (node (inum_of j) xj.1) b →
  owned (img s2) (node (inum_of k) din') b → False.
Proof using All.
  destruct xj as [dj cj]. intros Hj Hne H1 H2. destruct (update_other _ _ _ Hj Hne) as [_ Hoj]. cbn [Datatypes.fst] in H1. rewrite Hoj in H1.
  destruct (proj2 update_own b H2) as [H3|H3]; [by apply (sy_apart _ _ HS _ _ _ _ b Hj Hk Hne)|].
  pose proof (owned_above_meta _ _ _ _ _ _ (of_holds _ _ _ _ (sy_file _ _ HS _ _ _ Hj)) H1). lia.
Qed.

Lemma system_update : system s2 (<[k := (din', c')]> fs) ∧ (∀ b, b < nmeta → ¬ (32 ≤ b < 45) → img s2 b = img s b).
Proof using All.
  pose proof (inum_range _ _ _ _ HS Hk) as Hin. split; [split|].
  - simpl. rewrite length_insert, Hfi. apply HS.
  - rewrite length_insert. apply HS.
  - by apply with_din_clear.
  - intros j dj cj. destruct (decide (j = k)) as [->|Hne].
    + rewrite list_lookup_insert_eq by (by eapply lookup_lt_Some). intros [= <- <-].
      split; [by eapply din_at_same|done..|apply update_own].
    + rewrite list_lookup_insert_ne by done. intros Hj. by apply update_other.
  - intros j1 j2 x1 x2 b H1 H2 Hne O1 O2. pose proof (lookup_lt_Some _ _ _ Hk) as Hkl.
    destruct (decide (j1 = k)) as [->|N1]; [|destruct (decide (j2 = k)) as [->|N2]].
    + rewrite list_lookup_insert_eq in H1 by done. rewrite list_lookup_insert_ne in H2 by done. injection H1 as <-. by eapply update_sep.
    + rewrite list_lookup_insert_eq in H2 by done. rewrite list_lookup_insert_ne in H1 by done. injection H2 as <-. by eapply update_sep.
    + rewrite list_lookup_insert_ne in H1, H2 by done. destruct x1 as [d1 c1], x2 as [d2 c2]. cbn [Datatypes.fst] in O1, O2.
      rewrite (proj2 (update_other _ _ _ H1 N1)) in O1. rewrite (proj2 (update_other _ _ _ H2 N2)) in O2.
      by apply (sy_apart _ _ HS _ _ _ _ b H1 H2 Hne).
  - simpl. rewrite (total_insert _ _ _ _ _ _ Hk), Hfb, (sy_fb _ _ HS). lia.
  - intros b Hb' Hni. simpl. rewrite with_din_data by done. by apply update_meta.
Qed.
End update.

(** What stays of an inode: type, device numbers and link count. *)
Definition same_kind (din din' : list Z) : Prop := ∀ w off : nat, (off + w ≤ 8)%nat → getn w din' off = getn w din off.

(** The sectors of super block, log and free map. *)
Definition same_meta (s s' : mk) : Prop := ∀ b, b < nmeta → ¬ (32 ≤ b < 45) → img s' b = img s b.

Lemma iappend_spec s fs k din c p :
  system s fs → fs !! k = Some (din, c) → Z.of_nat (length (c ++ p)) ≤ MAXFILE * BSIZE →
  freeblock s + cost (blocks_of (c ++ p)) - cost (blocks_of c) ≤ FSSIZE →
  wp (iappend (inum_of k) p) (λ _ s', ∃ din', same_kind din din' ∧ system s' (<[k := (din', c ++ p)]> fs) ∧ same_meta s s') s.
Proof.
  intros HS Hk Hmax Hroom. pose proof (inum_range _ _ _ _ HS Hk) as Hin. destruct (sy_file _ _ HS _ _ _ Hk) as [F1 F2 F3 F4].
  assert (Z.of_nat (length c) ≤ MAXFILE * BSIZE) as Hlc by (rewrite length_app in Hmax; lia).
  unfold iappend. apply wp_bind, wp_rinode; [done|]. rewrite F1, F3.
  assert (xint (Z.of_nat (length c)) = Z.of_nat (length c)) as -> by (rewrite xint_u32; apply wrap_small; mlia).
  apply wp_bind. eapply wp_mono; [apply (append_loop_spec (inum_of k) din c p s); try done; apply HS|].
  cbv beta. intros r s1 (din1 & off & -> & [A1 A2 A3 A4 A5 A6 A7 A8 A9]). apply wp_winode; [done|].
  rewrite A3, xint_u32. unfold u32. rewrite (wrap_small 32 (Z.of_nat (length (c ++ p)))) by mlia.
  set (din' := put32 din1 din_size _). destruct (holds_set_size (img s1) (freeblock s1) (inum_of k) din1 (Z.of_nat (length (c ++ p))) _ _ A1 A4) as [H1 H2].
  destruct (system_update s fs k din c s1 din1 din' (c ++ p)) as [HS' Hm]; try done.
  - unfold din'. rewrite length_putn by (rewrite A1; unfold din_size; lia). done.
  - unfold din'. rewrite get32_put32_same by (rewrite A1; unfold din_size; lia). apply wrap_small. mlia.
  - exists din'. split; [|split; [exact HS'|exact Hm]]. intros w off' Ho. rewrite <-A2 by lia.
    apply getn_putn_ne; [rewrite A1; unfold din_size; lia|]. unfold din_size. lia.
Qed.

(** A new inode. *)
Definition fresh_din (type : Z) : list Z :=
  put32 (put16 (put16 (replicate 64 0) 0 (xshort type)) 6 (xshort 1)) din_size (xint 0).
Lemma length_fresh_din type : length (fresh_din type) = 64%nat.
Proof. vm_compute. reflexivity. Qed.
Lemma fresh_din_addr type k : 0 ≤ k ≤ NDIRECT → get32 (fresh_din type) (din_addr k) = 0.
Proof.
  intros Hk. unfold fresh_din. pose proof (din_addr_bound k Hk). assert (12 ≤ din_addr k)%nat by (unfold din_addr; lia).
  set (d0 := replicate 64 0). set (d1 := put16 d0 0 _). set (d2 := put16 d1 6 _).
  assert (length d1 = 64%nat ∧ length d2 = 64%nat) as [L1 L2] by (split; vm_compute; reflexivity).
  rewrite (getn_putn_ne 4 4 d2) by (rewrite ?L2; unfold din_size; lia).
  unfold d2. rewrite (getn_putn_ne 4 2 d1) by (rewrite ?L1; lia).
  unfold d1. rewrite (getn_putn_ne 4 2 d0) by (unfold d0; rewrite ?length_replicate; lia). unfold d0.
  Local Transparent getn. unfold getn, slice. Local Opaque getn. rewrite drop_replicate, take_replicate.
  generalize (4 `min` (64 - din_addr k))%nat. intros m. induction m as [|m IH]; [done|]. simpl. lia.
Qed.
Lemma fresh_holds v fb inum type : clear_from v fb → holds v fb (node inum (fresh_din type)) 0 [].
Proof.
  intros Hc. assert (∀ j, 0 ≤ j ≤ NDIRECT → direct (node inum (fresh_din type)) j = 0) as Hd.
  { intros j Hj. rewrite node_direct by done. by apply fresh_din_addr. }
  assert (ind (node inum (fresh_din type)) = 0) as Ei by (apply Hd; mlia).
  assert (∀ k, 0 ≤ k → slot v (node inum (fresh_din type)) k = 0) as Hs.
  { intros k Hk. unfold slot. rewrite Ei. destruct (Z.ltb_spec k NDIRECT); [|done]. apply Hd. lia. }
  split; try done; rewrite ?Ei; try (mlia || done).
  - intros k Hk. rewrite Hs by lia. lia.
  - intros k Hk. rewrite Hs by lia. done.
  - intros k k' Hk _. rewrite Hs by lia. done.
  - intros o Ho. unfold fbyte, fblock. pose proof (blk_range o Ho). rewrite Hs by lia. simpl.
    rewrite list_lookup_total_alt. unfold zero_block. rewrite lookup_replicate_2; [done|].
    pose proof (Z.mod_pos_bound o BSIZE ltac:(done)). mlia.
Qed.

Lemma fresh_owned v fb inum type b : clear_from v fb → ¬ owned v (node inum (fresh_din type)) b.
Proof.
  intros Hc [Hb Ho]. pose proof (fresh_holds v fb inum type Hc) as Hh. apply Hb. destruct Ho as [->|(k & Hk & <-)].
  - destruct (decide (ind (node inum (fresh_din type)) = 0)) as [|Hne]; [done|]. apply (ho_ind _ _ _ _ _ Hh) in Hne. mlia.
  - destruct (decide (slot v (node inum (fresh_din type)) k = 0)) as [|Hne]; [done|]. apply (ho_slot _ _ _ _ _ Hh) in Hne; [lia|done].
Qed.

Lemma system_alloc s fs type :
  system s fs → Z.of_nat (length fs) + 1 < NINODES →
  let inum := inum_of (length fs) in
  let s2 := set_img (with_din (img s) inum (fresh_din type)) (set_freeinode (inum + 1) s) in
  system s2 (fs ++ [(fresh_din type, [])]) ∧ same_meta s s2.
Proof.
  intros HS Hn inum s2. assert (0 ≤ inum < NINODES) as Hin by (unfold inum, inum_of; lia). pose proof (sy_clear _ _ HS) as Hc.
  assert (clear_from (img s2) (freeblock s)) as Hc2 by (apply with_din_clear; [done|apply length_fresh_din|done]).
  assert (∀ b, nmeta ≤ b → img s2 b = img s b) as Hdata by (intros b Hb; simpl; apply with_din_data; [done|mlia]).
  assert (∀ j dj cj, fs !! j = Some (dj, cj) →
    one_file s2 j dj cj ∧ ∀ b, owned (img s2) (node (inum_of j) dj) b ↔ owned (img s) (node (inum_of j) dj) b) as Hother.
  { intros j dj cj Hj. destruct (sy_file _ _ HS _ _ _ Hj) as [F1 F2 F3 F4].
    destruct (holds_ext _ _ _ _ _ (img s2) (freeblock s) F4 ltac:(lia)) as [F5 F6].
    { intros b Hob. apply Hdata. by apply (owned_above_meta _ _ _ _ _ _ F4). }
    split; [|done]. split; [|done..]. rewrite <-F1. simpl. pose proof (lookup_lt_Some _ _ _ Hj).
    apply (din_at_other _ (freeblock s)); [done|apply length_fresh_din|lia|unfold inum_of; lia|unfold inum, inum_of; lia]. }
  split; [split|].
  - simpl. unfold inum, inum_of. rewrite length_app. simpl. lia.
  - rewrite length_app. simpl. lia.
  - done.
  - intros j dj cj. rewrite lookup_app_Some, list_lookup_singleton_Some. intros [Hj|(Hge & Hj & [= <- <-])]; [by apply Hother|].
    replace j with (length fs) by lia. fold inum. split; [eapply din_at_same; [done|apply length_fresh_din]|apply length_fresh_din|by vm_compute|].
    by apply fresh_holds.
  - intros j k xj xk b. rewrite !lookup_app_Some, !list_lookup_singleton_Some. intros [Hj|(_ & ? & <-)] [Hk|(_ & ? & <-)] Hne O1 O2.
    + destruct xj as [dj cj], xk as [dk ck]. cbn [Datatypes.fst] in *. rewrite (proj2 (Hother _ _ _ Hj)) in O1.
      rewrite (proj2 (Hother _ _ _ Hk)) in O2. by apply (sy_apart _ _ HS _ _ _ _ b Hj Hk Hne).
    + by eapply fresh_owned.
    + by eapply fresh_owned.
    + by eapply fresh_owned.
  - simpl. rewrite total_app, (sy_fb _ _ HS). simpl. change (cost (blocks_of [])) with 0. lia.
  - intros b Hb Hni. simpl. by rewrite with_din_data.
Qed.

Lemma ialloc_spec s fs type :
  system s fs → Z.of_nat (length fs) + 1 < NINODES →
  wp (ialloc type) (λ r s', r = inum_of (length fs) ∧ system s' (fs ++ [(fresh_din type, [])]) ∧ same_meta s s' ∧ freeblock s' = freeblock s) s.
Proof.
  intros HS Hn. destruct (system_alloc s fs type HS Hn) as [H1 H2]. unfold ialloc. apply wp_bind, wp_gets. rewrite (sy_inode _ _ HS).
  apply wp_bind, wp_modify, wp_bind. unfold u32. rewrite wrap_small by (unfold inum_of; change NINODES with 200 in Hn; lia).
  apply wp_winode; [unfold inum_of; lia|]. apply wp_ret. done.
Qed.

Lemma iappends_spec s fs k din c l :
  system s fs → fs !! k = Some (din, c) → Z.of_nat (length (c ++ mjoin l)) ≤ MAXFILE * BSIZE →
  freeblock s + cost (blocks_of (c ++ mjoin l)) - cost (blocks_of c) ≤ FSSIZE →
  wp (iappends (inum_of k) l) (λ _ s', ∃ din', same_kind din din' ∧ system s' (<[k := (din', c ++ mjoin l)]> fs) ∧ same_meta s s') s.
Proof.
  revert s fs din c. induction l as [|p l IH]; intros s fs din c HS Hk Hmax Hroom; cbn [iappends] in *.
  { apply wp_ret. exists din. change (mjoin []) with (@nil Z). rewrite app_nil_r, list_insert_id by done. by split_and!. }
  change (mjoin (p :: l)) with (p ++ mjoin l) in *. rewrite (app_assoc c p (mjoin l)) in Hmax, Hroom |- *.
  assert (cost (blocks_of (c ++ p)) ≤ cost (blocks_of ((c ++ p) ++ mjoin l))) as Hc by apply cost_mono, blocks_of_mono.
  apply wp_bind. eapply wp_mono; [apply (iappend_spec s fs k din c p); try done; [rewrite length_app in Hmax; lia|lia]|].
  cbv beta. intros _ s1 (d1 & K1 & S1 & M1). pose proof (lookup_lt_Some _ _ _ Hk) as Hlt.
  eapply wp_mono; [apply (IH s1 _ d1 (c ++ p) S1); [by apply list_lookup_insert_eq|done|]|].
  - rewrite (sy_fb _ _ S1), (total_insert _ _ _ _ _ _ Hk). pose proof (sy_fb _ _ HS). lia.
  - cbv beta. intros _ s2 (d2 & K2 & S2 & M2). exists d2. rewrite list_insert_insert_eq in S2. split_and!; [|done|].
    + intros w off Ho. by rewrite K2, K1.
    + intros b Hb Hni. by rewrite M2, M1.
Qed.

(** ** Files of the host *)
Definition name_of (f : hostfile) : list Z := skip_underscore (short f.1).
Definition contents (f : hostfile) : list Z := mjoin (default [] f.2).
(** What [mkfs] asserts of a file. *)
Record acceptable (f : hostfile) : Prop := {
  ac_slash : SLASH ∉ short f.1;
  ac_open : is_Some f.2;
  ac_name : (length (name_of f) ≤ 14)%nat;
  ac_size : Z.of_nat (length (contents f)) ≤ MAXFILE * BSIZE;
}.

Lemma length_dirent_for inum name : length (dirent_for inum name) = 16%nat.
Proof.
  unfold dirent_for, field. rewrite length_app, length_le_bytes, length_take, length_app, length_replicate. change (Z.to_nat DIRSIZ) with 14%nat. lia.
Qed.

Lemma add_file_spec s rd rc fs f :
  let name := dirent_for (inum_of (S (length fs))) (name_of f) in
  system s ((rd, rc) :: fs) → acceptable f → Z.of_nat (length fs) + 2 < NINODES →
  Z.of_nat (length (rc ++ name)) ≤ MAXFILE * BSIZE →
  freeblock s + cost (blocks_of (rc ++ name)) - cost (blocks_of rc) + cost (blocks_of (contents f)) ≤ FSSIZE →
  wp (add_file ROOTINO f) (λ _ s', ∃ rd' din, same_kind rd rd' ∧ same_kind (fresh_din T_FILE) din ∧
    system s' ((rd', rc ++ name) :: fs ++ [(din, contents f)]) ∧ same_meta s s') s.
Proof.
  intros name HS [Hs [l Hl] Hn Hsz] Hnum Hmax Hroom. unfold add_file. cbv zeta. apply wp_bind, wp_panic_if; [by rewrite bool_decide_false|].
  rewrite Hl. apply wp_bind, wp_panic_if. { apply negb_false_iff, Z.leb_le. fold (name_of f). change DIRSIZ with 14. lia. }
  apply wp_bind. eapply wp_mono; [apply (ialloc_spec s _ T_FILE HS); simpl; lia|].
  cbv beta. intros inum s1 (-> & S1 & M1 & Hfb1). change (length ((rd, rc) :: fs)) with (S (length fs)). fold (name_of f). fold name.
  assert (cost (blocks_of []) = 0) as Hz by done.
  assert (0 ≤ cost (blocks_of (contents f))) by (rewrite <-Hz; apply cost_mono, (blocks_of_mono [])).
  apply wp_bind. change ROOTINO with (inum_of 0). eapply wp_mono; [apply (iappend_spec s1 _ 0 rd rc name S1); [done|done|lia]|].
  cbv beta. intros _ s2 (rd' & K2 & S2 & M2). cbn [app] in S2. change (<[0%nat := _]> (_ :: ?l)) with ((rd', rc ++ name) :: l) in S2.
  assert (contents f = [] ++ mjoin l) as Ec by (unfold contents; by rewrite Hl).
  pose proof (sy_fb _ _ S2) as F2. pose proof (sy_fb _ _ HS) as F0. simpl in F2, F0. rewrite total_app in F2. simpl in F2. rewrite Hz in F2.
  eapply wp_mono; [apply (iappends_spec s2 _ (S (length fs)) (fresh_din T_FILE) [] l S2)|].
  - simpl. by rewrite lookup_app_r, Nat.sub_diag by lia.
  - by rewrite <-Ec.
  - rewrite <-Ec, Hz. lia.
  - cbv beta. intros _ s3 (din & K3 & S3 & M3). exists rd', din. split_and!; [done|done| |].
    + rewrite Ec. simpl in S3. rewrite insert_app_r_alt, Nat.sub_diag in S3 by lia. exact S3.
    + intros b Hb Hni. by rewrite M3, M2, M1.
Qed.

(** The entries of the files in the root directory. *)
Fixpoint entries (k : nat) (l : list hostfile) : list Z :=
  match l with
  | [] => []
  | f :: l => dirent_for (inum_of k) (name_of f) ++ entries (S k) l
  end.
Definition files_cost (l : list hostfile) : Z := foldr (λ f a, cost (blocks_of (contents f)) + a) 0 l.

Lemma files_cost_nonneg l : 0 ≤ files_cost l.
Proof.
  induction l as [|f l IH]; simpl; [done|]. assert (0 ≤ cost (blocks_of (contents f))); [|lia].
  change 0 with (cost (blocks_of [])). apply cost_mono, (blocks_of_mono []).
Qed.

Lemma add_files_spec s rd rc fs l :
  let ents := entries (S (length fs)) l in
  system s ((rd, rc) :: fs) → Forall acceptable l → Z.of_nat (length fs + length l) + 1 < NINODES →
  Z.of_nat (length (rc ++ ents)) ≤ MAXFILE * BSIZE →
  freeblock s + cost (blocks_of (rc ++ ents)) - cost (blocks_of rc) + files_cost l ≤ FSSIZE →
  wp (add_files ROOTINO l) (λ _ s', ∃ rd' dins, same_kind rd rd' ∧ Forall (same_kind (fresh_din T_FILE)) dins ∧ length dins = length l ∧
    system s' ((rd', rc ++ ents) :: fs ++ zip dins (contents <$> l)) ∧ same_meta s s') s.
Proof.
  revert s rd rc fs. induction l as [|f l IH]; intros s rd rc fs ents HS Hok Hnum Hmax Hroom.
  { apply wp_ret. exists rd, []. unfold ents. simpl. rewrite !app_nil_r. by split_and!. }
  apply Forall_cons in Hok as [Hf Hok]. cbn [files_cost foldr length] in *. fold (files_cost l) in Hroom. pose proof (files_cost_nonneg l) as Hnn.
  unfold ents in *. clear ents. cbn [entries] in *. set (name := dirent_for _ _) in *. set (rest := entries _ l) in *.
  rewrite (app_assoc rc name rest) in *.
  assert (cost (blocks_of (rc ++ name)) ≤ cost (blocks_of ((rc ++ name) ++ rest))) as Hc by apply cost_mono, blocks_of_mono.
  cbn [add_files]. apply wp_bind. eapply wp_mono; [apply (add_file_spec s rd rc fs f HS Hf)|].
  - lia.
  - fold name. rewrite length_app in Hmax. lia.
  - fold name. lia.
  - fold name. cbv beta. intros _ s1 (rd1 & din & K1 & Kd & S1 & M1).
    assert (entries (S (length (fs ++ [(din, contents f)]))) l = rest) as Er by (unfold rest; rewrite length_app; simpl; f_equal; lia).
    pose proof (IH s1 rd1 (rc ++ name) (fs ++ [(din, contents f)])) as IH1. cbv zeta in IH1. rewrite Er in IH1.
    pose proof (sy_fb _ _ S1) as F1. pose proof (sy_fb _ _ HS) as F0. simpl in F1, F0. rewrite total_app in F1. simpl in F1.
    eapply wp_mono; [apply IH1; [done|done|rewrite length_app; simpl; lia|done|lia]|].
    cbv beta. intros _ s2 (rd2 & dins & K2 & Kds & Hlen & S2 & M2). exists rd2, (din :: dins). split_and!.
    + intros w off Ho. by rewrite K2, K1.
    + by constructor.
    + simpl. by rewrite Hlen.
    + rewrite <-(app_assoc fs) in S2. exact S2.
    + intros b Hb Hni. by rewrite M2, M1.
Qed.

(** ** The finished image *)
(** An inode as [ilock] loads it. *)
Definition on_disk v (inum : Z) : inode :=
  let d := v (IBLOCK inum mkfs_sb) in
  let o := dinode_off inum in
  Inode ROOTDEV inum 1 initsleeplock true (d_type d o) (d_major d o) (d_minor d o) (d_nlink d o) (d_size d o) (d_addrs d o).
Lemma node_on_disk v inum : node inum (din_at v inum) = on_disk v inum.
Proof.
  unfold node, on_disk, din_at, d_type, d_major, d_minor, d_nlink, d_size, d_addrs, din_size. rewrite !getn_slice by lia.
  rewrite Nat.add_0_r. f_equal. change (Z.to_nat (NDIRECT + 1)) with 13%nat. apply list_fmap_ext. intros j k Hj%lookup_seq.
  rewrite getn_slice by lia. f_equal. lia.
Qed.

Lemma length_used_map (n : nat) : length (used_map n) = Z.to_nat BSIZE.
Proof. induction n; [apply length_zero_block|]. by apply length_bit_set. Qed.
Lemma used_map_get (n : nat) b : Z.of_nat n ≤ BPB → 0 ≤ b < BPB → bit_get (used_map n) b = bool_decide (b < Z.of_nat n).
Proof.
  induction n as [|n IH]; intros Hn Hb; cbn [used_map].
  - rewrite bool_decide_false by lia. unfold bit_get, zero_block. rewrite list_lookup_total_alt, lookup_replicate_2; [apply Z.bits_0|].
    change BPB with 8192 in *. change (Z.to_nat BSIZE) with 1024%nat. pose proof (Z.div_lt_upper_bound b 8 1024). lia.
  - rewrite bit_set_get, IH by (try apply length_used_map; lia). destruct (decide (Z.of_nat n = b)).
    + rewrite (bool_decide_true (Z.of_nat n = b)), (bool_decide_true (b < Z.of_nat (S n))) by lia. done.
    + rewrite (bool_decide_false (Z.of_nat n = b)) by done. simpl. apply bool_decide_ext. lia.
Qed.

(** The free map says which blocks are used. *)
Record mapped v fb : Prop := {
  mp_bits : v (sb_bmapstart mkfs_sb) = used_map (Z.to_nat fb);
  mp_fb : nmeta ≤ fb ≤ FSSIZE;
}.
Lemma mapped_inuse v fb b : mapped v fb → 0 ≤ b < BPB → inuse mkfs_sb v b = bool_decide (b < fb).
Proof.
  intros [E Hf] Hb. unfold inuse. rewrite E, used_map_get; [|change BPB with 8192; mlia|done]. apply bool_decide_ext. mlia.
Qed.
Lemma mapped_meta v fb : mapped v fb → meta_used mkfs_sb v.
Proof.
  intros Hm b Hb. rewrite (mapped_inuse _ _ _ Hm) by (change (sb_bmapstart mkfs_sb) with 45 in Hb; change BPB with 8192; lia).
  apply bool_decide_true. pose proof (mp_fb _ _ Hm). change (sb_bmapstart mkfs_sb) with 45 in Hb. mlia.
Qed.

Lemma holds_FInv v fb i n c : holds v fb i n c → (∀ b, length (v b) = Z.to_nat BSIZE) → mapped v fb → FInv mkfs_sb v i.
Proof.
  intros Hh Hl Hm. pose proof (mp_fb _ _ Hm) as Hf.
  assert (∀ b, nmeta ≤ b < fb → data mkfs_sb b ∧ inuse mkfs_sb v b = true) as Hd.
  { intros b Hb. split; [split; change (sb_bmapstart mkfs_sb) with 45; change (sb_size mkfs_sb) with 2000; mlia|].
    rewrite (mapped_inuse _ _ _ Hm) by (change BPB with 8192; mlia). apply bool_decide_true. lia. }
  split.
  - apply Hh.
  - apply Hl.
  - by eapply mapped_meta.
  - intros Hi. destruct (Hd _ (ho_indr _ _ _ _ _ Hh Hi)). by split_and!.
  - intros k Hk Hs. destruct (ho_slotr _ _ _ _ _ Hh k Hk Hs) as [Hr Hne]. destruct (Hd _ Hr). by split_and!.
  - apply Hh.
Qed.

Lemma holds_fread v fb i n c off (m : nat) :
  holds v fb i n c → 0 ≤ off → off + Z.of_nat m ≤ Z.of_nat (length c) → fread v i off m = slice c (Z.to_nat off) m.
Proof.
  intros Hh Ho Hm. pose proof (ho_n _ _ _ _ _ Hh) as Hn. pose proof (ho_fit _ _ _ _ _ Hh) as Hf. apply list_eq. intros j. rewrite lookup_slice. case_decide as Hj.
  - rewrite fread_lookup by done. rewrite (ho_byte _ _ _ _ _ Hh) by mlia.
    replace (Z.to_nat (off + Z.of_nat j)) with (Z.to_nat off + j)%nat by lia.
    destruct (c !! (Z.to_nat off + j)%nat) eqn:E; [done|]. apply lookup_ge_None in E. lia.
  - apply lookup_ge_None_2. rewrite length_fread. lia.
Qed.
Lemma holds_dense v fb i n c : holds v fb i n c → i_size i ≤ n * BSIZE → dense v i.
Proof.
  intros Hh Hs k Hk Hlt. pose proof (ho_n _ _ _ _ _ Hh). apply (ho_slot _ _ _ _ _ Hh); mlia.
Qed.

Lemma length_entries k l : length (entries k l) = (16 * length l)%nat.
Proof. revert k. induction l as [|f l IH]; intros k; [done|]. cbn [entries]. rewrite length_app, length_dirent_for, IH. simpl. lia. Qed.
Lemma slice_app_r (l l' : list Z) off (n : nat) : slice (l ++ l') (length l + off) n = slice l' off n.
Proof. unfold slice. by rewrite drop_app_add. Qed.
Lemma slice_app_l (l l' : list Z) (n : nat) : n = length l → slice (l ++ l') 0 n = l.
Proof. intros ->. unfold slice. rewrite drop_0. by apply take_app_length. Qed.
Lemma entries_slice k l j f : l !! j = Some f → slice (entries k l) (16 * j) 16 = dirent_for (inum_of (k + j)) (name_of f).
Proof.
  revert k j. induction l as [|g l IH]; intros k [|j] Hj; simpl in Hj; [done..| |].
  - injection Hj as ->. cbn [entries]. rewrite Nat.mul_0_r, Nat.add_0_r. apply slice_app_l. by rewrite length_dirent_for.
  - cbn [entries]. replace (16 * S j)%nat with (length (dirent_for (inum_of k) (name_of g)) + 16 * j)%nat by (rewrite length_dirent_for; lia).
    rewrite slice_app_r, (IH (S k) j Hj). f_equal. f_equal. lia.
Qed.

(** The contents of the root directory. *)
Definition root_entries (files : list hostfile) : list Z :=
  dirent_for ROOTINO DOT ++ dirent_for ROOTINO DOTDOT ++ entries 1 files.

Lemma length_root files : length (root_entries files) = (16 * (length files + 2))%nat.
Proof. unfold root_entries. rewrite !length_app, !length_dirent_for, length_entries. lia. Qed.

(** The image: [v] the sectors, [fb] the number of blocks in use. *)
Record image v fb (files : list hostfile) : Prop := {
  im_super : Superblock (get32 (v 1) 0) (get32 (v 1) 4) (get32 (v 1) 8) (get32 (v 1) 12) (get32 (v 1) 16) (get32 (v 1) 20)
               (get32 (v 1) 24) (get32 (v 1) 28) = mkfs_sb;
  im_log : v (sb_logstart mkfs_sb) = zero_block;
  im_map : ∀ b, 0 ≤ b < FSSIZE → inuse mkfs_sb v b = bool_decide (b < fb);
  im_file : ∀ k f, files !! k = Some f → let i := on_disk v (Z.of_nat k + 2) in
    FInv mkfs_sb v i ∧ dense v i ∧ i_type i = T_FILE ∧ i_nlink i = 1 ∧ i_size i = Z.of_nat (length (contents f)) ∧
    fread v i 0 (length (contents f)) = contents f;
  im_apart : ∀ j k b, (j < k ≤ S (length files))%nat →
    owned v (on_disk v (Z.of_nat j)) b → owned v (on_disk v (Z.of_nat k)) b → (0 < j)%nat → False;
  im_root : let r := on_disk v ROOTINO in
    FInv mkfs_sb v r ∧ i_type r = T_DIR ∧ (dense v r ↔ (length files + 2) mod 64 ≠ 0)%nat ∧
    (dense v r → dir_ok mkfs_sb v r);
  im_dots : let r := on_disk v ROOTINO in
    matches v r DOT 0 ∧ de_inum (ent v r 0) = ROOTINO ∧ matches v r DOTDOT 1 ∧ de_inum (ent v r 1) = ROOTINO;
  im_entry : ∀ k f, files !! k = Some f → proper (name_of f) → let r := on_disk v ROOTINO in
    matches v r (name_of f) (Z.of_nat k + 2) ∧ de_inum (ent v r (Z.of_nat k + 2)) = Z.of_nat k + 2;
  im_rest : ∀ k, Z.of_nat (length files) + 2 ≤ k < MAXFILE * 64 → de_inum (ent v (on_disk v ROOTINO) k) = 0;
}.

(** Up to the correction of the size of the root. *)
Definition start_img : Z → block := <[1 := splice zero_block 0 (sb_bytes mkfs_sb)]> (λ _, zero_block).
Lemma start_system n : system (Mk start_img 1 nmeta) [] ∧ img (Mk start_img 1 n) = start_img.
Proof.
  split; [|done]. split; try done. split; [| |done].
  - intros b. simpl. unfold start_img. destruct (decide (b = 1)) as [->|]; [by vm_compute|]. rewrite fn_lookup_insert_ne by done. apply length_zero_block.
  - intros b Hb. cbn [img freeblock] in *. unfold start_img. rewrite fn_lookup_insert_ne by mlia. done.
Qed.

Lemma root_cost_bound files : Z.of_nat (length files) + 1 < NINODES → Z.of_nat (length (root_entries files)) ≤ MAXFILE * BSIZE.
Proof. intros H. rewrite length_root. change NINODES with 200 in H. mlia. Qed.

Lemma build_spec files (rest : Z → K mk unit) (Q : unit → mk → Prop) :
  Forall acceptable files → Z.of_nat (length files) + 1 < NINODES →
  nmeta + cost (blocks_of (root_entries files)) + files_cost files ≤ FSSIZE →
  (∀ rd dins s, same_kind (fresh_din T_DIR) rd → Forall (same_kind (fresh_din T_FILE)) dins → length dins = length files →
     system s ((rd, root_entries files) :: zip dins (contents <$> files)) → same_meta (Mk start_img 1 nmeta) s →
     wp (rest ROOTINO) Q s) →
  wp (rootino ← ialloc T_DIR;
      panic_if (negb (rootino =? ROOTINO)) "assert";;
      iappend rootino (dirent_for rootino DOT);;
      iappend rootino (dirent_for rootino DOTDOT);;
      add_files rootino files;;
      rest rootino) Q (Mk start_img 1 nmeta).
Proof.
  intros Hok Hn Hroom HQ. destruct (start_system nmeta) as [S0 _]. set (s0 := Mk start_img 1 nmeta) in *.
  pose proof (root_cost_bound files Hn) as Hmax. pose proof (files_cost_nonneg files) as Hnn.
  unfold root_entries in *. set (d1 := dirent_for _ DOT) in *. set (d2 := dirent_for _ DOTDOT) in *. set (ents := entries 1 files) in *.
  assert (cost (blocks_of []) = 0) as Hz by done.
  pose proof (cost_mono _ _ (blocks_of_mono d1 (d2 ++ ents))) as C1.
  pose proof (cost_mono _ _ (blocks_of_mono (d1 ++ d2) ents)) as C2. rewrite <-app_assoc in C2.
  apply wp_bind. eapply wp_mono; [apply (ialloc_spec s0 [] T_DIR S0); done|].
  cbv beta. intros r s1 (-> & S1 & M1 & F1). change (inum_of (length [])) with ROOTINO. apply wp_bind, wp_panic_if; [done|].
  change ROOTINO with (inum_of 0) at 1. change ROOTINO with (inum_of 0) at 2.
  pose proof (sy_fb _ _ S1) as B1. cbn [total snd app] in B1. rewrite Hz in B1. rewrite !length_app in Hmax.
  apply wp_bind. eapply wp_mono; [apply (iappend_spec s1 _ 0 (fresh_din T_DIR) [] d1 S1); [done|cbn [app]; lia|cbn [app]; rewrite Hz; lia]|].
  cbv beta. intros _ s2 (rd2 & K2 & S2 & M2). cbn [app insert list_insert] in S2.
  pose proof (sy_fb _ _ S2) as B2. cbn [total snd app] in B2.
  apply wp_bind. eapply wp_mono; [apply (iappend_spec s2 _ 0 rd2 d1 d2 S2); [done|rewrite length_app; lia|lia]|].
  cbv beta. intros _ s3 (rd3 & K3 & S3 & M3). cbn [app insert list_insert] in S3.
  pose proof (sy_fb _ _ S3) as B3. cbn [total snd app] in B3.
  apply wp_bind. eapply wp_mono; [apply (add_files_spec s3 rd3 (d1 ++ d2) [] files S3 Hok)|].
  - simpl. lia.
  - cbn [length]. fold ents. rewrite !length_app. lia.
  - cbn [length]. fold ents. rewrite <-app_assoc. lia.
  - cbv beta. intros _ s4 (rd & dins & K4 & Kd & Hl & S4 & M4). apply (HQ rd dins); try done.
    + intros w off Ho. by rewrite K4, K3, K2.
    + intros b Hb Hni. by rewrite M4, M3, M2, M1.
Qed.

(** The size of the root directory and the free map. *)
Definition final_img v fb (din : list Z) : Z → block :=
  <[sb_bmapstart mkfs_sb := used_map (Z.to_nat fb)]> (with_din v ROOTINO din).
Record finished v fb fs : Prop := {
  fn_len : ∀ b, length (v b) = Z.to_nat BSIZE;
  fn_map : mapped v fb;
  fn_file : ∀ k din c, fs !! k = Some (din, c) → on_disk v (inum_of k) = node (inum_of k) din ∧
    holds v fb (on_disk v (inum_of k)) (blocks_of c) c;
  fn_apart : ∀ j k b, (j < length fs)%nat → (k < length fs)%nat → j ≠ k →
    owned v (on_disk v (inum_of j)) b → owned v (on_disk v (inum_of k)) b → False;
}.

Section finish.
Context (s : mk) (rd rc : list Z) (fs : list (list Z * list Z)) (sz : Z).
Hypothesis HS : system s ((rd, rc) :: fs).
Hypothesis Hroom : freeblock s ≤ FSSIZE.
Let rd' : list Z := put32 rd din_size sz.
Let v : Z → block := final_img (img s) (freeblock s) rd'.

Lemma length_rd' : length rd' = 64%nat.
Proof using HS.
  pose proof (of_len _ _ _ _ (sy_file _ _ HS 0 _ _ eq_refl)) as Hl. unfold rd'. rewrite length_putn; [done|]. rewrite Hl. unfold din_size. lia.
Qed.
Lemma final_data b : nmeta ≤ b → v b = img s b.
Proof. intros Hb. unfold v, final_img. rewrite fn_lookup_insert_ne by (change (sb_bmapstart mkfs_sb) with 45; mlia). apply with_din_data; [done|mlia]. Qed.
Lemma final_inode inum : 0 ≤ inum < NINODES → din_at v inum = din_at (with_din (img s) ROOTINO rd') inum.
Proof.
  intros Hi. pose proof (inode_sector inum Hi). unfold din_at, v, final_img.
  by rewrite fn_lookup_insert_ne by (change (sb_bmapstart mkfs_sb) with 45; lia).
Qed.

Lemma final_file k din c : ((rd', rc) :: fs) !! k = Some (din, c) →
  on_disk v (inum_of k) = node (inum_of k) din ∧ holds v (freeblock s) (node (inum_of k) din) (blocks_of c) c ∧
  ∃ x, ((rd, rc) :: fs) !! k = Some x ∧ ∀ b, owned v (node (inum_of k) din) b ↔ owned (img s) (node (inum_of k) x.1) b.
Proof using HS Hroom.
  intros Hk. pose proof length_rd' as Hl. assert (∃ din0, ((rd, rc) :: fs) !! k = Some (din0, c) ∧ din = if decide (k = 0)%nat then rd' else din0) as (din0 & Hk0 & Hd).
  { destruct k as [|k]; simpl in *; [injection Hk as <- <-; by exists rd|by exists din]. }
  pose proof (inum_range _ _ _ _ HS Hk0) as Hi. destruct (sy_file _ _ HS _ _ _ Hk0) as [F1 F2 F3 F4].
  assert (holds (img s) (freeblock s) (node (inum_of k) din) (blocks_of c) c ∧
    ∀ b, owned (img s) (node (inum_of k) din) b ↔ owned (img s) (node (inum_of k) din0) b) as [Hh Ho].
  { destruct k; simpl in Hd; rewrite Hd; [|done]. simpl in Hk0. injection Hk0 as E1 E2. unfold rd'. rewrite E1. by apply holds_set_size. }
  destruct (holds_ext _ _ _ _ _ v (freeblock s) Hh ltac:(lia)) as [Hh' Ho'].
  { intros b Hb. apply final_data. by apply (owned_above_meta _ _ _ _ _ _ Hh). }
  split; [|split; [done|exists (din0, c); split; [done|intros b; by rewrite Ho', Ho]]].
  rewrite <-node_on_disk, final_inode by done. f_equal. subst din. destruct k; simpl.
  - by apply (din_at_same _ _ _ _ (sy_clear _ _ HS)).
  - rewrite (din_at_other _ _ _ _ _ (sy_clear _ _ HS)); [done|done|done|lia|]. unfold inum_of. change ROOTINO with 1. lia.
Qed.

Lemma finish_system : finished v (freeblock s) ((rd', rc) :: fs).
Proof using HS Hroom.
  split.
  - intros b. unfold v, final_img. destruct (decide (b = sb_bmapstart mkfs_sb)) as [->|].
    + rewrite fn_lookup_insert. apply length_used_map.
    + rewrite fn_lookup_insert_ne by done. apply (cf_len _ (freeblock s)). apply with_din_clear; [apply HS|apply length_rd'|done].
  - split; [apply fn_lookup_insert|]. pose proof (cf_meta _ _ (sy_clear _ _ HS)). lia.
  - intros k din c Hk. destruct (final_file k din c Hk) as (-> & Hh & _). done.
  - intros j k b Hj Hk Hne. apply lookup_lt_is_Some in Hj as [[dj cj] Hj]. apply lookup_lt_is_Some in Hk as [[dk ck] Hk].
    destruct (final_file _ _ _ Hj) as (-> & _ & xj & Ej & Oj). destruct (final_file _ _ _ Hk) as (-> & _ & xk & Ek & Ok').
    rewrite Oj, Ok'. by apply (sy_apart _ _ HS).
Qed.
End finish.

(** The entries of the root directory. *)
Section root.
Context (v : Z → block) (fb : Z) (r : inode) (n : Z) (files : list hostfile).
Hypothesis Hh : holds v fb r n (root_entries files).
Hypothesis Hn : Z.of_nat (length files) + 1 < NINODES.

Lemma root_ent (k : nat) inum name :
  (k < length files + 2)%nat → slice (root_entries files) (16 * k) 16 = dirent_for inum name → 0 < inum < NINODES → proper name →
  matches v r name (Z.of_nat k) ∧ de_inum (ent v r (Z.of_nat k)) = inum.
Proof using Hh.
  intros Hk E Hi Hp. unfold matches. assert (ent v r (Z.of_nat k) = dirent_of (dirent_bytes (Dirent (u16 inum) (field (Z.to_nat DIRSIZ) name)))) as ->.
  { unfold ent. f_equal. change sizeof_dirent with 16. rewrite (holds_fread _ _ _ _ _ _ _ Hh) by (rewrite ?length_root; lia).
    replace (Z.to_nat (Z.of_nat k * 16)) with (16 * k)%nat by lia. rewrite E. unfold dirent_for, dirent_bytes. by rewrite xshort_u16. }
  change NINODES with 200 in Hi. destruct (dirent_roundtrip inum name ltac:(lia) Hp) as [-> ->]. split_and!; [lia|done..].
Qed.

Lemma root_dots : matches v r DOT 0 ∧ de_inum (ent v r 0) = ROOTINO ∧ matches v r DOTDOT 1 ∧ de_inum (ent v r 1) = ROOTINO.
Proof using Hh.
  destruct (root_ent 0 ROOTINO DOT) as [H1 H2]; [lia|apply slice_app_l; by rewrite length_dirent_for|done|by split; [repeat constructor|vm_compute; lia]|].
  destruct (root_ent 1 ROOTINO DOTDOT) as [H3 H4]; [lia| |done|by split; [repeat constructor|vm_compute; lia]|done].
  unfold root_entries. replace (16 * 1)%nat with (length (dirent_for ROOTINO DOT) + 0)%nat by by rewrite length_dirent_for.
  rewrite slice_app_r. apply slice_app_l. by rewrite length_dirent_for.
Qed.

Lemma root_entry k f : files !! k = Some f → proper (name_of f) →
  matches v r (name_of f) (Z.of_nat k + 2) ∧ de_inum (ent v r (Z.of_nat k + 2)) = Z.of_nat k + 2.
Proof using Hh Hn.
  intros Hk Hp. pose proof (lookup_lt_Some _ _ _ Hk). replace (Z.of_nat k + 2) with (Z.of_nat (k + 2)) by lia.
  apply root_ent; [lia| |lia|done]. unfold root_entries. rewrite app_assoc.
  set (d := dirent_for ROOTINO DOT ++ dirent_for ROOTINO DOTDOT).
  assert (length d = 32%nat) as Hd by (unfold d; by rewrite length_app, !length_dirent_for).
  replace (16 * (k + 2))%nat with (length d + 16 * k)%nat by lia. rewrite slice_app_r, (entries_slice 1 _ _ _ Hk).
  f_equal. unfold inum_of. lia.
Qed.

Lemma root_rest k : Z.of_nat (length files) + 2 ≤ k < MAXFILE * 64 → de_inum (ent v r k) = 0.
Proof using Hh.
  intros Hk. assert (fread v r (k * 16) 16 = replicate 16 0) as E.
  { apply list_eq. intros j. destruct (decide (j < 16)%nat).
    - rewrite fread_lookup, lookup_replicate_2, (ho_byte _ _ _ _ _ Hh) by mlia.
      rewrite lookup_ge_None_2; [done|]. rewrite length_root. lia.
    - rewrite !lookup_ge_None_2; [done|rewrite length_replicate; lia|rewrite length_fread; lia]. }
  unfold ent. change sizeof_dirent with 16. by rewrite E.
Qed.
End root.

(** The size that the root directory gets. *)
Definition root_size (files : list hostfile) : Z := (Z.of_nat (length files + 2) / 64 + 1) * BSIZE.

Lemma root_size_round files : Z.of_nat (length files) + 1 < NINODES →
  u32 ((Z.of_nat (length (root_entries files)) / BSIZE + 1) * BSIZE) = root_size files ∧ 0 ≤ root_size files < 2 ^ 14.
Proof.
  intros Hn. unfold root_size. rewrite length_root. change NINODES with 200 in Hn. change BSIZE with 1024.
  replace (Z.of_nat (16 * (length files + 2))) with (16 * Z.of_nat (length files + 2)) by lia. change 1024 with (16 * 64) at 1.
  rewrite Z.div_mul_cancel_l by lia. pose proof (Z.div_pos (Z.of_nat (length files + 2)) 64). pose proof (Z.div_lt_upper_bound (Z.of_nat (length files + 2)) 64 4).
  split; [apply wrap_small; lia|lia].
Qed.
(** It covers a block more than the entries need when they fill theirs. *)
Lemma root_size_blocks files :
  root_size files = blocks_of (root_entries files) * BSIZE + (if decide ((length files + 2) mod 64 = 0)%nat then BSIZE else 0).
Proof.
  unfold root_size, blocks_of. rewrite length_root. change BSIZE with 1024. set (m := (length files + 2)%nat).
  pose proof (Nat.div_mod_eq m 64) as Em. pose proof (Nat.mod_upper_bound m 64 ltac:(lia)) as Hm.
  replace (Z.of_nat m / 64) with (Z.of_nat (m / 64)) by (by rewrite Nat2Z.inj_div).
  assert ((Z.of_nat (16 * m) + 1024 - 1) / 1024 = Z.of_nat (m / 64) + if decide (m mod 64 = 0)%nat then 0 else 1) as ->.
  { symmetry. case_decide; [apply Z.div_unique with 1023|apply Z.div_unique with (16 * Z.of_nat (m mod 64) - 1)]; lia. }
  case_decide; lia.
Qed.

Section image.
Context (v : Z → block) (fb : Z) (rd : list Z) (dins : list (list Z)) (files : list hostfile).
Hypothesis HF : finished v fb ((rd, root_entries files) :: zip dins (contents <$> files)).
Hypothesis Hn : Z.of_nat (length files) + 1 < NINODES.
Hypothesis Hd : length dins = length files.
Hypothesis Hk : Forall (same_kind (fresh_din T_FILE)) dins.
Hypothesis Hs : ∀ k din c, zip dins (contents <$> files) !! k = Some (din, c) → get32 din din_size = Z.of_nat (length c).
Hypothesis Hr : s16 (get16 rd 0) = T_DIR.
Hypothesis Hrs : get32 rd din_size = root_size files.

Lemma image_file k f : files !! k = Some f → let i := on_disk v (Z.of_nat k + 2) in
  FInv mkfs_sb v i ∧ dense v i ∧ i_type i = T_FILE ∧ i_nlink i = 1 ∧ i_size i = Z.of_nat (length (contents f)) ∧
  fread v i 0 (length (contents f)) = contents f.
Proof using HF Hd Hk Hs.
  intros Hf i. assert (∃ din, dins !! k = Some din) as [din Hdin] by (apply lookup_lt_is_Some; rewrite Hd; by eapply lookup_lt_Some).
  assert (zip dins (contents <$> files) !! k = Some (din, contents f)) as Hz.
  { apply lookup_zip_with_Some. exists din, (contents f). split_and!; [done|done|]. by rewrite list_lookup_fmap, Hf. }
  destruct (fn_file _ _ _ HF (S k) din (contents f) Hz) as [E Hh].
  assert (i = on_disk v (inum_of (S k))) as -> by (unfold i, inum_of; f_equal; lia).
  pose proof (Forall_lookup_1 _ _ _ _ Hk Hdin) as K. pose proof (Hs _ _ _ Hz) as Hsz.
  split_and!.
  - apply (holds_FInv _ _ _ _ _ Hh); [apply HF|apply HF].
  - apply (holds_dense _ _ _ _ _ Hh). rewrite E. cbn [i_size node]. rewrite Hsz. apply (ho_fit _ _ _ _ _ Hh).
  - rewrite E. cbn [i_type node]. rewrite K by lia. by vm_compute.
  - rewrite E. cbn [i_nlink node]. rewrite K by lia. by vm_compute.
  - by rewrite E.
  - rewrite (holds_fread _ _ _ _ _ _ _ Hh) by lia. unfold slice. by rewrite firstn_all.
Qed.

Lemma image_root : let r := on_disk v ROOTINO in
  FInv mkfs_sb v r ∧ i_type r = T_DIR ∧ (dense v r ↔ (length files + 2) mod 64 ≠ 0)%nat ∧
  (dense v r → dir_ok mkfs_sb v r).
Proof using HF Hn Hr Hrs Hd.
  intros r. destruct (fn_file _ _ _ HF 0 _ _ eq_refl) as [E Hh]. change (on_disk v (inum_of 0)) with r in E, Hh.
  pose proof (root_size_blocks files) as Hb. destruct (root_size_round files Hn) as [_ Hsz].
  assert (i_size r = root_size files) as Es by by rewrite E.
  assert (FInv mkfs_sb v r) as Hi by (apply (holds_FInv _ _ _ _ _ Hh); apply HF).
  assert (i_type r = T_DIR) as Ht by by rewrite E.
  split_and!; [done|done| |].
  - split.
    + intros Hdn He. rewrite decide_True in Hb by done. pose proof (ho_n _ _ _ _ _ Hh) as Hn'.
      cut (blocks_of (root_entries files) < blocks_of (root_entries files)); [lia|].
      apply (ho_slot _ _ _ _ _ Hh); [mlia|]. apply Hdn; rewrite ?Es; mlia.
    + intros He. rewrite decide_False in Hb by done. apply (holds_dense _ _ _ _ _ Hh). lia.
  - intros Hdn. split; try done.
    + rewrite Es. mlia.
    + rewrite Es. unfold root_size. change BSIZE with (64 * sizeof_dirent). rewrite Z.mul_assoc. by apply Z.mod_mul.
Qed.
End image.

(** What precedes and follows the building of the files. *)
Lemma start_run files s0 (Q : unit → mk → Prop) :
  freeinode s0 = 1 → wp (rootino ← ialloc T_DIR;
    panic_if (negb (rootino =? ROOTINO)) "assert";;
    iappend rootino (dirent_for rootino DOT);;
    iappend rootino (dirent_for rootino DOTDOT);;
    add_files rootino files;;
    din ← rinode rootino;
    winode rootino (put32 din din_size (xint (u32 ((xint (get32 din din_size) / BSIZE + 1) * BSIZE))));;
    used ← gets freeblock;
    balloc used) Q (Mk start_img 1 nmeta) → wp (main files) Q s0.
Proof.
  intros Hf H. unfold main. apply wp_bind, wp_modify, wp_bind, wp_modify, wp_bind. unfold wsect. apply wp_modify.
  unfold set_img, set_freeblock. cbn [img freeinode freeblock]. rewrite Hf. exact H.
Qed.

Lemma end_run s rd rc fs (Q : unit → mk → Prop) :
  system s ((rd, rc) :: fs) → freeblock s ≤ FSSIZE →
  Q tt (set_img (final_img (img s) (freeblock s) (put32 rd din_size (u32 ((Z.of_nat (length rc) / BSIZE + 1) * BSIZE)))) s) →
  wp (din ← rinode ROOTINO;
      winode ROOTINO (put32 din din_size (xint (u32 ((xint (get32 din din_size) / BSIZE + 1) * BSIZE))));;
      used ← gets freeblock;
      balloc used) Q s.
Proof.
  intros HS Hr HQ. destruct (sy_file _ _ HS 0 _ _ eq_refl) as [E _ Esz Hh]. change (inum_of 0) with ROOTINO in E.
  pose proof (ho_n _ _ _ _ _ Hh). pose proof (ho_fit _ _ _ _ _ Hh).
  apply wp_bind, wp_rinode; [done|]. rewrite E. apply wp_bind, wp_winode; [done|]. apply wp_bind, wp_gets. cbn [freeblock set_img].
  unfold balloc. apply wp_bind, wp_panic_if.
  - change BPB with 8192. rewrite (proj2 (Z.ltb_lt _ _)); [done|]. mlia.
  - unfold wsect. apply wp_modify. rewrite Esz, !xint_u32.
    rewrite (wrap_wrap 32) by lia. replace (u32 (Z.of_nat (length rc))) with (Z.of_nat (length rc)) by (symmetry; apply wrap_small; mlia). exact HQ.
Qed.

Lemma total_files dins files : length dins = length files → total (zip dins (contents <$> files)) = files_cost files.
Proof.
  revert files. induction dins as [|d dins IH]; intros [|f files] Hl; try done.
  injection Hl as Hl. specialize (IH files Hl). cbn [fmap list_fmap zip zip_with total files_cost foldr snd]. unfold files_cost in IH. rewrite <-IH. done.
Qed.

(** The blocks that only [main] writes. *)
Lemma final_meta s rd : same_meta (Mk start_img 1 nmeta) s → let v := final_img (img s) (freeblock s) rd in
  v 1 = start_img 1 ∧ v 2 = zero_block.
Proof.
  intros Hm v. unfold v, final_img.
  rewrite !fn_lookup_insert_ne, !with_din_data, !Hm by (try done; change (sb_bmapstart mkfs_sb) with 45; mlia). done.
Qed.

Lemma image_all s rd dins files :
  system s ((rd, root_entries files) :: zip dins (contents <$> files)) → freeblock s ≤ FSSIZE →
  Z.of_nat (length files) + 1 < NINODES → length dins = length files → same_meta (Mk start_img 1 nmeta) s →
  same_kind (fresh_din T_DIR) rd → Forall (same_kind (fresh_din T_FILE)) dins →
  image (final_img (img s) (freeblock s) (put32 rd din_size (root_size files))) (freeblock s) files.
Proof.
  intros HS Hfb Hn Hl Hm K Kd. pose proof (finish_system s rd _ _ (root_size files) HS Hfb) as HF.
  destruct (final_meta s (put32 rd din_size (root_size files)) Hm) as [E1 E2].
  set (v := final_img _ _ _) in *. set (rd' := put32 rd din_size _) in *. destruct (root_size_round files Hn) as [_ Hsz].
  pose proof (of_len _ _ _ _ (sy_file _ _ HS 0 _ _ eq_refl)) as Hlr.
  assert (get32 rd' din_size = root_size files) as Es.
  { unfold rd'. rewrite get32_put32_same by (rewrite Hlr; unfold din_size; lia). apply wrap_small. lia. }
  assert (s16 (get16 rd' 0) = T_DIR) as Et.
  { unfold rd'. rewrite getn_putn_ne by (rewrite ?Hlr; unfold din_size; lia). rewrite K by lia. by vm_compute. }
  destruct (fn_file _ _ _ HF 0 _ _ eq_refl) as [_ Hh]. change (inum_of 0) with ROOTINO in Hh.
  split.
  - rewrite E1. by vm_compute.
  - done.
  - intros b Hb. apply mapped_inuse; [apply HF|change BPB with 8192; mlia].
  - intros k f Hf. apply (image_file v _ rd' dins files HF Hl Kd); [|done].
    intros j din c Hj. exact (of_size _ _ _ _ (sy_file _ _ HS (S j) _ _ Hj)).
  - intros j k b Hjk O1 O2 Hj. assert (length ((rd', root_entries files) :: zip dins (contents <$> files)) = S (length files)) as HL.
    { simpl. rewrite length_zip_with, length_fmap. lia. }
    apply (fn_apart _ _ _ HF (j - 1) (k - 1) b); [lia..| |].
    + by replace (inum_of (j - 1)) with (Z.of_nat j) by (unfold inum_of; lia).
    + by replace (inum_of (k - 1)) with (Z.of_nat k) by (unfold inum_of; lia).
  - by apply (image_root v (freeblock s) rd' dins files).
  - by eapply root_dots.
  - intros k f Hf Hp. by eapply root_entry.
  - intros k Hk. by eapply root_rest.
Qed.

(** C9. [mkfs] builds a correct image: for files that it accepts and that fit, it
    ends without a failed assertion, and the image has the superblock the kernel
    expects, an empty log, a free map that marks exactly the blocks below the first
    free one, each file as inode [k + 2] with its contents, all blocks of it in use
    and none shared with another file, and a root directory that has the entries
    [.] and [..], one entry for each file with its inode number, and free entries
    after them.  The root directory is one that the directory operations of the
    kernel accept, except when its entries fill their blocks: the size is then
    rounded up over a block that does not exist. *)
Theorem mkfs_image files s0 :
  freeinode s0 = 1 → Forall acceptable files → Z.of_nat (length files) + 1 < NINODES →
  nmeta + cost (blocks_of (root_entries files)) + files_cost files ≤ FSSIZE →
  wp (main files) (λ _ s, image (img s) (freeblock s) files) s0.
Proof.
  intros Hf Hok Hn Hroom. apply start_run; [done|]. apply build_spec; [done..|].
  intros rd dins s K Kd Hl HS Hm. assert (freeblock s ≤ FSSIZE) as Hfb.
  { rewrite (sy_fb _ _ HS). cbn [total snd]. rewrite total_files by done. lia. }
  apply (end_run _ _ _ _ _ HS Hfb). cbn [img freeblock set_img].
  rewrite (proj1 (root_size_round files Hn)). by apply (image_all s rd dins files).
Qed.

(** An image with an executable of two reads and an empty file. *)
Definition demo_files : list hostfile := [([117; 115; 101; 114; 47; 95; 99; 97; 116], Some [[127; 69]; [76; 70]]); ([82; 69], Some [])].
Lemma mkfs_image_witness :
  wp (main demo_files) (λ _ s, image (img s) (freeblock s) demo_files) (Mk (λ _, []) 1 0).
Proof.
  apply (mkfs_image demo_files (Mk (λ _, []) 1 0)); [reflexivity| |by vm_compute|by vm_compute].
  apply Forall_cons; split; [|apply Forall_cons; split; [|apply Forall_nil_2]];
    (split; [by apply (bool_decide_unpack _); vm_compute|by eexists|by apply (bool_decide_unpack _); vm_compute|by vm_compute]).
Defined.
