(* ===== verification/Proc.v ===== *)
(** * Processes ([kernel/proc.c])

    The process table and the operations on it: allocation, [fork], [exit],
    [wait], [sleep] and [wakeup], [kill], the changes of state of the
    scheduler.  Below it are the file table, the file system with the log and
    physical memory.

    Code between two points where the process can be preempted or where it
    releases the lock that protects what it looks at is one definition; [fork],
    [exit] and [wait] are sequences of them.  [p] is the index of the process
    that [myproc()] returns.  Locks are left out: each definition runs under
    the locks that the code holds there. *)

From S2P Require Import Prelude Word Param Str Kalloc Vm Fs File.

(** ** [kernel/proc.h] *)
Inductive procstate := UNUSED | USED | SLEEPING | RUNNABLE | RUNNING | ZOMBIE.
#[global] Instance procstate_eq_dec : EqDecision procstate.
Proof. solve_decision. Defined.

(** A channel is an address: 0, that of a [struct proc], or another one. *)
Inductive chan := NoChan | ChanProc (p : nat) | ChanAddr (a : Z).
#[global] Instance chan_eq_dec : EqDecision chan.
Proof. solve_decision. Defined.

(** Of [struct context] the registers [ra] and [sp] are assigned in C.  Null
    pointers are [None], or 0 for addresses of pages. *)
Record proc := Proc {
  p_state : procstate;
  p_chan : chan;
  p_killed : Z;
  p_xstate : Z;
  p_pid : Z;
  p_parent : option nat;
  p_kstack : Z;
  p_sz : Z;
  p_pagetable : Z;
  p_trapframe : Z;
  p_context : Z * Z;
  p_ofile : list (option nat);
  p_cwd : option nat;
  p_name : list Z;
}.

(** Assignments to the fields. *)
Definition set_state (x : procstate) (p : proc) : proc :=
  Proc x (p_chan p) (p_killed p) (p_xstate p) (p_pid p) (p_parent p) (p_kstack p) (p_sz p)
    (p_pagetable p) (p_trapframe p) (p_context p) (p_ofile p) (p_cwd p) (p_name p).
Definition set_chan (x : chan) (p : proc) : proc :=
  Proc (p_state p) x (p_killed p) (p_xstate p) (p_pid p) (p_parent p) (p_kstack p) (p_sz p)
    (p_pagetable p) (p_trapframe p) (p_context p) (p_ofile p) (p_cwd p) (p_name p).
Definition set_killed (x : Z) (p : proc) : proc :=
  Proc (p_state p) (p_chan p) x (p_xstate p) (p_pid p) (p_parent p) (p_kstack p) (p_sz p)
    (p_pagetable p) (p_trapframe p) (p_context p) (p_ofile p) (p_cwd p) (p_name p).
Definition set_xstate (x : Z) (p : proc) : proc :=
  Proc (p_state p) (p_chan p) (p_killed p) x (p_pid p) (p_parent p) (p_kstack p) (p_sz p)
    (p_pagetable p) (p_trapframe p) (p_context p) (p_ofile p) (p_cwd p) (p_name p).
Definition set_pid (x : Z) (p : proc) : proc :=
  Proc (p_state p) (p_chan p) (p_killed p) (p_xstate p) x (p_parent p) (p_kstack p) (p_sz p)
    (p_pagetable p) (p_trapframe p) (p_context p) (p_ofile p) (p_cwd p) (p_name p).
Definition set_parent (x : option nat) (p : proc) : proc :=
  Proc (p_state p) (p_chan p) (p_killed p) (p_xstate p) (p_pid p) x (p_kstack p) (p_sz p)
    (p_pagetable p) (p_trapframe p) (p_context p) (p_ofile p) (p_cwd p) (p_name p).
Definition set_kstack (x : Z) (p : proc) : proc :=
  Proc (p_state p) (p_chan p) (p_killed p) (p_xstate p) (p_pid p) (p_parent p) x (p_sz p)
    (p_pagetable p) (p_trapframe p) (p_context p) (p_ofile p) (p_cwd p) (p_name p).
Definition set_sz (x : Z) (p : proc) : proc :=
  Proc (p_state p) (p_chan p) (p_killed p) (p_xstate p) (p_pid p) (p_parent p) (p_kstack p) x
    (p_pagetable p) (p_trapframe p) (p_context p) (p_ofile p) (p_cwd p) (p_name p).
Definition set_pagetable (x : Z) (p : proc) : proc :=
  Proc (p_state p) (p_chan p) (p_killed p) (p_xstate p) (p_pid p) (p_parent p) (p_kstack p) (p_sz p)
    x (p_trapframe p) (p_context p) (p_ofile p) (p_cwd p) (p_name p).
Definition set_trapframe (x : Z) (p : proc) : proc :=
  Proc (p_state p) (p_chan p) (p_killed p) (p_xstate p) (p_pid p) (p_parent p) (p_kstack p) (p_sz p)
    (p_pagetable p) x (p_context p) (p_ofile p) (p_cwd p) (p_name p).
Definition set_context (x : Z * Z) (p : proc) : proc :=
  Proc (p_state p) (p_chan p) (p_killed p) (p_xstate p) (p_pid p) (p_parent p) (p_kstack p) (p_sz p)
    (p_pagetable p) (p_trapframe p) x (p_ofile p) (p_cwd p) (p_name p).
Definition set_ofile (x : list (option nat)) (p : proc) : proc :=
  Proc (p_state p) (p_chan p) (p_killed p) (p_xstate p) (p_pid p) (p_parent p) (p_kstack p) (p_sz p)
    (p_pagetable p) (p_trapframe p) (p_context p) x (p_cwd p) (p_name p).
Definition set_cwd (x : option nat) (p : proc) : proc :=
  Proc (p_state p) (p_chan p) (p_killed p) (p_xstate p) (p_pid p) (p_parent p) (p_kstack p) (p_sz p)
    (p_pagetable p) (p_trapframe p) (p_context p) (p_ofile p) x (p_name p).
Definition set_name (x : list Z) (p : proc) : proc :=
  Proc (p_state p) (p_chan p) (p_killed p) (p_xstate p) (p_pid p) (p_parent p) (p_kstack p) (p_sz p)
    (p_pagetable p) (p_trapframe p) (p_context p) (p_ofile p) (p_cwd p) x.

(** Words of [struct trapframe], and its size in bytes. *)
Definition TF_epc : Z := 3.
Definition TF_sp : Z := 6.
Definition TF_a (n : Z) : Z := 14 + n.
Definition sizeof_trapframe : nat := 288.

(** ** What lies below *)

(** Transactions. *)
Class TxStore (B : Type) := {
  tx_begin : K B unit;
  tx_end : K B unit;
}.
#[global] Instance log_tx : TxStore Log.lst := { tx_begin := Log.begin_op; tx_end := Log.end_op }.

(** Pipes and devices, with the page table of the caller. *)
Class DevOps (S : Type) := {
  d_piperead : Z → Z → Z → Z → K S Z;
  d_pipewrite : Z → Z → Z → Z → K S Z;
  d_pipeclose : Z → bool → K S unit;
  d_pipeinit : Z → K S unit;
  d_read : Z → Z → option (Z → Z → K S Z);
  d_write : Z → Z → option (Z → Z → K S Z);
}.

Section ops.
Context {B : Type} `{!BlockStore B, !TxStore B, !DevOps (fst B pst)} (kend : Z).

(** What [file.c] needs, for a process with page table [pt]. *)
Definition kernel_ops (pt : Z) : FileOps (fst B pst) := {|
  begin_op := on_store tx_begin;
  end_op := on_store tx_end;
  o_ilock ip := ilock (Some ip);
  o_iunlock ip := iunlock (Some ip);
  o_iput ip := iput ip;
  o_stati ip := stati ip;
  o_readi ip addr off n := r ← readi (copyout pt) ip true addr off (u32 n); mret r.1;
  o_writei ip addr off n := writei (copyin pt) ip true [] addr off (u32 n);
  o_copyout addr l := on_mem (copyout pt addr l);
  o_piperead := d_piperead pt;
  o_pipewrite := d_pipewrite pt;
  o_pipeclose := d_pipeclose;
  o_pipeinit := d_pipeinit;
  o_kalloc := on_mem kalloc;
  o_kfree pa := on_mem (kfree kend pa);
  dev_read := d_read pt;
  dev_write := d_write pt;
|}.
End ops.

(** ** State *)
Record pcb (B : Type) := Pcb {
  files : fls (fst B pst);
  procs : list proc;
  nextpid : Z;
  initproc : option nat;
  ticks : Z;
}.
Arguments Pcb {B}.
Arguments files {B}.
Arguments procs {B}.
Arguments nextpid {B}.
Arguments initproc {B}.
Arguments ticks {B}.

Section proc.
Context {B : Type} `{!BlockStore B, !TxStore B, !DevOps (fst B pst)}.
(** Addresses placed by the linker. *)
Context (kend trampoline forkret : Z).
Abbreviation P := (pcb B).

Definition on_files {A} (m : K (fls (fst B pst)) A) : K P A :=
  lift files (λ x s, Pcb x (procs s) (nextpid s) (initproc s) (ticks s)) m.
Definition on_fs {A} (m : K (fst B pst) A) : K P A := on_files (on_below m).
Definition on_pages {A} (m : K pst A) : K P A := on_fs (on_mem m).

(** [p->field], and assignments to [*p]. *)
Definition pget {A} (p : nat) (f : proc → A) : K P A :=
  t ← gets procs;
  match t !! p with
  | Some x => mret (f x)
  | None => undefined "struct proc"
  end.
Definition pset (p : nat) (f : proc → proc) : K P unit :=
  pget p id;;
  modify (λ s, Pcb (files s) (alter f p (procs s)) (nextpid s) (initproc s) (ticks s)).

(** ** Initialisation and allocation *)
Definition procinit : K P unit :=
  for_each (Z.to_nat NPROC) 0 (λ i,
    pset (Z.to_nat i) (λ p, set_kstack (KSTACK i) (set_state UNUSED p))).

(** The increment of the [int] [nextpid] overflows at its largest value. *)
Definition allocpid : K P Z :=
  pid ← gets nextpid;
  if 2 ^ 31 - 1 <=? pid then undefined "nextpid" else
  modify (λ s, Pcb (files s) (procs s) (pid + 1) (initproc s) (ticks s));;
  mret pid.

Definition proc_pagetable (trapframe : Z) : K pst Z :=
  pagetable ← uvmcreate;
  if pagetable =? 0 then mret 0 else
  r ← mappages pagetable TRAMPOLINE PGSIZE trampoline (Z.lor PTE_R PTE_X);
  if r <? 0 then uvmfree kend pagetable 0;; mret 0 else
  r ← mappages pagetable TRAPFRAME PGSIZE trapframe (Z.lor PTE_R PTE_W);
  if r <? 0 then
    uvmunmap kend pagetable TRAMPOLINE 1 false;;
    uvmfree kend pagetable 0;;
    mret 0
  else mret pagetable.

Definition proc_freepagetable (pagetable sz : Z) : K pst unit :=
  uvmunmap kend pagetable TRAMPOLINE 1 false;;
  uvmunmap kend pagetable TRAPFRAME 1 false;;
  uvmfree kend pagetable sz.

Definition freeproc (p : nat) : K P unit :=
  x ← pget p id;
  when (negb (p_trapframe x =? 0)) (on_pages (kfree kend (p_trapframe x)));;
  pset p (set_trapframe 0);;
  when (negb (p_pagetable x =? 0)) (on_pages (proc_freepagetable (p_pagetable x) (p_sz x)));;
  pset p (λ y, set_state UNUSED (set_xstate 0 (set_killed 0 (set_chan NoChan (set_name []
    (set_parent None (set_pid 0 (set_sz 0 (set_pagetable 0 y))))))))).

(** The first entry that is [UNUSED]. *)
Fixpoint unused_proc (t : list proc) (i : nat) : option nat :=
  match t with
  | [] => None
  | p :: t => if decide (p_state p = UNUSED) then Some i else unused_proc t (S i)
  end.

Definition allocproc : K P (option nat) :=
  t ← gets procs;
  match unused_proc t 0 with
  | None => mret None
  | Some p =>
      pid ← allocpid;
      pset p (λ x, set_state USED (set_pid pid x));;
      tf ← on_pages kalloc;
      pset p (set_trapframe tf);;
      if tf =? 0 then freeproc p;; mret None else
      pt ← on_pages (proc_pagetable tf);
      pset p (set_pagetable pt);;
      if pt =? 0 then freeproc p;; mret None else
      pset p (λ x, set_context (forkret, p_kstack x + PGSIZE) x);;
      mret (Some p)
  end.

(** The machine code of [user/initcode.S] and the process that runs it;
    [root] is [namei("/")]. *)
Definition initcode : list Z :=
  [0x17; 0x05; 0x00; 0x00; 0x13; 0x05; 0x45; 0x02;
   0x97; 0x05; 0x00; 0x00; 0x93; 0x85; 0x35; 0x02;
   0x93; 0x08; 0x70; 0x00; 0x73; 0x00; 0x00; 0x00;
   0x93; 0x08; 0x20; 0x00; 0x73; 0x00; 0x00; 0x00;
   0xef; 0xf0; 0x9f; 0xff; 0x2f; 0x69; 0x6e; 0x69;
   0x74; 0x00; 0x00; 0x24; 0x00; 0x00; 0x00; 0x00;
   0x00; 0x00; 0x00; 0x00].
Definition initcode_name : list Z := [105; 110; 105; 116; 99; 111; 100; 101].

Definition userinit : K P unit :=
  o ← allocproc;
  modify (λ s, Pcb (files s) (procs s) (nextpid s) o (ticks s));;
  match o with
  | None => undefined "userinit"
  | Some p =>
      x ← pget p id;
      on_pages (uvmfirst (p_pagetable x) initcode);;
      pset p (set_sz PGSIZE);;
      on_pages (word_put (p_trapframe x) TF_epc 0);;
      on_pages (word_put (p_trapframe x) TF_sp PGSIZE);;
      pset p (set_name initcode_name);;
      ip ← on_fs (namei (copyout 0) 0 [SLASH]);
      pset p (set_cwd ip);;
      pset p (set_state RUNNABLE)
  end.

(** ** The memory of a process; [n] is an [int] *)
Definition growproc (p : nat) (n : Z) : K P Z :=
  x ← pget p id;
  let sz := p_sz x in
  if 0 <? n then
    r ← on_pages (uvmalloc kend (p_pagetable x) sz (u64 (sz + n)) PTE_W);
    if r =? 0 then mret (-1) else pset p (set_sz r);; mret 0
  else if n <? 0 then
    r ← on_pages (uvmdealloc kend (p_pagetable x) sz (u64 (sz + n)));
    pset p (set_sz r);; mret 0
  else pset p (set_sz sz);; mret 0.

(** ** Sleeping *)

(** [sleep] up to [sched()], and after it. *)
Definition sleep_begin (p : nat) (c : chan) : K P unit :=
  pset p (λ x, set_state SLEEPING (set_chan c x)).
Definition sleep_end (p : nat) : K P unit := pset p (set_chan NoChan).

(** [me] is [myproc()], [None] in an interrupt without a process. *)
Definition wakeup (me : option nat) (c : chan) : K P unit :=
  for_each (Z.to_nat NPROC) 0 (λ i,
    let q := Z.to_nat i in
    if decide (me = Some q) then mret tt else
    x ← pget q id;
    when (bool_decide (p_state x = SLEEPING) && bool_decide (p_chan x = c))
      (pset q (set_state RUNNABLE))).

Definition kill (pid : Z) : K P Z :=
  r ← for_loop (Z.to_nat NPROC) 0 (λ i,
    let q := Z.to_nat i in
    x ← pget q id;
    if p_pid x =? pid then
      pset q (set_killed 1);;
      when (bool_decide (p_state x = SLEEPING)) (pset q (set_state RUNNABLE));;
      mret (Some 0)
    else mret None);
  mret (default (-1) r).

Definition setkilled (p : nat) : K P unit := pset p (set_killed 1).
Definition killed (p : nat) : K P Z := pget p p_killed.

(** ** fork, exit, wait *)

(** [fork] up to the release of [np->lock]: the child exists and is [USED]. *)
Definition fork_alloc (p : nat) : K P (option nat) :=
  o ← allocproc;
  match o with
  | None => mret None
  | Some np =>
      x ← pget p id;
      y ← pget np id;
      r ← on_pages (uvmcopy kend (p_pagetable x) (p_pagetable y) (p_sz x));
      if r <? 0 then freeproc np;; mret None else
      pset np (set_sz (p_sz x));;
      tf ← on_pages (page_read (p_trapframe x) 0 sizeof_trapframe);
      on_pages (page_write (p_trapframe y) 0 tf);;
      on_pages (word_put (p_trapframe y) (TF_a 0) 0);;
      for_each (Z.to_nat NOFILE) 0 (λ i,
        match p_ofile x !! Z.to_nat i with
        | Some (Some f) =>
            f' ← on_files (filedup f);
            pset np (λ z, set_ofile (<[Z.to_nat i := Some f']> (p_ofile z)) z)
        | _ => mret tt
        end);;
      match p_cwd x with
      | None => undefined "cwd"
      | Some d =>
          d' ← on_fs (idup d);
          pset np (set_cwd (Some d'));;
          pset np (set_name (take 15 (p_name x)));;
          mret (Some np)
      end
  end.
(** Under [wait_lock], and then under [np->lock]. *)
Definition fork_parent (p np : nat) : K P unit := pset np (set_parent (Some p)).
Definition fork_start (np : nat) : K P unit := pset np (set_state RUNNABLE).

Definition fork (p : nat) : K P Z :=
  o ← fork_alloc p;
  match o with
  | None => mret (-1)
  | Some np =>
      pid ← pget np p_pid;
      fork_parent p np;;
      fork_start np;;
      mret pid
  end.

Definition reparent (p : nat) : K P unit :=
  for_each (Z.to_nat NPROC) 0 (λ i,
    let q := Z.to_nat i in
    x ← pget q id;
    when (bool_decide (p_parent x = Some p)) (
      init ← gets initproc;
      pset q (set_parent init);;
      wakeup (Some p) (match init with Some i => ChanProc i | None => NoChan end))).

(** [exit] before it takes [wait_lock]. *)
Definition exit_close (p : nat) : K P unit :=
  init ← gets initproc;
  panic_if (bool_decide (init = Some p)) "init exiting";;
  pt ← pget p p_pagetable;
  for_each (Z.to_nat NOFILE) 0 (λ fd,
    l ← pget p p_ofile;
    match l !! Z.to_nat fd with
    | Some (Some f) =>
        on_files (fileclose (FileOps0 := kernel_ops kend pt) f);;
        pset p (λ x, set_ofile (<[Z.to_nat fd := None]> (p_ofile x)) x)
    | _ => mret tt
    end);;
  on_fs (on_store tx_begin);;
  d ← pget p p_cwd;
  (match d with Some ip => on_fs (iput ip) | None => undefined "cwd" end);;
  on_fs (on_store tx_end);;
  pset p (set_cwd None).
(** The rest, up to [sched()]. *)
Definition exit_zombie (p : nat) (status : Z) : K P unit :=
  reparent p;;
  pp ← pget p p_parent;
  wakeup (Some p) (match pp with Some q => ChanProc q | None => NoChan end);;
  pset p (λ x, set_state ZOMBIE (set_xstate status x)).
Definition exit (p : nat) (status : Z) : K P unit := exit_close p;; exit_zombie p status.

(** One round of the loop of [wait], under [wait_lock]: a result, or [None]
    when the process sleeps. *)
Definition wait_scan (p : nat) (addr : Z) : K P (bool + Z) :=
  pt ← pget p p_pagetable;
  '(havekids, r) ← while_loop (S (Z.to_nat NPROC)) (0, false) (λ '(i, havekids),
    if NPROC <=? i then mret (inr (havekids, None)) else
    let q := Z.to_nat i in
    x ← pget q id;
    if decide (p_parent x = Some p) then
      if decide (p_state x = ZOMBIE) then
        e ← (if addr =? 0 then mret 0 else on_pages (copyout pt addr (le_bytes 4 (p_xstate x))));
        if e <? 0 then mret (inr (true, Some (-1)))
        else freeproc q;; mret (inr (true, Some (p_pid x)))
      else mret (inl (i + 1, true))
    else mret (inl (i + 1, havekids)));
  mret (match r with Some v => inr v | None => inl havekids end).

Definition wait_round (p : nat) (addr : Z) : K P (option Z) :=
  r ← wait_scan p addr;
  match r with
  | inr v => mret (Some v)
  | inl havekids =>
      k ← killed p;
      if negb havekids || negb (k =? 0) then mret (Some (-1))
      else sleep_begin p (ChanProc p);; mret None
  end.

(** ** The scheduler: [scheduler] takes a process, [yield] gives it back *)
Definition sched_run (p : nat) : K P unit :=
  x ← pget p id;
  when (bool_decide (p_state x = RUNNABLE)) (pset p (set_state RUNNING)).
Definition yield (p : nat) : K P unit := pset p (set_state RUNNABLE).

(** [procdump]: what it prints of each process. *)
Definition state_name (s : procstate) : string :=
  match s with
  | UNUSED => "unused" | USED => "used" | SLEEPING => "sleep " | RUNNABLE => "runble"
  | RUNNING => "run   " | ZOMBIE => "zombie"
  end.
Definition procdump : K P (list (Z * string * list Z)) :=
  t ← gets procs;
  mret ((λ p, (p_pid p, state_name (p_state p), p_name p)) <$>
        filter (λ p, p_state p ≠ UNUSED) t).

Lemma wp_pget {A} p (f : proc → A) x (Q : A → P → Prop) s :
  procs s !! p = Some x → Q (f x) s → wp (pget p f) Q s.
Proof using Type. intros Hx HQ. unfold pget. wp_steps. by rewrite Hx. Qed.
End proc.
