(* ===== verification/Syscall.v ===== *)
(** * System call arguments and the calls of [kernel/sysproc.c]

    The arguments are in the trap frame of the process [p] that made the call;
    strings are fetched from its memory. *)

From S2P Require Import Prelude Word Param Str Kalloc Vm Fs File Proc.

(** How a call ends: with a value for the register [a0], asleep (it is
    continued by another round), or not at all. *)
Inductive sysres := Ret (v : Z) | Blocked | Gone.

Section syscall.
Context {B : Type} `{!BlockStore B, !TxStore B, !DevOps (fst B pst)}.
Context (kend trampoline forkret : Z).
Abbreviation P := (pcb B).

(** ** [kernel/syscall.c] *)
Definition fetchaddr (p : nat) (addr : Z) : K P (option Z) :=
  x ← pget p id;
  if (p_sz x <=? addr) || (p_sz x <? u64 (addr + 8)) then mret None else
  '(r, l) ← on_pages (copyin (p_pagetable x) addr 8);
  mret (if negb (r =? 0) then None else Some (of_le l)).

(** The length of the string and the string, without its zero. *)
Definition fetchstr (p : nat) (addr max : Z) : K P (Z * list Z) :=
  pt ← pget p p_pagetable;
  '(r, buf) ← on_pages (copyinstr pt addr max);
  mret (if r <? 0 then (-1, buf) else (Z.of_nat (length (removelast buf)), removelast buf)).

Definition argraw (p : nat) (n : Z) : K P Z :=
  if (0 <=? n) && (n <? 6) then
    tf ← pget p p_trapframe;
    on_pages (word_get tf (TF_a n))
  else panic "argraw".
Definition argint (p : nat) (n : Z) : K P Z := v ← argraw p n; mret (s32 v).
Definition argaddr (p : nat) (n : Z) : K P Z := argraw p n.
Definition argstr (p : nat) (n max : Z) : K P (Z * list Z) :=
  addr ← argaddr p n;
  fetchstr p addr max.

(** ** [kernel/sysproc.c] *)
Definition sys_exit (p : nat) : K P sysres :=
  n ← argint p 0;
  exit kend p n;;
  mret Gone.

Definition sys_getpid (p : nat) : K P Z := pget p p_pid.
Definition sys_fork (p : nat) : K P Z := fork kend trampoline forkret p.

Definition sys_wait (p : nat) : K P sysres :=
  addr ← argaddr p 0;
  r ← wait_round kend p addr;
  mret (match r with Some v => Ret v | None => Blocked end).

Definition sys_sbrk (p : nat) : K P Z :=
  n ← argint p 0;
  addr ← pget p p_sz;
  r ← growproc kend p n;
  mret (if r <? 0 then -1 else addr).

(** The address of the variable [ticks]. *)
Context (ticks_addr : Z).

(** One round of the loop of [sys_sleep]: [None] when the process sleeps. *)
Definition sleep_round (p : nat) (n ticks0 : Z) : K P (option Z) :=
  t ← gets ticks;
  if u32 (t - ticks0) <? n then
    k ← killed p;
    if negb (k =? 0) then mret (Some (-1))
    else sleep_begin p (ChanAddr ticks_addr);; mret None
  else mret (Some 0).

Definition sys_sleep (p : nat) : K P sysres :=
  n ← argint p 0;
  let n := if n <? 0 then 0 else n in
  ticks0 ← gets ticks;
  r ← sleep_round p n ticks0;
  mret (match r with Some v => Ret v | None => Blocked end).

Definition sys_kill (p : nat) : K P Z := pid ← argint p 0; kill pid.
Definition sys_uptime : K P Z := gets ticks.

(** ** [clockintr] of [kernel/trap.c] on processor 0 *)
Definition clockintr (me : option nat) : K P unit :=
  modify (λ s, Pcb (files s) (procs s) (nextpid s) (initproc s) (u32 (ticks s + 1)));;
  wakeup me (ChanAddr ticks_addr).
End syscall.
