(* ===== verification/Trap.v ===== *)
(** * Traps ([kernel/trap.c])

    What runs between an interrupt, exception or system call and the return from
    it: the assembly of [Asm] around the C functions, on the state of one hart, the
    processes and the interrupt controller.  The page tables that the hart walks
    are given by [translate].

    The calls that may give up the processor continue, perhaps on another hart,
    when the process is chosen again: [resched] is what happens until then.  The
    handlers of the two devices are parameters; [Uart] and [VirtioSpec] are about
    them. *)

From S2P Require Import Prelude Word Riscv Param Kalloc Vm Asm Plic Fs File Proc Syscall.

(** ** Memory seen as words *)
(** A word of physical memory, at an address that is a multiple of 8. *)
#[global] Instance pst_words : WordMem pst := {
  wm_load m a := x ← pages m !! PGROUNDDOWN a; Some (get64 x (word_off (a mod PGSIZE / 8)));
  wm_store m a v :=
    x ← pages m !! PGROUNDDOWN a;
    Some (Pst (<[PGROUNDDOWN a := put64 x (word_off (a mod PGSIZE / 8)) v]> (pages m)) (freelist m)) }.

(** How a trap of a user program ends. *)
Inductive outcome := ToUser | Exited | Asleep.

Section trap.
Context {B : Type} `{!BlockStore B, !TxStore B, !DevOps (fst B pst)}.
Context {D : Type} `{!PlicDev D}.
Abbreviation P := (pcb B).

Record kst := Kst { kproc : P; kplic : D }.
Abbreviation T := (hart * kst)%type.

Definition mem_of (s : P) : pst := umem (below (files s)).
Definition set_mem (m : pst) (s : P) : P :=
  Pcb (Fls (Fst (store (below (files s))) (sb (below (files s))) (itable (below (files s))) m) (ftable (files s)))
    (procs s) (nextpid s) (initproc s) (ticks s).
#[global] Instance kst_words : WordMem kst := {
  wm_load s a := wm_load (mem_of (kproc s)) a;
  wm_store s a v := m ← wm_store (mem_of (kproc s)) a v; Some (Kst (set_mem m (kproc s)) (kplic s)) }.

Definition hw {A} (m : K hart A) : K T A := on_hw m.
Definition on_kst {A} (m : K kst A) : K T A := lift snd (λ k s, (s.1, k)) m.
Definition on_proc {A} (m : K P A) : K T A := on_kst (lift kproc (λ x k, Kst x (kplic k)) m).
Definition on_plic {A} (m : K D A) : K T A := on_kst (lift kplic (λ x k, Kst (kproc k) x) m).

(** Addresses placed by the linker; [uservec] and [userret] are offsets in the
    trampoline page. *)
Context (kend kernelvec_addr uservec_off userret_off usertrap_addr ticks_addr : Z).
(** The handlers, a system call run to its end, and the other processes. *)
Context (uartintr virtio_disk_intr : K kst unit) (syscall : nat → K T sysres) (resched : nat → K T unit).

Definition cpuid : K T Z := x ← hw r_tp; mret (s32 x).

Definition trapinithart : K T unit := hw (w_stvec kernelvec_addr).

(** [me] is [myproc()]. *)
Definition clockintr (me : option nat) : K T unit :=
  c ← cpuid;
  when (c =? 0) (on_proc (Syscall.clockintr ticks_addr me));;
  t ← hw r_time;
  hw (w_stimecmp (u64 (t + 1000000))).

Definition devintr (me : option nat) : K T Z :=
  scause ← hw r_scause;
  if scause =? 0x8000000000000009 then
    c ← cpuid;
    irq ← on_plic (plic_claim c);
    (if irq =? UART0_IRQ then on_kst uartintr
     else if irq =? VIRTIO0_IRQ then on_kst virtio_disk_intr
     else mret tt);;
    when (negb (irq =? 0)) (c ← cpuid; on_plic (plic_complete c irq));;
    mret 1
  else if scause =? 0x8000000000000005 then
    clockintr me;;
    mret 2
  else mret 0.

(** Words of the trap frame of [p]. *)
Definition tf_get (p : nat) (i : Z) : K T Z := on_proc (tf ← pget p p_trapframe; on_pages (word_get tf i)).
Definition tf_put (p : nat) (i v : Z) : K T unit := on_proc (tf ← pget p p_trapframe; on_pages (word_put tf i v)).

(** Up to the jump to [userret], with the page table in [a0]. *)
Definition usertrapret (p : nat) : K T unit :=
  hw intr_off;;
  hw (w_stvec (TRAMPOLINE + uservec_off));;
  x ← hw r_satp; tf_put p 0 x;;
  ks ← on_proc (pget p p_kstack); tf_put p 1 (u64 (ks + PGSIZE));;
  tf_put p 2 usertrap_addr;;
  x ← hw r_tp; tf_put p 4 x;;
  x ← hw r_sstatus;
  let x := Z.land x (lnot64 SSTATUS_SPP) in
  let x := Z.lor x SSTATUS_SPIE in
  hw (w_sstatus x);;
  epc ← tf_get p TF_epc; hw (w_sepc epc);;
  pt ← on_proc (pget p p_pagetable);
  let satp := MAKE_SATP pt in
  hw (modify (λ h, set_pc (TRAMPOLINE + userret_off) (set_reg Reg.a0 satp h))).

Definition usertrap_end (p : nat) (which_dev : Z) : K T outcome :=
  k ← on_proc (killed p);
  if negb (k =? 0) then on_proc (exit kend p (-1));; mret Exited else
  when (which_dev =? 2) (on_proc (yield p);; resched p);;
  usertrapret p;;
  mret ToUser.

Definition usertrap (p : nat) : K T outcome :=
  st ← hw r_sstatus;
  panic_if (negb (Z.land st SSTATUS_SPP =? 0)) "usertrap: not from user mode";;
  hw (w_stvec kernelvec_addr);;
  pc ← hw r_sepc; tf_put p TF_epc pc;;
  scause ← hw r_scause;
  if scause =? 8 then
    k ← on_proc (killed p);
    if negb (k =? 0) then on_proc (exit kend p (-1));; mret Exited else
    epc ← tf_get p TF_epc;
    tf_put p TF_epc (u64 (epc + 4));;
    hw intr_on;;
    r ← syscall p;
    match r with
    | Ret _ => usertrap_end p 0
    | Blocked => mret Asleep
    | Gone => mret Exited
    end
  else
    which_dev ← devintr (Some p);
    when (which_dev =? 0) (on_proc (setkilled p));;
    usertrap_end p which_dev.

Definition kerneltrap (me : option nat) : K T unit :=
  sepc ← hw r_sepc;
  sstatus ← hw r_sstatus;
  scause ← hw r_scause;
  panic_if (Z.land sstatus SSTATUS_SPP =? 0) "kerneltrap: not from supervisor mode";;
  i ← hw intr_get;
  panic_if i "kerneltrap: interrupts enabled";;
  which_dev ← devintr me;
  panic_if (which_dev =? 0) "kerneltrap";;
  match me with
  | Some p => when (which_dev =? 2) (on_proc (yield p);; resched p)
  | None => mret tt
  end;;
  hw (w_sepc sepc);;
  hw (w_sstatus sstatus).

(** From the user program through the kernel and back: the trap goes to [uservec],
    which jumps to [usertrap], and [usertrapret] jumps to [userret]. *)
Definition at_pc (a : Z) : K T unit :=
  x ← hw (gets pc);
  if x =? a then mret tt else undefined "jump".
Definition user_trap (translate : Z → Z → option Z) (p : nat) : K T outcome :=
  at_pc (TRAMPOLINE + uservec_off);;
  uservec translate;;
  at_pc usertrap_addr;;
  o ← usertrap p;
  match o with
  | ToUser =>
      at_pc (TRAMPOLINE + userret_off);;
      userret translate;;
      mret ToUser
  | _ => mret o
  end.
End trap.
Arguments Kst {B D}.
Arguments kproc {B D}.
Arguments kplic {B D}.

(** ** Words of memory *)
Lemma word_pos a : a mod 8 = 0 → Z.of_nat (word_off (a mod PGSIZE / 8)) = a mod PGSIZE ∧ a mod PGSIZE + 8 ≤ PGSIZE.
Proof.
  intros Ha. unfold word_off, PGSIZE. pose proof (Z.mod_pos_bound a 4096 ltac:(lia)).
  assert (a mod 4096 mod 8 = 0) as E by (rewrite <-Ha; apply Z.mod_mod_divide; by exists 512).
  pose proof (Z.div_mod (a mod 4096) 8). lia.
Qed.

Lemma word_apart a b :
  a mod 8 = 0 → b mod 8 = 0 → b ≠ a → PGROUNDDOWN b = PGROUNDDOWN a →
  (word_off (b mod PGSIZE / 8) + 8 ≤ word_off (a mod PGSIZE / 8) ∨ word_off (a mod PGSIZE / 8) + 8 ≤ word_off (b mod PGSIZE / 8))%nat.
Proof.
  intros Ha Hb Hne Hp. destruct (word_pos a Ha) as [Ea _], (word_pos b Hb) as [Eb _].
  unfold PGROUNDDOWN in Hp. revert Ea Eb. unfold word_off. intros. lia.
Qed.

#[global] Program Instance pst_laws : WordMemLaws pst := {
  wm_ok m a := a mod 8 = 0 ∧ ∃ x, pages m !! PGROUNDDOWN a = Some x ∧ length x = Z.to_nat PGSIZE }.
Next Obligation. intros m a (_ & x & Hx & _). simpl. rewrite Hx. by eexists. Qed.
Next Obligation.
  intros m a v (Ha & x & Hx & Hl). simpl. rewrite Hx. simpl. eexists. split; [done|]. simpl.
  destruct (word_pos a Ha) as [Ea Ha'].
  assert (word_off (a mod PGSIZE / 8) + 8 ≤ length x)%nat as Hfit by (rewrite Hl; unfold PGSIZE in *; lia).
  split_and!.
  - intros b (Hb & y & Hy & Hly). split; [done|]. destruct (decide (PGROUNDDOWN b = PGROUNDDOWN a)) as [E|E].
    + rewrite E, lookup_insert_eq. eexists. split; [done|]. by rewrite length_putn.
    + rewrite lookup_insert_ne by done. by eexists.
  - rewrite lookup_insert_eq. simpl. by rewrite getn_putn_same.
  - intros b (Hb & y & Hy & Hly) Hne. destruct (decide (PGROUNDDOWN b = PGROUNDDOWN a)) as [E|E].
    + rewrite E, lookup_insert_eq. simpl. rewrite E, Hx in *. simplify_eq. simpl.
      rewrite getn_putn_ne; [done|done|]. by apply word_apart.
    + by rewrite lookup_insert_ne by done.
Qed.

Section laws.
Context {B D : Type}.
#[global] Program Instance kst_laws : WordMemLaws (@kst B D) := { wm_ok s a := wm_ok (mem_of (kproc s)) a }.
Next Obligation. intros s a H. by apply (wm_load_ok (mem_of (kproc s))). Qed.
Next Obligation.
  intros s a v H. destruct (wm_store_ok (mem_of (kproc s)) a v H) as (m' & E & H1 & H2 & H3).
  exists (Kst (set_mem m' (kproc s)) (kplic s)). split; [|done]. by cbn; cbn in E; rewrite E.
Qed.
End laws.
