(* ===== verification/Exec.v ===== *)
(** * Program loading ([kernel/exec.c])

    The ELF file is read through the file system into a new page table, the
    arguments are copied onto its stack, and the process is switched to it. *)

From S2P Require Import Prelude Word Param Str Kalloc Vm Fs File Proc.

(** ** [kernel/elf.h] *)
Definition ELF_MAGIC : Z := 0x464C457F.
Definition ELF_PROG_LOAD : Z := 1.
Record elfhdr := Elfhdr { elf_magic : Z; elf_entry : Z; elf_phoff : Z; elf_phnum : Z }.
Definition sizeof_elfhdr : Z := 64.
Definition elfhdr_of (l : list Z) : elfhdr :=
  Elfhdr (get32 l 0) (get64 l 24) (get64 l 32) (get16 l 56).
Record proghdr := Proghdr {
  ph_type : Z; ph_flags : Z; ph_off : Z; ph_vaddr : Z; ph_filesz : Z; ph_memsz : Z }.
Definition sizeof_proghdr : Z := 56.
Definition proghdr_of (l : list Z) : proghdr :=
  Proghdr (get32 l 0) (get32 l 4) (get64 l 8) (get64 l 16) (get64 l 32) (get64 l 40).

(** [kernel/param.h], for [LAB=util] of [conf/lab.mk]. *)
Definition USERSTACK : Z := 2.

Definition flags2perm (flags : Z) : Z :=
  let perm := if bit flags 1 then PTE_X else 0 in
  if bit flags 2 then Z.lor perm PTE_W else perm.

(** The loop of lines 91-110 on the new page table: the strings, then the
    array of pointers to them.  [ustack] holds the pointers. *)
Definition push_str (pagetable stackbase : Z) (sp : Z) (s : list Z) : K pst (option Z) :=
  let sp := u64 (sp - (Z.of_nat (length s) + 1)) in
  let sp := sp - sp mod 16 in
  if sp <? stackbase then mret None else
  r ← copyout pagetable sp (s ++ [0]);
  mret (if r <? 0 then None else Some sp).

Fixpoint push_strs (pagetable stackbase : Z) (argc sp : Z) (argv : list (list Z)) (ustack : list Z)
    : K pst (option (Z * list Z)) :=
  match argv with
  | [] => mret (Some (sp, ustack))
  | s :: argv =>
      if MAXARG <=? argc then mret None else
      r ← push_str pagetable stackbase sp s;
      match r with
      | None => mret None
      | Some sp => push_strs pagetable stackbase (argc + 1) sp argv (ustack ++ [sp])
      end
  end.

(** [ustack[argc] = 0] is outside of the array for [argc == MAXARG]. *)
Definition push_args (pagetable stackbase sp : Z) (argv : list (list Z)) : K pst (option Z) :=
  r ← push_strs pagetable stackbase 0 sp argv [];
  match r with
  | None => mret None
  | Some (sp, ustack) =>
      let argc := Z.of_nat (length argv) in
      if MAXARG <=? argc then undefined "ustack" else
      let sp := u64 (sp - (argc + 1) * 8) in
      let sp := sp - sp mod 16 in
      if sp <? stackbase then mret None else
      r ← copyout pagetable sp ((ustack ++ [0]) ≫= le_bytes 8);
      mret (if r <? 0 then None else Some sp)
  end.

(** What follows the last slash of the path. *)
Fixpoint last_elem (last path : list Z) : list Z :=
  match path with
  | [] => last
  | c :: path => if c =? SLASH then last_elem path path else last_elem last path
  end.

Section exec.
Context {B : Type} `{!BlockStore B, !TxStore B, !DevOps (fst B pst)}.
Context (kend trampoline : Z).
Abbreviation P := (pcb B).

(** [readi] into the kernel; no user memory is involved. *)
Definition kreadi (ip : nat) (off n : Z) : K P (Z * list Z) := on_fs (readi (copyout 0) ip false 0 off n).

Definition loadseg (pagetable va : Z) (ip : nat) (offset sz : Z) : K P Z :=
  while_loop (S (Z.to_nat ((sz + PGSIZE - 1) / PGSIZE))) 0 (λ i,
    if negb (i <? sz) then mret (inr 0) else
    pa ← on_pages (walkaddr pagetable (u64 (va + i)));
    panic_if (pa =? 0) "loadseg: address should exist";;
    let n := if u32 (sz - i) <? PGSIZE then u32 (sz - i) else PGSIZE in
    '(r, l) ← kreadi ip (u32 (offset + i)) n;
    on_pages (page_write pa 0 l);;
    if negb (r =? n) then mret (inr (-1)) else
    mret (inl (u32 (i + PGSIZE)))).

(** One program header; the size of the image so far, or [None] for
    [goto bad] with the size reached. *)
Definition load_segment (pagetable : Z) (ip : nat) (off sz : Z) : K P (Z * bool) :=
  '(r, l) ← kreadi ip (u32 off) sizeof_proghdr;
  if negb (r =? sizeof_proghdr) then mret (sz, false) else
  let ph := proghdr_of l in
  if negb (ph_type ph =? ELF_PROG_LOAD) then mret (sz, true) else
  if ph_memsz ph <? ph_filesz ph then mret (sz, false) else
  if u64 (ph_vaddr ph + ph_memsz ph) <? ph_vaddr ph then mret (sz, false) else
  if negb (ph_vaddr ph mod PGSIZE =? 0) then mret (sz, false) else
  sz1 ← on_pages (uvmalloc kend pagetable sz (u64 (ph_vaddr ph + ph_memsz ph)) (flags2perm (ph_flags ph)));
  if sz1 =? 0 then mret (sz, false) else
  r ← loadseg pagetable (ph_vaddr ph) ip (u32 (ph_off ph)) (u32 (ph_filesz ph));
  mret (sz1, negb (r <? 0)).

Definition load_segments (pagetable : Z) (ip : nat) (elf : elfhdr) : K P (Z * bool) :=
  while_loop (S (Z.to_nat (elf_phnum elf))) (0, s32 (elf_phoff elf), 0) (λ '(i, off, sz),
    if negb (i <? elf_phnum elf) then mret (inr (sz, true)) else
    '(sz, ok) ← load_segment pagetable ip off sz;
    mret (if ok : bool then inl (i + 1, s32 (off + sizeof_proghdr), sz) else inr (sz, false))).

Definition exec (p : nat) (path : list Z) (argv : list (list Z)) : K P Z :=
  (** [bad:] with [pagetable], [sz], and [ip] while it is locked *)
  let bad (pagetable sz : Z) (ip : option nat) : K P Z :=
    when (negb (pagetable =? 0)) (on_pages (proc_freepagetable kend pagetable sz));;
    (match ip with
     | Some ip => on_fs (iunlockput ip);; on_fs (on_store tx_end)
     | None => mret tt
     end);;
    mret (-1) in
  x ← pget p id;
  on_fs (on_store tx_begin);;
  cwd ← (match p_cwd x with Some d => mret d | None => undefined "cwd" end);
  o ← on_fs (namei (copyout 0) cwd path);
  match o with
  | None => on_fs (on_store tx_end);; mret (-1)
  | Some ip =>
      on_fs (ilock (Some ip));;
      '(r, l) ← kreadi ip 0 sizeof_elfhdr;
      if negb (r =? sizeof_elfhdr) then bad 0 0 (Some ip) else
      let elf := elfhdr_of l in
      if negb (elf_magic elf =? ELF_MAGIC) then bad 0 0 (Some ip) else
      pagetable ← on_pages (proc_pagetable kend trampoline (p_trapframe x));
      if pagetable =? 0 then bad 0 0 (Some ip) else
      '(sz, ok) ← load_segments pagetable ip elf;
      if negb ok then bad pagetable sz (Some ip) else
      on_fs (iunlockput ip);;
      on_fs (on_store tx_end);;
      let sz := PGROUNDUP sz in
      sz1 ← on_pages (uvmalloc kend pagetable sz (u64 (sz + (USERSTACK + 1) * PGSIZE)) PTE_W);
      if sz1 =? 0 then bad pagetable sz None else
      on_pages (uvmclear pagetable (sz1 - (USERSTACK + 1) * PGSIZE));;
      r ← on_pages (push_args pagetable (sz1 - USERSTACK * PGSIZE) sz1 argv);
      match r with
      | None => bad pagetable sz1 None
      | Some sp =>
          on_pages (word_put (p_trapframe x) (TF_a 1) sp);;
          pset p (set_name (take 15 (last_elem path path)));;
          pset p (set_pagetable pagetable);;
          pset p (set_sz sz1);;
          on_pages (word_put (p_trapframe x) TF_epc (elf_entry elf));;
          on_pages (word_put (p_trapframe x) TF_sp sp);;
          on_pages (proc_freepagetable kend (p_pagetable x) (p_sz x));;
          mret (Z.of_nat (length argv))
      end
  end.
End exec.
