(* ===== verification/Sysfile.v ===== *)
(** * File system calls ([kernel/sysfile.c]) and the dispatcher [syscall]

    The handlers check their arguments and call the file table and the file
    system, each within a transaction where it changes the disk. *)

From S2P Require Import Prelude Word Param Str Kalloc Vm Fs File Proc Syscall Exec.

(** ** [kernel/fcntl.h] *)
Definition O_RDONLY : Z := 0x000.
Definition O_WRONLY : Z := 0x001.
Definition O_RDWR : Z := 0x002.
Definition O_CREATE : Z := 0x200.
Definition O_TRUNC : Z := 0x400.

(** The names of the first two entries of a directory. *)
Definition DOT : list Z := [46].
Definition DOTDOT : list Z := [46; 46].

(** The first free descriptor. *)
Fixpoint free_fd {A} (l : list (option A)) (i : nat) : option nat :=
  match l with
  | [] => None
  | None :: _ => Some i
  | Some _ :: l => free_fd l (S i)
  end.

Section sysfile.
Context {B : Type} `{!BlockStore B, !TxStore B, !DevOps (fst B pst)}.
Context (kend trampoline forkret : Z).
Abbreviation P := (pcb B).

(** File operations of a process: they use its page table. *)
Definition as_proc {A} (p : nat) (m : FileOps (fst B pst) → K (fls (fst B pst)) A) : K P A :=
  pt ← pget p p_pagetable;
  on_files (m (kernel_ops kend pt)).
Definition op_begin : K P unit := on_fs (on_store tx_begin).
Definition op_end : K P unit := on_fs (on_store tx_end).
(** Path names are resolved without the memory of the process. *)
Definition pcwd (p : nat) : K P nat :=
  d ← pget p p_cwd;
  match d with Some d => mret d | None => undefined "cwd" end.
Definition p_namei (p : nat) (path : list Z) : K P (option nat) :=
  d ← pcwd p; on_fs (namei (copyout 0) d path).
Definition p_nameiparent (p : nat) (path : list Z) : K P (option (nat * list Z)) :=
  d ← pcwd p; on_fs (nameiparent (copyout 0) d path).
Definition k_dirlookup (dp : nat) (name : list Z) : K P (option (nat * Z)) :=
  on_fs (dirlookup (copyout 0) dp name).
Definition k_dirlink (dp : nat) (name : list Z) (inum : Z) : K P Z :=
  on_fs (dirlink (copyout 0) (copyin 0) dp name inum).

(** ** Descriptors *)
Definition argfd (p : nat) (n : Z) : K P (option (nat * nat)) :=
  fd ← argint p n;
  if (fd <? 0) || (NOFILE <=? fd) then mret None else
  l ← pget p p_ofile;
  match l !! Z.to_nat fd with
  | None => undefined "ofile"
  | Some None => mret None
  | Some (Some f) => mret (Some (Z.to_nat fd, f))
  end.

Definition fdalloc (p f : nat) : K P (option nat) :=
  l ← pget p p_ofile;
  match free_fd l 0 with
  | None => mret None
  | Some fd => pset p (λ x, set_ofile (<[fd := Some f]> (p_ofile x)) x);; mret (Some fd)
  end.
Definition fdclear (p fd : nat) : K P unit := pset p (λ x, set_ofile (<[fd := None]> (p_ofile x)) x).

Definition sys_dup (p : nat) : K P Z :=
  o ← argfd p 0;
  match o with
  | None => mret (-1)
  | Some (_, f) =>
      o ← fdalloc p f;
      match o with
      | None => mret (-1)
      | Some fd => on_files (filedup f);; mret (Z.of_nat fd)
      end
  end.

Definition sys_read (p : nat) : K P Z :=
  addr ← argaddr p 1;
  n ← argint p 2;
  o ← argfd p 0;
  match o with
  | None => mret (-1)
  | Some (_, f) => as_proc p (λ _, fileread f addr n)
  end.

Definition sys_write (p : nat) : K P Z :=
  addr ← argaddr p 1;
  n ← argint p 2;
  o ← argfd p 0;
  match o with
  | None => mret (-1)
  | Some (_, f) => as_proc p (λ _, filewrite f addr n)
  end.

Definition sys_close (p : nat) : K P Z :=
  o ← argfd p 0;
  match o with
  | None => mret (-1)
  | Some (fd, f) =>
      fdclear p fd;;
      as_proc p (λ _, fileclose f);;
      mret 0
  end.

Definition sys_fstat (pad : list Z) (p : nat) : K P Z :=
  st ← argaddr p 1;
  o ← argfd p 0;
  match o with
  | None => mret (-1)
  | Some (_, f) => as_proc p (λ _, filestat pad f st)
  end.

(** ** Links *)
Definition sys_link (p : nat) : K P Z :=
  '(r, old) ← argstr p 0 MAXPATH;
  if r <? 0 then mret (-1) else
  '(r, new) ← argstr p 1 MAXPATH;
  if r <? 0 then mret (-1) else
  op_begin;;
  o ← p_namei p old;
  match o with
  | None => op_end;; mret (-1)
  | Some ip =>
      let bad : K P Z :=
        on_fs (ilock (Some ip));;
        on_fs (iset ip (λ i, set_nlink (s16 (i_nlink i - 1)) i));;
        on_fs (iupdate ip);;
        on_fs (iunlockput ip);;
        op_end;;
        mret (-1) in
      on_fs (ilock (Some ip));;
      t ← on_fs (ig ip i_type);
      if t =? T_DIR then on_fs (iunlockput ip);; op_end;; mret (-1) else
      on_fs (iset ip (λ i, set_nlink (s16 (i_nlink i + 1)) i));;
      on_fs (iupdate ip);;
      on_fs (iunlock (Some ip));;
      o ← p_nameiparent p new;
      match o with
      | None => bad
      | Some (dp, name) =>
          on_fs (ilock (Some dp));;
          ddev ← on_fs (ig dp i_dev);
          i ← on_fs (ig ip id);
          r ← (if negb (ddev =? i_dev i) then mret (-1) else k_dirlink dp name (i_inum i));
          if r <? 0 then on_fs (iunlockput dp);; bad else
          on_fs (iunlockput dp);;
          on_fs (iput ip);;
          op_end;;
          mret 0
      end
  end.

Definition isdirempty (dp : nat) : K P bool :=
  size ← on_fs (ig dp i_size);
  r ← for_loop (nentries size - 2) 2 (λ k,
    de ← on_fs (read_dirent (copyout 0) dp (k * sizeof_dirent) "isdirempty: readi");
    mret (if negb (de_inum de =? 0) then Some tt else None));
  mret (match r with Some _ => false | None => true end).

Definition sys_unlink (p : nat) : K P Z :=
  '(r, path) ← argstr p 0 MAXPATH;
  if r <? 0 then mret (-1) else
  op_begin;;
  o ← p_nameiparent p path;
  match o with
  | None => op_end;; mret (-1)
  | Some (dp, name) =>
      let bad : K P Z := on_fs (iunlockput dp);; op_end;; mret (-1) in
      on_fs (ilock (Some dp));;
      if (namecmp name (DOT ++ [0]) =? 0) || (namecmp name (DOTDOT ++ [0]) =? 0) then bad else
      o ← k_dirlookup dp name;
      match o with
      | None => bad
      | Some (ip, off) =>
          on_fs (ilock (Some ip));;
          i ← on_fs (ig ip id);
          panic_if (i_nlink i <? 1) "unlink: nlink < 1";;
          empty ← (if i_type i =? T_DIR then isdirempty ip else mret true);
          if negb empty then on_fs (iunlockput ip);; bad else
          w ← on_fs (writei (copyin 0) dp false (replicate (Z.to_nat sizeof_dirent) 0) 0 off sizeof_dirent);
          panic_if (negb (w =? sizeof_dirent)) "unlink: writei";;
          when (i_type i =? T_DIR) (
            on_fs (iset dp (λ d, set_nlink (s16 (i_nlink d - 1)) d));;
            on_fs (iupdate dp));;
          on_fs (iunlockput dp);;
          on_fs (iset ip (λ i, set_nlink (s16 (i_nlink i - 1)) i));;
          on_fs (iupdate ip);;
          on_fs (iunlockput ip);;
          op_end;;
          mret 0
      end
  end.

(** ** Creation; [type], [major] and [minor] are [short] *)
Definition create (p : nat) (path : list Z) (type major minor : Z) : K P (option nat) :=
  o ← p_nameiparent p path;
  match o with
  | None => mret None
  | Some (dp, name) =>
      on_fs (ilock (Some dp));;
      o ← k_dirlookup dp name;
      match o with
      | Some (ip, _) =>
          on_fs (iunlockput dp);;
          on_fs (ilock (Some ip));;
          t ← on_fs (ig ip i_type);
          if (type =? T_FILE) && ((t =? T_FILE) || (t =? T_DEVICE)) then mret (Some ip)
          else on_fs (iunlockput ip);; mret None
      | None =>
          ddev ← on_fs (ig dp i_dev);
          o ← on_fs (ialloc ddev type);
          match o with
          | None => on_fs (iunlockput dp);; mret None
          | Some ip =>
              let fail : K P (option nat) :=
                on_fs (iset ip (set_nlink 0));;
                on_fs (iupdate ip);;
                on_fs (iunlockput ip);;
                on_fs (iunlockput dp);;
                mret None in
              on_fs (ilock (Some ip));;
              on_fs (iset ip (λ i, set_nlink 1 (set_dev major minor i)));;
              on_fs (iupdate ip);;
              inum ← on_fs (ig ip i_inum);
              dinum ← on_fs (ig dp i_inum);
              r ← (if type =? T_DIR then
                     r ← k_dirlink ip DOT inum;
                     if r <? 0 then mret r else k_dirlink ip DOTDOT dinum
                   else mret 0);
              if r <? 0 then fail else
              r ← k_dirlink dp name inum;
              if r <? 0 then fail else
              when (type =? T_DIR) (
                on_fs (iset dp (λ d, set_nlink (s16 (i_nlink d + 1)) d));;
                on_fs (iupdate dp));;
              on_fs (iunlockput dp);;
              mret (Some ip)
          end
      end
  end.

(** The inode that [sys_open] opens, locked; [None] when the call has failed
    and ended its transaction. *)
Definition open_inode (p : nat) (path : list Z) (omode : Z) : K P (option nat) :=
  o ← (if bit omode O_CREATE then
         o ← create p path T_FILE 0 0;
         match o with
         | None => op_end;; mret None
         | Some ip => mret (Some ip)
         end
       else
         o ← p_namei p path;
         match o with
         | None => op_end;; mret None
         | Some ip =>
             on_fs (ilock (Some ip));;
             t ← on_fs (ig ip i_type);
             if (t =? T_DIR) && negb (omode =? O_RDONLY)
             then on_fs (iunlockput ip);; op_end;; mret None
             else mret (Some ip)
         end);
  match o with
  | None => mret None
  | Some ip =>
      i ← on_fs (ig ip id);
      if (i_type i =? T_DEVICE) && ((i_major i <? 0) || (NDEV <=? i_major i))
      then on_fs (iunlockput ip);; op_end;; mret None
      else mret (Some ip)
  end.

Definition sys_open (p : nat) : K P Z :=
  omode ← argint p 1;
  '(n, path) ← argstr p 0 MAXPATH;
  if n <? 0 then mret (-1) else
  op_begin;;
  o ← open_inode p path omode;
  match o with
  | None => mret (-1)
  | Some ip =>
      let bad (f : option nat) : K P Z :=
        (match f with Some f => as_proc p (λ _, fileclose f) | None => mret tt end);;
        on_fs (iunlockput ip);;
        op_end;;
        mret (-1) in
      fo ← on_files filealloc;
      match fo with
      | None => bad None
      | Some f =>
          fdo ← fdalloc p f;
          match fdo with
          | None => bad (Some f)
          | Some fd =>
              i ← on_fs (ig ip id);
              (if i_type i =? T_DEVICE then
                 on_files (fset f (λ x, set_major (i_major i) (set_ftype FD_DEVICE x)))
               else
                 on_files (fset f (λ x, set_off 0 (set_ftype FD_INODE x))));;
              on_files (fset f (set_ip ip));;
              on_files (fset f (set_rw (negb (bit omode O_WRONLY)) (bit omode O_WRONLY || bit omode O_RDWR)));;
              when (bit omode O_TRUNC && (i_type i =? T_FILE)) (on_fs (itrunc ip));;
              on_fs (iunlock (Some ip));;
              op_end;;
              mret (Z.of_nat fd)
          end
      end
  end.

Definition sys_mkdir (p : nat) : K P Z :=
  op_begin;;
  '(r, path) ← argstr p 0 MAXPATH;
  o ← (if r <? 0 then mret None else create p path T_DIR 0 0);
  match o with
  | None => op_end;; mret (-1)
  | Some ip => on_fs (iunlockput ip);; op_end;; mret 0
  end.

Definition sys_mknod (p : nat) : K P Z :=
  op_begin;;
  major ← argint p 1;
  minor ← argint p 2;
  '(r, path) ← argstr p 0 MAXPATH;
  o ← (if r <? 0 then mret None else create p path T_DEVICE (s16 major) (s16 minor));
  match o with
  | None => op_end;; mret (-1)
  | Some ip => on_fs (iunlockput ip);; op_end;; mret 0
  end.

Definition sys_chdir (p : nat) : K P Z :=
  op_begin;;
  '(r, path) ← argstr p 0 MAXPATH;
  o ← (if r <? 0 then mret None else p_namei p path);
  match o with
  | None => op_end;; mret (-1)
  | Some ip =>
      on_fs (ilock (Some ip));;
      t ← on_fs (ig ip i_type);
      if negb (t =? T_DIR) then on_fs (iunlockput ip);; op_end;; mret (-1) else
      on_fs (iunlock (Some ip));;
      d ← pcwd p;
      on_fs (iput d);;
      op_end;;
      pset p (set_cwd (Some ip));;
      mret 0
  end.

(** ** exec: the arguments are fetched into pages of the kernel *)

(** Lines 466-467: free the pages in [argv]. *)
Definition free_args (argv : list Z) : K P unit :=
  for_each (length argv) 0 (λ i, on_pages (kfree kend (argv !!! Z.to_nat i))).

(** The loop: pages and strings so far; [inl] of the pages for [bad]. *)
Definition fetch_args (p : nat) (uargv : Z) : K P (list Z + list Z * list (list Z)) :=
  while_loop (S (S (Z.to_nat MAXARG))) (0, [], []) (λ '(i, pgs, strs),
    if MAXARG <=? i then mret (inr (inl pgs)) else
    o ← fetchaddr p (u64 (uargv + 8 * i));
    match o with
    | None => mret (inr (inl pgs))
    | Some uarg =>
        if uarg =? 0 then mret (inr (inr (pgs, strs))) else
        pg ← on_pages kalloc;
        if pg =? 0 then mret (inr (inl pgs)) else
        '(r, s) ← fetchstr p uarg PGSIZE;
        on_pages (page_write pg 0 (if r <? 0 then s else s ++ [0]));;
        if r <? 0 then mret (inr (inl (pgs ++ [pg])))
        else mret (inl (i + 1, pgs ++ [pg], strs ++ [s]))
    end).

Definition sys_exec (p : nat) : K P Z :=
  uargv ← argaddr p 1;
  '(r, path) ← argstr p 0 MAXPATH;
  if r <? 0 then mret (-1) else
  o ← fetch_args p uargv;
  match o with
  | inl pgs => free_args pgs;; mret (-1)
  | inr (pgs, strs) =>
      ret ← exec kend trampoline p path strs;
      free_args pgs;;
      mret ret
  end.

(** ** pipe *)
Definition sys_pipe (p : nat) : K P Z :=
  fdarray ← argaddr p 0;
  o ← as_proc p (λ _, pipealloc);
  match o with
  | None => mret (-1)
  | Some (rf, wf) =>
      let close_both : K P Z :=
        as_proc p (λ _, fileclose rf);;
        as_proc p (λ _, fileclose wf);;
        mret (-1) in
      o0 ← fdalloc p rf;
      match o0 with
      | None => close_both
      | Some fd0 =>
          o1 ← fdalloc p wf;
          match o1 with
          | None => fdclear p fd0;; close_both
          | Some fd1 =>
              pt ← pget p p_pagetable;
              r ← on_pages (copyout pt fdarray (le_bytes 4 (Z.of_nat fd0)));
              r ← (if r <? 0 then mret r
                   else on_pages (copyout pt (u64 (fdarray + 4)) (le_bytes 4 (Z.of_nat fd1))));
              if r <? 0 then fdclear p fd0;; fdclear p fd1;; close_both
              else mret 0
          end
      end
  end.

(** ** The dispatcher; [pad] and [ticks_addr] are those of the handlers *)
Definition ret {S} (m : K S Z) : K S sysres := v ← m; mret (Ret v).
Definition syscalls (pad : list Z) (ticks_addr : Z) (p : nat) (num : Z) : option (K P sysres) :=
  match num with
  | 1 => Some (ret (sys_fork kend trampoline forkret p))
  | 2 => Some (sys_exit kend p)
  | 3 => Some (sys_wait kend p)
  | 4 => Some (ret (sys_pipe p))
  | 5 => Some (ret (sys_read p))
  | 6 => Some (ret (sys_kill p))
  | 7 => Some (ret (sys_exec p))
  | 8 => Some (ret (sys_fstat pad p))
  | 9 => Some (ret (sys_chdir p))
  | 10 => Some (ret (sys_dup p))
  | 11 => Some (ret (sys_getpid p))
  | 12 => Some (ret (sys_sbrk kend p))
  | 13 => Some (sys_sleep ticks_addr p)
  | 14 => Some (ret sys_uptime)
  | 15 => Some (ret (sys_open p))
  | 16 => Some (ret (sys_write p))
  | 17 => Some (ret (sys_mknod p))
  | 18 => Some (ret (sys_unlink p))
  | 19 => Some (ret (sys_link p))
  | 20 => Some (ret (sys_mkdir p))
  | 21 => Some (ret (sys_close p))
  | _ => None
  end.

Definition syscall (pad : list Z) (ticks_addr : Z) (p : nat) : K P sysres :=
  tf ← pget p p_trapframe;
  num ← on_pages (word_get tf (TF_a 7));
  match syscalls pad ticks_addr p (s32 num) with
  | Some h =>
      r ← h;
      match r with
      | Ret v => on_pages (word_put tf (TF_a 0) (u64 v));; mret (Ret v)
      | _ => mret r
      end
  | None => on_pages (word_put tf (TF_a 0) (u64 (-1)));; mret (Ret (-1))
  end.
End sysfile.
