(* ===== verification/Umalloc.v ===== *)
(** * The memory allocator of user programs ([user/umalloc.c])

    The free list of Kernighan and Ritchie: a circular list of blocks, each
    with a header, in the order of their addresses.  Addresses are counted in
    headers of 16 bytes; 0 is the null pointer. *)

From S2P Require Import Prelude Word.

(** The fields of the headers, [freep], and the end of the memory. *)
Record ms := Ms { hptr : Z → Z; hsize : Z → Z; freep : Z; brk : Z }.
Definition set_hptr (p x : Z) (s : ms) : ms := Ms (<[p := x]> (hptr s)) (hsize s) (freep s) (brk s).
Definition set_hsize (p x : Z) (s : ms) : ms := Ms (hptr s) (<[p := x]> (hsize s)) (freep s) (brk s).
Definition set_freep (p : Z) (s : ms) : ms := Ms (hptr s) (hsize s) p (brk s).
Definition set_brk (b : Z) (s : ms) : ms := Ms (hptr s) (hsize s) (freep s) b.

Definition sizeof_Header : Z := 16.

Section umalloc.
(** The static variable [base], the start of the heap, and how far the kernel
    lets it grow. *)
Context (base heap limit : Z).

(** Accesses to a header outside of [base] and the heap are undefined. *)
Definition access {A} (p : Z) (m : K ms A) : K ms A :=
  b ← gets brk;
  if (p =? base) || ((heap <=? p) && (p <? b)) then m else undefined "header".
Definition get_ptr (p : Z) : K ms Z := access p (gets (λ s, hptr s p)).
Definition get_size (p : Z) : K ms Z := access p (gets (λ s, hsize s p)).
Definition put_ptr (p x : Z) : K ms unit := access p (modify (set_hptr p x)).
Definition put_size (p x : Z) : K ms unit := access p (modify (set_hsize p (u32 x))).

(** [sbrk(n)] of the kernel ([sys_sbrk], [growproc]): the old end, or -1; [n] is
    a number of bytes that headers divide.  A negative [n] of more than the
    whole memory does nothing. *)
Definition sbrk (n : Z) : K ms Z :=
  b ← gets brk;
  let b' := b + n / sizeof_Header in
  if 0 <=? n then
    if limit <? b' then mret (-1) else modify (set_brk b');; mret b
  else
    when (0 <=? b') (modify (set_brk b'));; mret b.

(** A round visits every block of the list at most. *)
Definition rounds : nat := Z.to_nat (2 * limit + 8).

Definition free (bp : Z) : K ms unit :=
  fp ← gets freep;
  p ← while_loop rounds fp (λ p,
    nx ← get_ptr p;
    if (p <? bp) && (bp <? nx) then mret (inr p)
    else if (nx <=? p) && ((p <? bp) || (bp <? nx)) then mret (inr p)
    else mret (inl nx));
  bs ← get_size bp;
  nx ← get_ptr p;
  (if bp + bs =? nx then
     ns ← get_size nx;
     put_size bp (bs + ns);;
     nn ← get_ptr nx;
     put_ptr bp nn
   else put_ptr bp nx);;
  ps ← get_size p;
  (if p + ps =? bp then
     bs ← get_size bp;
     put_size p (ps + bs);;
     bn ← get_ptr bp;
     put_ptr p bn
   else put_ptr p bp);;
  modify (set_freep p).

(** The argument of [sbrk] is an [int]. *)
Definition morecore (nu : Z) : K ms Z :=
  let nu := if nu <? 4096 then 4096 else nu in
  p ← sbrk (s32 (nu * sizeof_Header));
  if p =? -1 then mret 0
  else
    put_size p nu;;
    free p;;
    gets freep.

Definition nunits_of (nbytes : Z) : Z := u32 ((nbytes + sizeof_Header - 1) / sizeof_Header + 1).

(** The address after the header, or 0. *)
Definition malloc (nbytes : Z) : K ms Z :=
  let nunits := nunits_of nbytes in
  fp ← gets freep;
  when (fp =? 0) (
    put_ptr base base;;
    modify (set_freep base);;
    put_size base 0);;
  prevp ← gets freep;
  p ← get_ptr prevp;
  while_loop rounds (prevp, p) (λ '(prevp, p),
    s ← get_size p;
    if nunits <=? s then
      r ← (if s =? nunits then
             nx ← get_ptr p;
             put_ptr prevp nx;;
             mret p
           else
             put_size p (s - nunits);;
             let p := p + (s - nunits) in
             put_size p nunits;;
             mret p);
      modify (set_freep prevp);;
      mret (inr (r + 1))
    else
      fp ← gets freep;
      p ← (if p =? fp then morecore nunits else mret p);
      if p =? 0 then mret (inr 0)
      else
        nx ← get_ptr p;
        mret (inl (p, nx))).
End umalloc.
