(* ===== verification/UmallocSpec.v ===== *)
(** * The allocator keeps blocks apart ([user/umalloc.c])

    The free list is in the order of the addresses, circular, and apart from
    the blocks that are in use; [malloc] and [free] keep it so and return. *)

From stdpp Require Import sorting.
From S2P Require Import Prelude Word Umalloc.

(** ** Lists of blocks: address and size *)
Abbreviation blocks := (list (Z * Z)).
Definition before (x y : Z * Z) : Prop := x.1 < y.1 ∧ x.1 + x.2 ≤ y.1.
Abbreviation sorted := (StronglySorted before).

Definition hd_addr (l : blocks) (e : Z) : Z := match l with (a, _) :: _ => a | [] => e end.
(** The headers of [l] are in memory, each pointing to the next, the last to [e]. *)
Fixpoint linked (s : ms) (l : blocks) (e : Z) : Prop :=
  match l with
  | [] => True
  | (a, z) :: l => hptr s a = hd_addr l e ∧ hsize s a = z ∧ linked s l e
  end.

Lemma hd_addr_app l l' e : hd_addr (l ++ l') e = hd_addr l (hd_addr l' e).
Proof. by destruct l as [|[a z] l]. Qed.
Lemma linked_app s l l' e : linked s (l ++ l') e ↔ linked s l (hd_addr l' e) ∧ linked s l' e.
Proof.
  induction l as [|[a z] l IH]; simpl; [tauto|]. rewrite hd_addr_app, IH. tauto.
Qed.
Lemma linked_frame s s' l e :
  (∀ a z, (a, z) ∈ l → hptr s' a = hptr s a ∧ hsize s' a = hsize s a) → linked s l e → linked s' l e.
Proof.
  induction l as [|[a z] l IH]; simpl; [done|]. intros Hf (H1 & H2 & H3).
  destruct (Hf a z) as [-> ->]; [by left|]. split_and!; [done|done|]. apply IH; [|done]. intros a' z' H. apply (Hf a' z'). by right.
Qed.
Lemma linked_size s l e a z : linked s l e → (a, z) ∈ l → hsize s a = z.
Proof.
  induction l as [|[a' z'] l IH]; simpl; [by intros _ ?%elem_of_nil|].
  intros (_ & H & Hl) [[= -> ->]|Hin]%elem_of_cons; [done|auto].
Qed.
(** Turning a circular list. *)
Lemma linked_rot s l l' : linked s (l ++ l') (hd_addr (l ++ l') 0) → linked s (l' ++ l) (hd_addr (l' ++ l) 0).
Proof.
  destruct l as [|[a z] l]; [by rewrite app_nil_r|]. destruct l' as [|[a' z'] l']; [by rewrite app_nil_r|].
  rewrite !linked_app. simpl. tauto.
Qed.

Lemma sorted_middle l x l' : sorted (l ++ x :: l') ↔
  sorted (l ++ l') ∧ (∀ y, y ∈ l → before y x) ∧ (∀ y, y ∈ l' → before x y).
Proof. rewrite !StronglySorted_app, StronglySorted_cons, Forall_forall. set_solver. Qed.
Lemma sorted_addr l a z l' a' z' : sorted (l ++ (a, z) :: l') → (a', z') ∈ l ++ l' → a' ≠ a.
Proof. intros (_ & H1 & H2)%sorted_middle [H|H]%elem_of_app; [apply H1 in H|apply H2 in H]; destruct H; simpl in *; lia. Qed.
(** An address stands once in the list. *)
Lemma sorted_unique l1 a z l2 l1' z' l2' : sorted (l1 ++ (a, z) :: l2) → l1 ++ (a, z) :: l2 = l1' ++ (a, z') :: l2' →
  l1 = l1' ∧ z = z' ∧ l2 = l2'.
Proof.
  intros Hs E. destruct (app_eq_app _ _ _ _ E) as (k & [[-> E2]|[-> E2]]); destruct k as [|x k]; simpl in E2.
  - injection E2 as -> ->. by rewrite app_nil_r.
  - injection E2 as <- _. exfalso. apply sorted_middle in Hs as (_ & H & _).
    destruct (H (a, z')) as [H1 _]; [set_solver|]. simpl in H1. lia.
  - injection E2 as -> ->. by rewrite app_nil_r.
  - injection E2 as <- ->. exfalso. apply sorted_middle in Hs as (_ & _ & H).
    destruct (H (a, z')) as [H1 _]; [set_solver|]. simpl in H1. lia.
Qed.

Lemma sorted_count l lo hi : sorted l → lo ≤ hi → (∀ a z, (a, z) ∈ l → lo ≤ a ∧ 1 ≤ z ∧ a + z ≤ hi) → Z.of_nat (length l) ≤ hi - lo.
Proof.
  revert lo. induction l as [|[a z] l IH]; intros lo Hs Hlo Hb; simpl; [lia|].
  apply StronglySorted_cons in Hs as [Hf Hs]. destruct (Hb a z) as (H1 & H2 & H3); [by left|].
  rewrite Forall_forall in Hf. assert (Z.of_nat (length l) ≤ hi - (a + z)); [|lia]. apply IH; [done|lia|].
  intros a' z' Hin. destruct (Hf _ Hin) as [_ ?]. destruct (Hb a' z') as (? & ? & ?); [by right|]. simpl in *. lia.
Qed.

(** ** Invariant *)
Section spec.
Context (base heap limit : Z) (Hbase : 1 ≤ base < heap) (Hlimit : limit < 2 ^ 32).
Implicit Types (s : ms) (L : blocks) (Al : gmap Z Z).

Definition apart (x y : Z * Z) : Prop := x.1 + x.2 ≤ y.1 ∨ y.1 + y.2 ≤ x.1.
Definition block_ok s (x : Z * Z) : Prop := heap ≤ x.1 ∧ 1 ≤ x.2 ∧ x.1 + x.2 ≤ brk s.

(** [L] is the free list, [base] first; [Al] are the blocks in use. *)
Record FInv s L Al : Prop := {
  fi_linked : linked s L base;
  fi_sorted : sorted L;
  fi_head : ∃ l, L = (base, 0) :: l;
  fi_block : ∀ x, x ∈ L → x = (base, 0) ∨ block_ok s x;
  fi_freep : freep s ∈ L.*1;
  fi_brk : heap ≤ brk s ≤ limit;
  fi_live : ∀ a z, Al !! a = Some z → block_ok s (a, z) ∧ hsize s a = z;
  fi_disj : ∀ a z a' z', Al !! a = Some z → Al !! a' = Some z' → a ≠ a' → apart (a, z) (a', z');
  fi_apart : ∀ a z x, Al !! a = Some z → x ∈ L → x ≠ (base, 0) → apart (a, z) x;
}.

(** Headers that may be used. *)
Definition usable s (p : Z) : Prop := p = base ∨ heap ≤ p < brk s.
Lemma wp_access {A} p (m : K ms A) Q s : usable s p → wp m Q s → wp (access base heap p m) Q s.
Proof using Type.
  clear Hbase Hlimit. intros Hu Hm. unfold access. apply wp_bind, wp_gets. destruct (Z.eqb_spec p base); [done|].
  destruct Hu as [|Hu]; [done|]. rewrite (proj2 (Z.leb_le heap p)), (proj2 (Z.ltb_lt p (brk s))) by lia. done.
Qed.
Lemma usable_free s L Al x : FInv s L Al → x ∈ L → usable s x.1.
Proof using Type. clear. intros [] Hx. destruct (fi_block0 x Hx) as [->|(? & ? & ?)]; [by left|right; lia]. Qed.
Lemma usable_live s L Al a z : FInv s L Al → Al !! a = Some z → usable s a.
Proof using Type. clear. intros [] Ha. destruct (fi_live0 a z Ha) as [(? & ? & ?) _]. simpl in *. right. lia. Qed.
Lemma FInv_length s L Al : FInv s L Al → Z.of_nat (length L) ≤ limit + 1.
Proof using Hbase.
  intros []. destruct fi_head0 as [l ->]. apply StronglySorted_cons in fi_sorted0 as [Hf Hs].
  rewrite Forall_forall in Hf. assert (Z.of_nat (length l) ≤ brk s - heap); [|simpl length; lia].
  apply sorted_count; [done|lia|]. intros a z Hin.
  destruct (fi_block0 (a, z)) as [[= -> ->]|(? & ? & ?)]; [by right| |done]. destruct (Hf _ Hin). simpl in *. lia.
Qed.

(** The place of an address in the free list. *)
Lemma split_at L bp : sorted L → (∃ a z l, L = (a, z) :: l ∧ a < bp) → bp ∉ L.*1 →
  ∃ l1 p z l2, L = l1 ++ (p, z) :: l2 ∧ p < bp ∧ ∀ x, x ∈ l2 → bp < x.1.
Proof using Type.
  clear. intros Hs (a & z & l & -> & Ha) Hn. revert a z Hs Ha Hn. induction l as [|[a' z'] l IH]; intros a z Hs Ha Hn.
  - exists [], a, z, []. split_and!; [done|done|]. by intros x ?%elem_of_nil.
  - apply StronglySorted_cons in Hs as [Hf Hs]. destruct (decide (a' < bp)).
    + destruct (IH a' z' Hs) as (l1 & p & y & l2 & E & ? & ?); [done|set_solver|].
      exists ((a, z) :: l1), p, y, l2. by rewrite E.
    + exists [], a, z, ((a', z') :: l). split_and!; [done|done|]. assert (bp < a') by (simpl in Hn; set_solver by lia).
      intros x [->|Hx]%elem_of_cons; [done|]. apply StronglySorted_cons in Hs as [Hf' _]. rewrite Forall_forall in Hf'.
      destruct (Hf' x Hx). simpl in *. lia.
Qed.

(** What the loop of [free] sees at a block. *)
Lemma search_cond s L l1 p z l2 m1 q y m2 bp : linked s L base → L = l1 ++ (p, z) :: l2 → L = m1 ++ (q, y) :: m2 → sorted L →
  (∃ l, L = (base, 0) :: l) → base < bp → p < bp → (∀ x, x ∈ l2 → bp < x.1) →
  ((q <? bp) && (bp <? hptr s q)) || ((hptr s q <=? q) && ((q <? bp) || (bp <? hptr s q))) = bool_decide (q = p).
Proof using Type.
  clear Hlimit Hbase. intros Hl EL EM Hs [l Hh] Hbp Hp Hl2.
  assert (hptr s q = hd_addr m2 base) as ->.
  { rewrite EM in Hl. apply linked_app in Hl as [_ Hl]. apply Hl. }
  assert (∀ x, x ∈ m2 → q < x.1) as Hm2.
  { rewrite EM in Hs. apply sorted_middle in Hs as (_ & _ & H). intros x Hx. apply (H x Hx). }
  assert (base ≤ q) as Hbq.
  { rewrite EM in Hh. destruct m1 as [|x m1]; simpl in Hh; [by simplify_eq|]. injection Hh as -> _.
    rewrite EM in Hs. apply sorted_middle in Hs as (_ & H & _). destruct (H (base, 0)); [by left|]. simpl in *. lia. }
  rewrite EM in EL. destruct (app_eq_app _ _ _ _ EL) as (k & [[-> E2]|[-> E2]]).
  - destruct k as [|x k]; simpl in E2.
    + injection E2 as -> -> ->. rewrite bool_decide_true by done. destruct m2 as [|[a' z'] m2]; simpl.
      * rewrite (proj2 (Z.leb_le _ _)), (proj2 (Z.ltb_lt _ _)) by lia. by rewrite orb_true_r.
      * pose proof (Hl2 (a', z') ltac:(left)). simpl in *.
        rewrite (proj2 (Z.ltb_lt q bp)), (proj2 (Z.ltb_lt bp a')) by lia. done.
    + injection E2 as <- ->. pose proof (Hl2 (q, y) ltac:(set_solver)) as Hq. simpl in Hq.
      rewrite (proj2 (Z.ltb_ge q bp)) by lia. rewrite bool_decide_false by lia. simpl.
      destruct m2 as [|[a' z'] m2]; simpl.
      * rewrite (proj2 (Z.ltb_ge bp base)) by lia. apply andb_false_r.
      * pose proof (Hm2 (a', z') ltac:(left)). simpl in *. rewrite (proj2 (Z.leb_gt _ _)) by lia. done.
  - destruct k as [|x k]; simpl in E2.
    + injection E2 as -> -> ->. rewrite bool_decide_true by done. destruct l2 as [|[a' z'] l2]; simpl.
      * rewrite (proj2 (Z.leb_le _ _)), (proj2 (Z.ltb_lt _ _)) by lia. by rewrite orb_true_r.
      * pose proof (Hl2 (a', z') ltac:(left)). simpl in *.
        rewrite (proj2 (Z.ltb_lt p bp)), (proj2 (Z.ltb_lt bp a')) by lia. done.
    + injection E2 as <- ->.
      assert (q < hd_addr (k ++ (p, z) :: l2) base ≤ p) as Hq.
      { destruct k as [|[a' z'] k]; simpl.
        - pose proof (Hm2 (p, z) ltac:(set_solver)). simpl in *. lia.
        - pose proof (Hm2 (a', z') ltac:(set_solver)). simpl in *. split; [lia|].
          rewrite EM, EL in Hs. apply sorted_middle in Hs as (_ & Hs1 & _). destruct (Hs1 (a', z')); [set_solver|]. simpl in *. lia. }
      rewrite bool_decide_false by lia. rewrite (proj2 (Z.ltb_ge bp _)), (proj2 (Z.leb_gt _ q)) by lia.
      by rewrite andb_false_r.
Qed.

(** The list from any of its blocks on. *)
Lemma rotated s L Al a : FInv s L Al → a ∈ L.*1 → ∃ z l C, C = (a, z) :: l ∧ C ≡ₚ L ∧ linked s C (hd_addr C 0).
Proof using Type.
  clear. intros [] Ha. apply list_elem_of_fmap in Ha as ([a' z] & -> & Hin). apply list_elem_of_split in Hin as (A & B & ->).
  exists z, (B ++ A), ((a', z) :: B ++ A). split_and!; [done| |].
  - change ((a', z) :: B ++ A) with (((a', z) :: B) ++ A). apply Permutation_app_comm.
  - change ((a', z) :: B ++ A) with (((a', z) :: B) ++ A). apply linked_rot. destruct fi_head0 as [l El].
    rewrite El in *. exact fi_linked0.
Qed.
Lemma linked_next s C c1 q y c2 e : linked s C e → C = c1 ++ (q, y) :: c2 → hptr s q = hd_addr c2 e.
Proof using Type. clear. intros Hl ->. apply linked_app in Hl as [_ Hl]. apply Hl. Qed.

Lemma rounds_fit s L Al : FInv s L Al → (length L + Z.to_nat limit + 4 < rounds limit)%nat ∧ 0 ≤ limit.
Proof using Hbase. intros HI. pose proof (FInv_length _ _ _ HI). destruct HI. unfold rounds. lia. Qed.

Lemma free_search s L Al bp l1 p z l2 : FInv s L Al → L = l1 ++ (p, z) :: l2 → base < bp → p < bp → (∀ x, x ∈ l2 → bp < x.1) →
  wp (while_loop (rounds limit) (freep s) (λ p,
    nx ← get_ptr base heap p;
    if (p <? bp) && (bp <? nx) then mret (inr p)
    else if (nx <=? p) && ((p <? bp) || (bp <? nx)) then mret (inr p)
    else mret (inl nx))) (λ p' s', p' = p ∧ s' = s) s.
Proof using Hbase Hlimit.
  intros HI EL Hb Hp Hl2. destruct (rotated _ _ _ _ HI (fi_freep _ _ _ HI)) as (zf & lf & C & EC & HP & HC).
  destruct (rounds_fit _ _ _ HI) as [Hfit _].
  apply (wp_while_loop (λ k q s', s' = s ∧ ∃ c1 y c2, C = c1 ++ (q, y) :: c2 ∧ p ∈ ((q, y) :: c2).*1 ∧ k = length c2) _ _ _ (length lf)).
  - split; [done|]. exists [], zf, lf. split_and!; [done| |done]. rewrite <-EC, HP, EL, fmap_app. set_solver.
  - apply Permutation_length in HP. rewrite EC in HP. simpl in HP. lia.
  - intros k q s' (-> & c1 & y & c2 & Eq & Hpin & ->).
    assert ((q, y) ∈ L) as Hq by (rewrite <-HP, Eq; set_solver).
    apply wp_bind, wp_access; [by apply (usable_free _ _ _ (q, y) HI)|]. apply wp_gets.
    pose proof Hq as (m1 & m2 & EM)%list_elem_of_split.
    pose proof (search_cond s L l1 p z l2 m1 q y m2 bp (fi_linked _ _ _ HI) EL EM (fi_sorted _ _ _ HI) (fi_head _ _ _ HI) Hb Hp Hl2) as Hc.
    destruct (decide (q = p)) as [->|Hne].
    + rewrite bool_decide_true in Hc by done. apply orb_true_iff in Hc as [Hc|Hc]; rewrite Hc; [by apply wp_ret|].
      by destruct ((p <? bp) && (bp <? hptr s p)); apply wp_ret.
    + rewrite bool_decide_false in Hc by done. apply orb_false_iff in Hc as [Hc1 Hc2]. rewrite Hc1, Hc2. apply wp_ret.
      rewrite (linked_next _ _ _ _ _ _ _ HC Eq). destruct c2 as [|[q2 y2] c2]; [set_solver|]. simpl.
      exists (length c2). split; [lia|]. split; [done|]. exists (c1 ++ [(q, y)]), y2, c2.
      split_and!; [by rewrite <-app_assoc|set_solver|done].
Qed.

(** ** [free] *)
(** The list after [bp] has been put between [p] and [l2]. *)
Definition joined (l1 : blocks) (p z bp bs : Z) (l2 : blocks) : blocks :=
  let '(bs, l2) := match l2 with (nx, ns) :: l3 => if bp + bs =? nx then (bs + ns, l3) else (bs, l2) | [] => (bs, l2) end in
  if p + z =? bp then l1 ++ (p, z + bs) :: l2 else l1 ++ (p, z) :: (bp, bs) :: l2.

Lemma wp_get_ptr p Q s : usable s p → Q (hptr s p) s → wp (get_ptr base heap p) Q s.
Proof using Type. clear. intros Hu HQ. by apply wp_access, wp_gets. Qed.
Lemma wp_get_size p Q s : usable s p → Q (hsize s p) s → wp (get_size base heap p) Q s.
Proof using Type. clear. intros Hu HQ. by apply wp_access, wp_gets. Qed.
Lemma wp_put_ptr p x (Q : unit → ms → Prop) s : usable s p → Q tt (set_hptr p x s) → wp (put_ptr base heap p x) Q s.
Proof using Type. clear. intros Hu HQ. by apply wp_access, wp_modify. Qed.
Lemma wp_put_size p x (Q : unit → ms → Prop) s : usable s p → 0 ≤ x < 2 ^ 32 → Q tt (set_hsize p x s) → wp (put_size base heap p x) Q s.
Proof using Type. clear. intros Hu Hx HQ. apply wp_access; [done|]. apply wp_modify. unfold u32. by rewrite wrap_small. Qed.

(** The links of the list, from the state [s] with other headers changed. *)
Definition framed (s s' : ms) (l : blocks) : Prop :=
  ∀ a z, (a, z) ∈ l → hptr s' a = hptr s a ∧ hsize s' a = hsize s a.
Lemma linked_joined s s' l1 p z bp bs l2 : linked s (l1 ++ (p, z) :: l2) base →
  framed s s' l1 → framed s s' l2 →
  match l2 with
  | (nx, ns) :: l3 => if bp + bs =? nx then
      if p + z =? bp then hptr s' p = hd_addr l3 base ∧ hsize s' p = z + (bs + ns)
      else hptr s' p = bp ∧ hsize s' p = z ∧ hptr s' bp = hd_addr l3 base ∧ hsize s' bp = bs + ns
    else
      if p + z =? bp then hptr s' p = nx ∧ hsize s' p = z + bs
      else hptr s' p = bp ∧ hsize s' p = z ∧ hptr s' bp = nx ∧ hsize s' bp = bs
  | [] => if p + z =? bp then hptr s' p = base ∧ hsize s' p = z + bs
      else hptr s' p = bp ∧ hsize s' p = z ∧ hptr s' bp = base ∧ hsize s' bp = bs
  end →
  linked s' (joined l1 p z bp bs l2) base.
Proof using Type.
  clear. intros Hl F1 F2 H. apply linked_app in Hl as [Hl1 (_ & _ & Hl2)]. simpl in Hl1.
  apply (linked_frame _ _ _ _ F1) in Hl1. apply (linked_frame _ _ _ _ F2) in Hl2.
  unfold joined. destruct l2 as [|[nx ns] l3]; [|destruct (bp + bs =? nx)]; (destruct (p + z =? bp); apply linked_app; simpl in *; tauto).
Qed.

(** The blocks after [joined]: old ones, and the one that contains [bp]. *)
Definition contains (l1 : blocks) (p z bp bs : Z) (l2 : blocks) (x : Z * Z) : Prop :=
  (x.1 = bp ∨ (x.1 = p ∧ p + z = bp)) ∧
  (x.1 + x.2 = bp + bs ∨ ∃ ns l3, l2 = (bp + bs, ns) :: l3 ∧ x.1 + x.2 = bp + bs + ns).
Lemma joined_elem l1 p z bp bs l2 x : x ∈ joined l1 p z bp bs l2 →
  x ∈ l1 ++ l2 ∨ (x = (p, z) ∧ p + z ≠ bp) ∨ contains l1 p z bp bs l2 x.
Proof using Type.
  clear. unfold joined, contains. destruct l2 as [|[nx ns] l3]; [|destruct (Z.eqb_spec (bp + bs) nx) as [<-|]];
    (destruct (Z.eqb_spec (p + z) bp) as [<-|]; rewrite elem_of_app, ?elem_of_cons).
  all: intros [?|[->|Hx]]; [left; set_solver|..]; try (right; right; simpl; split; [eauto|]; (left; lia) || (right; eexists _, _; split; [done|lia])).
  all: try (left; set_solver).
  all: try (right; left; done).
  all: destruct Hx as [->|Hx]; [right; right; simpl; split; [eauto|]; (left; lia) || (right; eexists _, _; split; [done|lia])|left; set_solver].
Qed.
Lemma joined_has l1 p z bp bs l2 : 0 ≤ z → (∀ x, x ∈ l2 → 1 ≤ x.2) → ∃ x, x ∈ joined l1 p z bp bs l2 ∧ bs ≤ x.2.
Proof using Type.
  clear. intros Hz Hl2. unfold joined. destruct l2 as [|[nx ns] l3]; [|pose proof (Hl2 (nx, ns) ltac:(left)); destruct (bp + bs =? nx)];
    (destruct (p + z =? bp); first [ eexists; split; [apply elem_of_app; right; left|simpl in *; lia]
                                   | eexists; split; [apply elem_of_app; right; right; left|simpl in *; lia] ]).
Qed.

Lemma joined_sorted l1 p z bp bs l2 : sorted (l1 ++ (p, z) :: l2) → p < bp → p + z ≤ bp → 1 ≤ bs → 0 ≤ z →
  (∀ x, x ∈ l2 → 1 ≤ x.2 ∧ bp < x.1 ∧ bp + bs ≤ x.1) → sorted (joined l1 p z bp bs l2).
Proof using Type.
  clear. intros Hs Hp Hpz Hbs Hz Hl2.
  assert (∀ bs' l2', sorted (l1 ++ (p, z) :: l2') → 1 ≤ bs' → (∀ x, x ∈ l2' → bp < x.1 ∧ bp + bs' ≤ x.1) →
    sorted (if p + z =? bp then l1 ++ (p, z + bs') :: l2' else l1 ++ (p, z) :: (bp, bs') :: l2')) as Hprev.
  { intros bs' l2' Hs' Hbs' Hx. apply sorted_middle in Hs' as (H1 & H2 & H3). destruct (Z.eqb_spec (p + z) bp) as [E|].
    - apply sorted_middle. split_and!; [done|exact H2|]. intros y Hy. destruct (Hx y Hy). split; simpl; lia.
    - apply sorted_middle. split_and!; [| |].
      + apply sorted_middle. split_and!; [done| |].
        * intros y Hy. destruct (H2 y Hy). split; simpl in *; lia.
        * intros y Hy. destruct (Hx y Hy). by split.
      + intros y Hy. destruct (H2 y Hy). by split.
      + intros y [->|Hy]%elem_of_cons; [by split|]. destruct (H3 y Hy). by split. }
  unfold joined. destruct l2 as [|[nx ns] l3]; [apply Hprev; [done|done|by intros x ?%elem_of_nil]|].
  destruct (Z.eqb_spec (bp + bs) nx) as [<-|].
  - destruct (Hl2 (bp + bs, ns) ltac:(left)) as (? & ? & ?). simpl in *. apply Hprev; [|lia|].
    + apply sorted_middle in Hs as (G1 & G2 & G3). apply sorted_middle in G1 as (G1 & _ & _).
      apply sorted_middle. split_and!; [done|done|]. intros y Hy. apply G3. by right.
    + intros x Hx. apply sorted_middle in Hs as (G1 & _ & _). apply sorted_middle in G1 as (_ & _ & G1).
      destruct (G1 x Hx). simpl in *. lia.
  - apply Hprev; [done|done|]. intros x Hx. by destruct (Hl2 x Hx) as (_ & ? & ?).
Qed.

(** A block in use and its neighbours in the free list. *)
Record gap s L Al bp bs l1 p z l2 : Prop := {
  gp_list : L = l1 ++ (p, z) :: l2;
  gp_live : Al !! bp = Some bs;
  gp_below : base < bp ∧ p < bp ∧ p + z ≤ bp ∧ 0 ≤ z;
  gp_size : 1 ≤ bs ∧ hsize s bp = bs ∧ bp + bs ≤ brk s ∧ heap ≤ bp;
  gp_above : ∀ x, x ∈ l2 → 1 ≤ x.2 ∧ bp < x.1 ∧ bp + bs ≤ x.1;
  gp_here : p = base ∧ z = 0 ∨ block_ok s (p, z);
}.
Lemma find_gap s L Al bp bs : FInv s L Al → Al !! bp = Some bs → ∃ l1 p z l2, gap s L Al bp bs l1 p z l2.
Proof using Hbase Hlimit.
  intros HI Hbp. pose proof HI as []. destruct (fi_live0 bp bs Hbp) as [(B1 & B2 & B3) Hsz]. simpl in B1, B2, B3.
  assert (∀ x, x ∈ L → x.1 ≠ bp ∧ (x.1 < bp → x.1 + x.2 ≤ bp) ∧ (bp < x.1 → bp + bs ≤ x.1)) as HL.
  { intros x Hx. destruct (decide (x = (base, 0))) as [->|Hne]; [simpl; lia|].
    destruct (fi_apart0 bp bs x Hbp Hx Hne); destruct (fi_block0 x Hx) as [|(? & ? & ?)]; simpl in *; try done; lia. }
  destruct (split_at L bp) as (l1 & p & z & l2 & EL & Hp & Hl2); [done| | |].
  - destruct fi_head0 as [l ->]. exists base, 0, l. split; [done|lia].
  - intros (x & -> & Hx)%list_elem_of_fmap. by destruct (HL x Hx).
  - assert ((p, z) ∈ L) as Hpin by (rewrite EL; clear; set_solver). exists l1, p, z, l2.
    destruct (HL _ Hpin) as (_ & Hpz & _). simpl in Hpz.
    assert (p = base ∧ z = 0 ∨ block_ok s (p, z)) as Hhere.
    { destruct (fi_block0 _ Hpin) as [[= -> ->]|]; [by left|by right]. }
    split; try done.
    + split_and!; [lia|done|lia|]. destruct Hhere as [[_ ->]|(_ & ? & _)]; simpl in *; lia.
    + intros x Hx. assert (x ∈ L) as HxL by (rewrite EL; clear -Hx; set_solver). destruct (HL x HxL) as (_ & _ & ?). pose proof (Hl2 x Hx).
      split_and!; [|done|lia]. destruct (fi_block0 x HxL) as [->|(_ & ? & _)]; [simpl in *; lia|done].
Qed.

Lemma FInv_joined s L Al bp bs l1 p z l2 s' : FInv s L Al → gap s L Al bp bs l1 p z l2 →
  linked s' (joined l1 p z bp bs l2) base → brk s' = brk s → freep s' = p →
  (∀ a, a ≠ bp → a ≠ p → hsize s' a = hsize s a) → FInv s' (joined l1 p z bp bs l2) (delete bp Al).
Proof using Hbase Hlimit.
  intros HI HG Hl Hb Hf Hs. pose proof HI as []. destruct HG as [EL Hbp (G1 & G2 & G3 & G4) (S1 & S2 & S3 & S4) Ha Hh].
  assert (p ∈ L.*1) as HpL by (rewrite EL, fmap_app; clear; set_solver).
  split; try done.
  - apply joined_sorted; [by rewrite <-EL|done..].
  - destruct fi_head0 as [l El]. destruct l1 as [|x l1]; simpl in EL; rewrite EL in El.
    + injection El as -> -> _. unfold joined. rewrite Z.add_0_r. rewrite (proj2 (Z.eqb_neq base bp)) by lia.
      simpl. destruct l2 as [|[nx ns] l3]; [|destruct (bp + bs =? nx)]; eauto.
    + injection El as -> _. unfold joined. destruct l2 as [|[nx ns] l3]; [|destruct (bp + bs =? nx)]; (destruct (p + z =? bp); simpl; eauto).
  - intros x [Hx|[[-> _]|[Hx1 Hx2]]]%joined_elem.
    + unfold block_ok. rewrite Hb. apply fi_block0. rewrite EL. clear -Hx; set_solver.
    + unfold block_ok. rewrite Hb. apply fi_block0. rewrite EL. clear; set_solver.
    + right. unfold block_ok in *. rewrite Hb. destruct x as [x1 x2]. simpl in *.
      assert (heap ≤ x1 ∧ x1 ≤ bp) as [? ?].
      { destruct Hx1 as [->|[-> ?]]; [lia|]. destruct Hh as [[-> ->]|(? & _)]; lia. }
      destruct Hx2 as [?|(ns & l3 & -> & ?)]; [lia|].
      destruct (fi_block0 (bp + bs, ns)) as [[= ? ->]|(? & ? & ?)]; [rewrite EL; clear; set_solver|lia|simpl in *; lia].
  - rewrite Hf. unfold joined. destruct l2 as [|[nx ns] l3]; [|destruct (bp + bs =? nx)]; (destruct (p + z =? bp); rewrite fmap_app; clear; set_solver).
  - by rewrite Hb.
  - intros a y [Hne Hay]%lookup_delete_Some. destruct (fi_live0 a y Hay) as [Hok Hsz]. split; [unfold block_ok; by rewrite Hb|].
    rewrite Hs; [done|done|]. intros ->. destruct Hh as [[-> ->]|Hh].
    + destruct Hok as (? & _). simpl in *. lia.
    + destruct (fi_apart0 p y (p, z) Hay) as [?|?]; [rewrite EL; clear; set_solver| |destruct Hok as (_ & ? & _); simpl in *; lia|destruct Hh as (_ & ? & _); simpl in *; lia].
      intros [= -> ->]. destruct Hh as (_ & ? & _). simpl in *. lia.
  - intros a y a' y' [_ H1]%lookup_delete_Some [_ H2]%lookup_delete_Some. eauto.
  - intros a y x [Hne Hay]%lookup_delete_Some Hx Hxb. destruct (fi_live0 a y Hay) as [(_ & Hy & _) _]. simpl in Hy.
    apply joined_elem in Hx as [Hx|[[-> _]|[Hx1 Hx2]]].
    + eapply fi_apart0; [done|rewrite EL; clear -Hx; set_solver|done].
    + eapply fi_apart0; [done|rewrite EL; clear; set_solver|done].
    + destruct x as [x1 x2]. pose proof (fi_disj0 a y bp bs Hay Hbp ltac:(done)) as D1. unfold apart in *. simpl in *.
      assert (x1 = bp ∨ (x1 = p ∧ p + z = bp ∧ 1 ≤ z ∧ (a + y ≤ p ∨ p + z ≤ a))) as Hx1'.
      { destruct Hx1 as [|[-> E]]; [by left|right]. destruct Hh as [[-> ->]|(_ & Hz & _)]; [lia|]. split_and!; [done|done|done|].
        apply (fi_apart0 a y (p, z) Hay); [rewrite EL; clear; set_solver|]. intros [= -> ->]. simpl in Hz. lia. }
      destruct Hx2 as [?|(ns & l3 & -> & ?)]; [lia|].
      assert (1 ≤ ns ∧ (a + y ≤ bp + bs ∨ bp + bs + ns ≤ a)) as [? ?]; [|lia].
      destruct (Ha (bp + bs, ns) ltac:(left)) as [? _]. split; [done|].
      apply (fi_apart0 a y (bp + bs, ns) Hay); [rewrite EL; clear; set_solver|]. intros [= ? ->]. simpl in *. lia.
Qed.

(** The contents of the blocks in use. *)
Definition kept Al s s' : Prop := ∀ a z i, Al !! a = Some z → a ≤ i < a + z → hptr s' i = hptr s i ∧ hsize s' i = hsize s i.
Lemma kept_free s L Al bp bs l1 p z l2 s' : FInv s L Al → gap s L Al bp bs l1 p z l2 →
  (∀ i, i ≠ bp → i ≠ p → hptr s' i = hptr s i ∧ hsize s' i = hsize s i) → kept (delete bp Al) s s'.
Proof using Hbase Hlimit.
  intros HI HG Hc a y i [Hne Ha]%lookup_delete_Some Hi. destruct HG as [EL Hbp _ (S1 & _) _ Hh]. pose proof HI as [].
  destruct (fi_live0 a y Ha) as [(Ha1 & _) _]. simpl in Ha1. apply Hc; intros ->.
  - destruct (fi_disj0 a y bp bs Ha Hbp ltac:(done)); simpl in *; lia.
  - destruct Hh as [[-> ->]|(Hp1 & Hp2 & Hp3)]; [lia|]. simpl in *.
    destruct (fi_apart0 a y (p, z) Ha); [rewrite EL; clear; set_solver| |simpl in *; lia..]. intros [= -> ->]. lia.
Qed.

Ltac heads := repeat first
  [ progress simpl
  | rewrite fn_lookup_insert
  | rewrite fn_lookup_insert_ne by lia ].

(** Joining a block with the one before it. *)
Lemma free_lower p bp (Q : unit → ms → Prop) s : usable s p → usable s bp → 0 ≤ hsize s p + hsize s bp < 2 ^ 32 →
  Q tt (set_freep p (if p + hsize s p =? bp then set_hptr p (hptr s bp) (set_hsize p (hsize s p + hsize s bp) s)
                     else set_hptr p bp s)) →
  wp (ps ← get_size base heap p;
      (if p + ps =? bp then
         bs ← get_size base heap bp;
         put_size base heap p (ps + bs);;
         bn ← get_ptr base heap bp;
         put_ptr base heap p bn
       else put_ptr base heap p bp);;
      modify (set_freep p)) Q s.
Proof using Type.
  clear. intros Up Ub Hz HQ. apply wp_bind, wp_get_size; [done|]. apply wp_bind. destruct (p + hsize s p =? bp).
  - apply wp_bind, wp_get_size; [done|]. apply wp_bind, wp_put_size; [done|done|].
    apply wp_bind, wp_get_ptr; [done|]. apply wp_put_ptr; [done|]. by apply wp_modify.
  - apply wp_put_ptr; [done|]. by apply wp_modify.
Qed.
(** [free] gives the block back to the list; some block is as large as it. *)
Lemma free_spec s L Al bp bs : FInv s L Al → Al !! bp = Some bs →
  wp (free base heap limit bp) (λ _ s', brk s' = brk s ∧ kept (delete bp Al) s s' ∧
    ∃ L', FInv s' L' (delete bp Al) ∧ ∃ x, x ∈ L' ∧ bs ≤ x.2) s.
Proof using Hbase Hlimit.
  intros HI Hbp. destruct (find_gap _ _ _ _ _ HI Hbp) as (l1 & p & z & l2 & HG). pose proof HG as [EL _ (G1 & G2 & G3 & G4) (S1 & S2 & S3 & S4) Ha Hh].
  assert (usable s p) as Up by (apply (usable_free _ _ _ (p, z) HI); rewrite EL; clear; set_solver).
  pose proof (usable_live _ _ _ _ _ HI Hbp) as Ub. pose proof (fi_linked _ _ _ HI) as Hlk. pose proof (fi_sorted _ _ _ HI) as Hsd.
  rewrite EL in Hlk, Hsd. pose proof (linked_next _ _ _ _ _ _ _ Hlk eq_refl) as Hnx.
  assert (hsize s p = z) as Hz by (apply (linked_size _ _ _ _ _ Hlk); clear; set_solver).
  assert (∀ s', linked s' (joined l1 p z bp bs l2) base → brk s' = brk s → freep s' = p →
    (∀ i, i ≠ bp → i ≠ p → hptr s' i = hptr s i ∧ hsize s' i = hsize s i) →
    brk s' = brk s ∧ kept (delete bp Al) s s' ∧ ∃ L', FInv s' L' (delete bp Al) ∧ ∃ x, x ∈ L' ∧ bs ≤ x.2) as Hend.
  { intros s' Hl' Hb' Hf' Hc. split_and!; [done|by eapply kept_free|]. exists (joined l1 p z bp bs l2). split.
    - apply (FInv_joined _ _ _ _ _ _ _ _ _ _ HI HG); try done. intros a ? ?. by apply Hc.
    - apply joined_has; [done|]. intros x Hx. by apply Ha. }
  unfold free. apply wp_bind, wp_gets. apply wp_bind.
  eapply wp_mono; [apply (free_search _ _ _ bp _ _ _ _ HI EL)|]; [lia|done|intros x Hx; by apply Ha|]. intros p' s0 [-> ->].
  apply wp_bind, wp_get_size; [done|]. apply wp_bind, wp_get_ptr; [done|]. rewrite S2, Hnx.
  assert (∀ i y, (i, y) ∈ l1 ++ l2 → i ≠ p ∧ i ≠ bp) as Hne.
  { intros i y Hi. split; [by apply (sorted_addr _ _ _ _ _ _ Hsd Hi)|]. apply sorted_middle in Hsd as (_ & H1 & _).
    apply elem_of_app in Hi as [Hi|Hi]; [destruct (H1 _ Hi)|destruct (Ha _ Hi) as (_ & ? & _)]; simpl in *; lia. }
  pose proof (fi_brk _ _ _ HI). assert (1 ≤ p) by (destruct Hh as [[-> _]|(? & _)]; simpl in *; lia).
  apply wp_bind. destruct l2 as [|[nx ns] l3]; simpl hd_addr in *.
  - rewrite (proj2 (Z.eqb_neq _ base)) by lia. apply wp_put_ptr; [done|]. apply free_lower; [done|done|simpl; lia|].
    apply Hend; heads; rewrite ?S2, ?Hz; [|by destruct (p + z =? bp)..|].
    + apply (linked_joined s); [done|intros i y Hi; destruct (Hne i y); [clear -Hi; set_solver|]..|]; (destruct (p + z =? bp); heads; try done).
    + intros i Hi1 Hi2. by destruct (p + z =? bp); heads.
  - destruct (Ha (nx, ns) ltac:(left)) as (N1 & N2 & N3). simpl in N1, N2, N3.
    assert ((nx, ns) ∈ L) as HnL by (rewrite EL; clear; set_solver).
    assert (usable s nx) as Un by apply (usable_free _ _ _ _ HI HnL).
    assert (hsize s nx = ns) as Hns by apply (linked_size _ _ _ _ _ (fi_linked _ _ _ HI) HnL).
    assert (hptr s nx = hd_addr l3 base) as Hnn.
    { apply (linked_next _ _ (l1 ++ [(p, z)]) _ ns _ _ Hlk). by rewrite <-app_assoc. }
    assert (nx + ns ≤ brk s) by (destruct (fi_block _ _ _ HI _ HnL) as [[= -> ->]|(_ & _ & ?)]; simpl in *; lia).
    destruct (Z.eqb_spec (bp + bs) nx) as [En|En].
    + apply wp_bind, wp_get_size; [done|]. rewrite Hns. apply wp_bind, wp_put_size; [done|lia|].
      apply wp_bind, wp_get_ptr; [done|]. apply wp_put_ptr; [done|]. apply free_lower; [done|done|heads; lia|].
      apply Hend; heads; rewrite ?S2, ?Hz, ?Hnn; [|by destruct (p + z =? bp)..|].
      * apply (linked_joined s); [done|intros i y Hi; destruct (Hne i y); [clear -Hi; set_solver|]..|];
          rewrite ?(proj2 (Z.eqb_eq _ _) En); (destruct (p + z =? bp); heads; try done).
      * intros i Hi1 Hi2. by destruct (p + z =? bp); heads.
    + apply wp_put_ptr; [done|]. apply free_lower; [done|done|simpl; lia|].
      apply Hend; heads; rewrite ?S2, ?Hz; [|by destruct (p + z =? bp)..|].
      * apply (linked_joined s); [done|intros i y Hi; destruct (Hne i y); [clear -Hi; set_solver|]..|];
          rewrite ?(proj2 (Z.eqb_neq _ _) En); (destruct (p + z =? bp); heads; try done).
      * intros i Hi1 Hi2. by destruct (p + z =? bp); heads.
Qed.

(** ** [morecore] *)
Lemma kept_trans Al s s' s'' : kept Al s s' → kept Al s' s'' → kept Al s s''.
Proof using Type. clear. intros H1 H2 a z i Ha Hi. destruct (H1 a z i Ha Hi) as [<- <-]. eauto. Qed.
Lemma FInv_addr s L Al a : FInv s L Al → a ∈ L.*1 → 1 ≤ a < brk s ∨ a = base.
Proof using Hbase.
  intros HI ([b z] & -> & Hx)%list_elem_of_fmap. destruct (fi_block _ _ _ HI _ Hx) as [[= -> ->]|(? & ? & ?)]; simpl in *; [by right|left; lia].
Qed.
(** The new memory is first a block in use. *)
Lemma FInv_grow s L Al n : FInv s L Al → 1 ≤ n → brk s + n ≤ limit →
  let s' := set_hsize (brk s) n (set_brk (brk s + n) s) in
  Al !! brk s = None ∧ kept Al s s' ∧ FInv s' L (<[brk s := n]> Al).
Proof using Hbase.
  intros HI Hn Hb s'. pose proof HI as [].
  assert (∀ i, i ≠ brk s → hptr s' i = hptr s i ∧ hsize s' i = hsize s i) as Hs' by (intros i Hi; by heads).
  assert (∀ a z, Al !! a = Some z → heap ≤ a ∧ 1 ≤ z ∧ a + z ≤ brk s ∧ hsize s a = z) as HAl.
  { intros a z Ha. destruct (fi_live0 a z Ha) as [(? & ? & ?) ?]. done. }
  assert (∀ x, block_ok s x → block_ok s' x) as Hok by (intros x (? & ? & ?); unfold block_ok; simpl; lia).
  split; [|split].
  - destruct (Al !! brk s) eqn:E; [|done]. apply HAl in E. lia.
  - intros a z i Ha Hi. apply Hs'. apply HAl in Ha. lia.
  - split; try done.
    + eapply linked_frame; [|done]. intros a z Hin. apply Hs'.
      destruct (fi_block0 _ Hin) as [[= -> ->]|(? & ? & ?)]; simpl in *; lia.
    + intros x Hx. destruct (fi_block0 x Hx); auto.
    + simpl. lia.
    + intros a z [[<- <-]|[? Ha]]%lookup_insert_Some; [|destruct (fi_live0 a z Ha); split; [auto|]; by heads].
      split; [unfold block_ok; simpl; lia|by heads].
    + intros a z a' z' [[<- <-]|[? Ha]]%lookup_insert_Some [[<- <-]|[? Ha']]%lookup_insert_Some ?; [done|..|eauto].
      * right. apply HAl in Ha'. simpl. lia.
      * left. apply HAl in Ha. simpl. lia.
    + intros a z x [[<- <-]|[? Ha]]%lookup_insert_Some Hx Hxb; [|eauto]. right. destruct (fi_block0 x Hx) as [|(? & ? & ?)]; [done|simpl; lia].
Qed.

Definition core_units (nu : Z) : Z := if nu <? 4096 then 4096 else nu.
Lemma morecore_spec s L Al nu : FInv s L Al → 1 ≤ nu → nu * sizeof_Header < 2 ^ 31 →
  wp (morecore base heap limit nu) (λ r s',
    (r = 0 ∧ s' = s ∧ limit < brk s + core_units nu) ∨
    (r = freep s' ∧ r ≠ 0 ∧ kept Al s s' ∧ brk s ≤ brk s' ∧ ∃ L', FInv s' L' Al ∧ ∃ x, x ∈ L' ∧ nu ≤ x.2)) s.
Proof using Hbase Hlimit.
  intros HI Hnu Hmax. unfold morecore. fold (core_units nu).
  assert (1 ≤ core_units nu ∧ nu ≤ core_units nu ∧ core_units nu * 16 < 2 ^ 31) as (U1 & U2 & U3).
  { unfold core_units, sizeof_Header in *. destruct (Z.ltb_spec nu 4096); lia. }
  pose proof (fi_brk _ _ _ HI) as Hb. unfold sizeof_Header, sbrk. unfold s32. rewrite swrap_small by lia. apply wp_bind, wp_bind, wp_gets.
  rewrite (proj2 (Z.leb_le _ _)) by lia. unfold sizeof_Header. rewrite Z.div_mul by lia. destruct (Z.ltb_spec limit (brk s + core_units nu)).
  { apply wp_ret. simpl. apply wp_ret. by left. }
  destruct (FInv_grow s L Al (core_units nu) HI) as (Hnone & Hk & HI'); [done|done|].
  apply wp_bind, wp_modify, wp_ret. rewrite (proj2 (Z.eqb_neq _ (-1))) by lia.
  apply wp_bind, wp_put_size; [right; simpl; lia|lia|]. apply wp_bind.
  eapply wp_mono; [apply (free_spec _ _ _ (brk s) (core_units nu) HI'), lookup_insert_eq|]. simpl. intros _ s' (Hb' & Hk' & L' & HI'' & x & Hx & Hle).
  apply wp_gets. right. rewrite delete_insert_id in Hk', HI'' by done. split_and!; [done| |by eapply kept_trans|lia|].
  - destruct (FInv_addr _ _ _ _ HI'' (fi_freep _ _ _ HI'')); lia.
  - exists L'. split; [done|]. exists x. split; [done|lia].
Qed.

(** ** [malloc] *)
(** The tail of a free block becomes a block in use. *)
Lemma FInv_take s L Al m1 p y m2 n s' L' : FInv s L Al → L = m1 ++ (p, y) :: m2 → 1 ≤ n ≤ y →
  linked s' L' base → sorted L' → (∃ l, L' = (base, 0) :: l) → freep s' ∈ L'.*1 → brk s' = brk s →
  (∀ x, x ∈ L' → x ∈ m1 ++ m2 ∨ x = (p, y - n) ∧ n < y) → hsize s' (p + (y - n)) = n → kept Al s s' →
  Al !! (p + (y - n)) = None ∧ FInv s' L' (<[p + (y - n) := n]> Al).
Proof using Hbase Hlimit.
  intros HI EL Hn Hl' Hs' Hh' Hf' Hb' HL' Hr Hk. pose proof HI as [].
  assert ((p, y) ∈ L) as HpL by (rewrite EL; clear; set_solver).
  assert (∀ x, x ∈ m1 ++ m2 → x ∈ L) as Hsub by (intros x Hx; rewrite EL; clear -Hx; set_solver).
  assert (block_ok s (p, y)) as Hp by (destruct (fi_block0 _ HpL) as [[= -> ->]|?]; [lia|done]).
  assert (∀ a z, Al !! a = Some z → apart (a, z) (p, y)) as Hap.
  { intros a z Ha. apply (fi_apart0 a z (p, y) Ha HpL). intros [= -> ->]. lia. }
  assert (∀ x, x ∈ m1 ++ m2 → apart x (p, y)) as Hfr.
  { intros x Hx. rewrite EL in fi_sorted0. apply sorted_middle in fi_sorted0 as (_ & H1 & H2).
    apply elem_of_app in Hx as [Hx|Hx]; [left; apply (H1 x Hx)|right; apply (H2 x Hx)]. }
  assert (∀ a z, Al !! a = Some z → heap ≤ a ∧ 1 ≤ z ∧ a + z ≤ brk s ∧ hsize s a = z) as HAl.
  { intros a z Ha. destruct (fi_live0 a z Ha) as [(? & ? & ?) ?]. done. }
  destruct Hp as (P1 & P2 & P3). unfold apart, block_ok in *. simpl in P1, P2, P3, Hap, Hfr. split.
  { destruct (Al !! _) eqn:E; [|done]. pose proof (HAl _ _ E). apply Hap in E. lia. }
  split; rewrite ?Hb'; try done.
  - intros x Hx. unfold block_ok. rewrite Hb'. destruct (HL' x Hx) as [Hx'|[-> ?]]; [by apply fi_block0, Hsub|]. right. simpl. lia.
  - intros a z [[<- <-]|[? Ha]]%lookup_insert_Some; [split; [unfold block_ok; simpl; lia|done]|].
    destruct (HAl a z Ha) as (? & ? & ? & ?). destruct (Hk a z a Ha ltac:(lia)) as [_ ->]. split; [unfold block_ok; simpl; lia|done].
  - intros a z a' z' [[<- <-]|[? Ha]]%lookup_insert_Some [[<- <-]|[? Ha']]%lookup_insert_Some ?; [done|..|by apply fi_disj0].
    + apply Hap in Ha'. unfold apart. simpl in *. lia.
    + apply Hap in Ha. unfold apart. simpl in *. lia.
  - intros a z x Ha Hx Hxb. apply HL' in Hx as [Hx|[-> ?]]; apply lookup_insert_Some in Ha as [[<- <-]|[? Ha]].
    + apply Hfr in Hx. unfold apart. simpl. lia.
    + by apply (fi_apart0 a z x Ha (Hsub x Hx)).
    + unfold apart. simpl. lia.
    + apply Hap in Ha. unfold apart. simpl in *. lia.
Qed.

(** The block before a free one is the one that points to it. *)
Lemma prev_block s L Al q p y : FInv s L Al → q ∈ L.*1 → hptr s q = p → p ≠ base → (p, y) ∈ L →
  ∃ m1 w m2, L = m1 ++ (q, w) :: (p, y) :: m2.
Proof using Type.
  clear. intros HI ([q' w] & -> & Hq)%list_elem_of_fmap Hp Hne Hin. apply list_elem_of_split in Hq as (m1 & m2 & EL).
  pose proof HI as []. pose proof (linked_next _ _ _ _ _ _ _ fi_linked0 EL) as Hn. simpl in Hn, Hp. rewrite Hn in Hp.
  destruct m2 as [|[p' y'] m2]; [done|]. simpl in Hp. subst p'. exists m1, w, m2.
  assert (y' = y) as ->; [|done]. rewrite <-(linked_size _ _ _ _ _ fi_linked0 Hin).
  symmetry. apply (linked_size _ _ _ _ _ fi_linked0). rewrite EL. set_solver.
Qed.

Lemma live_not_free s L Al a z i x : FInv s L Al → Al !! a = Some z → a ≤ i < a + z → x ∈ L → i < x.1 ∨ x.1 + x.2 ≤ i ∧ i ≠ x.1.
Proof using Hbase.
  intros HI Ha Hi Hx. pose proof HI as []. destruct (fi_live0 a z Ha) as [(H1 & _ & _) _]. simpl in H1.
  destruct (decide (x = (base, 0))) as [->|Hne]; [simpl; lia|]. destruct (fi_block0 x Hx) as [|(? & ? & ?)]; [done|].
  destruct (fi_apart0 a z x Ha Hx Hne); simpl in *; lia.
Qed.

(** A block that fits exactly leaves the list. *)
Lemma take_exact s L Al m1 q w p y m2 : FInv s L Al → L = m1 ++ (q, w) :: (p, y) :: m2 → 1 ≤ y →
  let s' := set_freep q (set_hptr q (hptr s p) s) in
  Al !! p = None ∧ kept Al s s' ∧ ∃ L', FInv s' L' (<[p := y]> Al).
Proof using Hbase Hlimit.
  intros HI EL Hy s'. pose proof HI as [].
  assert (L = (m1 ++ [(q, w)]) ++ (p, y) :: m2) as EL2 by (rewrite EL, <-app_assoc; done).
  assert ((q, w) ∈ L) as Hq by (rewrite EL; clear; set_solver).
  assert (kept Al s s') as Hk.
  { intros a z i Ha Hi. pose proof (live_not_free _ _ _ _ _ _ _ HI Ha Hi Hq). simpl in *. unfold s'. by heads. }
  pose proof fi_sorted0 as Hs. rewrite EL2 in Hs. apply sorted_middle in Hs as (Hs & Hbef & Haft). rewrite <-app_assoc in Hs.
  assert (∀ x, x ∈ m1 ++ m2 → x.1 ≠ q) as Hne by (intros [a z] Hx; by apply (sorted_addr _ _ _ _ _ _ Hs Hx)).
  assert (linked s' (m1 ++ (q, w) :: m2) base) as Hl'.
  { pose proof fi_linked0 as Hl. rewrite EL in Hl. apply linked_app in Hl as [Hl1 (Hl2 & Hl3 & Hl4 & Hl5 & Hl6)]. apply linked_app. split.
    - apply (linked_frame s); [|done]. intros a z Hx. assert (a ≠ q) by (apply (Hne (a, z)); clear -Hx; set_solver). unfold s'. by heads.
    - unfold s'. simpl. rewrite fn_lookup_insert. split_and!; [done|done|]. apply (linked_frame s); [|done].
      intros a z Hx. assert (a ≠ q) by (apply (Hne (a, z)); clear -Hx; set_solver). unfold s'. by heads. }
  destruct (FInv_take s L Al (m1 ++ [(q, w)]) p y m2 y s' (m1 ++ (q, w) :: m2)) as [H1 H2]; try done.
  - destruct fi_head0 as [l El]. rewrite EL in El. destruct m1; simpl in *; [injection El as -> -> _; eauto|injection El as -> _; eauto].
  - simpl. rewrite fmap_app. clear. set_solver.
  - intros x Hx. left. clear -Hx. set_solver.
  - rewrite Z.sub_diag, Z.add_0_r. apply (linked_size _ _ _ _ _ fi_linked0). rewrite EL. clear. set_solver.
  - rewrite Z.sub_diag, Z.add_0_r in H1, H2. eauto.
Qed.
(** A larger block keeps its front. *)
Lemma take_tail s L Al m1 q p y m2 n : FInv s L Al → L = m1 ++ (p, y) :: m2 → q ∈ L.*1 → 1 ≤ n < y →
  let r := p + (y - n) in
  let s' := set_freep q (set_hsize r n (set_hsize p (y - n) s)) in
  Al !! r = None ∧ kept Al s s' ∧ ∃ L', FInv s' L' (<[r := n]> Al).
Proof using Hbase Hlimit.
  intros HI EL Hq Hn r s'. pose proof HI as [].
  assert ((p, y) ∈ L) as Hp by (rewrite EL; clear; set_solver).
  assert (kept Al s s') as Hk.
  { intros a z i Ha Hi. pose proof (live_not_free _ _ _ _ _ _ _ HI Ha Hi Hp). simpl in *. unfold s', r. by heads. }
  pose proof fi_sorted0 as Hs. rewrite EL in Hs. apply sorted_middle in Hs as (Hs & Hbef & Haft).
  assert (∀ a z, (a, z) ∈ m1 ++ m2 → a ≠ p ∧ a ≠ r) as Hne.
  { unfold r. intros a z [Hx|Hx]%elem_of_app; [destruct (Hbef _ Hx)|destruct (Haft _ Hx)]; simpl in *; lia. }
  assert (framed s s' (m1 ++ m2)) as Hfr.
  { intros a z Hx. destruct (Hne a z Hx). unfold s'. by heads. }
  assert (linked s' (m1 ++ (p, y - n) :: m2) base) as Hl'.
  { pose proof fi_linked0 as Hl. rewrite EL in Hl. apply linked_app in Hl as [Hl1 (Hl2 & Hl3 & Hl4)]. apply linked_app. split.
    - apply (linked_frame s); [|done]. intros a z Hx. apply (Hfr a z). clear -Hx; set_solver.
    - split_and!; [done| |apply (linked_frame s); [|done]; intros a z Hx; apply (Hfr a z); clear -Hx; set_solver].
      unfold s', r. by heads. }
  destruct (FInv_take s L Al m1 p y m2 n s' (m1 ++ (p, y - n) :: m2)) as [H1 H2]; try done; [lia|..|eauto].
  - apply sorted_middle. split_and!; [done|..]; intros x Hx; [destruct (Hbef x Hx)|destruct (Haft x Hx)]; split; simpl in *; lia.
  - destruct fi_head0 as [l El]. rewrite EL in El. destruct m1; simpl in *; [injection El as -> -> _; lia|injection El as -> _; eauto].
  - simpl. rewrite EL, fmap_app in Hq. rewrite fmap_app. exact Hq.
  - intros x Hx. destruct (decide (x = (p, y - n))) as [->|]; [right; split; [done|lia]|left; clear - Hx n0; set_solver].
  - unfold s', r. by heads.
Qed.

(** The list once around, [freep] last. *)
Lemma sorted_NoDup L : sorted L → NoDup L.*1.
Proof using Type.
  clear. induction 1 as [|[a z] l Hs IH Hf]; simpl; constructor; [|done]. intros (x & -> & Hx)%list_elem_of_fmap.
  rewrite Forall_forall in Hf. destruct (Hf x Hx). simpl in *. lia.
Qed.
Record circle s L (C : blocks) : Prop := {
  ci_perm : C ≡ₚ L;
  ci_linked : linked s C (hd_addr C 0);
  ci_last : ∃ c z, C = c ++ [(freep s, z)];
}.
Lemma has_circle s L Al : FInv s L Al → ∃ C, circle s L C ∧ C ≠ [] ∧ hd_addr C 0 = hptr s (freep s).
Proof using Type.
  clear. intros []. pose proof fi_freep0 as ([f z] & Ef & Hin)%list_elem_of_fmap. simpl in Ef. apply list_elem_of_split in Hin as (A & B & EL).
  assert (linked s (B ++ (A ++ [(f, z)])) (hd_addr (B ++ (A ++ [(f, z)])) 0)) as Hl.
  { apply linked_rot. rewrite <-app_assoc. change ([(f, z)] ++ B) with ((f, z) :: B). rewrite <-EL.
    destruct fi_head0 as [l El]. rewrite El in *. exact fi_linked0. }
  exists (B ++ (A ++ [(f, z)])). split_and!; [split|by destruct B, A|].
  - rewrite EL. rewrite Permutation_app_comm, <-app_assoc. done.
  - done.
  - exists (B ++ A), z. by rewrite Ef, <-app_assoc.
  - symmetry. rewrite Ef. rewrite app_assoc in Hl |- *. by apply (linked_next _ _ _ _ _ _ _ Hl eq_refl).
Qed.
Lemma circle_end s L Al C c1 y c2 : FInv s L Al → circle s L C → C = c1 ++ (freep s, y) :: c2 → c2 = [].
Proof using Type.
  clear. intros HI [HP _ (c & z & EC)] E. pose proof (sorted_NoDup _ (fi_sorted _ _ _ HI)) as Hnd. rewrite <-HP in Hnd.
  destruct c2 as [|x c2 _] using rev_ind; [done|]. exfalso. rewrite E, fmap_app, fmap_cons, fmap_app in Hnd.
  assert (x.1 = freep s) as Ex.
  { rewrite E in EC. rewrite app_comm_cons, app_assoc in EC. by apply app_inj_tail in EC as [_ ->]. }
  apply NoDup_app in Hnd as (_ & _ & [Hnd _]%NoDup_cons). apply Hnd. rewrite elem_of_app. right. rewrite <-Ex. by left.
Qed.

(** What the loop of [malloc] knows at the block [p]: all blocks so far are too
    small, or, after [morecore], a block that is large enough is ahead. *)
Definition searching s0 L0 Al n (k : nat) (st : Z * Z) s : Prop :=
  ∃ L C c1 y c2, FInv s L Al ∧ circle s L C ∧ C = c1 ++ (st.2, y) :: c2 ∧ st.1 ∈ L.*1 ∧ hptr s st.1 = st.2 ∧
  ((s = s0 ∧ L = L0 ∧ (∀ x, x ∈ c1 → x.2 < n) ∧ k = (length c2 + Z.to_nat limit + 3)%nat) ∨
   (kept Al s0 s ∧ brk s0 ≤ brk s ∧ (∃ x, x ∈ (st.2, y) :: c2 ∧ n ≤ x.2) ∧ k = length c2)).
Definition malloced s0 L0 Al n (r : Z) s : Prop :=
  (r = 0 ∧ s = s0 ∧ (∀ x, x ∈ L0 → x.2 < n) ∧ limit < brk s0 + core_units n) ∨
  (1 < r ∧ Al !! (r - 1) = None ∧ kept Al s0 s ∧ brk s0 ≤ brk s ∧ ∃ L', FInv s L' (<[r - 1 := n]> Al)).

(** Carving a block out. *)
Lemma malloc_found s L Al q p y n : FInv s L Al → (p, y) ∈ L → q ∈ L.*1 → hptr s q = p → 1 ≤ n ≤ y →
  wp (r ← (if y =? n then
             nx ← get_ptr base heap p;
             put_ptr base heap q nx;;
             mret p
           else
             put_size base heap p (y - n);;
             let p := p + (y - n) in
             put_size base heap p n;;
             mret p);
      modify (set_freep q);;
      mret (inr (r + 1) : (Z * Z) + Z))
    (λ r s', ∃ a, r = inr (a + 1) ∧ 1 ≤ a ∧ Al !! a = None ∧ kept Al s s' ∧ brk s' = brk s ∧ ∃ L', FInv s' L' (<[a := n]> Al)) s.
Proof using Hbase Hlimit.
  intros HI Hp Hq Hqp Hn. pose proof (fi_brk _ _ _ HI) as Hb.
  assert (p ≠ base ∧ block_ok s (p, y)) as [Hne (P1 & P2 & P3)].
  { destruct (fi_block _ _ _ HI _ Hp) as [[= _ ->]|Hok]; [lia|]. split; [|done]. destruct Hok as (? & _). simpl in *. lia. }
  simpl in P1, P2, P3. assert (usable s p) as Up by (right; lia).
  assert (usable s q) as Uq by (apply list_elem_of_fmap in Hq as (x & -> & Hx); by apply (usable_free _ _ _ x HI)).
  apply wp_bind. destruct (Z.eqb_spec y n) as [<-|].
  - apply wp_bind, wp_get_ptr; [done|]. apply wp_bind, wp_put_ptr; [done|]. apply wp_ret.
    apply wp_bind, wp_modify, wp_ret. destruct (prev_block _ _ _ _ _ _ HI Hq Hqp Hne Hp) as (m1 & w & m2 & EL).
    destruct (take_exact _ _ _ _ _ _ _ _ _ HI EL) as (H1 & H2 & H3); [lia|]. exists p. split_and!; try done. lia.
  - apply wp_bind, wp_put_size; [done|lia|]. apply wp_bind, wp_put_size; [right; simpl; lia|lia|]. apply wp_ret.
    apply wp_bind, wp_modify, wp_ret. apply list_elem_of_split in Hp as (m1 & m2 & EL).
    destruct (take_tail _ _ _ _ q _ _ _ n HI EL Hq) as (H1 & H2 & H3); [lia|]. exists (p + (y - n)). split_and!; try done. lia.
Qed.

(** One round of the loop. *)
Lemma malloc_round s0 L0 Al n k prevp p s : 1 ≤ n → n * sizeof_Header < 2 ^ 31 → FInv s0 L0 Al → searching s0 L0 Al n k (prevp, p) s →
  wp (s ← get_size base heap p;
      if n <=? s then
        r ← (if s =? n then
               nx ← get_ptr base heap p;
               put_ptr base heap prevp nx;;
               mret p
             else
               put_size base heap p (s - n);;
               let p := p + (s - n) in
               put_size base heap p n;;
               mret p);
        modify (set_freep prevp);;
        mret (inr (r + 1))
      else
        fp ← gets freep;
        p ← (if p =? fp then morecore base heap limit n else mret p);
        if p =? 0 then mret (inr 0)
        else
          nx ← get_ptr base heap p;
          mret (inl (p, nx)))
    (λ r s', match r with
             | inl st => ∃ k', (k' < k)%nat ∧ searching s0 L0 Al n k' st s'
             | inr r => malloced s0 L0 Al n r s'
             end) s.
Proof using Hbase Hlimit.
  intros Hn Hmax HI0 (L & C & c1 & y & c2 & HI & HC & EC & Hq & Hqp & Hph). simpl in EC, Hq, Hqp, Hph.
  assert ((p, y) ∈ L) as Hp by (rewrite <-(ci_perm _ _ _ HC), EC; clear; set_solver).
  assert (kept Al s0 s ∧ brk s0 ≤ brk s) as [Hk Hb] by (destruct Hph as [(-> & _)|(? & ? & _)]; [by split|done]).
  apply wp_bind, wp_get_size; [by apply (usable_free _ _ _ _ HI Hp)|].
  rewrite (linked_size _ _ _ _ _ (fi_linked _ _ _ HI) Hp). destruct (Z.leb_spec n y).
  - eapply wp_mono; [by apply (malloc_found s L Al)|]. simpl. intros r s' (a & -> & Ha & Hn' & Hk' & Hb' & HL').
    right. replace (a + 1 - 1) with a by lia. split_and!; [lia|done|by eapply kept_trans|lia|done].
  - apply wp_bind, wp_gets, wp_bind. destruct (Z.eqb_spec p (freep s)) as [Ef|Ef].
    + rewrite Ef in *. clear p Ef. pose proof (circle_end _ _ _ _ _ _ _ HI HC EC) as ->.
      destruct Hph as [(-> & -> & Hsm & ->)|(_ & _ & (x & [->|?%elem_of_nil]%elem_of_cons & ?) & _)]; [|simpl in *; lia|done].
      eapply wp_mono; [by apply (morecore_spec s0 L0 Al)|]. simpl. intros r s' [(-> & -> & Hlim)|(-> & Hr & Hk' & Hb' & L' & HI' & x & Hx & Hle)].
      { simpl. apply wp_ret. left. split_and!; [done|done| |done]. intros x. rewrite <-(ci_perm _ _ _ HC), EC.
        intros [?|[->|?%elem_of_nil]%elem_of_cons]%elem_of_app; [auto|simpl; lia|done]. }
      rewrite (proj2 (Z.eqb_neq _ 0)) by done. pose proof (fi_freep _ _ _ HI') as Hf'.
      apply wp_bind, wp_get_ptr; [apply list_elem_of_fmap in Hf' as (z & -> & Hz); by apply (usable_free _ _ _ z HI')|]. apply wp_ret.
      destruct (has_circle _ _ _ HI') as (C' & HC' & HCne & Hhd). rewrite <-Hhd. destruct C' as [|[a z] C']; [done|]. simpl.
      pose proof (Permutation_length (ci_perm _ _ _ HC')) as Hlen. pose proof (FInv_length _ _ _ HI'). simpl in Hlen.
      exists (length C'). split; [lia|]. exists L', ((a, z) :: C'), [], z, C'. split_and!; try done.
      right. split_and!; [done|done| |done]. exists x. split; [|done]. simpl. by rewrite (ci_perm _ _ _ HC').
    + apply wp_ret. rewrite (proj2 (Z.eqb_neq p 0)).
      2: { destruct (FInv_addr _ _ _ p HI); [apply list_elem_of_fmap; by exists (p, y)|lia..]. }
      apply wp_bind, wp_get_ptr; [by apply (usable_free _ _ _ _ HI Hp)|]. apply wp_ret.
      rewrite (linked_next _ _ _ _ _ _ _ (ci_linked _ _ _ HC) EC).
      destruct c2 as [|[a z] c2].
      { destruct (ci_last _ _ _ HC) as (c & z & EC'). rewrite EC in EC'. apply app_inj_tail in EC' as [_ [= ? ?]]. done. }
      simpl. assert (hptr s p = a) as Hpa by by rewrite (linked_next _ _ _ _ _ _ _ (ci_linked _ _ _ HC) EC).
      destruct Hph as [(-> & -> & Hsm & ->)|(_ & _ & (x & Hx & Hle) & ->)]; eexists; (split; [|
        exists L, C, (c1 ++ [(p, y)]), z, c2 || exists L0, C, (c1 ++ [(p, y)]), z, c2; split_and!; try done; [by rewrite <-app_assoc|apply list_elem_of_fmap; by exists (p, y)|]]).
      2: { left. split_and!; [done|done| |done]. intros x [?|[->|?%elem_of_nil]%elem_of_cons]%elem_of_app; [auto|simpl; lia|done]. }
      3: { right. split_and!; [done|done| |done]. exists x. apply elem_of_cons in Hx as [->|?]; [simpl in *; lia|done]. }
      all: simpl; lia.
Qed.

(** The state between two calls. *)
Definition Inv s Al : Prop := (freep s = 0 ∧ Al = ∅ ∧ heap ≤ brk s ≤ limit) ∨ ∃ L, FInv s L Al.

Lemma FInv_init s : freep s = 0 → heap ≤ brk s ≤ limit → FInv (set_hsize base 0 (set_freep base (set_hptr base base s))) [(base, 0)] ∅.
Proof using Hbase.
  intros Hf Hb. split; try (by intros; simplify_map_eq).
  - simpl. by rewrite !fn_lookup_insert.
  - repeat constructor.
  - by exists [].
  - intros x ->%list_elem_of_singleton. by left.
  - simpl. by left.
Qed.

Lemma malloc_search s L Al n : FInv s L Al → 0 ≤ n ≤ 2 ^ 31 - 32 →
  let p := hptr s (freep s) in
  searching s L Al (nunits_of n) (length L - 1 + Z.to_nat limit + 3) (freep s, p) s ∧ usable s (freep s).
Proof using Hbase Hlimit.
  intros HI Hn p. destruct (has_circle _ _ _ HI) as (C & HC & Hne & Hhd). destruct C as [|[a z] C]; [done|]. pose proof (fi_freep _ _ _ HI) as Hf. split.
  - exists L, ((a, z) :: C), [], z, C. simpl in Hhd. subst p. simpl. rewrite <-Hhd. split_and!; try done. left. split_and!; [done..| |].
    + by intros x ?%elem_of_nil.
    + rewrite <-(Permutation_length (ci_perm _ _ _ HC)). simpl. lia.
  - apply list_elem_of_fmap in Hf as (x & -> & Hx). by apply (usable_free _ _ _ x HI).
Qed.

Lemma nunits_bounds n : 0 ≤ n ≤ 2 ^ 31 - 32 → 1 ≤ nunits_of n ∧ nunits_of n * sizeof_Header < 2 ^ 31 ∧ n ≤ (nunits_of n - 1) * sizeof_Header.
Proof using Type.
  clear. intros Hn. unfold nunits_of, u32, sizeof_Header. replace (n + 16 - 1) with (n + 15) by lia.
  pose proof (Z.div_mod (n + 15) 16 ltac:(lia)). pose proof (Z.mod_pos_bound (n + 15) 16 ltac:(lia)). rewrite wrap_small by lia. lia.
Qed.

Lemma malloc_spec s Al n : Inv s Al → 0 ≤ n ≤ 2 ^ 31 - 32 →
  wp (malloc base heap limit n) (λ r s', kept Al s s' ∧ brk s ≤ brk s' ∧
    ((r = 0 ∧ Inv s' Al ∧ limit < brk s + core_units (nunits_of n)) ∨
     (1 < r ∧ Al !! (r - 1) = None ∧ Inv s' (<[r - 1 := nunits_of n]> Al)))) s.
Proof using Hbase Hlimit.
  intros HI Hn. destruct (nunits_bounds n Hn) as (U1 & U2 & _). unfold malloc. apply wp_bind, wp_gets, wp_bind.
  assert (∃ s1 L, FInv s1 L Al ∧ kept Al s s1 ∧ brk s1 = brk s ∧
    ∀ Q : unit → ms → Prop, Q tt s1 → wp (when (freep s =? 0) (put_ptr base heap base base;; modify (set_freep base);; put_size base heap base 0)) Q s)
    as (s1 & L & HI1 & Hk1 & Hb1 & Hinit).
  { destruct HI as [(Hf & -> & Hb)|[L HI]].
    - eexists _, _. split; [by apply FInv_init|]. split; [by intros ?? ?; rewrite lookup_empty|]. split; [done|]. intros Q HQ.
      rewrite Hf. apply wp_bind, wp_put_ptr; [by left|]. apply wp_bind, wp_modify. by apply wp_put_size; [left|lia|].
    - exists s, L. split_and!; try done. intros Q HQ. rewrite (proj2 (Z.eqb_neq _ 0)); [by apply wp_ret|].
      destruct (FInv_addr _ _ _ _ HI (fi_freep _ _ _ HI)); lia. }
  apply Hinit. apply wp_bind, wp_gets. destruct (malloc_search _ _ _ n HI1 Hn) as [Hs Hu].
  apply wp_bind, wp_get_ptr; [done|].
  apply (wp_while_loop (searching s1 L Al (nunits_of n)) _ _ _ (length L - 1 + Z.to_nat limit + 3)); [done| |].
  { destruct (rounds_fit _ _ _ HI1). lia. }
  intros k [q p] s' Hs'. eapply wp_mono; [by apply malloc_round|]. simpl. intros [st|r] s''; [done|].
  intros [(-> & -> & _ & Hlim)|(Hr & Hn' & Hk & Hb & HL')].
  - split_and!; [done|lia|]. left. rewrite <-Hb1. split_and!; [done|right; eauto|done].
  - split_and!; [by eapply kept_trans|lia|]. right. split_and!; [done|done|by right].
Qed.

Lemma Inv_live s Al a z : Inv s Al → Al !! a = Some z → ∃ L, FInv s L Al.
Proof using Type. clear. intros [(_ & -> & _)|?]; [by rewrite lookup_empty|done]. Qed.
(** A program may write to the blocks it has, but for their headers. *)
Lemma Inv_write s Al a z i x y : Inv s Al → Al !! a = Some z → a < i < a + z → Inv (set_hsize i y (set_hptr i x s)) Al.
Proof using Hbase Hlimit.
  intros HI Ha Hi. destruct (Inv_live _ _ _ _ HI Ha) as [L HF]. right. exists L. pose proof HF as []. split; try done.
  - eapply linked_frame; [|done]. intros b w Hin. pose proof (live_not_free _ _ _ _ _ i _ HF Ha ltac:(lia) Hin). simpl in *. by heads.
  - intros b w Hb. destruct (fi_live0 b w Hb) as [Hok Hsz]. split; [done|]. simpl. rewrite fn_lookup_insert_ne; [done|].
    intros ->. destruct (decide (b = a)) as [->|Hne]; [lia|]. destruct Hok as (_ & ? & _). simpl in *.
    destruct (fi_disj0 b w a z Hb Ha Hne); simpl in *; lia.
Qed.

(** ** Programs that use the allocator *)
(** A run of calls and writes; the map holds the blocks that were returned by
    [malloc] and not freed, with their sizes in headers. *)
Inductive session : ms → gmap Z Z → Prop :=
  | session_start s : freep s = 0 → heap ≤ brk s ≤ limit → session s ∅
  | session_malloc s Al n r s' : session s Al → 0 ≤ n ≤ 2 ^ 31 - 32 → malloc base heap limit n s = Ok (r, s') →
      session s' (if r =? 0 then Al else <[r - 1 := nunits_of n]> Al)
  | session_free s Al a s' : session s Al → is_Some (Al !! a) → free base heap limit a s = Ok (tt, s') →
      session s' (delete a Al)
  | session_write s Al a z i x y : session s Al → Al !! a = Some z → a < i < a + z →
      session (set_hsize i y (set_hptr i x s)) Al.
Lemma session_Inv s Al : session s Al → Inv s Al.
Proof using Hbase Hlimit.
  induction 1 as [s Hf Hb|s Al n r s' _ IH Hn E|s Al a s' _ IH [z Ha] E|s Al a z i x y _ IH Ha Hi].
  - by left.
  - destruct (wp_elim _ _ _ _ _ (malloc_spec _ _ _ IH Hn) E) as (_ & _ & [(-> & ? & _)|(? & _ & ?)]); [done|].
    by rewrite (proj2 (Z.eqb_neq r 0)) by lia.
  - destruct (Inv_live _ _ _ _ IH Ha) as [L HF].
    destruct (wp_elim _ _ _ _ _ (free_spec _ _ _ _ _ HF Ha) E) as (_ & _ & L' & ? & _). right; eauto.
  - by eapply Inv_write.
Qed.

(** C11. In every run of a program that calls [malloc] with sizes below two
    gigabytes, frees only blocks it got, and writes only inside of its blocks:
    the blocks lie in the heap and do not overlap; every call returns; [malloc]
    returns a new block large enough for the bytes, or 0 when the heap cannot
    grow by what it asks for; and neither call changes the contents of the
    blocks in use. *)
Theorem malloc_sessions s Al : session s Al →
  (∀ a z, Al !! a = Some z → heap ≤ a ∧ a + z ≤ brk s) ∧
  (∀ a z a' z', Al !! a = Some z → Al !! a' = Some z' → a ≠ a' → a + z ≤ a' ∨ a' + z' ≤ a) ∧
  (∀ n, 0 ≤ n ≤ 2 ^ 31 - 32 → ∃ r s', malloc base heap limit n s = Ok (r, s') ∧ kept Al s s' ∧
    (r = 0 ∧ limit < brk s + Z.max 4096 (nunits_of n) ∨
     1 < r ∧ Al !! (r - 1) = None ∧ n ≤ (nunits_of n - 1) * sizeof_Header)) ∧
  (∀ a, is_Some (Al !! a) → ∃ s', free base heap limit a s = Ok (tt, s') ∧ kept (delete a Al) s s').
Proof using Hbase Hlimit.
  intros HI%session_Inv. split_and!.
  - intros a z Ha. destruct (Inv_live _ _ _ _ HI Ha) as [L []]. destruct (fi_live0 a z Ha) as [(? & _ & ?) _]. done.
  - intros a z a' z' Ha Ha' Hne. destruct (Inv_live _ _ _ _ HI Ha) as [L []]. apply (fi_disj0 a z a' z' Ha Ha' Hne).
  - intros n Hn. pose proof (malloc_spec _ _ _ HI Hn) as (r & s' & E & Hk & _ & Hr)%wp_ok. exists r, s'. split_and!; [done|done|].
    destruct (nunits_bounds n Hn) as (_ & _ & Hsz). unfold core_units in Hr. destruct (Z.ltb_spec (nunits_of n) 4096); naive_solver lia.
  - intros a [z Ha]. destruct (Inv_live _ _ _ _ HI Ha) as [L HF].
    pose proof (free_spec _ _ _ _ _ HF Ha) as ([] & s' & E & _ & Hk & _)%wp_ok. eauto.
Qed.
End spec.

(** A program allocates 40 bytes, writes to them, and frees them. *)
Lemma malloc_sessions_witness : ∃ a s s',
  session 1 2 10000 s {[ a := 4 ]} ∧ hptr s (a + 1) = 7 ∧ 2 ≤ a ∧ a + 4 ≤ brk s ∧ free 1 2 10000 a s = Ok (tt, s').
Proof.
  set (s0 := Ms (λ _, 0) (λ _, 0) 0 2).
  assert (session 1 2 10000 s0 ∅) as H0 by (apply session_start; [done|by simpl]).
  destruct (malloc_sessions 1 2 10000 ltac:(lia) ltac:(lia) s0 ∅ H0) as (_ & _ & Hm & _).
  destruct (Hm 40 ltac:(lia)) as (r & s1 & E & _ & [[_ Hl]|(Hr & _ & _)]); [vm_compute in Hl; done|].
  assert (session 1 2 10000 s1 {[ r - 1 := 4 ]}) as H1.
  { pose proof (session_malloc _ _ _ _ _ 40 _ _ H0 ltac:(lia) E) as H1. rewrite (proj2 (Z.eqb_neq r 0)) in H1 by lia. exact H1. }
  pose proof (session_write _ _ _ _ _ (r - 1) 4 r 7 7 H1 (lookup_singleton_eq _ _) ltac:(lia)) as H2.
  destruct (malloc_sessions 1 2 10000 ltac:(lia) ltac:(lia) _ _ H2) as (Hin & _ & _ & Hf).
  destruct (Hf (r - 1)) as (s' & Ef & _); [by rewrite lookup_singleton_eq|].
  destruct (Hin (r - 1) 4) as [? ?]; [by rewrite lookup_singleton_eq|].
  eexists (r - 1), _, s'. split; [exact H2|]. split; [|by split_and!]. simpl. replace (r - 1 + 1) with r by lia. by rewrite fn_lookup_insert.
Defined.

(** [sbrk] takes an [int]: for the largest size, [morecore] asks for 2^32 + 16 bytes,
    gets 16, and [malloc] returns a block of 2^28 + 1 headers in a heap of one. *)
Theorem malloc_truncated_request : ∃ s',
  malloc 1 2 10000 (2 ^ 32 - 1) (Ms (λ _, 0) (λ _, 0) 0 2) = Ok (3, s') ∧ brk s' = 3 ∧ hsize s' 2 = 2 ^ 28 + 1.
Proof.
  set (s0 := Ms (λ _, 0) (λ _, 0) 0 2). exists (after (malloc 1 2 10000 (2 ^ 32 - 1) s0) s0).
  split; [by apply after_ok; vm_compute|by vm_compute].
Qed.
