(* ===== verification/Uprog.v ===== *)
(** * User programs as trees of system calls

    A user program between its system calls computes: it is the tree of the
    calls it makes, in which the program goes on with the value a call returns.
    [Fork] goes on in both processes, [Exec] only when it fails. *)

From S2P Require Import Prelude.

Inductive prog : Type :=
  | Exit (status : Z)
  | Exec (argv : list (list Z)) (k : prog)
  | Open (file : list Z) (mode : Z) (k : Z → prog)
  | Close (fd : Z) (k : prog)
  | Dup (fd : Z) (k : prog)
  | Pipe (k : Z → Z → Z → prog)
  | Fork (k : Z → prog)
  | Wait (k : prog)
  | Print (fmt : string) (arg : list Z) (k : prog)
  | Out (fmt : string) (args : list Z) (k : prog)
  | Read (fd n : Z) (k : Z → list Z → prog)
  | Write (fd : Z) (bytes : list Z) (k : Z → prog)
  | Getpid (k : Z → prog)
  | SleepFor (n : Z) (k : prog).
