(* ===== verification/Sh.v ===== *)
(** * The shell ([user/sh.c])

    The parser of command lines, on positions of the line buffer as the C code
    has pointers into it, [nulterminate], which ends the words in place, and
    [runcmd] as the tree of system calls it makes. *)

From S2P Require Import Ulib Prelude Sysfile Uprog.

(** ** Commands

    [W] is the type of words: a pair of positions, [argv[i]] and [eargv[i]] or
    [file] and [efile], as the parser builds them, or a string.  The list of an
    [EXEC] ends where the array has its first null pointer. *)
Inductive cmd (W : Type) : Type :=
  | EXEC (argv : list W)
  | REDIR (c : cmd W) (file : W) (mode fd : Z)
  | PIPE (left right : cmd W)
  | LIST (left right : cmd W)
  | BACK (c : cmd W).
Arguments EXEC {W} argv.
Arguments REDIR {W} c file mode fd.
Arguments PIPE {W} left right.
Arguments LIST {W} left right.
Arguments BACK {W} c.

Definition MAXARGS : Z := 10.
Abbreviation span := (nat * nat)%type.

(** Constructors of the C code: a zeroed structure with its fields set. *)
Definition execcmd : cmd span := EXEC [].
Definition redircmd (subcmd : cmd span) (file : span) (mode fd : Z) : cmd span := REDIR subcmd file mode fd.
Definition pipecmd (left right : cmd span) : cmd span := PIPE left right.
Definition listcmd (left right : cmd span) : cmd span := LIST left right.
Definition backcmd (subcmd : cmd span) : cmd span := BACK subcmd.

(** [parseexec] keeps a pointer to the [execcmd] below the redirections that
    have been put around it and stores the arguments there. *)
Fixpoint set_argv {W} (argv : list W) (c : cmd W) : cmd W :=
  match c with
  | EXEC _ => EXEC argv
  | REDIR c f m d => REDIR (set_argv argv c) f m d
  | c => c
  end.

(** ** Characters *)
Definition whitespace : list Z := [32; 9; 13; 10; 11].
Definition BAR : Z := 124.
Definition LPAR : Z := 40.
Definition RPAR : Z := 41.
Definition SEMI : Z := 59.
Definition AMP : Z := 38.
Definition LT : Z := 60.
Definition GT : Z := 62.
Definition PLUS : Z := 43.
Definition WORD : Z := 97.
Definition symbols : list Z := [LT; BAR; GT; AMP; SEMI; LPAR; RPAR].
(** [strchr] on a literal: the terminator of the literal is not found. *)
Definition strchr (l : list Z) (c : Z) : bool := existsb (Z.eqb c) l.
Definition is_white (c : Z) : bool := strchr whitespace c.
Definition is_word (c : Z) : bool := negb (strchr whitespace c) && negb (strchr symbols c).

(** ** Tokens

    The line is [buf], of which [es] is the end; the state is the position
    [*ps].  Positions read are at most [es], where the terminator is. *)
Section parser.
Context (buf : list Z) (es : nat).

Definition char (s : nat) : Z := default 0 (buf !! s).
(** [while(s < es && p of the character) s++] *)
Fixpoint skip_n (p : Z → bool) (n s : nat) : nat :=
  match n with
  | O => s
  | S n => if p (char s) then skip_n p n (S s) else s
  end.
Definition skip (p : Z → bool) (s : nat) : nat := skip_n p (es - s) s.

(** The token and its span. *)
Definition gettoken : K nat (Z * span) :=
  s ← gets id;
  let q := skip is_white s in
  let c := char q in
  let '(ret, eq) :=
    if c =? 0 then (c, q)
    else if strchr [BAR; LPAR; RPAR; SEMI; AMP; LT] c then (c, S q)
    else if c =? GT then if char (S q) =? GT then (PLUS, S (S q)) else (c, S q)
    else (WORD, skip is_word q) in
  modify (λ _, skip is_white eq);;
  mret (ret, (q, eq)).

Definition peek (toks : list Z) : K nat bool :=
  s ← gets id;
  let s := skip is_white s in
  modify (λ _, s);;
  mret (negb (char s =? 0) && strchr toks (char s)).

(** ** The parser

    Loops consume a token per round, so that [S es] rounds are enough; [n]
    bounds the depth of the recursion. *)
Definition redir_of (tok : Z) (c : cmd span) (w : span) : cmd span :=
  if tok =? LT then redircmd c w O_RDONLY 0
  else if tok =? GT then redircmd c w (Z.lor (Z.lor O_WRONLY O_CREATE) O_TRUNC) 1
  else if tok =? PLUS then redircmd c w (Z.lor O_WRONLY O_CREATE) 1
  else c.

Definition parseredirs (c : cmd span) : K nat (cmd span) :=
  while_loop (S es) c (λ c : cmd span,
    b ← peek [LT; GT];
    if b : bool then
      '(tok, _) ← gettoken;
      '(t, w) ← gettoken;
      if negb (t =? WORD) then panic "missing file for redirection"
      else mret (inl (redir_of tok c w))
    else mret (inr c)).

(** The loop of [parseexec] over the arguments. *)
Definition parseargs (ret : cmd span) : K nat (cmd span) :=
  '(ret, args) ← while_loop (S es) (ret, [] : list span) (λ '(ret, args),
    b ← peek [BAR; RPAR; AMP; SEMI];
    if b : bool then mret (inr (ret, args))
    else
      '(tok, w) ← gettoken;
      if tok =? 0 then mret (inr (ret, args))
      else if negb (tok =? WORD) then panic "syntax"
      else
        let args := args ++ [w] in
        if MAXARGS <=? Z.of_nat (length args) then panic "too many args"
        else
          ret ← parseredirs ret;
          mret (inl (ret, args)));
  mret (set_argv args ret).

Fixpoint parseline (n : nat) : K nat (cmd span) :=
  match n with
  | O => nofuel
  | S n =>
      c ← parsepipe n;
      c ← while_loop (S es) c (λ c : cmd span,
        b ← peek [AMP];
        if b : bool then gettoken;; mret (inl (backcmd c)) else mret (inr c));
      b ← peek [SEMI];
      if b : bool then
        gettoken;;
        c' ← parseline n;
        mret (listcmd c c')
      else mret c
  end
with parsepipe (n : nat) : K nat (cmd span) :=
  match n with
  | O => nofuel
  | S n =>
      c ← parseexec n;
      b ← peek [BAR];
      if b : bool then
        gettoken;;
        c' ← parsepipe n;
        mret (pipecmd c c')
      else mret c
  end
with parseblock (n : nat) : K nat (cmd span) :=
  match n with
  | O => nofuel
  | S n =>
      b ← peek [LPAR];
      panic_if (negb b) "parseblock";;
      gettoken;;
      c ← parseline n;
      b ← peek [RPAR];
      panic_if (negb b) "syntax - missing )";;
      gettoken;;
      parseredirs c
  end
with parseexec (n : nat) : K nat (cmd span) :=
  match n with
  | O => nofuel
  | S n =>
      b ← peek [LPAR];
      if b : bool then parseblock n
      else
        ret ← parseredirs execcmd;
        parseargs ret
  end.
End parser.

(** ** [nulterminate] and [parsecmd]

    The state is the line buffer. *)
Definition put_nul (i : nat) : K (list Z) unit :=
  buf ← gets id;
  if decide (i < length buf)%nat then modify <[i := 0]> else undefined "nulterminate".

Fixpoint nul_words (l : list span) : K (list Z) unit :=
  match l with
  | [] => mret tt
  | (_, e) :: l => put_nul e;; nul_words l
  end.

Fixpoint nulterminate (c : cmd span) : K (list Z) unit :=
  match c with
  | EXEC argv => nul_words argv
  | REDIR c (_, efile) _ _ => nulterminate c;; put_nul efile
  | PIPE l r => nulterminate l;; nulterminate r
  | LIST l r => nulterminate l;; nulterminate r
  | BACK c => nulterminate c
  end.

(** [strlen] *)
Fixpoint strlen (buf : list Z) : option nat :=
  match buf with
  | [] => None
  | c :: buf => if c =? 0 then Some 0%nat else S <$> strlen buf
  end.

(** Depth of the recursion: four calls for a parenthesis. *)
Definition depth (es : nat) : nat := 4 * S es.

Definition parseall (buf : list Z) (es : nat) : K nat (cmd span) :=
  c ← parseline buf es (depth es);
  peek buf es [];;
  mret c.

Definition parsecmd : K (list Z) (cmd span) :=
  buf ← gets id;
  match strlen buf with
  | None => undefined "strlen"
  | Some es =>
      (* the parser reads the buffer only: its state is the position *)
      '(c, s) ← (λ b, match parseall buf es 0%nat with
                      | Ok (c, s) => Ok ((c, s), b)
                      | Panic e => Panic e
                      | Sleep e => Sleep e
                      | UB w => UB w
                      | NoFuel => NoFuel
                      end);
      panic_if (negb (Nat.eqb s es)) "syntax";;
      nulterminate c;;
      mret c
  end.

(** The string a pointer into the buffer is. *)
Definition cstr (buf : list Z) (w : span) : list Z := 
  match strlen (drop w.1 buf) with
  | Some n => take n (drop w.1 buf)
  | None => drop w.1 buf
  end.
Fixpoint cmd_map {W V} (f : W → V) (c : cmd W) : cmd V :=
  match c with
  | EXEC argv => EXEC (f <$> argv)
  | REDIR c w m d => REDIR (cmd_map f c) (f w) m d
  | PIPE l r => PIPE (cmd_map f l) (cmd_map f r)
  | LIST l r => LIST (cmd_map f l) (cmd_map f r)
  | BACK c => BACK (cmd_map f c)
  end.

(** ** [runcmd] *)
Definition sh_panic (s : string) : prog := Print s [] (Exit 1).
(** [if(fork1() == 0) child]; the child does not return. *)
Definition fork1 (child parent : prog) : prog :=
  Fork (λ pid, if pid =? -1 then sh_panic "fork" else if pid =? 0 then child else parent).

Fixpoint runcmd (c : cmd (list Z)) : prog :=
  match c with
  | EXEC [] => Exit 1
  | EXEC ((a0 :: _) as argv) => Exec argv (Print "exec %s failed" a0 (Exit 0))
  | REDIR c file mode fd =>
      Close fd
        (Open file mode (λ r, if r <? 0 then Print "open %s failed" file (Exit 1) else runcmd c))
  | LIST l r => fork1 (runcmd l) (Wait (runcmd r))
  | PIPE l r =>
      Pipe (λ res p0 p1,
        if res <? 0 then sh_panic "pipe"
        else
          fork1 (Close 1 (Dup p1 (Close p0 (Close p1 (runcmd l)))))
            (fork1 (Close 0 (Dup p0 (Close p0 (Close p1 (runcmd r)))))
               (Close p0 (Close p1 (Wait (Wait (Exit 0)))))))
  | BACK c => fork1 (runcmd c) (Exit 0)
  end.

(** ** [getcmd] and [main]

    [gets] takes a line of the input ([Ulib.gets_line]); the buffer is zeroed
    before. *)
Definition nbuf : nat := 100.
Definition getcmd (inp : list Z) : option (list Z * list Z) :=
  let l := line (nbuf - 1) inp in
  let buf := l ++ replicate (nbuf - length l) 0 in
  if char buf 0 =? 0 then None else Some (buf, drop (length l) inp).

(** What the shell does for a line: [chdir], or a child that parses and runs
    the line, or exits with a message. *)
Inductive action :=
  | Chdir (path : list Z)
  | Run (p : prog).

Definition do_line (buf : list Z) : option action :=
  if (char buf 0 =? 99) && (char buf 1 =? 100) && (char buf 2 =? 32) then
    n ← strlen buf;
    Some (Chdir (cstr (<[(n - 1)%nat := 0]> buf) (3, 3)%nat))
  else
    match parsecmd buf with
    | Ok (c, b) => Some (Run (runcmd (cmd_map (cstr b) c)))
    | Panic s => Some (Run (sh_panic s))
    | _ => None
    end.

(** Every line takes a character of the input. *)
Fixpoint commands (fuel : nat) (inp : list Z) : option (list action) :=
  match fuel with
  | O => None
  | S fuel =>
      match getcmd inp with
      | None => Some []
      | Some (buf, rest) =>
          a ← do_line buf;
          l ← commands fuel rest;
          Some (a :: l)
      end
  end.
Definition main (inp : list Z) : option (list action) := commands (S (length inp)) inp.
