(* ===== verification/ShLex.v ===== *)
(** * Tokens of the shell ([gettoken] and [peek] of [user/sh.c])

    What it means that a text spells a list of tokens, and that [gettoken] and
    [peek] deliver the tokens one after the other. *)

From S2P Require Import Prelude Sh.

Inductive token := Word (w : list Z) | Sym (c : Z) | Append.

Definition spell (t : token) : list Z :=
  match t with Word w => w | Sym c => [c] | Append => [GT; GT] end.
Definition token_ok (t : token) : Prop :=
  match t with Word w => w ≠ [] ∧ Forall (λ c, is_word c = true) w | Sym c => c ∈ symbols | Append => True end.
(** What may follow a token without white space between them. *)
Definition separated (t : token) (r : list Z) : Prop :=
  match t, r with
  | Word _, c :: _ => is_word c = false
  | Sym c, c' :: _ => c = GT → c' ≠ GT
  | _, _ => True
  end.
Definition white (l : list Z) : Prop := Forall (λ c, is_white c = true) l.

Inductive spells : list token → list Z → Prop :=
  | spells_end ws : white ws → spells [] ws
  | spells_token ws t r toks :
      white ws → token_ok t → separated t r → spells toks r → spells (t :: toks) (ws ++ spell t ++ r).

(** The value [gettoken] returns for a token, and whether [peek] sees it. *)
Definition code (t : token) : Z :=
  match t with Word _ => WORD | Sym c => c | Append => PLUS end.
Definition starts (l : list Z) (t : token) : bool :=
  match t with Word _ => false | Sym c => strchr l c | Append => strchr l GT end.
Definition next (l : list Z) (toks : list token) : bool :=
  match toks with [] => false | t :: _ => starts l t end.

(** ** Characters *)
Lemma strchr_spec l c : strchr l c = true ↔ c ∈ l.
Proof.
  unfold strchr. rewrite existsb_exists. setoid_rewrite list_elem_of_In. split; [intros (y & ? & ->%Z.eqb_eq); done|].
  intros ?. exists c. by rewrite Z.eqb_refl.
Qed.
Lemma symbol_kind c : c ∈ symbols → c ≠ 0 ∧ is_white c = false ∧ is_word c = false.
Proof.
  unfold symbols. intros Hc. repeat (apply elem_of_cons in Hc as [->|Hc]; [done|]). by apply elem_of_nil in Hc.
Qed.
Lemma char_kind c : is_white c = true ∨ c ∈ symbols ∨ is_word c = true.
Proof.
  unfold is_word, is_white. rewrite <-(strchr_spec symbols). destruct (strchr whitespace c), (strchr symbols c); tauto.
Qed.
Lemma word_char c : is_word c = true → is_white c = false ∧ c ∉ symbols.
Proof.
  unfold is_word, is_white. rewrite <-(strchr_spec symbols). destruct (strchr whitespace c), (strchr symbols c); naive_solver.
Qed.

Lemma simple_symbol c : c ∈ symbols → c ≠ GT → strchr [BAR; LPAR; RPAR; SEMI; AMP; LT] c = true.
Proof. intros Hc Hn. apply strchr_spec. unfold symbols in Hc. set_solver. Qed.
Lemma plain_word c : is_word c = true → strchr [BAR; LPAR; RPAR; SEMI; AMP; LT] c = false ∧ c ≠ GT.
Proof.
  intros [_ Hc]%word_char. unfold symbols in Hc. split; [|set_solver].
  destruct (strchr _ c) eqn:E; [|done]. apply strchr_spec in E. set_solver.
Qed.

(** The longest prefix satisfying [p]. *)
Fixpoint takew (p : Z → bool) (l : list Z) : list Z :=
  match l with [] => [] | c :: l => if p c then c :: takew p l else [] end.
Fixpoint dropw (p : Z → bool) (l : list Z) : list Z :=
  match l with [] => [] | c :: l' => if p c then dropw p l' else l end.
Lemma takew_dropw p l : takew p l ++ dropw p l = l.
Proof. induction l as [|c l IH]; simpl; [done|]. destruct (p c); [simpl; by rewrite IH|done]. Qed.
Lemma takew_all p l : Forall (λ c, p c = true) (takew p l).
Proof. induction l as [|c l IH]; simpl; [done|]. destruct (p c) eqn:E; [by constructor|done]. Qed.
Lemma dropw_head p l : match dropw p l with [] => True | c :: _ => p c = false end.
Proof. induction l as [|c l IH]; simpl; [done|]. by destruct (p c) eqn:E. Qed.
Lemma takew_app p l r : Forall (λ c, p c = true) l → match r with [] => True | c :: _ => p c = false end →
  takew p (l ++ r) = l ∧ dropw p (l ++ r) = r.
Proof.
  intros Hl Hr. induction Hl as [|c l Hc _ [IH1 IH2]]; simpl.
  - destruct r as [|c r]; [done|]. simpl. by rewrite Hr.
  - rewrite Hc. by rewrite IH1, IH2.
Qed.

(** ** Every text is a sequence of tokens *)
Lemma spells_exists r : ∃ toks, spells toks r.
Proof.
  remember (length r) as n eqn:Hn. revert r Hn. induction (lt_wf n) as [n _ IH]; intros r ->.
  rewrite <-(takew_dropw is_white r). pose proof (takew_all is_white r) as Hw. pose proof (dropw_head is_white r) as Hh.
  assert (length (dropw is_white r) ≤ length r)%nat as Hl.
  { rewrite <-(takew_dropw is_white r) at 2. rewrite length_app. lia. }
  destruct (dropw is_white r) as [|c r'] eqn:Er.
  { exists []. rewrite app_nil_r. by constructor. }
  simpl in Hl. destruct (char_kind c) as [|[Hc|Hc]]; [congruence| |].
  - assert (∀ r1, separated (Sym c) r1 → (length r1 < length r)%nat → ∃ toks, spells toks (takew is_white r ++ c :: r1)) as Hsym.
    { intros r1 Hsep Hlen. destruct (IH (length r1) Hlen r1 eq_refl) as [toks Ht].
      exists (Sym c :: toks). by apply (spells_token _ (Sym c)). }
    destruct r' as [|c' r'']; [apply Hsym; [done|simpl; lia]|]. simpl in Hl.
    destruct (decide (c = GT ∧ c' = GT)) as [[-> ->]|Hne]; [|apply Hsym; [simpl; tauto|simpl; lia]].
    destruct (IH (length r'') ltac:(lia) r'' eq_refl) as [toks Ht].
    exists (Append :: toks). by apply (spells_token _ Append).
  - rewrite <-(takew_dropw is_word (c :: r')).
    destruct (IH (length (dropw is_word (c :: r')))) with (r := dropw is_word (c :: r')) as [toks Ht]; [|done|].
    + pose proof (takew_dropw is_word (c :: r')) as E. simpl in E |- *. rewrite Hc in E |- *.
      apply (f_equal length) in E. simpl in E. rewrite length_app in E. lia.
    + exists (Word (takew is_word (c :: r')) :: toks). apply (spells_token _ (Word _)); [done| | |done].
      * split; [simpl; by rewrite Hc|apply takew_all].
      * pose proof (dropw_head is_word (c :: r')). by destruct (dropw is_word (c :: r')).
Qed.

Lemma spells_length toks r : spells toks r → (length toks ≤ length r)%nat.
Proof.
  induction 1 as [|ws t r toks Hw Ht Hs _ IH]; simpl; [lia|]. rewrite !length_app.
  assert (0 < length (spell t))%nat; [|lia]. destruct t; simpl; try lia.
  destruct Ht as [Hn _]. destruct w; simpl; [done|lia].
Qed.

(** Only the white space before the first token can be skipped. *)
Lemma spells_skip toks r : spells toks r → spells toks (dropw is_white r) ∧
  match toks with
  | [] => dropw is_white r = []
  | t :: toks' => ∃ r', dropw is_white r = spell t ++ r' ∧ token_ok t ∧ separated t r' ∧ spells toks' r'
  end.
Proof.
  destruct 1 as [ws Hw|ws t r toks Hw Ht Hs Hr].
  - destruct (takew_app is_white ws []) as [_ E]; [done..|]. rewrite app_nil_r in E. rewrite E.
    split; [by repeat constructor|done].
  - destruct (takew_app is_white ws (spell t ++ r)) as [_ E]; [done| |].
    { destruct t as [w|c|]; simpl in *.
      - destruct Ht as [Hn Hf]. destruct w; [done|]. inv Hf. by apply word_char.
      - by apply symbol_kind.
      - done. }
    rewrite E. split; [|by exists r]. by apply (spells_token []); [constructor|..].
Qed.

(** ** [gettoken] and [peek]

    The line is [text], followed by its terminator. *)
Section lexer.
Context (text junk : list Z) (Hz : Forall (λ c, c ≠ 0) text).
Abbreviation buf := (text ++ 0 :: junk).
Abbreviation es := (length text).

Lemma char_drop s : (s ≤ es)%nat → char buf s = match drop s text with [] => 0 | c :: _ => c end.
Proof using Type.
  intros Hs. unfold char. destruct (drop s text) as [|c r] eqn:E.
  - assert (s = es) as -> by (apply (f_equal length) in E; rewrite length_drop in E; simpl in E; lia).
    by rewrite lookup_app_r, Nat.sub_diag by lia.
  - assert (text !! s = Some c) as Hc.
    { rewrite <-(Nat.add_0_r s), <-lookup_drop, E. done. }
    by rewrite lookup_app_l, Hc by (by eapply lookup_lt_Some).
Qed.

Lemma skip_spec p s : (s ≤ es)%nat →
  skip buf es p s = (s + length (takew p (drop s text)))%nat ∧
  (skip buf es p s ≤ es)%nat ∧ drop (skip buf es p s) text = dropw p (drop s text).
Proof using Type.
  intros Hs.
  assert (skip buf es p s = (s + length (takew p (drop s text)))%nat) as E.
  { unfold skip. remember (es - s)%nat as n eqn:Hn. revert s Hs Hn. induction n as [|n IH]; intros s Hs Hn; simpl.
    - rewrite drop_ge by lia. simpl. lia.
    - rewrite char_drop by done. destruct (drop s text) as [|c r] eqn:Er.
      { apply (f_equal length) in Er. rewrite length_drop in Er. simpl in Er. lia. }
      assert (drop (S s) text = r) as Er' by (rewrite <-Nat.add_1_r, <-drop_drop, Er; done).
      simpl. destruct (p c); [|simpl; lia]. rewrite IH, Er' by lia. simpl. lia. }
  pose proof (takew_dropw p (drop s text)) as Hd. split; [done|]. rewrite E. split.
  - apply (f_equal length) in Hd. rewrite length_app, length_drop in Hd. lia.
  - rewrite <-drop_drop. rewrite <-Hd at 2. apply drop_app_length.
Qed.

(** At position [s] the tokens [toks] are left. *)
Definition left_at (s : nat) (toks : list token) : Prop := (s ≤ es)%nat ∧ spells toks (drop s text).

(** The span of a word. *)
Record span_of (w : span) (l : list Z) : Prop := {
  sp_start : (w.1 ≤ es)%nat;
  sp_end : w.2 = (w.1 + length l)%nat;
  sp_text : ∃ r, drop w.1 text = l ++ r ∧ match r with [] => True | c :: _ => is_word c = false end;
  sp_word : Forall (λ c, is_word c = true) l;
}.

Lemma nonzero_head s c r : drop s text = c :: r → c ≠ 0.
Proof using Hz. intros E. pose proof (Forall_drop _ s _ Hz) as H. rewrite E in H. by inv H. Qed.

Lemma left_skip s toks : (s ≤ es)%nat → spells toks (drop s text) → left_at (skip buf es is_white s) toks.
Proof using Type.
  intros Hs Ht. destruct (skip_spec is_white s Hs) as (_ & Hle & E). split; [done|]. rewrite E. by apply spells_skip.
Qed.

Lemma peek_spec l s toks : left_at s toks → (∀ c, c ∈ l → c ∈ symbols) →
  wp (peek buf es l) (λ b s', b = next l toks ∧ left_at s' toks) s.
Proof using Hz.
  intros [Hs Ht] Hl. unfold peek. apply wp_bind, wp_gets, wp_bind, wp_modify, wp_ret. split; [|by apply left_skip].
  unfold id. destruct (skip_spec is_white s Hs) as (_ & Hle & E). rewrite char_drop, E by done.
  destruct (spells_skip _ _ Ht) as [_ Hsk]. destruct toks as [|t toks]; [by rewrite Hsk|].
  destruct Hsk as (r & Er & Hok & _). rewrite Er. destruct t as [w|c|]; simpl in *.
  - destruct Hok as [Hn Hf]. destruct w as [|c w]; [done|]. inv Hf. simpl. apply andb_false_intro2.
    destruct (strchr l c) eqn:Ec; [|done]. apply strchr_spec, Hl in Ec. by apply word_char in Ec.
  - destruct (symbol_kind c Hok) as [H0 _]. by rewrite (proj2 (Z.eqb_neq c 0)).
  - done.
Qed.

(** What [gettoken] returns for the next token. *)
Definition got (toks : list token) (c : Z) (w : span) (s' : nat) : Prop :=
  match toks with
  | [] => c = 0 ∧ left_at s' []
  | t :: toks' => c = code t ∧ left_at s' toks' ∧ match t with Word l => span_of w l | _ => True end
  end.

Lemma gettoken_spec s toks : left_at s toks → wp (gettoken buf es) (λ '(c, w) s', got toks c w s') s.
Proof using Hz.
  intros [Hs Ht]. unfold gettoken. apply wp_bind, wp_gets. unfold id.
  destruct (skip_spec is_white s Hs) as (_ & Hle & E). set (q := skip buf es is_white s) in *. clearbody q.
  destruct (spells_skip _ _ Ht) as [_ Hsk]. rewrite <-E in Hsk.
  assert (∀ n r, drop q text = n ++ r → (q + length n ≤ es)%nat ∧ drop (q + length n) text = r) as Hadv.
  { intros n r En. split; [|by rewrite <-drop_drop, En, drop_app_length].
    apply (f_equal length) in En. rewrite length_app, length_drop in En. lia. }
  rewrite char_drop by done. destruct toks as [|t toks].
  { rewrite Hsk, Z.eqb_refl. apply wp_bind, wp_modify, wp_ret. split; [done|]. apply left_skip; [done|].
    rewrite Hsk. by repeat constructor. }
  destruct Hsk as (r & Er & Hok & Hsep & Hr). rewrite Er. destruct (Hadv _ _ Er) as [Hl Hd].
  assert (∀ p c w, c = code t → match t with Word l => span_of w l | _ => True end → p = (q + length (spell t))%nat →
    wp ('(ret, eq) ← mret (c, p); modify (λ _, skip buf es is_white eq);; mret (ret, w))
       (λ '(c, w) s', got (t :: toks) c w s') s) as Hfin.
  { intros p c w Hc Hw ->. apply wp_bind, wp_ret, wp_bind, wp_modify, wp_ret. split; [done|].
    split; [|done]. apply left_skip; [done|by rewrite Hd]. }
  destruct t as [w|c|]; cbn [spell code token_ok separated app length] in *.
  - destruct Hok as [Hn Hf]. destruct (takew_app is_word w r Hf) as [Htk _]; [by destruct r|].
    destruct (skip_spec is_word q Hle) as (Ek & _ & _). rewrite Er, Htk in Ek.
    destruct w as [|c w]; [done|]. pose proof (Forall_inv Hf) as Hc. cbn [app] in *.
    destruct (plain_word c Hc) as [-> Hg].
    rewrite (proj2 (Z.eqb_neq c 0)), (proj2 (Z.eqb_neq c GT)) by (done || by eapply nonzero_head).
    rewrite Ek. apply Hfin; [done| |done]. split; [done|done| |done]. exists r. split; [done|by destruct r].
  - destruct (symbol_kind c Hok) as [H0 _]. rewrite (proj2 (Z.eqb_neq c 0)) by done.
    destruct (Z.eqb_spec c GT) as [->|Hg].
    + change (strchr _ GT) with false. cbn match. rewrite char_drop by lia. rewrite Nat.add_1_r in Hd. rewrite Hd.
      destruct r as [|c' r]; [apply Hfin; [done..|lia]|]. rewrite (proj2 (Z.eqb_neq c' GT)) by auto. apply Hfin; [done..|lia].
    + rewrite simple_symbol by done. apply Hfin; [done..|lia].
  - destruct (Hadv [GT] (GT :: r) Er) as [Hl1 Hd1]. simpl in Hl1, Hd1. rewrite Nat.add_1_r in Hd1.
    change (strchr _ GT) with false. cbn match. rewrite char_drop by lia. rewrite Hd1. apply Hfin; [done..|lia].
Qed.

Lemma left_ok s t toks : left_at s (t :: toks) → token_ok t.
Proof using Type. clear Hz. intros [_ Ht]. by inv Ht. Qed.
Lemma got_word s toks w s' : left_at s toks → got toks WORD w s' →
  ∃ l r, toks = Word l :: r ∧ left_at s' r ∧ span_of w l.
Proof using Type.
  clear Hz. intros Ht Hg. destruct toks as [|t r]; [by destruct Hg|]. apply left_ok in Ht.
  destruct t as [l|c|]; destruct Hg as (E & H1 & H2); simpl in E; [by exists l, r| |done].
  subst c. exfalso. simpl in Ht. by apply strchr_spec in Ht.
Qed.
Lemma got_end s toks w s' : left_at s toks → got toks 0 w s' → toks = [] ∧ left_at s' [].
Proof using Type.
  clear Hz. intros Ht Hg. destruct toks as [|t r]; [by destruct Hg|]. apply left_ok in Ht.
  destruct t as [l|c|]; destruct Hg as (E & H1 & H2); simpl in E; [done| |done].
  subst c. exfalso. simpl in Ht. by apply strchr_spec in Ht.
Qed.
Lemma left_length s toks : left_at s toks → (length toks ≤ es)%nat.
Proof using Type. intros [Hs Ht]. apply spells_length in Ht. rewrite length_drop in Ht. lia. Qed.
End lexer.
