(* ===== verification/ShParse.v ===== *)
(** * The parser of the shell ([parsecmd] of [user/sh.c]) accepts its grammar

    The grammar of command lines over tokens, and that [parsecmd] returns a
    command exactly for the texts of the grammar, with the words of the command
    ended in place. *)

From S2P Require Import Prelude Sysfile Sh ShLex.

(** ** The grammar *)
Definition redir_op (t : token) : option (Z * Z) :=
  match t with
  | Word _ => None
  | Sym c => if c =? LT then Some (O_RDONLY, 0)
             else if c =? GT then Some (Z.lor (Z.lor O_WRONLY O_CREATE) O_TRUNC, 1) else None
  | Append => Some (Z.lor O_WRONLY O_CREATE, 1)
  end.
(** Redirections are put around a command one after the other. *)
Definition redirected {W} (c : cmd W) (rs : list ((Z * Z) * W)) : cmd W :=
  foldl (λ c r, REDIR c r.2 r.1.1 r.1.2) c rs.

(** Words and redirections in any order. *)
Inductive items : list token → list (list Z) → list ((Z * Z) * list Z) → Prop :=
  | items_nil : items [] [] []
  | items_word w toks a rs : items toks a rs → items (Word w :: toks) (w :: a) rs
  | items_redir op m w toks a rs :
      redir_op op = Some m → items toks a rs → items (op :: Word w :: toks) a ((m, w) :: rs).

(** - line: pipe &...& or pipe &...& ; line
    - pipe: exec or exec | pipe
    - exec: at most nine words, with redirections, or ( line ) redirections *)
Inductive gline : list token → cmd (list Z) → Prop :=
  | gl_end t c n : gpipe t c → gline (t ++ replicate n (Sym AMP)) (Nat.iter n BACK c)
  | gl_list t c n t' c' : gpipe t c → gline t' c' →
      gline (t ++ replicate n (Sym AMP) ++ Sym SEMI :: t') (LIST (Nat.iter n BACK c) c')
with gpipe : list token → cmd (list Z) → Prop :=
  | gp_one t c : gexec t c → gpipe t c
  | gp_pipe t c t' c' : gexec t c → gpipe t' c' → gpipe (t ++ Sym BAR :: t') (PIPE c c')
with gexec : list token → cmd (list Z) → Prop :=
  | ge_simple t a rs : items t a rs → Z.of_nat (length a) < MAXARGS → gexec t (redirected (EXEC a) rs)
  | ge_block t c t' rs : gline t c → items t' [] rs →
      gexec (Sym LPAR :: t ++ Sym RPAR :: t') (redirected c rs).

Lemma items_app t a rs t' a' rs' : items t a rs → items t' a' rs' → items (t ++ t') (a ++ a') (rs ++ rs').
Proof. induction 1; intros; simpl; [done|by constructor; auto..]. Qed.
Lemma redirected_app {W} (c : cmd W) rs rs' : redirected c (rs ++ rs') = redirected (redirected c rs) rs'.
Proof. apply foldl_app. Qed.

(** The redirections in front. *)
Lemma items_split t a rs : items t a rs → ∃ t1 t2 rs1 rs2, t = t1 ++ t2 ∧ rs = rs1 ++ rs2 ∧
  items t1 [] rs1 ∧ items t2 a rs2 ∧ next [LT; GT] t2 = false.
Proof.
  induction 1 as [|w t a rs H _|op m w t a rs Hop _ (t1 & t2 & rs1 & rs2 & -> & -> & H1 & H2 & H3)].
  - exists [], [], [], []. by repeat constructor.
  - exists [], (Word w :: t), [], rs. repeat split; by constructor.
  - exists (op :: Word w :: t1), t2, ((m, w) :: rs1), rs2. by repeat constructor.
Qed.

(** ** What is next *)
Definition follows (l : list Z) (toks : list token) : Prop := toks = [] ∨ next l toks = true.
Lemma follows_not l l' toks : follows l toks → (∀ c, c ∈ l → c ∉ l') → next l' toks = false.
Proof.
  intros [->|Hn] Hd; [done|]. destruct toks as [|[w|c|] toks]; simpl in *; [done..| |].
  all: apply not_true_is_false; intros H'; rewrite !strchr_spec in *; set_solver.
Qed.
Lemma follows_sub l l' toks : follows l toks → (∀ c, c ∈ l → c ∈ l') → follows l' toks.
Proof.
  intros [->|Hn] Hd; [by left|right]. destruct toks as [|[w|c|] toks]; simpl in *; [done..| |].
  all: rewrite !strchr_spec in *; set_solver.
Qed.
Lemma next_one c toks : c ≠ GT → next [c] toks = true → ∃ r, toks = Sym c :: r.
Proof.
  intros Hc. destruct toks as [|[w|c'|] toks]; cbn [next starts]; [done..| |]; rewrite strchr_spec, list_elem_of_singleton.
  - intros ->. eauto.
  - congruence.
Qed.
Lemma next_self c toks : next [c] (Sym c :: toks) = true.
Proof. simpl. by rewrite Z.eqb_refl. Qed.
Lemma next_redir toks : next [LT; GT] toks = true → ∃ op m r, toks = op :: r ∧ redir_op op = Some m.
Proof.
  destruct toks as [|[w|c'|] toks]; simpl; [done..| |].
  - destruct (Z.eqb_spec c' LT) as [->|]; simpl; [intros _; by eexists _, _, _|].
    destruct (Z.eqb_spec c' GT) as [->|]; [intros _; by eexists _, _, _|done].
  - intros _. by eexists _, _, _.
Qed.
Lemma redir_next op m toks : redir_op op = Some m → next [LT; GT] (op :: toks) = true.
Proof.
  destruct op as [w|c|]; simpl; [done| |done]. destruct (c =? LT); [done|]. by destruct (c =? GT).
Qed.
Lemma redir_of_op op m c w : redir_op op = Some m → redir_of (code op) c w = REDIR c w m.1 m.2.
Proof.
  destruct op as [w'|c'|]; simpl; [done| |by intros [= <-]]. unfold redir_of.
  destruct (c' =? LT); [by intros [= <-]|]. destruct (c' =? GT); [by intros [= <-]|done].
Qed.

(** ** Runs that may end in [panic]

    [ends m Q s]: [m] returns with [Q] or prints a message and exits; it does
    neither loop nor go wrong otherwise. *)
Definition ends {S A} (m : K S A) (Q : A → S → Prop) (s : S) : Prop :=
  match m s with
  | Ok (a, s') => Q a s'
  | Panic _ => True
  | _ => False
  end.
Section ends.
Context {S : Type}.
Implicit Types s : S.
Lemma ends_wp {A} (m : K S A) Q s : wp m Q s → ends m Q s.
Proof. unfold wp, ends. by destruct (m s) as [[? ?]| | | |]. Qed.
Lemma ends_mono {A} (m : K S A) (Q Q' : A → S → Prop) s : ends m Q s → (∀ a s', Q a s' → Q' a s') → ends m Q' s.
Proof. unfold ends. destruct (m s) as [[? ?]| | | |]; try done. auto. Qed.
Lemma ends_seq {A B} (m : K S A) (f : A → K S B) R Q s :
  ends m R s → (∀ a s', R a s' → ends (f a) Q s') → ends (m ≫= f) Q s.
Proof. unfold ends, mbind, K_bind. destruct (m s) as [[? ?]| | | |]; try done. intros ? HR. by apply HR. Qed.
Lemma ends_wp_seq {A B} (m : K S A) (f : A → K S B) R Q s :
  wp m R s → (∀ a s', R a s' → ends (f a) Q s') → ends (m ≫= f) Q s.
Proof. intros H. by apply ends_seq, ends_wp. Qed.
Lemma ends_ret {A} (a : A) (Q : A → S → Prop) s : Q a s → ends (mret a) Q s.
Proof. done. Qed.
Lemma ends_while_loop {X R} (I : nat → X → S → Prop) (Q : R → S → Prop) body fuel n x s :
  I n x s → (n < fuel)%nat →
  (∀ n x s, I n x s →
     ends (body x) (λ r s', match r with
                            | inl x' => ∃ n', (n' < n)%nat ∧ I n' x' s'
                            | inr y => Q y s'
                            end) s) →
  ends (while_loop fuel x body) Q s.
Proof.
  revert n x s. induction fuel as [|f IH]; intros n x s HI Hm Hbody; [lia|]. simpl.
  eapply ends_seq; [by eapply Hbody|].
  intros [x'|y] s' Hs'; [|by apply ends_ret]. destruct Hs' as (n' & Hlt & HI').
  eapply IH; [done|lia|done].
Qed.
End ends.

(** ** The parser *)
Section parse.
Context (text junk : list Z) (Hz : Forall (λ c, c ≠ 0) text).
Abbreviation buf := (text ++ 0 :: junk).
Abbreviation es := (length text).
Abbreviation left_at := (left_at text).
Abbreviation span_of := (span_of text).

(** A command of spans denotes a command of words. *)
Inductive den : cmd span → cmd (list Z) → Prop :=
  | den_exec ws ls : Forall2 span_of ws ls → den (EXEC ws) (EXEC ls)
  | den_redir p c w l m d : den p c → span_of w l → den (REDIR p w m d) (REDIR c l m d)
  | den_pipe p c p' c' : den p c → den p' c' → den (PIPE p p') (PIPE c c')
  | den_list p c p' c' : den p c → den p' c' → den (LIST p p') (LIST c c')
  | den_back p c : den p c → den (BACK p) (BACK c).

Lemma den_set_argv ws a a0 rs p :
  den p (redirected (EXEC a0) rs) → Forall2 span_of ws a → den (set_argv ws p) (redirected (EXEC a) rs).
Proof using Type.
  clear Hz. intros Hd Ha. revert p Hd. induction rs as [|r rs IH] using rev_ind; intros p Hd.
  - inv Hd. simpl. by constructor.
  - rewrite redirected_app in *. simpl in *. inv Hd. simpl. constructor; [by apply IH|done].
Qed.

(** [parseredirs] reads redirections as long as there are any. *)
Lemma parseredirs_sound s toks p c : left_at s toks → den p c →
  ends (parseredirs buf es p) (λ p' s', ∃ t rs rest, toks = t ++ rest ∧ items t [] rs ∧
    den p' (redirected c rs) ∧ left_at s' rest ∧ next [LT; GT] rest = false) s.
Proof using Hz.
  intros Ht Hd. unfold parseredirs.
  apply (ends_while_loop (λ n p' s', ∃ t rs rest, n = length rest ∧ toks = t ++ rest ∧ items t [] rs ∧
    den p' (redirected c rs) ∧ left_at s' rest) _ _ _ (length toks)).
  - exists [], [], toks. split_and!; [done|done|constructor|done|done].
  - apply left_length in Ht. lia.
  - intros n p1 s1 (t & rs & rest & -> & -> & Hi & Hd1 & H1).
    eapply ends_wp_seq; [apply (peek_spec text junk Hz); [exact H1|set_solver]|]. intros b s2 [-> H2].
    destruct (next [LT; GT] rest) eqn:En; [|apply ends_ret; by eauto 10].
    apply next_redir in En as (op & m & r & -> & Hop).
    eapply ends_wp_seq; [by apply (gettoken_spec text junk Hz)|]. intros [tok w0] s3 (-> & H3 & _).
    eapply ends_wp_seq; [by apply (gettoken_spec text junk Hz)|]. intros [tok w] s4 Hg.
    destruct (Z.eqb_spec tok WORD) as [->|]; [|done]. destruct (got_word _ _ _ _ _ H3 Hg) as (l & r' & -> & H4 & Hw).
    apply ends_ret. rewrite (redir_of_op _ _ _ _ Hop). exists (length r'). split; [simpl; lia|].
    exists (t ++ [op; Word l]), (rs ++ [(m, l)]), r'. split_and!; [done|by rewrite <-app_assoc| | |done].
    + apply (items_app _ [] _ _ [] _); [done|]. by repeat constructor.
    + rewrite redirected_app. by constructor.
Qed.

(** [parseargs] reads words and redirections. *)
Lemma parseargs_sound s toks t0 rs0 rest0 p : left_at s rest0 → toks = t0 ++ rest0 → items t0 [] rs0 →
  den p (redirected (EXEC []) rs0) →
  ends (parseargs buf es p) (λ p' s', ∃ t rest c, toks = t ++ rest ∧ gexec t c ∧ den p' c ∧ left_at s' rest) s.
Proof using Hz.
  intros Ht -> Hi0 Hd. unfold parseargs. eapply ends_seq.
  - apply (ends_while_loop (λ n '(p', args) s', ∃ t a rs rest, n = length rest ∧ t0 ++ rest0 = t ++ rest ∧ items t a rs ∧
      den p' (redirected (EXEC []) rs) ∧ left_at s' rest ∧ Forall2 span_of args a ∧ Z.of_nat (length a) < MAXARGS)
      (λ '(p', args) s', ∃ t a rs rest, t0 ++ rest0 = t ++ rest ∧ items t a rs ∧
      den p' (redirected (EXEC []) rs) ∧ left_at s' rest ∧ Forall2 span_of args a ∧ Z.of_nat (length a) < MAXARGS)
      _ _ (length rest0)).
    + exists t0, [], rs0, rest0. by split_and!.
    + apply left_length in Ht. lia.
    + intros n [p1 args] s1 (t & a & rs & rest & -> & E & Hi & Hd1 & H1 & Ha & Hlen).
      eapply ends_wp_seq; [apply (peek_spec text junk Hz); [exact H1|unfold symbols; set_solver]|]. intros b s2 [-> H2].
      destruct (next _ rest); [apply ends_ret; by exists t, a, rs, rest|].
      eapply ends_wp_seq; [by apply (gettoken_spec text junk Hz)|]. intros [tok w] s3 Hg.
      destruct (Z.eqb_spec tok 0) as [->|].
      { destruct (got_end _ _ _ _ _ H2 Hg) as [-> H3]. apply ends_ret. by exists t, a, rs, []. }
      destruct (Z.eqb_spec tok WORD) as [->|]; [|done]. destruct (got_word _ _ _ _ _ H2 Hg) as (l & r & -> & H3 & Hw).
      cbn match. destruct (Z.leb_spec MAXARGS (Z.of_nat (length (args ++ [w])))) as [|Hlt]; [done|].
      assert (Forall2 span_of (args ++ [w]) (a ++ [l])) as Ha' by (apply Forall2_app; [done|by constructor]).
      eapply ends_seq; [by apply parseredirs_sound|]. intros p2 s4 (t1 & rs1 & r1 & -> & Hi1 & Hd2 & H4 & _).
      apply ends_ret. exists (length r1). split; [simpl; rewrite length_app; lia|].
      exists (t ++ Word l :: t1), (a ++ [l]), (rs ++ rs1), r1. split_and!; [done|by rewrite E, <-app_assoc| | |done|done|].
      * apply items_app; [done|]. by constructor.
      * by rewrite redirected_app.
      * by rewrite <-(Forall2_length _ _ _ Ha').
  - intros [p1 args] s1 (t & a & rs & rest & E & Hi & Hd1 & H1 & Ha & Hlen). apply ends_ret.
    exists t, rest, (redirected (EXEC a) rs). split_and!; [done|by constructor|by eapply den_set_argv|done].
Qed.

(** What a function of the parser returns for the tokens ahead. *)
Definition sound_for (g : list token → cmd (list Z) → Prop) (m : K nat (cmd span)) (toks : list token) (s : nat) : Prop :=
  ends m (λ p s', ∃ t rest c, toks = t ++ rest ∧ g t c ∧ den p c ∧ left_at s' rest) s.

(** The ampersands after a pipe. *)
Lemma parseback_sound s toks p c : left_at s toks → den p c →
  ends (while_loop (S es) p (λ c, b ← peek buf es [AMP];
          if b : bool then gettoken buf es;; mret (inl (backcmd c)) else mret (inr c)))
    (λ p' s', ∃ n rest, toks = replicate n (Sym AMP) ++ rest ∧ den p' (Nat.iter n BACK c) ∧ left_at s' rest) s.
Proof using Hz.
  intros Ht Hd. apply (ends_while_loop (λ k p' s', ∃ n rest, k = length rest ∧ toks = replicate n (Sym AMP) ++ rest ∧
    den p' (Nat.iter n BACK c) ∧ left_at s' rest) _ _ _ (length toks)).
  - by exists 0%nat, toks.
  - apply left_length in Ht. lia.
  - intros k p1 s1 (n & rest & -> & -> & Hd1 & H1).
    eapply ends_wp_seq; [apply (peek_spec text junk Hz); [exact H1|unfold symbols; set_solver]|]. intros b s2 [-> H2].
    destruct (next [AMP] rest) eqn:En; [|apply ends_ret; by exists n, rest].
    apply next_one in En as [r ->]; [|done].
    eapply ends_wp_seq; [by apply (gettoken_spec text junk Hz)|]. intros [tok w0] s3 (-> & H3 & _).
    apply ends_ret. exists (length r). split; [simpl; lia|]. exists (S n), r.
    split_and!; [done| |by constructor|done]. by rewrite replicate_S_end, <-app_assoc.
Qed.

(** The recursion needs four calls for a token. *)
Definition sound_line n := ∀ s toks, left_at s toks → (4 * length toks + 4 ≤ n)%nat → sound_for gline (parseline buf es n) toks s.
Definition sound_pipe n := ∀ s toks, left_at s toks → (4 * length toks + 3 ≤ n)%nat → sound_for gpipe (parsepipe buf es n) toks s.
Definition sound_block n := ∀ s toks, left_at s toks → (4 * length toks + 1 ≤ n)%nat → sound_for gexec (parseblock buf es n) toks s.
Definition sound_exec n := ∀ s toks, left_at s toks → (4 * length toks + 2 ≤ n)%nat → sound_for gexec (parseexec buf es n) toks s.

Lemma parseline_sound n : sound_pipe n → sound_line n → sound_line (S n).
Proof using Hz.
  intros IHp IHl s toks Ht Hn. unfold sound_for. simpl.
  eapply ends_seq; [apply IHp; [done|lia]|]. intros p1 s1 (t & r & c & -> & Hg & Hd & H1).
  rewrite length_app in Hn.
  eapply ends_seq; [by apply parseback_sound|]. intros p2 s2 (k & r2 & -> & Hd2 & H2).
  eapply ends_wp_seq; [apply (peek_spec text junk Hz); [exact H2|unfold symbols; set_solver]|]. intros b s3 [-> H3].
  destruct (next [SEMI] r2) eqn:En.
  - apply next_one in En as [r ->]; [|done].
    eapply ends_wp_seq; [by apply (gettoken_spec text junk Hz)|]. intros [tok w0] s4 (-> & H4 & _).
    rewrite length_app in Hn. simpl in Hn.
    eapply ends_seq; [apply IHl; [done|lia]|]. intros p3 s5 (t3 & r3 & c3 & -> & Hg3 & Hd3 & H5).
    apply ends_ret. exists (t ++ replicate k (Sym AMP) ++ Sym SEMI :: t3), r3, (LIST (Nat.iter k BACK c) c3).
    split_and!; [by rewrite <-!app_assoc|by constructor|by constructor|done].
  - apply ends_ret. exists (t ++ replicate k (Sym AMP)), r2, (Nat.iter k BACK c).
    split_and!; [by rewrite <-!app_assoc|by constructor|done|done].
Qed.

Lemma parsepipe_sound n : sound_exec n → sound_pipe n → sound_pipe (S n).
Proof using Hz.
  intros IHe IHp s toks Ht Hn. unfold sound_for. simpl.
  eapply ends_seq; [apply IHe; [done|lia]|]. intros p1 s1 (t & r & c & -> & Hg & Hd & H1).
  rewrite length_app in Hn.
  eapply ends_wp_seq; [apply (peek_spec text junk Hz); [exact H1|unfold symbols; set_solver]|]. intros b s3 [-> H3].
  destruct (next [BAR] r) eqn:En; [|apply ends_ret; exists t, r, c; by split_and!; [|constructor|..]].
  apply next_one in En as [r' ->]; [|done]. simpl in Hn.
  eapply ends_wp_seq; [by apply (gettoken_spec text junk Hz)|]. intros [tok w0] s4 (-> & H4 & _).
  eapply ends_seq; [apply IHp; [done|lia]|]. intros p3 s5 (t3 & r3 & c3 & -> & Hg3 & Hd3 & H5).
  apply ends_ret. exists (t ++ Sym BAR :: t3), r3, (PIPE c c3).
  split_and!; [by rewrite <-!app_assoc|by constructor|by constructor|done].
Qed.

Lemma parseblock_sound n : sound_line n → sound_block (S n).
Proof using Hz.
  intros IHl s toks Ht Hn. unfold sound_for. simpl.
  eapply ends_wp_seq; [apply (peek_spec text junk Hz); [exact Ht|unfold symbols; set_solver]|]. intros b s1 [-> H1].
  destruct (next [LPAR] toks) eqn:En; [|done]. apply next_one in En as [r ->]; [|done]. simpl in Hn.
  eapply (ends_wp_seq _ _ (λ _ s2, left_at s2 (Sym LPAR :: r))); [by apply wp_panic_if|]. intros _ s2 H2.
  eapply ends_wp_seq; [by apply (gettoken_spec text junk Hz)|]. intros [tok w0] s3 (-> & H3 & _).
  eapply ends_seq; [apply IHl; [done|lia]|]. intros p4 s4 (t & r4 & c & -> & Hg & Hd & H4).
  eapply ends_wp_seq; [apply (peek_spec text junk Hz); [exact H4|unfold symbols; set_solver]|]. intros b s5 [-> H5].
  destruct (next [RPAR] r4) eqn:En; [|done]. apply next_one in En as [r5 ->]; [|done].
  eapply (ends_wp_seq _ _ (λ _ s6, left_at s6 (Sym RPAR :: r5))); [by apply wp_panic_if|]. intros _ s6 H6.
  eapply ends_wp_seq; [by apply (gettoken_spec text junk Hz)|]. intros [tok w1] s7 (-> & H7 & _).
  eapply ends_mono; [by apply parseredirs_sound|]. intros p8 s8 (t1 & rs & rest & -> & Hi & Hd8 & H8 & _).
  exists (Sym LPAR :: t ++ Sym RPAR :: t1), rest, (redirected c rs).
  split_and!; [simpl; by rewrite <-!app_assoc|by constructor|done|done].
Qed.

Lemma parseexec_sound n : sound_block n → sound_exec (S n).
Proof using Hz.
  intros IHb s toks Ht Hn. unfold sound_for. simpl.
  eapply ends_wp_seq; [apply (peek_spec text junk Hz); [exact Ht|unfold symbols; set_solver]|]. intros b s1 [-> H1].
  destruct (next [LPAR] toks); [apply IHb; [done|lia]|].
  eapply ends_seq; [apply parseredirs_sound; [done|by apply (den_exec [] [])]|].
  intros p2 s2 (t & rs & rest & -> & Hi & Hd & H2 & _). by eapply parseargs_sound.
Qed.

Lemma parse_sound n : sound_line n ∧ sound_pipe n ∧ sound_block n ∧ sound_exec n.
Proof using Hz.
  induction n as [|n (IHl & IHp & IHb & IHe)]; [split_and!; intros s toks _ Hn; lia|].
  split_and!; [by apply parseline_sound|by apply parsepipe_sound|by apply parseblock_sound|by apply parseexec_sound].
Qed.

(** ** Texts of the grammar are accepted *)
Lemma parseredirs_complete s t rs rest p c : left_at s (t ++ rest) → items t [] rs → next [LT; GT] rest = false → den p c →
  wp (parseredirs buf es p) (λ p' s', den p' (redirected c rs) ∧ left_at s' rest) s.
Proof using Hz.
  intros Ht Hi Hn Hd. unfold parseredirs.
  apply (wp_while_loop (λ k p1 s1, ∃ t1 rs1 c1, k = length t1 ∧ items t1 [] rs1 ∧ left_at s1 (t1 ++ rest) ∧ den p1 c1 ∧
    redirected c1 rs1 = redirected c rs) _ _ _ (length t)).
  - by exists t, rs, c.
  - apply left_length in Ht. rewrite length_app in Ht. lia.
  - intros k p1 s1 (t1 & rs1 & c1 & -> & Hi1 & H1 & Hd1 & E).
    eapply wp_seq; [apply (peek_spec text junk Hz); [exact H1|unfold symbols; set_solver]|]. intros b s2 [-> H2].
    inv Hi1 as [| |op m w t2 a rs2 Hop Hi2]; simpl app in *.
    + rewrite Hn. apply wp_ret. simpl in E. by rewrite <-E.
    + rewrite (redir_next _ _ _ Hop).
      eapply wp_seq; [by apply (gettoken_spec text junk Hz)|]. intros [tok w0] s3 (-> & H3 & _).
      eapply wp_seq; [by apply (gettoken_spec text junk Hz)|]. intros [tok w1] s4 (-> & H4 & Hw).
      rewrite Z.eqb_refl. apply wp_ret. rewrite (redir_of_op _ _ _ _ Hop). exists (length t2). split; [simpl; lia|].
      eexists t2, rs2, _. split_and!; [done|done|done|by constructor|exact E].
Qed.

Lemma parseargs_complete s t a rs rs0 rest p :
  left_at s (t ++ rest) → items t a rs → next [LT; GT] (t ++ rest) = false → follows [BAR; RPAR; AMP; SEMI] rest →
  Z.of_nat (length a) < MAXARGS → den p (redirected (EXEC []) rs0) →
  wp (parseargs buf es p) (λ p' s', den p' (redirected (EXEC a) (rs0 ++ rs)) ∧ left_at s' rest) s.
Proof using Hz.
  intros Ht Hi Hn Hf Hlen Hd. unfold parseargs. eapply wp_seq.
  - apply (wp_while_loop (λ k '(p1, args) s1, ∃ t1 a0 a1 rs1 rs2, k = length t1 ∧ items t1 a1 rs2 ∧ a = a0 ++ a1 ∧ rs0 ++ rs = rs1 ++ rs2 ∧
      left_at s1 (t1 ++ rest) ∧ next [LT; GT] (t1 ++ rest) = false ∧ Forall2 span_of args a0 ∧ den p1 (redirected (EXEC []) rs1))
      (λ '(p1, args) s1, left_at s1 rest ∧ Forall2 span_of args a ∧ den p1 (redirected (EXEC []) (rs0 ++ rs))) _ _ (length t)).
    + exists t, [], a, rs0, rs. by split_and!.
    + apply left_length in Ht. rewrite length_app in Ht. lia.
    + intros k [p1 args] s1 (t1 & a0 & a1 & rs1 & rs2 & -> & Hi1 & -> & E & H1 & Hn1 & Ha & Hd1).
      eapply wp_seq; [apply (peek_spec text junk Hz); [exact H1|unfold symbols; set_solver]|]. intros b s2 [-> H2].
      inv Hi1 as [|w t2 a2 rs' Hi2|op m w t2 a2 rs3 Hop Hi2]; simpl app in *.
      * rewrite !app_nil_r in *. rewrite E. destruct Hf as [->|Hf]; [|rewrite Hf; by apply wp_ret].
        cbn [next]. eapply wp_seq; [by apply (gettoken_spec text junk Hz)|]. intros [tok w0] s3 [-> H3]. by apply wp_ret.
      * cbn [next starts]. eapply wp_seq; [by apply (gettoken_spec text junk Hz)|]. intros [tok w0] s3 (-> & H3 & Hw).
        change (code (Word w) =? 0) with false. change (negb (code (Word w) =? WORD)) with false. cbn match.
        pose proof (Forall2_length _ _ _ Ha) as Hla. rewrite length_app in Hlen. simpl in Hlen.
        rewrite (proj2 (Z.leb_gt _ _)) by (rewrite length_app; simpl; lia).
        destruct (items_split _ _ _ Hi2) as (t3 & t4 & rs3 & rs4 & -> & -> & Hi3 & Hi4 & Hn4).
        rewrite <-app_assoc in H3.
        assert (next [LT; GT] (t4 ++ rest) = false) as Hn5.
        { destruct t4; [|done]. eapply follows_not; [done|set_solver]. }
        eapply wp_seq; [by eapply parseredirs_complete|]. intros p2 s4 [Hd4 H4]. apply wp_ret.
        exists (length t4). split; [simpl; rewrite length_app; lia|].
        exists t4, (a0 ++ [w]), a2, (rs1 ++ rs3), rs4. rewrite <-!app_assoc. split_and!; try done.
        -- apply Forall2_app; [done|by constructor].
        -- by rewrite redirected_app.
      * by rewrite (redir_next _ _ _ Hop) in Hn1.
  - intros [p1 args] s1 (H1 & Ha & Hd1). apply wp_ret. split; [|done]. by eapply den_set_argv.
Qed.

Definition complete_for (g : list token → cmd (list Z) → Prop) (fol : list Z) (k : nat) (m : K nat (cmd span)) (n : nat) : Prop :=
  ∀ s t rest c, g t c → left_at s (t ++ rest) → follows fol rest → (4 * length t + k ≤ n)%nat →
  wp m (λ p s', den p c ∧ left_at s' rest) s.
Definition fline : list Z := [RPAR].
Definition fpipe : list Z := [RPAR; AMP; SEMI].
Definition fexec : list Z := [BAR; RPAR; AMP; SEMI].
Definition complete_line n := complete_for gline fline 4 (parseline buf es n) n.
Definition complete_pipe n := complete_for gpipe fpipe 3 (parsepipe buf es n) n.
Definition complete_exec n := complete_for gexec fexec 2 (parseexec buf es n) n.
Definition complete_block n := ∀ s t1 t2 rs rest c, gline t1 c → items t2 [] rs →
  left_at s (Sym LPAR :: t1 ++ Sym RPAR :: t2 ++ rest) → follows fexec rest → (4 * length t1 + 5 ≤ n)%nat →
  wp (parseblock buf es n) (λ p s', den p (redirected c rs) ∧ left_at s' rest) s.

Lemma parseback_complete s n rest p c : left_at s (replicate n (Sym AMP) ++ rest) → next [AMP] rest = false → den p c →
  wp (while_loop (S es) p (λ c, b ← peek buf es [AMP];
        if b : bool then gettoken buf es;; mret (inl (backcmd c)) else mret (inr c)))
    (λ p' s', den p' (Nat.iter n BACK c) ∧ left_at s' rest) s.
Proof using Hz.
  intros Ht Hn Hd. apply (wp_while_loop (λ k p' s', ∃ c1, left_at s' (replicate k (Sym AMP) ++ rest) ∧
    Nat.iter k BACK c1 = Nat.iter n BACK c ∧ den p' c1) _ _ _ n).
  - by exists c.
  - apply left_length in Ht. rewrite length_app, length_replicate in Ht. lia.
  - intros k p1 s1 (c1 & H1 & E & Hd1).
    eapply wp_seq; [apply (peek_spec text junk Hz); [exact H1|unfold symbols; set_solver]|]. intros b s2 [-> H2].
    destruct k as [|k]; simpl app in *.
    + rewrite Hn. apply wp_ret. by rewrite <-E.
    + rewrite next_self. eapply wp_seq; [by apply (gettoken_spec text junk Hz)|]. intros [tok w0] s3 (-> & H3 & _).
      apply wp_ret. exists k. split; [lia|]. exists (BACK c1). split_and!; [done| |by constructor].
      by rewrite <-E, <-Nat.iter_succ_r.
Qed.

Lemma parseline_complete n : complete_pipe n → complete_line n → complete_line (S n).
Proof using Hz.
  intros IHp IHl s t rest c Hg Ht Hf Hn. simpl.
  assert (∃ tp cp k r, gpipe tp cp ∧ t ++ rest = tp ++ replicate k (Sym AMP) ++ r ∧ (4 * length tp + 3 ≤ n)%nat ∧
    follows [RPAR; SEMI] r ∧ ((r = rest ∧ c = Nat.iter k BACK cp) ∨
    ∃ t' c', r = Sym SEMI :: t' ++ rest ∧ gline t' c' ∧ c = LIST (Nat.iter k BACK cp) c' ∧ (4 * length t' + 4 ≤ n)%nat))
    as (tp & cp & k & r & Hp & E & Hn' & Hr & Hcase).
  { inv Hg as [tp cp k Hp|tp cp k t' c' Hp Hg']; rewrite !length_app in Hn.
    - exists tp, cp, k, rest. rewrite <-app_assoc. split_and!; [done|done|lia| |by left].
      eapply follows_sub; [done|unfold fline; set_solver].
    - rewrite length_replicate in Hn. simpl in Hn. exists tp, cp, k, (Sym SEMI :: t' ++ rest).
      split_and!; [done|by rewrite <-!app_assoc|lia|by right|]. right. exists t', c'. split_and!; [done..|lia]. }
  rewrite E in Ht. eapply wp_seq; [eapply IHp; [exact Hp|done| |done]|].
  { destruct k; simpl; [|by right]. eapply follows_sub; [done|unfold fpipe; set_solver]. }
  intros p1 s1 [Hd1 H1]. eapply wp_seq; [eapply parseback_complete; [done| |done]|].
  { eapply follows_not; [done|set_solver]. }
  intros p2 s2 [Hd2 H2]. eapply wp_seq; [apply (peek_spec text junk Hz); [exact H2|unfold symbols; set_solver]|].
  intros b s3 [-> H3]. destruct Hcase as [[-> ->]|(t' & c' & -> & Hg' & -> & Hn2)].
  - replace (next [SEMI] rest) with false; [by apply wp_ret|]. symmetry. eapply follows_not; [exact Hf|unfold fline; set_solver].
  - rewrite next_self. eapply wp_seq; [by apply (gettoken_spec text junk Hz)|]. intros [tok w0] s4 (-> & H4 & _).
    eapply wp_seq; [by eapply IHl|]. intros p5 s5 [Hd5 H5]. apply wp_ret. split; [by constructor|done].
Qed.

Lemma parsepipe_complete n : complete_exec n → complete_pipe n → complete_pipe (S n).
Proof using Hz.
  intros IHe IHp s t rest c Hg Ht Hf Hn. simpl. inv Hg as [? ? He|te ce t' c' He Hg'].
  - eapply wp_seq; [eapply IHe; [exact He|done| |lia]|].
    { eapply follows_sub; [done|unfold fpipe, fexec; set_solver]. }
    intros p1 s1 [Hd1 H1]. eapply wp_seq; [apply (peek_spec text junk Hz); [exact H1|unfold symbols; set_solver]|].
    intros b s2 [-> H2]. replace (next [BAR] rest) with false; [by apply wp_ret|].
    symmetry. eapply follows_not; [done|unfold fpipe; set_solver].
  - rewrite length_app in Hn. simpl in Hn. rewrite <-app_assoc in Ht. simpl in Ht.
    eapply wp_seq; [eapply IHe; [exact He|done|by right|lia]|].
    intros p1 s1 [Hd1 H1]. eapply wp_seq; [apply (peek_spec text junk Hz); [exact H1|unfold symbols; set_solver]|].
    intros b s2 [-> H2]. rewrite next_self.
    eapply wp_seq; [by apply (gettoken_spec text junk Hz)|]. intros [tok w0] s4 (-> & H4 & _).
    eapply wp_seq; [eapply IHp; [exact Hg'|done|done|lia]|]. intros p5 s5 [Hd5 H5]. apply wp_ret. split; [by constructor|done].
Qed.

Lemma parseblock_complete n : complete_line n → complete_block (S n).
Proof using Hz.
  intros IHl s t1 t2 rs rest c Hg Hi Ht Hf Hn. simpl.
  eapply wp_seq; [apply (peek_spec text junk Hz); [exact Ht|unfold symbols; set_solver]|]. intros b s1 [-> H1].
  rewrite next_self. apply wp_bind, wp_panic_if; [done|].
  eapply wp_seq; [by apply (gettoken_spec text junk Hz)|]. intros [tok w0] s2 (-> & H2 & _).
  eapply wp_seq; [eapply IHl; [exact Hg|done|by right|lia]|]. intros p3 s3 [Hd3 H3].
  eapply wp_seq; [apply (peek_spec text junk Hz); [exact H3|unfold symbols; set_solver]|]. intros b s4 [-> H4].
  rewrite next_self. apply wp_bind, wp_panic_if; [done|].
  eapply wp_seq; [by apply (gettoken_spec text junk Hz)|]. intros [tok w1] s5 (-> & H5 & _).
  eapply parseredirs_complete; [done|done| |done]. eapply follows_not; [done|unfold fexec; set_solver].
Qed.

Lemma items_head t a rs rest : items t a rs → follows fexec rest → next [LPAR] (t ++ rest) = false.
Proof using Type.
  clear Hz. destruct 1 as [|w t a rs _|op m w t a rs Hop _]; intros Hf; simpl app.
  - eapply follows_not; [done|unfold fexec; set_solver].
  - done.
  - eapply (follows_not [LT; GT]); [right; by eapply redir_next|set_solver].
Qed.

Lemma parseexec_complete n : complete_block n → complete_exec (S n).
Proof using Hz.
  intros IHb s t rest c Hg Ht Hf Hn. simpl.
  eapply wp_seq; [apply (peek_spec text junk Hz); [exact Ht|unfold symbols; set_solver]|]. intros b s1 [-> H1].
  inv Hg as [? a rs Hi Hlen|t1 c1 t2 rs Hg1 Hi].
  - rewrite (items_head _ _ _ _ Hi Hf). destruct (items_split _ _ _ Hi) as (t1 & t2 & rs1 & rs2 & -> & -> & Hi1 & Hi2 & Hn2).
    rewrite <-app_assoc in H1.
    assert (next [LT; GT] (t2 ++ rest) = false) as Hn3.
    { destruct t2; [|done]. eapply follows_not; [done|unfold fexec; set_solver]. }
    eapply wp_seq; [eapply parseredirs_complete; [done|done|done|by apply (den_exec [] [])]|].
    intros p2 s2 [Hd2 H2]. by eapply parseargs_complete.
  - simpl app in *. rewrite next_self. simpl in Hn. rewrite length_app in Hn. simpl in Hn.
    rewrite <-app_assoc in H1. eapply IHb; [done|done|done|done|lia].
Qed.

Lemma parse_complete n : complete_line n ∧ complete_pipe n ∧ complete_block n ∧ complete_exec n.
Proof using Hz.
  induction n as [|n (IHl & IHp & IHb & IHe)].
  - split_and!; [intros s t rest c _ _ _ Hn; lia..|intros s t1 t2 rs rest c _ _ _ _ Hn; lia|intros s t rest c _ _ _ Hn; lia].
  - split_and!; [by apply parseline_complete|by apply parsepipe_complete|by apply parseblock_complete|by apply parseexec_complete].
Qed.

(** ** [nulterminate] *)
Fixpoint spans (p : cmd span) : list span :=
  match p with
  | EXEC ws => ws
  | REDIR p w _ _ => spans p ++ [w]
  | PIPE p q | LIST p q => spans p ++ spans q
  | BACK p => spans p
  end.
Definition ended (ws : list span) (b : list Z) : list Z := foldl (λ b w, <[w.2 := 0]> b) b ws.

Lemma length_ended ws b : length (ended ws b) = length b.
Proof using Type. clear Hz. revert b. induction ws; intros b; simpl; [done|]. by rewrite IHws, length_insert. Qed.
Lemma ended_lookup ws b j :
  ended ws b !! j = if decide (j ∈ ws.*2) then (λ _, 0) <$> b !! j else b !! j.
Proof using Type.
  clear Hz. revert b. induction ws as [|w ws IH]; intros b; simpl; [done|]. rewrite IH.
  destruct (decide (w.2 = j)) as [<-|Hne].
  - rewrite (decide_True (P := w.2 ∈ w.2 :: _)) by left.
    destruct (decide (w.2 < length b)%nat); [|rewrite list_insert_ge, (lookup_ge_None_2 b) by lia; by case_decide].
    rewrite list_lookup_insert_eq, (list_lookup_lookup_total_lt b) by done. by case_decide.
  - rewrite list_lookup_insert_ne by done. apply decide_ext. set_solver.
Qed.

Lemma nul_words_spec ws b : Forall (λ w : span, w.2 < length b)%nat ws →
  wp (nul_words ws) (λ _ b', b' = ended ws b) b.
Proof using Type.
  clear Hz. revert b. induction ws as [|[q e] ws IH]; intros b Hf; simpl; [by apply wp_ret|]. inv Hf.
  apply wp_bind. unfold put_nul. apply wp_bind, wp_gets. unfold id. rewrite decide_True by done. apply wp_modify.
  apply IH. by rewrite length_insert.
Qed.
Lemma ended_app ws ws' b : ended (ws ++ ws') b = ended ws' (ended ws b).
Proof using Type. apply foldl_app. Qed.
Lemma nulterminate_spec p b : Forall (λ w : span, w.2 < length b)%nat (spans p) →
  wp (nulterminate p) (λ _ b', b' = ended (spans p) b) b.
Proof using Type.
  clear Hz. revert b. induction p as [ws|p IH [q e] m d|p IHp p' IHp'|p IHp p' IHp'|p IH]; intros b Hf; simpl in *.
  - by apply nul_words_spec.
  - apply Forall_app in Hf as [Hf He]. inv He. apply wp_bind. eapply wp_mono; [by apply IH|]. intros _ b' ->.
    unfold put_nul. apply wp_bind, wp_gets. unfold id. rewrite decide_True by (by rewrite length_ended).
    apply wp_modify. by rewrite ended_app.
  - apply Forall_app in Hf as [Hf He]. apply wp_bind. eapply wp_mono; [by apply IHp|]. intros _ b' ->.
    rewrite ended_app. apply IHp'. by rewrite length_ended.
  - apply Forall_app in Hf as [Hf He]. apply wp_bind. eapply wp_mono; [by apply IHp|]. intros _ b' ->.
    rewrite ended_app. apply IHp'. by rewrite length_ended.
  - by apply IH.
Qed.

(** The spans are those of words. *)
Lemma den_spans p c : den p c → Forall (λ w, ∃ l, span_of w l) (spans p).
Proof using Type.
  clear Hz. induction 1 as [ws ls HF| | | |]; simpl; rewrite ?Forall_app; try (split; [done|]); try done.
  - apply Forall_lookup. intros i w Hw. destruct (Forall2_lookup_l _ _ _ _ _ HF Hw) as (l & _ & ?). eauto.
  - repeat constructor. eauto.
Qed.
Lemma span_end w l : span_of w l → (w.2 ≤ es)%nat.
Proof using Type.
  clear Hz. intros [Hs -> (r & E & _) _]. apply (f_equal length) in E. rewrite length_drop, length_app in E. lia.
Qed.
Lemma span_after w l c r : span_of w l → drop w.2 text = c :: r → is_word c = false.
Proof using Type.
  clear Hz. intros [Hs -> (r' & E & Hr) _]. rewrite <-drop_drop, E, drop_app_length. intros ->. done.
Qed.
Lemma span_inside w l k x : span_of w l → l !! k = Some x →
  text !! (w.1 + k)%nat = Some x ∧ is_word x = true ∧ ∃ r, drop (w.1 + k) text = x :: r.
Proof using Type.
  clear Hz. intros [Hs He (r & E & _) Hw] Hx. split_and!.
  - rewrite <-lookup_drop, E. by apply lookup_app_l_Some.
  - by apply (Forall_lookup_1 _ _ _ _ Hw Hx).
  - exists (drop (S k) l ++ r). rewrite <-drop_drop, E, drop_app_le by (apply lookup_lt_Some in Hx; lia).
    by rewrite (drop_S _ _ _ Hx).
Qed.

Lemma strlen_app l r : Forall (λ c, c ≠ 0) l → Sh.strlen (l ++ 0 :: r) = Some (length l).
Proof using Type.
  clear Hz. induction 1 as [|c l Hc _ IH]; simpl; [done|]. by rewrite (proj2 (Z.eqb_neq c 0)), IH.
Qed.

(** Once all words are ended, the pointers are to the words. *)
Lemma span_cstr ws w l : Forall (λ w, ∃ l, span_of w l) ws → w ∈ ws → span_of w l → cstr (ended ws buf) w = l.
Proof using Hz.
  intros Hws Hin Hw. set (d := drop w.1 (ended ws buf)).
  assert (∀ k x, l !! k = Some x → d !! k = Some x) as Hl.
  { intros k x Hx. destruct (span_inside _ _ _ _ Hw Hx) as (Ht & Hx' & r & Er). unfold d.
    rewrite lookup_drop, ended_lookup, decide_False; [by apply lookup_app_l_Some|].
    intros ([q e] & E & Hw')%list_elem_of_fmap. simpl in E. rewrite Forall_forall in Hws.
    destruct (Hws _ Hw') as [l' Hl']. rewrite E in Er. by rewrite (span_after _ _ _ _ Hl' Er) in Hx'. }
  assert (d !! length l = Some 0) as H0.
  { unfold d. rewrite lookup_drop, <-(sp_end _ _ _ Hw), ended_lookup, decide_True by (by apply list_elem_of_fmap_2).
    apply span_end in Hw. destruct (lookup_lt_is_Some_2 buf w.2) as [x ->]; [|done]. rewrite length_app. simpl. lia. }
  assert (d = l ++ 0 :: drop (S (length l)) d) as E.
  { rewrite <-(take_drop_middle d (length l) 0) at 1 by done. f_equal. apply lookup_lt_Some in H0.
    apply list_eq_same_length with (length l); [done|rewrite length_take; lia|].
    intros k x y Hk Hx Hy. rewrite lookup_take_lt in Hx by done. apply Hl in Hy. congruence. }
  assert (Forall (λ c, c ≠ 0) l) as Hnz.
  { destruct (sp_text _ _ _ Hw) as (r & Er & _). pose proof (Forall_drop _ w.1 _ Hz) as H. rewrite Er in H.
    by apply Forall_app in H as [? _]. }
  unfold cstr. fold d. rewrite E, strlen_app by done. apply take_app_length.
Qed.

Lemma den_cstr p c b : den p c → (∀ w l, w ∈ spans p → span_of w l → cstr b w = l) → cmd_map (cstr b) p = c.
Proof using Type.
  clear Hz. induction 1 as [ws ls HF|p c w l m d Hd IH Hw|p c p' c' Hd IH Hd' IH'|p c p' c' Hd IH Hd' IH'|p c Hd IH];
    simpl; intros Hb.
  - f_equal. induction HF as [|w l ws ls Hw _ IH]; simpl; [done|]. f_equal; [apply Hb; [left|done]|].
    apply IH. intros w' l' Hin. apply Hb. by right.
  - rewrite IH by set_solver. f_equal. by apply Hb; [set_solver|].
  - rewrite IH, IH' by set_solver. done.
  - rewrite IH, IH' by set_solver. done.
  - by rewrite IH.
Qed.
End parse.

(** ** [parsecmd] *)
Section parsecmd.
Context (text junk : list Z) (Hz : Forall (λ c, c ≠ 0) text).
Abbreviation buf := (text ++ 0 :: junk).
Abbreviation es := (length text).

(** The whole line is read exactly when no token is left. *)
Lemma peek_end s toks : left_at text s toks → wp (peek buf es []) (λ _ s', s' = es ↔ toks = []) s.
Proof using Type.
  clear Hz. intros [Hs Ht]. unfold peek. apply wp_bind, wp_gets, wp_bind, wp_modify, wp_ret. unfold id.
  destruct (skip_spec text junk is_white s Hs) as (_ & Hle & E). apply spells_skip in Ht as [_ Hsk]. rewrite <-E in Hsk.
  split.
  - intros Hes. rewrite Hes, drop_ge in Hsk by lia. destruct toks as [|t toks]; [done|].
    destruct Hsk as (r & Er & Hok & _). symmetry in Er. apply app_eq_nil in Er as [Er _].
    destruct t; simpl in *; [by destruct Hok|done..].
  - intros ->. apply (f_equal length) in Hsk. rewrite length_drop in Hsk. simpl in Hsk. lia.
Qed.

(** The end of [parsecmd], once the line has been read. *)
Lemma finish_spec p c : den text p c →
  wp (nulterminate p;; mret p) (λ p' b, cmd_map (cstr b) p' = c ∧ length b = length buf) buf.
Proof using Hz.
  intros Hd. pose proof (den_spans _ _ _ Hd) as Hs. apply wp_bind. eapply wp_mono.
  - apply nulterminate_spec. eapply Forall_impl; [exact Hs|]. intros w (l & Hw). apply span_end in Hw.
    rewrite length_app. simpl. lia.
  - intros _ b ->. apply wp_ret. split; [|apply length_ended]. apply (den_cstr text); [done|]. intros w l Hin Hw. by apply span_cstr.
Qed.

Lemma parsecmd_eq : parsecmd buf =
  match parseall buf es 0%nat with
  | Ok (p, s) => if Nat.eqb s es then (nulterminate p;; mret p) buf else Panic "syntax"
  | Panic e => Panic e
  | Sleep e => Sleep e
  | UB w => UB w
  | NoFuel => NoFuel
  end.
Proof using Hz.
  unfold parsecmd. unfold mbind at 1, K_bind, gets, id. rewrite strlen_app by done.
  unfold mbind at 1, K_bind. destruct (parseall buf es 0%nat) as [[p s]| | | |]; [|done..]. by destruct (Nat.eqb s es).
Qed.

Lemma parsecmd_ends toks : spells toks text →
  ends parsecmd (λ p b, gline toks (cmd_map (cstr b) p) ∧ length b = length buf) buf.
Proof using Hz.
  intros Ht. assert (left_at text 0 toks) as H0 by (split; [lia|by rewrite drop_0]).
  assert (ends (parseall buf es)
    (λ p s', ∃ t rest c, toks = t ++ rest ∧ gline t c ∧ den text p c ∧ (s' = es ↔ rest = [])) 0%nat) as H.
  { eapply ends_seq; [apply parse_sound; [done|done|]|].
    - apply left_length in H0. unfold depth. lia.
    - intros p s (t & rest & c & -> & Hg & Hd & H1). eapply ends_wp_seq; [by apply peek_end|]. intros b s' Hs'.
      apply ends_ret. by exists t, rest, c. }
  unfold ends in *. rewrite parsecmd_eq. destruct (parseall buf es 0%nat) as [[p s]| | | |]; try done.
  destruct H as (t & rest & c & -> & Hg & Hd & Hs). destruct (Nat.eqb_spec s es) as [E|]; [|done].
  apply Hs in E as ->. rewrite app_nil_r. pose proof (finish_spec p c Hd) as Hf. unfold wp in Hf.
  destruct ((nulterminate p;; mret p) buf) as [[p' b]| | | |]; try done. by destruct Hf as [-> ?].
Qed.

Lemma parsecmd_wp toks c : spells toks text → gline toks c →
  wp parsecmd (λ p b, cmd_map (cstr b) p = c) buf.
Proof using Hz.
  intros Ht Hg. assert (left_at text 0 (toks ++ [])) as H0 by (rewrite app_nil_r; split; [lia|by rewrite drop_0]).
  assert (wp (parseall buf es) (λ p s', den text p c ∧ s' = es) 0%nat) as H.
  { eapply wp_seq; [eapply parse_complete; [done|exact Hg|done|by left|]|].
    - apply left_length in H0. rewrite length_app in H0. unfold depth. lia.
    - intros p s [Hd H1]. eapply wp_seq; [by apply peek_end|]. intros b s' Hs'. apply wp_ret. split; [done|by apply Hs']. }
  unfold wp in H |- *. rewrite parsecmd_eq. destruct (parseall buf es 0%nat) as [[p s]| | | |]; try done. destruct H as [Hd ->].
  rewrite Nat.eqb_refl. eapply wp_mono; [exact (finish_spec p c Hd)|]. by intros p' b [? _].
Qed.
End parsecmd.

(** C7. The shell parses its grammar.  For a line without zero bytes [parsecmd]
    returns a command exactly when the line, with white space between its
    tokens as it may be, is a line of the grammar; the command is the one of
    the grammar, its arguments and file names being the words of the line,
    ended in place. *)
Theorem parsecmd_correct text junk c : Forall (λ x, x ≠ 0) text →
  (∃ p b, parsecmd (text ++ 0 :: junk) = Ok (p, b) ∧ cmd_map (cstr b) p = c) ↔
  (∃ toks, spells toks text ∧ gline toks c).
Proof.
  intros Hz. split.
  - intros (p & b & E & <-). destruct (spells_exists text) as [toks Ht]. exists toks. split; [done|].
    pose proof (parsecmd_ends text junk Hz toks Ht) as H. unfold ends in H. rewrite E in H. apply H.
  - intros (toks & Ht & Hg). by apply wp_ok, (parsecmd_wp text junk Hz toks).
Qed.

(** The parser always ends.  On every line without zero bytes [parsecmd]
    returns a command or exits with a message: the loops and the recursion,
    four calls deep for a token, end, and nothing outside the buffer is
    written. *)
Theorem parsecmd_terminates text junk : Forall (λ x, x ≠ 0) text →
  match parsecmd (text ++ 0 :: junk) with
  | Ok (p, b) => length b = length (text ++ 0 :: junk)
  | Panic _ => True
  | _ => False
  end.
Proof.
  intros Hz. destruct (spells_exists text) as [toks Ht].
  pose proof (parsecmd_ends text junk Hz toks Ht) as H. unfold ends in H.
  destruct (parsecmd _) as [[p b]| | | |]; [apply H|done..].
Qed.

(** The line a|b: a pipe of the commands a and b. *)
Lemma parsecmd_correct_witness :
  ∃ toks, spells toks [97; 124; 98; 10] ∧ gline toks (PIPE (EXEC [[97]]) (EXEC [[98]])).
Proof.
  apply (parsecmd_correct [97; 124; 98; 10] []); [by repeat constructor|]. eexists _, _. split; vm_compute; reflexivity.
Defined.
Lemma parsecmd_terminates_witness :
  match parsecmd [97; 40; 10; 0] with Ok (p, b) => length b = 4%nat | Panic _ => True | _ => False end.
Proof. apply (parsecmd_terminates [97; 40; 10] []). by repeat constructor. Defined.
