(* ===== verification/ShRun.v ===== *)
(** * The processes of a command line ([runcmd] of [user/sh.c])

    Descriptors as the kernel gives them out, the programs a command executes,
    and that they have the standard descriptors the command says and no
    others. *)

From S2P Require Import Prelude Param Sysfile Uprog Sh ShLex ShParse.

(** ** Descriptors

    What a descriptor refers to.  A pipe is named after the process that makes
    it: the process by the numbers of the calls of [fork] that led to it, the
    pipe by the number of the call. *)
Abbreviation pipe_id := (list nat * nat)%type.
Inductive desc :=
  | Inherited (name : Z)
  | File (path : list Z) (mode : Z)
  | ReadEnd (p : pipe_id)
  | WriteEnd (p : pipe_id).
Abbreviation fds := (list (option desc)).

(** A process with the three standard descriptors and no others. *)
Definition std (i o e : desc) : fds := [Some i; Some o; Some e] ++ replicate (Z.to_nat NOFILE - 3) None.

Definition close_fd (fd : Z) (f : fds) : fds := <[Z.to_nat fd := None]> f.

(** The loop at the start of [main]: the console is opened until a descriptor
    above 2 is given out, which is closed again. *)
Fixpoint open_console (fuel : nat) (console : desc) (f : fds) : fds :=
  match fuel with
  | O => f
  | S fuel =>
      match free_fd f 0 with
      | None => f
      | Some fd => if (3 <=? fd)%nat then f else open_console fuel console (<[fd := Some console]> f)
      end
  end.

(** ** Runs

    [execs p f id n l b]: process [id], which has made [n] calls of [fork] and
    [pipe] before, runs [p] with the descriptors [f]; [l] are the programs that
    it and its children execute, with their descriptors; [b] tells whether
    [open], [pipe] or [fork] have failed.  The kernel gives out the lowest free
    descriptor ([free_fd] of [Sysfile]). *)
Inductive execs : prog → fds → list nat → nat → list (list (list Z) * fds) → bool → Prop :=
  | execs_exit st f id n : execs (Exit st) f id n [] false
  | execs_exec a k f id n : execs (Exec a k) f id n [(a, f)] false
  | execs_exec_fail a k f id n l b : execs k f id n l b → execs (Exec a k) f id n ((a, f) :: l) b
  | execs_open path mode k f id n fd l b :
      free_fd f 0 = Some fd → execs (k (Z.of_nat fd)) (<[fd := Some (File path mode)]> f) id n l b →
      execs (Open path mode k) f id n l b
  | execs_open_fail path mode k f id n l b :
      execs (k (-1)) f id n l b → execs (Open path mode k) f id n l true
  | execs_close fd k f id n l b : execs k (close_fd fd f) id n l b → execs (Close fd k) f id n l b
  | execs_dup fd k f id n d fd' l b :
      f !! Z.to_nat fd = Some (Some d) → free_fd f 0 = Some fd' →
      execs k (<[fd' := Some d]> f) id n l b → execs (Dup fd k) f id n l b
  | execs_pipe k f id n fd0 fd1 l b :
      free_fd f 0 = Some fd0 →
      free_fd (<[fd0 := Some (ReadEnd (id, n))]> f) 0 = Some fd1 →
      execs (k 0 (Z.of_nat fd0) (Z.of_nat fd1))
        (<[fd1 := Some (WriteEnd (id, n))]> (<[fd0 := Some (ReadEnd (id, n))]> f)) id (S n) l b →
      execs (Pipe k) f id n l b
  | execs_pipe_fail k f id n x y l b : execs (k (-1) x y) f id (S n) l b → execs (Pipe k) f id n l true
  | execs_fork k f id n pid l l' b b' :
      0 < pid → execs (k 0) f (id ++ [n]) 0 l b → execs (k pid) f id (S n) l' b' →
      execs (Fork k) f id n (l ++ l') (b || b')
  | execs_fork_fail k f id n l b : execs (k (-1)) f id n l b → execs (Fork k) f id n l true
  | execs_wait k f id n l b : execs k f id n l b → execs (Wait k) f id n l b
  | execs_print m a k f id n l b : execs k f id n l b → execs (Print m a k) f id n l b.

(** ** What a command means

    The programs with their standard input and output. *)
Fixpoint plumb (c : cmd (list Z)) (i o : desc) (id : list nat) (n : nat) : list (list (list Z) * (desc * desc)) :=
  match c with
  | EXEC [] => []
  | EXEC argv => [(argv, (i, o))]
  | REDIR c file mode fd => if fd =? 0 then plumb c (File file mode) o id n else plumb c i (File file mode) id n
  | LIST l r => plumb l i o (id ++ [n]) 0 ++ plumb r i o id (S n)
  | PIPE l r => plumb l i (WriteEnd (id, n)) (id ++ [S n]) 0 ++ plumb r (ReadEnd (id, n)) o (id ++ [S (S n)]) 0
  | BACK c => plumb c i o (id ++ [n]) 0
  end.

(** Redirections are of descriptor 0 or 1, as the parser makes them. *)
Fixpoint redirs_ok {W} (c : cmd W) : Prop :=
  match c with
  | EXEC _ => True
  | REDIR c _ _ fd => (fd = 0 ∨ fd = 1) ∧ redirs_ok c
  | LIST l r | PIPE l r => redirs_ok l ∧ redirs_ok r
  | BACK c => redirs_ok c
  end.

(** A program with three descriptors. *)
Definition with_std (e : desc) (x : list (list Z) * (desc * desc)) : list (list Z) * fds := (x.1, std x.2.1 x.2.2 e).

(** A run for a command: without failures all of its programs, in any case no
    others. *)
Definition plumbed (c : cmd (list Z)) (i o e : desc) (id : list nat) (n : nat) (l : list (list (list Z) * fds)) (b : bool) : Prop :=
  l `sublist_of` (with_std e <$> plumb c i o id n) ∧ (b = false → l = with_std e <$> plumb c i o id n).

(** After the loop the shell has its three descriptors; four rounds are enough,
    and the others are as before. *)
Lemma open_console_std console x y z f :
  ∃ i o e, open_console 4 console (x :: y :: z :: f) = Some i :: Some o :: Some e :: f.
Proof.
  assert (∀ g : fds, ∀ n, (3 ≤ n)%nat → match free_fd g n with Some k => (3 <=? k)%nat = true | None => True end) as Hf.
  { induction g as [|[d|] g IH]; intros n Hn; simpl; [done|apply IH; lia|by destruct n as [|[|[|n]]]; try lia]. }
  specialize (Hf f 3%nat ltac:(lia)).
  destruct x as [a|], y as [b|], z as [c|]; simpl; destruct (free_fd f 3) as [[|[|[|m]]]|]; try done; by eexists _, _, _.
Qed.

(** ** Runs of the pieces of [runcmd] *)
Lemma execs_panic m f id n l b : execs (sh_panic m) f id n l b → l = [].
Proof. intros H. inv H as [| | | | | | | | | | | |? ? ? ? ? ? ? ? H']. by inv H'. Qed.
Lemma fork1_inv child parent f id n l b : execs (fork1 child parent) f id n l b →
  (l = [] ∧ b = true) ∨
  ∃ l1 l2 b1 b2, l = l1 ++ l2 ∧ b = b1 || b2 ∧ execs child f (id ++ [n]) 0 l1 b1 ∧ execs parent f id (S n) l2 b2.
Proof.
  intros H. inv H as [| | | | | | | | |? ? ? ? pid l1 l2 b1 b2 Hp H1 H2|? ? ? ? ? ? H1| |].
  - right. exists l1, l2, b1, b2. rewrite (proj2 (Z.eqb_neq pid (-1))), (proj2 (Z.eqb_neq pid 0)) in H2 by lia. done.
  - left. simpl in H1. split; [by eapply execs_panic|done].
Qed.

(** Both ends of a pipe on top of the standard descriptors. *)
Definition piped (i o e : desc) (p : pipe_id) : fds :=
  <[4%nat := Some (WriteEnd p)]> (<[3%nat := Some (ReadEnd p)]> (std i o e)).
Lemma left_fds i o e p l b id n k :
  execs (Close 1 (Dup 4 (Close 3 (Close 4 k)))) (piped i o e p) id n l b → execs k (std i (WriteEnd p) e) id n l b.
Proof.
  intros H. inv H as [| | | | |? ? ? ? ? ? ? H'| | | | | | |]. inv H' as [| | | | | |? ? ? ? ? d fd ? ? Hd Hf H| | | | | |].
  injection Hd as <-. injection Hf as <-. inv H as [| | | | |? ? ? ? ? ? ? H'| | | | | | |].
  by inv H' as [| | | | |? ? ? ? ? ? ? H| | | | | | |].
Qed.
Lemma right_fds i o e p l b id n k :
  execs (Close 0 (Dup 3 (Close 3 (Close 4 k)))) (piped i o e p) id n l b → execs k (std (ReadEnd p) o e) id n l b.
Proof.
  intros H. inv H as [| | | | |? ? ? ? ? ? ? H'| | | | | | |]. inv H' as [| | | | | |? ? ? ? ? d fd ? ? Hd Hf H| | | | | |].
  injection Hd as <-. injection Hf as <-. inv H as [| | | | |? ? ? ? ? ? ? H'| | | | | | |].
  by inv H' as [| | | | |? ? ? ? ? ? ? H| | | | | | |].
Qed.
Lemma rest_fds f l b id n : execs (Close 3 (Close 4 (Wait (Wait (Exit 0))))) f id n l b → l = [] ∧ b = false.
Proof.
  intros H. inv H as [| | | | |? ? ? ? ? ? ? H'| | | | | | |]. inv H' as [| | | | |? ? ? ? ? ? ? H| | | | | | |].
  inv H as [| | | | | | | | | | |? ? ? ? ? ? H'|]. inv H' as [| | | | | | | | | | |? ? ? ? ? ? H|]. by inv H.
Qed.

Lemma plumbed_nil c i o e id n : plumbed c i o e id n [] true.
Proof. split; [apply sublist_nil_l|done]. Qed.
Lemma plumbed_all c i o e id n b : plumbed c i o e id n (with_std e <$> plumb c i o id n) b.
Proof. done. Qed.
(** Two parts of a command. *)
Lemma plumbed_app c c1 c2 i o e id n i1 o1 id1 n1 i2 o2 id2 n2 l1 l2 b1 b2 :
  plumb c i o id n = plumb c1 i1 o1 id1 n1 ++ plumb c2 i2 o2 id2 n2 →
  plumbed c1 i1 o1 e id1 n1 l1 b1 → plumbed c2 i2 o2 e id2 n2 l2 b2 → plumbed c i o e id n (l1 ++ l2) (b1 || b2).
Proof.
  intros E [S1 E1] [S2 E2]. unfold plumbed. rewrite E, fmap_app. split; [by apply sublist_app|].
  intros [-> ->]%orb_false_iff. by rewrite E1, E2.
Qed.

Lemma plumbing c : redirs_ok c → ∀ i o e id n l b, execs (runcmd c) (std i o e) id n l b → plumbed c i o e id n l b.
Proof.
  induction c as [argv|c IH file mode fd|c1 IH1 c2 IH2|c1 IH1 c2 IH2|c IH]; intros Hok i o e id n l b H; simpl in H.
  - destruct argv as [|a argv]; [inv H; by apply plumbed_all|].
    inv H as [|? ? ? ? ? |? ? ? ? ? ? ? H'| | | | | | | | | |]; [by apply plumbed_all|].
    inv H' as [| | | | | | | | | | | |? ? ? ? ? ? ? ? H]. inv H. by apply plumbed_all.
  - destruct Hok as [Hfd Hok]. inv H as [| | | | |? ? ? ? ? ? ? H'| | | | | | |].
    inv H' as [| | |? ? ? ? ? ? fd' ? ? Hf H|? ? ? ? ? ? ? ? H| | | | | | | |].
    + destruct Hfd as [-> | ->]; injection Hf as <-; simpl in H; by apply IH in H.
    + simpl in H. inv H as [| | | | | | | | | | | |? ? ? ? ? ? ? ? H']. inv H'. apply plumbed_nil.
  - destruct Hok as [Hok1 Hok2].
    inv H as [| | | | | | |? ? ? ? fd0 fd1 ? ? Hf0 Hf1 Hk|? ? ? ? ? ? ? ? Hk| | | |].
    + injection Hf0 as <-. injection Hf1 as <-. simpl in Hk.
      apply fork1_inv in Hk as [[-> ->]|(l1 & l2 & b1 & b2 & -> & -> & H1 & H2)]; [apply plumbed_nil|].
      apply left_fds, IH1 in H1; [|done].
      apply fork1_inv in H2 as [[-> ->]|(l3 & l4 & b3 & b4 & -> & -> & H3 & H4)].
      * split; [|by destruct b1]. rewrite app_nil_r. simpl. rewrite fmap_app. apply sublist_inserts_r, H1.
      * apply right_fds, IH2 in H3; [|done]. apply rest_fds in H4 as [-> ->].
        rewrite app_nil_r, orb_false_r. by eapply plumbed_app.
    + simpl in Hk. apply execs_panic in Hk as ->. apply plumbed_nil.
  - destruct Hok as [Hok1 Hok2].
    apply fork1_inv in H as [[-> ->]|(l1 & l2 & b1 & b2 & -> & -> & H1 & H2)]; [apply plumbed_nil|].
    inv H2 as [| | | | | | | | | | |? ? ? ? ? ? H|]. eapply plumbed_app; [done|by apply IH1|by apply IH2].
  - apply fork1_inv in H as [[-> ->]|(l1 & l2 & b1 & b2 & -> & -> & H1 & H2)]; [apply plumbed_nil|].
    inv H2. rewrite app_nil_r, orb_false_r. by apply IH.
Qed.

(** ** From the line to its processes *)
Lemma items_redirs_ok t a rs c : items t a rs → redirs_ok c → redirs_ok (redirected c rs).
Proof.
  intros Hi. revert c. induction Hi as [|w t a rs _ IH|op m w t a rs Hop _ IH]; intros c Hc; [done|by apply IH|].
  apply IH. split; [|done]. destruct op as [w'|x|]; simpl in Hop; [done| |by simplify_eq; right].
  destruct (x =? LT); [simplify_eq; by left|]. destruct (x =? GT); [simplify_eq; by right|done].
Qed.
Lemma iter_back_ok n c : redirs_ok c → redirs_ok (Nat.iter n (BACK (W := list Z)) c).
Proof. intros Hc. by induction n. Qed.

Scheme gline_mind := Induction for gline Sort Prop
  with gpipe_mind := Induction for gpipe Sort Prop
  with gexec_mind := Induction for gexec Sort Prop.
Lemma gline_redirs_ok toks c : gline toks c → redirs_ok c.
Proof.
  intros H. induction H using gline_mind with
    (P0 := λ _ c _, redirs_ok c) (P1 := λ _ c _, redirs_ok c); simpl; auto using iter_back_ok.
  - by eapply items_redirs_ok.
  - by eapply items_redirs_ok.
Qed.

(** C19. A command line runs as its text says.  When the shell runs a line of the
    grammar, the programs executed are those of the line, each with exactly
    three descriptors: the input and output that the pipes and redirections
    of the line give it, and the error output of the shell.  No process keeps
    an end of a pipe it does not use.  Failures of [fork], [pipe] and [open]
    can only leave programs out. *)
Theorem line_plumbing text junk toks c p i o e l b :
  Forall (λ x, x ≠ 0) text → spells toks text → gline toks c →
  do_line (text ++ 0 :: junk) = Some (Run p) → execs p (std i o e) [] 0 l b →
  l `sublist_of` (with_std e <$> plumb c i o [] 0) ∧ (b = false → l = with_std e <$> plumb c i o [] 0).
Proof.
  intros Hz Ht Hg Hl Hx. apply plumbing; [by eapply gline_redirs_ok|].
  destruct (proj1 (wp_ok _ _ _) (parsecmd_wp text junk Hz toks c Ht Hg)) as (q & bb & E & Hq).
  unfold do_line in Hl. rewrite E, Hq in Hl. case_match; [by destruct (strlen _)|]. by injection Hl as <-.
Qed.

(** The line a|b >f; the two programs, connected, the second writing to the file. *)
Lemma line_plumbing_witness : ∃ l,
  l = [([[97]], std (Inherited 0) (WriteEnd ([], 0%nat)) (Inherited 2));
       ([[98]], std (ReadEnd ([], 0%nat)) (File [102] 1537) (Inherited 2))] ∧
  l `sublist_of` (with_std (Inherited 2) <$>
    plumb (PIPE (EXEC [[97]]) (REDIR (EXEC [[98]]) [102] 1537 1)) (Inherited 0) (Inherited 1) [] 0).
Proof.
  eexists. split; [reflexivity|].
  eapply (line_plumbing [97; 124; 98; 62; 102; 10] [] [Word [97]; Sym BAR; Word [98]; Sym GT; Word [102]] _ _ _ _ _ _ false).
  - by repeat constructor.
  - apply (spells_token [] (Word [97]) [124; 98; 62; 102; 10]); [constructor|by split; [|repeat constructor]|done|].
    apply (spells_token [] (Sym 124) [98; 62; 102; 10]); [constructor|by apply strchr_spec|done|].
    apply (spells_token [] (Word [98]) [62; 102; 10]); [constructor|by split; [|repeat constructor]|done|].
    apply (spells_token [] (Sym 62) [102; 10]); [constructor|by apply strchr_spec|done|].
    apply (spells_token [] (Word [102]) [10]); [constructor|by split; [|repeat constructor]|done|].
    by repeat constructor.
  - apply (gl_end [Word [97]; Sym BAR; Word [98]; Sym GT; Word [102]] (PIPE _ _) 0), (gp_pipe [Word [97]]).
    + apply (ge_simple [Word [97]] [[97]] []); [by repeat constructor|done].
    + apply gp_one, (ge_simple [Word [98]; Sym GT; Word [102]] [[98]] [((1537, 1), [102])]); [by repeat constructor|done].
  - vm_compute. reflexivity.
  - simpl. eapply execs_pipe; [reflexivity|reflexivity|].
    apply (execs_fork _ _ _ _ 2 [_] [_] false false); [done| |].
    + apply execs_close. eapply execs_dup; [reflexivity|reflexivity|]. do 2 apply execs_close. apply execs_exec.
    + apply (execs_fork _ _ _ _ 3 [_] [] false false); [done| |repeat constructor].
      apply execs_close. eapply execs_dup; [reflexivity|reflexivity|]. do 3 apply execs_close.
      eapply execs_open; [reflexivity|]. apply execs_exec.
Defined.
