(* ===== verification/Utils.v ===== *)
(** * Small utilities ([user/sleep.c], [user/xargs.c], [user/pingpong.c])

    The programs as trees of system calls, the line buffer of [xargs], and the
    two processes of [pingpong] under every interleaving. *)

From S2P Require Import Prelude Str Uprog.

Lemma until_zero_end l : until_zero (l ++ [0]) = until_zero l.
Proof. induction l as [|c l IH]; simpl; [done|]. destruct (c =? 0); [done|by rewrite IH]. Qed.

(** ** [sleep]: [ticks] is what [atoi] returns for the argument *)
Module Sleep.
Definition main (argc ticks : Z) : prog :=
  if negb (argc =? 2) then Exit 1
  else if ticks <=? 0 then Print "Invalid argument: Please specify a positive number of ticks." [] (Exit 1)
  else SleepFor ticks (Exit 0).
End Sleep.

(** ** [xargs] *)
Module Xargs.
(** What a call [read(0, &buffer, 1)] does: a byte, the end of the input, or -1. *)
Inductive rd := Got (c : Z) | Eof | Err.
Definition NL : Z := 10.
Definition sizeof_line : nat := 200.

(** [line[cnt_line++] = buffer] *)
Definition put (l : list Z) (c : Z) : K nat (list Z) :=
  if decide (length l < sizeof_line)%nat then mret (l ++ [c]) else undefined "line".

(** The loop over the input; the state counts the calls of [read].  [read]
    returning -1 goes on with the byte [buffer] has; the line buffer bounds the
    number of rounds. *)
Definition read_line (reads : nat → rd) (buffer : Z) : K nat (list Z) :=
  while_loop (sizeof_line + 2) ([], buffer) (λ '(l, buffer),
    k ← gets id;
    modify S;;
    match reads k with
    | Eof => mret (inr l)
    | r =>
        let buffer := match r with Got c => c | _ => buffer end in
        if negb (buffer =? NL) then l ← put l buffer; mret (inl (l, buffer))
        else mret (inr l)
    end).

(** [line[cnt_line] = 0] has to be in the buffer as well. *)
Definition main (argv : list (list Z)) (reads : nat → rd) (buffer : Z) : res prog :=
  match argv with
  | _ :: a1 :: a2 :: _ =>
      match (l ← read_line reads buffer; put l 0) 0%nat with
      | Ok (line, _) =>
          Ok (Fork (λ pid,
                if pid <? 0 then Out "Fork failed" [] (Exit 1)
                else if pid =? 0 then Exec [a1; a2; until_zero line] (Out "exec failed" [] (Exit 1))
                else Wait (Exit 0)))
      | Panic e => Panic e
      | Sleep e => Sleep e
      | UB w => UB w
      | NoFuel => NoFuel
      end
  | _ => Ok (Exit 1)
  end.

(** The input has the bytes [l] and then the end of the line or of the file. *)
Definition input (reads : nat → rd) (l : list Z) : Prop :=
  (∀ k c, l !! k = Some c → reads k = Got c ∧ c ≠ NL) ∧ (reads (length l) = Got NL ∨ reads (length l) = Eof).

Lemma read_line_spec reads l b : input reads l →
  read_line reads b 0%nat =
    if decide (length l ≤ sizeof_line)%nat then Ok (l, S (length l)) else UB "line".
Proof.
  intros [Hl He]. unfold read_line.
  assert (∀ m n pre b, (pre + n = length l)%nat → (n < m)%nat ∨ (sizeof_line - pre + 1 < m)%nat → (pre ≤ sizeof_line)%nat →
    while_loop m (take pre l, b) (λ '(l, buffer),
      k ← gets id;
      modify S;;
      match reads k with
      | Eof => mret (inr l)
      | r => let buffer := match r with Got c => c | _ => buffer end in
             if negb (buffer =? NL) then l ← put l buffer; mret (inl (l, buffer)) else mret (inr l)
      end) pre = if decide (length l ≤ sizeof_line)%nat then Ok (l, S (length l)) else UB "line") as H.
  { induction m as [|m IH]; intros n pre b' Hn Hm Hp; [lia|]. simpl.
    unfold mbind, K_bind, gets, modify, id.
    destruct n as [|n].
    - rewrite decide_True by lia. replace pre with (length l) by lia. rewrite take_ge by lia.
      by destruct He as [-> | ->].
    - destruct (lookup_lt_is_Some_2 l pre ltac:(lia)) as [c Hc]. destruct (Hl _ _ Hc) as [-> Hn1].
      rewrite (proj2 (Z.eqb_neq c NL)) by done. simpl. unfold put. rewrite length_take_le by lia.
      destruct (decide (pre < sizeof_line)%nat); simpl.
      + rewrite <-(take_S_r _ _ _ Hc). apply (IH n); lia.
      + rewrite decide_False by lia. done. }
  apply (H _ (length l) 0%nat b); lia.
Qed.
End Xargs.

(** ** [pingpong]

    [buffer] is the byte that a process has read. *)
Module Pingpong.
Definition ping (p1 : Z) (k : prog) : prog :=
  Write p1 [97] (λ rs, if rs =? -1 then Print "write failed!!" [] (Exit 1) else k).
Definition pong (p0 : Z) (k : list Z → prog) : prog :=
  Read p0 1 (λ rs buffer,
    if rs =? -1 then Print "read failed!!" [] (Exit 1)
    else Getpid (λ pid, Out "%d: received ping" [pid] (k buffer))).

Definition pingpong : prog :=
  Pipe (λ r p0 p1,
    if r <? 0 then Print "pingpong: pipe failed!!" [] (Exit 1)
    else
      Fork (λ pid,
        if pid <? 0 then Print "pingpong: fork failed!!" [] (Exit 1)
        else if pid =? 0 then
          pong p0 (λ buffer,
            Write p1 buffer (λ _,
            Close p0 (Close p1 (Exit 0))))
        else
          ping p1
            (Wait
            (Read p0 1 (λ rs buffer,
              if rs =? -1 then Print "read failed!!" [] (Exit 1)
              else
                Getpid (λ pid, Out "%d: received pong" [pid]
                (Close p0 (Close p1 (Exit 0))))))))).
Definition main (argc : Z) : prog :=
  if argc <? 1 then Print "Usage: pingpong" [] (Exit 1) else pingpong.

(** ** Two processes and a pipe

    A process and whether it has the ends of the pipe open. *)
Record thread := Thread { code : prog; rend : bool; wend : bool }.
Record state := State {
  parent : thread;
  child : option thread;
  bytes_ : list Z;
  out : list (string * list Z);
}.
Definition FD0 : Z := 3.
Definition FD1 : Z := 4.

Section steps.
Context (ppid cpid : Z).

(** The process that moves, and the other one. *)
Definition me (c : bool) (s : state) : option thread := if c then child s else Some (parent s).
Definition other (c : bool) (s : state) : option thread := if c then Some (parent s) else child s.
Definition update (c : bool) (t : thread) (s : state) : state :=
  if c then State (parent s) (Some t) (bytes_ s) (out s) else State t (child s) (bytes_ s) (out s).
Definition has (f : thread → bool) (o : option thread) : bool := match o with Some t => f t | None => false end.
(** The child has ended, or there is none: [wait] returns. *)
Definition reaped (s : state) : bool :=
  match child s with None | Some (Thread (Exit _) false false) => true | _ => false end.

(** A system call of a process; [None] when it is blocked or has ended.  [exit]
    closes what is open.  There are two free files and a free process: [pipe] and
    [fork] succeed here, and the branches of the program for their failure are not
    taken. *)
Definition step1 (c : bool) (s : state) : option state :=
  match me c s with
  | None => None
  | Some (Thread p r w) =>
      match p with
      | Exit st => if r || w then Some (update c (Thread (Exit st) false false) s) else None
      | Pipe k => Some (update c (Thread (k 0 FD0 FD1) true true) s)
      | Fork k =>
          if c then None
          else Some (State (Thread (k cpid) r w) (Some (Thread (k 0) r w)) (bytes_ s) (out s))
      | Wait k => if c || reaped s then Some (update c (Thread k r w) s) else None
      | Close fd k =>
          Some (update c (Thread k (r && negb (fd =? FD0)) (w && negb (fd =? FD1))) s)
      | Out m a k =>
          let s := update c (Thread k r w) s in
          Some (State (parent s) (child s) (bytes_ s) (out s ++ [(m, a)]))
      | Print _ _ k => Some (update c (Thread k r w) s)
      | Getpid k => Some (update c (Thread (k (if c then cpid else ppid)) r w) s)
      | Write fd l k =>
          if negb (w && (fd =? FD1)) || negb (r || has rend (other c s)) then Some (update c (Thread (k (-1)) r w) s)
          else
            let s := update c (Thread (k (Z.of_nat (length l))) r w) s in
            Some (State (parent s) (child s) (bytes_ s ++ l) (out s))
      | Read fd n k =>
          if negb (r && (fd =? FD0)) then Some (update c (Thread (k (-1) []) r w) s)
          else
            match bytes_ s with
            | [] => if w || has wend (other c s) then None else Some (update c (Thread (k 0 []) r w) s)
            | bs =>
                let l := take (Z.to_nat n) bs in
                let s := update c (Thread (k (Z.of_nat (length l)) l) r w) s in
                Some (State (parent s) (child s) (drop (Z.to_nat n) bs) (out s))
            end
      | _ => None
      end
  end.

Definition succs (s : state) : list state := option_list (step1 false s) ++ option_list (step1 true s).
Definition step (s s' : state) : Prop := s' ∈ succs s.
Definition start (argc : Z) : state := State (Thread (main argc) false false) None [] [].

(** Both have ended and both bytes have been reported, in order. *)
Definition exchanged (s : state) : Prop :=
  out s = [("%d: received ping", [cpid]); ("%d: received pong", [ppid])] ∧
  code (parent s) = Exit 0 ∧ code <$> child s = Some (Exit 0).

(** Every run from [s] ends after less than [n] steps, in a state with [P]. *)
Fixpoint all_runs (P : state → Prop) (n : nat) (s : state) : Prop :=
  match n with
  | O => False
  | S n => match succs s with [] => P s | l => Forall (all_runs P n) l end
  end.
Lemma all_runs_reach P n s k s' : all_runs P n s → nsteps step k s s' → (k < n)%nat ∧ (succs s' = [] → P s').
Proof.
  intros Ha Hk. revert n Ha. induction Hk as [s|k s s1 s' Hs _ IH]; intros [|n] Ha; simpl in Ha; try done.
  - split; [lia|]. intros E. by rewrite E in Ha.
  - unfold step in Hs. destruct (succs s) as [|x l]; [by apply elem_of_nil in Hs|].
    rewrite Forall_forall in Ha. destruct (IH n (Ha _ Hs)) as [? ?]. split; [lia|done].
Qed.
End steps.
End Pingpong.

(** C39. One byte there and one byte back.  Whatever the order in which the two
    processes of [pingpong] run, both end after at most fifteen steps,
    with status 0: the child has reported the byte of the parent, and after it
    the parent the byte of the child. *)
Theorem pingpong_exchange (ppid cpid : positive) argc k s :
  1 ≤ argc → nsteps (Pingpong.step (Z.pos ppid) (Z.pos cpid)) k (Pingpong.start argc) s →
  (k ≤ 15)%nat ∧
  (Pingpong.succs (Z.pos ppid) (Z.pos cpid) s = [] → Pingpong.exchanged (Z.pos ppid) (Z.pos cpid) s).
Proof.
  intros Ha Hk. assert (Pingpong.main argc = Pingpong.pingpong) as E.
  { unfold Pingpong.main. by rewrite (proj2 (Z.ltb_ge argc 1)). }
  unfold Pingpong.start in Hk. rewrite E in Hk.
  assert ((k < 16)%nat ∧ (Pingpong.succs (Z.pos ppid) (Z.pos cpid) s = [] → Pingpong.exchanged (Z.pos ppid) (Z.pos cpid) s)) as [? ?];
    [|split; [lia|done]].
  eapply Pingpong.all_runs_reach; [|exact Hk]. vm_compute. repeat constructor.
Qed.

Lemma pingpong_first p c s x l : Pingpong.succs p c s = x :: l → Pingpong.step p c s x.
Proof. unfold Pingpong.step. intros ->. left. Qed.

Lemma pingpong_exchange_witness : ∃ s, nsteps (Pingpong.step 3 4) 15 (Pingpong.start 1) s ∧
  Pingpong.exchanged 3 4 s.
Proof.
  assert (∃ s, nsteps (Pingpong.step 3 4) 15 (Pingpong.start 1) s ∧ Pingpong.succs 3 4 s = []) as (s & Hk & Hs).
  { eexists. split; [do 15 (eapply nsteps_l; [eapply pingpong_first; vm_compute; reflexivity|]); apply nsteps_O|].
    vm_compute. reflexivity. }
  exists s. split; [exact Hk|]. by apply (pingpong_exchange 3 4 1 15 s ltac:(lia) Hk).
Defined.

(** [xargs] appends the first line of its input.  When the line fits the
    buffer of 200 bytes with its terminator, the child executes the first
    argument with the first two arguments and the line; a longer line is
    written past the end of the buffer. *)
Theorem xargs_line a0 a1 a2 more reads l b : Xargs.input reads l →
  Xargs.main (a0 :: a1 :: a2 :: more) reads b =
    if decide (length l < Xargs.sizeof_line)%nat then
      Ok (Fork (λ pid,
            if pid <? 0 then Out "Fork failed" [] (Exit 1)
            else if pid =? 0 then Exec [a1; a2; until_zero l] (Out "exec failed" [] (Exit 1))
            else Wait (Exit 0)))
    else UB "line".
Proof.
  intros Hi. unfold Xargs.main. unfold mbind, K_bind. rewrite (Xargs.read_line_spec _ _ _ Hi). unfold Xargs.put.
  destruct (decide (length l ≤ Xargs.sizeof_line)%nat).
  - destruct (decide (length l < Xargs.sizeof_line)%nat); [|done]. cbn. by rewrite until_zero_end.
  - by rewrite decide_False by lia.
Qed.

(** The line x, then the end of the input. *)
Lemma xargs_line_witness : ∃ p,
  Xargs.main [[0]; [101]; [98]] (λ k, match k with O => Xargs.Got 120 | _ => Xargs.Eof end) 0 = Ok (Fork p) ∧
  p 0 = Exec [[101]; [98]; [120]] (Out "exec failed" [] (Exit 1)).
Proof.
  eexists. split; [rewrite (xargs_line _ _ _ _ _ [120]); [reflexivity|]|reflexivity]. split; [|by right].
  intros [|k] c; simpl; [|done]. intros [= <-]. done.
Defined.
