(* ===== verification/ProcInv.v ===== *)
(** * The process table under interleaving

    The sections of [Proc] as steps that any processes take in any order, and
    the invariant of the table: process identifiers are unique, every child
    has a living parent, and a process asleep in [wait] has a child and no
    zombie to collect. *)

From S2P Require Import Prelude Word Param Str Kalloc Vm Fs File Proc.

Definition live (x : proc) : Prop :=
  p_state x = SLEEPING ∨ p_state x = RUNNABLE ∨ p_state x = RUNNING.
Definition awake (x : proc) : Prop := p_state x = RUNNABLE ∨ p_state x = RUNNING.

(** ** The invariant

    [pend] says which process is in the middle of [fork], and with which
    child.  [ex] is a process that is about to be woken: it may still be
    asleep although it has a zombie child. *)
Record PInv (pend : gmap nat nat) (ex init : option nat) (np : Z) (t : list proc) : Prop := {
  pi_len : length t = Z.to_nat NPROC;
  pi_next : 1 ≤ np;
  pi_booted : init ≠ None;
  pi_unused : ∀ i x, t !! i = Some x → p_state x = UNUSED → p_pid x = 0 ∧ p_parent x = None;
  pi_pid : ∀ i x, t !! i = Some x → p_state x ≠ UNUSED → 1 ≤ p_pid x < np;
  pi_inj : ∀ i j x y, t !! i = Some x → t !! j = Some y → p_state x ≠ UNUSED →
    p_pid x = p_pid y → i = j;
  pi_parent : ∀ i x q, t !! i = Some x → p_parent x = Some q →
    q ≠ i ∧ ∃ y, t !! q = Some y ∧ live y;
  pi_orphan : ∀ i x, t !! i = Some x → p_state x ≠ UNUSED → p_parent x = None →
    init = Some i ∨ p_state x = USED;
  pi_init : ∀ i, init = Some i → ∃ x, t !! i = Some x ∧ live x ∧ p_parent x = None;
  pi_sleep : ∀ i x, t !! i = Some x → p_state x = SLEEPING → p_chan x = ChanProc i →
    (∃ j y, t !! j = Some y ∧ p_parent y = Some i) ∧
    (ex ≠ Some i → ∀ j y, t !! j = Some y → p_parent y = Some i → p_state y ≠ ZOMBIE);
  pi_pend : ∀ p q, pend !! p = Some q →
    (∃ x, t !! p = Some x ∧ awake x) ∧
    ∃ y, t !! q = Some y ∧ p_state y = USED ∧ (p_parent y = None ∨ p_parent y = Some p);
  pi_used : ∀ i x, t !! i = Some x → p_state x = USED → ∃ p, pend !! p = Some i;
  pi_pinj : ∀ p p' q, pend !! p = Some q → pend !! p' = Some q → p = p';
}.

(** ** Changes that do not matter to the invariant *)
Definition calm (x x' : proc) : Prop :=
  p_pid x' = p_pid x ∧ p_parent x' = p_parent x ∧
  (p_state x' = p_state x ∧ (p_chan x' = p_chan x ∨ p_state x ≠ SLEEPING) ∨ live x ∧ awake x').

Lemma calm_live x x' : calm x x' → (live x' ↔ live x).
Proof. unfold calm, live, awake. intuition congruence. Qed.
Lemma calm_state x x' st : calm x x' → st ≠ RUNNABLE → st ≠ RUNNING → p_state x' = st → p_state x = st.
Proof. unfold calm, live, awake. intuition congruence. Qed.
Lemma calm_state' x x' st : calm x x' → ¬ live x → p_state x = st → p_state x' = st.
Proof. unfold calm, live, awake. intuition congruence. Qed.
Lemma calm_awake x x' : calm x x' → awake x → awake x'.
Proof. unfold calm, live, awake. intuition congruence. Qed.
Lemma calm_sleeping x x' : calm x x' → p_state x' = SLEEPING → p_state x = SLEEPING ∧ p_chan x' = p_chan x.
Proof. unfold calm, live, awake. intuition congruence. Qed.

#[global] Instance calm_preorder : PreOrder calm.
Proof. split; [intros x|intros x y z]; unfold calm, live, awake; intuition congruence. Qed.

Lemma calm_lookup t t' i x' : Forall2 calm t t' → t' !! i = Some x' → ∃ x, t !! i = Some x ∧ calm x x'.
Proof. intros H Hi. by eapply Forall2_lookup_r in H. Qed.
Lemma calm_lookup' t t' i x : Forall2 calm t t' → t !! i = Some x → ∃ x', t' !! i = Some x' ∧ calm x x'.
Proof. intros H Hi. by eapply Forall2_lookup_l in H. Qed.

Lemma calm_pend t t' p q x y :
  Forall2 calm t t' → t !! p = Some x → awake x →
  t !! q = Some y → p_state y = USED → (p_parent y = None ∨ p_parent y = Some p) →
  (∃ x, t' !! p = Some x ∧ awake x) ∧
  ∃ y, t' !! q = Some y ∧ p_state y = USED ∧ (p_parent y = None ∨ p_parent y = Some p).
Proof.
  intros HF Hx Hax Hy Hu Hp.
  destruct (calm_lookup' _ _ _ _ HF Hx) as (x' & Hx' & Cx).
  destruct (calm_lookup' _ _ _ _ HF Hy) as (y' & Hy' & Cy). split.
  - exists x'. eauto using calm_awake.
  - exists y'. split_and!; [done| |destruct Cy as (_ & -> & _); done].
    apply (calm_state' _ _ _ Cy); [|done]. unfold live. rewrite Hu. naive_solver.
Qed.

Lemma PInv_calm pend ex init np t t' : PInv pend ex init np t → Forall2 calm t t' → PInv pend ex init np t'.
Proof.
  intros [] HF.
  assert (∀ i x', t' !! i = Some x' → ∃ x, t !! i = Some x ∧ calm x x') as HL
    by (intros; by eapply calm_lookup).
  assert (∀ i x, t !! i = Some x → ∃ x', t' !! i = Some x' ∧ calm x x') as HL'
    by (intros; by eapply calm_lookup').
  split; try done.
  - by rewrite <-(Forall2_length _ _ _ HF).
  - intros i x' (x & Hx & C)%HL Hs. destruct (pi_unused0 i x Hx); [by eapply calm_state|].
    destruct C as (-> & -> & _). done.
  - intros i x' (x & Hx & C)%HL Hs. destruct (C) as (-> & _). apply (pi_pid0 i x Hx).
    intros E. apply Hs. apply (calm_state' _ _ _ C); [|done]. unfold live. intuition congruence.
  - intros i j x' y' (x & Hx & C)%HL (y & Hy & C')%HL Hs E. destruct (C) as (Ep & _).
    destruct (C') as (Ep' & _). apply (pi_inj0 i j x y Hx Hy); [|congruence].
    intros E'. apply Hs. apply (calm_state' _ _ _ C); [|done]. unfold live. intuition congruence.
  - intros i x' q (x & Hx & C)%HL Hq. destruct (C) as (_ & Ep & _). rewrite Ep in Hq.
    destruct (pi_parent0 i x q Hx Hq) as (? & y & Hy & Hl). split; [done|].
    destruct (HL' _ _ Hy) as (y' & Hy' & Cy). exists y'. by rewrite (calm_live _ _ Cy).
  - intros i x' (x & Hx & C)%HL Hs Hq. destruct (C) as (_ & Ep & _). rewrite Ep in Hq.
    destruct (pi_orphan0 i x Hx) as [?|Hu]; [|done|by left|right].
    + intros E'. apply Hs. apply (calm_state' _ _ _ C); [|done]. unfold live. intuition congruence.
    + apply (calm_state' _ _ _ C); [|done]. unfold live. intuition congruence.
  - intros i Hi. destruct (pi_init0 i Hi) as (x & Hx & Hl & Hp). destruct (HL' _ _ Hx) as (x' & Hx' & C).
    exists x'. rewrite (calm_live _ _ C). destruct C as (_ & -> & _). done.
  - intros i x' (x & Hx & C)%HL Hs Hc. destruct (calm_sleeping _ _ C Hs) as [Hs' Ec]. rewrite Ec in Hc.
    destruct (pi_sleep0 i x Hx Hs' Hc) as ((j & y & Hy & Hp) & Hz). split.
    + destruct (HL' _ _ Hy) as (y' & Hy' & Cy). exists j, y'. destruct Cy as (_ & -> & _). done.
    + intros He k z' (z & Hz' & Cz)%HL Hpz Ez. destruct (Cz) as (_ & Epz & _). rewrite Epz in Hpz.
      apply (Hz He k z Hz' Hpz). by eapply calm_state.
  - intros p q Hpq. destruct (pi_pend0 p q Hpq) as ((x & Hx & Hax) & y & Hy & Hu & Hp).
    by eapply calm_pend.
  - intros i x' (x & Hx & C)%HL Hs. apply (pi_used0 i x Hx). by eapply calm_state.
Qed.

(** ** Changing one entry *)

(** A process that sleeps in [wait]. *)
Definition waiting (t : list proc) (i : nat) : Prop :=
  ∃ x, t !! i = Some x ∧ p_state x = SLEEPING ∧ p_chan x = ChanProc i.

(** What has to be checked when entry [q] changes from [y] to [y']. *)
Record change (pend pend' : gmap nat nat) (ex' init : option nat) (np np' : Z) (t : list proc)
    (q : nat) (y y' : proc) : Prop := {
  ch_next : np ≤ np';
  ch_unused : p_state y' = UNUSED → p_pid y' = 0 ∧ p_parent y' = None;
  ch_pid : p_state y' ≠ UNUSED →
    p_pid y' = p_pid y ∧ p_state y ≠ UNUSED ∨ p_pid y' = np ∧ np < np';
  ch_parent : ∀ r, p_parent y' = Some r → r ≠ q ∧ ∃ z, t !! r = Some z ∧ live z;
  ch_live : live y' ∨ ∀ j z, t !! j = Some z → p_parent z ≠ Some q;
  ch_orphan : p_state y' ≠ UNUSED → p_parent y' = None → init = Some q ∨ p_state y' = USED;
  ch_init : init = Some q → live y' ∧ p_parent y' = None;
  ch_sleep : p_state y' = SLEEPING → p_chan y' = ChanProc q →
    (∃ j z, t !! j = Some z ∧ p_parent z = Some q) ∧
    ∀ j z, t !! j = Some z → p_parent z = Some q → p_state z ≠ ZOMBIE;
  ch_child : ∀ i, p_parent y = Some i → p_parent y' = Some i ∨ ¬ waiting t i;
  ch_zombie : ∀ i, p_parent y' = Some i → p_state y' = ZOMBIE → ex' = Some i ∨ ¬ waiting t i;
  ch_pend : ∀ p r, pend' !! p = Some r →
    (if decide (p = q) then awake y' else ∃ x, t !! p = Some x ∧ awake x) ∧
    (if decide (r = q) then p_state y' = USED ∧ (p_parent y' = None ∨ p_parent y' = Some p)
     else pend !! p = Some r);
  ch_used : p_state y' = USED → ∃ p, pend' !! p = Some q;
  ch_keep : ∀ p i, i ≠ q → pend !! p = Some i → ∃ p', pend' !! p' = Some i;
  ch_pinj : ∀ p p' r, pend' !! p = Some r → pend' !! p' = Some r → p = p';
}.

Section change.
Context (pend pend' : gmap nat nat) (ex ex' init : option nat) (np np' : Z) (t : list proc).
Context (q : nat) (y y' : proc).
Hypothesis HI : PInv pend ex init np t.
Hypothesis Hex : ex = None ∨ ex = ex'.
Hypothesis Hy : t !! q = Some y.
Hypothesis HC : change pend pend' ex' init np np' t q y y'.

Lemma insert_keep r z : t !! r = Some z → r ≠ q → <[q := y']> t !! r = Some z.
Proof using Type. intros. by rewrite list_lookup_insert_ne. Qed.
Lemma insert_new : <[q := y']> t !! q = Some y'.
Proof using Hy. apply list_lookup_insert_eq. by eapply lookup_lt_Some. Qed.
Lemma insert_inv r z : <[q := y']> t !! r = Some z → r = q ∧ z = y' ∨ r ≠ q ∧ t !! r = Some z.
Proof using Type. clear HI Hex HC Hy. rewrite list_lookup_insert_Some. naive_solver. Qed.

Lemma change_live r z : t !! r = Some z → live z → (r = q → live y') →
  ∃ z, <[q := y']> t !! r = Some z ∧ live z.
Proof using Hy.
  intros Hr Hl Hq. destruct (decide (r = q)) as [->|].
  - exists y'. split; [apply insert_new|auto].
  - exists z. split; [by apply insert_keep|done].
Qed.

Lemma change_sleep i x : <[q := y']> t !! i = Some x → p_state x = SLEEPING → p_chan x = ChanProc i →
  (∃ j z, <[q := y']> t !! j = Some z ∧ p_parent z = Some i) ∧
  (ex' ≠ Some i → ∀ j z, <[q := y']> t !! j = Some z → p_parent z = Some i → p_state z ≠ ZOMBIE).
Proof using HI HC Hex Hy.
  intros Hx Hs Hc. destruct (insert_inv _ _ Hx) as [[-> ->]|[Hne Hx']].
  - destruct (ch_sleep _ _ _ _ _ _ _ _ _ _ HC Hs Hc) as ((j & z & Hj & Hp) & Hz).
    assert (∀ j z, t !! j = Some z → p_parent z = Some q → j ≠ q) as Hjq.
    { intros j' z' Hj' Hp'. destruct (pi_parent _ _ _ _ _ HI j' z' q Hj' Hp'). done. }
    split.
    + exists j, z. split; [apply insert_keep; eauto|done].
    + intros _ k w Hk Hpk. destruct (insert_inv _ _ Hk) as [[-> ->]|[? Hk']]; [|by eapply Hz].
      destruct (ch_parent _ _ _ _ _ _ _ _ _ _ HC q Hpk). done.
  - destruct (pi_sleep _ _ _ _ _ HI i x Hx' Hs Hc) as ((j & z & Hj & Hp) & Hz).
    assert (waiting t i) as Hw by (exists x; done). split.
    + destruct (decide (j = q)) as [->|].
      * exists q, y'. split; [apply insert_new|]. assert (z = y) as -> by congruence.
        destruct (ch_child _ _ _ _ _ _ _ _ _ _ HC i Hp); done.
      * exists j, z. split; [by apply insert_keep|done].
    + intros He k w Hk Hpk. destruct (insert_inv _ _ Hk) as [[-> ->]|[? Hk']].
      * intros Ez. destruct (ch_zombie _ _ _ _ _ _ _ _ _ _ HC i Hpk Ez); done.
      * apply (Hz ltac:(destruct Hex; congruence) k w Hk' Hpk).
Qed.

Lemma change_pids i j x z : <[q := y']> t !! i = Some x → <[q := y']> t !! j = Some z →
  p_state x ≠ UNUSED → p_pid x = p_pid z → i = j.
Proof using HI HC Hy.
  intros Hx Hz Hs E. pose proof (pi_pid _ _ _ _ _ HI) as HP. pose proof (pi_next _ _ _ _ _ HI).
  assert (∀ k w, t !! k = Some w → p_pid w < np) as Hlt.
  { intros k w Hk. destruct (decide (p_state w = UNUSED)) as [Hu|Hu].
    - destruct (pi_unused _ _ _ _ _ HI k w Hk Hu). lia.
    - specialize (HP k w Hk Hu). lia. }
  destruct (insert_inv _ _ Hx) as [[-> ->]|[Hi Hx']], (insert_inv _ _ Hz) as [[-> ->]|[Hj Hz']]; [done| | |].
  - destruct (ch_pid _ _ _ _ _ _ _ _ _ _ HC Hs) as [[Ep Hu]|[Ep _]].
    + apply (pi_inj _ _ _ _ _ HI q j y z Hy Hz' Hu). congruence.
    + specialize (Hlt j z Hz'). lia.
  - destruct (decide (p_state y' = UNUSED)) as [Hu|Hu].
    + destruct (ch_unused _ _ _ _ _ _ _ _ _ _ HC Hu). specialize (HP i x Hx' Hs). lia.
    + destruct (ch_pid _ _ _ _ _ _ _ _ _ _ HC Hu) as [[Ep ?]|[Ep _]].
      * apply (pi_inj _ _ _ _ _ HI i q x y Hx' Hy Hs). congruence.
      * specialize (Hlt i x Hx'). lia.
  - by apply (pi_inj _ _ _ _ _ HI i j x z).
Qed.

Lemma change_pend p r : pend' !! p = Some r →
  (∃ x, <[q := y']> t !! p = Some x ∧ awake x) ∧
  ∃ z, <[q := y']> t !! r = Some z ∧ p_state z = USED ∧ (p_parent z = None ∨ p_parent z = Some p).
Proof using HI HC Hy.
  intros Hpr. destruct (ch_pend _ _ _ _ _ _ _ _ _ _ HC p r Hpr) as [H1 H2]. split.
  - destruct (decide (p = q)) as [->|].
    + exists y'. split; [apply insert_new|done].
    + destruct H1 as (x & Hx & Ha). exists x. split; [by apply insert_keep|done].
  - destruct (decide (r = q)) as [->|].
    + exists y'. split; [apply insert_new|done].
    + destruct (pi_pend _ _ _ _ _ HI p r H2) as (_ & z & Hz & Hu).
      exists z. split; [by apply insert_keep|done].
Qed.

Lemma PInv_change : PInv pend' ex' init np' (<[q := y']> t).
Proof using HI HC Hex Hy.
  pose proof HI as [L N BOOT U PID INJ PAR ORP INI SLP PEND USED PINJ].
  pose proof HC as [CN CU CP CPAR CL CO CI CS CCH CZ CPD CUS CK CPI].
  split; [by rewrite length_insert|lia|exact BOOT| | | apply change_pids | | | | apply change_sleep
         | apply change_pend | |exact CPI].
  - intros i x Hx Hu. destruct (insert_inv _ _ Hx) as [[-> ->]|[? Hx']]; eauto.
  - intros i x Hx Hu. destruct (insert_inv _ _ Hx) as [[-> ->]|[? Hx']].
    + destruct (CP Hu) as [[-> Hn]|[-> ?]]; [specialize (PID q y Hy Hn); lia|lia].
    + specialize (PID i x Hx' Hu). lia.
  - intros i x r Hx Hr. destruct (insert_inv _ _ Hx) as [[-> ->]|[? Hx']].
    + destruct (CPAR r Hr) as (? & z & Hz & Hl). split; [done|]. by eapply change_live.
    + destruct (PAR i x r Hx' Hr) as (? & z & Hz & Hl). split; [done|].
      eapply change_live; [done..|]. intros ->. destruct CL as [?|CL]; [done|]. by destruct (CL i x).
  - intros i x Hx Hu Hp. destruct (insert_inv _ _ Hx) as [[-> ->]|[? Hx']]; eauto.
  - intros i Hi. destruct (INI i Hi) as (x & Hx & Hl & Hp). destruct (decide (i = q)) as [->|].
    + exists y'. destruct (CI Hi). split; [apply insert_new|done].
    + exists x. split; [by apply insert_keep|done].
  - intros i x Hx Hu. destruct (insert_inv _ _ Hx) as [[-> ->]|[? Hx']]; [by apply CUS|].
    destruct (USED i x Hx' Hu) as [p Hp]. by apply (CK p i).
Qed.
End change.

(** ** The changes that the code makes *)
Section steps.
Context (pend : gmap nat nat) (init : option nat) (np : Z) (t : list proc).
Hypothesis HI : PInv pend None init np t.

Lemma awake_live x : awake x → live x.
Proof using Type. unfold awake, live. tauto. Qed.
Lemma awake_not_waiting p x : t !! p = Some x → awake x → ¬ waiting t p.
Proof using Type. intros Hx Ha (x' & Hx' & Hs & _). destruct Ha; congruence. Qed.
Lemma not_live_no_child q y : t !! q = Some y → ¬ live y → ∀ j z, t !! j = Some z → p_parent z ≠ Some q.
Proof using HI.
  intros Hq Hn j z Hz Hp. destruct (pi_parent _ _ _ _ _ HI j z q Hz Hp) as (_ & y' & Hy' & Hl). congruence.
Qed.
Lemma unused_not_live y : p_state y = UNUSED → ¬ live y.
Proof using Type. unfold live. intuition congruence. Qed.
Lemma used_not_live y : p_state y = USED → ¬ live y.
Proof using Type. unfold live. intuition congruence. Qed.
Lemma init_not q y : t !! q = Some y → ¬ live y → init ≠ Some q.
Proof using HI. intros Hq Hn Hi. destruct (pi_init _ _ _ _ _ HI q Hi) as (x & ? & ? & _). congruence. Qed.
Lemma pend_not_target p q r y : t !! q = Some y → p_state y ≠ USED → pend !! p = Some r → r ≠ q.
Proof using HI.
  intros Hq Hu Hp ->. destruct (pi_pend _ _ _ _ _ HI p q Hp) as (_ & z & ? & ? & _). congruence.
Qed.
Lemma pend_awake p r : pend !! p = Some r → ∃ x, t !! p = Some x ∧ awake x.
Proof using HI. intros Hp. by destruct (pi_pend _ _ _ _ _ HI p r Hp). Qed.
Lemma pend_other p q y r : t !! q = Some y → ¬ awake y → pend !! p = Some r → p ≠ q.
Proof using HI. intros Hq Ha Hp ->. destruct (pend_awake q r Hp) as (x & ? & ?). congruence. Qed.

Lemma PInv_alloc p x q y y' :
  t !! p = Some x → awake x → pend !! p = None → t !! q = Some y → p_state y = UNUSED →
  p_state y' = USED → p_pid y' = np → p_parent y' = None →
  PInv (<[p := q]> pend) None init (np + 1) (<[q := y']> t).
Proof using HI.
  intros Hx Hax Hp Hq Hu Hs' Hp' Hn'.
  assert (p ≠ q) as Hpq. { intros ->. destruct Hax; congruence. }
  pose proof (unused_not_live y Hu) as Hnl.
  destruct (pi_unused _ _ _ _ _ HI q y Hq Hu) as [_ Hny].
  refine (PInv_change _ _ _ _ _ _ _ _ q y y' HI (or_introl eq_refl) Hq _).
  split; try (intros; congruence); try lia.
  - right. by eapply not_live_no_child.
  - intros _ _. by right.
  - intros Hi. by destruct (init_not q y Hq Hnl).
  - intros p1 r. destruct (decide (p1 = p)) as [->|Hne].
    + rewrite lookup_insert_eq. intros [= <-]. rewrite decide_False, decide_True by done.
      split; [by exists x|]. split; [done|by left].
    + rewrite lookup_insert_ne by done. intros H1. pose proof (pend_other p1 q y r Hq) as Ho.
      rewrite decide_False, decide_False.
      * split; [by apply (pend_awake p1 r)|done].
      * apply (pend_not_target p1 q r y Hq); [congruence|done].
      * apply Ho; [unfold awake; intuition congruence|done].
  - intros _. exists p. apply lookup_insert_eq.
  - intros p1 i Hi H1. exists p1. rewrite lookup_insert_ne; [done|]. congruence.
  - intros p1 p2 r. pose proof (pi_pinj _ _ _ _ _ HI p1 p2 r) as Hinj.
    assert (∀ p', pend !! p' ≠ Some q) as Hno.
    { intros p' H'. by apply (pend_not_target p' q q y Hq) in H'; [|congruence]. }
    rewrite !lookup_insert_Some. naive_solver.
Qed.

(** [y'] is the wiped entry. *)
Lemma PInv_reap q y y' r x :
  t !! q = Some y → p_state y = ZOMBIE → p_parent y = Some r → t !! r = Some x → awake x →
  p_state y' = UNUSED → p_pid y' = 0 → p_parent y' = None →
  PInv pend None init np (<[q := y']> t).
Proof using HI.
  intros Hq Hz Hr Hx Hax Hs' Hp' Hn'.
  assert (¬ live y) as Hnl by (unfold live; intuition congruence).
  refine (PInv_change _ _ _ _ _ _ _ _ q y y' HI (or_introl eq_refl) Hq _).
  split; try (intros; congruence); try lia; try done.
  - right. by eapply not_live_no_child.
  - intros Hi. by destruct (init_not q y Hq Hnl).
  - intros i Hi. right. assert (i = r) as -> by congruence. by eapply awake_not_waiting.
  - intros p1 r1 H1. rewrite decide_False, decide_False.
    + split; [by apply (pend_awake p1 r1)|done].
    + apply (pend_not_target p1 q r1 y Hq); [congruence|done].
    + apply (pend_other p1 q y r1 Hq); [unfold awake; intuition congruence|done].
  - eauto.
  - apply (pi_pinj _ _ _ _ _ HI).
Qed.

Lemma PInv_abort p q y y' :
  pend !! p = Some q → t !! q = Some y → p_parent y = None →
  p_state y' = UNUSED → p_pid y' = 0 → p_parent y' = None →
  PInv (delete p pend) None init np (<[q := y']> t).
Proof using HI.
  intros Hp Hq Hn Hs' Hp' Hn'.
  destruct (pi_pend _ _ _ _ _ HI p q Hp) as (_ & z & Hz & Hu & _). assert (z = y) as -> by congruence.
  pose proof (used_not_live y Hu) as Hnl.
  refine (PInv_change _ _ _ _ _ _ _ _ q y y' HI (or_introl eq_refl) Hq _).
  split; try (intros; congruence); try lia; try done.
  - right. by eapply not_live_no_child.
  - intros Hi. by destruct (init_not q y Hq Hnl).
  - intros p1 r1 [Hne H1]%lookup_delete_Some. rewrite decide_False, decide_False.
    + split; [by apply (pend_awake p1 r1)|done].
    + intros ->. by apply Hne, (pi_pinj _ _ _ _ _ HI p p1 q).
    + apply (pend_other p1 q y r1 Hq); [unfold awake; intuition congruence|done].
  - intros p1 i Hi H1. exists p1. rewrite lookup_delete_ne; [done|]. congruence.
  - intros p1 p2 r [_ H1]%lookup_delete_Some [_ H2]%lookup_delete_Some. by apply (pi_pinj _ _ _ _ _ HI p1 p2 r).
Qed.

(** [fork] sets the parent, and then makes the child runnable. *)
Lemma PInv_adopt p q y y' :
  pend !! p = Some q → t !! q = Some y → p_parent y = None →
  p_state y' = USED → p_pid y' = p_pid y → p_parent y' = Some p →
  PInv pend None init np (<[q := y']> t).
Proof using HI.
  intros Hp Hq Hn Hs' Hp' Hn'.
  destruct (pi_pend _ _ _ _ _ HI p q Hp) as ((x & Hx & Hax) & z & Hz & Hu & _). assert (z = y) as -> by congruence.
  pose proof (used_not_live y Hu) as Hnl.
  assert (p ≠ q) as Hpq. { intros ->. destruct Hax; congruence. }
  refine (PInv_change _ _ _ _ _ _ _ _ q y y' HI (or_introl eq_refl) Hq _).
  split; try (intros; congruence); try lia; try done.
  - intros _. left. split; [done|congruence].
  - intros r Hr. assert (r = p) as -> by congruence. split; [done|]. exists x. eauto using awake_live.
  - right. by eapply not_live_no_child.
  - intros Hi. by destruct (init_not q y Hq Hnl).
  - intros p1 r1 H1. rewrite decide_False.
    + split; [by apply (pend_awake p1 r1)|]. case_decide as E; [|done]. subst. split; [done|].
      right. rewrite Hn'. f_equal. by apply (pi_pinj _ _ _ _ _ HI p p1 q).
    + apply (pend_other p1 q y r1 Hq); [unfold awake; intuition congruence|done].
  - eauto.
  - eauto.
  - apply (pi_pinj _ _ _ _ _ HI).
Qed.

Lemma PInv_start p q y y' :
  pend !! p = Some q → t !! q = Some y → p_parent y = Some p →
  p_state y' = RUNNABLE → p_pid y' = p_pid y → p_parent y' = Some p →
  PInv (delete p pend) None init np (<[q := y']> t).
Proof using HI.
  intros Hp Hq Hn Hs' Hp' Hn'.
  destruct (pi_pend _ _ _ _ _ HI p q Hp) as ((x & Hx & Hax) & z & Hz & Hu & _). assert (z = y) as -> by congruence.
  pose proof (used_not_live y Hu) as Hnl.
  assert (p ≠ q) as Hpq. { intros ->. destruct Hax; congruence. }
  refine (PInv_change _ _ _ _ _ _ _ _ q y y' HI (or_introl eq_refl) Hq _).
  split; try (intros; congruence); try lia; try done.
  - intros _. left. split; [done|congruence].
  - intros r Hr. assert (r = p) as -> by congruence. split; [done|]. exists x. eauto using awake_live.
  - left. unfold live. auto.
  - intros Hi. by destruct (init_not q y Hq Hnl).
  - intros i Hi. left. congruence.
  - intros p1 r1 [Hne H1]%lookup_delete_Some. rewrite decide_False, decide_False.
    + split; [by apply (pend_awake p1 r1)|done].
    + intros ->. by apply Hne, (pi_pinj _ _ _ _ _ HI p p1 q).
    + apply (pend_other p1 q y r1 Hq); [unfold awake; intuition congruence|done].
  - intros p1 i Hi H1. exists p1. rewrite lookup_delete_ne; [done|]. congruence.
  - intros p1 p2 r [_ H1]%lookup_delete_Some [_ H2]%lookup_delete_Some. by apply (pi_pinj _ _ _ _ _ HI p1 p2 r).
Qed.

(** A process goes to sleep. *)
Lemma PInv_sleep p x y' :
  t !! p = Some x → p_state x = RUNNING → pend !! p = None →
  p_state y' = SLEEPING → p_pid y' = p_pid x → p_parent y' = p_parent x →
  (p_chan y' = ChanProc p →
    (∃ j z, t !! j = Some z ∧ p_parent z = Some p) ∧
    ∀ j z, t !! j = Some z → p_parent z = Some p → p_state z ≠ ZOMBIE) →
  PInv pend None init np (<[p := y']> t).
Proof using HI.
  intros Hx Hr Hp Hs' Hp' Hn' Hc.
  refine (PInv_change _ _ _ _ _ _ _ _ p x y' HI (or_introl eq_refl) Hx _).
  split; try (intros; congruence); try lia; try done.
  - intros _. left. split; [done|congruence].
  - intros r Hr'. rewrite Hn' in Hr'. by apply (pi_parent _ _ _ _ _ HI p x r).
  - left. unfold live. auto.
  - intros _ Hn. rewrite Hn' in Hn. destruct (pi_orphan _ _ _ _ _ HI p x Hx); [congruence|done|by left|congruence].
  - intros Hi. destruct (pi_init _ _ _ _ _ HI p Hi) as (x' & ? & ? & ?). rewrite Hn'.
    split; [unfold live; auto|congruence].
  - intros i Hi. left. congruence.
  - intros p1 r1 H1. rewrite decide_False, decide_False.
    + split; [by apply (pend_awake p1 r1)|done].
    + apply (pend_not_target p1 p r1 x Hx); [congruence|done].
    + congruence.
  - eauto.
  - apply (pi_pinj _ _ _ _ _ HI).
Qed.

(** The child [q] of the exiting process [p] is given to [init]. *)
Lemma PInv_reparent p x i0 q y y' :
  t !! p = Some x → p_state x = RUNNING → pend !! p = None → init = Some i0 → t !! q = Some y → p_parent y = Some p →
  p_state y' = p_state y → p_pid y' = p_pid y → p_parent y' = Some i0 → p_chan y' = p_chan y →
  PInv pend (Some i0) init np (<[q := y']> t).
Proof using HI.
  intros Hx Hrun Hpn Hi Hq Hpy Hs' Hp' Hn' Hc'.
  destruct (pi_init _ _ _ _ _ HI i0 Hi) as (x0 & Hx0 & Hl0 & Hn0).
  assert (i0 ≠ q) as Hne by congruence.
  assert (p_state y ≠ UNUSED) as Hyu.
  { intros Hu. destruct (pi_unused _ _ _ _ _ HI q y Hq Hu). congruence. }
  assert (∀ p1, pend !! p1 ≠ Some q) as Hnp.
  { intros p1 H1. destruct (pi_pend _ _ _ _ _ HI p1 q H1) as (_ & z & ? & _ & [?|?]); congruence. }
  refine (PInv_change _ _ _ _ _ _ _ _ q y y' HI (or_introl eq_refl) Hq _).
  split; try (intros; congruence); try lia; try done.
  - intros _. left. done.
  - intros r Hr'. assert (r = i0) as -> by congruence. eauto.
  - destruct (decide (p_state y = SLEEPING ∨ p_state y = RUNNABLE ∨ p_state y = RUNNING)) as [Hd|Hd].
    + left. unfold live. by rewrite Hs'.
    + right. by eapply not_live_no_child.
  - intros Hs Hc. rewrite Hs' in Hs. rewrite Hc' in Hc.
    destruct (pi_sleep _ _ _ _ _ HI q y Hq Hs Hc) as (? & Hz). split; [done|]. by apply Hz.
  - intros i Hi'. right. assert (i = p) as -> by congruence. apply (awake_not_waiting p x Hx). by right.
  - intros i Hi' _. left. congruence.
  - intros p1 r1 H1. rewrite (decide_False (P := r1 = q)) by (intros ->; by apply (Hnp p1)).
    split; [|done]. destruct (pend_awake p1 r1 H1) as (x1 & Hx1 & Ha1). case_decide; [|eauto].
    subst. unfold awake in *. rewrite Hs'. congruence.
  - intros Hu. rewrite Hs' in Hu. by apply (pi_used _ _ _ _ _ HI q y Hq).
  - eauto.
  - apply (pi_pinj _ _ _ _ _ HI).
Qed.

(** The process [p] becomes a zombie: it has no children and its parent has
    been woken. *)
Lemma PInv_zombie p x y' :
  t !! p = Some x → p_state x = RUNNING → pend !! p = None → init ≠ Some p →
  (∀ j z, t !! j = Some z → p_parent z ≠ Some p) →
  (∀ r, p_parent x = Some r → ¬ waiting t r) →
  p_state y' = ZOMBIE → p_pid y' = p_pid x → p_parent y' = p_parent x →
  PInv pend None init np (<[p := y']> t).
Proof using HI.
  intros Hx Hr Hpn Hi Hnc Hw Hs' Hp' Hn'.
  refine (PInv_change _ _ _ _ _ _ _ _ p x y' HI (or_introl eq_refl) Hx _).
  split; try (intros; congruence); try lia; try done.
  - intros _. left. split; [done|congruence].
  - intros r Hr'. rewrite Hn' in Hr'. by apply (pi_parent _ _ _ _ _ HI p x r).
  - right. done.
  - intros _ Hn. rewrite Hn' in Hn. destruct (pi_orphan _ _ _ _ _ HI p x Hx); [congruence|done|done|congruence].
  - intros i Hi'. left. congruence.
  - intros i Hi' _. right. apply Hw. congruence.
  - intros p1 r1 H1. rewrite decide_False, decide_False.
    + split; [by apply (pend_awake p1 r1)|done].
    + apply (pend_not_target p1 p r1 x Hx); [congruence|done].
    + congruence.
  - eauto.
  - apply (pi_pinj _ _ _ _ _ HI).
Qed.
End steps.

Lemma PInv_woken pend i0 init np t : PInv pend (Some i0) init np t → ¬ waiting t i0 → PInv pend None init np t.
Proof.
  intros [] Hw. split; try done. intros i x Hx Hs Hc. destruct (pi_sleep0 i x Hx Hs Hc) as (? & Hz).
  split; [done|]. intros _. apply Hz. intros [= ->]. apply Hw. by exists x.
Qed.

(** Changes of fields that [calm] does not look at. *)
Ltac calm_fields := split; [done|split; [done|left; split; [done|by left]]].
Ltac calm_same := intros ?; calm_fields.

(** ** The code *)
Section code.
Context {B : Type} `{!BlockStore B, !TxStore B, !DevOps (fst B pst)}.
Context (kend trampoline forkret : Z).
Abbreviation P := (pcb B).
Implicit Types s : P.

Definition Inv (pend : gmap nat nat) (s : P) : Prop :=
  PInv pend None (initproc s) (nextpid s) (procs s).

(** The table of processes is unchanged, or changed without consequence. *)
Definition same (s s' : P) : Prop :=
  procs s' = procs s ∧ nextpid s' = nextpid s ∧ initproc s' = initproc s.
Definition calm_s (s s' : P) : Prop :=
  Forall2 calm (procs s) (procs s') ∧ nextpid s' = nextpid s ∧ initproc s' = initproc s.
Definition upd (s : P) (p : nat) (y : proc) : P :=
  Pcb (files s) (<[p := y]> (procs s)) (nextpid s) (initproc s) (ticks s).

#[global] Instance calm_s_preorder : PreOrder calm_s.
Proof using Type.
  split; [intros s|intros s s' s'' (H1 & E1 & E1') (H2 & E2 & E2')]; (split_and!; [|congruence..]).
  - reflexivity.
  - by etrans.
Qed.
Lemma same_calm s s' : same s s' → calm_s s s'.
Proof using Type. intros (E & ? & ?). split_and!; [|done..]. by rewrite E. Qed.

Lemma Inv_calm pend s s' : Inv pend s → calm_s s s' → Inv pend s'.
Proof using Type. intros H (HF & En & Ei). unfold Inv. rewrite En, Ei. by eapply PInv_calm. Qed.
Lemma Inv_same pend s s' : Inv pend s → same s s' → Inv pend s'.
Proof using Type. intros H Hs. by eapply Inv_calm, same_calm. Qed.

Lemma wlp_on_files {A} (m : K (fls (fst B pst)) A) (Q : A → P → Prop) s :
  (∀ a s', same s s' → Q a s') → wlp (on_files m) Q s.
Proof using Type. intros H. apply wlp_lift. intros a s' _. apply H. done. Qed.
Lemma wlp_on_fs {A} (m : K (fst B pst) A) (Q : A → P → Prop) s :
  (∀ a s', same s s' → Q a s') → wlp (on_fs m) Q s.
Proof using Type. apply wlp_on_files. Qed.
Lemma wlp_on_pages {A} (m : K pst A) (Q : A → P → Prop) s :
  (∀ a s', same s s' → Q a s') → wlp (on_pages m) Q s.
Proof using Type. apply wlp_on_files. Qed.

Lemma wlp_pget {A} p (f : proc → A) (Q : A → P → Prop) s :
  (∀ x, procs s !! p = Some x → Q (f x) s) → wlp (pget p f) Q s.
Proof using Type.
  intros H. unfold pget. wlp_steps. destruct (procs s !! p) as [x|] eqn:E; [|done]. by apply H.
Qed.

Lemma alter_insert (l : list proc) p f x : l !! p = Some x → alter f p l = <[p := f x]> l.
Proof using Type.
  intros Hx. apply list_eq. intros i. destruct (decide (i = p)) as [->|].
  - rewrite list_lookup_alter_eq, Hx. simpl. symmetry. apply list_lookup_insert_eq. by eapply lookup_lt_Some.
  - by rewrite list_lookup_alter_ne, list_lookup_insert_ne.
Qed.

Lemma wlp_pset p f (Q : unit → P → Prop) s :
  (∀ x, procs s !! p = Some x → Q tt (upd s p (f x))) → wlp (pset p f) Q s.
Proof using Type.
  intros H. unfold pset. wlp_step. apply wlp_pget. intros x Hx. wlp_step.
  rewrite (alter_insert _ _ _ _ Hx). by apply H.
Qed.

Lemma calm_upd s p x y : procs s !! p = Some x → calm x y → calm_s s (upd s p y).
Proof using Type.
  intros Hx C. split_and!; [|done..]. simpl. apply Forall2_same_length_lookup.
  split; [by rewrite length_insert|]. intros i a b Ha. rewrite list_lookup_insert_Some.
  intros [(-> & <- & _)|[_ Hb]]; [congruence|]. replace b with a by congruence. reflexivity.
Qed.
Lemma wlp_pset_calm p f (Q : unit → P → Prop) s :
  (∀ x, calm x (f x)) → (∀ s', calm_s s s' → Q tt s') → wlp (pset p f) Q s.
Proof using Type. intros Hf HQ. apply wlp_pset. intros x Hx. apply HQ. by eapply calm_upd. Qed.

(** Loops of calm steps. *)
Lemma wlp_calm_each n i body s :
  (∀ j s, wlp (body j) (λ _ s', calm_s s s') s) → wlp (for_each n i body) (λ _ s', calm_s s s') s.
Proof using Type.
  intros Hb. apply (wlp_for_each (λ _ s', calm_s s s')); [reflexivity| |done].
  intros j s1 _ H1. eapply wlp_mono; [apply Hb|]. intros [] s2 H2. cbv beta in *. by etrans.
Qed.

Ltac calm_ok := unfold calm, live, awake; simpl; intuition congruence.

(** ** [wakeup] *)
Lemma wakeup_spec me c s :
  length (procs s) = Z.to_nat NPROC →
  wlp (wakeup me c) (λ _ s', calm_s s s' ∧
    (∀ q x, procs s' !! q = Some x → me ≠ Some q → p_state x = SLEEPING → p_chan x ≠ c) ∧
    ∀ p, me = Some p → procs s' !! p = procs s !! p) s.
Proof using Type.
  intros HL. unfold wakeup.
  apply (wlp_for_each (λ j s', calm_s s s' ∧
    (∀ q x, (Z.of_nat q < j) → procs s' !! q = Some x → me ≠ Some q → p_state x = SLEEPING → p_chan x ≠ c) ∧
    ∀ p, me = Some p → procs s' !! p = procs s !! p)).
  - split_and!; [reflexivity|lia|done].
  - intros j s1 Hj (HC & Hq & Hm). case_decide as Hme.
    + apply wlp_ret. split_and!; [done| |done]. intros q x Hqj Hx Hne. apply (Hq q x); [|done..].
      destruct (decide (q = Z.to_nat j)) as [->|]; [congruence|lia].
    + wlp_step. apply wlp_pget. intros x Hx. apply wlp_when; intros Hb.
      * apply wlp_pset. intros x' Hx'. assert (x' = x) as -> by congruence.
        apply andb_true_iff in Hb as [Hb1 Hb2]. apply bool_decide_eq_true in Hb1. split_and!.
        -- etrans; [done|]. eapply calm_upd; [done|]. unfold id in Hb1. calm_ok.
        -- intros q y Hqj. simpl. rewrite list_lookup_insert_Some. intros [(<- & <- & _)|[Hne Hy]].
           { simpl. congruence. } apply (Hq q y); [lia|done].
        -- intros p Hp. simpl. rewrite list_lookup_insert_ne by congruence. by apply Hm.
      * split_and!; [done| |done]. intros q y Hqj Hy Hne Hs Hc. unfold id in Hb.
        destruct (decide (q = Z.to_nat j)) as [->|]; [|revert Hc; by apply (Hq q y); [lia|..]].
        assert (y = x) as -> by congruence. rewrite !bool_decide_eq_true_2 in Hb by done. done.
  - intros s1 (HC & Hq & Hm). split_and!; [done| |done]. intros q x Hx. apply (Hq q x); [|done].
    apply lookup_lt_Some in Hx. destruct HC as (HF & _). rewrite <-(Forall2_length _ _ _ HF), HL in Hx. lia.
Qed.

(** ** Allocation *)
Definition wiped (y : proc) : Prop := p_state y = UNUSED ∧ p_pid y = 0 ∧ p_parent y = None.

Lemma freeproc_spec q y (s : P) :
  procs s !! q = Some y →
  wlp (freeproc kend q) (λ _ s', ∃ y', procs s' = <[q := y']> (procs s) ∧ wiped y' ∧
    nextpid s' = nextpid s ∧ initproc s' = initproc s) s.
Proof using Type.
  intros Hy. unfold freeproc. wlp_step. apply wlp_pget. intros y' Hy'. assert (y' = y) as -> by congruence.
  assert (q < length (procs s))%nat as Hq by by eapply lookup_lt_Some.
  apply (wlp_seq _ _ (λ _ s', same s s')).
  { apply wlp_when; intros _; [by apply wlp_on_pages|done]. }
  intros _ s1 (E1 & En1 & Ei1). apply (wlp_seq _ _ (λ _ s', same (upd s1 q (set_trapframe 0 y)) s')).
  { apply wlp_pset. intros x Hx. rewrite E1 in Hx. replace x with y by congruence. done. }
  intros _ s2 (E2 & En2 & Ei2). apply (wlp_seq _ _ (λ _ s', same s2 s')).
  { apply wlp_when; intros _; [by apply wlp_on_pages|done]. }
  intros _ s3 (E3 & En3 & Ei3). apply wlp_pset. intros x Hx.
  eexists. split_and!.
  - simpl. rewrite E3, E2. simpl. rewrite E1, list_insert_insert_eq. reflexivity.
  - done.
  - simpl in *. congruence.
  - simpl in *. congruence.
Qed.

Lemma unused_proc_spec t i q :
  unused_proc t i = Some q → ∃ k y, q = (i + k)%nat ∧ t !! k = Some y ∧ p_state y = UNUSED.
Proof using Type.
  revert i. induction t as [|x t IH]; intros i; simpl; [done|]. case_decide as Hu.
  - intros [= <-]. exists 0%nat, x. split_and!; [lia|done..].
  - intros (k & y & -> & Hk & Hy)%IH. exists (S k), y. split_and!; [lia|done..].
Qed.
Lemma unused_proc_lookup t q : unused_proc t 0 = Some q → ∃ y, t !! q = Some y ∧ p_state y = UNUSED.
Proof using Type. intros (k & y & -> & ? & ?)%unused_proc_spec. eauto. Qed.

(** What [allocproc] does to the table. *)
Definition alloc_post (s : P) (r : option nat) (s' : P) : Prop :=
  initproc s' = initproc s ∧
  match r with
  | None => same s s' ∨
      ∃ q y y', procs s !! q = Some y ∧ p_state y = UNUSED ∧ wiped y' ∧
        procs s' = <[q := y']> (procs s) ∧ nextpid s' = nextpid s + 1
  | Some q =>
      unused_proc (procs s) 0 = Some q ∧
      ∃ y y', procs s !! q = Some y ∧ p_state y = UNUSED ∧
        procs s' = <[q := y']> (procs s) ∧ nextpid s' = nextpid s + 1 ∧
        p_state y' = USED ∧ p_pid y' = nextpid s ∧ p_parent y' = p_parent y ∧
        p_killed y' = p_killed y ∧ p_chan y' = p_chan y
  end.

Lemma alloc_fail q y y1 (s s1 : P) :
  procs s !! q = Some y → p_state y = UNUSED → procs s1 = <[q := y1]> (procs s) →
  nextpid s1 = nextpid s + 1 → initproc s1 = initproc s →
  wlp (freeproc kend q;; mret None) (alloc_post s) s1.
Proof using Type.
  intros Hy Hu E1 En Ei. assert (q < length (procs s))%nat as Hq by by eapply lookup_lt_Some.
  apply (wlp_seq _ _ _ _ _ (freeproc_spec q y1 s1 ltac:(rewrite E1; by apply list_lookup_insert_eq))).
  intros _ s2 (y' & E2 & Hw & En2 & Ei2). apply wlp_ret. split; [congruence|]. right.
  exists q, y, y'. split_and!; [done|done|done| |congruence]. by rewrite E2, E1, list_insert_insert_eq.
Qed.

Lemma allocproc_table (s : P) : wlp (allocproc kend trampoline forkret) (alloc_post s) s.
Proof using Type.
  unfold allocproc. wlp_steps. destruct (unused_proc (procs s) 0) as [q|] eqn:Eq.
  2: { apply wlp_ret. split; [done|]. by left. }
  destruct (unused_proc_lookup _ _ Eq) as (y & Hy & Hu).
  assert (q < length (procs s))%nat as Hq by by eapply lookup_lt_Some.
  wlp_step. unfold allocpid. wlp_steps. case_match; [done|]. wlp_steps.
  apply wlp_pset. simpl. intros x Hx. replace x with y in * by congruence. clear x Hx. wlp_step.
  apply wlp_on_pages. intros tf s1 (E1 & En1 & Ei1). wlp_step. apply wlp_pset. intros x Hx.
  rewrite E1 in Hx. simpl in Hx. rewrite list_lookup_insert_eq in Hx by done. injection Hx as <-.
  case_match.
  { eapply (alloc_fail q y); [done|done| |simpl in *; congruence..].
    simpl. rewrite E1. simpl. by rewrite list_insert_insert_eq. }
  wlp_step. apply wlp_on_pages. intros pt s2 (E2 & En2 & Ei2). wlp_step. apply wlp_pset. intros x Hx.
  rewrite E2 in Hx. simpl in Hx. rewrite E1 in Hx. simpl in Hx.
  rewrite list_insert_insert_eq, list_lookup_insert_eq in Hx by done. injection Hx as <-.
  case_match.
  { eapply (alloc_fail q y); [done|done| |simpl in *; congruence..].
    simpl. rewrite E2. simpl. rewrite E1. simpl. by rewrite !list_insert_insert_eq. }
  wlp_step. apply wlp_pset. intros x Hx. simpl in Hx. rewrite E2 in Hx. simpl in Hx. rewrite E1 in Hx. simpl in Hx.
  rewrite !list_insert_insert_eq, list_lookup_insert_eq in Hx by done. injection Hx as <-.
  apply wlp_ret. split; [simpl in *; congruence|]. split; [done|]. exists y. eexists. split_and!; [done|done| | | | | | |].
  - simpl. rewrite E2. simpl. rewrite E1. simpl. rewrite !list_insert_insert_eq. reflexivity.
  - simpl in *. lia.
  - done.
  - done.
  - done.
  - done.
  - done.
Qed.

Lemma allocproc_Inv pend p x (s : P) r s' :
  Inv pend s → procs s !! p = Some x → awake x → pend !! p = None → alloc_post s r s' →
  match r with
  | None => Inv pend s'
  | Some q => Inv (<[p := q]> pend) s' ∧ ∃ y, procs s' !! q = Some y ∧ p_parent y = None
  end.
Proof using Type.
  intros HI Hx Hax Hp (Ei & Hpost). destruct r as [q|].
  - destruct Hpost as (_ & y & y' & Hy & Hu & E & En & Hs' & Hp' & Hn' & _).
    destruct (pi_unused _ _ _ _ _ HI q y Hy Hu) as [_ Hn]. rewrite Hn in Hn'. split.
    + unfold Inv. rewrite E, En, Ei. by eapply PInv_alloc.
    + exists y'. rewrite E. split; [|done]. apply list_lookup_insert_eq. by eapply lookup_lt_Some.
  - destruct Hpost as [Hs|(q & y & y' & Hy & Hu & (W1 & W2 & W3) & E & En)]; [by eapply Inv_same|].
    pose (y1 := set_parent None (set_state USED (set_pid (nextpid s) y))).
    pose proof (PInv_alloc _ _ _ _ HI p x q y y1 Hx Hax Hp Hy Hu eq_refl eq_refl eq_refl) as H1.
    assert (q < length (procs s))%nat as Hq by by eapply lookup_lt_Some.
    pose proof (PInv_abort _ _ _ _ H1 p q y1 y' (lookup_insert_eq _ _ _)
      (list_lookup_insert_eq _ _ _ Hq) eq_refl W1 W2 W3) as H2.
    unfold Inv. rewrite E, En, Ei. rewrite list_insert_insert_eq in H2.
    by rewrite delete_insert_id in H2.
Qed.
End code.
