(* ===== verification/ProcStep.v ===== *)
(** * Processes in any order

    The sections of [fork], [exit] and [wait] keep the invariant of [ProcInv];
    a step relation interleaves them with the scheduler, with sleeping and
    waking and with [kill], and the invariant holds in every state reached
    from the first process. *)

From S2P Require Import Prelude Word Param Bio Str Kalloc Vm VmSpec Fs File Proc ProcInv.

Section sections.
Context {B : Type} `{!BlockStore B, !TxStore B, !DevOps (fst B pst)}.
Context (kend trampoline forkret : Z).
Abbreviation P := (pcb B).
Implicit Types s : P.

(** ** fork *)
Definition forked (pend : gmap nat nat) (q : nat) (s : P) : Prop :=
  Inv pend s ∧ ∃ y, procs s !! q = Some y ∧ p_parent y = None.

Lemma forked_calm pend q s s' : forked pend q s → calm_s s s' → forked pend q s'.
Proof using Type.
  intros (HI & y & Hy & Hn) HC. split; [by eapply Inv_calm|].
  destruct (HC) as (HF & _). destruct (calm_lookup' _ _ _ _ HF Hy) as (y' & Hy' & C).
  exists y'. destruct C as (_ & -> & _). done.
Qed.

(** What the rest of [fork] leaves alone in every entry. *)
Definition alike (x x' : proc) : Prop :=
  calm x x' ∧ p_state x' = p_state x ∧ p_killed x' = p_killed x.
Definition alike_s (s s' : P) : Prop :=
  Forall2 alike (procs s) (procs s') ∧ nextpid s' = nextpid s ∧ initproc s' = initproc s.

#[local] Instance alike_preorder : PreOrder alike.
Proof using Type.
  split; [intros x|intros x y z (H1 & ? & ?) (H2 & ? & ?)]; (split_and!; [|congruence..]).
  - reflexivity.
  - by etrans.
Qed.
#[local] Instance alike_s_preorder : PreOrder alike_s.
Proof using Type.
  split; [intros s|intros s s' s'' (H1 & E1 & E1') (H2 & E2 & E2')]; (split_and!; [|congruence..]).
  - reflexivity.
  - by etrans.
Qed.
Lemma alike_calm s s' : alike_s s s' → calm_s s s'.
Proof using Type. intros (H & ? & ?). split; [|done]. eapply Forall2_impl; [done|]. by intros ? ? (? & _). Qed.
Lemma same_alike s s' : same s s' → alike_s s s'.
Proof using Type. intros (E & ? & ?). split; [|done]. by rewrite E. Qed.
Lemma wlp_pset_alike p f (Q : unit → P → Prop) s0 s :
  alike_s s0 s → (∀ x, alike x (f x)) → (∀ s', alike_s s0 s' → Q tt s') → wlp (pset p f) Q s.
Proof using Type.
  intros H0 Hf HQ. apply wlp_pset. intros x Hx. apply HQ. etrans; [done|]. split_and!; [|done..].
  simpl. apply Forall2_same_length_lookup. split; [by rewrite length_insert|].
  intros i a b Ha. rewrite list_lookup_insert_Some.
  intros [(-> & <- & _)|[_ Hb]]; [replace a with x by congruence; apply Hf|].
  replace b with a by congruence. reflexivity.
Qed.
Ltac alike_same := intros ?; split; [calm_fields|done].
Lemma wlp_files_alike {A} (m : K (fls (fst B pst)) A) (Q : A → P → Prop) s0 s :
  alike_s s0 s → (∀ a s', alike_s s0 s' → Q a s') → wlp (on_files m) Q s.
Proof using Type.
  intros H0 HQ. apply wlp_on_files. intros a s' Hs. apply HQ. etrans; [done|by apply same_alike].
Qed.

(** [fork_alloc] allocates an entry and fills it, or frees it again. *)
Definition fork_post (s : P) (r : option nat) (s' : P) : Prop :=
  match r with
  | Some q => ∃ s1, alloc_post s (Some q) s1 ∧ alike_s s1 s'
  | None => alloc_post s None s' ∨
      ∃ q s1 y', alloc_post s (Some q) s1 ∧ procs s' = <[q := y']> (procs s1) ∧ wiped y' ∧
        nextpid s' = nextpid s1 ∧ initproc s' = initproc s1
  end.

Lemma fork_alloc_table p s : wlp (fork_alloc kend trampoline forkret p) (fork_post s) s.
Proof using Type.
  unfold fork_alloc. apply (wlp_seq _ _ _ _ _ (allocproc_table kend trampoline forkret s)).
  intros [q|] s1 Hpost; [|apply wlp_ret; by left].
  wlp_step. apply wlp_pget. intros x1 Hx1. wlp_step. apply wlp_pget. intros y1 Hy1.
  wlp_step. apply wlp_on_pages. intros r s2 (E2 & En2 & Ei2). case_match.
  { eapply wlp_seq; [apply (freeproc_spec kend q y1 s2); congruence|].
    intros [] s3 (y' & E3 & Hw & En3 & Ei3). apply wlp_ret. right. exists q, s1, y'.
    split_and!; [done|congruence|done|congruence|congruence]. }
  assert (alike_s s1 s2) as H2 by (by apply same_alike). clear E2 En2 Ei2.
  wlp_step. eapply wlp_pset_alike; [exact H2|alike_same|]. clear s2 H2. intros s2 H2.
  do 3 (wlp_step; eapply wlp_files_alike; [exact H2|]; clear s2 H2; intros ? s2 H2).
  wlp_step. apply (wlp_for_each (λ _ s', alike_s s1 s')); [done| |].
  - intros j s4 _ H4. destruct (p_ofile (id x1) !! Z.to_nat j) as [[f|]|]; [|by apply wlp_ret..].
    wlp_step. eapply wlp_files_alike; [exact H4|]. intros f' s5 H5.
    eapply wlp_pset_alike; [exact H5|alike_same|done].
  - intros s4 H4. destruct (p_cwd (id x1)); [|done]. wlp_step. eapply wlp_files_alike; [exact H4|].
    intros d s5 H5. wlp_step. eapply wlp_pset_alike; [exact H5|alike_same|].
    intros s6 H6. wlp_step. eapply wlp_pset_alike; [exact H6|alike_same|]. intros s7 H7.
    apply wlp_ret. by exists s1.
Qed.

Lemma fork_alloc_Inv pend p x s :
  Inv pend s → procs s !! p = Some x → awake x → pend !! p = None →
  wlp (fork_alloc kend trampoline forkret p) (λ r s',
    match r with
    | None => Inv pend s'
    | Some q => forked (<[p := q]> pend) q s'
    end) s.
Proof using Type.
  intros HI Hx Hax Hp. eapply wlp_mono; [apply fork_alloc_table|]. intros [q|] s' Hpost.
  - destruct Hpost as (s1 & H1 & H2). eapply forked_calm; [|by apply alike_calm].
    apply (allocproc_Inv pend p x s _ s1 HI Hx Hax Hp H1).
  - destruct Hpost as [H1|(q & s1 & y' & H1 & E & (W1 & W2 & W3) & En & Ei)].
    + apply (allocproc_Inv pend p x s _ s' HI Hx Hax Hp H1).
    + destruct (allocproc_Inv pend p x s _ s1 HI Hx Hax Hp H1) as (HI1 & y & Hy & Hn).
      pose proof (PInv_abort _ _ _ _ HI1 p q y y' (lookup_insert_eq _ _ _) Hy Hn W1 W2 W3) as H2.
      unfold Inv. rewrite E, En, Ei. by rewrite delete_insert_id in H2.
Qed.

Lemma fork_parent_Inv pend p q s :
  forked pend q s → pend !! p = Some q → wlp (fork_parent p q) (λ _ s', Inv pend s') s.
Proof using Type.
  intros (HI & y & Hy & Hn) Hp. apply wlp_pset. intros y' Hy'. replace y' with y by congruence.
  destruct (pi_pend _ _ _ _ _ HI p q Hp) as (_ & z & Hz & Hu & _). replace z with y in * by congruence.
  apply (PInv_adopt _ _ _ _ HI p q y); done.
Qed.

Lemma fork_start_Inv pend p q y s :
  Inv pend s → pend !! p = Some q → procs s !! q = Some y → p_parent y = Some p →
  wlp (fork_start q) (λ _ s', Inv (delete p pend) s') s.
Proof using Type.
  intros HI Hp Hy Hn. apply wlp_pset. intros y' Hy'. replace y' with y by congruence.
  by apply (PInv_start _ _ _ _ HI p q y).
Qed.

(** ** exit *)
Lemma not_waiting_after pend ex init np t i :
  PInv pend ex init np t → (∀ x, t !! i = Some x → p_state x = SLEEPING → p_chan x ≠ ChanProc i) → ¬ waiting t i.
Proof using Type. intros _ H (x & Hx & Hs & Hc). by apply (H x). Qed.

Lemma reparent_spec pend p x i0 s :
  Inv pend s → procs s !! p = Some x → p_state x = RUNNING → pend !! p = None →
  initproc s = Some i0 → i0 ≠ p →
  wlp (reparent p) (λ _ s', Inv pend s' ∧ procs s' !! p = Some x ∧ initproc s' = Some i0 ∧
    ∀ j z, procs s' !! j = Some z → p_parent z ≠ Some p) s.
Proof using Type.
  intros HI Hx Hr Hp Hi Hne. unfold reparent.
  apply (wlp_for_each (λ j s', Inv pend s' ∧ procs s' !! p = Some x ∧ initproc s' = Some i0 ∧
    ∀ q z, Z.of_nat q < j → procs s' !! q = Some z → p_parent z ≠ Some p)).
  - split_and!; [done..|lia].
  - intros j s1 Hj (H1 & Hx1 & Hi1 & Hc1). wlp_step. apply wlp_pget. intros y Hy. unfold id.
    apply wlp_when; intros Hb.
    + apply bool_decide_eq_true in Hb. wlp_steps. rewrite Hi1. apply wlp_pset. intros y' Hy'.
      replace y' with y in * by congruence. clear y' Hy'.
      assert (Z.to_nat j ≠ p) as Hjp.
      { intros E. by destruct (pi_parent _ _ _ _ _ H1 (Z.to_nat j) y p Hy Hb). }
      pose proof (PInv_reparent pend (initproc s1) (nextpid s1) (procs s1) H1 p x i0 (Z.to_nat j) y
        (set_parent (Some i0) y) Hx1 Hr Hp Hi1 Hy Hb eq_refl eq_refl eq_refl eq_refl) as H2.
      eapply wlp_mono; [apply wakeup_spec; simpl; rewrite length_insert; apply (pi_len _ _ _ _ _ H1)|].
      intros [] s2 ((HF & En & Ei) & Hw & Hm). simpl in *.
      pose proof (PInv_calm _ _ _ _ _ _ H2 HF) as H3. rewrite <-En, <-Ei in H3. split_and!.
      * apply (PInv_woken _ i0 _ _ _ H3). eapply not_waiting_after; [exact H3|]. intros z Hz Hs.
        apply (Hw i0 z Hz); [congruence|done].
      * rewrite (Hm p eq_refl). by rewrite list_lookup_insert_ne.
      * congruence.
      * intros q z Hq Hz Hpz. destruct (calm_lookup _ _ _ _ HF Hz) as (z0 & Hz0 & _ & Epz & _).
        rewrite Epz in Hpz. apply list_lookup_insert_Some in Hz0 as [(<- & <- & _)|[Hnq Hz0]].
        -- simpl in Hpz. congruence.
        -- apply (Hc1 q z0); [lia|done..].
    + apply bool_decide_eq_false in Hb. split_and!; [done..|]. intros q z Hq Hz.
      destruct (decide (q = Z.to_nat j)) as [->|]; [congruence|]. apply (Hc1 q z); [lia|done].
  - intros s1 (H1 & Hx1 & Hi1 & Hc1). split_and!; [done..|]. intros q z Hz. apply (Hc1 q z); [|done].
    apply lookup_lt_Some in Hz. rewrite (pi_len _ _ _ _ _ H1) in Hz. lia.
Qed.

Lemma exit_zombie_Inv pend p x i0 status s :
  Inv pend s → procs s !! p = Some x → p_state x = RUNNING → pend !! p = None →
  initproc s = Some i0 → i0 ≠ p →
  wlp (exit_zombie p status) (λ _ s', Inv pend s' ∧
    ∃ y, procs s' !! p = Some y ∧ p_state y = ZOMBIE ∧ p_xstate y = status) s.
Proof using Type.
  intros HI Hx Hr Hp Hi Hne. unfold exit_zombie.
  apply (wlp_seq _ _ _ _ _ (reparent_spec pend p x i0 s HI Hx Hr Hp Hi Hne)).
  intros _ s1 (H1 & Hx1 & Hi1 & Hc1). wlp_step. apply wlp_pget. intros x' Hx'.
  replace x' with x in * by congruence. clear x' Hx'.
  eapply wlp_seq; [apply wakeup_spec, (pi_len _ _ _ _ _ H1)|]. intros [] s2 (HC & Hw & Hm).
  pose proof (Inv_calm _ _ _ H1 HC) as H2. destruct HC as (HF & En & Ei).
  assert (procs s2 !! p = Some x) as Hx2 by (by rewrite (Hm p eq_refl)).
  apply wlp_pset. intros x' Hx'. replace x' with x in * by congruence. clear x' Hx'. split.
  - apply (PInv_zombie _ _ _ _ H2 p x); try done; [congruence| |].
    + intros j z Hz Hpz. destruct (calm_lookup _ _ _ _ HF Hz) as (z0 & Hz0 & _ & Epz & _).
      rewrite Epz in Hpz. by apply (Hc1 j z0).
    + intros r Hr'. eapply not_waiting_after; [exact H2|]. intros z Hz Hs.
      destruct (pi_parent _ _ _ _ _ H2 p x r Hx2 Hr') as (? & _). rewrite Hr' in Hw. apply (Hw r z Hz); congruence.
  - eexists. split; [apply list_lookup_insert_eq; by eapply lookup_lt_Some|]. done.
Qed.

Lemma exit_close_calm p s : wlp (exit_close kend p) (λ _ s', calm_s s s') s.
Proof using Type.
  unfold exit_close. wlp_steps. apply wlp_pget. intros x0 _.
  apply (wlp_seq _ _ (λ _ s', calm_s s s')).
  { apply wlp_calm_each. intros j s1. wlp_step. apply wlp_pget. intros x1 _.
    destruct (p_ofile x1 !! Z.to_nat j) as [[f|]|]; [|apply wlp_ret; reflexivity..].
    wlp_step. apply wlp_on_files. intros [] s2 H2. apply wlp_pset_calm; [calm_same|].
    intros s3 H3. etrans; [by apply same_calm|done]. }
  intros _ s1 H1. wlp_step. apply wlp_on_fs. intros [] s2 H2. wlp_step. apply wlp_pget. intros x2 _.
  apply (wlp_seq _ _ (λ _ s', calm_s s s')).
  { assert (calm_s s s2) by (etrans; [done|by apply same_calm]).
    destruct (p_cwd x2); [|done]. apply wlp_on_fs. intros [] s3 H3. etrans; [done|by apply same_calm]. }
  intros _ s3 H3. wlp_step. apply wlp_on_fs. intros [] s4 H4. apply wlp_pset_calm; [calm_same|].
  intros s5 H5. etrans; [done|]. etrans; [by apply same_calm|done].
Qed.

(** ** wait *)

(** The process has no child that has exited. *)
Definition no_zombie (t : list proc) (p : nat) : Prop :=
  ∀ j z, t !! j = Some z → p_parent z = Some p → p_state z ≠ ZOMBIE.
Definition has_child (t : list proc) (p : nat) : Prop :=
  ∃ j z, t !! j = Some z ∧ p_parent z = Some p.

(** The zombie child [q] of [p] has been collected. *)
Definition reaped (p : nat) (v : Z) (s s' : P) : Prop :=
  ∃ q y y', procs s !! q = Some y ∧ p_state y = ZOMBIE ∧ p_parent y = Some p ∧ v = p_pid y ∧
    procs s' = <[q := y']> (procs s) ∧ wiped y' ∧ nextpid s' = nextpid s ∧ initproc s' = initproc s.

Lemma reaped_same p v s s1 s' : same s s1 → reaped p v s1 s' → reaped p v s s'.
Proof using Type.
  intros (E & En & Ei) (q & y & y' & Hq & H1 & H2 & H3 & H4 & H5 & H6 & H7).
  exists q, y, y'. rewrite <-E. split_and!; [done..|congruence|congruence].
Qed.

Lemma wait_scan_spec p addr s :
  length (procs s) = Z.to_nat NPROC →
  wlp (wait_scan kend p addr) (λ r s',
    match r with
    | inl hk => same s s' ∧ no_zombie (procs s) p ∧ (hk = true ↔ has_child (procs s) p)
    | inr v => ¬ no_zombie (procs s) p ∧ (same s s' ∧ v = -1 ∧ addr ≠ 0 ∨ reaped p v s s')
    end) s.
Proof using Type.
  intros HL. unfold wait_scan. wlp_step. apply wlp_pget. intros x0 _.
  set (R := λ (r : bool * option Z) (s' : P),
    match r.2 with
    | None => same s s' ∧ no_zombie (procs s) p ∧ (r.1 = true ↔ has_child (procs s) p)
    | Some v => ¬ no_zombie (procs s) p ∧ (same s s' ∧ v = -1 ∧ addr ≠ 0 ∨ reaped p v s s')
    end).
  apply (wlp_seq _ _ R).
  2: { intros [hk [v|]] s' HR; apply wlp_ret; exact HR. }
  apply (wlp_while_loop (λ '(i, hk) s', same s s' ∧ 0 ≤ i ∧
    (∀ j z, Z.of_nat j < i → procs s !! j = Some z → p_parent z = Some p → p_state z ≠ ZOMBIE) ∧
    (hk = true ↔ ∃ j z, Z.of_nat j < i ∧ procs s !! j = Some z ∧ p_parent z = Some p))).
  { split_and!; [done|lia|lia|]. split; [done|]. intros (j & z & ? & _). lia. }
  intros [i hk] s1 (Hs & Hi & Hz & Hk). destruct (Z.leb_spec NPROC i) as [Hn|Hn].
  { apply wlp_ret. split_and!; [done| |].
    - intros j z Hj. apply (Hz j z); [|done]. apply lookup_lt_Some in Hj. rewrite HL in Hj. lia.
    - rewrite Hk. split.
      + intros (j & z & _ & ? & ?). by exists j, z.
      + intros (j & z & Hj & ?). exists j, z. split; [|done]. apply lookup_lt_Some in Hj. rewrite HL in Hj. lia. }
  wlp_step. apply wlp_pget. intros y Hy. unfold id. destruct (Hs) as (E & _). rewrite E in Hy.
  assert (∀ j z (Q : proc → Prop), Z.of_nat j < i + 1 → procs s !! j = Some z → Q y →
    (Z.of_nat j < i → Q z) → Q z) as Hstep.
  { intros j z Q Hj Hjz HQ Hlt. destruct (decide (j = Z.to_nat i)) as [->|]; [congruence|apply Hlt; lia]. }
  case_decide as Hpar; [case_decide as Hzom|].
  - assert (¬ no_zombie (procs s) p) as Hnz by (intros Hnz; by apply (Hnz (Z.to_nat i) y)).
    apply (wlp_seq _ _ (λ e s', same s s' ∧ (e < 0 → addr ≠ 0))).
    { destruct (Z.eqb_spec addr 0); [apply wlp_ret; split; [done|lia]|].
      apply wlp_on_pages. intros a s2 (? & ? & ?). destruct Hs as (? & ? & ?).
      split; [split_and!; congruence|done]. }
    intros e s2 [Hs2 He]. destruct (Z.ltb_spec e 0).
    { apply wlp_ret. split; [done|]. left. auto. }
    destruct (Hs2) as (E2 & _).
    eapply wlp_seq; [apply (freeproc_spec kend (Z.to_nat i) y s2); congruence|].
    intros [] s3 (y' & E3 & Hw & En3 & Ei3). apply wlp_ret. split; [done|]. right.
    apply (reaped_same p _ s s2 s3 Hs2). exists (Z.to_nat i), y, y'. split_and!; congruence || done.
  - apply wlp_ret. split_and!; [done|lia| |].
    + intros j z Hj Hjz. apply (Hstep j z (λ z, _ → _) Hj Hjz); [done|]. intros ?. by apply (Hz j z).
    + split; [|done]. intros _. exists (Z.to_nat i), y. split; [lia|done].
  - apply wlp_ret. split_and!; [done|lia| |].
    + intros j z Hj Hjz. apply (Hstep j z (λ z, _ → _) Hj Hjz); [done|]. intros ?. by apply (Hz j z).
    + rewrite Hk. split; intros (j & z & Hj & Hjz & Hpz); exists j, z; (split; [|done]); [lia|].
      destruct (decide (j = Z.to_nat i)) as [->|]; [congruence|lia].
Qed.

Lemma wait_round_Inv pend p x addr s :
  Inv pend s → procs s !! p = Some x → p_state x = RUNNING → pend !! p = None →
  wlp (wait_round kend p addr) (λ _ s', Inv pend s') s.
Proof using Type.
  intros HI Hx Hr Hp. unfold wait_round.
  apply (wlp_seq _ _ _ _ _ (wait_scan_spec p addr s (pi_len _ _ _ _ _ HI))).
  intros [hk|v] s1.
  - intros (Hs & Hz & Hk). pose proof (Inv_same _ _ _ HI Hs) as H1. wlp_step. apply wlp_pget. intros x1 Hx1.
    destruct (negb hk || negb (p_killed x1 =? 0)) eqn:Eb; [by apply wlp_ret|].
    apply orb_false_iff in Eb as [Ehk%negb_false_iff _]. destruct Hs as (E & _).
    wlp_step. apply wlp_pset. intros x2 Hx2. apply wlp_ret. rewrite E in Hx2. replace x2 with x in * by congruence.
    apply (PInv_sleep _ _ _ _ H1 p x); try done; rewrite E; [done|]. intros _.
    apply Hk in Ehk. done.
  - intros [_ [[Hs _]|(q & y & y' & Hq & H1 & H2 & H3 & H4 & (W1 & W2 & W3) & H6 & H7)]]; apply wlp_ret.
    + by eapply Inv_same.
    + unfold Inv. rewrite H4, H6, H7. apply (PInv_reap _ _ _ _ HI q y y' p x); try done. by right.
Qed.

(** Total versions. *)
Lemma wp_pset p f x (Q : unit → P → Prop) s :
  procs s !! p = Some x → Q tt (upd s p (f x)) → wp (pset p f) Q s.
Proof using Type.
  intros Hx HQ. unfold pset. apply wp_bind. eapply wp_pget; [done|]. apply wp_modify.
  by rewrite (alter_insert _ _ _ _ Hx).
Qed.

(** ** kill *)
Definition kill_mark (y : proc) : proc :=
  if decide (p_state y = SLEEPING) then set_state RUNNABLE (set_killed 1 y) else set_killed 1 y.

Lemma kill_mark_calm y : calm y (kill_mark y).
Proof using Type. unfold kill_mark. case_decide; unfold calm, live, awake; simpl; intuition congruence. Qed.

(** The first entry with this identifier is marked. *)
Lemma pkill_spec pid s :
  length (procs s) = Z.to_nat NPROC →
  wp (kill pid) (λ r s',
    (r = 0 ∧ ∃ q y, procs s !! q = Some y ∧ p_pid y = pid ∧
       (∀ j z, (j < q)%nat → procs s !! j = Some z → p_pid z ≠ pid) ∧ s' = upd s q (kill_mark y)) ∨
    (r = -1 ∧ s' = s ∧ ∀ j z, procs s !! j = Some z → p_pid z ≠ pid)) s.
Proof using Type.
  intros HL. unfold kill. apply wp_bind.
  apply (wp_for_loop (λ j s', s' = s ∧ ∀ k z, Z.of_nat k < j → procs s !! k = Some z → p_pid z ≠ pid)).
  - split; [done|lia].
  - intros j s1 Hj [-> Hc]. assert (∃ y, procs s !! Z.to_nat j = Some y) as [y Hy].
    { apply lookup_lt_is_Some. rewrite HL. lia. }
    apply wp_bind. eapply wp_pget; [done|]. unfold id.
    destruct (Z.eqb_spec (p_pid y) pid) as [E|E].
    + apply wp_bind. eapply wp_pset; [done|]. apply wp_bind.
      assert (procs (upd s (Z.to_nat j) (set_killed 1 y)) !! Z.to_nat j = Some (set_killed 1 y)) as Hy1.
      { simpl. apply list_lookup_insert_eq. by eapply lookup_lt_Some. }
      unfold kill_mark. apply wp_when; intros Hb.
      * apply bool_decide_eq_true in Hb. eapply wp_pset; [done|]. apply wp_ret, wp_ret. left.
        split; [done|]. exists (Z.to_nat j), y. split_and!; [done..| |].
        -- intros k z Hk. apply Hc. lia.
        -- rewrite decide_True by done. unfold upd. simpl. by rewrite list_insert_insert_eq.
      * apply bool_decide_eq_false in Hb. apply wp_ret, wp_ret. left.
        split; [done|]. exists (Z.to_nat j), y. split_and!; [done..| |].
        -- intros k z Hk. apply Hc. lia.
        -- by rewrite decide_False by done.
    + apply wp_ret. split; [done|]. intros k z Hk Hkz.
      destruct (decide (k = Z.to_nat j)) as [->|]; [congruence|]. apply (Hc k z); [lia|done].
  - intros s1 [-> Hc]. apply wp_ret. right. split_and!; [done..|]. intros j z Hj. apply (Hc j z); [|done].
    apply lookup_lt_Some in Hj. rewrite HL in Hj. lia.
Qed.
End sections.

(** ** Interleaving *)
Section interleaving.
Context {B : Type} `{!BlockStore B, !TxStore B, !DevOps (fst B pst)}.
Context (kend trampoline forkret : Z).
Abbreviation P := (pcb B).
Implicit Types s : P.

Definition running (s : P) (p : nat) : Prop := ∃ x, procs s !! p = Some x ∧ p_state x = RUNNING.

(** One section of kernel code on some processor.  [pend] records who is
    between the sections of [fork] and with which child; such a process does
    nothing else until [fork] is done, but it may be preempted. *)
Inductive kstep : P → gmap nat nat → P → gmap nat nat → Prop :=
  | k_fork s pend p r s' :
      running s p → pend !! p = None → fork_alloc kend trampoline forkret p s = Ok (r, s') →
      kstep s pend s' (match r with Some q => <[p := q]> pend | None => pend end)
  | k_parent s pend p q y s' :
      running s p → pend !! p = Some q → procs s !! q = Some y → p_parent y = None →
      fork_parent p q s = Ok (tt, s') → kstep s pend s' pend
  | k_start s pend p q y s' :
      running s p → pend !! p = Some q → procs s !! q = Some y → p_parent y = Some p →
      fork_start q s = Ok (tt, s') → kstep s pend s' (delete p pend)
  | k_close s pend p s' :
      running s p → pend !! p = None → exit_close kend p s = Ok (tt, s') → kstep s pend s' pend
  | k_exit s pend p status s' :
      running s p → pend !! p = None → initproc s ≠ Some p →
      exit_zombie p status s = Ok (tt, s') → kstep s pend s' pend
  | k_wait s pend p addr r s' :
      running s p → pend !! p = None → wait_round kend p addr s = Ok (r, s') → kstep s pend s' pend
  | k_kill s pend p pid r s' :
      running s p → kill pid s = Ok (r, s') → kstep s pend s' pend
  | k_sleep s pend p a s' :
      running s p → pend !! p = None → sleep_begin p (ChanAddr a) s = Ok (tt, s') → kstep s pend s' pend
  | k_awake s pend p s' :
      running s p → sleep_end p s = Ok (tt, s') → kstep s pend s' pend
  | k_wakeup s pend me c s' :
      wakeup me c s = Ok (tt, s') → kstep s pend s' pend
  | k_run s pend p s' :
      sched_run p s = Ok (tt, s') → kstep s pend s' pend
  | k_yield s pend p s' :
      running s p → yield p s = Ok (tt, s') → kstep s pend s' pend
  | k_grow s pend p n r s' :
      running s p → growproc kend p n s = Ok (r, s') → kstep s pend s' pend
  | k_other s pend {A} (m : K (fls (fst B pst)) A) r s' :
      on_files m s = Ok (r, s') → kstep s pend s' pend.

(** Static storage is zero when the kernel starts. *)
Definition zeroed (s : P) : Prop :=
  length (procs s) = Z.to_nat NPROC ∧ nextpid s = 1 ∧
  Forall (λ x, p_pid x = 0 ∧ p_parent x = None) (procs s).

Inductive kreach : P → gmap nat nat → Prop :=
  | kr_boot s0 s : zeroed s0 → (procinit;; userinit kend trampoline forkret) s0 = Ok (tt, s) → kreach s ∅
  | kr_step s pend s' pend' : kreach s pend → kstep s pend s' pend' → kreach s' pend'.

(** *** The first process *)
Definition blank (t : list proc) (j : nat) : Prop :=
  ∀ z, t !! j = Some z → p_state z = UNUSED ∧ p_pid z = 0 ∧ p_parent z = None.
Definition booting (q : nat) (st : procstate) (s : P) : Prop :=
  length (procs s) = Z.to_nat NPROC ∧ nextpid s = 2 ∧ initproc s = Some q ∧
  (∃ y, procs s !! q = Some y ∧ p_state y = st ∧ p_pid y = 1 ∧ p_parent y = None) ∧
  ∀ j, j ≠ q → blank (procs s) j.

Lemma procinit_spec s0 : zeroed s0 →
  wlp procinit (λ _ s, length (procs s) = Z.to_nat NPROC ∧ nextpid s = 1 ∧ ∀ j, blank (procs s) j) s0.
Proof using Type.
  intros (HL & HN & HF). unfold procinit.
  apply (wlp_for_each (λ j s, length (procs s) = Z.to_nat NPROC ∧ nextpid s = 1 ∧
    Forall (λ x, p_pid x = 0 ∧ p_parent x = None) (procs s) ∧
    ∀ k z, Z.of_nat k < j → procs s !! k = Some z → p_state z = UNUSED)).
  - split_and!; [done..|lia].
  - intros j s Hj (HL' & HN' & HF' & HU). apply wlp_pset. intros x Hx. simpl.
    pose proof (Forall_lookup_1 _ _ _ _ HF' Hx) as Hx0. split_and!; [by rewrite length_insert|done| |].
    + by apply Forall_insert.
    + intros k z Hk. rewrite list_lookup_insert_Some. intros [(<- & <- & _)|[Hne Hz]]; [done|].
      apply (HU k z); [lia|done].
  - intros s (HL' & HN' & HF' & HU). split_and!; [done..|]. intros j z Hz.
    pose proof (Forall_lookup_1 _ _ _ _ HF' Hz) as Hz0. split; [|done]. apply (HU j z); [|done].
    apply lookup_lt_Some in Hz. lia.
Qed.

Lemma booting_pset q st st' f (Q : unit → P → Prop) s :
  booting q st s →
  (∀ y, p_state y = st → p_state (f y) = st' ∧ p_pid (f y) = p_pid y ∧ p_parent (f y) = p_parent y) →
  (∀ s', booting q st' s' → Q tt s') → wlp (pset q f) Q s.
Proof using Type.
  intros (HL & HN & Hi & (y & Hy & Hs & Hp & Hn) & Hj) Hf HQ. apply wlp_pset. intros y' Hy'.
  replace y' with y in * by congruence. apply HQ. destruct (Hf y Hs) as (? & ? & ?).
  split_and!; simpl; [by rewrite length_insert|done|done| |].
  - exists (f y). split_and!; [|congruence..]. apply list_lookup_insert_eq. by eapply lookup_lt_Some.
  - intros j Hne z. rewrite list_lookup_insert_ne by done. by apply Hj.
Qed.
Lemma booting_same q st s s' : booting q st s → same s s' → booting q st s'.
Proof using Type. intros H (E & En & Ei). unfold booting. by rewrite E, En, Ei. Qed.

Lemma userinit_spec s :
  length (procs s) = Z.to_nat NPROC → nextpid s = 1 → (∀ j, blank (procs s) j) →
  wlp (userinit kend trampoline forkret) (λ _ s', ∃ q, booting q RUNNABLE s') s.
Proof using Type.
  intros HL HN HB. unfold userinit. apply (wlp_seq _ _ _ _ _ (allocproc_table kend trampoline forkret s)).
  intros r s1 (Ei & Hr). wlp_step. apply wlp_modify. destruct r as [q|]; [|done].
  destruct Hr as (_ & y & y' & Hy & Hu & E & En & Hs' & Hp' & Hn' & _).
  assert (booting q USED (Pcb (files s1) (procs s1) (nextpid s1) (Some q) (ticks s1))) as H1.
  { split_and!; simpl; rewrite ?E; [by rewrite length_insert|lia|done| |].
    - exists y'. split_and!; [apply list_lookup_insert_eq; by eapply lookup_lt_Some|done|congruence|].
      rewrite Hn'. by apply (HB q).
    - intros j Hne z. rewrite list_lookup_insert_ne by done. apply HB. }
  clear Hs' Hp' Hn' E En. wlp_step. apply wlp_pget. intros x1 Hx1. wlp_step.
  apply wlp_on_pages. intros [] s2 H2. eapply booting_same in H2; [|exact H1].
  wlp_step. apply (booting_pset q USED USED); [exact H2|done|]. intros s3 H3.
  wlp_step. apply wlp_on_pages. intros [] s4 H4. eapply booting_same in H4; [|exact H3].
  wlp_step. apply wlp_on_pages. intros [] s5 H5. eapply booting_same in H5; [|exact H4].
  wlp_step. apply (booting_pset q USED USED); [exact H5|done|]. intros s6 H6.
  wlp_step. apply wlp_on_fs. intros ip s7 H7. eapply booting_same in H7; [|exact H6].
  wlp_step. apply (booting_pset q USED USED); [exact H7|done|]. intros s8 H8.
  apply (booting_pset q USED RUNNABLE); [exact H8|done|]. intros s9 H9. by exists q.
Qed.

Lemma booting_Inv q s : booting q RUNNABLE s → Inv ∅ s.
Proof using Type.
  intros (HL & HN & Hi & (y & Hy & Hs & Hp & Hn) & HB).
  assert (∀ j z, procs s !! j = Some z → p_state z ≠ UNUSED → j = q ∧ z = y) as Hq.
  { intros j z Hz Hu. destruct (decide (j = q)) as [->|Hne]; [split; congruence|].
    by destruct (HB j Hne z Hz). }
  assert (∀ j z, procs s !! j = Some z → p_parent z = None) as Hpar.
  { intros j z Hz. destruct (decide (j = q)) as [->|Hne]; [congruence|]. by destruct (HB j Hne z Hz) as (_ & _ & ?). }
  split; try done.
  - lia.
  - congruence.
  - intros j z Hz Hu. destruct (decide (j = q)) as [->|Hne]; [congruence|]. by destruct (HB j Hne z Hz) as (_ & ? & ?).
  - intros j z Hz Hu. destruct (Hq j z Hz Hu) as [-> ->]. lia.
  - intros j k z w Hz Hw Hu E. destruct (Hq j z Hz Hu) as [-> ->]. symmetry.
    destruct (decide (k = q)) as [->|Hne]; [done|]. destruct (HB k Hne w Hw) as (_ & ? & _). lia.
  - intros j z r Hz Hr. rewrite (Hpar j z Hz) in Hr. done.
  - intros j z Hz Hu _. destruct (Hq j z Hz Hu) as [-> ->]. by left.
  - intros i Hi'. assert (i = q) as -> by congruence. exists y. split_and!; [done|unfold live; auto|done].
  - intros j z Hz Hsl. destruct (Hq j z Hz ltac:(congruence)) as [-> ->]. congruence.
  - intros j z Hz Hu. destruct (Hq j z Hz ltac:(congruence)) as [-> ->]. congruence.
Qed.

Lemma boot_Inv s0 s : zeroed s0 → (procinit;; userinit kend trampoline forkret) s0 = Ok (tt, s) → Inv ∅ s.
Proof using Type.
  intros HZ Hrun. refine (wlp_elim _ (λ _ s, Inv ∅ s) s0 tt s _ Hrun). clear Hrun.
  apply (wlp_seq _ _ _ _ _ (procinit_spec s0 HZ)). intros _ s1 (HL & HN & HB).
  eapply wlp_mono; [by apply userinit_spec|]. intros [] s2 [q Hq]. by eapply booting_Inv.
Qed.

(** *** Steps *)
Lemma pset_calm_Inv pend p f x s s' : Inv pend s → procs s !! p = Some x → calm x (f x) →
  pset p f s = Ok (tt, s') → Inv pend s'.
Proof using Type.
  intros HI Hx HC. apply (wlp_elim _ (λ _ s', Inv pend s')). apply wlp_pset. intros x' Hx'.
  replace x' with x in * by congruence. eapply Inv_calm; [done|]. by eapply calm_upd.
Qed.

Lemma growproc_calm p n s : wlp (growproc kend p n) (λ _ s', calm_s s s') s.
Proof using Type.
  unfold growproc. wlp_step. apply wlp_pget. intros x _.
  assert (∀ v w s1, same s s1 → wlp (pset p (set_sz v);; mret (w : Z)) (λ _ s', calm_s s s') s1) as Hset.
  { intros v w s1 H1. wlp_step. apply wlp_pset_calm; [calm_same|]. intros s2 H2. apply wlp_ret.
    etrans; [by apply same_calm|done]. }
  case_match; [|case_match; [|by apply Hset]]; wlp_step; apply wlp_on_pages; intros r s1 H1;
    [case_match; [apply wlp_ret; by apply same_calm|]|]; by apply Hset.
Qed.

Lemma kstep_Inv s pend s' pend' : kstep s pend s' pend' → Inv pend s → Inv pend' s'.
Proof using Type.
  destruct 1 as [s pend p r s' (x & Hx & Hr) Hp Hrun|s pend p q y s' _ Hp Hy Hn Hrun
    |s pend p q y s' _ Hp Hy Hn Hrun|s pend p s' _ _ Hrun|s pend p status s' (x & Hx & Hr) Hp Hi Hrun
    |s pend p addr r s' (x & Hx & Hr) Hp Hrun|s pend p pid r s' _ Hrun|s pend p a s' (x & Hx & Hr) Hp Hrun
    |s pend p s' (x & Hx & Hr) Hrun|s pend me c s' Hrun|s pend p s' Hrun|s pend p s' (x & Hx & Hr) Hrun
    |s pend p n r s' _ Hrun|s pend A m r s' Hrun]; intros HI.
  - pose proof (wlp_elim _ _ _ _ _ (fork_alloc_Inv kend trampoline forkret pend p x s HI Hx (or_intror Hr) Hp) Hrun).
    destruct r; [|done]. by destruct H.
  - apply (wlp_elim _ _ _ _ _ (fork_parent_Inv pend p q s (conj HI (ex_intro _ y (conj Hy Hn))) Hp) Hrun).
  - apply (wlp_elim _ _ _ _ _ (fork_start_Inv pend p q y s HI Hp Hy Hn) Hrun).
  - eapply Inv_calm; [exact HI|]. apply (wlp_elim _ _ _ _ _ (exit_close_calm kend p s) Hrun).
  - destruct (initproc s) as [i0|] eqn:Ei; [|by destruct (pi_booted _ _ _ _ _ HI)].
    apply (wlp_elim _ _ _ _ _ (exit_zombie_Inv pend p x i0 status s HI Hx Hr Hp Ei ltac:(congruence)) Hrun).
  - apply (wlp_elim _ _ _ _ _ (wait_round_Inv kend pend p x addr s HI Hx Hr Hp) Hrun).
  - destruct (wp_elim _ _ _ _ _ (pkill_spec pid s (pi_len _ _ _ _ _ HI)) Hrun)
      as [(_ & q & y & Hy & _ & _ & ->)|(_ & -> & _)]; [|done].
    eapply Inv_calm; [done|]. by eapply calm_upd, kill_mark_calm.
  - refine (wlp_elim _ (λ _ s', Inv pend s') _ _ _ _ Hrun). apply wlp_pset. intros x' Hx'.
    replace x' with x in * by congruence. by apply (PInv_sleep _ _ _ _ HI p x).
  - eapply pset_calm_Inv; [exact HI|done| |exact Hrun]. unfold calm, live, awake. simpl. intuition congruence.
  - eapply Inv_calm; [exact HI|]. apply (wlp_elim _ _ _ _ _ (wakeup_spec me c s (pi_len _ _ _ _ _ HI)) Hrun).
  - revert Hrun. apply (wlp_elim _ (λ _ s', Inv pend s')). unfold sched_run. wlp_step. apply wlp_pget.
    intros x Hx. apply wlp_when; intros Hb; [|done]. apply bool_decide_eq_true in Hb.
    apply wlp_pset. intros x' Hx'. replace x' with x in * by congruence. unfold id in Hb.
    eapply Inv_calm; [done|]. eapply calm_upd; [done|]. unfold calm, live, awake. simpl. intuition congruence.
  - eapply pset_calm_Inv; [exact HI|done| |exact Hrun]. unfold calm, live, awake. simpl. intuition congruence.
  - eapply Inv_calm; [exact HI|]. apply (wlp_elim _ _ _ _ _ (growproc_calm p n s) Hrun).
  - eapply Inv_same; [exact HI|]. apply (wlp_elim _ (λ _ s', same s s') _ _ _ (wlp_on_files m _ _ (λ _ _ H, H)) Hrun).
Qed.
Lemma kreach_Inv s pend : kreach s pend → Inv pend s.
Proof using Type. induction 1 as [s0 s HZ Hrun|]; [by eapply boot_Inv|by eapply kstep_Inv]. Qed.

Lemma unused_first t i q :
  unused_proc t i = Some q → ∀ j z, (i + j < q)%nat → t !! j = Some z → p_state z ≠ UNUSED.
Proof using Type.
  revert i. induction t as [|x t IH]; intros i; simpl; [done|]. case_decide as Hu.
  - intros [= <-] j z Hj. lia.
  - intros Hq [|j] z Hj Hz; [simpl in Hz; congruence|]. apply (IH _ Hq j z); [lia|done].
Qed.
Lemma unused_insert t i k y y' q :
  t !! k = Some y → (p_state y' = UNUSED ↔ p_state y = UNUSED) → unused_proc t i = Some q →
  unused_proc (<[k := y']> t) i = Some q.
Proof using Type.
  revert i k. induction t as [|x t IH]; intros i [|k] Hk He; simpl in *; [done..| |].
  - injection Hk as ->. by destruct (decide (p_state y = UNUSED)), (decide (p_state y' = UNUSED)); [|tauto..|].
  - case_decide; [done|]. by apply IH.
Qed.

(** ** What the invariant means *)

(** C5. No exit is missed and no zombie is left without a collector.  In every
    state that processes reach by forking, exiting, waiting, killing, sleeping
    and being scheduled in any interleaving of the sections of the kernel: a
    process asleep in [wait] has a child, and none of its children is a zombie,
    so that it will be woken by the next child that exits; and every zombie has
    a parent that is alive and can still call [wait]. *)
Theorem wait_misses_no_exit s pend :
  kreach s pend →
  (∀ i x, procs s !! i = Some x → p_state x = SLEEPING → p_chan x = ChanProc i →
     has_child (procs s) i ∧ no_zombie (procs s) i) ∧
  (∀ i x, procs s !! i = Some x → p_state x = ZOMBIE →
     ∃ q y, p_parent x = Some q ∧ q ≠ i ∧ procs s !! q = Some y ∧ live y).
Proof using Type.
  intros HI%kreach_Inv. split.
  - intros i x Hx Hs Hc. destruct (pi_sleep _ _ _ _ _ HI i x Hx Hs Hc) as (Hc' & Hz).
    split; [done|]. exact (Hz ltac:(done)).
  - intros i x Hx Hz. destruct (p_parent x) as [q|] eqn:Hp.
    + destruct (pi_parent _ _ _ _ _ HI i x q Hx Hp) as (? & y & ? & ?). by exists q, y.
    + destruct (pi_orphan _ _ _ _ _ HI i x Hx ltac:(congruence) Hp) as [Hi|]; [|congruence].
      destruct (pi_init _ _ _ _ _ HI i Hi) as (x' & Hx' & Hl & _). unfold live in Hl. intuition congruence.
Qed.

(** [kill] hits its target.  For a positive identifier, in every reachable
    state, [kill] returns 0 and marks the one process that has it, waking it if
    it sleeps, or it returns -1 and there is no such process. *)
Theorem kill_exact s pend pid :
  kreach s pend → 1 ≤ pid →
  wp (kill pid) (λ r s',
    (r = 0 ∧ ∃ q y, procs s !! q = Some y ∧ p_state y ≠ UNUSED ∧ p_pid y = pid ∧
       (∀ j z, procs s !! j = Some z → p_pid z = pid → j = q) ∧
       procs s' = <[q := kill_mark y]> (procs s)) ∨
    (r = -1 ∧ s' = s ∧ ∀ j z, procs s !! j = Some z → p_pid z ≠ pid)) s.
Proof using Type.
  intros HI%kreach_Inv Hpid. eapply wp_mono; [apply (pkill_spec pid s (pi_len _ _ _ _ _ HI))|].
  intros r s' [(-> & q & y & Hy & Hp & _ & ->)|?]; [|by right]. left. split; [done|].
  assert (p_state y ≠ UNUSED) as Hu.
  { intros Hu. destruct (pi_unused _ _ _ _ _ HI q y Hy Hu). lia. }
  exists q, y. split_and!; [done..| |done]. intros j z Hz Hpz. symmetry.
  apply (pi_inj _ _ _ _ _ HI q j y z Hy Hz Hu). congruence.
Qed.

(** [kill(0)] dooms a process that does not exist yet.  Unused entries of
    the table have identifier 0, so [kill(0)] succeeds on the first of them,
    and neither [allocproc] nor [fork] clears the mark: the next process to be
    created is born killed. *)
Theorem kill_zero_dooms_next_child s pend q :
  kreach s pend → unused_proc (procs s) 0 = Some q →
  wp (kill 0) (λ r s', r = 0 ∧
    ∀ p np s'', fork_alloc kend trampoline forkret p s' = Ok (Some np, s'') →
      np = q ∧ ∃ y, procs s'' !! np = Some y ∧ p_state y = USED ∧ p_killed y = 1) s.
Proof using Type.
  intros HI%kreach_Inv Hq. destruct (unused_proc_lookup _ _ Hq) as (y & Hy & Hu).
  destruct (pi_unused _ _ _ _ _ HI q y Hy Hu) as [Hp0 _].
  eapply wp_mono; [apply (pkill_spec 0 s (pi_len _ _ _ _ _ HI))|].
  intros r s' [(-> & k & z & Hz & Hpz & Hfirst & ->)|(_ & _ & Hno)]; [|by destruct (Hno q y Hy)].
  assert (k = q) as ->.
  { destruct (lt_eq_lt_dec k q) as [[Hlt|?]|Hlt]; [|done|by destruct (Hfirst q y Hlt Hy)].
    pose proof (unused_first _ _ _ Hq k z Hlt Hz) as Hzu. pose proof (pi_pid _ _ _ _ _ HI k z Hz Hzu). lia. }
  replace z with y in * by congruence. clear z Hz. split; [done|]. intros p np s'' Hrun.
  destruct (wlp_elim _ _ _ _ _ (fork_alloc_table kend trampoline forkret p _) Hrun)
    as (s1 & (_ & Hq1 & y0 & y1 & Hy0 & _ & E1 & _ & Hs1 & _ & _ & Hk1 & _) & (HF & _)).
  simpl in Hq1. assert (kill_mark y = set_killed 1 y) as Em.
  { unfold kill_mark. by rewrite decide_False by congruence. }
  rewrite Em in *. rewrite (unused_insert _ _ q y (set_killed 1 y) q Hy (iff_refl _) Hq) in Hq1. injection Hq1 as <-.
  split; [done|]. assert (q < length (procs s))%nat as Hlen by by eapply lookup_lt_Some.
  simpl in Hy0. rewrite list_lookup_insert_eq in Hy0 by done. injection Hy0 as <-.
  assert (procs s1 !! q = Some y1) as Hy1.
  { rewrite E1. apply list_lookup_insert_eq. simpl. by rewrite length_insert. }
  destruct (Forall2_lookup_l _ _ _ _ _ HF Hy1) as (y2 & Hy2 & _ & Hs2 & Hk2).
  exists y2. split_and!; [done|congruence|]. rewrite Hk2, Hk1. done.
Qed.

(** Shrinking below zero is reported as success.  [growproc] computes the
    new size in 64 bits; for a negative [n] larger than the process it wraps
    around, [uvmdealloc] takes the new size for growth and does nothing, and
    [growproc] returns 0 with the size unchanged. *)
Theorem sbrk_below_zero_ignored s p x n :
  running s p → procs s !! p = Some x → 0 ≤ p_sz x ≤ MAXVA → - 2 ^ 31 ≤ n < - p_sz x →
  wp (growproc kend p n) (λ r s', r = 0 ∧ procs s' = <[p := set_sz (p_sz x) x]> (procs s) ∧
    files s' = files s) s.
Proof using Type.
  intros _ Hx Hsz Hn. unfold growproc. apply wp_bind. eapply wp_pget; [done|]. unfold id.
  rewrite (proj2 (Z.ltb_ge 0 n)), (proj2 (Z.ltb_lt n 0)) by lia.
  assert (p_sz x <= u64 (p_sz x + n)) as Hle.
  { unfold u64, wrap. change MAXVA with (2 ^ 38) in Hsz.
    replace (p_sz x + n) with (p_sz x + n + 2 ^ 64 + (-1) * 2 ^ 64) by lia.
    rewrite Z.mod_add by lia. rewrite Z.mod_small; lia. }
  apply wp_bind. unfold on_pages, on_fs, on_files, on_below, on_mem, lift, uvmdealloc, wp.
  rewrite (proj2 (Z.leb_le _ _) Hle). cbn.
  change (wp (pset p (set_sz (p_sz x));; mret 0) (λ r s', r = 0 ∧
    procs s' = <[p := set_sz (p_sz x) x]> (procs s) ∧ files s' = files s) (Pcb (Fls (Fst
      (store (below (files s))) (sb (below (files s))) (itable (below (files s))) (umem (below (files s))))
      (ftable (files s))) (procs s) (nextpid s) (initproc s) (ticks s))).
  apply wp_bind. eapply wp_pset; [exact Hx|]. apply wp_ret. split_and!; [done..|].
  simpl. by destruct (files s) as [[] ?].
Qed.
End interleaving.

(** ** A machine with sixteen pages, and no disk *)
Module Demo.
#[local] Instance no_store : BlockStore unit := {
  bread _ _ := mret 0%nat; bp_data _ := mret []; bp_set _ _ := mret tt; log_write _ := mret tt;
  brelse _ := mret tt; mypid _ := 1 }.
#[local] Instance no_tx : TxStore unit := { tx_begin := mret tt; tx_end := mret tt }.
#[local] Instance no_dev : DevOps (fst unit pst) := {
  d_piperead _ _ _ _ := mret 0; d_pipewrite _ _ _ _ := mret 0; d_pipeclose _ _ := mret tt;
  d_pipeinit _ := mret tt; d_read _ _ := None; d_write _ _ := None }.
Definition proc0 : proc :=
  Proc UNUSED NoChan 0 0 0 None 0 0 0 0 (0, 0) (replicate (Z.to_nat NOFILE) None) None [].
Definition inode0 : inode := Inode 0 0 0 Bio.initsleeplock false 0 0 0 0 0 [].
Definition tramp : Z := ram_end - PGSIZE.
Definition power_on : res (unit * pcb unit) :=
  match kinit ram_end ram16 with
  | Ok (_, m) => Ok (tt, Pcb (Fls (Fst tt mkfs_sb (replicate (Z.to_nat NINODE) inode0) m) [])
                           (replicate (Z.to_nat NPROC) proc0) 1 None 0)
  | _ => UB "kinit"
  end.
Definition boot : res (unit * pcb unit) :=
  match power_on with Ok (_, s) => (procinit;; userinit ram_end tramp 0) s | _ => UB "power_on" end.

(** The first process forks, waits and sleeps; the child runs and exits; the
    parent collects it. *)
Definition session : res (option Z * pcb unit) :=
  match boot with
  | Ok (_, s) =>
      (sched_run 0;;
       pid ← fork ram_end tramp 0 0;
       wait_round ram_end 0 0;;
       sched_run 1;;
       exit ram_end 1 7;;
       sched_run 0;;
       sleep_end 0;;
       wait_round ram_end 0 0) s
  | _ => UB "boot"
  end.
Example session_collects : match session with Ok (Some v, _) => v = 2 | _ => False end.
Proof. vm_compute. reflexivity. Qed.

Lemma run_ok {A} (r : res A) (φ : A → Prop) :
  match r with Ok a => φ a | _ => False end → ∃ a, r = Ok a ∧ φ a.
Proof. destruct r; [eauto|intros []..]. Qed.

Lemma power_on_zeroed s : power_on = Ok (tt, s) → zeroed s.
Proof.
  unfold power_on. generalize (kinit ram_end ram16). intros [[u m]| | | |]; [|discriminate..].
  intros [= <-]. split_and!; [reflexivity..|]. by repeat constructor.
Qed.

Lemma boot_reach : ∃ s, kreach ram_end tramp 0 s ∅ ∧ unused_proc (procs s) 0 = Some 1%nat.
Proof.
  assert (match boot with Ok a => unused_proc (procs a.2) 0 = Some 1%nat | _ => False end) as H
    by (vm_compute; reflexivity).
  apply run_ok in H as ([u s] & E & Hu). unfold boot in E. pose proof power_on_zeroed as HZ. revert E HZ.
  generalize power_on. intros [[[] s0]| | | |]; [|discriminate..]. intros E HZ.
  exists s. split; [|exact Hu]. apply (kr_boot _ _ _ s0); [by apply HZ|]. by destruct u.
Qed.
(** Sections of kernel code, run with the guards of [kstep]. *)
Inductive act := Run (p : nat) | Alloc (p : nat) | Parent (p : nat) | Start (p : nat) | WaitRound (p : nat) | Close (p : nat) | Zombie (p : nat).
Definition is_running (s : pcb unit) (p : nat) : bool :=
  match procs s !! p with Some x => bool_decide (p_state x = RUNNING) | None => false end.
Definition parent_of (s : pcb unit) (q : nat) : option (option nat) := p_parent <$> procs s !! q.
Definition perform (a : act) (s : pcb unit) (pend : gmap nat nat) : option (pcb unit * gmap nat nat) :=
  match a with
  | Run p => match sched_run p s with Ok (_, s') => Some (s', pend) | _ => None end
  | Alloc p =>
      if is_running s p && bool_decide (pend !! p = None) then
        match fork_alloc ram_end tramp 0 p s with
        | Ok (r, s') => Some (s', match r with Some q => <[p := q]> pend | None => pend end)
        | _ => None
        end
      else None
  | Parent p =>
      q ← pend !! p;
      if is_running s p && bool_decide (parent_of s q = Some None) then
        match fork_parent p q s with Ok (_, s') => Some (s', pend) | _ => None end
      else None
  | Start p =>
      q ← pend !! p;
      if is_running s p && bool_decide (parent_of s q = Some (Some p)) then
        match fork_start q s with Ok (_, s') => Some (s', delete p pend) | _ => None end
      else None
  | WaitRound p =>
      if is_running s p && bool_decide (pend !! p = None) then
        match wait_round ram_end p 0 s with Ok (_, s') => Some (s', pend) | _ => None end
      else None
  | Close p =>
      if is_running s p && bool_decide (pend !! p = None) then
        match exit_close ram_end p s with Ok (_, s') => Some (s', pend) | _ => None end
      else None
  | Zombie p =>
      if is_running s p && bool_decide (pend !! p = None) && bool_decide (initproc s ≠ Some p) then
        match exit_zombie p 7 s with Ok (_, s') => Some (s', pend) | _ => None end
      else None
  end.
Fixpoint performs (l : list act) (s : pcb unit) (pend : gmap nat nat) : option (pcb unit * gmap nat nat) :=
  match l with
  | [] => Some (s, pend)
  | a :: l => '(s', pend') ← perform a s pend; performs l s' pend'
  end.

Lemma is_running_spec s p : is_running s p = true → running s p.
Proof. unfold is_running, running. destruct (procs s !! p) as [x|]; [|done]. intros H%bool_decide_eq_true. eauto. Qed.
Lemma parent_of_spec s q o : parent_of s q = Some o → ∃ y, procs s !! q = Some y ∧ p_parent y = o.
Proof. unfold parent_of. intros (y & Hy & ->)%fmap_Some. eauto. Qed.
Lemma perform_step a s pend s' pend' : perform a s pend = Some (s', pend') → kstep ram_end tramp 0 s pend s' pend'.
Proof.
  destruct a as [p|p|p|p|p|p|p]; simpl.
  - destruct (sched_run p s) as [[[] s1]| | | |] eqn:E; [|done..]. intros [= <- <-]. by eapply k_run.
  - destruct (_ && _) eqn:G; [|done]. apply andb_prop in G as [G1%is_running_spec G2%bool_decide_eq_true].
    destruct (fork_alloc _ _ _ p s) as [[r s1]| | | |] eqn:E; [|done..]. intros [= <- <-]. by eapply k_fork.
  - destruct (pend !! p) as [q|] eqn:Hq; [|done]. simpl. destruct (_ && _) eqn:G; [|done].
    apply andb_prop in G as [G1%is_running_spec (y & Hy & Hp)%bool_decide_eq_true%parent_of_spec].
    destruct (fork_parent p q s) as [[[] s1]| | | |] eqn:E; [|done..]. intros [= <- <-]. by eapply k_parent.
  - destruct (pend !! p) as [q|] eqn:Hq; [|done]. simpl. destruct (_ && _) eqn:G; [|done].
    apply andb_prop in G as [G1%is_running_spec (y & Hy & Hp)%bool_decide_eq_true%parent_of_spec].
    destruct (fork_start q s) as [[[] s1]| | | |] eqn:E; [|done..]. intros [= <- <-]. by eapply k_start.
  - destruct (_ && _) eqn:G; [|done]. apply andb_prop in G as [G1%is_running_spec G2%bool_decide_eq_true].
    destruct (wait_round _ p 0 s) as [[r s1]| | | |] eqn:E; [|done..]. intros [= <- <-]. by eapply k_wait.
  - destruct (_ && _) eqn:G; [|done]. apply andb_prop in G as [G1%is_running_spec G2%bool_decide_eq_true].
    destruct (exit_close _ p s) as [[[] s1]| | | |] eqn:E; [|done..]. intros [= <- <-]. by eapply k_close.
  - destruct (_ && _) eqn:G; [|done]. apply andb_prop in G as [[G1%is_running_spec G2%bool_decide_eq_true]%andb_prop G3%bool_decide_eq_true].
    destruct (exit_zombie p 7 s) as [[[] s1]| | | |] eqn:E; [|done..]. intros [= <- <-]. by eapply k_exit.
Qed.
Lemma performs_reach l s pend s' pend' : kreach ram_end tramp 0 s pend → performs l s pend = Some (s', pend') → kreach ram_end tramp 0 s' pend'.
Proof.
  revert s pend. induction l as [|a l IH]; intros s pend Hr; simpl; [by intros [= <- <-]|].
  destruct (perform a s pend) as [[s1 pend1]|] eqn:E; [|done]. simpl. apply IH. eapply kr_step; [exact Hr|by eapply perform_step].
Qed.

(** The first process forks and sleeps in [wait]; then the child runs and exits. *)
Definition waiting : list act := [Run 0; Alloc 0; Parent 0; Start 0; WaitRound 0].
Definition exited : list act := waiting ++ [Run 1; Close 1; Zombie 1].
Definition after (l : list act) (φ : pcb unit → bool) : bool :=
  match boot with
  | Ok (_, s) => match performs l s ∅ with Some (s', _) => φ s' | None => false end
  | _ => false
  end.
Lemma after_reach l φ : after l φ = true → ∃ s pend, kreach ram_end tramp 0 s pend ∧ φ s = true.
Proof.
  unfold after. pose proof power_on_zeroed as HZ. unfold boot. revert HZ. generalize power_on. intros [[[] s0]| | | |] HZ; [|discriminate..].
  destruct ((procinit;; userinit _ _ _) s0) as [[[] s]| | | |] eqn:E; [|discriminate..].
  destruct (performs l s ∅) as [[s' pend]|] eqn:Ep; [|discriminate]. intros Hφ. exists s', pend. split; [|done].
  eapply performs_reach; [|exact Ep]. by eapply kr_boot; [apply HZ|].
Qed.
Definition reached : pcb unit → gmap nat nat → Prop := kreach ram_end tramp 0.
Definition in_wait (s : pcb unit) : bool :=
  bool_decide ((λ x, (p_state x, p_chan x)) <$> procs s !! 0%nat = Some (SLEEPING, ChanProc 0)).
Definition zombie1 (s : pcb unit) : bool := bool_decide (p_state <$> procs s !! 1%nat = Some ZOMBIE).
Lemma waiting_reach : ∃ s pend, kreach ram_end tramp 0 s pend ∧ in_wait s = true.
Proof. apply (after_reach waiting). vm_compute. reflexivity. Qed.
Lemma exited_reach : ∃ s pend, kreach ram_end tramp 0 s pend ∧ zombie1 s = true.
Proof. apply (after_reach exited). vm_compute. reflexivity. Qed.
End Demo.

(** A process asleep in [wait] with its child, and a child that has exited. *)
Lemma wait_misses_no_exit_witness :
  (∃ (s : pcb unit) pend, Demo.reached s pend ∧ Demo.in_wait s = true ∧ has_child (procs s) 0 ∧ no_zombie (procs s) 0) ∧
  (∃ (s : pcb unit) pend x q y, Demo.reached s pend ∧ procs s !! 1%nat = Some x ∧ p_state x = ZOMBIE ∧
     p_parent x = Some q ∧ q ≠ 1%nat ∧ procs s !! q = Some y ∧ live y).
Proof.
  split.
  - destruct Demo.waiting_reach as (s & pend & Hs & Hw). exists s, pend. split; [done|]. split; [done|].
    apply bool_decide_eq_true in Hw. apply fmap_Some in Hw as (x & Hx & E). injection E as E1 E2.
    exact (proj1 (wait_misses_no_exit _ _ _ s pend Hs) 0%nat x Hx (eq_sym E1) (eq_sym E2)).
  - destruct Demo.exited_reach as (s & pend & Hs & Hz). apply bool_decide_eq_true in Hz. apply fmap_Some in Hz as (x & Hx & Hz).
    destruct (proj2 (wait_misses_no_exit _ _ _ s pend Hs) 1%nat x Hx (eq_sym Hz)) as (q & y & H1 & H2 & H3 & H4). by exists s, pend, x, q, y.
Defined.

Lemma kill_exact_witness : ∃ s : pcb unit, wp (kill 1) (λ r s',
    (r = 0 ∧ ∃ q y, procs s !! q = Some y ∧ p_state y ≠ UNUSED ∧ p_pid y = 1 ∧
       (∀ j z, procs s !! j = Some z → p_pid z = 1 → j = q) ∧
       procs s' = <[q := kill_mark y]> (procs s)) ∨
    (r = -1 ∧ s' = s ∧ ∀ j z, procs s !! j = Some z → p_pid z ≠ 1)) s.
Proof.
  destruct Demo.boot_reach as (s & Hs & _). exists s. apply (kill_exact _ _ _ s ∅ 1 Hs). lia.
Defined.

Lemma kill_zero_dooms_next_child_witness : ∃ s : pcb unit, wp (kill 0) (λ r s', r = 0 ∧
    ∀ p np s'', fork_alloc ram_end Demo.tramp 0 p s' = Ok (Some np, s'') →
      np = 1%nat ∧ ∃ y, procs s'' !! np = Some y ∧ p_state y = USED ∧ p_killed y = 1) s.
Proof.
  destruct Demo.boot_reach as (s & Hs & Hq). exists s. exact (kill_zero_dooms_next_child _ _ _ s ∅ 1%nat Hs Hq).
Defined.

Lemma sbrk_below_zero_ignored_witness : ∃ s : pcb unit, wp (growproc 0 0 (-5000)) (λ r s', r = 0 ∧
    procs s' = <[0%nat := set_sz 4096 (set_sz 4096 (set_state RUNNING Demo.proc0))]> (procs s) ∧
    files s' = files s) s.
Proof.
  set (x := set_sz 4096 (set_state RUNNING Demo.proc0)).
  exists (Pcb (Fls (Fst tt mkfs_sb [] (Pst ∅ 0)) []) [x] 2 None 0).
  apply (sbrk_below_zero_ignored 0 _ 0%nat x (-5000)); [by exists x|reflexivity| |]; split; vm_compute; congruence.
Defined.
