(* ===== verification/TrapSpec.v ===== *)
(** * Going through the kernel and back

    A trap of a user program saves its registers in the trap frame, and the return
    loads them from there; what lies between may use the processor freely and move
    to another hart, as long as it leaves the frame alone. *)

From S2P Require Import Prelude Word Riscv Param Kalloc Vm Asm Plic Fs File Proc Syscall Sysfile Trap FsSpec ProcStep.

#[local] Arguments wm_load : simpl never.
#[local] Arguments wm_store : simpl never.

Section frame.
Context {B : Type} `{!BlockStore B, !TxStore B, !DevOps (fst B pst)}.
Context {D : Type} `{!PlicDev D}.
Context (kend kernelvec_addr uservec_off userret_off usertrap_addr ticks_addr : Z).
Context (uartintr virtio_disk_intr : K (@kst B D) unit).
Context (syscall : nat → K (hart * @kst B D) sysres) (resched : nat → K (hart * @kst B D) unit).
Abbreviation kst := (@kst B D).
Abbreviation T := (hart * kst)%type.
Implicit Types (k : kst) (h : hart).

(** The process [p] as the trap code sees it: not killed, its frame in memory. *)
Record framed (p : nat) (tf pt ks : Z) k : Prop := {
  fr_proc : ∃ x, procs (kproc k) !! p = Some x ∧ p_trapframe x = tf ∧ p_pagetable x = pt ∧ p_kstack x = ks ∧ p_killed x = 0;
  fr_len : length (procs (kproc k)) = Z.to_nat NPROC;
  fr_align : tf mod PGSIZE = 0;
  fr_ok : ∀ off, word_of 288 off → wm_ok k (tf + off) }.

(** The frame is as it was. *)
Definition same_words (tf : Z) k k' : Prop := ∀ off, word_of 288 off → wm_load k' (tf + off) = wm_load k (tf + off).
(** Every word but the [i]-th, which is [v]. *)
Definition stored (tf i v : Z) k k' : Prop :=
  wm_load k' (tf + 8 * i) = Some (u64 v) ∧ ∀ off, word_of 288 off → off ≠ 8 * i → wm_load k' (tf + off) = wm_load k (tf + off).

Lemma frame_word tf i : tf mod PGSIZE = 0 → 0 ≤ i < 36 → PGROUNDDOWN (tf + 8 * i) = tf ∧ (tf + 8 * i) mod PGSIZE / 8 = i.
Proof using Type.
  clear. intros Ht Hi. assert ((tf + 8 * i) mod PGSIZE = 8 * i) as E.
  { unfold PGSIZE in *. rewrite Z.add_mod, Ht, Z.add_0_l, Z.mod_mod by lia. apply Z.mod_small. lia. }
  unfold PGROUNDDOWN. rewrite E. split; [lia|]. rewrite Z.mul_comm. by apply Z.div_mul.
Qed.

Lemma wp_on_proc {A} (m : K (pcb B) A) (Q : A → T → Prop) h k :
  wp m (λ a s', Q a (h, Kst s' (kplic k))) (kproc k) → wp (on_proc m) Q (h, k).
Proof using Type. intros H. unfold on_proc, on_kst. by apply wp_lift, wp_lift. Qed.
Lemma wp_hw {A} (m : K hart A) (Q : A → T → Prop) h k : wp m (λ a h', Q a (h', k)) h → wp (hw m) Q (h, k).
Proof using Type. intros H. unfold hw, on_hw. by apply wp_lift. Qed.

Lemma kst_eta k : Kst (kproc k) (kplic k) = k.
Proof using Type. clear. by destruct k. Qed.

Lemma wp_frame_get p i tf pt ks (Q : Z → pcb B → Prop) k :
  framed p tf pt ks k → 0 ≤ i < 36 → (∀ v, wm_load k (tf + 8 * i) = Some v → Q v (kproc k)) →
  wp (on_pages (word_get tf i)) Q (kproc k).
Proof using Type.
  intros Hf Hi HQ. unfold on_pages, on_fs, on_files, on_below, on_mem. do 3 apply wp_lift.
  destruct (fr_ok _ _ _ _ _ Hf (8 * i)) as (_ & y & Hy & _); [split; [lia|]; rewrite Z.mul_comm; by apply Z.mod_mul|].
  destruct (frame_word tf i (fr_align _ _ _ _ _ Hf) Hi) as [E1 E2].
  rewrite E1 in Hy. eapply wp_word_get; [exact Hy|].
  assert (Q (get64 y (word_off i)) (kproc k)) as HQ'.
  { apply HQ. unfold wm_load, kst_words, wm_load, pst_words. rewrite E1, E2. unfold mem_of in Hy |- *. by rewrite Hy. }
  by destruct k as [[[[] ?] ? ? ? ?] ?].
Qed.

Lemma wp_frame_put p i v tf pt ks (Q : unit → pcb B → Prop) k :
  framed p tf pt ks k → 0 ≤ i < 36 →
  (∀ s', framed p tf pt ks (Kst s' (kplic k)) → stored tf i v k (Kst s' (kplic k)) → procs s' = procs (kproc k) → Q tt s') →
  wp (on_pages (word_put tf i v)) Q (kproc k).
Proof using Type.
  intros Hf Hi HQ. pose proof Hf as [Hp Hl Hal Hok].
  assert (word_of 288 (8 * i)) as Hw by (split; [lia|]; rewrite Z.mul_comm; by apply Z.mod_mul).
  unfold on_pages, on_fs, on_files, on_below, on_mem. do 3 apply wp_lift.
  destruct (wm_store_ok _ _ v (Hok _ Hw)) as (k' & E & H1 & H2 & H3).
  destruct (Hok _ Hw) as (_ & y & Hy & _). destruct (frame_word tf i Hal Hi) as [E1 E2].
  rewrite E1 in Hy. eapply wp_word_put; [exact Hy|].
  unfold wm_store, kst_words, wm_store, pst_words in E. rewrite E1, E2 in E. unfold mem_of in E, Hy. rewrite Hy in E.
  injection E as <-. apply HQ; [|split|done].
  - split; [done..|]. intros off Ho. by apply H1, Hok.
  - exact H2.
  - intros off Ho Hne. apply H3; [by apply Hok|lia].
Qed.

Lemma wp_tf_get p i tf pt ks (Q : Z → T → Prop) h k :
  framed p tf pt ks k → 0 ≤ i < 36 → (∀ v, wm_load k (tf + 8 * i) = Some v → Q v (h, k)) → wp (tf_get p i) Q (h, k).
Proof using Type.
  intros Hf Hi HQ. destruct (fr_proc _ _ _ _ _ Hf) as (x & Hx & Et & _). unfold tf_get. apply wp_on_proc, wp_bind.
  eapply wp_pget; [exact Hx|]. rewrite Et. eapply wp_frame_get; [exact Hf|done|]. intros v Hv. rewrite kst_eta. by apply HQ.
Qed.

Lemma wp_tf_put p i v tf pt ks (Q : unit → T → Prop) h k :
  framed p tf pt ks k → 0 ≤ i < 36 →
  (∀ k', framed p tf pt ks k' → stored tf i v k k' → procs (kproc k') = procs (kproc k) → Q tt (h, k')) → wp (tf_put p i v) Q (h, k).
Proof using Type.
  intros Hf Hi HQ. destruct (fr_proc _ _ _ _ _ Hf) as (x & Hx & Et & _). unfold tf_put. apply wp_on_proc, wp_bind.
  eapply wp_pget; [exact Hx|]. rewrite Et. eapply wp_frame_put; [exact Hf|done|]. intros s' F S E. by apply HQ.
Qed.

Lemma saved_stored tf i v hu k k' : 0 ≤ i < 5 → stored tf i v k k' → saved k tf hu → saved k' tf hu.
Proof using Type.
  intros Hi [_ H] [H0 Hs]. split; [by rewrite H; [|split; [lia|done]|lia]|].
  intros r off Hin. pose proof (tf_regs_off _ _ Hin) as (_ & ? & ? & _). rewrite H; [by apply Hs|by split; [lia|]|lia].
Qed.
Lemma tf_stored_other tf i v j k k' : 0 ≤ j < 36 → j ≠ i → stored tf i v k k' → wm_load k' (tf + 8 * j) = wm_load k (tf + 8 * j).
Proof using Type. clear. intros Hj Hne [_ H]. apply H; [|lia]. split; [lia|]. rewrite Z.mul_comm. by apply Z.mod_mul. Qed.

(** The words that [uservec] needs. *)
Record kernel_words (tf ksatp ksp hartid : Z) k : Prop := {
  kw_satp : wm_load k (tf + 0) = Some (u64 ksatp);
  kw_sp : wm_load k (tf + 8) = Some (u64 ksp);
  kw_trap : wm_load k (tf + 16) = Some (u64 usertrap_addr);
  kw_hart : wm_load k (tf + 32) = Some (u64 hartid) }.

(** Ready for [userret]. *)
Record returning (p : nat) (tf pt ks epc : Z) (hu h : hart) (s : T) : Prop := {
  rt_framed : framed p tf pt ks s.2;
  rt_saved : saved s.2 tf hu;
  rt_words : kernel_words tf (csrs h Csr.satp) (u64 (ks + PGSIZE)) (regs h Reg.tp) s.2;
  rt_epc : csrs s.1 Csr.sepc = epc;
  rt_user : SPP s.1 = false;
  rt_intr : SPIE s.1 = true;
  rt_stvec : csrs s.1 Csr.stvec = TRAMPOLINE + uservec_off;
  rt_satp : regs s.1 Reg.a0 = MAKE_SATP pt;
  rt_pc : pc s.1 = TRAMPOLINE + userret_off }.

Ltac hw_read := apply wp_bind, wp_hw, wp_gets; cbv beta.

Lemma usertrapret_spec p tf pt ks epc hu h k :
  framed p tf pt ks k → saved k tf hu → wm_load k (tf + 24) = Some epc →
  wp (usertrapret uservec_off userret_off usertrap_addr p) (λ _ s', returning p tf pt ks epc hu h s') (h, k).
Proof using Type.
  intros Hf Hs He. unfold usertrapret.
  apply wp_bind, wp_hw, wp_intr_off. intros m1 _. apply wp_bind, wp_hw, wp_modify. set (h1 := set_csr Csr.stvec _ _).
  assert (csrs h1 Csr.satp = csrs h Csr.satp ∧ regs h1 Reg.tp = regs h Reg.tp ∧ csrs h1 Csr.stvec = TRAMPOLINE + uservec_off)
    as (Esatp & Etp & Estv) by done. clearbody h1.
  hw_read. apply wp_bind. eapply wp_tf_put; [exact Hf|lia|]. intros k1 F1 S1 _.
  apply wp_bind, wp_on_proc. destruct (fr_proc _ _ _ _ _ F1) as (x & Hx & _ & _ & Ek & _). eapply wp_pget; [exact Hx|]. rewrite Ek.
  replace (Kst (kproc k1) (kplic k1)) with k1 by (by destruct k1).
  apply wp_bind. eapply wp_tf_put; [exact F1|lia|]. intros k2 F2 S2 _.
  apply wp_bind. eapply wp_tf_put; [exact F2|lia|]. intros k3 F3 S3 _.
  hw_read. apply wp_bind. eapply wp_tf_put; [exact F3|lia|]. intros k4 F4 S4 _.
  apply wp_bind, wp_hw. unfold r_sstatus, csrr. apply wp_bind, wp_gets, wp_ret. cbv zeta.
  apply wp_bind, wp_hw, w_sstatus_bits. intros st Hst.
  apply wp_bind. eapply wp_tf_get; [exact F4|done|]. intros v Hv.
  assert (v = epc) as ->.
  { change (tf + 8 * TF_epc) with (tf + 8 * 3) in Hv.
    rewrite (tf_stored_other _ 4 _ 3 _ _ ltac:(lia) ltac:(lia) S4), (tf_stored_other _ 2 _ 3 _ _ ltac:(lia) ltac:(lia) S3),
      (tf_stored_other _ 1 _ 3 _ _ ltac:(lia) ltac:(lia) S2), (tf_stored_other _ 0 _ 3 _ _ ltac:(lia) ltac:(lia) S1) in Hv.
    change (tf + 8 * 3) with (tf + 24) in Hv. congruence. }
  apply wp_bind, wp_hw, wp_modify.
  apply wp_bind, wp_on_proc. destruct (fr_proc _ _ _ _ _ F4) as (y & Hy & _ & Ep & _). eapply wp_pget; [exact Hy|]. rewrite Ep.
  replace (Kst (kproc k4) (kplic k4)) with k4 by (by destruct k4).
  apply wp_hw, wp_modify. split; cbn [Datatypes.fst snd]; try done.
  - do 4 (eapply saved_stored; [|done|]; [lia|]). done.
  - assert (∀ j, 0 ≤ j < 36 → j ≠ 4 → wm_load k4 (tf + 8 * j) = wm_load k3 (tf + 8 * j)) as O4 by (intros; by eapply tf_stored_other).
    assert (∀ j, 0 ≤ j < 36 → j ≠ 2 → wm_load k3 (tf + 8 * j) = wm_load k2 (tf + 8 * j)) as O3 by (intros; by eapply tf_stored_other).
    assert (∀ j, 0 ≤ j < 36 → j ≠ 1 → wm_load k2 (tf + 8 * j) = wm_load k1 (tf + 8 * j)) as O2 by (intros; by eapply tf_stored_other).
    destruct S1 as [S1 _], S2 as [S2 _], S3 as [S3 _], S4 as [S4 _]. rewrite <-Esatp, <-Etp. split.
    + change (tf + 0) with (tf + 8 * 0). rewrite (O4 0), (O3 0), (O2 0) by lia. exact S1.
    + change (tf + 8) with (tf + 8 * 1). rewrite (O4 1), (O3 1) by lia. exact S2.
    + change (tf + 16) with (tf + 8 * 2). rewrite (O4 2) by lia. exact S3.
    + exact S4.
  - unfold status_bit. cbn [csrs set_csr set_reg set_pc]. rewrite Hst by lia. by rewrite Z.lor_spec, !Z.land_spec, andb_false_r.
  - unfold status_bit. cbn [csrs set_csr set_reg set_pc]. rewrite Hst by lia. by rewrite Z.lor_spec, orb_true_r.
Qed.

(** ** What may run in between *)
Definition kept (p : nat) (tf pt ks : Z) k k' : Prop := framed p tf pt ks k' ∧ same_words tf k k'.
Lemma kept_refl p tf pt ks k : framed p tf pt ks k → kept p tf pt ks k k.
Proof using Type. by split. Qed.
Lemma kept_user_trans p tf pt ks k1 k2 k3 : kept p tf pt ks k1 k2 → kept p tf pt ks k2 k3 → kept p tf pt ks k1 k3.
Proof using Type. intros [_ H1] [? H2]. split; [done|]. intros off Ho. by rewrite H2, H1. Qed.

(** Changes of the table that the trap code does not see. *)
Definition unseen (x x' : proc) : Prop :=
  p_trapframe x' = p_trapframe x ∧ p_pagetable x' = p_pagetable x ∧ p_kstack x' = p_kstack x ∧ p_killed x' = p_killed x.
Lemma kept_table p tf pt ks k s' d' :
  framed p tf pt ks k → files s' = files (kproc k) → Forall2 unseen (procs (kproc k)) (procs s') →
  kept p tf pt ks k (Kst s' d').
Proof using Type.
  intros [(x & Hx & E1 & E2 & E3 & E4) Hl Ha Hok] Ef HF.
  assert (mem_of s' = mem_of (kproc k)) as Em by (unfold mem_of; by rewrite Ef).
  split; [split|].
  - apply (Forall2_lookup_l _ _ _ _ _ HF) in Hx as (x' & Hx' & U1 & U2 & U3 & U4). exists x'. by rewrite U1, U2, U3, U4.
  - cbn [kproc]. by rewrite <-(Forall2_length _ _ _ HF).
  - done.
  - intros off Ho. specialize (Hok off Ho). unfold wm_ok, kst_laws in *. cbn [kproc]. by rewrite Em.
  - intros off Ho. unfold wm_load, kst_words. cbn [kproc]. by rewrite Em.
Qed.

Lemma unseen_refl l : Forall2 unseen l l.
Proof using Type. clear. induction l; by constructor. Qed.
Lemma unseen_alter f i l l' : (∀ x, unseen x (f x)) → Forall2 unseen l l' → Forall2 unseen l (alter f i l').
Proof using Type.
  clear. intros Hf. rewrite !Forall2_lookup. intros H j. specialize (H j). destruct (decide (i = j)) as [->|Hne].
  - rewrite list_lookup_alter_eq. destruct H as [x y Hxy|]; constructor. destruct (Hf y) as (U1 & U2 & U3 & U4), Hxy as (V1 & V2 & V3 & V4).
    split_and!; congruence.
  - by rewrite list_lookup_alter_ne.
Qed.

Lemma wakeup_unseen me c (s : pcb B) :
  length (procs s) = Z.to_nat NPROC →
  wp (wakeup me c) (λ _ s', files s' = files s ∧ Forall2 unseen (procs s) (procs s')) s.
Proof using Type.
  intros Hl. unfold wakeup. apply wp_for_each with (I := λ _ s', files s' = files s ∧ Forall2 unseen (procs s) (procs s')).
  - split; [done|apply unseen_refl].
  - intros j s1 Hj [E1 HF]. cbv zeta. case_decide; [by apply wp_ret|].
    assert (is_Some (procs s1 !! Z.to_nat j)) as [y Hy].
    { apply lookup_lt_is_Some. rewrite <-(Forall2_length _ _ _ HF), Hl. unfold NPROC in *. lia. }
    apply wp_bind. eapply wp_pget; [exact Hy|]. apply wp_when; [intros _|done].
    unfold pset. apply wp_bind. eapply wp_pget; [exact Hy|]. apply wp_modify. split; [done|]. by apply unseen_alter.
  - done.
Qed.

Lemma wp_conj {S A} (m : K S A) (Q Q' : A → S → Prop) s : wp m Q s → wlp m Q' s → wp m (λ a s', Q a s' ∧ Q' a s') s.
Proof using Type. clear. unfold wp, wlp. by destruct (m s) as [[]| | | |]. Qed.

(** ** Device interrupts *)
Definition is_device (cause : Z) : Prop := cause = 0x8000000000000009 ∨ cause = 0x8000000000000005.

Lemma cpuid_spec (Q : Z → T → Prop) h k : Q (s32 (regs h Reg.tp)) (h, k) → wp cpuid Q (h, k).
Proof using Type. intros H. unfold cpuid. hw_read. by apply wp_ret. Qed.
Lemma wp_on_plic {A} (m : K D A) (Q : A → T → Prop) h k :
  wp m (λ a d', Q a (h, Kst (kproc k) d')) (kplic k) → wp (on_plic m) Q (h, k).
Proof using Type. intros H. unfold on_plic, on_kst. by apply wp_lift, wp_lift. Qed.

(** What the handlers of the devices and of the clock keep. *)
Record handled (me : option nat) (I : kst → Prop) : Prop := {
  hd_uart : ∀ k, I k → wp uartintr (λ _ k', I k') k;
  hd_disk : ∀ k, I k → wp virtio_disk_intr (λ _ k', I k') k;
  hd_plic : ∀ k d, I k → I (Kst (kproc k) d);
  hd_clock : ∀ k, I k → wp (Syscall.clockintr ticks_addr me) (λ _ s', I (Kst s' (kplic k))) (kproc k) }.

Lemma devintr_keeps me I h k :
  handled me I → I k → is_device (csrs h Csr.scause) →
  wp (devintr ticks_addr uartintr virtio_disk_intr me) (λ r s',
    r ≠ 0 ∧ I s'.2 ∧ regs s'.1 = regs h ∧ ∀ c, c ≠ Csr.stimecmp → csrs s'.1 c = csrs h c) (h, k).
Proof using Type.
  intros [Hu Hv Hp Hc] HI Hd. unfold devintr. hw_read. destruct Hd as [-> | ->]; cbn [Z.eqb Pos.eqb].
  - apply wp_bind, cpuid_spec, wp_bind, wp_on_plic. unfold plic_claim, rd32. apply wp_bind. unfold wp at 1.
    destruct (reg_read _ (kplic k)) as [irq d]. apply wp_ret.
    eapply wp_seq with (R := λ _ s, s.1 = h ∧ I s.2).
    { destruct (_ =? UART0_IRQ); [|destruct (_ =? VIRTIO0_IRQ)]; [| |apply wp_ret; split; [done|by apply Hp]];
        unfold on_kst; apply wp_lift; (eapply wp_mono; [first [by apply Hu, Hp|by apply Hv, Hp]|]); by cbv beta. }
    intros _ [h2 k2] [E2 K2]. simpl in E2. subst h2. apply wp_bind, wp_when; intros _; [|by apply wp_ret].
    apply wp_bind, cpuid_spec, wp_on_plic. unfold plic_complete, wr32. apply wp_modify, wp_ret. split_and!; [done|by apply Hp|done|done].
  - apply wp_bind. unfold clockintr. apply wp_bind, cpuid_spec.
    eapply wp_seq with (R := λ _ s, s.1 = h ∧ I s.2).
    { apply wp_when; intros _; [|done]. apply wp_on_proc. eapply wp_mono; [by apply Hc|]. by cbv beta. }
    intros _ [h2 k2] [E2 K2]. simpl in E2. subst h2. hw_read. apply wp_hw, wp_modify, wp_ret. split_and!; [done..|].
    intros c Hne. cbn [csrs set_csr Datatypes.fst]. by apply fn_lookup_insert_ne.
Qed.

Section handlers.
Context (p : nat) (tf pt ks ksatp : Z).
Abbreviation framed := (framed p tf pt ks).
Abbreviation kept := (kept p tf pt ks).

(** The handlers and the other processes leave the frame of [p] alone, and the
    kernel runs on its own page table. *)
Hypothesis Huart : ∀ k, framed k → wp uartintr (λ _ k', kept k k') k.
Hypothesis Hdisk : ∀ k, framed k → wp virtio_disk_intr (λ _ k', kept k k') k.
Hypothesis Hresched : ∀ h k, framed k → csrs h Csr.satp = ksatp →
  wp (resched p) (λ _ s', kept k s'.2 ∧ csrs s'.1 Csr.satp = ksatp) (h, k).

Lemma kept_plic k d : framed k → kept k (Kst (kproc k) d).
Proof using Type. intros Hf. apply kept_table; [done..|]. apply unseen_refl. Qed.

Lemma devintr_spec h k :
  framed k → csrs h Csr.satp = ksatp → is_device (csrs h Csr.scause) →
  wp (devintr ticks_addr uartintr virtio_disk_intr (Some p)) (λ r s', r ≠ 0 ∧ kept k s'.2 ∧ csrs s'.1 Csr.satp = ksatp) (h, k).
Proof using Huart Hdisk.
  intros Hf Hs Hd. assert (handled (Some p) (kept k)) as HH.
  { split.
    + intros k1 K1. eapply wp_mono; [apply Huart, K1|]. cbv beta. intros _ k2 K2. by eapply kept_user_trans.
    + intros k1 K1. eapply wp_mono; [apply Hdisk, K1|]. cbv beta. intros _ k2 K2. by eapply kept_user_trans.
    + intros k1 d1 K1. eapply kept_user_trans; [done|]. apply kept_plic, K1.
    + intros k1 K1. unfold Syscall.clockintr. apply wp_bind, wp_modify. eapply wp_mono; [apply wakeup_unseen, K1|].
      cbv beta. intros _ s' [Ef HF]. eapply kept_user_trans; [done|]. apply kept_table; [apply K1|done..]. }
  eapply wp_mono; [apply (devintr_keeps _ _ _ _ HH); [by apply kept_refl|done]|].
  cbv beta. intros r [h2 k2] (H1 & H2 & _ & H3). split_and!; [done..|]. by rewrite H3.
Qed.

Lemma wp_killed (Q : Z → T → Prop) h k : framed k → Q 0 (h, k) → wp (on_proc (killed p)) Q (h, k).
Proof using Type.
  intros Hf HQ. destruct (fr_proc _ _ _ _ _ Hf) as (x & Hx & _ & _ & _ & Ek). apply wp_on_proc. eapply wp_pget; [exact Hx|].
  by rewrite Ek, kst_eta.
Qed.

Lemma saved_kept hu k k' : kept k k' → saved k tf hu → saved k' tf hu.
Proof using Type.
  intros [_ H] [H0 Hs]. split; [by rewrite H|]. intros r off Hin. rewrite H; [by apply Hs|]. by apply (tf_words (r, off)).
Qed.
Lemma epc_kept k k' : kept k k' → wm_load k' (tf + 24) = wm_load k (tf + 24).
Proof using Type. intros [_ H]. by apply H. Qed.

Lemma usertrap_end_spec which epc hu h k :
  framed k → csrs h Csr.satp = ksatp → saved k tf hu → wm_load k (tf + 24) = Some epc →
  wp (usertrap_end kend uservec_off userret_off usertrap_addr resched p which) (λ o s',
    o = ToUser ∧ ∃ h', csrs h' Csr.satp = ksatp ∧ returning p tf pt ks epc hu h' s') (h, k).
Proof using Hresched.
  intros Hf Hs Hsv He. unfold usertrap_end. apply wp_bind, wp_killed; [done|]. cbn [Z.eqb negb].
  eapply wp_seq with (R := λ _ s, kept k s.2 ∧ csrs s.1 Csr.satp = ksatp).
  { apply wp_when; intros _; [|split; [by apply kept_refl|done]]. destruct (fr_proc _ _ _ _ _ Hf) as (x & Hx & _).
    apply wp_bind, wp_on_proc. unfold yield, pset. apply wp_bind. eapply wp_pget; [exact Hx|]. apply wp_modify.
    match goal with |- wp _ _ (h, ?k1) => assert (kept k k1) as K1 end.
    { apply kept_table; [done..|]. apply unseen_alter; [done|apply unseen_refl]. }
    eapply wp_mono; [apply Hresched; [apply K1|done]|]. cbv beta. intros _ s' [K2 ?]. split; [exact (kept_user_trans _ _ _ _ _ _ _ K1 K2)|done]. }
  intros _ [h2 k2] [K2 E2]. cbn [Datatypes.fst snd] in *. apply wp_bind.
  eapply wp_mono; [apply (usertrapret_spec p tf pt ks epc hu h2 k2)|].
  - apply K2.
  - by eapply saved_kept.
  - by rewrite (epc_kept _ _ K2).
  - cbv beta. intros _ s' Hr. apply wp_ret. split; [done|]. by exists h2.
Qed.

(** The state in which a user program runs; [h0] is a hart that came from the kernel. *)
Context (translate : Z → Z → option Z).
Record in_user h k : Prop := {
  iu_mode : mode h = User;
  iu_regs : regs_ok h;
  iu_pc : 0 ≤ pc h < 2 ^ 64;
  iu_satp : csrs h Csr.satp = MAKE_SATP pt;
  iu_stvec : csrs h Csr.stvec = TRAMPOLINE + uservec_off;
  iu_framed : framed k;
  iu_words : ∃ ksp hartid, kernel_words tf ksatp ksp hartid k }.
Hypothesis Hmap : ∀ off, word_of 288 off → translate (MAKE_SATP pt) (TRAPFRAME + off) = Some (tf + off).
Hypothesis Hksatp : 0 ≤ ksatp < 2 ^ 64.
Hypothesis Htrap : 0 ≤ usertrap_addr < 2 ^ 64.

Lemma user_area k : framed k → area translate k (MAKE_SATP pt) TRAPFRAME 288 tf.
Proof using Hmap.
  intros Hf. split; [done|done|..].
  - intros off ? ?. apply Hmap. by split.
  - intros off ? ?. apply Hf. by split.
Qed.

(** The instructions change memory, and not the process table. *)
Lemma exec_table l (s : T) :
  wlp (exec translate l) (λ _ s', procs (kproc s'.2) = procs (kproc s.2) ∧ kplic s'.2 = kplic s.2) s.
Proof using Type.
  clear. revert s. induction l as [|i l IH]; intros s; simpl; [done|].
  eapply wlp_seq with (R := λ _ s', procs (kproc s'.2) = procs (kproc s.2) ∧ kplic s'.2 = kplic s.2).
  - assert (∀ off base Q, (∀ pa, Q pa s) → wlp (operand translate off base) Q s) as Hop.
    { intros off base Q HQ. unfold operand, Asm.rd. wlp_steps. case_match; [|done]. case_match; [apply HQ|done]. }
    destruct i; simpl; unfold Asm.rd, Asm.wr, on_hw, csrw, csrr, sfence_vma.
    + apply wlp_bind, Hop. intros pa. wlp_steps. destruct (wm_store s.2 pa (regs s.1 rs)) as [k'|] eqn:E; [|done].
      apply wlp_modify. cbn [snd]. unfold wm_store, kst_words in E.
      destruct (wm_store (mem_of (kproc s.2)) pa (regs s.1 rs)) in E; [|done]. by injection E as <-.
    + apply wlp_bind, Hop. intros pa. wlp_steps. by case_match.
    + by wlp_steps.
    + by wlp_steps.
    + by wlp_steps.
    + by wlp_steps.
    + apply wlp_bind, wlp_gets, wlp_lift. by intros ? ? [= <-].
    + apply wlp_bind, wlp_lift. intros ? ? [= <- <-]. by wlp_steps.
    + apply wlp_lift. by intros ? ? [= <-].
  - intros _ s1 [E1 E2]. eapply wlp_mono; [apply IH|]. intros ? s2. by rewrite E1, E2.
Qed.

(** In the kernel, the registers of the user in the frame. *)
Record entered (ps : list proc) (epc : Z) (hu : hart) (s : T) : Prop := {
  en_procs : procs (kproc s.2) = ps;
  en_framed : framed s.2;
  en_saved : saved s.2 tf hu;
  en_satp : csrs s.1 Csr.satp = ksatp;
  en_sepc : csrs s.1 Csr.sepc = epc;
  en_user : SPP s.1 = false;
  en_pc : pc s.1 = usertrap_addr }.

Lemma uservec_enters cause val h k :
  in_user h k →
  wp (uservec translate) (λ _ s', entered (procs (kproc k)) (pc h) h s' ∧ csrs s'.1 Csr.scause = cause) (trap_enter cause val h, k).
Proof using Hmap Hksatp Htrap.
  intros [Hm Hr Hpc Hsatp Hstv Hf (ksp & hid & [W1 W2 W3 W4])]. set (h1 := trap_enter cause val h).
  assert (area translate k (csrs h1 Csr.satp) TRAPFRAME 288 tf) as Har by (change (csrs h1 Csr.satp) with (csrs h Csr.satp); rewrite Hsatp; by apply user_area).
  pose proof (uservec_spec translate h1 k tf _ _ _ _ Har W1 W2 W3 W4) as HU.
  apply (wp_conj _ _ (λ _ s', procs (kproc s'.2) = procs (kproc k) ∧ kplic s'.2 = kplic k)) in HU.
  2: { unfold uservec. apply wlp_bind. eapply wlp_mono; [apply exec_table|]. cbv beta. intros _ s1 HT.
    unfold jr, Asm.rd, on_hw. apply wlp_bind, wlp_gets, wlp_lift. intros ? ? [= <-]. exact HT. }
  eapply wp_mono; [exact HU|].
  cbv beta. intros _ s' [(Epc & Em & Ec & _ & _ & Hsv & Hok & _) [Et _]]. cbn [snd] in *.
  destruct (trap_enter_status cause val h) as (HSPP & _). split; [split|].
  - done.
  - destruct Hf as [Hp Hl Ha Ho]. split; [by rewrite Et|by rewrite Et|done|]. intros off Hoff. by apply Hok, Ho.
  - done.
  - rewrite Ec. rewrite fn_lookup_insert. unfold u64. rewrite wrap_wrap by lia. by apply wrap_small.
  - by rewrite Ec.
  - unfold status_bit in *. rewrite Ec. rewrite !fn_lookup_insert_ne by done. fold h1 in HSPP. rewrite HSPP.
    by rewrite bool_decide_false by (by rewrite Hm).
  - rewrite Epc. unfold u64. rewrite wrap_wrap by lia. by apply wrap_small.
  - by rewrite Ec.
Qed.

(** A register holds what the frame says. *)
Lemma userret_leaves epc hu h s :
  0 ≤ epc < 2 ^ 64 → regs_ok hu → csrs h Csr.satp = ksatp → returning p tf pt ks epc hu h s →
  wp (userret translate) (λ _ s', in_user s'.1 s'.2 ∧ pc s'.1 = epc ∧ (∀ r, regs s'.1 r = regs hu r) ∧ SIE s'.1 = true) s.
Proof using Hmap.
  intros He Hr Hsatp [F1 F2 F3 F4 F5 F6 F7 F8 F9]. destruct s as [h1 k1]. cbn [Datatypes.fst snd] in *.
  eapply wp_mono; [apply (userret_spec translate h1 k1 tf hu); [rewrite F8; by apply user_area|done]|].
  cbv beta. intros _ [h2 k2] (E1 & E2 & E3 & E4 & E5 & E6 & E7). cbn [Datatypes.fst snd] in *. subst k2.
  assert (∀ r, regs h2 r = regs hu r) as Er by (intros r; rewrite E2; apply wrap_small, Hr).
  split_and!; [|by rewrite E3|done|by rewrite E5]. split.
  - by rewrite E4, F5.
  - intros r. by rewrite Er.
  - by rewrite E3, F4.
  - by rewrite E6.
  - by rewrite E7.
  - done.
  - rewrite Hsatp in F3. by eexists _, _.
Qed.

(** The beginning of [usertrap]: [sepc] goes to the frame. *)
Lemma usertrap_begin (m : Z → K T outcome) (Q : outcome → T → Prop) ps epc hu s :
  0 ≤ epc < 2 ^ 64 → entered ps epc hu s →
  (∀ s', entered ps epc hu s' → csrs s'.1 Csr.scause = csrs s.1 Csr.scause → wm_load s'.2 (tf + 24) = Some epc →
    wp (m (csrs s'.1 Csr.scause)) Q s') →
  wp (st ← hw r_sstatus;
      panic_if (negb (Z.land st SSTATUS_SPP =? 0)) "usertrap: not from user mode";;
      hw (w_stvec kernelvec_addr);;
      pc ← hw r_sepc; tf_put p TF_epc pc;;
      scause ← hw r_scause;
      m scause) Q s.
Proof using Type.
  intros He [F0 F1 F2 F3 F4 F5 F6] HQ. destruct s as [h k]. cbn [Datatypes.fst snd] in *.
  apply wp_bind, wp_hw. unfold r_sstatus, csrr. apply wp_bind, wp_gets, wp_ret.
  apply wp_bind, wp_panic_if.
  { unfold SSTATUS_SPP. rewrite land_bit by lia. rewrite Z.land_spec. unfold status_bit in F5. by rewrite F5. }
  apply wp_bind, wp_hw, wp_modify. hw_read. apply wp_bind. eapply wp_tf_put; [exact F1|done|].
  intros k1 K1 S1 E1. hw_read. apply (HQ (set_csr Csr.stvec kernelvec_addr h, k1)); [|done|].
  - split; try done; [by rewrite <-F0|]. eapply saved_stored; [|exact S1|done]. unfold TF_epc. lia.
  - destruct S1 as [S1 _]. change (tf + 8 * TF_epc) with (tf + 24) in S1. cbn [snd]. rewrite S1. f_equal.
    cbn [csrs set_csr]. rewrite !fn_lookup_insert_ne by done. rewrite F4. by apply wrap_small.
Qed.

Lemma at_pc_ok a (Q : unit → T → Prop) s : pc s.1 = a → Q tt s → wp (at_pc a) Q s.
Proof using Type.
  intros E HQ. destruct s as [h k]. unfold at_pc. apply wp_bind, wp_hw, wp_gets. cbn [Datatypes.fst] in E. rewrite E, Z.eqb_refl. by apply wp_ret.
Qed.

Abbreviation user_trap := (user_trap kend kernelvec_addr uservec_off userret_off usertrap_addr ticks_addr
  uartintr virtio_disk_intr syscall resched translate p).

(** The way in and the way out, around what [usertrap] does. *)
Lemma user_trap_spec (φ : T → Prop) cause val h k :
  in_user h k →
  (∀ s, entered (procs (kproc k)) (pc h) h s → csrs s.1 Csr.scause = cause →
    wp (usertrap kend kernelvec_addr uservec_off userret_off usertrap_addr ticks_addr uartintr virtio_disk_intr syscall resched p)
      (λ o s', o = ToUser ∧ ∃ epc hu h', 0 ≤ epc < 2 ^ 64 ∧ regs_ok hu ∧ csrs h' Csr.satp = ksatp ∧
        returning p tf pt ks epc hu h' s' ∧
        ∀ s2, pc s2.1 = epc → (∀ r, regs s2.1 r = regs hu r) → φ s2) s) →
  wp user_trap (λ o s', o = ToUser ∧ in_user s'.1 s'.2 ∧ SIE s'.1 = true ∧ φ s') (trap_enter cause val h, k).
Proof using Hmap Hksatp Htrap.
  intros Hu Hmid. unfold Trap.user_trap. apply wp_bind, at_pc_ok; [apply Hu|].
  apply wp_bind. eapply wp_mono; [by apply uservec_enters|]. cbv beta. intros _ s1 [He Hc].
  apply wp_bind, at_pc_ok; [apply He|]. apply wp_bind. eapply wp_mono; [by apply Hmid|]. cbv beta.
  intros o s2 (-> & epc & hu & h' & Hepc & Hr & Hsatp & Hret & Hφ).
  apply wp_bind, at_pc_ok; [apply Hret|]. apply wp_bind. eapply wp_mono; [by eapply userret_leaves|]. cbv beta.
  intros _ s3 (H1 & H2 & H3 & H4). apply wp_ret. split_and!; [done..|]. by apply Hφ.
Qed.

(** C17. A device interrupt is invisible to the user program that it interrupts:
    through [uservec], [usertrap], the handler, a timer's [yield] to the other
    processes, [usertrapret] and [userret], the program goes on at the same
    instruction with the same registers, in user mode with interrupts on, and
    everything is in place for the next trap.  The handlers and the other
    processes are only assumed not to write the trap frame or the entry of the
    process. *)
Theorem user_interrupt cause val h k :
  in_user h k → is_device cause →
  wp user_trap (λ o s', o = ToUser ∧ in_user s'.1 s'.2 ∧ SIE s'.1 = true ∧
    pc s'.1 = pc h ∧ ∀ r, regs s'.1 r = regs h r) (trap_enter cause val h, k).
Proof using Huart Hdisk Hresched Hmap Hksatp Htrap.
  intros Hu Hd. eapply wp_mono; [apply (user_trap_spec (λ s, pc s.1 = pc h ∧ ∀ r, regs s.1 r = regs h r)); [done|]|done].
  intros s He Hc. unfold usertrap. apply (usertrap_begin _ _ (procs (kproc k)) (pc h) h); [apply Hu|done|]. intros s1 He1 Hc1 Hepc.
  rewrite Hc1, Hc. replace (cause =? 8) with false by (destruct Hd as [-> | ->]; reflexivity).
  destruct s1 as [h1 k1]. destruct He1 as [F0 F1 F2 F3 F4 F5 F6]. cbn [Datatypes.fst snd] in *.
  apply wp_bind. eapply wp_mono; [apply devintr_spec; [done|done|by rewrite Hc1, Hc]|]. cbv beta.
  intros w [h2 k2] (Hw & K2 & Hs2). cbn [Datatypes.fst snd] in *. apply wp_bind, wp_when.
  { intros ->%Z.eqb_eq. done. }
  intros _. eapply wp_mono; [apply (usertrap_end_spec w (pc h) h h2 k2)|].
  - apply K2.
  - done.
  - by eapply saved_kept.
  - by rewrite (epc_kept _ _ K2).
  - cbv beta. intros o s' (-> & h' & Hs' & Hr). split; [done|]. exists (pc h), h, h'.
    split; [apply Hu|]. split; [apply Hu|]. by split_and!.
Qed.

(** What is known of a call that comes back: a value [v], with [φ v], for [a0]. *)
Lemma saved_result v h k k' :
  stored tf (TF_a 0) v k k' → saved k tf h → saved k' tf (set_reg Reg.a0 (u64 v) h).
Proof using Type.
  clear. intros [H0 H] [_ Hs]. split.
  - change (tf + 8 * TF_a 0) with (tf + 112) in H0. rewrite H0. cbn [regs set_reg]. rewrite fn_lookup_insert.
    unfold u64. by rewrite wrap_wrap by lia.
  - intros r off Hin. pose proof (tf_regs_off _ _ Hin) as (Hne & ? & ? & Hoff). cbn [regs set_reg].
    rewrite fn_lookup_insert_ne by done. rewrite H; [by apply Hs|by split; [lia|]|]. change (8 * TF_a 0) with 112. lia.
Qed.

(** C10. A system call, seen from the user program: the [ecall] returns to the
    instruction after it, in user mode with interrupts on; [a0] is the value of
    the call and every other register is as before, and everything is in place
    for the next trap.  The call is a parameter that may sleep and continue on another
    hart: it is assumed to return a value, put into [a0] of the trap frame, and to
    leave the rest of the frame. *)
Theorem user_syscall (φ : Z → Prop) val h k :
  (∀ h1 k1, framed k1 → procs (kproc k1) = procs (kproc k) → saved k1 tf h → csrs h1 Csr.satp = ksatp → SIE h1 = true →
    wp (syscall p) (λ r s', ∃ v, r = Ret v ∧ φ v ∧ framed s'.2 ∧ csrs s'.1 Csr.satp = ksatp ∧ stored tf (TF_a 0) v k1 s'.2) (h1, k1)) →
  in_user h k →
  wp user_trap (λ o s', o = ToUser ∧ in_user s'.1 s'.2 ∧ SIE s'.1 = true ∧
    pc s'.1 = u64 (pc h + 4) ∧ (∀ r, r ≠ Reg.a0 → regs s'.1 r = regs h r) ∧ ∃ v, φ v ∧ regs s'.1 Reg.a0 = u64 v)
    (trap_enter 8 val h, k).
Proof using Hresched Hmap Hksatp Htrap.
  intros Hsys Hu. eapply wp_mono; [apply (user_trap_spec (λ s, pc s.1 = u64 (pc h + 4) ∧ (∀ r, r ≠ Reg.a0 → regs s.1 r = regs h r) ∧
    ∃ v, φ v ∧ regs s.1 Reg.a0 = u64 v)); [done|]|done].
  intros s He Hc. unfold usertrap. apply (usertrap_begin _ _ (procs (kproc k)) (pc h) h); [apply Hu|done|]. intros s1 He1 Hc1 Hepc.
  rewrite Hc1, Hc. cbn [Z.eqb Pos.eqb].
  destruct s1 as [h1 k1]. destruct He1 as [F0 F1 F2 F3 F4 F5 F6]. cbn [Datatypes.fst snd] in *.
  apply wp_bind, wp_killed; [done|]. cbn [Z.eqb negb]. apply wp_bind. eapply wp_tf_get; [exact F1|done|].
  intros v0 Hv0. change (tf + 8 * TF_epc) with (tf + 24) in Hv0. rewrite Hepc in Hv0. injection Hv0 as <-.
  apply wp_bind. eapply wp_tf_put; [exact F1|done|]. intros k2 K2 S2 Ep2.
  apply wp_bind, wp_hw, wp_intr_on. intros st Hst. apply wp_bind.
  assert (saved k2 tf h) as Hsv2 by (eapply saved_stored; [|exact S2|done]; unfold TF_epc; lia).
  eapply wp_mono; [apply Hsys; [done|by rewrite Ep2|done|done|]|].
  { unfold status_bit. cbn [csrs set_csr]. rewrite fn_lookup_insert, Hst by lia. done. }
  cbv beta. intros r [h3 k3] (v & -> & Hφ & K3 & Hs3 & S3). cbn [Datatypes.fst snd] in *.
  assert (wm_load k3 (tf + 24) = Some (u64 (pc h + 4))) as Hepc3.
  { change (tf + 24) with (tf + 8 * TF_epc). rewrite (tf_stored_other tf (TF_a 0) v TF_epc k2 k3 ltac:(unfold TF_epc; lia) ltac:(unfold TF_epc, TF_a; lia) S3), (proj1 S2).
    unfold u64. by rewrite wrap_wrap. }
  eapply wp_mono; [apply (usertrap_end_spec 0 _ _ h3 k3 K3 Hs3 (saved_result _ _ _ _ S3 Hsv2) Hepc3)|].
  cbv beta. intros o s' (-> & h' & Hs' & Hr). split; [done|]. do 3 eexists.
  split; [by apply (wrap_range 64)|]. split; [|split; [exact Hs'|split; [exact Hr|]]].
  - intros r. cbn [regs set_reg]. destruct (decide (r = Reg.a0)) as [->|Hne].
    + rewrite fn_lookup_insert. by apply wrap_range.
    + rewrite fn_lookup_insert_ne by done. apply Hu.
  - intros s2 E1 E2. split_and!; [done|..].
    + intros r Hne. rewrite E2. cbn [regs set_reg]. by apply fn_lookup_insert_ne.
    + exists v. split; [done|]. rewrite E2. cbn [regs set_reg]. apply fn_lookup_insert.
Qed.
End handlers.
End frame.

(** ** A machine with one process in user mode *)
Module Machine.
#[local] Existing Instances Demo.no_store Demo.no_tx Demo.no_dev.
Definition tf : Z := 0x80001000.
Definition pt : Z := 0x80002000.
Definition ksatp : Z := MAKE_SATP 0x80003000.
Definition usertrap_addr : Z := 0x80000100.
Definition frame_page : page :=
  put64 (put64 (put64 (put64 (replicate 4096 0) 0 ksatp) 8 (KSTACK 0 + PGSIZE)) 16 usertrap_addr) 32 0.
Definition init : proc := Proc RUNNING NoChan 0 0 7 None (KSTACK 0) PGSIZE pt tf (0, 0) (replicate 16 None) None [].
Definition state : @kst unit Controller.plic :=
  Kst (Pcb (Fls (Fst tt mkfs_sb [] (Pst {[ tf := frame_page ]} 0)) []) (init :: replicate 63 Demo.proc0) 8 (Some 0%nat) 0)
    (Controller.Plic ∅ {[ UART0_IRQ ]} ∅).
(** The program is at 1000, and [a7] is [SYS_getpid]. *)
Definition user : hart :=
  Hart (<[Reg.a7 := 11]> (λ _, 5)) (<[Csr.satp := MAKE_SATP pt]> (<[Csr.stvec := TRAMPOLINE]> (λ _, 2))) 1000 User.
Definition translate (_ va : Z) : option Z := Some (va - TRAPFRAME + tf).
Definition getpid (p : nat) : K (hart * @kst unit Controller.plic) sysres := on_proc (syscall KERNBASE Demo.tramp 0 [] 0 p).

Lemma framed_state : framed 0 tf pt (KSTACK 0) state.
Proof.
  split; [by exists init|by vm_compute|done|]. intros off [Ho H8]. split; [by rewrite Z.add_mod, H8 by lia|].
  assert (PGROUNDDOWN (tf + off) = tf) as E.
  { unfold PGROUNDDOWN, PGSIZE. rewrite Zplus_mod. change (tf mod 4096) with 0.
    rewrite Z.add_0_l, Z.mod_mod, Z.mod_small by lia. lia. }
  exists frame_page. rewrite E. split; [done|]. by vm_compute.
Qed.
Lemma in_user_state : in_user 0 usertrap_addr 0 tf pt (KSTACK 0) ksatp user state.
Proof.
  split; try done.
  - intros []; by vm_compute.
  - apply framed_state.
  - exists (KSTACK 0 + PGSIZE), 0. split; vm_compute; reflexivity.
Qed.
End Machine.

#[local] Existing Instances Demo.no_store Demo.no_tx Demo.no_dev.

Lemma user_interrupt_witness :
  wp (user_trap KERNBASE 0 0 0x9a Machine.usertrap_addr 0 (mret tt) (mret tt) Machine.getpid (λ _, mret tt) Machine.translate 0)
    (λ o s', o = ToUser ∧ in_user 0 Machine.usertrap_addr 0 Machine.tf Machine.pt (KSTACK 0) Machine.ksatp s'.1 s'.2 ∧ SIE s'.1 = true ∧
      pc s'.1 = pc Machine.user ∧ ∀ r, regs s'.1 r = regs Machine.user r) (trap_enter 0x8000000000000005 0 Machine.user, Machine.state).
Proof.
  apply (user_interrupt KERNBASE 0 0 0x9a Machine.usertrap_addr 0 (mret tt) (mret tt) Machine.getpid (λ _, mret tt)
    0 Machine.tf Machine.pt (KSTACK 0) Machine.ksatp) with (translate := Machine.translate) (h := Machine.user) (k := Machine.state).
  - intros k Hk. split; [exact Hk|]. intros off _. reflexivity.
  - intros k Hk. split; [exact Hk|]. intros off _. reflexivity.
  - intros h k Hk Hs. split; [split; [exact Hk|]|exact Hs]. intros off _. reflexivity.
  - intros off _. unfold Machine.translate. f_equal. lia.
  - split; vm_compute; [discriminate|reflexivity].
  - split; vm_compute; [discriminate|reflexivity].
  - apply Machine.in_user_state.
  - by right.
Defined.

(** [getpid] through the dispatcher. *)
Lemma getpid_returns h h1 k1 :
  framed 0 Machine.tf Machine.pt (KSTACK 0) k1 → procs (kproc k1) = procs (kproc Machine.state) → saved k1 Machine.tf h →
  regs h Reg.a7 = 11 →
  wp (Machine.getpid 0) (λ r s', ∃ v, r = Ret v ∧ v = 7 ∧ framed 0 Machine.tf Machine.pt (KSTACK 0) s'.2 ∧
    csrs s'.1 Csr.satp = csrs h1 Csr.satp ∧ stored Machine.tf (TF_a 0) v k1 s'.2) (h1, k1).
Proof.
  intros Hf Hp [_ Hs] Ha7. assert (procs (kproc k1) !! 0%nat = Some Machine.init) as Hx by (by rewrite Hp).
  unfold Machine.getpid. apply wp_on_proc. unfold syscall.
  apply wp_bind. eapply wp_pget; [exact Hx|]. change (p_trapframe Machine.init) with Machine.tf. apply wp_bind.
  eapply wp_frame_get; [exact Hf|done|]. intros v Hv. change (Machine.tf + 8 * TF_a 7) with (Machine.tf + 168) in Hv.
  rewrite (Hs Reg.a7 168), Ha7 in Hv by (by apply (bool_decide_eq_true_1 _)). injection Hv as <-.
  change (s32 (u64 11)) with 11. cbn [syscalls]. unfold ret, sys_getpid. apply wp_bind, wp_bind.
  eapply wp_pget; [exact Hx|]. apply wp_ret. apply wp_bind. eapply wp_frame_put; [exact Hf|done|].
  intros s' F S _. apply wp_ret. exists 7. done.
Qed.

Lemma user_syscall_witness :
  wp (user_trap KERNBASE 0 0 0x9a Machine.usertrap_addr 0 (mret tt) (mret tt) Machine.getpid (λ _, mret tt) Machine.translate 0)
    (λ o s', o = ToUser ∧ in_user 0 Machine.usertrap_addr 0 Machine.tf Machine.pt (KSTACK 0) Machine.ksatp s'.1 s'.2 ∧ SIE s'.1 = true ∧
      pc s'.1 = u64 (pc Machine.user + 4) ∧ (∀ r, r ≠ Reg.a0 → regs s'.1 r = regs Machine.user r) ∧
      ∃ v, v = 7 ∧ regs s'.1 Reg.a0 = u64 v) (trap_enter 8 0 Machine.user, Machine.state).
Proof.
  apply (user_syscall KERNBASE 0 0 0x9a Machine.usertrap_addr 0 (mret tt) (mret tt) Machine.getpid (λ _, mret tt)
    0 Machine.tf Machine.pt (KSTACK 0) Machine.ksatp) with (translate := Machine.translate) (h := Machine.user) (k := Machine.state) (φ := λ v, v = 7).
  - intros h k Hk Hs. split; [split; [exact Hk|]|exact Hs]. intros off _. reflexivity.
  - intros off _. unfold Machine.translate. f_equal. lia.
  - split; vm_compute; [discriminate|reflexivity].
  - split; vm_compute; [discriminate|reflexivity].
  - intros h1 k1 Hf Hp Hs <- _. apply (getpid_returns Machine.user); [exact Hf|exact Hp|exact Hs|reflexivity].
  - apply Machine.in_user_state.
Defined.
