(* ===== verification/TrapKernel.v ===== *)
(** * Interrupts of the kernel

    [kerneltrap] between the save and the restore of [kernelvec].  The compiled
    function is the model of [trap.c] followed by [clobber], which changes the
    registers that the calling convention lets a function change. *)

From S2P Require Import Prelude Word Riscv Param Kalloc Vm Asm Plic Fs File Proc Syscall Trap TrapSpec.

#[local] Arguments wm_load : simpl never.
#[local] Arguments wm_store : simpl never.

(** Writing back the [sstatus] that was read restores [mstatus], if the bits of
    machine mode have not changed. *)
Definition machine_bits (x y : Z) : Prop := ∀ n, 0 ≤ n < 64 → Z.testbit SSTATUS_MASK n = false → Z.testbit x n = Z.testbit y n.

Lemma high_bits x n : 0 ≤ x < 2 ^ 64 → 64 ≤ n → Z.testbit x n = false.
Proof.
  intros Hx Hn. destruct (decide (x = 0)) as [->|]; [apply Z.bits_0|].
  apply Z.bits_above_log2; [lia|]. assert (Z.log2 x < 64); [|lia]. apply Z.log2_lt_pow2; lia.
Qed.

Lemma merge_restores m m' :
  0 ≤ m < 2 ^ 64 → 0 ≤ m' < 2 ^ 64 → machine_bits m' m → merge SSTATUS_MASK m' (Z.land m SSTATUS_MASK) = m.
Proof.
  intros Hm Hm' Hb. apply Z.bits_inj'. intros n Hn. destruct (decide (n < 64)).
  - rewrite merge_spec by lia. destruct (Z.testbit SSTATUS_MASK n) eqn:E.
    + by rewrite Z.land_spec, E, andb_true_r.
    + by apply Hb.
  - unfold merge. rewrite Z.lor_spec, !Z.land_spec, (high_bits m), (high_bits m') by lia. done.
Qed.

Section kernel.
Context {B : Type} `{!BlockStore B, !TxStore B, !DevOps (fst B pst)}.
Context {D : Type} `{!PlicDev D}.
Context (ticks_addr : Z) (uartintr virtio_disk_intr : K (@kst B D) unit) (resched : nat → K (hart * @kst B D) unit).
Context (translate : Z → Z → option Z) (me : option nat) (pa : Z) (clobber : K (hart * @kst B D) unit).
Abbreviation kst := (@kst B D).
Abbreviation T := (hart * kst)%type.
Implicit Types (k : kst) (h : hart).

Definition table k : Prop := length (procs (kproc k)) = Z.to_nat NPROC.
(** The 256 bytes that [kernelvec] has pushed at [pa] stay. *)
Record quiet k k' : Prop := {
  q_table : table k';
  q_ok : ∀ b, wm_ok k b → wm_ok k' b;
  q_stack : ∀ off, word_of 256 off → wm_load k' (pa + off) = wm_load k (pa + off) }.

Lemma quiet_refl k : table k → quiet k k.
Proof using Type. by split. Qed.
Lemma quiet_trans k1 k2 k3 : quiet k1 k2 → quiet k2 k3 → quiet k1 k3.
Proof using Type. intros [? H1 H2] [? H3 H4]. split; [done|eauto|]. intros off Ho. by rewrite H4, H2. Qed.
Lemma quiet_table k s' d' :
  table k → files s' = files (kproc k) → length (procs s') = length (procs (kproc k)) → quiet k (Kst s' d').
Proof using Type.
  intros Ht Ef El. assert (mem_of s' = mem_of (kproc k)) as Em by (unfold mem_of; by rewrite Ef). split.
  - unfold table. cbn [kproc]. by rewrite El.
  - intros b. unfold wm_ok, kst_laws. cbn [kproc]. by rewrite Em.
  - intros off _. unfold wm_load, kst_words. cbn [kproc]. by rewrite Em.
Qed.

(** The handlers; the process of the interrupted code is chosen again with its
    registers, on a hart that has the same settings of machine mode. *)
Hypothesis Hme : ∀ p, me = Some p → (p < Z.to_nat NPROC)%nat.
Hypothesis Huart : ∀ k, table k → wp uartintr (λ _ k', quiet k k') k.
Hypothesis Hdisk : ∀ k, table k → wp virtio_disk_intr (λ _ k', quiet k k') k.
Hypothesis Hresched : ∀ p h k, me = Some p → table k → 0 ≤ csrs h Csr.mstatus < 2 ^ 64 →
  wp (resched p) (λ _ s', quiet k s'.2 ∧ (∀ r, r ∈ callee_saved → regs s'.1 r = regs h r) ∧
    csrs s'.1 Csr.satp = csrs h Csr.satp ∧ 0 ≤ csrs s'.1 Csr.mstatus < 2 ^ 64 ∧
    machine_bits (csrs s'.1 Csr.mstatus) (csrs h Csr.mstatus)) (h, k).
Hypothesis Hclobber : ∀ s, wp clobber (λ _ s', s'.2 = s.2 ∧ csrs s'.1 = csrs s.1 ∧
  ∀ r, r ∈ callee_saved → regs s'.1 r = regs s.1 r) s.

Lemma quiet_handled k : table k → handled ticks_addr uartintr virtio_disk_intr me (quiet k).
Proof using Huart Hdisk.
  intros Ht. split.
  - intros k1 K1. eapply wp_mono; [apply Huart, K1|]. cbv beta. intros _ k2 K2. by eapply quiet_trans.
  - intros k1 K1. eapply wp_mono; [apply Hdisk, K1|]. cbv beta. intros _ k2 K2. by eapply quiet_trans.
  - intros k1 d1 K1. eapply quiet_trans; [done|]. apply quiet_table; [apply K1|done..].
  - intros k1 K1. unfold Syscall.clockintr. apply wp_bind, wp_modify. eapply wp_mono; [apply wakeup_unseen, K1|].
    cbv beta. intros _ s' [Ef HF]. eapply quiet_trans; [done|]. apply quiet_table; [apply K1|done|].
    symmetry. exact (Forall2_length _ _ _ HF).
Qed.

(** What the code after the device's handler does: [yield] for the timer. *)
Lemma kernel_yield w h k k0 :
  quiet k0 k → 0 ≤ csrs h Csr.mstatus < 2 ^ 64 →
  wp (match me with
      | Some p => when (w =? 2) (on_proc (yield p);; resched p)
      | None => mret tt
      end) (λ _ s', quiet k0 s'.2 ∧ (∀ r, r ∈ callee_saved → regs s'.1 r = regs h r) ∧
    csrs s'.1 Csr.satp = csrs h Csr.satp ∧ 0 ≤ csrs s'.1 Csr.mstatus < 2 ^ 64 ∧
    machine_bits (csrs s'.1 Csr.mstatus) (csrs h Csr.mstatus)) (h, k).
Proof using Hme Hresched.
  intros HK Hm. destruct me as [p|] eqn:Eme; [|by apply wp_ret]. apply wp_when; intros _; [|done].
  pose proof HK as [Ht _ _]. assert (is_Some (procs (kproc k) !! p)) as [x Hx].
  { apply lookup_lt_is_Some. rewrite Ht. by apply Hme. }
  apply wp_bind, wp_on_proc. unfold yield, pset. apply wp_bind. eapply wp_pget; [exact Hx|]. apply wp_modify.
  match goal with |- wp _ _ (h, ?k1) => assert (quiet k k1) as K1 end.
  { apply quiet_table; [done..|]. cbn [procs]. by rewrite length_alter. }
  eapply wp_mono; [apply Hresched; [done|apply K1|done]|]. cbv beta. intros _ s' (K2 & H).
  split; [|exact H]. eapply quiet_trans; [exact HK|]. exact (quiet_trans _ _ _ K1 K2).
Qed.

Lemma kerneltrap_spec h k :
  table k → SPP h = true → SIE h = false → is_device (csrs h Csr.scause) → 0 ≤ csrs h Csr.mstatus < 2 ^ 64 →
  wp (kerneltrap ticks_addr uartintr virtio_disk_intr resched me) (λ _ s', quiet k s'.2 ∧
    (∀ r, r ∈ callee_saved → regs s'.1 r = regs h r) ∧ csrs s'.1 Csr.sepc = csrs h Csr.sepc ∧
    csrs s'.1 Csr.mstatus = csrs h Csr.mstatus ∧ csrs s'.1 Csr.satp = csrs h Csr.satp) (h, k).
Proof using Hme Huart Hdisk Hresched.
  intros Ht Hspp Hsie Hd Hm. unfold kerneltrap. apply wp_bind, wp_hw, wp_gets.
  apply wp_bind, wp_hw. unfold r_sstatus at 1, csrr at 1. apply wp_bind, wp_gets, wp_ret.
  apply wp_bind, wp_hw, wp_gets. apply wp_bind, wp_panic_if.
  { apply negb_true_iff. unfold SSTATUS_SPP. rewrite land_bit, Z.land_spec by lia. unfold status_bit in Hspp. by rewrite Hspp. }
  apply wp_bind, wp_hw, wp_intr_get. apply wp_bind, wp_panic_if; [done|]. apply wp_bind.
  eapply wp_mono; [apply (devintr_keeps _ _ _ _ (quiet k)); [by apply quiet_handled|by apply quiet_refl|done]|].
  cbv beta. intros w [h1 k1] (Hw & K1 & Er & Ec). cbn [Datatypes.fst snd] in *.
  apply wp_bind, wp_panic_if; [by apply Z.eqb_neq|]. apply wp_bind.
  eapply wp_mono; [apply (kernel_yield w h1 k1 k K1); by rewrite Ec|].
  cbv beta. intros _ [h2 k2] (K2 & Hr & Hs & Hm2 & Hb). cbn [Datatypes.fst snd] in *.
  rewrite Ec in Hb, Hs by done. apply wp_bind, wp_hw, wp_modify, wp_hw. unfold w_sstatus, csrr, csrw.
  apply wp_bind, wp_gets, wp_modify. cbn [csrs set_csr regs Datatypes.fst snd].
  split_and!; [done|by intros r ?; rewrite Hr, Er| | |by rewrite !fn_lookup_insert_ne].
  - rewrite fn_lookup_insert_ne, fn_lookup_insert; done.
  - rewrite fn_lookup_insert, fn_lookup_insert_ne by done. by apply merge_restores.
Qed.

(** C26. A device interrupt is invisible to the kernel code that it interrupts:
    after [kernelvec] has saved the registers, [kerneltrap] has run the handler
    and, for the timer, given the processor to other processes, and the registers
    have been restored, the code goes on at the same instruction with every
    register but [tp], which names the hart, as it was, in supervisor mode and
    with interrupts as before. *)
Theorem kernel_interrupt cause val h0 k :
  regs_ok h0 → mode h0 = Supervisor → 256 ≤ regs h0 Reg.sp → is_device cause → table k →
  0 ≤ csrs h0 Csr.mstatus < 2 ^ 64 →
  area translate k (csrs h0 Csr.satp) (regs h0 Reg.sp - 256) 256 pa →
  wp (kernelvec translate (kerneltrap ticks_addr uartintr virtio_disk_intr resched me;; clobber)) (λ _ s',
    (∀ r, r ≠ Reg.tp → regs s'.1 r = regs h0 r) ∧ pc s'.1 = pc h0 ∧ mode s'.1 = Supervisor ∧ SIE s'.1 = SIE h0)
    (trap_enter cause val h0, k).
Proof using Hme Huart Hdisk Hresched Hclobber.
  intros Hr Hmode Hsp Hd Ht Hms Har. apply (kernelvec_spec translate h0 cause val k pa); [done..|].
  intros h1 k1 E Ec. pose proof (wlp_elim _ _ _ _ _ (exec_table translate _ _) E) as [Et _]. cbn [snd] in Et.
  destruct (trap_enter_status cause val h0) as (S1 & _ & S3). unfold status_bit in S1, S3.
  apply wp_bind. eapply wp_mono; [apply (kerneltrap_spec h1 k1)|].
  - unfold table. by rewrite Et.
  - unfold status_bit. by rewrite Ec, S1, bool_decide_true.
  - unfold status_bit. by rewrite Ec, S3.
  - by rewrite Ec.
  - rewrite Ec. apply trap_status_range, Hms.
  - cbv beta. intros _ s2 (K2 & H1 & H2 & H3 & H4). eapply wp_mono; [apply Hclobber|]. cbv beta.
    intros _ s3 (E3 & Ec3 & Hr3). rewrite Ec3. split_and!; [|done..]. split; cbn [Datatypes.fst snd].
    + intros r Hin. by rewrite Hr3, H1.
    + rewrite E3. apply K2.
    + rewrite E3. apply K2.
Qed.
End kernel.

(** A timer interrupt of a kernel whose stack is in the page of [Machine]. *)
Module Stack.
Definition kern : hart := Hart (λ _, Machine.tf + 2048) (λ _, 2) 0x80000400 Supervisor.
Definition clobber : K (hart * @kst unit Controller.plic) unit :=
  modify (λ s, (set_reg Reg.a0 1 (set_reg Reg.t0 2 (set_reg Reg.ra 3 (set_reg Reg.tp 4 s.1))), s.2)).

Lemma stack_area : area ident Machine.state 2 (Machine.tf + 2048 - 256) 256 (Machine.tf + 1792).
Proof.
  split; [done|done| |].
  - intros off Ho _. unfold ident. f_equal; lia.
  - intros off Ho H8. split; [by rewrite Z.add_mod, H8 by lia|]. exists Machine.frame_page.
    assert (PGROUNDDOWN (Machine.tf + 1792 + off) = Machine.tf) as ->.
    { unfold PGROUNDDOWN, PGSIZE. rewrite <-Z.add_assoc, Zplus_mod. change (Machine.tf mod 4096) with 0.
      rewrite Z.add_0_l, Z.mod_mod, Z.mod_small by lia. lia. }
    split; [done|]. by vm_compute.
Qed.
End Stack.

Lemma kernel_interrupt_witness :
  wp (kernelvec ident (kerneltrap 0 (mret tt) (mret tt) (λ _, mret tt) (Some 0%nat);; Stack.clobber)) (λ _ s',
    (∀ r, r ≠ Reg.tp → regs s'.1 r = regs Stack.kern r) ∧ pc s'.1 = pc Stack.kern ∧ mode s'.1 = Supervisor ∧
    SIE s'.1 = SIE Stack.kern) (trap_enter 0x8000000000000005 0 Stack.kern, Machine.state).
Proof.
  apply (kernel_interrupt 0 (mret tt) (mret tt) (λ _, mret tt) ident (Some 0%nat) (Machine.tf + 1792) Stack.clobber)
    with (h0 := Stack.kern) (k := Machine.state).
  - intros p [= <-]. vm_compute. lia.
  - intros k Hk. by split.
  - intros k Hk. by split.
  - intros p h k _ Hk Hm. split; [by split|]. split; [done|]. split; [done|]. split; [exact Hm|]. by intros n.
  - intros s. apply wp_modify. split; [done|]. split; [done|]. intros r Hr. cbn [regs set_reg Datatypes.fst].
    rewrite !fn_lookup_insert_ne; [done|..]; intros <-; by apply (bool_decide_eq_true_2 _) in Hr.
  - intros r. split; vm_compute; [discriminate|reflexivity].
  - reflexivity.
  - vm_compute. discriminate.
  - by right.
  - vm_compute. reflexivity.
  - split; vm_compute; [discriminate|reflexivity].
  - apply Stack.stack_area.
Defined.
