(* ===== verification/Sched.v ===== *)
(** * The scheduler on several processors ([kernel/proc.c])

    Every processor runs [scheduler] on a stack of its own, or the kernel thread
    of a process.  [swtch] is the exchange of what a processor runs with what is
    saved in a [struct context]: a saved context is the place in the code at
    which its thread goes on, with the local variables on its stack.  The steps
    of the processors are interleaved at every [acquire] and [release]. *)

From S2P Require Import Prelude Word Param Riscv Spinlock Proc.

(** Locks are numbered: the lock of [proc[i]] is [i], other locks are negative. *)
Definition plock (i : nat) : Z := Z.of_nat i.
Definition wait_lock : Z := -1.

(** ** Places in the code *)

(** [scheduler]: before the loops, at the head of the outer loop, before [acquire]
    of [proc[i].lock], after it, after [swtch], and before [release].  [SIntr]
    and what follows is an interrupt that arrives at the place [l]: the handlers
    of devices and of the clock call [wakeup]. *)
Inductive sloc :=
  | SStart | SHead
  | SAcq (i : nat) (found : bool) | SBody (i : nat) (found : bool) | SBack (i : nat) | SRel (i : nat) (found : bool)
  | SIntr (l : sloc) | SVisit (q : nat) (ch : chan) (l : sloc) | SVisiting (q : nat) (ch : chan) (l : sloc) | SLeave (q : nat) (l : sloc).

(** What the kernel thread of a process knows: the locks it holds besides those of
    processes, the state it gave to its interrupts, and the process that it has
    allocated and not yet started. *)
Record env := Env { e_locks : gset Z; e_int : bool; e_new : option nat }.

(** What is done to an entry of the process table under its lock. *)
Inductive visit := VWakeup (ch : chan) | VKill | VAlloc | VStart | VReap.

(** A kernel thread: in [forkret], in code that does not concern scheduling, in
    [sched] after [swtch], in [yield], [sleep] and [exit], at another entry of the
    process table, at other locks.  [q] is the local variable [p] of the code. *)
Inductive loc :=
  | Forkret
  | Run
  | Sched (intena : bool) (k : loc)
  | YieldAcq | Yield (q : nat) | YieldRel (q : nat)
  | SleepAcq (ch : chan) (lk : Z) | SleepRel (q : nat) (ch : chan) (lk : Z) | SleepSet (q : nat) (ch : chan) (lk : Z)
  | Awake (q : nat) (lk : Z) | AwakeRel (q : nat) (lk : Z) | Relock (lk : Z)
  | ExitAcq | ExitSet (q : nat) | ExitRel (q : nat) | ExitSched | ExitPanic
  | Visit (q : nat) (v : visit) | Visiting (q : nat) (v : visit) | Leave (q : nat)
  | Acquire (l : Z) | Release (l : Z) | Intr (b : bool).

Inductive thread := Sch (l : sloc) | Thr (p : nat) (e : env) (l : loc).

(** The locks, [cpus[c].proc], [cpus[c].context], the table of processes and what
    each processor runs. *)
Record mach := Mach {
  sl : sst;
  cproc : nat → option nat;
  cctx : nat → sloc;
  pstate : nat → procstate;
  pchan : nat → chan;
  pctx : nat → env * loc;
  run : nat → thread;
}.
Definition on_sl {A} (m : K sst A) : K mach A :=
  lift sl (λ x s, Mach x (cproc s) (cctx s) (pstate s) (pchan s) (pctx s) (run s)) m.
Definition set_cproc (c : nat) (x : option nat) (s : mach) : mach :=
  Mach (sl s) (<[c := x]> (cproc s)) (cctx s) (pstate s) (pchan s) (pctx s) (run s).
Definition set_cctx (c : nat) (x : sloc) (s : mach) : mach :=
  Mach (sl s) (cproc s) (<[c := x]> (cctx s)) (pstate s) (pchan s) (pctx s) (run s).
Definition set_pstate (p : nat) (x : procstate) (s : mach) : mach :=
  Mach (sl s) (cproc s) (cctx s) (<[p := x]> (pstate s)) (pchan s) (pctx s) (run s).
Definition set_pchan (p : nat) (x : chan) (s : mach) : mach :=
  Mach (sl s) (cproc s) (cctx s) (pstate s) (<[p := x]> (pchan s)) (pctx s) (run s).
Definition set_pctx (p : nat) (x : env * loc) (s : mach) : mach :=
  Mach (sl s) (cproc s) (cctx s) (pstate s) (pchan s) (<[p := x]> (pctx s)) (run s).
Definition set_run (c : nat) (x : thread) (s : mach) : mach :=
  Mach (sl s) (cproc s) (cctx s) (pstate s) (pchan s) (pctx s) (<[c := x]> (run s)).
Definition goto (c : nat) (x : thread) : K mach unit := modify (set_run c x).

Definition myproc (c : nat) : K mach (option nat) :=
  on_sl (push_off c);;
  me ← on_sl (mycpu c);
  p ← gets (λ s, cproc s me);
  on_sl (pop_off c);;
  mret p.

(** [swtch(&c->context, &p->context)] from [scheduler], and [swtch] back. *)
Definition swtch_in (c p : nat) (back : sloc) : K mach unit :=
  modify (set_cctx c back);;
  x ← gets (λ s, pctx s p);
  goto c (Thr p x.1 x.2).
Definition swtch_out (c me p : nat) (e : env) (back : loc) : K mach unit :=
  modify (set_pctx p (e, back));;
  l ← gets (λ s, cctx s me);
  goto c (Sch l).

(** [sched] up to the return of [swtch]; [k] is the place after the call. *)
Definition sched (c : nat) (e : env) (k : loc) : K mach unit :=
  o ← myproc c;
  match o with
  | None => undefined "p->lock"
  | Some p =>
      h ← on_sl (holding c (plock p));
      panic_if (negb h) "sched p->lock";;
      me ← on_sl (mycpu c);
      n ← gets (λ s, noff (cpus (sl s) me));
      panic_if (negb (n =? 1)) "sched locks";;
      x ← gets (λ s, pstate s p);
      panic_if (bool_decide (x = RUNNING)) "sched running";;
      i ← on_sl (on_hart c intr_get);
      panic_if i "sched interruptible";;
      me ← on_sl (mycpu c);
      ie ← gets (λ s, intena (cpus (sl s) me));
      me ← on_sl (mycpu c);
      swtch_out c me p e (Sched ie k)
  end.
(** [mycpu()->intena = intena] *)
Definition sched_end (c : nat) (ie : bool) : K mach unit :=
  me ← on_sl (mycpu c);
  on_sl (modify (λ s, set_cpu me (Cpu (noff (cpus s me)) ie) s)).

(** ** [scheduler] *)

(** One entry of the loop of [wakeup], under its lock. *)
Definition wakeup_entry (q : nat) (ch : chan) : K mach unit :=
  x ← gets (λ s, pstate s q);
  y ← gets (λ s, pchan s q);
  when (bool_decide (x = SLEEPING) && bool_decide (y = ch)) (modify (set_pstate q RUNNABLE)).

Definition scheduler (c : nat) (l : sloc) : K mach unit :=
  match l with
  | SStart => modify (set_cproc c None);; goto c (Sch SHead)
  | SHead => on_sl (on_hart c intr_on);; goto c (Sch (SAcq 0 false))
  | SAcq i found =>
      if Z.of_nat i <? NPROC then on_sl (acquire c (plock i));; goto c (Sch (SBody i found))
      else if found then goto c (Sch SHead)
      else on_sl (on_hart c intr_on);; goto c (Sch SHead)
  | SBody i found =>
      x ← gets (λ s, pstate s i);
      if decide (x = RUNNABLE) then
        modify (set_pstate i RUNNING);;
        modify (set_cproc c (Some i));;
        swtch_in c i (SBack i)
      else goto c (Sch (SRel i found))
  | SBack i => modify (set_cproc c None);; goto c (Sch (SRel i true))
  | SRel i found => on_sl (release c (plock i));; goto c (Sch (SAcq (S i) found))
  | SIntr l => on_sl (on_hart c intr_on);; goto c (Sch l)
  | SVisit q ch l => on_sl (acquire c (plock q));; goto c (Sch (SVisiting q ch l))
  | SVisiting q ch l => wakeup_entry q ch;; goto c (Sch (SLeave q l))
  | SLeave q l => on_sl (release c (plock q));; goto c (Sch (SIntr l))
  end.

(** ** Kernel threads *)

(** [forkret] up to the initialisation of the file system; what the interrupts are
    then is what the thread begins with. *)
Definition forkret (c p : nat) : K mach unit :=
  o ← myproc c;
  match o with
  | None => undefined "myproc()->lock"
  | Some q =>
      on_sl (release c (plock q));;
      b ← on_sl (on_hart c intr_get);
      goto c (Thr p (Env ∅ b None) Run)
  end.

(** The entry [q] under its lock: in [wakeup], [kill], [allocproc] (with the
    context of the new process), the end of [fork], and [wait] with [freeproc]. *)
Definition visit_entry (c p : nat) (e : env) (q : nat) (v : visit) : K mach unit :=
  match v with
  | VWakeup ch => wakeup_entry q ch;; goto c (Thr p e (Leave q))
  | VKill =>
      x ← gets (λ s, pstate s q);
      when (bool_decide (x = SLEEPING)) (modify (set_pstate q RUNNABLE));;
      goto c (Thr p e (Leave q))
  | VAlloc =>
      x ← gets (λ s, pstate s q);
      if decide (x = UNUSED) then
        modify (set_pstate q USED);;
        modify (set_pctx q (Env ∅ false None, Forkret));;
        goto c (Thr p (Env (e_locks e) (e_int e) (Some q)) (Leave q))
      else goto c (Thr p e (Leave q))
  | VStart =>
      modify (set_pstate q RUNNABLE);;
      goto c (Thr p (Env (e_locks e) (e_int e) None) (Leave q))
  | VReap =>
      x ← gets (λ s, pstate s q);
      when (bool_decide (x = ZOMBIE)) (modify (set_pchan q NoChan);; modify (set_pstate q UNUSED));;
      goto c (Thr p e (Leave q))
  end.

Definition thread_code (c p : nat) (e : env) (l : loc) : K mach unit :=
  match l with
  | Run => mret tt
  | Forkret => forkret c p
  | Sched ie k => sched_end c ie;; goto c (Thr p e k)
  (** [yield] *)
  | YieldAcq =>
      o ← myproc c;
      match o with
      | None => undefined "p->lock"
      | Some q => on_sl (acquire c (plock q));; goto c (Thr p e (Yield q))
      end
  | Yield q => modify (set_pstate q RUNNABLE);; sched c e (YieldRel q)
  | YieldRel q => on_sl (release c (plock q));; goto c (Thr p e Run)
  (** [sleep] *)
  | SleepAcq ch lk =>
      o ← myproc c;
      match o with
      | None => undefined "p->lock"
      | Some q => on_sl (acquire c (plock q));; goto c (Thr p e (SleepRel q ch lk))
      end
  | SleepRel q ch lk =>
      on_sl (release c lk);; goto c (Thr p (Env (e_locks e ∖ {[lk]}) (e_int e) (e_new e)) (SleepSet q ch lk))
  | SleepSet q ch lk =>
      modify (set_pchan q ch);;
      modify (set_pstate q SLEEPING);;
      sched c e (Awake q lk)
  | Awake q lk => modify (set_pchan q NoChan);; goto c (Thr p e (AwakeRel q lk))
  | AwakeRel q lk => on_sl (release c (plock q));; goto c (Thr p e (Relock lk))
  | Relock lk => on_sl (acquire c lk);; goto c (Thr p (Env ({[lk]} ∪ e_locks e) (e_int e) (e_new e)) Run)
  (** the end of [exit] *)
  | ExitAcq =>
      o ← myproc c;
      match o with
      | None => undefined "p->lock"
      | Some q => on_sl (acquire c (plock q));; goto c (Thr p e (ExitSet q))
      end
  | ExitSet q => modify (set_pstate q ZOMBIE);; goto c (Thr p e (ExitRel q))
  | ExitRel q =>
      on_sl (release c wait_lock);; goto c (Thr p (Env (e_locks e ∖ {[wait_lock]}) (e_int e) (e_new e)) ExitSched)
  | ExitSched => sched c e ExitPanic
  | ExitPanic => panic "zombie exit"
  (** other entries of the process table *)
  | Visit q v => on_sl (acquire c (plock q));; goto c (Thr p e (Visiting q v))
  | Visiting q v => visit_entry c p e q v
  | Leave q => on_sl (release c (plock q));; goto c (Thr p e Run)
  (** other locks, and the interrupts *)
  | Acquire l => on_sl (acquire c l);; goto c (Thr p (Env ({[l]} ∪ e_locks e) (e_int e) (e_new e)) Run)
  | Release l => on_sl (release c l);; goto c (Thr p (Env (e_locks e ∖ {[l]}) (e_int e) (e_new e)) Run)
  | Intr b => on_sl (on_hart c (if b then intr_on else intr_off));; goto c (Thr p (Env (e_locks e) b (e_new e)) Run)
  end.

Definition code (c : nat) (x : thread) : K mach unit :=
  match x with
  | Sch l => scheduler c l
  | Thr p e l => thread_code c p e l
  end.

(** ** The processors together *)

(** What a kernel thread calls, and with which locks: [yield] is called without
    locks, [sleep] with the lock that it is given, the end of [exit] with
    [wait_lock]; [wakeup] leaves out the caller; only a new process is started. *)
Inductive calls (p : nat) (e : env) : loc → Prop :=
  | call_yield : e_locks e = ∅ → calls p e YieldAcq
  | call_sleep ch lk : e_locks e = {[lk]} → calls p e (SleepAcq ch lk)
  | call_exit : e_locks e = {[wait_lock]} → calls p e ExitAcq
  | call_wakeup q ch : q ≠ p → Z.of_nat q < NPROC → calls p e (Visit q (VWakeup ch))
  | call_kill q : Z.of_nat q < NPROC → calls p e (Visit q VKill)
  | call_alloc q : Z.of_nat q < NPROC → calls p e (Visit q VAlloc)
  | call_start q : e_new e = Some q → calls p e (Visit q VStart)
  | call_reap q : Z.of_nat q < NPROC → calls p e (Visit q VReap)
  | call_acquire l : l < 0 → l ∉ e_locks e → calls p e (Acquire l)
  | call_release l : l ∈ e_locks e → calls p e (Release l)
  | call_intr b : e_locks e = ∅ → calls p e (Intr b).

(** The places of [scheduler] at which its interrupts can be on. *)
Definition open (l : sloc) : bool := match l with SAcq _ _ | SHead => true | _ => false end.

Inductive mstep (m : mach) : mach → Prop :=
  | ms_code c m' : valid c → (∀ p e, run m c ≠ Thr p e Run) → code c (run m c) m = Ok (tt, m') → mstep m m'
  | ms_call c p e l : valid c → run m c = Thr p e Run → calls p e l → mstep m (set_run c (Thr p e l) m)
  | ms_intr c l h m' : valid c → run m c = Sch l → open l = true → harts (sl m) !! c = Some h → SIE h = true →
      (on_sl (on_hart c intr_off);; goto c (Sch (SIntr l))) m = Ok (tt, m') → mstep m m'
  | ms_wakeup c l q ch : valid c → run m c = Sch (SIntr l) → Z.of_nat q < NPROC → mstep m (set_run c (Sch (SVisit q ch l)) m).

(** When [main] calls [scheduler]: no locks, and processes that have not run. *)
Record minit (m : mach) : Prop := {
  mi_run : ∀ c, run m c = Sch SStart;
  mi_cpu : ∀ c, valid c → noff (cpus (sl m) c) = 0 ∧ ∃ h, harts (sl m) !! c = Some h ∧ regs h Reg.tp = Z.of_nat c;
  mi_lock : ∀ l, locked (locks (sl m) l) = 0 ∧ lk_cpu (locks (sl m) l) = None;
  mi_proc : ∀ p, pstate m p = UNUSED ∨ pstate m p = RUNNABLE ∧ pctx m p = (Env ∅ false None, Forkret);
}.
Inductive mreach (m : mach) : Prop :=
  | mr_init : minit m → mreach m
  | mr_step m0 : mreach m0 → mstep m0 m → mreach m.
