(* ===== verification/SchedSpec.v ===== *)
(** * Correctness of the scheduler

    The invariant of the processors, the locks and the process table under every
    interleaving. *)

From S2P Require Import Prelude Word Param Riscv Spinlock Proc Sched.

(** ** Code that returns or waits *)
Definition wpb {S A} (m : K S A) (Q : A → S → Prop) (s : S) : Prop :=
  match m s with
  | Ok (a, s') => Q a s'
  | Prelude.Sleep _ => True
  | _ => False
  end.
Section wpb.
Context {S : Type}.
Implicit Types s : S.
Lemma wpb_wp {A} (m : K S A) Q s : wp m Q s → wpb m Q s.
Proof. unfold wp, wpb. by destruct (m s) as [[a s']| | | |]. Qed.
Lemma wpb_bind {A B} (m : K S A) (f : A → K S B) Q s : wpb m (λ a s', wpb (f a) Q s') s → wpb (m ≫= f) Q s.
Proof. unfold wpb, mbind, K_bind. by destruct (m s) as [[a s']| | | |]. Qed.
Lemma wpb_mono {A} (m : K S A) (Q Q' : A → S → Prop) s : wpb m Q s → (∀ a s', Q a s' → Q' a s') → wpb m Q' s.
Proof. unfold wpb. destruct (m s) as [[a s']| | | |]; naive_solver. Qed.
Lemma wpb_elim {A} (m : K S A) Q s a s' : wpb m Q s → m s = Ok (a, s') → Q a s'.
Proof. unfold wpb. intros H E. by rewrite E in H. Qed.
Lemma wpb_lift {T A} (get : S → T) (put : T → S → S) (m : K T A) Q s :
  wpb m (λ a x, Q a (put x s)) (get s) → wpb (lift get put m) Q s.
Proof. unfold wpb, lift. by destruct (m (get s)) as [[a s']| | | |]. Qed.
End wpb.

(** ** The locks of all processors: [hd c] are those that [c] holds *)
Record SInv (s : sst) (hd : nat → gset Z) : Prop := {
  si_cpu : ∀ c, valid c → ∃ h, self c s h ∧ noff (cpus s c) = Z.of_nat (size (hd c)) ∧ (hd c ≠ ∅ → SIE h = false);
  si_lock : ∀ l c, lk_cpu (locks s l) = Some c ↔ l ∈ hd c;
  si_word : ∀ l, locked (locks s l) ≠ 0 ↔ is_Some (lk_cpu (locks s l));
}.
(** The interrupts of a processor once it has released its locks. *)
Definition flag (s : sst) (c : nat) : bool :=
  match harts s !! c with
  | Some h => if noff (cpus s c) =? 0 then SIE h else intena (cpus s c)
  | None => false
  end.

Lemma SInv_ext s hd hd' : (∀ c, hd' c = hd c) → SInv s hd → SInv s hd'.
Proof. intros E [H1 H2 H3]. split; [intros c; rewrite E; apply H1|intros l c; rewrite E; apply H2|done]. Qed.
Lemma size_pos (X : gset Z) : X ≠ ∅ → (size X ≠ 0)%nat.
Proof. intros H E. apply H. apply size_empty_inv in E. by apply leibniz_equiv. Qed.

(** A step of the processor [c], after which it holds [L]. *)
Lemma SInv_update s hd c s' h' L :
  SInv s hd → (∀ d, d ≠ c → harts s' !! d = harts s !! d ∧ cpus s' d = cpus s d) →
  self c s' h' → noff (cpus s' c) = Z.of_nat (size L) → (L ≠ ∅ → SIE h' = false) →
  (∀ l, l ∈ L → lk_cpu (locks s' l) = Some c ∧ locked (locks s' l) ≠ 0) →
  (∀ l, l ∉ L → l ∈ hd c → lk_cpu (locks s' l) = None ∧ locked (locks s' l) = 0) →
  (∀ l, l ∉ L → l ∉ hd c → locks s' l = locks s l) →
  (∀ l d, d ≠ c → l ∈ L → l ∉ hd d) → SInv s' (<[c := L]> hd).
Proof.
  intros [H1 H2 H3] Ho Hs Hn Hi Hin Hout Hkeep Hsep. split.
  - intros d Hd. destruct (decide (d = c)) as [->|Hne]; [rewrite fn_lookup_insert; eauto|]. rewrite fn_lookup_insert_ne by done.
    destruct (H1 d Hd) as (h & [Hh Ht] & Hnn & Hoff). destruct (Ho d Hne) as [E1 E2]. exists h. by rewrite E2; unfold self; rewrite E1.
  - intros l d. destruct (decide (l ∈ L)) as [Hl|Hl].
    + destruct (Hin l Hl) as [-> _]. destruct (decide (d = c)) as [->|Hne]; [by rewrite fn_lookup_insert|].
      rewrite fn_lookup_insert_ne by done. split; [congruence|]. intros Hd. by destruct (Hsep l d Hne Hl).
    + destruct (decide (l ∈ hd c)) as [Hc|Hc].
      * destruct (Hout l Hl Hc) as [-> _]. split; [done|]. destruct (decide (d = c)) as [->|Hne]; [by rewrite fn_lookup_insert|].
        rewrite fn_lookup_insert_ne by done. intros Hd. apply H2 in Hd, Hc. congruence.
      * rewrite (Hkeep l Hl Hc). destruct (decide (d = c)) as [->|Hne]; [rewrite fn_lookup_insert, H2; tauto|by rewrite fn_lookup_insert_ne].
  - intros l. destruct (decide (l ∈ L)) as [Hl|Hl]; [destruct (Hin l Hl) as [-> ?]; split; [by eexists|done]|].
    destruct (decide (l ∈ hd c)) as [Hc|Hc]; [destruct (Hout l Hl Hc) as [-> ->]; split; [done|by intros [? ?]]|by rewrite (Hkeep l Hl Hc)].
Qed.
Lemma flag_other s s' d : harts s' !! d = harts s !! d → cpus s' d = cpus s d → flag s' d = flag s d.
Proof. unfold flag. by intros -> ->. Qed.

Section locks.
Context (s : sst) (hd : nat → gset Z) (c : nat).
Hypothesis HS : SInv s hd.
Hypothesis Hv : valid c.

Lemma SInv_same s' h' : (∀ d, d ≠ c → harts s' !! d = harts s !! d ∧ cpus s' d = cpus s d) → locks s' = locks s →
  self c s' h' → noff (cpus s' c) = noff (cpus s c) → (hd c ≠ ∅ → SIE h' = false) → SInv s' hd.
Proof using HS Hv.
  intros Ho El Hs Hn Hi. apply (SInv_ext _ (<[c := hd c]> hd)); [intros d; destruct (decide (d = c)) as [->|]; by rewrite ?fn_lookup_insert, ?fn_lookup_insert_ne by done|].
  destruct (si_cpu _ _ HS c Hv) as (h & _ & Hnn & _). apply (SInv_update s hd c s' h'); try done; [congruence|..]; rewrite ?El.
  - intros l Hl. apply (si_lock _ _ HS) in Hl as Hl'. split; [done|]. apply (si_word _ _ HS). by eexists.
  - done.
  - intros l d Hd Hl Hl'. apply (si_lock _ _ HS) in Hl, Hl'. congruence.
Qed.

Lemma wp_holds l (Q : bool → sst → Prop) : Q (bool_decide (l ∈ hd c)) s → wp (holding c l) Q s.
Proof using HS Hv.
  intros HQ. destruct (si_cpu _ _ HS c Hv) as (h & Hs & _). apply (wp_lock_holding c Hv l Q s h Hs).
  replace (_ && _) with (bool_decide (l ∈ hd c)); [done|]. symmetry. apply eq_bool_prop_intro.
  rewrite andb_True, !bool_decide_spec, (si_lock _ _ HS). split; [tauto|]. intros Hl. split; [|done].
  apply Is_true_true, negb_true_iff, Z.eqb_neq, (si_word _ _ HS). exists c. by apply (si_lock _ _ HS).
Qed.

Lemma wpb_acquire l (Q : unit → sst → Prop) : l ∉ hd c →
  (∀ s', SInv s' (<[c := {[l]} ∪ hd c]> hd) → (∀ d, flag s' d = flag s d) → Q tt s') → wpb (acquire c l) Q s.
Proof using HS Hv.
  intros Hl HQ. destruct (si_cpu _ _ HS c Hv) as (h & Hs & Hn & Hoff). unfold acquire, acquire_begin.
  apply wpb_bind, wpb_bind, wpb_wp, (wp_push_off c Hv _ s h Hs). intros h' Hoff' Hr. set (s1 := set_cpu _ _ _).
  assert (self c s1 h') as Hs1 by (split; [apply lookup_insert_eq|rewrite Hr; apply Hs]).
  apply wpb_bind, wpb_wp, (wp_lock_holding c Hv l _ s1 h' Hs1). change (locks s1 l) with (locks s l).
  rewrite (bool_decide_false (lk_cpu (locks s l) = Some c)) by (by rewrite (si_lock _ _ HS)). rewrite andb_false_r.
  apply wpb_wp, wp_panic_if; [done|]. apply wpb_bind, wpb_bind, wpb_wp, wp_gets. apply wpb_bind, wpb_wp, wp_modify. apply wpb_wp, wp_ret.
  change (locks s1 l) with (locks s l). destruct (Z.eqb_spec (locked (locks s l)) 0) as [Hz|]; [|done].
  apply wpb_wp. unfold acquire_end. eapply wp_bind, (wp_mycpu c Hv _ _ h'); [done|]. apply wp_bind, wp_gets, wp_modify.
  assert (∀ d, l ∉ hd d) as Hfree.
  { intros d Hd. apply (si_lock _ _ HS) in Hd. assert (is_Some (lk_cpu (locks s l))) as Hx by eauto. by apply (si_word _ _ HS) in Hx. }
  apply HQ.
  - apply (SInv_update s hd c _ h'); try done.
    + intros d Hd. simpl. by rewrite lookup_insert_ne, fn_lookup_insert_ne.
    + simpl. rewrite fn_lookup_insert. simpl. rewrite Hn, size_union, size_singleton by (clear -Hl; set_solver). lia.
    + intros l' Hl'. simpl. destruct (decide (l' = l)) as [->|]; [by rewrite !fn_lookup_insert|]. rewrite !fn_lookup_insert_ne by done.
      assert (l' ∈ hd c) as Hin by (clear -Hl' n; set_solver). apply (si_lock _ _ HS) in Hin as E. split; [done|].
      apply (si_word _ _ HS). by eexists.
    + intros l' Hl1 Hl2. clear -Hl1 Hl2; set_solver.
    + intros l' Hl1 _. simpl. rewrite !fn_lookup_insert_ne by (clear -Hl1; set_solver). done.
    + intros l' d Hd [->%elem_of_singleton|Hin]%elem_of_union; [done|]. intros Hin'. apply (si_lock _ _ HS) in Hin, Hin'. congruence.
  - intros d. destruct (decide (d = c)) as [->|]; [|apply flag_other; simpl; by rewrite ?lookup_insert_ne, ?fn_lookup_insert_ne].
    unfold flag. simpl. rewrite lookup_insert_eq, fn_lookup_insert. simpl. destruct Hs as [-> _].
    rewrite (proj2 (Z.eqb_neq (noff (cpus s c) + 1) 0)) by lia. done.
Qed.

Lemma wp_releases l (Q : unit → sst → Prop) : l ∈ hd c →
  (∀ s', SInv s' (<[c := hd c ∖ {[l]}]> hd) → (∀ d, flag s' d = flag s d) → Q tt s') → wp (release c l) Q s.
Proof using HS Hv.
  intros Hl HQ. destruct (si_cpu _ _ HS c Hv) as (h & Hs & Hn & Hoff). unfold release, release_begin, release_end.
  assert (hd c ≠ ∅) as Hne by (clear -Hl; set_solver). specialize (Hoff Hne). pose proof (size_pos _ Hne) as Hp.
  apply wp_bind, wp_bind, wp_holds. rewrite bool_decide_true by done. apply wp_bind, wp_panic_if; [done|].
  apply wp_bind, wp_gets, wp_modify, wp_bind, wp_gets, wp_bind, wp_modify.
  apply (wp_pop_off c Hv _ _ h); [done|done|simpl; lia|]. intros h' Hs' Hr. cbn [cpus set_lock] in Hs' |- *.
  assert (size (hd c ∖ {[l]}) = (size (hd c) - 1)%nat) as Hsz by (rewrite size_difference, size_singleton by (clear -Hl; set_solver); done).
  apply HQ.
  - apply (SInv_update s hd c _ h'); try done.
    + intros d Hd. simpl. by rewrite lookup_insert_ne, fn_lookup_insert_ne.
    + split; [apply lookup_insert_eq|rewrite Hr; apply Hs].
    + simpl. rewrite fn_lookup_insert. simpl. lia.
    + intros Hne'. rewrite Hs'. apply size_pos in Hne'. rewrite bool_decide_false by lia. done.
    + intros l' Hl'. simpl. rewrite !fn_lookup_insert_ne by (clear -Hl'; set_solver).
      assert (l' ∈ hd c) as Hin by (clear -Hl'; set_solver). apply (si_lock _ _ HS) in Hin as E. split; [done|].
      apply (si_word _ _ HS). by eexists.
    + intros l' Hl1 Hl2. destruct (decide (l' = l)) as [->|Hn0]; [|exfalso; clear -Hl1 Hl2 Hn0; set_solver]. simpl. by rewrite !fn_lookup_insert.
    + intros l' Hl1 Hl2. simpl. rewrite !fn_lookup_insert_ne by (clear -Hl Hl2; set_solver). done.
    + intros l' d Hd Hin Hin'. apply elem_of_difference in Hin as [Hin _]. apply (si_lock _ _ HS) in Hin, Hin'. congruence.
  - intros d. destruct (decide (d = c)) as [->|]; [|apply flag_other; simpl; by rewrite ?lookup_insert_ne, ?fn_lookup_insert_ne].
    unfold flag. simpl. rewrite lookup_insert_eq, fn_lookup_insert. simpl. destruct Hs as [-> _]. rewrite Hs'.
    rewrite (proj2 (Z.eqb_neq (noff (cpus s c)) 0)) by lia. destruct (Z.eqb_spec (noff (cpus s c) - 1) 0); [|done].
    rewrite bool_decide_true by lia. done.
Qed.

Lemma wp_intr_get_flag (Q : bool → sst → Prop) : Q (bool_decide (hd c = ∅) && flag s c) s → wp (on_hart c intr_get) Q s.
Proof using HS Hv.
  intros HQ. destruct (si_cpu _ _ HS c Hv) as (h & [Hh Ht] & Hn & Hoff). apply (wp_on_hart _ _ _ _ h Hh), wp_intr_get.
  rewrite (set_hart_id _ _ _ Hh). replace (SIE h) with (bool_decide (hd c = ∅) && flag s c); [done|].
  unfold flag. rewrite Hh, Hn. destruct (decide (hd c = ∅)) as [E|E].
  - rewrite bool_decide_true by done. by rewrite E, size_empty.
  - rewrite bool_decide_false by done. by rewrite Hoff.
Qed.

Lemma wp_set_intena b (Q : unit → sst → Prop) : hd c ≠ ∅ →
  (∀ s', SInv s' hd → (∀ d, flag s' d = if decide (d = c) then b else flag s d) → Q tt s') →
  wp (modify (λ s, set_cpu c (Cpu (noff (cpus s c)) b) s)) Q s.
Proof using HS Hv.
  intros Hne HQ. destruct (si_cpu _ _ HS c Hv) as (h & Hs & Hn & Hoff). pose proof (size_pos _ Hne). apply wp_modify, HQ.
  - apply (SInv_same _ h); try done.
    + intros d Hd. simpl. by rewrite fn_lookup_insert_ne.
    + simpl. by rewrite fn_lookup_insert.
  - intros d. destruct (decide (d = c)) as [->|]; [|apply flag_other; simpl; by rewrite ?fn_lookup_insert_ne].
    unfold flag. simpl. rewrite fn_lookup_insert. simpl. destruct Hs as [-> _]. by rewrite (proj2 (Z.eqb_neq (noff (cpus s c)) 0)) by lia.
Qed.

Lemma wp_intr (b : bool) (Q : unit → sst → Prop) : hd c = ∅ →
  (∀ s', SInv s' hd → (∀ d, flag s' d = if decide (d = c) then b else flag s d) → Q tt s') →
  wp (on_hart c (if b then intr_on else intr_off)) Q s.
Proof using HS Hv.
  intros He HQ. destruct (si_cpu _ _ HS c Hv) as (h & [Hh Ht] & Hn & Hoff). apply (wp_on_hart _ _ _ _ h Hh).
  assert (∀ h', regs h' = regs h → SIE h' = b → Q tt (set_hart c h' s)) as HQ'.
  { intros h' Hr Hb. apply HQ.
    - apply (SInv_same _ h'); try done; [intros d Hd; simpl; by rewrite lookup_insert_ne|]. split; [apply lookup_insert_eq|by rewrite Hr].
    - intros d. destruct (decide (d = c)) as [->|]; [|apply flag_other; simpl; by rewrite ?lookup_insert_ne].
      unfold flag. simpl. rewrite lookup_insert_eq, Hn, He, size_empty. done. }
  destruct b; [apply wp_intr_on|apply wp_intr_off]; intros m Hm; (apply HQ'; [done|]);
    unfold status_bit; cbn [csrs set_csr]; rewrite fn_lookup_insert, Hm by lia; done.
Qed.
End locks.

(** ** Operations on the whole state *)
Definition set_sl (x : sst) (m : mach) : mach := Mach x (cproc m) (cctx m) (pstate m) (pchan m) (pctx m) (run m).
Section mach.
Context (m : mach) (hd : nat → gset Z) (c : nat).
Hypothesis HS : SInv (sl m) hd.
Hypothesis Hv : valid c.

Lemma wp_myproc (Q : option nat → mach → Prop) :
  (∀ s', SInv s' hd → (∀ d, flag s' d = flag (sl m) d) → Q (cproc m c) (set_sl s' m)) → wp (myproc c) Q m.
Proof using HS Hv.
  intros HQ. set (s := sl m) in *. destruct (si_cpu _ _ HS c Hv) as (h & Hs & Hn & Hoff).
  apply wp_bind, wp_lift, (wp_push_off c Hv _ s h Hs). intros h1 Hoff1 Hr1. set (s1 := set_cpu _ _ _).
  assert (self c s1 h1) as Hs1 by (split; [apply lookup_insert_eq|rewrite Hr1; apply Hs]).
  apply wp_bind, wp_lift, (wp_mycpu c Hv _ _ h1 Hs1). apply wp_bind, wp_gets. apply wp_bind, wp_lift, (wp_pop_off c Hv _ _ h1 Hs1); [done| |].
  { simpl. rewrite fn_lookup_insert. simpl. lia. }
  simpl. rewrite fn_lookup_insert. cbn [noff intena]. intros h2 Hs2 Hr2. apply wp_ret.
  assert (SIE h2 = SIE h) as E2.
  { rewrite Hs2. destruct (Z.eqb_spec (noff (cpus s c)) 0) as [E|E]; [by rewrite bool_decide_true by lia|].
    rewrite bool_decide_false by lia. rewrite Hoff; [done|]. intros E'. apply E. by rewrite Hn, E'. }
  apply HQ.
  - apply (SInv_same s _ c HS Hv _ h2); try done.
    + intros d Hd. simpl. by rewrite !lookup_insert_ne, !fn_lookup_insert_ne.
    + split; [apply lookup_insert_eq|]. rewrite Hr2, Hr1. apply Hs.
    + simpl. rewrite !fn_lookup_insert. simpl. lia.
    + by rewrite E2.
  - intros d. destruct (decide (d = c)) as [->|]; [|apply flag_other; simpl; by rewrite ?lookup_insert_ne, ?fn_lookup_insert_ne].
    unfold flag. simpl. rewrite lookup_insert_eq, !fn_lookup_insert. simpl. destruct Hs as [-> _]. rewrite E2.
    replace (noff (cpus s c) + 1 - 1) with (noff (cpus s c)) by lia. by destruct (Z.eqb_spec (noff (cpus s c)) 0).
Qed.
End mach.

Lemma wp_on_mycpu m hd c (Q : nat → mach → Prop) : SInv (sl m) hd → valid c → Q c m → wp (on_sl (mycpu c)) Q m.
Proof. intros HS Hv HQ. destruct (si_cpu _ _ HS c Hv) as (h & Hs & _). apply wp_lift, (wp_mycpu c Hv _ _ h Hs). by destruct m. Qed.

(** [sched] does not panic where its caller holds the lock of the process only. *)
Lemma wp_sched m hd c p e k (Q : unit → mach → Prop) :
  SInv (sl m) hd → valid c → hd c = {[plock p]} → cproc m c = Some p → cctx m c = SBack p → pstate m p ≠ RUNNING →
  (∀ s', SInv s' hd → (∀ d, flag s' d = flag (sl m) d) →
    Q tt (Mach s' (cproc m) (cctx m) (pstate m) (pchan m) (<[p := (e, Sched (flag (sl m) c) k)]> (pctx m)) (<[c := Sch (SBack p)]> (run m)))) →
  wp (sched c e k) Q m.
Proof.
  intros HS Hv Hh Hp Hc Hst HQ. unfold sched. apply wp_bind, (wp_myproc m hd c HS Hv). intros s1 HS1 Hf1. rewrite Hp.
  set (m1 := set_sl s1 m). change s1 with (sl m1) in HS1. destruct (si_cpu _ _ HS1 c Hv) as (h & [Hh1 Ht1] & Hn1 & _). rewrite Hh, size_singleton in Hn1. change (noff (cpus s1 c) = 1) in Hn1.
  apply wp_bind, wp_lift, (wp_holds _ _ _ HS1 Hv). rewrite bool_decide_true by (rewrite Hh; set_solver).
  apply wp_bind, wp_panic_if; [done|]. apply wp_bind, (wp_on_mycpu _ _ _ _ HS1 Hv), wp_bind, wp_gets, wp_bind, wp_panic_if.
  { change (negb (noff (cpus s1 c) =? 1) = false). by rewrite Hn1. }
  apply wp_bind, wp_gets, wp_bind, wp_panic_if; [by apply bool_decide_eq_false|].
  apply wp_bind, wp_lift, (wp_intr_get_flag _ _ _ HS1 Hv). rewrite bool_decide_false by (rewrite Hh; set_solver).
  apply wp_bind, wp_panic_if; [done|]. apply wp_bind, (wp_on_mycpu _ _ _ _ HS1 Hv), wp_bind, wp_gets, wp_bind, (wp_on_mycpu _ _ _ _ HS1 Hv).
  unfold swtch_out. apply wp_bind, wp_modify, wp_bind, wp_gets, wp_modify. simpl. rewrite Hc.
  assert (intena (cpus s1 c) = flag (sl m) c) as ->; [|by apply HQ].
  rewrite <-Hf1. unfold flag. change (harts s1 !! c = Some h) in Hh1. rewrite Hh1. by rewrite Hn1.
Qed.

(** ** The invariant *)

(** The locks that are held at a place in the code. *)
Definition plocks (p : nat) (l : loc) : gset Z :=
  match l with
  | Visiting q _ | Leave q => {[plock q]}
  | Forkret | Sched _ _ | Yield _ | YieldRel _ | SleepRel _ _ _ | SleepSet _ _ _ | Awake _ _ | AwakeRel _ _
  | ExitSet _ | ExitRel _ | ExitSched | ExitPanic => {[plock p]}
  | _ => ∅
  end.
Definition held_by (x : thread) : gset Z :=
  match x with
  | Sch (SBody i _) | Sch (SBack i) | Sch (SRel i _) | Sch (SVisiting i _ _) | Sch (SLeave i _) => {[plock i]}
  | Sch _ => ∅
  | Thr p e l => e_locks e ∪ plocks p l
  end.
(** The state of the process of a thread that runs. *)
Definition run_state (l : loc) : procstate :=
  match l with ExitRel _ | ExitSched | ExitPanic => ZOMBIE | _ => RUNNING end.
(** Outside of a change of threads, the interrupts are as the thread has set them. *)
Definition int_ok (f : bool) (e : env) (l : loc) : Prop :=
  match l with Forkret | Sched _ _ => True | _ => f = e_int e end.

Definition visit_ok (p : nat) (e : env) (q : nat) (v : visit) : Prop :=
  match v with VStart => e_new e = Some q | VWakeup _ => q ≠ p | _ => True end.
Definition loc_ok (p : nat) (e : env) (l : loc) : Prop :=
  (∀ x, x ∈ e_locks e → x < 0) ∧
  match l with
  | Forkret | YieldAcq | ExitSched | Intr _ => e_locks e = ∅
  | Run | Leave _ => True
  | Sched ie k => e_locks e = ∅ ∧ ie = e_int e ∧ (k = YieldRel p ∨ ∃ lk, k = Awake p lk ∧ lk < 0)
  | Yield q | YieldRel q => q = p ∧ e_locks e = ∅
  | SleepAcq ch lk => e_locks e = {[lk]}
  | SleepRel q ch lk => q = p ∧ e_locks e = {[lk]}
  | SleepSet q _ lk | Awake q lk | AwakeRel q lk => q = p ∧ e_locks e = ∅ ∧ lk < 0
  | Relock lk => e_locks e = ∅ ∧ lk < 0
  | ExitAcq => e_locks e = {[wait_lock]}
  | ExitSet q | ExitRel q => q = p ∧ e_locks e = {[wait_lock]}
  | ExitPanic => False
  | Visit q v | Visiting q v => visit_ok p e q v
  | Acquire x => x < 0 ∧ x ∉ e_locks e
  | Release x => x ∈ e_locks e
  end.
(** A thread that does not run is in [forkret] or has called [sched]. *)
Definition ctx_ok (p : nat) (x : env * loc) : Prop :=
  loc_ok p x.1 x.2 ∧ (x.2 = Forkret ∨ ∃ ie k, x.2 = Sched ie k).

Definition run_ok (m : mach) (c : nat) : Prop :=
  match run m c with
  | Sch l =>
      match l with
      | SIntr k | SVisit _ _ k | SVisiting _ _ k | SLeave _ k => open k = true ∧ cproc m c = None
      | SStart | SBack _ => True
      | _ => cproc m c = None
      end
  | Thr p e l => cproc m c = Some p ∧ cctx m c = SBack p ∧ pstate m p = run_state l ∧ loc_ok p e l ∧ int_ok (flag (sl m) c) e l
  end.
Definition proc_ok (m : mach) (p : nat) : Prop :=
  match pstate m p with
  | RUNNING => ∃ c e l, run m c = Thr p e l
  | RUNNABLE | SLEEPING => ctx_ok p (pctx m p)
  | USED => pctx m p = (Env ∅ false None, Forkret)
  | _ => True
  end.
(** The threads that run or will run. *)
Definition live (m : mach) (p : nat) (e : env) : Prop :=
  (∃ c l, run m c = Thr p e l) ∨ (pstate m p = RUNNABLE ∨ pstate m p = SLEEPING) ∧ (pctx m p).1 = e.

Record MInv (m : mach) : Prop := {
  mv_s : SInv (sl m) (λ c, held_by (run m c));
  mv_run : ∀ c, run_ok m c;
  mv_proc : ∀ p, proc_ok m p;
  mv_uniq : ∀ c c' p e e' l l', run m c = Thr p e l → run m c' = Thr p e' l' → c = c';
  mv_new : ∀ p e q, live m p e → e_new e = Some q → pstate m q = USED;
  mv_newu : ∀ p p' e e' q, live m p e → live m p' e' → e_new e = Some q → e_new e' = Some q → p = p';
}.

(** ** Steps that concern one processor only *)

(** The other processors do not see them. *)
Lemma run_ok_other m m' c d : d ≠ c → run_ok m d → run m' d = run m d → cproc m' d = cproc m d → cctx m' d = cctx m d →
  flag (sl m') d = flag (sl m) d → (∀ p e l, run m d = Thr p e l → pstate m' p = pstate m p) → run_ok m' d.
Proof.
  intros _ H E1 E2 E3 E4 E5. unfold run_ok in *. rewrite E1, E2, E3, E4. destruct (run m d) as [l|p e l] eqn:E; [done|]. by rewrite (E5 p e l).
Qed.
Lemma held_by_insert m c x d : held_by ((<[c := x]> (run m)) d) = (<[c := held_by x]> (λ c, held_by (run m c))) d.
Proof. destruct (decide (d = c)) as [->|]; by rewrite ?fn_lookup_insert, ?fn_lookup_insert_ne. Qed.

Section local.
Context (m : mach) (c : nat).
Hypothesis HM : MInv m.

(** The thread goes on within its code.  It may end its process, and it may give
    up the new process it has or get one that nobody has. *)
Lemma local_thr p e l e' l' s' ps ch :
  run m c = Thr p e l → SInv s' (<[c := held_by (Thr p e' l')]> (λ c, held_by (run m c))) →
  (∀ d, d ≠ c → flag s' d = flag (sl m) d) → loc_ok p e' l' → int_ok (flag s' c) e' l' →
  ps p = run_state l' → (∀ q, q ≠ p → ps q = pstate m q) →
  (∀ r, e_new e' = Some r → e_new e = Some r ∨ pstate m r = USED ∧ ∀ p0 e0, live m p0 e0 → e_new e0 ≠ Some r) →
  MInv (Mach s' (cproc m) (cctx m) ps ch (pctx m) (<[c := Thr p e' l']> (run m))).
Proof using HM.
  intros Hr HS Hf Hl Hi Hps Hpo Hnew. destruct HM as [M1 M2 M3 M4 M5 M6]. set (m' := Mach _ _ _ _ _ _ _).
  pose proof (M2 c) as Hc. unfold run_ok in Hc. rewrite Hr in Hc. destruct Hc as (C1 & C2 & C3 & _).
  assert (∀ d q e0 l0, d ≠ c → run m d = Thr q e0 l0 → q ≠ p) as Hne by (intros d q e0 l0 Hd E ->; apply Hd; by apply (M4 _ _ _ _ _ _ _ E Hr)).
  assert (∀ q e0, live m' q e0 → q = p ∧ e0 = e' ∨ q ≠ p ∧ live m q e0) as Hlive.
  { intros q e0 [(d & l0 & Hd)|[Hs Hd]]; simpl in *.
    - destruct (decide (d = c)) as [->|]; [rewrite fn_lookup_insert in Hd; injection Hd as <- <- <-; by left|].
      rewrite fn_lookup_insert_ne in Hd by done. right. split; [by eapply Hne|left; eauto].
    - right. assert (q ≠ p) as Hq by (intros ->; rewrite Hps in Hs; destruct l'; naive_solver). split; [done|]. right. by rewrite <-Hpo. }
  assert (∀ q, pstate m q = USED → pstate m' q = USED) as Hused.
  { intros q Hq. simpl. rewrite Hpo; [done|]. intros ->. rewrite Hq in C3. by destruct l. }
  split.
  - eapply SInv_ext, HS. intros d. apply held_by_insert.
  - intros d. destruct (decide (d = c)) as [->|]; [unfold run_ok; simpl; rewrite fn_lookup_insert; by rewrite Hps|].
    eapply (run_ok_other m); simpl; try done; [by rewrite fn_lookup_insert_ne|auto|]. intros q e0 l0 E. apply Hpo. by eapply Hne.
  - intros q. destruct (decide (q = p)) as [->|Hq].
    + unfold proc_ok. simpl. rewrite Hps. destruct l'; simpl; try done; exists c; eexists _, _; apply fn_lookup_insert.
    + pose proof (M3 q) as H. unfold proc_ok in *. simpl. rewrite Hpo by done. destruct (pstate m q); try done. destruct H as (d & e0 & l0 & Hd).
      exists d, e0, l0. rewrite fn_lookup_insert_ne; [done|]. intros ->. congruence.
  - intros d d' q e1 e2 l1 l2. simpl. destruct (decide (d = c)) as [->|], (decide (d' = c)) as [->|]; [done|..];
      rewrite ?fn_lookup_insert, ?fn_lookup_insert_ne by done.
    + intros [= <- <- <-] H. by apply (M4 _ _ _ _ _ _ _ Hr H).
    + intros H [= <- <- <-]. by apply (M4 _ _ _ _ _ _ _ H Hr).
    + apply M4.
  - assert (live m p e) as Hlp by (left; eauto).
    intros q e0 r [[-> ->]|[_ Hq]]%Hlive He; apply Hused; [destruct (Hnew r He) as [?|[? _]]; [by apply (M5 p e)|done]|by apply (M5 q e0)].
  - assert (live m p e) as Hlp by (left; eauto).
    assert (∀ q e0 r, live m q e0 → e_new e0 = Some r → e_new e' = Some r → q = p) as Hx.
    { intros q e0 r H1 E1 E2. destruct (Hnew r E2) as [E|[_ Hno]]; [by apply (M6 q p e0 e r)|by destruct (Hno q e0)]. }
    intros q q' e0 e0' r [[-> ->]|[H0 H1]]%Hlive [[-> ->]|[H2 H3]]%Hlive E1 E2; [done| | |].
    + symmetry. by apply (Hx q' e0' r).
    + by apply (Hx q e0 r).
    + by apply (M6 q q' e0 e0' r).
Qed.
Lemma local_sch l l' s' cp :
  run m c = Sch l → SInv s' (<[c := held_by (Sch l')]> (λ c, held_by (run m c))) →
  (∀ d, d ≠ c → flag s' d = flag (sl m) d) → (∀ d, d ≠ c → cp d = cproc m d) →
  run_ok (Mach s' cp (cctx m) (pstate m) (pchan m) (pctx m) (<[c := Sch l']> (run m))) c →
  MInv (Mach s' cp (cctx m) (pstate m) (pchan m) (pctx m) (<[c := Sch l']> (run m))).
Proof using HM.
  intros Hr HS Hf Hcp Hok. destruct HM as [M1 M2 M3 M4 M5 M6]. set (m' := Mach _ _ _ _ _ _ _) in *.
  assert (∀ q e0, live m' q e0 → live m q e0) as Hlive.
  { intros q e0 [(d & l0 & Hd)|Hd]; [|by right]. left. exists d, l0. simpl in Hd. destruct (decide (d = c)) as [->|].
    - by rewrite fn_lookup_insert in Hd.
    - by rewrite fn_lookup_insert_ne in Hd. }
  split.
  - eapply SInv_ext, HS. intros d. apply held_by_insert.
  - intros d. destruct (decide (d = c)) as [->|]; [done|]. eapply (run_ok_other m); simpl; try done; [by rewrite fn_lookup_insert_ne|auto|auto].
  - intros q. pose proof (M3 q) as H. unfold proc_ok in *. simpl. destruct (pstate m q); try done. destruct H as (d & e0 & l0 & Hd).
    exists d, e0, l0. rewrite fn_lookup_insert_ne by (intros ->; by rewrite Hr in Hd). done.
  - intros d d' q e1 e2 l1 l2. simpl. destruct (decide (d = c)) as [->|]; [by rewrite fn_lookup_insert|].
    destruct (decide (d' = c)) as [->|]; [by rewrite fn_lookup_insert|]. rewrite !fn_lookup_insert_ne by done. apply M4.
  - intros q e0 r Hq%Hlive. by apply (M5 q e0).
  - intros q q' e0 e0' r H1%Hlive H2%Hlive. by apply (M6 q q' e0 e0' r).
Qed.

(** The entry of a process that does not run is changed. *)
Lemma entry_step q x pc ch :
  (∀ d e l, run m d ≠ Thr q e l) → (∀ p, p ≠ q → pc p = pctx m p) → x ≠ RUNNING →
  (x = USED → pc q = (Env ∅ false None, Forkret)) → (x = RUNNABLE ∨ x = SLEEPING → ctx_ok q (pc q)) →
  (pstate m q = USED → x ≠ USED → ∀ p e, live m p e → e_new e ≠ Some q) →
  (x = RUNNABLE ∨ x = SLEEPING → live m q (pc q).1 ∨ e_new (pc q).1 = None) →
  MInv (Mach (sl m) (cproc m) (cctx m) (<[q := x]> (pstate m)) ch pc (run m)).
Proof using HM.
  intros Hr Hpc Hx Hu Hctx Hcl Hlv. destruct HM as [M1 M2 M3 M4 M5 M6]. set (m' := Mach _ _ _ _ _ _ _).
  assert (∀ p e, live m' p e → live m p e ∨ e_new e = None) as Hlive.
  { intros p e [(d & l0 & Hd)|[Hs Hd]]; [left; left; eauto|]. simpl in *. destruct (decide (p = q)) as [->|].
    - rewrite fn_lookup_insert in Hs. subst e. by apply Hlv.
    - rewrite fn_lookup_insert_ne in Hs by done. rewrite Hpc in Hd by done. left. by right. }
  split.
  - done.
  - intros d. pose proof (M2 d) as H. unfold run_ok in *. simpl. destruct (run m d) as [l|p e l] eqn:E; [done|].
    rewrite fn_lookup_insert_ne; [done|]. intros ->. by apply (Hr d e l).
  - intros p. destruct (decide (p = q)) as [->|]; unfold proc_ok; simpl.
    + rewrite fn_lookup_insert. destruct x; try done; auto.
    + rewrite fn_lookup_insert_ne, Hpc by done. apply M3.
  - done.
  - intros p e r [Hp|Hp]%Hlive He; [|congruence]. pose proof (M5 p e r Hp He) as Hs. simpl. destruct (decide (r = q)) as [->|].
    + rewrite fn_lookup_insert. destruct (decide (x = USED)) as [|Hn]; [done|]. by destruct (Hcl Hs Hn p e Hp).
    + by rewrite fn_lookup_insert_ne.
  - intros p p' e e' r [Hp|Hp]%Hlive [Hp'|Hp']%Hlive E E'; [by apply (M6 p p' e e' r)|congruence..].
Qed.

(** [swtch] to a process, and back to [scheduler]. *)
Lemma in_step i f : run m c = Sch (SBody i f) → pstate m i = RUNNABLE →
  MInv (Mach (sl m) (<[c := Some i]> (cproc m)) (<[c := SBack i]> (cctx m)) (<[i := RUNNING]> (pstate m)) (pchan m) (pctx m)
    (<[c := Thr i (pctx m i).1 (pctx m i).2]> (run m))).
Proof using HM.
  intros Hr Hst. destruct HM as [M1 M2 M3 M4 M5 M6]. set (m' := Mach _ _ _ _ _ _ _).
  pose proof (M3 i) as Hc. unfold proc_ok in Hc. rewrite Hst in Hc. destruct Hc as [Hl Hk].
  assert (held_by (Thr i (pctx m i).1 (pctx m i).2) = {[plock i]}) as Hh.
  { simpl. destruct Hl as [_ Hl]. destruct Hk as [E|(ie & k & E)]; rewrite E in Hl |- *; simpl in *.
    - rewrite Hl. set_solver.
    - destruct Hl as [-> _]. set_solver. }
  assert (∀ d e l, run m d ≠ Thr i e l) as Hno.
  { intros d e l E. pose proof (M2 d) as H. unfold run_ok in H. rewrite E in H. destruct H as (_ & _ & H & _). rewrite Hst in H. by destruct l. }
  assert (∀ p e, live m' p e → live m p e) as Hlive.
  { intros p e [(d & l0 & Hd)|[Hs Hd]]; simpl in *.
    - destruct (decide (d = c)) as [->|]; [|rewrite fn_lookup_insert_ne in Hd by done; left; eauto].
      rewrite fn_lookup_insert in Hd. injection Hd as <- <- <-. right. split; [by left|done].
    - destruct (decide (p = i)) as [->|]; [rewrite fn_lookup_insert in Hs; naive_solver|]. rewrite fn_lookup_insert_ne in Hs by done. by right. }
  assert (∀ d, held_by (run m' d) = held_by (run m d)) as Hheld.
  { intros d. simpl. destruct (decide (d = c)) as [->|]; [by rewrite fn_lookup_insert, Hh, Hr|by rewrite fn_lookup_insert_ne]. }
  split.
  - by apply (SInv_ext _ (λ c, held_by (run m c))).
  - intros d. destruct (decide (d = c)) as [->|].
    + unfold run_ok. simpl. rewrite !fn_lookup_insert. split_and!; [done|done| |done|].
      * by destruct Hk as [->|(ie & k & ->)].
      * by destruct Hk as [->|(ie & k & ->)].
    + eapply (run_ok_other m); simpl; rewrite ?fn_lookup_insert_ne by done; try done. intros p e l E. rewrite fn_lookup_insert_ne; [done|].
      intros ->. by apply (Hno d e l).
  - intros p. destruct (decide (p = i)) as [->|]; unfold proc_ok; simpl.
    + rewrite fn_lookup_insert. exists c. eexists _, _. apply fn_lookup_insert.
    + rewrite fn_lookup_insert_ne by done. pose proof (M3 p) as H. unfold proc_ok in H. destruct (pstate m p); try done.
      destruct H as (d & e0 & l0 & Hd). exists d, e0, l0. rewrite fn_lookup_insert_ne; [done|]. intros ->. congruence.
  - intros d d' p e1 e2 l1 l2. simpl. destruct (decide (d = c)) as [->|], (decide (d' = c)) as [->|]; [done|..];
      rewrite ?fn_lookup_insert, ?fn_lookup_insert_ne by done; [|intros H|apply M4]; intros [= <- <- <-]; [|by destruct (Hno d e1 l1)].
    intros H. by destruct (Hno d' e2 l2).
  - intros p e r Hp%Hlive He. simpl. rewrite fn_lookup_insert_ne; [by apply (M5 p e)|]. intros ->. by rewrite (M5 p e r Hp He) in Hst.
  - intros p p' e e' r H1%Hlive H2%Hlive. by apply (M6 p p' e e' r).
Qed.

Lemma out_step p e l ie k ps ch s' :
  run m c = Thr p e l → e_locks e = ∅ → plocks p l = {[plock p]} → SInv s' (λ c, held_by (run m c)) →
  (∀ d, flag s' d = flag (sl m) d) → ps p = RUNNABLE ∨ ps p = SLEEPING ∨ ps p = ZOMBIE → (∀ q, q ≠ p → ps q = pstate m q) →
  (ps p ≠ ZOMBIE → loc_ok p e (Sched ie k)) →
  MInv (Mach s' (cproc m) (cctx m) ps ch (<[p := (e, Sched ie k)]> (pctx m)) (<[c := Sch (SBack p)]> (run m))).
Proof using HM.
  intros Hr He Hp HS Hf Hx Hps Hok. destruct HM as [M1 M2 M3 M4 M5 M6]. set (m' := Mach _ _ _ _ _ _ _).
  assert (∀ d e0 l0, d ≠ c → run m d ≠ Thr p e0 l0) as Hno by (intros d e0 l0 Hd E; apply Hd; by apply (M4 _ _ _ _ _ _ _ E Hr)).
  assert (∀ q e0, live m' q e0 → live m q e0) as Hlive.
  { intros q e0 [(d & l0 & Hd)|[Hs Hd]]; simpl in *.
    - destruct (decide (d = c)) as [->|]; [by rewrite fn_lookup_insert in Hd|]. rewrite fn_lookup_insert_ne in Hd by done. left; eauto.
    - destruct (decide (q = p)) as [->|]; [|rewrite Hps in Hs by done; rewrite fn_lookup_insert_ne in Hd by done; by right].
      rewrite fn_lookup_insert in Hd. simpl in Hd. subst e0. left; eauto. }
  split.
  - eapply SInv_ext, HS. intros d. simpl. destruct (decide (d = c)) as [->|]; [|by rewrite fn_lookup_insert_ne].
    rewrite fn_lookup_insert, Hr. simpl. rewrite He, Hp. set_solver.
  - intros d. destruct (decide (d = c)) as [->|]; [unfold run_ok; simpl; by rewrite fn_lookup_insert|].
    eapply (run_ok_other m); simpl; try done; [by rewrite fn_lookup_insert_ne|]. intros q e0 l0 E. apply Hps.
    intros ->. by apply (Hno d e0 l0).
  - intros q. destruct (decide (q = p)) as [->|]; unfold proc_ok; simpl.
    + rewrite fn_lookup_insert. destruct Hx as [E|[E|E]]; rewrite E in Hok |- *; [| |done]; (split; [by apply Hok|right; simpl; eauto]).
    + rewrite fn_lookup_insert_ne, Hps by done. pose proof (M3 q) as H. unfold proc_ok in H. destruct (pstate m q); try done.
      destruct H as (d & e0 & l0 & Hd). exists d, e0, l0. rewrite fn_lookup_insert_ne; [done|]. intros ->. congruence.
  - intros d d' q e1 e2 l1 l2. simpl. destruct (decide (d = c)) as [->|]; [by rewrite fn_lookup_insert|].
    destruct (decide (d' = c)) as [->|]; [by rewrite fn_lookup_insert|]. rewrite !fn_lookup_insert_ne by done. apply M4.
  - intros q e0 r Hq%Hlive E. pose proof (M5 q e0 r Hq E) as Hu. simpl. rewrite Hps; [done|]. intros ->.
    pose proof (M2 c) as H. unfold run_ok in H. rewrite Hr in H. destruct H as (_ & _ & H & _). rewrite Hu in H. by destruct l.
  - intros q q' e0 e0' r H1%Hlive H2%Hlive. by apply (M6 q q' e0 e0' r).
Qed.
End local.

(** ** Every step keeps the invariant *)
Lemma thr_facts m c p e l : MInv m → run m c = Thr p e l →
  cproc m c = Some p ∧ cctx m c = SBack p ∧ pstate m p = run_state l ∧ loc_ok p e l ∧ int_ok (flag (sl m) c) e l.
Proof. intros HM Hr. pose proof (mv_run _ HM c) as H. unfold run_ok in H. by rewrite Hr in H. Qed.
Lemma MInv_sl m s' : MInv m → SInv s' (λ c, held_by (run m c)) → (∀ d, flag s' d = flag (sl m) d) → MInv (set_sl s' m).
Proof.
  intros [M1 M2 M3 M4 M5 M6] HS Hf. split; try done. intros d. pose proof (M2 d) as H. unfold run_ok in *. simpl.
  by rewrite Hf.
Qed.

Section go.
Context (m : mach) (c : nat).
Hypothesis HM : MInv m.
Hypothesis Hv : valid c.
Abbreviation hd := (λ c, held_by (run m c)).

Lemma thr_go p e l e' l' L (o : K sst unit) : run m c = Thr p e l →
  (∀ Q : unit → sst → Prop, (∀ s', SInv s' (<[c := L]> hd) → (∀ d, flag s' d = flag (sl m) d) → Q tt s') → wpb o Q (sl m)) →
  L = held_by (Thr p e' l') → loc_ok p e' l' → int_ok (flag (sl m) c) e' l' → run_state l' = run_state l → e_new e' = e_new e →
  wpb (on_sl o;; goto c (Thr p e' l')) (λ _ m', MInv m') m.
Proof using HM.
  intros Hr Ho -> Hl Hi Hs Hn. destruct (thr_facts _ _ _ _ _ HM Hr) as (_ & _ & Hst & _).
  apply wpb_bind, wpb_lift, Ho. intros s' HS Hf. apply wpb_wp, wp_modify.
  apply (local_thr m c HM p e l); try done; [by rewrite Hf|simpl; congruence|]. intros r Hr'. left. congruence.
Qed.
Lemma thr_acquire p e l e' l' x : run m c = Thr p e l → x ∉ held_by (Thr p e l) → held_by (Thr p e' l') = {[x]} ∪ held_by (Thr p e l) →
  loc_ok p e' l' → int_ok (flag (sl m) c) e' l' → run_state l' = run_state l → e_new e' = e_new e →
  wpb (on_sl (acquire c x);; goto c (Thr p e' l')) (λ _ m', MInv m') m.
Proof using HM Hv.
  intros Hr Hx Hh Hl Hi Hs Hn. apply (thr_go p e l e' l' ({[x]} ∪ held_by (Thr p e l)) _ Hr); try done.
  intros Q HQ. apply (wpb_acquire _ _ _ (mv_s _ HM) Hv); simpl; rewrite Hr; [done|]. exact HQ.
Qed.
Lemma thr_release p e l e' l' x : run m c = Thr p e l → x ∈ held_by (Thr p e l) → held_by (Thr p e' l') = held_by (Thr p e l) ∖ {[x]} →
  loc_ok p e' l' → int_ok (flag (sl m) c) e' l' → run_state l' = run_state l → e_new e' = e_new e →
  wpb (on_sl (release c x);; goto c (Thr p e' l')) (λ _ m', MInv m') m.
Proof using HM Hv.
  intros Hr Hx Hh Hl Hi Hs Hn. apply (thr_go p e l e' l' (held_by (Thr p e l) ∖ {[x]}) _ Hr); try done.
  intros Q HQ. apply wpb_wp, (wp_releases _ _ _ (mv_s _ HM) Hv); simpl; rewrite Hr; [done|]. exact HQ.
Qed.
(** The beginning of [yield], [sleep] and of the end of [exit]. *)
Lemma thr_myproc p e l (f : option nat → K mach unit) : run m c = Thr p e l →
  (∀ s', MInv (set_sl s' m) → wpb (f (Some p)) (λ _ m', MInv m') (set_sl s' m)) → wpb (myproc c ≫= f) (λ _ m', MInv m') m.
Proof using HM Hv.
  intros Hr Hf. destruct (thr_facts _ _ _ _ _ HM Hr) as (Hp & _). apply wpb_bind, wpb_wp, (wp_myproc m _ c (mv_s _ HM) Hv).
  intros s' HS' Hf'. rewrite Hp. apply Hf. by apply MInv_sl.
Qed.

Lemma sch_go l l' L cp (o : K sst unit) : run m c = Sch l →
  (∀ Q : unit → sst → Prop, (∀ s', SInv s' (<[c := L]> hd) → (∀ d, d ≠ c → flag s' d = flag (sl m) d) → Q tt s') → wpb o Q (sl m)) →
  L = held_by (Sch l') → (∀ d, d ≠ c → cp d = cproc m d) →
  run_ok (Mach (sl m) cp (cctx m) (pstate m) (pchan m) (pctx m) (<[c := Sch l']> (run m))) c →
  wpb (on_sl o;; goto c (Sch l')) (λ _ m', MInv m') (Mach (sl m) cp (cctx m) (pstate m) (pchan m) (pctx m) (run m)).
Proof using HM.
  intros Hr Ho -> Hcp Hok. apply wpb_bind, wpb_lift, Ho. intros s' HS Hf. apply wpb_wp, wp_modify.
  apply (local_sch m c HM l); try done. unfold run_ok in *. simpl in *. by rewrite fn_lookup_insert in *.
Qed.
Lemma sch_goto l l' cp : run m c = Sch l → held_by (Sch l') = held_by (Sch l) → (∀ d, d ≠ c → cp d = cproc m d) →
  run_ok (Mach (sl m) cp (cctx m) (pstate m) (pchan m) (pctx m) (<[c := Sch l']> (run m))) c →
  MInv (Mach (sl m) cp (cctx m) (pstate m) (pchan m) (pctx m) (<[c := Sch l']> (run m))).
Proof using HM.
  intros Hr Hh Hcp Hok. apply (local_sch m c HM l); try done. eapply SInv_ext, (mv_s _ HM). intros d. destruct (decide (d = c)) as [->|].
  - by rewrite fn_lookup_insert, Hr.
  - by rewrite fn_lookup_insert_ne.
Qed.
End go.

(** ** Entries of the process table under their locks *)
Lemma lock_holder m c d x : MInv m → x ∈ held_by (run m c) → x ∈ held_by (run m d) → c = d.
Proof. intros HM H1 H2. apply (si_lock _ _ (mv_s _ HM)) in H1, H2. congruence. Qed.
Lemma idle m q : MInv m → pstate m q ≠ RUNNING → pstate m q ≠ ZOMBIE → ∀ d e l, run m d ≠ Thr q e l.
Proof. intros HM H1 H2 d e l E. destruct (thr_facts _ _ _ _ _ HM E) as (_ & _ & H & _). rewrite H in H1, H2. by destruct l. Qed.
(** A zombie whose lock is free of its thread has left its processor for good. *)
Lemma idle_zombie m c q : MInv m → pstate m q = ZOMBIE → plock q ∈ held_by (run m c) → (∀ e l, run m c ≠ Thr q e l) →
  ∀ d e l, run m d ≠ Thr q e l.
Proof.
  intros HM Hz Hl Hc d e l E. destruct (thr_facts _ _ _ _ _ HM E) as (_ & _ & H & _). rewrite Hz in H.
  assert (plock q ∈ held_by (run m d)) as Hd by (rewrite E; destruct l; try done; simpl; set_solver).
  pose proof (lock_holder _ _ _ _ HM Hl Hd). subst d. by apply (Hc e l).
Qed.

Lemma wake_MInv m q : MInv m → pstate m q = SLEEPING → MInv (set_pstate q RUNNABLE m).
Proof.
  intros HM Hs. apply (entry_step m HM); try done; rewrite ?Hs; try done.
  - apply (idle _ _ HM); by rewrite Hs.
  - intros _. pose proof (mv_proc _ HM q) as H. unfold proc_ok in H. by rewrite Hs in H.
  - intros _. left. right. auto.
Qed.
Lemma wakeup_entry_ok m q ch (f : K mach unit) :
  MInv m → (∀ m', MInv m' → sl m' = sl m → run m' = run m → cproc m' = cproc m → wpb f (λ _ m', MInv m') m') →
  wpb (wakeup_entry q ch;; f) (λ _ m', MInv m') m.
Proof.
  intros HM Hf. apply wpb_bind, wpb_wp. unfold wakeup_entry. apply wp_bind, wp_gets, wp_bind, wp_gets, wp_when; [|by intros _; apply Hf].
  intros [Hs%bool_decide_eq_true _]%andb_prop. apply wp_modify. by apply Hf; [apply wake_MInv|..].
Qed.

(** ** [scheduler] *)
Definition sch_proc (l : sloc) (o : option nat) : Prop :=
  match l with
  | SIntr k | SVisit _ _ k | SVisiting _ _ k | SLeave _ k => open k = true ∧ o = None
  | SStart | SBack _ => True
  | _ => o = None
  end.
Section scheduler.
Context (m : mach) (c : nat).
Hypothesis HM : MInv m.
Hypothesis Hv : valid c.

Lemma sch_facts l : run m c = Sch l → sch_proc l (cproc m c).
Proof using HM. clear Hv. intros Hr. pose proof (mv_run _ HM c) as H. unfold run_ok in H. by rewrite Hr in H. Qed.
Lemma sch_ok s' cp l' : sch_proc l' (cp c) → run_ok (Mach s' cp (cctx m) (pstate m) (pchan m) (pctx m) (<[c := Sch l']> (run m))) c.
Proof using Type. clear. intros H. unfold run_ok. simpl. by rewrite fn_lookup_insert. Qed.
Lemma sch_lock l l' L (o : K sst unit) : run m c = Sch l →
  (∀ Q : unit → sst → Prop, (∀ s', SInv s' (<[c := L]> (λ c, held_by (run m c))) → (∀ d, d ≠ c → flag s' d = flag (sl m) d) → Q tt s') → wpb o Q (sl m)) →
  L = held_by (Sch l') → sch_proc l' (cproc m c) → wpb (on_sl o;; goto c (Sch l')) (λ _ m', MInv m') m.
Proof using HM.
  clear Hv. intros Hr Ho HL Hok. pose proof (sch_go m c HM l l' L (cproc m) o Hr Ho HL) as H.
  assert (m = Mach (sl m) (cproc m) (cctx m) (pstate m) (pchan m) (pctx m) (run m)) as Em by (by destruct m).
  rewrite <-Em in H. apply H; [done|]. by apply sch_ok.
Qed.
Lemma sch_acquire l l' x : run m c = Sch l → held_by (Sch l) = ∅ → held_by (Sch l') = {[x]} → sch_proc l' (cproc m c) →
  wpb (on_sl (acquire c x);; goto c (Sch l')) (λ _ m', MInv m') m.
Proof using HM Hv.
  intros Hr H0 H1 Hok. apply (sch_lock l l' {[x]} _ Hr); [|done|done]. intros Q HQ. apply (wpb_acquire _ _ _ (mv_s _ HM) Hv); simpl; rewrite Hr, H0; [done|].
  intros s' HS Hf. apply HQ; [by rewrite union_empty_r_L in HS|auto].
Qed.
Lemma sch_release l l' x : run m c = Sch l → held_by (Sch l) = {[x]} → held_by (Sch l') = ∅ → sch_proc l' (cproc m c) →
  wpb (on_sl (release c x);; goto c (Sch l')) (λ _ m', MInv m') m.
Proof using HM Hv.
  intros Hr H0 H1 Hok. apply (sch_lock l l' ∅ _ Hr); [|done|done]. intros Q HQ.
  apply wpb_wp, (wp_releases _ _ _ (mv_s _ HM) Hv); simpl; rewrite Hr, H0; [set_solver|].
  intros s' HS Hf. apply HQ; [by rewrite difference_diag_L in HS|auto].
Qed.
Lemma sch_intr l l' (b : bool) : run m c = Sch l → held_by (Sch l) = ∅ → held_by (Sch l') = ∅ → sch_proc l' (cproc m c) →
  wpb (on_sl (on_hart c (if b then intr_on else intr_off));; goto c (Sch l')) (λ _ m', MInv m') m.
Proof using HM Hv.
  intros Hr H0 H1 Hok. apply (sch_lock l l' ∅ _ Hr); [|done|done]. intros Q HQ.
  apply wpb_wp, (wp_intr _ _ _ (mv_s _ HM) Hv b); simpl; rewrite ?Hr, ?H0; [done|]. intros s' HS Hf. apply HQ.
  - eapply SInv_ext, HS. intros d. destruct (decide (d = c)) as [->|]; [by rewrite fn_lookup_insert, Hr, H0|by rewrite fn_lookup_insert_ne].
  - intros d Hd. by rewrite Hf, decide_False.
Qed.
Lemma sch_move l l' cp : run m c = Sch l → held_by (Sch l') = held_by (Sch l) → (∀ d, d ≠ c → cp d = cproc m d) → sch_proc l' (cp c) →
  MInv (Mach (sl m) cp (cctx m) (pstate m) (pchan m) (pctx m) (<[c := Sch l']> (run m))).
Proof using HM. clear Hv. intros Hr Hh Hcp Hok. apply (sch_goto m c HM l); try done. by apply sch_ok. Qed.

Lemma scheduler_ok l : run m c = Sch l → wpb (scheduler c l) (λ _ m', MInv m') m.
Proof using HM Hv.
  intros Hr. pose proof (sch_facts l Hr) as Hf. destruct l as [| |i f|i f|i|i f|l|q ch l|q ch l|q l]; simpl in Hf; unfold scheduler.
  - apply wpb_wp, wp_bind, wp_modify, wp_modify. apply (sch_move SStart); try done; simpl; [intros d Hd; by rewrite fn_lookup_insert_ne|].
    apply fn_lookup_insert.
  - by apply (sch_intr SHead _ true).
  - destruct (Z.of_nat i <? NPROC); [by apply (sch_acquire (SAcq i f))|]. destruct f; [|by apply (sch_intr (SAcq i false) _ true)].
    apply wpb_wp, wp_modify. by apply (sch_move (SAcq i true)).
  - apply wpb_wp, wp_bind, wp_gets. case_decide as Hs.
    + apply wp_bind, wp_modify, wp_bind, wp_modify, wp_bind, wp_modify, wp_bind, wp_gets, wp_modify. simpl. by apply (in_step m c HM i f).
    + apply wp_modify. by apply (sch_move (SBody i f)).
  - apply wpb_wp, wp_bind, wp_modify, wp_modify. apply (sch_move (SBack i)); try done; simpl; [intros d Hd; by rewrite fn_lookup_insert_ne|].
    apply fn_lookup_insert.
  - by apply (sch_release (SRel i f)).
  - destruct Hf as [Ho Hp]. apply (sch_intr (SIntr l) _ true); try done; by destruct l.
  - by apply (sch_acquire (SVisit q ch l)).
  - apply wakeup_entry_ok; [done|]. intros m' HM' _ E1 E2. apply wpb_wp, wp_modify.
    rewrite <-E1 in Hr. pose proof (mv_run _ HM' c) as H. unfold run_ok in H. rewrite Hr in H.
    apply (sch_goto m' c HM' (SVisiting q ch l)); try done. unfold run_ok. simpl. by rewrite fn_lookup_insert.
  - by apply (sch_release (SLeave q l)).
Qed.
End scheduler.

(** ** Kernel threads *)
Lemma own_lock_fresh p e l : loc_ok p e l → plocks p l = ∅ → ∀ i, plock i ∉ held_by (Thr p e l).
Proof. intros [Ho _] Hp i. simpl. rewrite Hp, union_empty_r_L. intros Hi%Ho. unfold plock in Hi. lia. Qed.

Section thread.
Context (m : mach) (c p : nat) (e : env).
Hypothesis HM : MInv m.
Hypothesis Hv : valid c.

Lemma forkret_ok : run m c = Thr p e Forkret → wpb (forkret c p) (λ _ m', MInv m') m.
Proof using HM Hv.
  intros Hr. apply (thr_myproc m c HM Hv p e Forkret); [done|]. intros s1 HM1. set (m1 := set_sl s1 m) in *.
  destruct (thr_facts m1 c p e Forkret HM1 Hr) as (_ & _ & Hst & [_ He] & _).
  assert (held_by (Thr p e Forkret) = {[plock p]}) as Hh by (simpl; rewrite He; set_solver).
  apply wpb_wp, wp_bind, wp_lift, (wp_releases _ _ _ (mv_s _ HM1) Hv); cbv beta; change (run m1 c) with (run m c); rewrite Hr, Hh; [set_solver|].
  rewrite difference_diag_L. intros s2 HS2 Hf2. apply wp_bind, wp_lift, (wp_intr_get_flag _ _ _ HS2 Hv). rewrite fn_lookup_insert.
  apply wp_modify. by apply (local_thr m1 c HM1 p e Forkret).
Qed.

Lemma sched_end_ok ie k : run m c = Thr p e (Sched ie k) → wpb (sched_end c ie;; goto c (Thr p e k)) (λ _ m', MInv m') m.
Proof using HM Hv.
  intros Hr. destruct (thr_facts _ _ _ _ _ HM Hr) as (_ & _ & Hst & [Ho (He & -> & Hk)] & _).
  assert (held_by (Thr p e k) = held_by (Thr p e (Sched (e_int e) k))) as Hh by (by destruct Hk as [->|(lk & -> & _)]).
  apply wpb_wp, wp_bind, wp_bind, (wp_on_mycpu _ _ _ _ (mv_s _ HM) Hv). apply wp_lift, (wp_set_intena _ _ _ (mv_s _ HM) Hv).
  { rewrite Hr. simpl. set_solver. }
  intros s' HS Hf. apply wp_modify. apply (local_thr m c HM p e (Sched (e_int e) k)); try done.
  - eapply SInv_ext, HS. intros d. destruct (decide (d = c)) as [->|]; [by rewrite fn_lookup_insert, Hr, Hh|by rewrite fn_lookup_insert_ne].
  - intros d Hd. by rewrite Hf, decide_False.
  - by destruct Hk as [->|(lk & -> & Hlk)].
  - destruct Hk as [->|(lk & -> & Hlk)]; simpl; by rewrite Hf, decide_True.
  - simpl. rewrite Hst. by destruct Hk as [->|(lk & -> & _)].
  - auto.
Qed.

(** The change of state that precedes [sched], and [sched]. *)
Lemma put_off l k ps ch : run m c = Thr p e l → e_locks e = ∅ → plocks p l = {[plock p]} →
  ps p = RUNNABLE ∨ ps p = SLEEPING ∨ ps p = ZOMBIE → (∀ q, q ≠ p → ps q = pstate m q) →
  (ps p ≠ ZOMBIE → int_ok (flag (sl m) c) e Run ∧ (k = YieldRel p ∨ ∃ lk, k = Awake p lk ∧ lk < 0)) →
  wpb (sched c e k) (λ _ m', MInv m') (Mach (sl m) (cproc m) (cctx m) ps ch (pctx m) (run m)).
Proof using HM Hv.
  intros Hr He Hp Hx Hps Hk. destruct (thr_facts _ _ _ _ _ HM Hr) as (F1 & F2 & F3 & [F4 _] & _).
  apply wpb_wp. apply (wp_sched _ (λ c, held_by (run m c)) c p); try done.
  - apply (mv_s _ HM).
  - rewrite Hr. simpl. rewrite He, Hp. set_solver.
  - simpl. by destruct Hx as [-> | [-> | ->]].
  - intros s' HS Hf. apply (out_step m c HM p e l); try done. intros Hz. destruct (Hk Hz) as [Hi Hk']. split; [done|]. by split_and!.
Qed.

(** The thread leaves the entry, of which [m1] has the new state. *)
Lemma leave_step q v m1 e' : run m c = Thr p e (Visiting q v) → MInv m1 → sl m1 = sl m → run m1 = run m →
  e_locks e' = e_locks e → e_int e' = e_int e →
  (∀ r, e_new e' = Some r → e_new e = Some r ∨ pstate m1 r = USED ∧ ∀ p0 e0, live m1 p0 e0 → e_new e0 ≠ Some r) →
  MInv (set_run c (Thr p e' (Leave q)) m1).
Proof using HM.
  clear Hv. intros Hr HM1 Es Er El Ei En. destruct (thr_facts _ _ _ _ _ HM Hr) as (F1 & F2 & F3 & [F4 F5] & F6).
  rewrite <-Er in Hr. destruct (thr_facts _ _ _ _ _ HM1 Hr) as (_ & _ & G3 & _).
  apply (local_thr m1 c HM1 p e (Visiting q v)); try done.
  - eapply SInv_ext, (mv_s _ HM1). intros d. destruct (decide (d = c)) as [->|]; [|by rewrite fn_lookup_insert_ne].
    rewrite fn_lookup_insert, Hr. simpl. by rewrite El.
  - split; [by rewrite El|done].
  - simpl in *. rewrite Ei, Es. done.
Qed.
Lemma alloc_step q : run m c = Thr p e (Visiting q VAlloc) → pstate m q = UNUSED →
  MInv (Mach (sl m) (cproc m) (cctx m) (<[q := USED]> (pstate m)) (pchan m) (<[q := (Env ∅ false None, Forkret)]> (pctx m))
    (<[c := Thr p (Env (e_locks e) (e_int e) (Some q)) (Leave q)]> (run m))).
Proof using HM.
  clear Hv. intros Hr Hs.
  assert (∀ p0 e0, live m p0 e0 → e_new e0 ≠ Some q) as Hno by (intros p0 e0 Hl E; by rewrite (mv_new _ HM _ _ _ Hl E) in Hs).
  set (m1 := Mach (sl m) (cproc m) (cctx m) (<[q := USED]> (pstate m)) (pchan m) (<[q := (Env ∅ false None, Forkret)]> (pctx m)) (run m)).
  assert (MInv m1) as HM1.
  { apply (entry_step m HM); try done.
    - apply (idle _ _ HM); by rewrite Hs.
    - intros r Hr'. by rewrite fn_lookup_insert_ne.
    - intros _. apply fn_lookup_insert.
    - naive_solver.
    - naive_solver. }
  apply (leave_step q VAlloc m1 (Env (e_locks e) (e_int e) (Some q)) Hr HM1); try done. intros r [= <-]. right. simpl.
  rewrite fn_lookup_insert. split; [done|].
  intros p0 e0 [(d & l0 & Hd)|[Hl Hd]]; [apply Hno with p0; left; eauto|]. simpl in *. destruct (decide (p0 = q)) as [->|].
  - rewrite fn_lookup_insert in Hl. naive_solver.
  - rewrite fn_lookup_insert_ne in Hl by done. rewrite fn_lookup_insert_ne in Hd by done. apply Hno with p0. by right.
Qed.
Lemma start_step q : run m c = Thr p e (Visiting q VStart) → e_new e = Some q →
  MInv (Mach (sl m) (cproc m) (cctx m) (<[q := RUNNABLE]> (pstate m)) (pchan m) (pctx m)
    (<[c := Thr p (Env (e_locks e) (e_int e) None) (Leave q)]> (run m))).
Proof using HM.
  clear Hv. intros Hr Hn. destruct (thr_facts _ _ _ _ _ HM Hr) as (_ & _ & F3 & _).
  assert (live m p e) as Hlp by (left; eauto). pose proof (mv_new _ HM _ _ _ Hlp Hn) as Hu.
  set (e' := Env (e_locks e) (e_int e) None).
  assert (MInv (set_run c (Thr p e' (Leave q)) m)) as HM2 by (by apply (leave_step q VStart m e' Hr HM)).
  set (m2 := set_run c (Thr p e' (Leave q)) m) in *.
  assert (pctx m q = (Env ∅ false None, Forkret)) as Hc by (pose proof (mv_proc _ HM q) as H; unfold proc_ok in H; by rewrite Hu in H).
  apply (entry_step m2 HM2); try done.
  - apply (idle _ _ HM2); simpl; by rewrite Hu.
  - intros _. simpl. rewrite Hc. split; [split; [set_solver|done]|by left].
  - intros _ _ p0 e0 Hl E0. assert (live m p0 e0 ∨ e0 = e') as [Hl'|Hl'].
    { destruct Hl as [(d & l0 & Hd)|Hl]; [|left; by right]. simpl in Hd. destruct (decide (d = c)) as [->|].
      - rewrite fn_lookup_insert in Hd. injection Hd as <- <- <-. by right.
      - rewrite fn_lookup_insert_ne in Hd by done. left. left. eauto. }
    + pose proof (mv_newu _ HM p0 p e0 e q Hl' Hlp E0 Hn) as ->. destruct Hl as [(d & l0 & Hd)|[Hl _]]; [|simpl in Hl; rewrite F3 in Hl; naive_solver].
      assert (d = c) as ->; [|simpl in Hd; rewrite fn_lookup_insert in Hd; naive_solver].
      apply (mv_uniq _ HM2 d c p e0 e' l0 (Leave q) Hd). apply fn_lookup_insert.
    + by rewrite Hl' in E0.
  - intros _. right. simpl. by rewrite Hc.
Qed.
Lemma reap_step q : run m c = Thr p e (Visiting q VReap) → pstate m q = ZOMBIE →
  MInv (Mach (sl m) (cproc m) (cctx m) (<[q := UNUSED]> (pstate m)) (<[q := NoChan]> (pchan m)) (pctx m) (run m)).
Proof using HM.
  clear Hv. intros Hr Hs. destruct (thr_facts _ _ _ _ _ HM Hr) as (_ & _ & F3 & _).
  apply (entry_step m HM); try done; [|naive_solver|congruence|naive_solver].
  apply (idle_zombie m c q HM Hs); [rewrite Hr; simpl; set_solver|]. intros e0 l0 E. rewrite Hr in E. injection E as <- <- <-.
  by rewrite Hs in F3.
Qed.

Lemma visit_step q v : run m c = Thr p e (Visiting q v) → wpb (visit_entry c p e q v) (λ _ m', MInv m') m.
Proof using HM.
  clear Hv. intros Hr. destruct (thr_facts _ _ _ _ _ HM Hr) as (_ & _ & _ & [_ F5] & _).
  destruct v as [ch| | | |]; simpl in F5; unfold visit_entry.
  - apply wakeup_entry_ok; [done|]. intros m1 HM1 E1 E2 _. apply wpb_wp, wp_modify, (leave_step q (VWakeup ch)); auto.
  - apply wpb_wp, wp_bind, wp_gets, wp_bind, wp_when; [intros Hs%bool_decide_eq_true; apply wp_modify|intros _];
      apply wp_modify, (leave_step q VKill); auto. by apply wake_MInv.
  - apply wpb_wp, wp_bind, wp_gets. case_decide as Hs; [|apply wp_modify, (leave_step q VAlloc); auto].
    apply wp_bind, wp_modify, wp_bind, wp_modify, wp_modify. by apply alloc_step.
  - apply wpb_wp, wp_bind, wp_modify, wp_modify. by apply start_step.
  - apply wpb_wp, wp_bind, wp_gets, wp_bind, wp_when; [intros Hs%bool_decide_eq_true; apply wp_bind, wp_modify, wp_modify|intros _];
      apply wp_modify, (leave_step q VReap); auto. by apply reap_step.
Qed.
End thread.

Ltac locks_eq := simpl; repeat match goal with H : e_locks _ = _ |- _ => rewrite H end; clear; set_solver.
Lemma SInv_goto s m c L : SInv s (λ c, held_by (run m c)) → L = held_by (run m c) → SInv s (<[c := L]> (λ c, held_by (run m c))).
Proof.
  intros HS ->. eapply SInv_ext, HS. intros d. destruct (decide (d = c)) as [->|]; [by rewrite fn_lookup_insert|by rewrite fn_lookup_insert_ne].
Qed.

Section thread_code.
Context (m : mach) (c p : nat) (e : env).
Hypothesis HM : MInv m.
Hypothesis Hv : valid c.

(** [struct proc *p = myproc(); acquire(&p->lock);] *)
Lemma begin_ok l (k : nat → loc) : run m c = Thr p e l → plocks p l = ∅ → plocks p (k p) = {[plock p]} → loc_ok p e (k p) →
  (∀ f, int_ok f e l → int_ok f e (k p)) → run_state (k p) = run_state l →
  wpb (o ← myproc c; match o with
       | None => undefined "p->lock"
       | Some q => on_sl (acquire c (plock q));; goto c (Thr p e (k q))
       end) (λ _ m', MInv m') m.
Proof using HM Hv.
  intros Hr Hl Hk Hok Hi Hs. apply (thr_myproc m c HM Hv p e l _ Hr). intros s' HM'.
  destruct (thr_facts (set_sl s' m) c p e l HM' Hr) as (_ & _ & _ & G4 & G5).
  apply (thr_acquire _ c HM' Hv p e l); try done; [by apply own_lock_fresh| |by apply Hi]. simpl. rewrite Hk, Hl. clear; set_solver.
Qed.

Lemma sleep_rel_ok ch lk : run m c = Thr p e (SleepRel p ch lk) → e_locks e = {[lk]} → wpb (thread_code c p e (SleepRel p ch lk)) (λ _ m', MInv m') m.
Proof using HM Hv.
  intros Hr He. destruct (thr_facts _ _ _ _ _ HM Hr) as (_ & _ & _ & [F4 _] & F6).
  assert (lk < 0) as Hlk by (apply F4; rewrite He; set_solver). assert (lk ≠ plock p) by (unfold plock; lia).
  apply (thr_release m c HM Hv p e (SleepRel p ch lk)); try done.
  - simpl. rewrite He. set_solver.
  - simpl. rewrite He. set_solver.
  - rewrite He. split; [simpl; set_solver|]. split_and!; [done|simpl; set_solver|done].
Qed.
Lemma exit_ok l : run m c = Thr p e l → l = ExitSet p ∨ l = ExitRel p ∨ l = ExitSched → wpb (thread_code c p e l) (λ _ m', MInv m') m.
Proof using HM Hv.
  intros Hr Hl. destruct (thr_facts _ _ _ _ _ HM Hr) as (_ & _ & F3 & [F4 F5] & F6). destruct Hl as [-> | [-> | ->]]; simpl in F5; cbn [thread_code].
  - destruct F5 as [_ He]. apply wpb_wp, wp_bind, wp_modify, wp_modify. apply (local_thr m c HM p e (ExitSet p)); try done.
    + apply SInv_goto; [apply (mv_s _ HM)|by rewrite Hr].
    + apply fn_lookup_insert.
    + intros r Hr0. simpl. by rewrite fn_lookup_insert_ne.
    + auto.
  - destruct F5 as [_ He]. apply (thr_release m c HM Hv p e (ExitRel p)); try done.
    + simpl. rewrite He. set_solver.
    + simpl. rewrite He. assert (wait_lock ≠ plock p) by (unfold wait_lock, plock; lia). set_solver.
    + rewrite He. split; simpl; set_solver.
  - pose proof (put_off m c p e HM Hv ExitSched ExitPanic (pstate m) (pchan m) Hr F5 eq_refl) as H. rewrite F3 in H.
    assert (m = Mach (sl m) (cproc m) (cctx m) (pstate m) (pchan m) (pctx m) (run m)) as Em by (by destruct m).
    rewrite <-Em in H. apply H; [by right; right|done|done].
Qed.
(** The state of the process is changed just before [sched]. *)
Lemma sched_ok l x k ch : run m c = Thr p e l → e_locks e = ∅ → plocks p l = {[plock p]} → int_ok (flag (sl m) c) e Run →
  x = RUNNABLE ∨ x = SLEEPING → (k = YieldRel p ∨ ∃ lk, k = Awake p lk ∧ lk < 0) →
  wpb (sched c e k) (λ _ m', MInv m') (Mach (sl m) (cproc m) (cctx m) (<[p := x]> (pstate m)) ch (pctx m) (run m)).
Proof using HM Hv.
  intros Hr He Hp Hi Hx Hk. apply (put_off m c p e HM Hv l); try done; rewrite ?fn_lookup_insert; [tauto|intros r Hr0; by rewrite fn_lookup_insert_ne].
Qed.
Lemma intr_ok b : run m c = Thr p e (Intr b) → e_locks e = ∅ → wpb (thread_code c p e (Intr b)) (λ _ m', MInv m') m.
Proof using HM Hv.
  intros Hr He. destruct (thr_facts _ _ _ _ _ HM Hr) as (_ & _ & F3 & [F4 _] & _). assert (held_by (Thr p e (Intr b)) = ∅) as Hh by locks_eq.
  apply wpb_wp, wp_bind, wp_lift, (wp_intr _ _ _ (mv_s _ HM) Hv b); [by rewrite Hr|]. intros s' HS Hf. apply wp_modify.
  apply (local_thr m c HM p e (Intr b)); try done; [| | |auto].
  - apply SInv_goto; [done|by rewrite Hr].
  - intros d Hd. by rewrite Hf, decide_False.
  - simpl. by rewrite Hf, decide_True.
Qed.

Lemma thread_ok l : run m c = Thr p e l → wpb (thread_code c p e l) (λ _ m', MInv m') m.
Proof using HM Hv.
  intros Hr. destruct (thr_facts _ _ _ _ _ HM Hr) as (_ & _ & F3 & Hl & F6). pose proof Hl as [F4 F5].
  destruct l as [| |ie k| |q|q|ch lk|q ch lk|q ch lk|q lk|q lk|lk| |q|q| | |q v|q v|q|x|x|b]; simpl in F5; cbn [thread_code].
  - by apply (forkret_ok m c p e).
  - by apply wpb_wp, wp_ret.
  - by apply (sched_end_ok m c p e).
  - by apply (begin_ok YieldAcq Yield).
  - destruct F5 as [-> He]. apply wpb_bind, wpb_wp, wp_modify. apply (sched_ok (Yield p)); auto.
  - destruct F5 as [-> He]. apply (thr_release m c HM Hv p e (YieldRel p)); try done; [simpl; set_solver|locks_eq].
  - by apply (begin_ok (SleepAcq ch lk) (λ q, SleepRel q ch lk)).
  - destruct F5 as [-> He]. by apply sleep_rel_ok.
  - destruct F5 as (-> & He & Hlk). apply wpb_bind, wpb_wp, wp_modify. apply wpb_bind, wpb_wp, wp_modify.
    apply (sched_ok (SleepSet p ch lk)); eauto.
  - destruct F5 as (-> & He & Hlk). apply wpb_wp, wp_bind, wp_modify, wp_modify. apply (local_thr m c HM p e (Awake p lk)); try done; [|auto].
    apply SInv_goto; [apply (mv_s _ HM)|by rewrite Hr].
  - destruct F5 as (-> & He & Hlk). apply (thr_release m c HM Hv p e (AwakeRel p lk)); try done; [simpl; set_solver|locks_eq].
  - destruct F5 as [He Hlk]. apply (thr_acquire m c HM Hv p e (Relock lk)); try done; [simpl; rewrite He; set_solver|locks_eq|].
    rewrite He. split; [simpl; set_solver|done].
  - by apply (begin_ok ExitAcq ExitSet).
  - destruct F5 as [-> He]. by apply (exit_ok (ExitSet p)); [|left].
  - destruct F5 as [-> He]. by apply (exit_ok (ExitRel p)); [|right; left].
  - by apply (exit_ok ExitSched); [|right; right].
  - done.
  - apply (thr_acquire m c HM Hv p e (Visit q v)); try done; [by apply own_lock_fresh|locks_eq].
  - by apply (visit_step m c p e).
  - apply (thr_release m c HM Hv p e (Leave q)); try done; [simpl; set_solver|]. simpl.
    assert (plock q ∉ e_locks e) by (intros H%F4; unfold plock in H; lia). set_solver.
  - destruct F5 as [Hx Hn]. apply (thr_acquire m c HM Hv p e (Acquire x)); try done; [simpl; set_solver|locks_eq|]. split; [simpl; set_solver|done].
  - apply (thr_release m c HM Hv p e (Release x)); try done; [simpl; set_solver|simpl; set_solver|]. split; [simpl; set_solver|done].
  - by apply intr_ok.
Qed.
End thread_code.

Lemma minit_inv m : minit m → MInv m.
Proof.
  intros [I1 I2 I3 I4]. assert (∀ p e, live m p e → e_new e = None) as Hl.
  { intros p e [(c & l & Hr)|[Hs He]]; [by rewrite I1 in Hr|]. destruct (I4 p) as [E|[_ E]]; [rewrite E in Hs; naive_solver|]. by rewrite <-He, E. }
  split.
  - split.
    + intros c Hc. destruct (I2 c Hc) as (Hn & h & Hh & Ht). exists h. rewrite I1. done.
    + intros l c. rewrite I1. destruct (I3 l) as [_ ->]. simpl. set_solver.
    + intros l. destruct (I3 l) as [-> ->]. split; [done|by intros [? ?]].
  - intros c. unfold run_ok. by rewrite I1.
  - intros p. unfold proc_ok. destruct (I4 p) as [->|[-> ->]]; [done|]. split; [split; [set_solver|done]|by left].
  - intros c c' p e e' l l' Hr. by rewrite I1 in Hr.
  - intros p e q H%Hl. congruence.
  - intros p p' e e' q H%Hl. congruence.
Qed.

Lemma call_inv m c p e l : MInv m → run m c = Thr p e Run → calls p e l → MInv (set_run c (Thr p e l) m).
Proof.
  intros HM Hr Hc. destruct (thr_facts _ _ _ _ _ HM Hr) as (_ & _ & F3 & [F4 _] & F6).
  apply (local_thr m c HM p e Run); try done.
  - eapply SInv_ext, (mv_s _ HM). intros d. destruct (decide (d = c)) as [->|]; [|by rewrite fn_lookup_insert_ne].
    rewrite fn_lookup_insert, Hr. by destruct Hc.
  - split; [done|]. by destruct Hc.
  - by destruct Hc.
  - rewrite F3. by destruct Hc.
  - auto.
Qed.
Lemma mstep_inv m m' : MInv m → mstep m m' → MInv m'.
Proof.
  intros HM Hs. destruct Hs as [c m' Hv _ E|c p e l Hv Hr Hc|c l h m' Hv Hr Ho Hh Hi E|c l q ch Hv Hr Hq].
  - refine (wpb_elim _ (λ _ m', MInv m') _ _ _ _ E). unfold code. destruct (run m c) as [l|p e l] eqn:Hr; [by apply scheduler_ok|by apply thread_ok].
  - by apply call_inv.
  - refine (wpb_elim _ (λ _ m', MInv m') _ _ _ _ E). pose proof (sch_facts m c HM l Hr) as Hf.
    apply (sch_intr m c HM Hv l (SIntr l) false); try done; destruct l; try done; naive_solver.
  - pose proof (sch_facts m c HM _ Hr) as Hf. apply (sch_move m c HM (SIntr l)); done.
Qed.
Lemma mreach_inv m : mreach m → MInv m.
Proof. induction 1 as [m Hi|m m0 _ IH Hs]; [by apply minit_inv|by eapply mstep_inv]. Qed.

(** C2. The processors share the processes correctly, under every interleaving of
    their steps: no code of the scheduler, [sched], [yield], [sleep], [exit] or
    [forkret] panics; no process runs on two processors, and [myproc] returns the
    one that runs; a process is [RUNNING] exactly while a processor runs it, apart
    from one that has exited and is about to leave its processor, whose lock that
    processor still holds, so that its entry and its stack are not reused before;
    and a thread that holds no locks has its interrupts as it last set them, on
    whichever processor it has come back from [sched]. *)
Theorem scheduler_safe m : mreach m →
  (∀ c, valid c → (∀ p e, run m c ≠ Thr p e Run) → wpb (code c (run m c)) (λ _ _, True) m) ∧
  (∀ c p e l, run m c = Thr p e l →
    cproc m c = Some p ∧ (∀ c' e' l', run m c' = Thr p e' l' → c' = c) ∧
    (pstate m p = RUNNING ∨ pstate m p = ZOMBIE ∧ lk_cpu (locks (sl m) (plock p)) = Some c)) ∧
  (∀ p, pstate m p = RUNNING → ∃ c e l, run m c = Thr p e l) ∧
  (∀ c p e, valid c → run m c = Thr p e Run → e_locks e = ∅ → ∃ h, harts (sl m) !! c = Some h ∧ SIE h = e_int e).
Proof.
  intros HM%mreach_inv. split_and!.
  - intros c Hv _. eapply wpb_mono; [|done]. unfold code. destruct (run m c) as [l|p e l] eqn:Hr; [by apply scheduler_ok|by apply thread_ok].
  - intros c p e l Hr. destruct (thr_facts _ _ _ _ _ HM Hr) as (F1 & _ & F3 & _). split_and!; [done| |].
    + intros c' e' l' Hr'. by apply (mv_uniq _ HM _ _ _ _ _ _ _ Hr' Hr).
    + rewrite F3. destruct (decide (run_state l = RUNNING)) as [E|E]; [by left|right]. split; [by destruct l|].
      apply (si_lock _ _ (mv_s _ HM)). rewrite Hr. simpl. destruct l; try done; set_solver.
  - intros p Hp. pose proof (mv_proc _ HM p) as H. unfold proc_ok in H. by rewrite Hp in H.
  - intros c p e Hv Hr He. destruct (thr_facts _ _ _ _ _ HM Hr) as (_ & _ & _ & _ & F6). simpl in F6.
    destruct (si_cpu _ _ (mv_s _ HM) c Hv) as (h & [Hh _] & Hn & _). exists h. split; [done|].
    rewrite Hr in Hn. simpl in Hn. rewrite He, union_empty_r_L, size_empty in Hn. rewrite <-F6. unfold flag. by rewrite Hh, Hn.
Qed.

(** The process sleeps on [ch], or is about to after a look at what the lock [lk]
    protects. *)
Definition sleeping_on (m : mach) (p : nat) (ch : chan) (lk : Z) : Prop :=
  (∃ c e l, run m c = Thr p e l ∧ (l = SleepAcq ch lk ∨ l = SleepRel p ch lk ∨ l = SleepSet p ch lk)) ∨
  pstate m p = SLEEPING ∧ pchan m p = ch.

(** C13. No wakeup is lost: when [wakeup] of a channel, called with the lock held
    that sleepers of the channel give to [sleep], is through with a process, this
    process neither sleeps on the channel nor is on its way to, wherever it was
    between its test under the lock and its sleep. *)
Theorem wakeup_not_lost m c q e p ch lk m' :
  mreach m → run m c = Thr q e (Visiting p (VWakeup ch)) → lk ∈ e_locks e → code c (run m c) m = Ok (tt, m') →
  ¬ sleeping_on m' p ch lk ∧ (pstate m p = SLEEPING → pchan m p = ch → pstate m' p = RUNNABLE).
Proof.
  intros HM%mreach_inv Hr Hlk. rewrite Hr. cbn [code thread_code visit_entry]. intros E.
  destruct (thr_facts _ _ _ _ _ HM Hr) as (_ & _ & F3 & [F4 F5] & _).
  assert (∀ d e' l, run m d = Thr p e' l → ¬ (l = SleepAcq ch lk ∨ l = SleepRel p ch lk ∨ l = SleepSet p ch lk)) as Hno.
  { intros d e' l Hd Hl. destruct (thr_facts _ _ _ _ _ HM Hd) as (_ & _ & _ & [_ G5] & _).
    assert (d ≠ c) as Hne by (intros ->; rewrite Hr in Hd; naive_solver). apply Hne. symmetry.
    destruct Hl as [-> | [-> | ->]]; simpl in G5.
    - apply (lock_holder _ _ _ lk HM); [rewrite Hr|rewrite Hd]; simpl; set_solver.
    - apply (lock_holder _ _ _ lk HM); [rewrite Hr|rewrite Hd]; simpl; set_solver.
    - apply (lock_holder _ _ _ (plock p) HM); [rewrite Hr|rewrite Hd]; simpl; set_solver. }
  assert (∀ x, (∃ c0 e0 l, <[c := Thr q e (Leave p)]> (run m) c0 = Thr p e0 l ∧ x l) → ∃ c0 e0 l, run m c0 = Thr p e0 l ∧ x l) as Hrun.
  { intros x (d & e0 & l & Hd & Hx). destruct (decide (d = c)) as [->|]; [|rewrite fn_lookup_insert_ne in Hd by done; eauto].
    rewrite fn_lookup_insert in Hd. injection Hd as -> <- <-. by destruct F5. }
  set (x := Thr q e (Leave p)) in *.
  assert (pstate m p = SLEEPING ∧ pchan m p = ch ∧ m' = set_run c x (set_pstate p RUNNABLE m) ∨
          ¬ (pstate m p = SLEEPING ∧ pchan m p = ch) ∧ m' = set_run c x m) as [(Hs & Hc & ->)|[Hs ->]].
  { revert E. unfold wakeup_entry, mbind, K_bind, gets, goto, modify, when. clear.
    destruct (bool_decide_reflect (pstate m p = SLEEPING)); [destruct (bool_decide_reflect (pchan m p = ch))|]; simpl; intros [= <-];
      [left|right|right]; naive_solver. }
  - split; [intros [H|[H _]]|simpl; by rewrite fn_lookup_insert].
    + destruct (Hrun _ H) as (d & e0 & l & Hd & Hl). by apply (Hno d e0 l).
    + simpl in H. by rewrite fn_lookup_insert in H.
  - split; [intros [H|H]|tauto]; [|by apply Hs]. destruct (Hrun _ H) as (d & e0 & l & Hd & Hl). by apply (Hno d e0 l).
Qed.

(** ** A run on one processor: process 0 sleeps, process 1 wakes it up *)
Module Demo.
Definition m0 : mach :=
  Mach Two.sst0 (λ _, None) (λ _, SStart) (λ p, if (p <? 2)%nat then RUNNABLE else UNUSED) (λ _, NoChan) (λ _, (Env ∅ false None, Forkret))
    (λ _, Sch SStart).
Definition next (m : mach) : mach := after (code 0 (run m 0%nat) m) m.
Definition call (l : loc) (m : mach) : mach :=
  match run m 0%nat with Thr p e _ => set_run 0 (Thr p e l) m | _ => m end.
Definition ch : chan := ChanAddr 77.
Definition m1 : mach := Nat.iter 5 next m0.
Definition m2 : mach := next (call (Acquire (-5)) m1).
Definition m3 : mach := Nat.iter 3 next (call (SleepAcq ch (-5)) m2).
Definition m4 : mach := Nat.iter 5 next m3.
Definition m5 : mach := next (call (Acquire (-5)) m4).
Definition m6 : mach := next (call (Visit 0 (VWakeup ch)) m5).

Definition moves (m : mach) : bool :=
  match run m 0%nat with Thr _ _ Run => false | x => match code 0 x m with Ok _ => true | _ => false end end.
Lemma next_reach m : mreach m → moves m = true → mreach (next m).
Proof.
  intros Hm Hs. eapply mr_step; [exact Hm|]. unfold moves in Hs. apply (ms_code m 0); [done| |].
  - intros p e E. by rewrite E in Hs.
  - unfold next. destruct (code 0 (run m 0%nat) m) as [[[] m']| | | |] eqn:E; [done|..]; destruct (run m 0%nat) as [|p e []]; first [done|by rewrite E in Hs].
Qed.
Lemma call_reach m l : mreach m → (∀ p e, run m 0%nat = Thr p e Run → calls p e l) →
  match run m 0%nat with Thr _ _ Run => true | _ => false end = true → mreach (call l m).
Proof.
  intros Hm Hc Hr. unfold call. destruct (run m 0%nat) as [|p e []] eqn:E; try done. eapply mr_step; [exact Hm|]. apply (ms_call m 0); auto. done.
Qed.
Lemma m0_init : minit m0.
Proof.
  split; try done.
  - intros c Hc. split; [done|]. unfold valid, NCPU in Hc. do 8 (destruct c as [|c]; [eexists; split; vm_compute; reflexivity|]). lia.
  - intros p. simpl. destruct (p <? 2)%nat; auto.
Qed.
Fixpoint moves_all (n : nat) (m : mach) : bool := match n with O => true | S n => moves_all n m && moves (Nat.iter n next m) end.
Lemma iter_reach n m : mreach m → moves_all n m = true → mreach (Nat.iter n next m).
Proof. intros Hm. induction n as [|n IH]; [done|]. intros [H1 H2]%andb_prop. apply next_reach; auto. Qed.

Lemma m2_reach : mreach m2.
Proof.
  refine (next_reach (call (Acquire (-5)) m1) (call_reach m1 (Acquire (-5)) (iter_reach 5 m0 (mr_init _ m0_init) _) _ _) _).
  - vm_compute. reflexivity.
  - intros p e E. vm_compute in E. injection E as <- <-. constructor; [done|]. vm_compute. set_solver.
  - vm_compute. reflexivity.
  - vm_compute. reflexivity.
Qed.
Lemma m4_reach : mreach m4.
Proof.
  refine (iter_reach 5 m3 (iter_reach 3 (call (SleepAcq ch (-5)) m2) (call_reach m2 (SleepAcq ch (-5)) m2_reach _ _) _) _).
  - intros p e E. vm_compute in E. injection E as <- <-. constructor. vm_compute. reflexivity.
  - vm_compute. reflexivity.
  - vm_compute. reflexivity.
  - vm_compute. reflexivity.
Qed.
Lemma m6_reach : mreach m6.
Proof.
  refine (next_reach (call (Visit 0 (VWakeup ch)) m5) (call_reach m5 (Visit 0 (VWakeup ch))
    (next_reach (call (Acquire (-5)) m4) (call_reach m4 (Acquire (-5)) m4_reach _ _) _) _ _) _).
  - intros p e E. vm_compute in E. injection E as <- <-. constructor; [done|]. vm_compute. set_solver.
  - vm_compute. reflexivity.
  - vm_compute. reflexivity.
  - intros p e E. vm_compute in E. injection E as <- <-. constructor; [done|]. by vm_compute.
  - vm_compute. reflexivity.
  - vm_compute. reflexivity.
Qed.
End Demo.

(** Process 1 runs on processor 0, while process 0 sleeps. *)
Lemma scheduler_safe_witness :
  (∃ e l, run Demo.m4 0%nat = Thr 1 e l) ∧ cproc Demo.m4 0%nat = Some 1%nat ∧ pstate Demo.m4 0%nat = SLEEPING.
Proof.
  split; [eexists _, _; vm_compute; reflexivity|]. split; [|vm_compute; reflexivity].
  destruct (scheduler_safe _ Demo.m4_reach) as (_ & H & _).
  refine (proj1 (H 0%nat 1%nat _ _ _)). vm_compute. reflexivity.
Defined.
Lemma wakeup_not_lost_witness :
  pstate Demo.m6 0%nat = SLEEPING ∧ ¬ sleeping_on (Demo.next Demo.m6) 0 Demo.ch (-5) ∧ pstate (Demo.next Demo.m6) 0%nat = RUNNABLE.
Proof.
  assert (pstate Demo.m6 0%nat = SLEEPING) as Hs by (vm_compute; reflexivity).
  assert (pchan Demo.m6 0%nat = Demo.ch) as Hc by (vm_compute; reflexivity).
  destruct (wakeup_not_lost Demo.m6 0 1 (match run Demo.m6 0%nat with Thr _ e _ => e | _ => Env ∅ false None end) 0 Demo.ch (-5) (Demo.next Demo.m6) Demo.m6_reach) as [H1 H2].
  - vm_compute. reflexivity.
  - vm_compute. set_solver.
  - unfold Demo.next. apply after_ok. vm_compute. reflexivity.
  - split; [exact Hs|]. split; [exact H1|]. exact (H2 Hs Hc).
Defined.
