(* ===== verification/User.v ===== *)
(** * What user programs see of the kernel

    [Sys] is the system calls that the utilities use, and [SysLaws] what the
    programs rely on for files, descriptors and output: that an existing file can
    be opened, that a write is complete and that nothing else changes a file
    meanwhile.  The laws are assumptions about the kernel; a machine in
    [Coreutils.v] satisfies them, but they are not derived from the model of the
    kernel, whose calls can fail when a table or the disk is full.  A program either goes
    on with a value or has called [exit]; [printf] prints with one [write] for
    each character. *)

From S2P Require Import Prelude Word Printf.

Definition bytes (s : string) : list Z := (λ a, Z.of_N (Ascii.N_of_ascii a)) <$> String.list_ascii_of_string s.

(** ** Programs *)
Definition U (X A : Type) : Type := K X (Z + A).
#[global] Instance U_ret {X} : MRet (U X) := λ A a, mret (M := K X) (inr a).
#[global] Instance U_bind {X} : MBind (U X) := λ A B f (m : K X (Z + A)),
  mbind (M := K X) (λ r, match r with inl st => mret (M := K X) (inl st) | inr a => f a end) m.
Definition exit {X A} (status : Z) : U X A := mret (M := K X) (inl status).
Definition sys {X A} (m : K X A) : U X A := mbind (M := K X) (λ a, mret (M := K X) (inr a)) m.
(** A loop whose body goes on with a state or ends with a result. *)
Fixpoint uloop {X I R} (fuel : nat) (i : I) (body : I → U X (I + R)) : U X R :=
  match fuel with
  | O => sys nofuel
  | S n => r ← body i; match r with inl i => uloop n i body | inr r => mret r end
  end.
(** [for(i = ...; i < argc; i++)] over the arguments. *)
Fixpoint each {X A} (l : list A) (body : A → U X unit) : U X unit :=
  match l with
  | [] => mret tt
  | a :: l => body a;; each l body
  end.

Section uwp.
Context {X : Type}.
Implicit Types w : X.
Lemma wp_ubind {A B} (m : U X A) (f : A → U X B) Q w :
  wp (m : K X (Z + A)) (λ r w', match r with inl st => Q (inl st) w' | inr a => wp (f a : K X (Z + B)) Q w' end) w →
  wp (m ≫= f : K X (Z + B)) Q w.
Proof.
  intros H. unfold mbind, U_bind. apply wp_bind. eapply wp_mono; [exact H|]. intros [st|a] w' HQ; [by apply wp_ret|done].
Qed.
Lemma wp_ubind_inv {A B} (m : U X A) (f : A → U X B) Q w :
  wp (m ≫= f : K X (Z + B)) Q w →
  wp (m : K X (Z + A)) (λ r w', match r with inl st => Q (inl st) w' | inr a => wp (f a : K X (Z + B)) Q w' end) w.
Proof.
  unfold wp, mbind, U_bind, K_bind. unfold mbind. destruct ((m : K X (Z + A)) w) as [[[st|a] w']| | | |]; done.
Qed.
Lemma wp_uret {A} (a : A) Q w : Q (inr a) w → wp (mret (M := U X) a : K X (Z + A)) Q w.
Proof. intros HQ. by apply (wp_ret (S := X)). Qed.
Lemma wp_exit {A} st Q w : Q (inl st) w → wp (exit st : K X (Z + A)) Q w.
Proof. intros HQ. by apply (wp_ret (S := X)). Qed.
Lemma wp_sys {A} (m : K X A) Q w : wp m (λ a w', Q (inr a) w') w → wp (sys m : K X (Z + A)) Q w.
Proof. intros H. unfold sys. apply wp_bind. eapply wp_mono; [exact H|]. intros a w' HQ. by apply wp_ret. Qed.
(** A loop with a decreasing measure. *)
Lemma wp_uloop {I R} (J : nat → I → X → Prop) (Q : Z + R → X → Prop) (body : I → U X (I + R)) fuel n i w :
  J n i w → (n < fuel)%nat →
  (∀ n i w, J n i w → wp (body i : K X (Z + (I + R))) (λ r w', match r with
     | inl st => Q (inl st) w'
     | inr (inl i') => ∃ n', (n' < n)%nat ∧ J n' i' w'
     | inr (inr x) => Q (inr x) w'
     end) w) →
  wp (uloop fuel i body : K X (Z + R)) Q w.
Proof.
  intros HJ Hf Hbody. revert n i w HJ Hf. induction fuel as [|fuel IH]; intros n i w HJ Hf; [lia|]. cbn [uloop].
  apply wp_ubind. eapply wp_mono; [by apply Hbody|]. cbv beta. intros [st|[i'|x]] w'; [done| |intros HQ; by apply wp_uret].
  intros (n' & Hn & HJ'). apply (IH n'); [done|lia].
Qed.
End uwp.

(** ** System calls *)
(** The fields of [struct stat] that [ls] prints. *)
Record ustat := Ustat { us_type : Z; us_ino : Z; us_size : Z }.
Class Sys (X : Type) := {
  u_open : list Z → Z → K X Z;
  u_close : Z → K X Z;
  u_read : Z → Z → K X (Z * list Z);
  u_write : Z → list Z → K X Z;
  u_fstat : Z → K X (Z * ustat);
  u_unlink : list Z → K X Z;
  u_mkdir : list Z → K X Z;
  u_link : list Z → list Z → K X Z;
  u_kill : Z → K X Z;
}.

(** [putc], [fprintf] and [printf] of [user/printf.c]. *)
Definition putc `{!Sys X} (fd : Z) (c : Z) : K X unit := u_write fd [c];; mret tt.
Definition fprintf `{!Sys X} (fd : Z) (fmt : list Z) (args : list arg) : U X unit := sys (vprintf (putc fd) fmt args).
Definition printf `{!Sys X} (fmt : list Z) (args : list arg) : U X unit := fprintf 1 fmt args.

(** Files by their paths, what is left to read of each open descriptor, and what
    has been written to each descriptor.  A read may return less than is asked
    for, and returns nothing at the end only. *)
Class SysLaws (X : Type) `{!Sys X} := {
  contents : X → list Z → option (list Z);
  stats : X → list Z → ustat;
  opened : X → gmap Z (list Z * list Z);
  output : X → Z → list Z;
  law_open w path : wp (u_open path 0) (λ fd w',
    contents w' = contents w ∧ stats w' = stats w ∧ (∀ f, output w' f = output w f) ∧
    match contents w path with
    | Some c => 0 ≤ fd ∧ opened w !! fd = None ∧ opened w' = <[fd := (path, c)]> (opened w)
    | None => fd < 0 ∧ opened w' = opened w
    end) w;
  law_read w fd path c n : opened w !! fd = Some (path, c) → 0 < n → wp (u_read fd n) (λ r w',
    contents w' = contents w ∧ stats w' = stats w ∧ (∀ f, output w' f = output w f) ∧
    ∃ l c', c = l ++ c' ∧ r = (Z.of_nat (length l), l) ∧ Z.of_nat (length l) ≤ n ∧ (l = [] → c = []) ∧
      opened w' = <[fd := (path, c')]> (opened w)) w;
  (** Directories are not cut short. *)
  law_read_dir w fd path c n : opened w !! fd = Some (path, c) → us_type (stats w path) = 1 → 0 < n → wp (u_read fd n) (λ r w',
    contents w' = contents w ∧ stats w' = stats w ∧ (∀ f, output w' f = output w f) ∧
    r = (Z.min n (Z.of_nat (length c)), take (Z.to_nat n) c) ∧ opened w' = <[fd := (path, drop (Z.to_nat n) c)]> (opened w)) w;
  law_fstat w fd path c : opened w !! fd = Some (path, c) → wp (u_fstat fd) (λ r w', r = (0, stats w path) ∧ w' = w) w;
  law_close w fd : wp (u_close fd) (λ r w',
    contents w' = contents w ∧ stats w' = stats w ∧ (∀ f, output w' f = output w f) ∧ opened w' = delete fd (opened w)) w;
  law_write w fd l : wp (u_write fd l) (λ r w',
    contents w' = contents w ∧ stats w' = stats w ∧ opened w' = opened w ∧ r = Z.of_nat (length l) ∧
    ∀ f, output w' f = if decide (f = fd) then output w fd ++ l else output w f) w;
}.

(** What has been printed since [w], the rest as it was. *)
Section printed.
Context `{SysLaws X}.
Record printed (w w' : X) (fd : Z) (l : list Z) : Prop := {
  pt_contents : contents w' = contents w;
  pt_stats : stats w' = stats w;
  pt_opened : opened w' = opened w;
  pt_output : ∀ f, output w' f = if decide (f = fd) then output w fd ++ l else output w f;
}.
Lemma printed_nil w fd : printed w w fd [].
Proof. split; [done..|]. intros f. case_decide; [by subst; rewrite app_nil_r|done]. Qed.
Lemma printed_app w w1 w2 fd l1 l2 : printed w w1 fd l1 → printed w1 w2 fd l2 → printed w w2 fd (l1 ++ l2).
Proof.
  intros [A1 A2 A3 A4] [B1 B2 B3 B4]. split; [congruence..|]. intros f. rewrite B4, !A4. case_decide; [|done].
  rewrite decide_True by done. by rewrite app_assoc.
Qed.
Lemma wp_write fd l (Q : Z → X → Prop) w : (∀ w', printed w w' fd l → Q (Z.of_nat (length l)) w') → wp (u_write fd l) Q w.
Proof. intros HQ. eapply wp_mono; [apply law_write|]. cbv beta. intros r w' (E1 & E2 & E3 & -> & E4). by apply HQ. Qed.
Lemma wp_emits fd l (Q : unit → X → Prop) w : (∀ w', printed w w' fd l → Q tt w') → wp (emits (putc fd) l) Q w.
Proof.
  revert w Q. induction l as [|c l IH]; intros w Q HQ; [apply wp_ret, HQ, printed_nil|]. cbn [emits]. apply wp_bind. unfold putc.
  apply wp_bind, wp_write. intros w1 H1. apply wp_ret, IH. intros w2 H2. apply HQ. exact (printed_app _ _ _ _ [c] _ H1 H2).
Qed.
Lemma wp_fprintf fd ps args out (Q : Z + unit → X → Prop) w :
  Forall wf_piece ps → render unum s32 UDIGITS ps args = Some out → (∀ w', printed w w' fd out → Q (inr tt) w') →
  wp (fprintf fd (format ps) args : K X (Z + unit)) Q w.
Proof.
  intros Hps Hr HQ. apply wp_sys. unfold wp.
  assert (vprintf (putc fd) (format ps) args w = emits (putc fd) out w) as ->.
  { apply (vprintf_loop (putc fd) unum (unum_spec (putc fd)) (S (length (format ps))) [] ps args out Hps); [constructor|done|lia]. }
  by apply (wp_emits fd out).
Qed.
End printed.

(** ** The arguments of a program that are files *)

(** The body of the loop over the arguments, in [cat] and [wc]: the message is for
    a file that cannot be opened. *)
Definition with_file `{!Sys X} (efd : Z) (efmt : list Z) (body : Z → list Z → U X unit) (f : list Z) : U X unit :=
  fd ← sys (u_open f 0);
  if fd <? 0 then fprintf efd efmt [AStr (Some f)];; exit 1
  else body fd f;; sys (u_close fd);; mret tt.
