(* ===== verification/Coreutils.v ===== *)
(** * Utilities on files ([user/cat.c], [wc.c], [echo.c], [ls.c], [grep.c], [rm.c], [mkdir.c], [ln.c], [kill.c])

    The programs over the interface of system calls of [User.v]; [argv] has the
    name of the program first.  The fuel of a loop bounds its number of reads. *)

From S2P Require Import Prelude Word Grep Mem Ulib Printf User.

Definition NL : list Z := [10].
Definition SP : Z := 32.

Module Cat.
Section cat.
Context `{!Sys X}.
Definition write_error : list Z := bytes "cat: write error" ++ NL.
Definition read_error : list Z := bytes "cat: read error" ++ NL.
Definition cannot_open : list Z := bytes "cat: cannot open %s" ++ NL.
Definition cat (fuel : nat) (fd : Z) : U X unit :=
  n ← uloop fuel tt (λ _,
    '(n, buf) ← sys (u_read fd 512);
    if 0 <? n then
      r ← sys (u_write 1 buf);
      if negb (r =? n) then fprintf 2 write_error [];; exit 1 else mret (inl tt)
    else mret (inr n));
  if n <? 0 then fprintf 2 read_error [];; exit 1 else mret tt.
Definition main (fuel : nat) (argv : list (list Z)) : U X unit :=
  match argv with
  | [] | [_] => cat fuel 0;; exit 0
  | _ :: files => each files (with_file 2 cannot_open (λ fd _, cat fuel fd));; exit 0
  end.
End cat.
End Cat.

Module Wc.
Section wc.
Context `{!Sys X}.
Definition read_error : list Z := bytes "wc: read error" ++ NL.
Definition cannot_open : list Z := bytes "wc: cannot open %s" ++ NL.
Definition summary : list Z := bytes "%d %d %d %s" ++ NL.
(** [strchr(" \r\t\n\v", c)] *)
Definition is_space (c : Z) : bool := bool_decide (c ∈ [32; 13; 9; 10; 11]).
(** The counters [l], [w], [c] and [inword]; [c] overflows first. *)
Record counts := Counts { c_l : Z; c_w : Z; c_c : Z; c_in : bool }.
Definition count1 (s : counts) (b : Z) : counts :=
  let l := if b =? 10 then c_l s + 1 else c_l s in
  if is_space b then Counts l (c_w s) (c_c s + 1) false
  else if negb (c_in s) then Counts l (c_w s + 1) (c_c s + 1) true
  else Counts l (c_w s) (c_c s + 1) (c_in s).
Fixpoint count (s : counts) (buf : list Z) : U X counts :=
  match buf with
  | [] => mret s
  | b :: buf => if 2 ^ 31 - 1 <=? c_c s then sys (undefined "c++") else count (count1 s b) buf
  end.
Definition wc (fuel : nat) (fd : Z) (name : list Z) : U X unit :=
  '(n, s) ← uloop fuel (Counts 0 0 0 false) (λ s,
    '(n, buf) ← sys (u_read fd 512);
    if 0 <? n then s ← count s buf; mret (inl s) else mret (inr (n, s)));
  if n <? 0 then printf read_error [];; exit 1
  else printf summary [AInt (c_l s); AInt (c_w s); AInt (c_c s); AStr (Some name)].
Definition main (fuel : nat) (argv : list (list Z)) : U X unit :=
  match argv with
  | [] | [_] => wc fuel 0 [];; exit 0
  | _ :: files => each files (with_file 1 cannot_open (wc fuel));; exit 0
  end.
End wc.
End Wc.

Module Echo.
Section echo.
Context `{!Sys X}.
Fixpoint words (l : list (list Z)) : U X unit :=
  match l with
  | [] => mret tt
  | a :: l =>
      sys (u_write 1 a);;
      sys (u_write 1 (match l with [] => NL | _ => [SP] end));;
      words l
  end.
Definition main (argv : list (list Z)) : U X unit := words (tail argv);; exit 0.
End echo.
End Echo.

Module Ls.
Section ls.
Context `{!Sys X}.
Definition DIRSIZ : nat := 14.
Definition T_DIR : Z := 1.
Definition T_FILE : Z := 2.
Definition T_DEVICE : Z := 3.
(** The part after the last slash. *)
Fixpoint last_part (p acc : list Z) : list Z :=
  match p with
  | [] => acc
  | c :: p => if c =? 47 then last_part p p else last_part p acc
  end.
Definition fmtname (path : list Z) : list Z :=
  let p := last_part path path in
  if (DIRSIZ <=? length p)%nat then p else p ++ replicate (DIRSIZ - length p) SP.
Definition cannot_open : list Z := bytes "ls: cannot open %s" ++ NL.
Definition cannot_stat : list Z := bytes "ls: cannot stat %s" ++ NL.
Definition too_long : list Z := bytes "ls: path too long" ++ NL.
Definition line : list Z := bytes "%s %d %d %d" ++ NL.
Definition show (path : list Z) (st : ustat) : U X unit :=
  printf line [AStr (Some (fmtname path)); AInt (us_type st); AInt (s32 (us_ino st)); AInt (s32 (us_size st))].
(** [stat] of [user/ulib.c] *)
Definition stat (path : list Z) : U X (Z * ustat) :=
  fd ← sys (u_open path 0);
  if fd <? 0 then mret (-1, Ustat 0 0 0) else
  r ← sys (u_fstat fd);
  sys (u_close fd);;
  mret r.
(** A string ends at its first zero. *)
Fixpoint upto0 (l : list Z) : list Z := match l with [] => [] | c :: l => if c =? 0 then [] else c :: upto0 l end.
(** One directory entry: [p] is the path with the slash. *)
Definition entry (p de : list Z) : U X unit :=
  if of_le (take 2 de) =? 0 then mret tt else
  let buf := p ++ upto0 (take DIRSIZ (drop 2 de)) in
  '(r, st) ← stat buf;
  if r <? 0 then printf cannot_stat [AStr (Some buf)] else show buf st.
Definition ls (fuel : nat) (path : list Z) : U X unit :=
  fd ← sys (u_open path 0);
  if fd <? 0 then fprintf 2 cannot_open [AStr (Some path)] else
  '(r, st) ← sys (u_fstat fd);
  if r <? 0 then fprintf 2 cannot_stat [AStr (Some path)];; sys (u_close fd);; mret tt else
  (if (us_type st =? T_DEVICE) || (us_type st =? T_FILE) then show path st
   else if us_type st =? T_DIR then
     if (512 <? length path + 1 + DIRSIZ + 1)%nat then printf too_long []
     else
       uloop fuel tt (λ _,
         '(n, de) ← sys (u_read fd 16);
         if n =? 16 then entry (path ++ [47]) de;; mret (inl tt) else mret (inr tt))
   else mret tt);;
  sys (u_close fd);; mret tt.
Definition main (fuel : nat) (argv : list (list Z)) : U X unit :=
  match argv with
  | [] | [_] => ls fuel [46];; exit 0
  | _ :: l => each l (ls fuel);; exit 0
  end.
End ls.
End Ls.

Module Rm.
Section rm.
Context `{!Sys X}.
Definition usage : list Z := bytes "Usage: rm files..." ++ NL.
Definition failed : list Z := bytes "rm: %s failed to delete" ++ NL.
Fixpoint remove (l : list (list Z)) : U X unit :=
  match l with
  | [] => mret tt
  | f :: l => r ← sys (u_unlink f); if r <? 0 then fprintf 2 failed [AStr (Some f)] else remove l
  end.
Definition main (argv : list (list Z)) : U X unit :=
  match argv with
  | [] | [_] => fprintf 2 usage [];; exit 1
  | _ :: l => remove l;; exit 0
  end.
End rm.
End Rm.

Module Mkdir.
Section mkdir.
Context `{!Sys X}.
Definition usage : list Z := bytes "Usage: mkdir files..." ++ NL.
Definition failed : list Z := bytes "mkdir: %s failed to create" ++ NL.
Fixpoint make (l : list (list Z)) : U X unit :=
  match l with
  | [] => mret tt
  | f :: l => r ← sys (u_mkdir f); if r <? 0 then fprintf 2 failed [AStr (Some f)] else make l
  end.
Definition main (argv : list (list Z)) : U X unit :=
  match argv with
  | [] | [_] => fprintf 2 usage [];; exit 1
  | _ :: l => make l;; exit 0
  end.
End mkdir.
End Mkdir.

Module Ln.
Section ln.
Context `{!Sys X}.
Definition usage : list Z := bytes "Usage: ln old new" ++ NL.
Definition failed : list Z := bytes "link %s %s: failed" ++ NL.
Definition main (argv : list (list Z)) : U X unit :=
  match argv with
  | [_; old; new] =>
      r ← sys (u_link old new);
      (if r <? 0 then fprintf 2 failed [AStr (Some old); AStr (Some new)] else mret tt);;
      exit 0
  | _ => fprintf 2 usage [];; exit 1
  end.
End ln.
End Ln.

Module Kill.
Section kill.
Context `{!Sys X}.
Definition usage : list Z := bytes "usage: kill pid..." ++ NL.
(** [atoi] of [user/ulib.c] on the argument with its final zero. *)
Definition arg_mem (a : list Z) : mem := list_to_map (zip (seqZ 0 (Z.of_nat (length a) + 1)) (a ++ [0])).
Definition atoi (a : list Z) : U X Z :=
  match Ulib.atoi 0 (arg_mem a) with
  | Ok (n, _) => mret n
  | UB w => sys (undefined w)
  | _ => sys nofuel
  end.
Definition main (argv : list (list Z)) : U X unit :=
  match argv with
  | [] | [_] => fprintf 2 usage [];; exit 1
  | _ :: l => each l (λ a, pid ← atoi a; sys (u_kill pid);; mret tt);; exit 0
  end.
End kill.
End Kill.

(** The matcher is in [Grep.v]. *)
Module Grepu.
Section grep.
Context `{!Sys X}.
Definition usage : list Z := bytes "usage: grep pattern [file ...]" ++ NL.
Definition cannot_open : list Z := bytes "grep: cannot open %s" ++ NL.
(** [while((q = strchr(p, '\n')) != 0)]: what is left in the buffer from [p] on. *)
Definition lines (pattern p : list Z) : U X (list Z) :=
  uloop (S (length p)) p (λ p,
    match strchr_nl p with
    | None => mret (inr p)
    | Some i =>
        (if match_ pattern (take i p) then sys (u_write 1 (take (S i) p));; mret tt else mret tt);;
        mret (inl (drop (S i) p))
    end).
(** [left] are the [m] bytes at the start of [buf]. *)
Definition grep (fuel : nat) (pattern : list Z) (fd : Z) : U X unit :=
  uloop fuel [] (λ left,
    '(n, l) ← sys (u_read fd (Z.of_nat (BUFSZ - length left - 1)));
    if 0 <? n then r ← lines pattern (left ++ l); mret (inl r) else mret (inr tt)).
Definition main (fuel : nat) (argv : list (list Z)) : U X unit :=
  match argv with
  | [] | [_] => fprintf 2 usage [];; exit 1
  | [_; pattern] => grep fuel pattern 0;; exit 0
  | _ :: pattern :: files => each files (with_file 1 cannot_open (λ fd _, grep fuel pattern fd));; exit 0
  end.
End grep.
End Grepu.

(** ** Programs that read their files in turn *)
Section files.
Context `{SysLaws X}.
Implicit Types (w : X) (f c l : list Z).

(** Since [w], [l] has been printed and [fd] read down to [c]. *)
Record consumed (w w' : X) (fd : Z) (f c l : list Z) : Prop := {
  cs_contents : contents w' = contents w;
  cs_stats : stats w' = stats w;
  cs_opened : opened w' = <[fd := (f, c)]> (opened w);
  cs_output : ∀ g, output w' g = if decide (g = 1) then output w 1 ++ l else output w g;
}.
Lemma consumed_read w w' w2 fd f c c' l : consumed w w' fd f c l → contents w2 = contents w' → stats w2 = stats w' →
  (∀ g, output w2 g = output w' g) → opened w2 = <[fd := (f, c')]> (opened w') → consumed w w2 fd f c' l.
Proof.
  intros [C1 C2 C3 C4] E1 E2 E3 E4. split; [congruence|congruence| |]; [rewrite E4, C3; apply insert_insert_eq|]. intros g. by rewrite E3.
Qed.
Lemma consumed_print w w' w2 fd f c l l' : consumed w w' fd f c l → printed w' w2 1 l' → consumed w w2 fd f c (l ++ l').
Proof.
  intros [C1 C2 C3 C4] [P1 P2 P3 P4]. split; [congruence..|]. intros g. rewrite P4, !C4. case_decide; [|done]. rewrite decide_True by done.
  by rewrite app_assoc.
Qed.
Lemma consumed_refl w fd f c : opened w !! fd = Some (f, c) → consumed w w fd f c [].
Proof. intros Ho. split; [done|done|by rewrite insert_id|]. intros g. case_decide; [by subst; rewrite app_nil_r|done]. Qed.
Lemma consumed_at w w' fd f c l : consumed w w' fd f c l → opened w' !! fd = Some (f, c).
Proof. intros HC. rewrite (cs_opened _ _ _ _ _ _ HC). apply lookup_insert_eq. Qed.

(** What is printed for the files [l], up to one that does not exist. *)
Fixpoint report (g : list Z → option (list Z)) (out : list Z → list Z → list Z) (l : list (list Z)) : list Z * option (list Z) :=
  match l with
  | [] => ([], None)
  | f :: l =>
      match g f with
      | None => ([], Some f)
      | Some c => let r := report g out l in (out f c ++ r.1, r.2)
      end
  end.
Definition reports (w : X) (efd : Z) (msg : list Z → list Z) (r : list Z * option (list Z)) (st : Z + unit) (w' : X) : Prop :=
  ∃ w1, printed w w1 1 r.1 ∧
    match r.2 with
    | None => st = inl 0 ∧ w' = w1
    | Some f => st = inl 1 ∧ printed w1 w' efd (msg f)
    end.

Lemma each_file efd ps msg (body : Z → list Z → U X unit) out : Forall wf_piece ps →
  (∀ f, render unum s32 UDIGITS ps [AStr (Some f)] = Some (msg f)) →
  ∀ (l : list (list Z)) w, (∀ f c, f ∈ l → contents w f = Some c → ∀ w1 fd, contents w1 = contents w → opened w1 !! fd = Some (f, c) →
    wp (body fd f : K X (Z + unit)) (λ r w', r = inr tt ∧ ∃ c', consumed w1 w' fd f c' (out f c)) w1) →
  wp ((each l (with_file efd (format ps) body);; exit 0 : U X unit) : K X (Z + unit)) (reports w efd msg (report (contents w) out l)) w.
Proof.
  intros Hps Hmsg l. induction l as [|f l IH]; intros w Hbody; cbn [each report].
  - apply wp_ubind, wp_uret, wp_exit. exists w. split; [apply printed_nil|done].
  - apply wp_ubind, wp_ubind. unfold with_file at 1. apply wp_ubind, wp_sys. eapply wp_mono; [apply law_open|]. cbv beta.
    intros fd w1 (E1 & E2 & E3 & E4). destruct (contents w f) as [c|] eqn:Hc.
    + destruct E4 as (Hfd & Hnew & E4). rewrite (proj2 (Z.ltb_ge fd 0)) by done. apply wp_ubind.
      eapply wp_mono; [apply (Hbody f c); [left|done|done|rewrite E4; apply lookup_insert_eq]|].
      cbv beta. intros r w2 (-> & c' & [C1 C2 C3 C4]). apply wp_ubind, wp_sys. eapply wp_mono; [apply law_close|]. cbv beta.
      intros _ w3 (D1 & D2 & D3 & D4). apply wp_uret.
      assert (printed w w3 1 (out f c)) as HP.
      { split; [congruence|congruence| |intros g; by rewrite D3, C4, !E3]. rewrite D4, C3, E4, insert_insert_eq. by apply delete_insert_id. }
      assert (contents w3 = contents w) as Ew by apply HP. rewrite <-Ew.
      apply wp_ubind_inv with (f := λ _, exit 0). eapply wp_mono; [apply IH|].
      { rewrite Ew. intros g cg Hg. by apply Hbody; right. }
      cbv beta. intros st w4 (w5 & P1 & P2). exists w5. simpl. split; [by eapply printed_app|done].
    + destruct E4 as [Hfd E4]. rewrite (proj2 (Z.ltb_lt fd 0)) by done. apply wp_ubind, (wp_fprintf efd ps _ (msg f) _ _ Hps (Hmsg f)).
      intros w2 HP. apply wp_exit. exists w1. simpl. split; [|done]. split; try done. intros g. rewrite E3. case_decide; [by subst; rewrite app_nil_r|done].
Qed.
End files.

(** ** [cat] *)
Definition pieces_of (s : string) : list piece := Lit <$> bytes s.
Definition cat_pieces : list piece := pieces_of "cat: cannot open " ++ [Str; Lit 10].
Definition cat_message (f : list Z) : list Z := bytes "cat: cannot open " ++ f ++ NL.
(** Formats that are written out in the programs. *)
Ltac wf_format := vm_compute; repeat (apply Forall_cons; split; [vm_compute; try done; try lia; tauto|]); apply Forall_nil_2.

Section cat.
Context `{SysLaws X}.
Lemma cat_spec fuel w fd f c : opened w !! fd = Some (f, c) → (length c < fuel)%nat →
  wp (Cat.cat fuel fd : K X (Z + unit)) (λ r w', r = inr tt ∧ consumed w w' fd f [] c) w.
Proof.
  intros Ho Hf. unfold Cat.cat. apply wp_ubind.
  apply (wp_uloop (λ n _ w', ∃ l c', c = l ++ c' ∧ n = length c' ∧ consumed w w' fd f c' l) _ _ _ (length c)).
  - exists [], c. split_and!; [done|done|by apply consumed_refl].
  - done.
  - intros n [] w1 (l & c1 & Ec & -> & HC). apply wp_ubind, wp_sys. eapply wp_mono; [by apply (law_read w1 fd f c1 512); [eapply consumed_at|]|].
    cbv beta. intros r w2 (E1 & E2 & E3 & l' & c2 & -> & -> & Hle & Hend & E4). pose proof (consumed_read _ _ _ _ _ _ c2 _ HC E1 E2 E3 E4) as HC2.
    destruct (Z.ltb_spec 0 (Z.of_nat (length l'))) as [Hpos|Hz].
    + apply wp_ubind, wp_sys, wp_write. intros w3 HP. rewrite Z.eqb_refl. apply wp_uret. exists (length c2). rewrite length_app. split; [lia|].
      exists (l ++ l'), c2. split_and!; [by rewrite <-app_assoc|done|by eapply consumed_print].
    + apply wp_uret. assert (l' = []) as -> by (destruct l'; [done|simpl in Hz; lia]). simpl in *. rewrite (Hend eq_refl) in *.
      apply wp_uret. split; [done|]. by rewrite Ec, app_nil_r.
Qed.

(** [cat] concatenates: it prints the contents of its arguments one after the
    other, however the reads are split, and exits with 0; at the first argument
    that cannot be opened it prints a message on the standard error and exits
    with 1. *)
Theorem cat_concatenates fuel name files w :
  files ≠ [] → (∀ f c, f ∈ files → contents w f = Some c → (length c < fuel)%nat) →
  wp (Cat.main fuel (name :: files) : K X (Z + unit)) (reports w 2 cat_message (report (contents w) (λ _ c, c) files)) w.
Proof.
  intros Hne Hfuel. destruct files as [|f0 files]; [done|]. set (l := f0 :: files) in *. unfold Cat.main.
  change Cat.cannot_open with (format cat_pieces). apply (each_file 2 cat_pieces cat_message); [wf_format| |].
  - intros f. unfold cat_message. cbn. by rewrite ?app_nil_r.
  - intros f c Hf Hc w1 fd _ Ho. eapply wp_mono; [apply (cat_spec fuel w1 fd f c Ho); by eapply Hfuel|]. cbv beta. naive_solver.
Qed.
End cat.

(** ** [wc] *)

(** The words of a text: its longest parts without white space. *)
Fixpoint tokens (cur c : list Z) : list (list Z) :=
  match c with
  | [] => match cur with [] => [] | _ => [cur] end
  | b :: c =>
      if Wc.is_space b then match cur with [] => tokens [] c | _ => cur :: tokens [] c end
      else tokens (cur ++ [b]) c
  end.
Definition num_lines (c : list Z) : Z := Z.of_nat (length (filter (λ b, b = 10) c)).
Definition num_words (c : list Z) : Z := Z.of_nat (length (tokens [] c)).
Definition dec (x : Z) : list Z := shown UDIGITS false 10 x.
Definition wc_line (f c : list Z) : list Z :=
  dec (num_lines c) ++ [SP] ++ dec (num_words c) ++ [SP] ++ dec (Z.of_nat (length c)) ++ [SP] ++ f ++ NL.
Definition wc_pieces : list piece := pieces_of "wc: cannot open " ++ [Str; Lit 10].
Definition wc_message (f : list Z) : list Z := bytes "wc: cannot open " ++ f ++ NL.
Definition summary_pieces : list piece := [Num W Cd; Lit 32; Num W Cd; Lit 32; Num W Cd; Lit 32; Str; Lit 10].

Lemma count1_c s b : Wc.c_c (Wc.count1 s b) = Wc.c_c s + 1.
Proof. unfold Wc.count1. destruct (Wc.is_space b), (Wc.c_in s); done. Qed.
Lemma count1_l s b : Wc.c_l (Wc.count1 s b) = Wc.c_l s + if decide (b = 10) then 1 else 0.
Proof.
  unfold Wc.count1. destruct (decide (b = 10)) as [E|E]; [rewrite (proj2 (Z.eqb_eq b 10) E)|rewrite (proj2 (Z.eqb_neq b 10) E)];
    destruct (Wc.is_space b), (Wc.c_in s); simpl; lia.
Qed.
Lemma counts_foldl s c : let t := foldl Wc.count1 s c in
  Wc.c_c t = Wc.c_c s + Z.of_nat (length c) ∧ Wc.c_l t = Wc.c_l s + num_lines c.
Proof.
  revert s. induction c as [|b c IH]; intros s; simpl; [unfold num_lines; simpl; lia|].
  destruct (IH (Wc.count1 s b)) as [-> ->]. rewrite count1_c, count1_l. unfold num_lines. rewrite filter_cons.
  case_decide; simpl; lia.
Qed.
(** The count of words follows the words that have begun. *)
Lemma counts_words s cur c : Wc.c_in s = bool_decide (cur ≠ []) →
  Wc.c_w (foldl Wc.count1 s c) = Wc.c_w s + Z.of_nat (length (tokens cur c)) - (if Wc.c_in s then 1 else 0).
Proof.
  revert s cur. induction c as [|b c IH]; intros s cur Hin; simpl.
  - rewrite Hin. destruct cur; simpl; lia.
  - destruct (Wc.is_space b) eqn:Hb.
    + rewrite (IH _ []); unfold Wc.count1; rewrite Hb; [|done]. simpl. rewrite Hin. destruct cur; simpl; lia.
    + rewrite (IH _ (cur ++ [b])).
      * unfold Wc.count1. rewrite Hb. rewrite Hin. destruct cur; simpl; lia.
      * unfold Wc.count1. rewrite Hb, Hin. destruct cur; done.
Qed.
Lemma dec_num x : 0 ≤ x < 2 ^ 31 → unum x 10 true = Some (dec x).
Proof.
  intros Hx. unfold unum. rewrite decide_True by (split; [lia|intros _; lia]). rewrite (proj2 (Z.ltb_ge x 0)) by lia. cbn [andb]. unfold dec, u32. by rewrite wrap_small by lia.
Qed.
Lemma tokens_length cur c : (length (tokens cur c) ≤ length c + match cur with [] => 0 | _ => 1 end)%nat.
Proof.
  revert cur. induction c as [|b c IH]; intros cur; simpl; [destruct cur; simpl; lia|]. destruct (Wc.is_space b).
  - destruct cur; simpl; [pose proof (IH [])|pose proof (IH [])]; simpl in *; lia.
  - pose proof (IH (cur ++ [b])). destruct cur; simpl in *; lia.
Qed.

Section wc.
Context `{SysLaws X}.
Lemma wp_count s c (Q : Z + Wc.counts → X → Prop) w : Wc.c_c s + Z.of_nat (length c) < 2 ^ 31 → Q (inr (foldl Wc.count1 s c)) w →
  wp (Wc.count s c : K X (Z + Wc.counts)) Q w.
Proof.
  revert s. induction c as [|b c IH]; intros s Hs HQ; cbn [Wc.count]; [by apply wp_uret|]. simpl in Hs.
  rewrite (proj2 (Z.leb_gt _ _)) by lia. apply IH; [rewrite count1_c; lia|done].
Qed.
Lemma summary_render f c : Z.of_nat (length c) < 2 ^ 31 → 
  render unum s32 UDIGITS summary_pieces [AInt (num_lines c); AInt (num_words c); AInt (Z.of_nat (length c)); AStr (Some f)] = Some (wc_line f c).
Proof.
  intros Hc. unfold summary_pieces. cbn [render render_piece]. change (base_of Cd) with 10. change (Cd =? Cd) with true.
  assert (num_lines c ≤ Z.of_nat (length c)) by (unfold num_lines; pose proof (length_filter (λ b, b = 10) c); lia).
  assert (num_words c ≤ Z.of_nat (length c)) by (unfold num_words; pose proof (tokens_length [] c); simpl in *; lia).
  assert (0 ≤ num_lines c ∧ 0 ≤ num_words c) by (unfold num_lines, num_words; lia).
  do 3 (rewrite dec_num by lia; cbn [fmap option_fmap option_map mbind option_bind default]). done.
Qed.

Lemma wc_spec fuel w fd f c : opened w !! fd = Some (f, c) → (length c < fuel)%nat → Z.of_nat (length c) < 2 ^ 31 →
  wp (Wc.wc fuel fd f : K X (Z + unit)) (λ r w', r = inr tt ∧ consumed w w' fd f [] (wc_line f c)) w.
Proof.
  intros Ho Hf Hbig. unfold Wc.wc. apply wp_ubind. set (s0 := Wc.Counts 0 0 0 false).
  apply (wp_uloop (λ n s w', ∃ l c', c = l ++ c' ∧ n = length c' ∧ s = foldl Wc.count1 s0 l ∧ consumed w w' fd f c' []) _ _ _ (length c)).
  - exists [], c. split_and!; [done|done|done|by apply consumed_refl].
  - done.
  - intros n s w1 (l & c1 & Ec & -> & -> & HC). apply wp_ubind, wp_sys. eapply wp_mono; [by apply (law_read w1 fd f c1 512); [eapply consumed_at|]|].
    cbv beta. intros r w2 (E1 & E2 & E3 & l' & c2 & -> & -> & Hle & Hend & E4). pose proof (consumed_read _ _ _ _ _ _ c2 _ HC E1 E2 E3 E4) as HC2.
    destruct (Z.ltb_spec 0 (Z.of_nat (length l'))) as [Hpos|Hz].
    + apply wp_ubind, wp_count.
      { rewrite (proj1 (counts_foldl s0 l)). simpl. rewrite Ec, !length_app in Hbig. lia. }
      apply wp_uret. exists (length c2). rewrite length_app. split; [lia|]. exists (l ++ l'), c2.
      split_and!; [by rewrite <-app_assoc|done|by rewrite foldl_app|done].
    + apply wp_uret. assert (l' = []) as -> by (destruct l'; [done|simpl in Hz; lia]). simpl in *. rewrite (Hend eq_refl), app_nil_r in *. subst l.
      destruct (counts_foldl s0 c) as [Hcc Hcl]. pose proof (counts_words s0 [] c eq_refl) as Hcw. simpl in Hcc, Hcl, Hcw.
      rewrite Z.add_0_l in Hcc, Hcl. replace (Wc.c_w _) with (num_words c) in Hcw |- * by (unfold num_words; rewrite Hcw; lia).
      rewrite Hcc, Hcl. change Wc.summary with (format summary_pieces).
      eapply (wp_fprintf 1 summary_pieces); [wf_format|by apply summary_render|]. intros w3 HP. split; [done|]. by apply (consumed_print _ _ _ _ _ _ [] _ HC2).
Qed.

(** C34. [wc] counts: for each of its arguments it prints the number of line ends,
    of words and of bytes and the name, however the reads are split, words that
    lie across two reads included; it exits with 1 and a message at the first
    argument that cannot be opened.  Files have less than 2^31 bytes. *)
Theorem wc_counts fuel name files w :
  files ≠ [] → (∀ f c, f ∈ files → contents w f = Some c → (length c < fuel)%nat ∧ Z.of_nat (length c) < 2 ^ 31) →
  wp (Wc.main fuel (name :: files) : K X (Z + unit)) (reports w 1 wc_message (report (contents w) wc_line files)) w.
Proof.
  intros Hne Hfuel. destruct files as [|f0 files]; [done|]. set (l := f0 :: files) in *. unfold Wc.main.
  change Wc.cannot_open with (format wc_pieces). apply (each_file 1 wc_pieces wc_message); [wf_format| |].
  - intros f. unfold wc_message. cbn. by rewrite ?app_nil_r.
  - intros f c Hf Hc w1 fd _ Ho. destruct (Hfuel f c Hf Hc). eapply wp_mono; [by apply (wc_spec fuel w1 fd f c Ho)|]. cbv beta. naive_solver.
Qed.
End wc.

(** ** [echo] and [ls] *)
Definition line_pieces : list piece := [Str; Lit 32; Num W Cd; Lit 32; Num W Cd; Lit 32; Num W Cd; Lit 10].
Definition stat_pieces : list piece := pieces_of "ls: cannot stat " ++ [Str; Lit 10].
Definition long_pieces : list piece := pieces_of "ls: path too long" ++ [Lit 10].
Definition open_pieces : list piece := pieces_of "ls: cannot open " ++ [Str; Lit 10].

(** The numbers of a file that [ls] shows are [int]s. *)
Definition small_stat (st : ustat) : Prop := 0 ≤ us_type st < 2 ^ 31 ∧ 0 ≤ us_ino st < 2 ^ 31 ∧ 0 ≤ us_size st < 2 ^ 31.
Definition ls_line (path : list Z) (st : ustat) : list Z :=
  Ls.fmtname path ++ [SP] ++ dec (us_type st) ++ [SP] ++ dec (us_ino st) ++ [SP] ++ dec (us_size st) ++ NL.
(** What [ls] prints for a directory entry, and for the entries of [d]. *)
Definition entry_out (g : list Z → option (list Z)) (st : list Z → ustat) (p de : list Z) : list Z :=
  if of_le (take 2 de) =? 0 then [] else
  let buf := p ++ Ls.upto0 (take 14 (drop 2 de)) in
  match g buf with None => bytes "ls: cannot stat " ++ buf ++ NL | Some _ => ls_line buf (st buf) end.
Fixpoint dir_out (g : list Z → option (list Z)) (st : list Z → ustat) (p : list Z) (n : nat) (d : list Z) : list Z :=
  match n with O => [] | S n => entry_out g st p (take 16 d) ++ dir_out g st p n (drop 16 d) end.

Section ls.
Context `{SysLaws X}.
Lemma line_render path st : small_stat st → render unum s32 UDIGITS line_pieces
  [AStr (Some (Ls.fmtname path)); AInt (us_type st); AInt (s32 (us_ino st)); AInt (s32 (us_size st))] = Some (ls_line path st).
Proof.
  intros (H1 & H2 & H3). unfold line_pieces, s32. rewrite !swrap_small by lia. cbn [render render_piece]. change (base_of Cd) with 10. change (Cd =? Cd) with true.
  cbn [mbind option_bind default]. do 3 (rewrite dec_num by lia; cbn [fmap option_fmap option_map mbind option_bind default]). done.
Qed.
Lemma wp_show path st (Q : Z + unit → X → Prop) w : small_stat st → (∀ w', printed w w' 1 (ls_line path st) → Q (inr tt) w') →
  wp (Ls.show path st : K X (Z + unit)) Q w.
Proof.
  intros Hs HQ. unfold Ls.show. change Ls.line with (format line_pieces).
  eapply (wp_fprintf 1 line_pieces); [wf_format|by apply line_render|done].
Qed.

(** A file is opened, looked at and closed: nothing else changes. *)
Lemma wp_stat path (Q : Z + (Z * ustat) → X → Prop) w :
  (∀ w', printed w w' 1 [] → match contents w path with Some _ => Q (inr (0, stats w path)) w' | None => ∀ st, Q (inr (-1, st)) w' end) →
  wp (Ls.stat path : K X (Z + (Z * ustat))) Q w.
Proof.
  intros HQ. unfold Ls.stat. apply wp_ubind, wp_sys. eapply wp_mono; [apply law_open|]. cbv beta. intros fd w1 (E1 & E2 & E3 & E4).
  destruct (contents w path) as [c|].
  - destruct E4 as (Hfd & Hnew & E4). rewrite (proj2 (Z.ltb_ge fd 0)) by done. apply wp_ubind, wp_sys.
    eapply wp_mono; [apply (law_fstat w1 fd path c); rewrite E4; apply lookup_insert_eq|]. cbv beta. intros r w2 [-> ->].
    apply wp_ubind, wp_sys. eapply wp_mono; [apply law_close|]. cbv beta. intros _ w3 (D1 & D2 & D3 & D4). apply wp_uret. rewrite E2. apply HQ.
    split; [congruence|congruence| |].
    + rewrite D4, E4. by apply delete_insert_id.
    + intros g. rewrite D3, E3. case_decide; [by subst; rewrite app_nil_r|done].
  - destruct E4 as [Hfd E4]. rewrite (proj2 (Z.ltb_lt fd 0)) by done. apply wp_uret. apply HQ.
    split; [done..|]. intros g. rewrite E3. case_decide; [by subst; rewrite app_nil_r|done].
Qed.
Lemma wp_entry p de (Q : Z + unit → X → Prop) w : (∀ path, small_stat (stats w path)) →
  (∀ w', printed w w' 1 (entry_out (contents w) (stats w) p de) → Q (inr tt) w') → wp (Ls.entry p de : K X (Z + unit)) Q w.
Proof.
  intros Hs HQ. unfold Ls.entry. unfold entry_out in HQ. destruct (of_le (take 2 de) =? 0); [apply wp_uret, HQ, printed_nil|].
  set (buf := p ++ Ls.upto0 (take 14 (drop 2 de))) in *. change (take Ls.DIRSIZ (drop 2 de)) with (take 14 (drop 2 de)). fold buf.
  apply wp_ubind, wp_stat. intros w1 P1. destruct (contents w buf) as [c|].
  - apply wp_show; [done|]. intros w2 P2. apply HQ. exact (printed_app _ _ _ _ [] _ P1 P2).
  - intros st. change Ls.cannot_stat with (format stat_pieces).
    eapply (wp_fprintf 1 stat_pieces _ (bytes "ls: cannot stat " ++ buf ++ NL)); [wf_format|cbn; by rewrite ?app_nil_r|].
    intros w2 P2. apply HQ. exact (printed_app _ _ _ _ [] _ P1 P2).
Qed.

(** The loop over the entries, of which [m] are left. *)
Lemma ls_loop fuel path d fd w : us_type (stats w path) = 1 → (∀ p, small_stat (stats w p)) → opened w !! fd = Some (path, d) →
  let m := (length d / 16)%nat in (m < fuel)%nat →
  wp (uloop fuel tt (λ _ : unit,
        '(n, de) ← sys (u_read fd 16);
        if n =? 16 then Ls.entry (path ++ [47]) de;; mret (inl tt) else mret (inr tt)) : K X (Z + unit))
     (λ r w', r = inr tt ∧ ∃ d', consumed w w' fd path d' (dir_out (contents w) (stats w) (path ++ [47]) m d)) w.
Proof.
  intros Ht Hs Ho m Hf. set (out := dir_out (contents w) (stats w) (path ++ [47])).
  apply (wp_uloop (λ n _ w', ∃ l d', consumed w w' fd path d' l ∧ n = (length d' / 16)%nat ∧ out m d = l ++ out n d') _ _ _ m); [|done|].
  - exists [], d. split_and!; [by apply consumed_refl|done|done].
  - intros n [] w1 (l & d1 & HC & -> & Hout). apply wp_ubind, wp_sys.
    eapply wp_mono; [apply (law_read_dir w1 fd path d1 16); [by eapply consumed_at|by rewrite (cs_stats _ _ _ _ _ _ HC)|done]|].
    cbv beta. intros r w2 (E1 & E2 & E3 & -> & E4). pose proof (consumed_read _ _ _ _ _ _ _ _ HC E1 E2 E3 E4) as HC2.
    destruct (Z.eqb_spec (Z.min 16 (Z.of_nat (length d1))) 16) as [Hm|Hm].
    + assert (length d1 / 16 = S (length (drop 16 d1) / 16))%nat as Hlen.
      { rewrite length_drop. replace (length d1) with (length d1 - 16 + 1 * 16)%nat at 1 by lia. rewrite Nat.div_add by lia. lia. }
      apply wp_ubind, wp_entry; [by rewrite (cs_stats _ _ _ _ _ _ HC2)|]. intros w3 HP. apply wp_uret. exists (length (drop 16 d1) / 16)%nat.
      split; [lia|]. eexists _, (drop 16 d1). split_and!; [by eapply consumed_print|done|].
      rewrite Hout, Hlen. unfold out. cbn [dir_out]. rewrite (cs_contents _ _ _ _ _ _ HC2), (cs_stats _ _ _ _ _ _ HC2). by rewrite app_assoc.
    + apply wp_uret. split; [done|]. eexists. rewrite Hout, (Nat.div_small (length d1) 16) by lia. unfold out. cbn [dir_out]. rewrite app_nil_r. exact HC2.
Qed.

(** C35. [ls] of a directory prints, for each entry in use and in their order, the
    name padded to fourteen characters, the type, the inode number and the size of
    the file, or a message when the file is not there; unused entries are left
    out, and descriptors are as before. *)
Theorem ls_directory fuel path d w :
  contents w path = Some d → us_type (stats w path) = 1 → (∀ p, small_stat (stats w p)) → (length path ≤ 496)%nat → (length d / 16 < fuel)%nat →
  wp (Ls.ls fuel path : K X (Z + unit)) (λ r w', r = inr tt ∧
    printed w w' 1 (dir_out (contents w) (stats w) (path ++ [47]) (length d / 16) d)) w.
Proof.
  intros Hc Ht Hs Hp Hf. unfold Ls.ls. apply wp_ubind, wp_sys. eapply wp_mono; [apply law_open|]. cbv beta. intros fd w1 (E1 & E2 & E3 & E4).
  rewrite Hc in E4. destruct E4 as (Hfd & Hnew & E4). rewrite (proj2 (Z.ltb_ge fd 0)) by done.
  assert (opened w1 !! fd = Some (path, d)) as Ho by (rewrite E4; apply lookup_insert_eq).
  apply wp_ubind, wp_sys. eapply wp_mono; [by apply (law_fstat w1 fd path d)|]. cbv beta. intros r w2 [-> ->].
  change (0 <? 0) with false. cbv iota. apply wp_ubind. rewrite E2, Ht. cbn [Z.eqb Pos.eqb orb Ls.T_DEVICE Ls.T_FILE Ls.T_DIR].
  rewrite (proj2 (Nat.ltb_ge _ _)) by (change Ls.DIRSIZ with 14%nat; lia). eapply wp_mono; [apply (ls_loop fuel path d fd w1); rewrite ?E2; done|].
  cbv beta. intros r w2 (-> & d' & [C1 C2 C3 C4]). apply wp_ubind, wp_sys. eapply wp_mono; [apply law_close|]. cbv beta.
  intros _ w3 (D1 & D2 & D3 & D4). apply wp_uret. split; [done|]. rewrite <-E1, <-E2. split; [congruence|congruence| |].
  - rewrite D4, C3, E4, insert_insert_eq. by apply delete_insert_id.
  - intros g. by rewrite D3, C4, !E3.
Qed.
End ls.

(** ** A system that follows the laws

    Files that do not change; reads of files that are not directories are cut at
    three bytes. *)
Module Host.
Record host := Host { h_files : gmap (list Z) (list Z * ustat); h_fds : gmap Z (list Z * list Z); h_out : Z → list Z }.
Definition set_fds (x : gmap Z (list Z * list Z)) (w : host) : host := Host (h_files w) x (h_out w).
Definition stat_of (w : host) (path : list Z) : ustat := default (Ustat 0 0 0) (snd <$> h_files w !! path).
Definition next_fd (m : gmap Z (list Z * list Z)) : Z := map_fold (λ k _ a, Z.max (k + 1) a) 3 m.
Lemma next_fd_spec m : 0 ≤ next_fd m ∧ ∀ k x, m !! k = Some x → k < next_fd m.
Proof.
  unfold next_fd. apply (map_fold_weak_ind (λ r m, 0 ≤ r ∧ ∀ k (x : list Z * list Z), m !! k = Some x → k < r)); [done|].
  intros k x m' r Hk [H1 H2]. split; [lia|]. intros k' x'. destruct (decide (k' = k)) as [->|]; [intros _; lia|].
  rewrite lookup_insert_ne by done. intros ?%H2. lia.
Qed.

#[global] Instance host_sys : Sys host := {|
  u_open path mode := w ← Prelude.gets id;
    match h_files w !! path with
    | Some (c, _) => let fd := next_fd (h_fds w) in modify (set_fds (<[fd := (path, c)]> (h_fds w)));; mret fd
    | None => mret (-1)
    end;
  u_close fd := w ← Prelude.gets id; modify (set_fds (delete fd (h_fds w)));; mret 0;
  u_read fd n := w ← Prelude.gets id;
    match h_fds w !! fd with
    | Some (path, c) =>
        let k := if us_type (stat_of w path) =? 1 then Z.to_nat n else Z.to_nat (Z.min n 3) in
        modify (set_fds (<[fd := (path, drop k c)]> (h_fds w)));; mret (Z.of_nat (length (take k c)), take k c)
    | None => mret (-1, [])
    end;
  u_write fd l := modify (λ w, Host (h_files w) (h_fds w) (<[fd := h_out w fd ++ l]> (h_out w)));; mret (Z.of_nat (length l));
  u_fstat fd := w ← Prelude.gets id; mret (match h_fds w !! fd with Some (path, _) => (0, stat_of w path) | None => (-1, Ustat 0 0 0) end);
  u_unlink _ := mret (-1);
  u_mkdir _ := mret (-1);
  u_link _ _ := mret (-1);
  u_kill _ := mret (-1);
|}.
#[global] Program Instance host_laws : SysLaws host := {|
  contents w path := fst <$> h_files w !! path;
  stats w path := stat_of w path;
  opened := h_fds;
  output := h_out;
|}.
Next Obligation.
  intros w path. simpl. apply wp_bind, wp_gets. unfold id. destruct (h_files w !! path) as [[c st]|] eqn:E; simpl; [|by apply wp_ret].
  apply wp_bind, wp_modify, wp_ret. destruct (next_fd_spec (h_fds w)) as [H1 H2]. split_and!; try done.
  destruct (h_fds w !! next_fd (h_fds w)) as [x|] eqn:Ex; [|done]. apply H2 in Ex. lia.
Qed.
Next Obligation.
  intros w fd path c n Ho Hn. simpl. apply wp_bind, wp_gets. unfold id. rewrite Ho. apply wp_bind, wp_modify, wp_ret. split_and!; try done.
  set (k := if _ =? 1 then _ else _). assert (0 < k ≤ Z.to_nat n)%nat as Hk by (unfold k; destruct (_ =? 1); lia).
  exists (take k c), (drop k c). split_and!; [by rewrite take_drop|done|rewrite length_take; lia| |done].
  intros Ek. destruct c; [done|]. destruct k; [lia|done].
Qed.
Next Obligation.
  intros w fd path c n Ho Ht Hn. simpl in *. apply wp_bind, wp_gets. unfold id. rewrite Ho. rewrite Ht. cbn [Z.eqb Pos.eqb]. apply wp_bind, wp_modify, wp_ret.
  split_and!; try done. f_equal. rewrite length_take. lia.
Qed.
Next Obligation. intros w fd path c Ho. simpl. apply wp_bind, wp_gets. unfold id. rewrite Ho. by apply wp_ret. Qed.
Next Obligation. intros w fd. simpl. apply wp_bind, wp_gets, wp_bind, wp_modify, wp_ret. done. Qed.
Next Obligation.
  intros w fd l. simpl. apply wp_bind, wp_modify, wp_ret. split_and!; try done. intros f. simpl.
  case_decide; [by subst; rewrite fn_lookup_insert|by rewrite fn_lookup_insert_ne].
Qed.

(** Two files and a directory with an entry for the first, an unused one and one
    whose file is missing. *)
Definition dirent (inum : Z) (name : list Z) : list Z := le_bytes 2 inum ++ take 14 (name ++ replicate 14 0).
Definition w0 : host := Host
  (list_to_map [([97], (bytes "two words" ++ NL, Ustat 2 7 10)); ([98], (NL ++ bytes " x", Ustat 2 8 3));
    ([100], (dirent 7 [97] ++ dirent 0 [99] ++ dirent 9 [122], Ustat 1 6 48)); ([100; 47; 97], (bytes "two words" ++ NL, Ustat 2 7 10))])
  ∅ (λ _, []).
End Host.

Ltac host_files Hf Hc := rewrite !elem_of_cons, elem_of_nil in Hf;
  repeat (destruct Hf as [Hf|Hf]; [subst; vm_compute in Hc; simplify_eq; simpl; lia|]); done.
Lemma cat_concatenates_witness :
  wp (Cat.main 20 [[]; [97]; [98]; [99]] : K Host.host (Z + unit)) (λ r w', r = inl 1 ∧
    output w' 1 = bytes "two words" ++ NL ++ NL ++ bytes " x" ∧ output w' 2 = bytes "cat: cannot open c" ++ NL) Host.w0.
Proof.
  assert (report (contents Host.w0) (λ _ c, c) [[97]; [98]; [99]] = (bytes "two words" ++ NL ++ NL ++ bytes " x", Some [99])) as E by (vm_compute; reflexivity).
  eapply wp_mono; [apply (cat_concatenates 20 [] [[97]; [98]; [99]] Host.w0); [done|intros f c Hf Hc; host_files Hf Hc]|].
  cbv beta. rewrite E. intros r w' (w1 & P1 & -> & P2). split; [done|]. split.
  - rewrite (pt_output _ _ _ _ P2). exact (pt_output _ _ _ _ P1 1).
  - rewrite (pt_output _ _ _ _ P2), (pt_output _ _ _ _ P1). reflexivity.
Defined.
(** ["1 2 10 a"], and ["1 1 3 b"]. *)
Lemma wc_counts_witness :
  wp (Wc.main 20 [[]; [97]; [98]] : K Host.host (Z + unit)) (λ r w', r = inl 0 ∧
    output w' 1 = bytes "1 2 10 a" ++ NL ++ bytes "1 1 3 b" ++ NL) Host.w0.
Proof.
  assert (report (contents Host.w0) wc_line [[97]; [98]] = (bytes "1 2 10 a" ++ NL ++ bytes "1 1 3 b" ++ NL, None)) as E by (vm_compute; reflexivity).
  eapply wp_mono; [apply (wc_counts 20 [] [[97]; [98]] Host.w0); [done|intros f c Hf Hc; host_files Hf Hc]|].
  cbv beta. rewrite E. intros r w' (w1 & P1 & -> & ->). split; [done|]. exact (pt_output _ _ _ _ P1 1).
Defined.
Lemma ls_directory_witness :
  wp (Ls.ls 20 [100] : K Host.host (Z + unit)) (λ r w', r = inr tt ∧
    output w' 1 = bytes "a              2 7 10" ++ NL ++ bytes "ls: cannot stat d/z" ++ NL) Host.w0.
Proof.
  assert (dir_out (contents Host.w0) (stats Host.w0) [100; 47] 3 (default [] (contents Host.w0 [100])) =
    bytes "a              2 7 10" ++ NL ++ bytes "ls: cannot stat d/z" ++ NL) as E by (vm_compute; reflexivity).
  eapply wp_mono; [apply (ls_directory 20 [100] (default [] (contents Host.w0 [100])) Host.w0)|].
  - vm_compute. reflexivity.
  - vm_compute. reflexivity.
  - intros p. unfold small_stat. simpl. unfold Host.stat_of. destruct (Host.h_files Host.w0 !! p) as [[c st]|] eqn:Ep; simpl; [|lia].
    apply elem_of_list_to_map_2 in Ep. rewrite !elem_of_cons, elem_of_nil in Ep.
    destruct Ep as [Ep|[Ep|[Ep|[Ep|[]]]]]; injection Ep as _ _ ->; simpl; lia.
  - simpl. lia.
  - by apply (bool_decide_unpack _); vm_compute.
  - cbv beta. intros r w' [-> P]. split; [done|]. rewrite <-E. exact (pt_output _ _ _ _ P 1).
Defined.

(** ** [grep] *)
Definition grep_pieces : list piece := pieces_of "grep: cannot open " ++ [Str; Lit 10].
Definition grep_message (f : list Z) : list Z := bytes "grep: cannot open " ++ f ++ NL.
(** A text is its lines and what follows the last line end, all of them shorter
    than the buffer of [grep]. *)
Definition text_ok (c : list Z) (ls : list (list Z)) (t : list Z) : Prop :=
  c = unlines ls ++ t ∧ Forall line_ok ls ∧ (Grep.NL ∉ t) ∧ (length t + 1 < BUFSZ)%nat.

Section grep.
Context `{SysLaws X}.
Lemma grep_loop_spec re (t : list Z) : Grep.NL ∉ t → ∀ fuel ls w, Forall (λ l, (Grep.NL ∉ l) ∧ 0 ∉ l) ls → (length ls < fuel)%nat →
  wp (uloop fuel (unlines ls ++ t) (λ p,
    match strchr_nl p with
    | None => mret (inr p)
    | Some i =>
        (if match_ re (take i p) then sys (u_write 1 (take (S i) p));; mret tt else mret tt);;
        mret (inl (drop (S i) p))
    end) : K X (Z + list Z)) (λ r w', r = inr t ∧ printed w w' 1 (expected re ls)) w.
Proof.
  intros Ht fuel. induction fuel as [|fuel IH]; intros ls w Hls Hf; [lia|]. cbn [uloop]. apply wp_ubind. destruct ls as [|l ls].
  { cbn [unlines mbind list_bind app]. rewrite strchr_nl_none by done. apply wp_uret, wp_uret. split; [done|apply printed_nil]. }
  apply Forall_cons in Hls as [[Hn Hz] Hls]. rewrite unlines_cons, <-app_assoc. cbn [app]. rewrite strchr_nl_some by done.
  simpl in Hf.
  rewrite take_app_length.
  assert (drop (S (length l)) (l ++ Grep.NL :: unlines ls ++ t) = unlines ls ++ t) as ->.
  { rewrite drop_app_ge by lia. by replace (S (length l) - length l)%nat with 1%nat by lia. }
  assert (take (S (length l)) (l ++ Grep.NL :: unlines ls ++ t) = l ++ [Grep.NL]) as ->.
  { rewrite take_app_ge by lia. by replace (S (length l) - length l)%nat with 1%nat by lia. }
  unfold expected. destruct (match_ re l) eqn:E.
  - apply wp_ubind, wp_ubind, wp_sys, wp_write. intros w1 H1. apply wp_uret, wp_uret. eapply wp_mono; [apply IH; [done|lia]|]. cbv beta.
    intros r w2 [-> H2]. split; [done|]. rewrite filter_cons_True by done. rewrite unlines_cons. change (Grep.NL :: ?x) with ([Grep.NL] ++ x).
    rewrite app_assoc. by eapply printed_app.
  - apply wp_ubind, wp_uret, wp_uret. eapply wp_mono; [apply IH; [done|lia]|]. cbv beta. intros r w2 [-> H2]. split; [done|].
    by rewrite filter_cons_False by (by rewrite E).
Qed.
Lemma unlines_length ls : (length ls ≤ length (unlines ls))%nat.
Proof. induction ls as [|l ls IH]; [simpl; lia|]. rewrite unlines_cons, length_app. simpl. lia. Qed.
Lemma lines_spec re ls t w : Forall line_ok ls → Grep.NL ∉ t →
  wp (Grepu.lines re (unlines ls ++ t) : K X (Z + list Z)) (λ r w', r = inr t ∧ printed w w' 1 (expected re ls)) w.
Proof.
  intros Hls Ht. apply grep_loop_spec; [done| |].
  - eapply Forall_impl; [exact Hls|]. by intros l (? & ? & _).
  - pose proof (unlines_length ls). rewrite length_app. lia.
Qed.
Lemma expected_app re ls1 ls2 : expected re (ls1 ++ ls2) = expected re ls1 ++ expected re ls2.
Proof. unfold expected, unlines. by rewrite filter_app, bind_app. Qed.

Lemma grep_fd_spec fuel re w fd f c ls t : opened w !! fd = Some (f, c) → (length c < fuel)%nat → text_ok c ls t →
  wp (Grepu.grep fuel re fd : K X (Z + unit)) (λ r w', r = inr tt ∧ consumed w w' fd f [] (expected re ls)) w.
Proof.
  intros Ho Hf (Ec & Hls & Ht & Hlt). unfold Grepu.grep.
  apply (wp_uloop (λ n left w', ∃ c' ls1 ls2, n = length c' ∧ ls = ls1 ++ ls2 ∧ left ++ c' = unlines ls2 ++ t ∧ (Grep.NL ∉ left) ∧
    (length left + 1 < BUFSZ)%nat ∧ consumed w w' fd f c' (expected re ls1)) _ _ _ (length c)).
  - exists c, [], ls. split_and!; [done|done|done|by intros ?%elem_of_nil|unfold BUFSZ; simpl; lia|by apply consumed_refl].
  - done.
  - intros n left w1 (c1 & ls1 & ls2 & -> & -> & E & Hnl & Hlen & HC). apply wp_ubind, wp_sys.
    eapply wp_mono; [apply (law_read w1 fd f c1); [by eapply consumed_at|lia]|].
    cbv beta. intros r w2 (E1 & E2 & E3 & l & c2 & -> & -> & Hle & Hend & E4). pose proof (consumed_read _ _ _ _ _ _ c2 _ HC E1 E2 E3 E4) as HC2.
    apply Forall_app in Hls as [_ Hls]. destruct (Z.ltb_spec 0 (Z.of_nat (length l))) as [Hpos|Hz].
    + rewrite app_assoc in E. destruct (cut_lines ls2 t (left ++ l) c2 Hls Ht E) as (ls3 & ls4 & p & -> & Hb & Hp & Hnp & Hlen2).
      apply Forall_app in Hls as [Hls3 Hls4]. rewrite Hb. apply wp_ubind. eapply wp_mono; [by apply lines_spec|]. cbv beta. intros r w3 [-> HP].
      apply wp_uret. exists (length c2). split; [rewrite length_app; lia|]. exists c2, (ls1 ++ ls3), ls4. split_and!; [done|by rewrite app_assoc|done|done| |].
      * destruct ls4 as [|x ls4]; [|by apply Hlen2]. simpl in Hp. rewrite <-Hp, length_app in Hlt. lia.
      * rewrite expected_app. by eapply consumed_print.
    + apply wp_uret. assert (l = []) as -> by (destruct l; [done|simpl in Hz; lia]). pose proof (Hend eq_refl) as Hc2. simpl in Hc2. subst c2. split; [done|].
      destruct ls2 as [|x ls2].
      * by rewrite app_nil_r.
      * exfalso. rewrite unlines_cons, !app_nil_r in E. subst left. set_solver.
Qed.

(** C37. [grep] prints, for each of its arguments in turn, exactly the lines that
    the pattern matches, in their order and however the reads are split; it exits
    with 1 and a message at the first argument that cannot be opened.  Lines have
    no zero byte and are shorter than the buffer; what follows the last line end
    is not printed. *)
Theorem grep_prints fuel name re files (L : list Z → list (list Z)) w : files ≠ [] →
  (∀ f c, f ∈ files → contents w f = Some c → (length c < fuel)%nat ∧ ∃ t, text_ok c (L c) t) →
  wp (Grepu.main fuel (name :: re :: files) : K X (Z + unit)) (reports w 1 grep_message (report (contents w) (λ _ c, expected re (L c)) files)) w.
Proof.
  intros Hne Hok. destruct files as [|f0 files]; [done|]. set (l := f0 :: files) in *. unfold Grepu.main, l. fold l.
  change Grepu.cannot_open with (format grep_pieces). apply (each_file 1 grep_pieces grep_message); [wf_format| |].
  - intros f. unfold grep_message. cbn. by rewrite ?app_nil_r.
  - intros f c Hf Hc w1 fd _ Ho. destruct (Hok f c Hf Hc) as (Hl & t & Htx).
    eapply wp_mono; [apply (grep_fd_spec fuel re w1 fd f c (L c) t Ho Hl Htx)|]. cbv beta. naive_solver.
Qed.
End grep.
Lemma grep_prints_witness :
  wp (Grepu.main 20 [[]; [119; 111]; [97]; [98]; [99]] : K Host.host (Z + unit)) (λ r w', r = inl 1 ∧
    output w' 1 = bytes "two words" ++ NL ++ bytes "grep: cannot open c" ++ NL) Host.w0.
Proof.
  set (L := λ c : list Z, if decide (c = bytes "two words" ++ NL) then [bytes "two words"] else [[]]).
  assert (report (contents Host.w0) (λ _ c, expected [119; 111] (L c)) [[97]; [98]; [99]] = (bytes "two words" ++ NL, Some [99])) as E by (vm_compute; reflexivity).
  eapply wp_mono; [apply (grep_prints 20 [] [119; 111] [[97]; [98]; [99]] L Host.w0); [done|]|].
  - intros f c Hf Hc. rewrite !elem_of_cons, elem_of_nil in Hf. destruct Hf as [->|[->|[->|[]]]]; [| |by vm_compute in Hc].
    + assert (c = bytes "two words" ++ NL) as -> by (vm_compute in Hc |- *; by injection Hc). split; [vm_compute; lia|]. exists [].
      unfold text_ok, line_ok, BUFSZ. split_and!; [by vm_compute|apply Forall_singleton; split_and!; [apply (bool_decide_unpack _); by vm_compute..|simpl; lia]|set_solver|simpl; lia].
    + assert (c = NL ++ bytes " x") as -> by (vm_compute in Hc |- *; by injection Hc). split; [vm_compute; lia|]. exists (bytes " x").
      unfold text_ok, line_ok, BUFSZ. split_and!; [by vm_compute|apply Forall_singleton; split_and!; [set_solver..|simpl; lia]|apply (bool_decide_unpack _); by vm_compute|simpl; lia].
  - cbv beta. rewrite E. intros r w' (w1 & P1 & -> & P2). split; [done|]. rewrite (pt_output _ _ _ _ P2), (pt_output _ _ _ _ P1). reflexivity.
Defined.
