(* ===== verification/Init.v ===== *)
(** * The first program ([user/init.c])

    [init] opens the console, starts a shell and waits: for the shell, which it
    starts again, and for the processes that lost their parent.  The program is a
    place in the code, the system call made there and where it goes on with the
    result.  The kernel answers as [kernel/proc.c] and [kernel/sysfile.c] do for a
    process that is not killed; orphans arrive at any time. *)

From S2P Require Import Prelude Param.

Definition O_RDWR : Z := 2.
Definition CONSOLE : Z := 1.

(** ** The program *)
Inductive syscall :=
  | Open (path : string) (mode : Z)
  | Mknod (path : string) (major minor : Z)
  | Dup (fd : Z)
  | Fork
  | Exec (path : string) (argv : list string)
  | Wait
  | Print (s : string)
  | Exit (status : Z).

Inductive place :=
  | Opening | Making | Reopening | Dup1 | Dup2
  | Starting | Forking | Fork_failed
  | Child | Exec_failed
  | Waiting (pid : Z) | Wait_failed
  | Exiting.

Definition call (l : place) : syscall :=
  match l with
  | Opening | Reopening => Open "console" O_RDWR
  | Making => Mknod "console" CONSOLE 0
  | Dup1 | Dup2 => Dup 0
  | Starting => Print "init: starting sh"
  | Forking => Fork
  | Fork_failed => Print "init: fork failed"
  | Child => Exec "sh" ["sh"%string]
  | Exec_failed => Print "init: exec sh failed"
  | Waiting _ => Wait
  | Wait_failed => Print "init: wait returned an error"
  | Exiting => Exit 1
  end.

(** Where the program goes on when the call returns [r]. *)
Definition next (l : place) (r : Z) : place :=
  match l with
  | Opening => if r <? 0 then Making else Dup1
  | Making => Reopening
  | Reopening => Dup1
  | Dup1 => Dup2
  | Dup2 => Starting
  | Starting => Forking
  | Forking => if r <? 0 then Fork_failed else if r =? 0 then Child else Waiting r
  | Fork_failed | Exec_failed | Wait_failed | Exiting => Exiting
  | Child => Exec_failed
  | Waiting pid => if r =? pid then Starting else if r <? 0 then Wait_failed else Waiting pid
  end.

(** ** The kernel *)
(** What the descriptors 0, 1, ... refer to, whether the console exists, and the
    children that have not been waited for. *)
Record world := World { fds : list string; made : bool; children : gset Z }.

Inductive answer (w : world) : syscall → Z → world → Prop :=
  | a_open path mode : made w = true → answer w (Open path mode) (Z.of_nat (length (fds w))) (World (fds w ++ [path]) true (children w))
  | a_open_fail path mode : answer w (Open path mode) (-1) w
  | a_mknod path major minor : answer w (Mknod path major minor) 0 (World (fds w) true (children w))
  | a_mknod_fail path major minor : answer w (Mknod path major minor) (-1) w
  | a_dup fd d : fds w !! Z.to_nat fd = Some d → answer w (Dup fd) (Z.of_nat (length (fds w))) (World (fds w ++ [d]) (made w) (children w))
  | a_dup_fail fd : fds w !! Z.to_nat fd = None → answer w (Dup fd) (-1) w
  | a_fork pid : 0 < pid → pid ∉ children w → answer w Fork pid (World (fds w) (made w) ({[pid]} ∪ children w))
  | a_fork_fail : answer w Fork (-1) w
  | a_wait pid : 0 < pid → pid ∈ children w → answer w Wait pid (World (fds w) (made w) (children w ∖ {[pid]}))
  | a_wait_fail : children w = ∅ → answer w Wait (-1) w
  | a_print s r : answer w (Print s) r w.

(** A call of [init], or an orphan arrives. *)
Inductive istep : place * world → place * world → Prop :=
  | is_call l w r w' : answer w (call l) r w' → istep (l, w) (next l r, w')
  | is_orphan l w pid : 0 < pid → pid ∉ children w → istep (l, w) (l, World (fds w) (made w) ({[pid]} ∪ children w)).

Definition iinv (s : place * world) : Prop :=
  match s.1 with
  | Opening | Making | Reopening => fds s.2 = []
  | Dup1 => fds s.2 = [] ∨ fds s.2 = ["console"%string]
  | Dup2 => fds s.2 = [] ∨ fds s.2 = ["console"; "console"]%string
  | Waiting pid => (fds s.2 = [] ∨ fds s.2 = ["console"; "console"; "console"]%string) ∧ 0 < pid ∧ pid ∈ children s.2
  | Starting | Forking | Fork_failed | Exiting => fds s.2 = [] ∨ fds s.2 = ["console"; "console"; "console"]%string
  | Child | Exec_failed | Wait_failed => False
  end.
Lemma iinv_step s s' : iinv s → istep s s' → iinv s'.
Proof.
  intros HI Hs. destruct Hs as [l w r w' Ha|l w pid Hp Hn].
  - destruct l as [| | | | | | | | | |pid| |]; cbn in HI; try done; inversion Ha; subst; clear Ha; cbn in *;
      try (destruct HI as [HI|HI]; rewrite HI in * ); rewrite ?HI; simplify_eq/=; auto.
    { by right. }
    1, 2: rewrite (proj2 (Z.ltb_ge _ _)), (proj2 (Z.eqb_neq _ _)) by lia; cbn; split_and!; auto; set_solver.
    + destruct HI as (Hf & Hp & Hc). destruct (Z.eqb_spec r pid) as [->|Hne]; [done|]. rewrite (proj2 (Z.ltb_ge r 0)) by lia. cbn. split_and!; [done|done|set_solver].
    + destruct HI as (_ & _ & Hc). set_solver.
  - destruct l; cbn in *; try done. destruct HI as (? & ? & ?). split_and!; [done|done|set_solver].
Qed.

(** [init] keeps a shell: while it waits, the shell that it started last is a child
    that it has not collected, so that [wait] never fails; when [wait] returns the
    shell it starts the next one.  It ends only when [fork] fails.  Each shell gets
    the console as its descriptors 0, 1 and 2, or none when the console cannot be
    opened. *)
Theorem init_keeps_shell w s : fds w = [] → rtc istep (Opening, w) s →
  (∀ pid, s.1 = Waiting pid → pid ∈ children s.2 ∧ next s.1 pid = Starting) ∧
  s.1 ≠ Wait_failed ∧
  (∀ s', istep s s' → s'.1 = Exiting → s.1 = Fork_failed ∨ s.1 = Exiting) ∧
  (s.1 = Forking → fds s.2 = [] ∨ fds s.2 = ["console"; "console"; "console"]%string).
Proof.
  intros Hw Hr. assert (iinv s) as HI.
  { assert (iinv (Opening, w)) as HI0 by done. revert HI0. clear Hw. induction Hr as [|x y z Hxy _ IH]; [done|]. intros Hx. by eapply IH, iinv_step. }
  destruct s as [l w']. cbn in *. split_and!.
  - intros pid ->. split; [by apply HI|]. cbn. by rewrite Z.eqb_refl.
  - by intros ->.
  - intros s' Hs E. inversion Hs as [? ? r ? Ha|]; subst; cbn in *; [|by right].
    destruct l; cbn in *; repeat case_match; try done; auto.
  - by intros ->.
Qed.
