(* ===== verification/Boot.v ===== *)
(** * Starting the kernel ([kernel/main.c])

    Every hart comes from [start] to [main].  Hart 0 initialises the kernel, one
    call after the other, and sets [started]; the others wait for that, turn on
    paging and set up their traps; all of them end in [scheduler].  The calls of
    the harts are interleaved, and output is one call for each character.

    The parts of the kernel with their initialisation are those of the other
    files; what is added here are the locks that they initialise, [kvminit] and
    [kvminithart] of [kernel/vm.c], [consoleinit], [printfinit], [trapinit] and
    [fileinit].  A call is one step, and the locks that it takes and has released
    when it returns (those of the allocator, of the first process in [userinit], of
    the disk) are not taken in the model.  The lock of [printf], which keeps the
    messages of the harts apart, is left out. *)

From S2P Require Import Prelude Word Param Riscv Spinlock Bio Virtio Log Printf Kalloc Vm Fs File Proc Plic Uart User.

(** ** Locks, besides those of the processes *)
Definition wait_lock : Z := -1.
Definition pid_lock : Z := -2.
Definition cons_lock : Z := -3.
Definition uart_tx_lock : Z := -4.
Definition pr_lock : Z := -5.
Definition kmem_lock : Z := -6.
Definition tickslock : Z := -7.
Definition bcache_lock : Z := -8.
Definition itable_lock : Z := -9.
Definition ftable_lock : Z := -10.
Definition vdisk_lock : Z := -11.

(** [devsw[CONSOLE]] is set by [consoleinit]; [pr.locking]; [kernel_pagetable]. *)
Record machine (D : Type) := Machine {
  m_sst : sst;
  m_kern : pcb lst;
  m_uart : uart;
  m_plic : D;
  m_disk : vst * list (Z * Z);
  m_devsw : bool;
  m_locking : bool;
  m_kpt : Z;
  m_started : bool;
}.
Arguments Machine {D}.
Arguments m_sst {D}.
Arguments m_kern {D}.
Arguments m_uart {D}.
Arguments m_plic {D}.
Arguments m_disk {D}.
Arguments m_devsw {D}.
Arguments m_locking {D}.
Arguments m_kpt {D}.
Arguments m_started {D}.

Section main.
Context {D : Type} `{!PlicDev D}.
(** Addresses placed by the linker, and the registers of the disk. *)
Context (kend etext trampoline forkret kernelvec : Z) (R : Z → Z).
Abbreviation M := (machine D).

Definition on_sst {A} (m : K sst A) : K M A :=
  lift m_sst (λ x s, Machine x (m_kern s) (m_uart s) (m_plic s) (m_disk s) (m_devsw s) (m_locking s) (m_kpt s) (m_started s)) m.
Definition on_kern {A} (m : K (pcb lst) A) : K M A :=
  lift m_kern (λ x s, Machine (m_sst s) x (m_uart s) (m_plic s) (m_disk s) (m_devsw s) (m_locking s) (m_kpt s) (m_started s)) m.
Definition on_uart {A} (m : K uart A) : K M A :=
  lift m_uart (λ x s, Machine (m_sst s) (m_kern s) x (m_plic s) (m_disk s) (m_devsw s) (m_locking s) (m_kpt s) (m_started s)) m.
Definition on_plic {A} (m : K D A) : K M A :=
  lift m_plic (λ x s, Machine (m_sst s) (m_kern s) (m_uart s) x (m_disk s) (m_devsw s) (m_locking s) (m_kpt s) (m_started s)) m.
Definition on_disk {A} (m : K (vst * list (Z * Z)) A) : K M A :=
  lift m_disk (λ x s, Machine (m_sst s) (m_kern s) (m_uart s) (m_plic s) x (m_devsw s) (m_locking s) (m_kpt s) (m_started s)) m.
Definition set_devsw (b : bool) (s : M) : M :=
  Machine (m_sst s) (m_kern s) (m_uart s) (m_plic s) (m_disk s) b (m_locking s) (m_kpt s) (m_started s).
Definition set_locking (b : bool) (s : M) : M :=
  Machine (m_sst s) (m_kern s) (m_uart s) (m_plic s) (m_disk s) (m_devsw s) b (m_kpt s) (m_started s).
Definition set_kpt (x : Z) (s : M) : M :=
  Machine (m_sst s) (m_kern s) (m_uart s) (m_plic s) (m_disk s) (m_devsw s) (m_locking s) x (m_started s).
Definition set_started (b : bool) (s : M) : M :=
  Machine (m_sst s) (m_kern s) (m_uart s) (m_plic s) (m_disk s) (m_devsw s) (m_locking s) (m_kpt s) b.
Definition lock_init (l : Z) (name : string) : K M unit := on_sst (initlock l name).

(** ** The calls of [main]; [c] is the hart *)
Definition consoleinit : K M unit :=
  lock_init cons_lock "cons";;
  on_uart uartinit;;
  lock_init uart_tx_lock "uart";;
  modify (set_devsw true).
Definition printfinit : K M unit := lock_init pr_lock "pr";; modify (set_locking true).
Definition kvminit : K M unit :=
  kpgtbl ← on_kern (on_pages (kvmmake etext trampoline));
  modify (set_kpt kpgtbl).
Definition kvminithart (c : nat) : K M unit :=
  on_sst (on_hart c sfence_vma);;
  x ← gets m_kpt;
  on_sst (on_hart c (w_satp (MAKE_SATP x)));;
  on_sst (on_hart c sfence_vma).
Definition procinit : K M unit :=
  lock_init pid_lock "nextpid";;
  lock_init wait_lock "wait_lock";;
  for_each (Z.to_nat NPROC) 0 (λ i, lock_init i "proc");;
  on_kern Proc.procinit.
Definition trapinit : K M unit := lock_init tickslock "time".
Definition fileinit : K M unit := lock_init ftable_lock "ftable".
(** What is in the three pages of the queue belongs to [m_disk], where it is
    cleared.  They are allocated before the registers of the device are looked at,
    which makes a difference only to the memory at a panic. *)
Definition virtio_disk_init : K M unit :=
  lock_init vdisk_lock "virtio_disk";;
  desc ← on_kern (on_pages kalloc);
  avail ← on_kern (on_pages kalloc);
  used ← on_kern (on_pages kalloc);
  on_disk (Virtio.virtio_disk_init R desc avail used).

Inductive call :=
  | Consoleinit | Printfinit | Putc (ch : Z)
  | Kinit | Kvminit | Kvminithart | Procinit | Trapinit | Trapinithart | Plicinit | Plicinithart
  | Binit | Iinit | Fileinit | Virtio_disk_init | Userinit | Started.

Definition exec (c : nat) (x : call) : K M unit :=
  match x with
  | Consoleinit => consoleinit
  | Printfinit => printfinit
  | Putc ch => on_uart (uartputc_sync ch)
  | Kinit => lock_init kmem_lock "kmem";; on_kern (on_pages (kinit kend))
  | Kvminit => kvminit
  | Kvminithart => kvminithart c
  | Procinit => procinit
  | Trapinit => trapinit
  | Trapinithart => on_sst (on_hart c (w_stvec kernelvec))
  | Plicinit => on_plic plicinit
  | Plicinithart => id ← on_sst (cpuid c); on_plic (plicinithart id)
  | Binit => lock_init bcache_lock "bcache";; on_kern (on_fs (on_store (bio binit)))
  | Iinit => lock_init itable_lock "itable";; on_kern (on_fs iinit)
  | Fileinit => fileinit
  | Virtio_disk_init => virtio_disk_init
  | Userinit => on_kern (userinit kend trampoline forkret)
  | Started => modify (set_started true)
  end.

(** What [printf] gives to [consputc]. *)
Definition output (fmt : list Z) (args : list arg) : list call :=
  match Printf.printf (λ ch, modify (λ l, l ++ [ch])) fmt args [] with
  | Ok (_, l) => Putc <$> l
  | _ => []
  end.
Definition NL : list Z := [10].
Definition main_first : list call :=
  [Consoleinit; Printfinit] ++ output NL [] ++ output (bytes "xv6 kernel is booting" ++ NL) [] ++ output NL [] ++
  [Kinit; Kvminit; Kvminithart; Procinit; Trapinit; Trapinithart; Plicinit; Plicinithart; Binit; Iinit; Fileinit;
   Virtio_disk_init; Userinit; Started].
Definition main_other (id : Z) : list call :=
  output (bytes "hart %d starting" ++ NL) [AInt id] ++ [Kvminithart; Trapinithart; Plicinithart].

(** ** The harts together *)
Inductive hloc := Main | Spin | Calls (l : list call) | Scheduler.

Definition main (c : nat) (l : hloc) : K M hloc :=
  match l with
  | Main => id ← on_sst (cpuid c); mret (if id =? 0 then Calls main_first else Spin)
  | Spin =>
      b ← gets m_started;
      if (b : bool) then id ← on_sst (cpuid c); mret (Calls (main_other id)) else mret Spin
  | Calls (x :: l) => exec c x;; mret (Calls l)
  | Calls [] => mret Scheduler
  | Scheduler => mret Scheduler
  end.

Record boot := Boot { b_mach : M; b_at : nat → hloc }.

(** A step of a hart, or the UART has sent a byte. *)
Inductive bstep (b : boot) : boot → Prop :=
  | bs_hart c l m : valid c → main c (b_at b c) (b_mach b) = Ok (l, m) → bstep b (Boot m (<[c := l]> (b_at b)))
  | bs_uart m : on_uart (modify (λ u, set_thr (thr u) (S (credit u)) u)) (b_mach b) = Ok (tt, m) → bstep b (Boot m (b_at b)).
End main.
