(* ===== verification/BootSpec.v ===== *)
(** * The kernel boots

    The calls of [main] return, whatever the interleaving of the harts; a hart
    turns on paging only with the complete page table of the kernel, and enters
    [scheduler] with its traps and device interrupts set up.  What the harts leave
    behind is the initial state of the scheduler of [Sched.v]. *)

From S2P Require Import Prelude Word Param Riscv Spinlock Bio Virtio Log LogTx Printf Kalloc Vm VmSpec KvmSpec Fs File Proc ProcInv ProcStep Plic Uart Sched SchedSpec Boot.

(** ** Memory that is handed out *)
Section memory.
Context (kend : Z).

(** At most [k] pages are taken from the free ones, and pages in use are kept. *)
Record taken (k : nat) (O : gset Z) (l : list Z) (s s' : pst) (O' : gset Z) (l' : list Z) : Prop := {
  tk_owned : Owned kend s' O' l';
  tk_sub : O ⊆ O';
  tk_frame : frame O s s';
  tk_len : (length l ≤ length l' + k)%nat;
}.

Lemma taken_trans k1 k2 O l s O1 l1 s1 O2 l2 s2 : taken k1 O l s s1 O1 l1 → taken k2 O1 l1 s1 s2 O2 l2 → taken (k1 + k2) O l s s2 O2 l2.
Proof using Type.
  intros [A1 A2 A3 A4] [B1 B2 B3 B4]. split; [done|by etrans| |lia]. intros p Hp. rewrite B3 by set_solver. by apply A3.
Qed.
Lemma taken_le k k' O l s s' O' l' : (k ≤ k')%nat → taken k O l s s' O' l' → taken k' O l s s' O' l'.
Proof using Type. intros Hk [A1 A2 A3 A4]. split; [done..|lia]. Qed.

Lemma kinit_free s : 0 < kend → kend + 200 * PGSIZE ≤ PHYSTOP → KInv kend s [] → (∀ p, page_ok kend p → is_Some (pages s !! p)) →
  wp (kinit kend) (λ _ s', ∃ l, Owned kend s' ∅ l ∧ (199 ≤ length l)%nat) s.
Proof using Type.
  intros Hk Hend H1 H2. assert (0 < kend < PHYSTOP) as Hr by (unfold PGSIZE in Hend; lia).
  eapply wp_mono; [by apply kinit_spec|]. intros [] s' (l & Hl & Hall). exists l. split.
  - split_and!; [done| | |by intros p ?%elem_of_empty].
    + intros p. rewrite <-Hall. split; [by left|]. intros [?|Hp]; [done|by apply elem_of_empty in Hp].
    + intros p _. apply not_elem_of_empty.
  - destruct (PGROUNDUP_spec kend) as [Hal Hup]; [pages_lia|].
    assert (length l = Z.to_nat ((PHYSTOP - PGROUNDUP kend) / PGSIZE)) as ->.
    { set (n := Z.to_nat _). transitivity (length (page_seq (PGROUNDUP kend) n)); [|unfold page_seq; by rewrite length_fmap, length_seq].
      apply Permutation_length, NoDup_Permutation; [by apply (ki_nodup _ _ _ Hl)| |].
      - apply NoDup_fmap_2; [|apply NoDup_seq]. intros i j. unfold PGSIZE. lia.
      - intros p. rewrite Hall. by apply page_ok_seq. }
    pose proof (Z.div_le_mono (199 * PGSIZE) (PHYSTOP - PGROUNDUP kend) PGSIZE ltac:(done) ltac:(unfold PGSIZE in *; lia)) as Hd.
    rewrite Z.div_mul in Hd by done. lia.
Qed.

Lemma kalloc_taken s O l : Owned kend s O l → l ≠ [] →
  wp kalloc (λ q s', q ≠ 0 ∧ page_ok kend q ∧ (q ∉ O) ∧ ∃ l', taken 1 O l s s' ({[q]} ∪ O) l') s.
Proof using Type.
  intros Ho Hl. pose proof Ho as (Hinv & Hpart & Hdis & _). pose proof (kalloc_spec kend s l Hinv) as H1.
  pose proof (Owned_alloc kend s _ l Ho) as H2. apply wp_ok in H1 as (q & s' & Hrun & H1). eapply (wp_elim _ _ _ _ _) in H2; [|exact Hrun].
  apply wp_ok. exists q, s'. split; [exact Hrun|]. clear Hrun. destruct l as [|p l]; [done|]. destruct H1 as (-> & _ & Hpg).
  destruct H2 as [(_ & ? & _)|(Hq0 & l' & [= <-] & Ho')]; [done|]. pose proof (Hdis p ltac:(by left)) as Hnot.
  split_and!; [done|apply Hpart; left; by left|done|]. exists l. split; [done|set_solver| |simpl; lia].
  intros r Hr. rewrite Hpg, lookup_insert_ne; [done|]. by intros ->.
Qed.

Lemma word_put_owned s O l p i w : Owned kend s O l → p ∈ O → 0 ≤ i < 512 →
  wp (word_put p i w) (λ _ s', Owned kend s' O l ∧ frame (O ∖ {[p]}) s s') s.
Proof using Type.
  intros Ho Hp Hi. pose proof Ho as ([_ _ _ Hsz] & _ & _ & Hram). destruct (Hram p Hp) as [x Hx]. eapply wp_word_put; [exact Hx|]. split.
  - apply Owned_write; [done|done|]. pose proof (Hsz _ _ Hx). unfold word_off, PGSIZE in *. rewrite length_putn; lia.
  - intros q Hq. cbn [pages]. rewrite lookup_insert_ne by set_solver. done.
Qed.

(** [mappages] with enough free pages. *)
Lemma mappages_enough s root A F l va sz v n pa perm :
  VInv kend s root A F l → va = v * PGSIZE → sz = Z.of_nat n * PGSIZE → 0 ≤ v → (0 < n)%nat → (v + Z.of_nat n) * PGSIZE ≤ MAXVA →
  pa mod PGSIZE = 0 → 0 ≤ pa → pa + sz ≤ 2 ^ 56 → leaf_perm perm →
  (∀ k, v ≤ k < v + Z.of_nat n → leaf A !! k = None) → (2 * n < length l)%nat →
  wp (mappages root va sz pa perm) (λ r s', r = 0 ∧ ∃ A' l',
    VInv kend s' root A' F l' ∧ leaf A' = map_pages n v pa (Z.lor perm PTE_V) (leaf A) ∧ frame F s s' ∧ (length l ≤ length l' + 2 * n)%nat) s.
Proof using Type.
  intros HV Eva Esz Hv Hn Hm Hal H0 H56 Hp Hf Hl. subst va sz. eapply wp_mono; [by apply (mappages_spec kend s root A F l v n pa perm)|].
  intros r s' (A' & l' & j & [HV' Hl' Hfr Hlen _] & [[-> ->]|(_ & _ & ->)]); [|simpl in Hlen; lia]. split; [done|]. by exists A', l'.
Qed.

(** ** The memory of the first process *)
Lemma uvmfirst_enough s pt A O l code : VInv kend s pt A O l → leaf A !! 0 = None → Z.of_nat (length code) < PGSIZE → (4 ≤ length l)%nat →
  wp (uvmfirst pt code) (λ _ s', ∃ O' l', taken 3 O l s s' O' l') s.
Proof using Type.
  intros HV H0 Hc Hl. unfold uvmfirst. apply wp_bind, wp_panic_if; [by apply Z.leb_gt|].
  eapply wp_seq; [by apply (VInv_kalloc kend s pt A O l)|].
  intros q s1 [(-> & -> & ->)|(Hq0 & Hok & HqA & HqO & l' & -> & HV1 & Hpg)]; [simpl in Hl; lia|]. simpl in Hl.
  apply wp_bind, wp_page_put; [by rewrite Hpg; apply lookup_insert_is_Some'; left|].
  pose proof (VInv_write kend _ _ _ _ _ q (const_page 0) HV1 ltac:(set_solver) (length_const_page 0)) as HV2. pose proof Hok as (Hal & [_ Hr] & Hq1).
  unfold PHYSTOP, KERNBASE in Hr.
  eapply wp_seq; [apply (mappages_enough _ pt A ({[q]} ∪ O) l' _ _ 0 1 q (Z.lor PTE_W (Z.lor PTE_R (Z.lor PTE_X PTE_U))) HV2); try done; unfold PGSIZE; try lia|].
  { intros k Hk. by replace k with 0 by lia. }
  cbv beta. intros r s3 (-> & A3 & l3 & HV3 & _ & Hfr3 & Hl3). unfold page_write. destruct (VInv_has _ _ _ _ _ _ q HV3 ltac:(set_solver)) as [x Hx].
  pose proof (vi_owned _ _ _ _ _ _ HV3) as ([_ _ _ Hsz] & _). pose proof (Hsz _ _ Hx) as Hlx.
  apply wp_bind. eapply wp_page_get; [exact Hx|]. rewrite (proj2 (Nat.ltb_ge _ _)) by (rewrite Hlx; unfold PGSIZE in *; lia).
  apply wp_page_put; [by eexists|]. eexists _, l3.
  eapply VInv_write in HV3; [|apply elem_of_union_l, elem_of_singleton; reflexivity|]; [split; [exact (vi_owned _ _ _ _ _ _ HV3)|set_solver| |simpl; lia]|].
  - intros p Hp. cbn [pages]. rewrite lookup_insert_ne by set_solver. rewrite Hfr3 by set_solver. cbn [pages].
    rewrite lookup_insert_ne by set_solver. rewrite Hpg, lookup_insert_ne by set_solver. done.
  - rewrite length_splice; [done|]. rewrite Hlx. unfold PGSIZE in *. lia.
Qed.

Context (trampoline : Z).
Hypotheses (Htal : trampoline mod PGSIZE = 0) (Htr : 0 ≤ trampoline < PHYSTOP).

Lemma proc_pagetable_enough s O l tf : Owned kend s O l → page_ok kend tf → (6 ≤ length l)%nat →
  wp (proc_pagetable kend trampoline tf) (λ pt s', pt ≠ 0 ∧ ∃ A' l', VInv kend s' pt A' O l' ∧ leaf A' !! 0 = None ∧ frame O s s' ∧
    (length l ≤ length l' + 5)%nat) s.
Proof using Htal Htr.
  intros Ho Htf Hl. unfold proc_pagetable. unfold PHYSTOP, KERNBASE in Htr. destruct (page_ok_range _ _ Htf) as [Htfal _].
  destruct Htf as (_ & [_ Htf] & Htf0). unfold PHYSTOP, KERNBASE in Htf.
  eapply wp_seq; [by apply (uvmcreate_spec kend s O l)|]. intros pt s1 [(_ & -> & _)|(Hpt & Hfr1 & l1 & -> & HV1)]; [simpl in Hl; lia|].
  rewrite (proj2 (Z.eqb_neq _ _)) by done. simpl in Hl.
  eapply wp_seq; [apply (mappages_enough s1 pt _ O l1 _ _ (2 ^ 26 - 1) 1 trampoline (Z.lor PTE_R PTE_X) HV1); try done; unfold PGSIZE; try lia|].
  cbv beta. intros r s2 (-> & A2 & l2 & HV2 & E2 & Hfr2 & Hl2). change (0 <? 0) with false. cbv iota.
  eapply wp_seq; [apply (mappages_enough s2 pt _ O l2 _ _ (2 ^ 26 - 2) 1 tf (Z.lor PTE_R PTE_W) HV2); try done; unfold PGSIZE; try lia|].
  { intros k Hk. rewrite E2, lookup_map_pages, decide_False by lia. apply lookup_empty. }
  cbv beta. intros r s3 (-> & A3 & l3 & HV3 & E3 & Hfr3 & Hl3). change (0 <? 0) with false. cbv iota. apply wp_ret. split; [done|]. exists A3, l3.
  split_and!; [done| |by transitivity s2; [transitivity s1|]|simpl; lia].
  rewrite E3, E2, !lookup_map_pages, !decide_False by lia. apply lookup_empty.
Qed.

End memory.

(** ** [userinit] returns *)
Section first.
Context {B : Type} `{!BlockStore B} (kend trampoline forkret : Z).
Hypotheses (Htal : trampoline mod PGSIZE = 0) (Htr : 0 ≤ trampoline < PHYSTOP).
Abbreviation P := (pcb B).

Definition kmem (s : P) : pst := umem (below (files s)).
Definition with_mem (x : pst) (s : P) : P :=
  Pcb (Fls (Fst (store (below (files s))) (sb (below (files s))) (itable (below (files s))) x) (ftable (files s)))
    (procs s) (nextpid s) (initproc s) (ticks s).
Lemma wp_on_pages {A} (m : K pst A) (Q : A → P → Prop) s : wp m (λ a x, Q a (with_mem x s)) (kmem s) → wp (on_pages m) Q s.
Proof using Type. intros H. unfold on_pages, on_fs, on_files, on_below, on_mem. by repeat apply wp_lift. Qed.

(** What is neither memory nor the process table. *)
Definition rest (s : P) : B * superblock * list inode * list file :=
  (store (below (files s)), sb (below (files s)), itable (below (files s)), ftable (files s)).

Lemma allocproc_enough s x O l : procs s !! 0%nat = Some x → p_state x = UNUSED → nextpid s = 1 → Owned kend (kmem s) O l → (7 ≤ length l)%nat →
  wp (allocproc kend trampoline forkret) (λ r s', r = Some 0%nat ∧ rest s' = rest s ∧ ∃ y A l', procs s' = <[0%nat := y]> (procs s) ∧
    p_context y = (forkret, p_kstack x + PGSIZE) ∧ (p_trapframe y ∉ O) ∧ VInv kend (kmem s') (p_pagetable y) A ({[p_trapframe y]} ∪ O) l' ∧
    leaf A !! 0 = None ∧ frame O (kmem s) (kmem s') ∧ (length l ≤ length l' + 6)%nat) s.
Proof using Htal Htr.
  intros Hx Hu Hn Ho Hl. unfold allocproc. apply wp_bind, wp_gets. destruct (procs s) as [|x0 t] eqn:Ep; [done|]. injection Hx as ->.
  cbn [unused_proc]. rewrite decide_True by done. unfold allocpid. apply wp_bind, wp_bind, wp_gets. rewrite Hn. change (2 ^ 31 - 1 <=? 1) with false. cbv iota.
  apply wp_bind, wp_modify, wp_ret. apply wp_bind. eapply wp_pset; [simpl; by rewrite Ep|].
  apply wp_bind, wp_on_pages. eapply wp_mono; [apply (kalloc_taken kend _ O l); [exact Ho|destruct l; [simpl in Hl; lia|done]]|].
  intros tf m1 (Htf & Hok & HtfO & l1 & [Ho1 _ Hfr1 Hl1]).
  apply wp_bind. eapply wp_pset; [simpl; by rewrite Ep|]. rewrite (proj2 (Z.eqb_neq _ _)) by done.
  apply wp_bind, wp_on_pages. eapply wp_mono; [apply (proc_pagetable_enough kend trampoline Htal Htr _ _ l1 tf Ho1 Hok); lia|].
  cbv beta. intros pt m2 (Hpt & A & l2 & HV & Hz & Hfr2 & Hl2). apply wp_bind. eapply wp_pset; [simpl; by rewrite Ep|].
  rewrite (proj2 (Z.eqb_neq _ _)) by done. apply wp_bind. eapply wp_pset; [simpl; by rewrite Ep|]. apply wp_ret.
  split; [done|]. split; [done|]. eexists _, A, l2. split; [simpl; by rewrite Ep|]. split_and!; try done; [|lia].
  intros p Hp. rewrite Hfr2 by set_solver. by apply Hfr1.
Qed.

Lemma procinit_total (s : P) : length (procs s) = Z.to_nat NPROC →
  wp Proc.procinit (λ _ s', files s' = files s ∧ nextpid s' = nextpid s ∧ length (procs s') = Z.to_nat NPROC ∧
    Forall (λ x, p_state x = UNUSED) (procs s')) s.
Proof using Type.
  intros HL. unfold Proc.procinit.
  apply (wp_for_each (λ j s', files s' = files s ∧ nextpid s' = nextpid s ∧ length (procs s') = Z.to_nat NPROC ∧
    ∀ k z, Z.of_nat k < j → procs s' !! k = Some z → p_state z = UNUSED)).
  - split_and!; [done..|lia].
  - intros j s1 Hj (E1 & E2 & HL1 & HU). destruct (lookup_lt_is_Some_2 (procs s1) (Z.to_nat j)) as [x Hx]; [lia|].
    eapply wp_pset; [exact Hx|]. split_and!; [done|done|cbn; by rewrite length_insert|]. intros k z Hk. cbn. rewrite list_lookup_insert_Some.
    intros [(<- & <- & _)|[Hne Hz]]; [done|]. apply (HU k z); [lia|done].
  - intros s1 (E1 & E2 & HL1 & HU). split_and!; [done..|]. apply Forall_lookup. intros k z Hz. apply (HU k z); [|done].
    apply lookup_lt_Some in Hz. lia.
Qed.
Lemma iinit_total (s : fst B pst) : length (itable s) = Z.to_nat NINODE → Forall (λ ip, i_ref ip = 0) (itable s) →
  wp iinit (λ _ s', ∃ t, s' = Fst (store s) (sb s) t (umem s) ∧ length t = Z.to_nat NINODE ∧ Forall (λ ip, i_ref ip = 0) t) s.
Proof using Type.
  intros HL Hr. unfold iinit. apply (wp_for_each (λ j s', ∃ t, s' = Fst (store s) (sb s) t (umem s) ∧ length t = Z.to_nat NINODE ∧
    Forall (λ ip, i_ref ip = 0) t)).
  - exists (itable s). by destruct s.
  - intros j s1 Hj (t & -> & HLt & Hrt). destruct (lookup_lt_is_Some_2 t (Z.to_nat j)) as [x Hx]; [lia|]. unfold iset, ig.
    apply wp_bind, wp_bind, wp_gets. cbn [itable]. rewrite Hx. apply wp_ret, wp_modify. cbn [store sb itable umem]. eexists. split; [done|].
    split; [by rewrite length_alter|]. by apply Forall_alter.
  - done.
Qed.

Lemma iget_scan_free dev inum t i : Forall (λ ip, i_ref ip = 0) t → iget_scan dev inum t i (Some 0%nat) = (None, Some 0%nat).
Proof using Type. intros Ht. revert i. induction Ht as [|ip t Hip Ht IH]; intros i; [done|]. cbn [iget_scan]. rewrite Hip. apply IH. Qed.

Lemma namei_root s (Q : option nat → fst B pst → Prop) : itable s ≠ [] → Forall (λ ip, i_ref ip = 0) (itable s) →
  (∀ t, Q (Some 0%nat) (Fst (store s) (sb s) t (umem s))) → wp (namei (copyout 0) 0 [SLASH]) Q s.
Proof using Type.
  intros Hne Ht HQ. unfold namei, namex. apply wp_bind, wp_bind. change (SLASH =? SLASH) with true. cbv iota.
  unfold iget. apply wp_bind, wp_gets. destruct (itable s) as [|ip t] eqn:Ei; [done|]. apply Forall_cons in Ht as [Hip Ht].
  cbn [iget_scan]. rewrite Hip. cbn [Z.ltb Z.compare andb Z.eqb]. rewrite iget_scan_free by done.
  apply wp_bind. unfold iset, ig. apply wp_bind, wp_bind, wp_gets. rewrite Ei. apply wp_ret, wp_modify, wp_ret.
  cbn. apply wp_ret. apply HQ.
Qed.

Lemma userinit_enough s x O l : procs s !! 0%nat = Some x → p_state x = UNUSED → nextpid s = 1 → Owned kend (kmem s) O l → (11 ≤ length l)%nat →
  itable (below (files s)) ≠ [] → Forall (λ ip, i_ref ip = 0) (itable (below (files s))) →
  wp (userinit kend trampoline forkret) (λ _ s', store (below (files s')) = store (below (files s)) ∧
    (∃ y, procs s' = <[0%nat := y]> (procs s) ∧ p_state y = RUNNABLE ∧ p_context y = (forkret, p_kstack x + PGSIZE)) ∧
    ∃ O' l', taken kend 10 O l (kmem s) (kmem s') O' l') s.
Proof using Htal Htr.
  intros Hx Hu Hn Ho Hl Hi Hr. unfold userinit. eapply wp_seq; [apply (allocproc_enough s x O l); try done; lia|].
  intros r s1 (-> & Hrest & y & A & l1 & Hps & Hctx & Htf & HV & Hz & Hfr & Hl1). apply wp_bind, wp_modify.
  pose proof (lookup_lt_Some _ _ _ Hx) as Hlt0. assert (procs s1 !! 0%nat = Some y) as Hy by (rewrite Hps; by apply list_lookup_insert_eq).
  apply wp_bind. eapply wp_pget; [exact Hy|]. unfold id. apply wp_bind, wp_on_pages.
  eapply wp_mono; [apply (uvmfirst_enough kend _ _ A _ l1 initcode HV Hz); [by vm_compute|lia]|]. intros [] m2 (O2 & l2 & [Ho2 Hs2 Hfr2 Hl2]).
  apply wp_bind. eapply wp_pset; [exact Hy|].
  apply wp_bind, wp_on_pages. eapply wp_mono; [apply (word_put_owned kend m2 O2 l2 (p_trapframe y) TF_epc 0 Ho2); [set_solver|done]|].
  intros [] m3 [Ho3 Hfr3]. apply wp_bind, wp_on_pages.
  eapply wp_mono; [apply (word_put_owned kend m3 O2 l2 (p_trapframe y) TF_sp PGSIZE Ho3); [set_solver|done]|]. intros [] m4 [Ho4 Hfr4].
  pose proof (lookup_lt_Some _ _ _ Hy) as Hlt.
  apply wp_bind. eapply wp_pset; [simpl; by apply list_lookup_insert_eq|].
  apply wp_bind. unfold on_fs, on_files, on_below. apply wp_lift, wp_lift. injection Hrest as E1 E2 E3 E4.
  apply namei_root; [cbn; by rewrite E3|cbn; by rewrite E3|]. intros t. cbn [store sb umem].
  apply wp_bind. eapply wp_pset; [simpl; apply list_lookup_insert_eq; by rewrite ?length_insert|].
  eapply wp_pset; [simpl; apply list_lookup_insert_eq; by rewrite ?length_insert|].
  split; [exact E1|]. split; [eexists; split; [simpl; rewrite Hps, !list_insert_insert_eq; reflexivity|by split]|]. exists O2, l2. change (kmem _) with m4 at 2. split; [done|set_solver| |lia].
  intros p Hp. rewrite Hfr4, Hfr3, Hfr2 by set_solver. by apply Hfr.
Qed.
End first.

(** ** The start of the machine *)

(** A disk that answers [virtio_disk_init]. *)
Record disk_present (R : Z → Z) : Prop := {
  dp_id : R VIRTIO_MMIO_MAGIC_VALUE = 0x74726976 ∧ R VIRTIO_MMIO_VERSION = 2 ∧ R VIRTIO_MMIO_DEVICE_ID = 2 ∧ R VIRTIO_MMIO_VENDOR_ID = 0x554d4551;
  dp_features : Z.land (R VIRTIO_MMIO_STATUS) VIRTIO_CONFIG_S_FEATURES_OK ≠ 0;
  dp_ready : R VIRTIO_MMIO_QUEUE_READY = 0;
  dp_queue : NUM ≤ R VIRTIO_MMIO_QUEUE_NUM_MAX;
}.

Section boot.
Context {D : Type} `{!PlicDev D, !PlicLaws D} (kend etext trampoline forkret kernelvec : Z) (R : Z → Z).
Abbreviation M := (machine D).
Implicit Types m : M.

Definition mem m : pst := kmem (m_kern m).
Definition inodes m : list inode := itable (below (files (m_kern m))).
Definition cache m : bst := bc (store (below (files (m_kern m)))).

(** The harts at [main], after [start]; memory not yet handed out, and static
    storage zero. *)
Record powered (b : @boot D) : Prop := {
  pw_at c : b_at b c = Main;
  pw_hart c : valid c → ∃ h, harts (m_sst (b_mach b)) !! c = Some h ∧ regs h Reg.tp = Z.of_nat c ∧ csrs h Csr.satp = 0;
  pw_cpu c : noff (cpus (m_sst (b_mach b)) c) = 0;
  pw_lock k : locked (locks (m_sst (b_mach b)) k) = 0 ∧ lk_cpu (locks (m_sst (b_mach b)) k) = None;
  pw_mem : KInv kend (mem (b_mach b)) [] ∧ ∀ p, page_ok kend p → is_Some (pages (mem (b_mach b)) !! p);
  pw_proc : length (procs (m_kern (b_mach b))) = Z.to_nat NPROC ∧ nextpid (m_kern (b_mach b)) = 1;
  pw_cache : ∃ z d pid, cache (b_mach b) = static z d pid;
  pw_inodes : length (inodes (b_mach b)) = Z.to_nat NINODE ∧ Forall (λ ip, i_ref ip = 0) (inodes (b_mach b));
  pw_uart : uart_panicked (m_uart (b_mach b)) = false;
  pw_started : m_started (b_mach b) = false;
}.

Inductive breach : @boot D → Prop :=
  | br_init b : powered b → breach b
  | br_step b b' : breach b → bstep kend etext trampoline forkret kernelvec R b b' → breach b'.

(** The kernel's page table is complete; [O] are the pages in use, [l] the free ones. *)
Record mapped_by (A : aspace) (stacks : list Z) (O : gset Z) (l : list Z) (x : pst) (root : Z) : Prop := {
  mb_space : Space kend (pages x) root A;
  mb_owned : Owned kend x O l;
  mb_tables : tables A ⊆ O;
  mb_stacks : length stacks = 64%nat ∧ NoDup stacks ∧ ∀ p, p ∈ stacks → page_ok kend p;
  mb_leaf v : leaf A !! v = kernel_page etext trampoline stacks v;
}.
Definition mapped (n : nat) m : Prop := ∃ A stacks O l, mapped_by A stacks O l (mem m) (m_kpt m) ∧ (n ≤ length l)%nat.

(** The machine when hart 0 has [r] calls left. *)
Record stage (r : nat) m : Prop := {
  sg_locks k : locked (locks (m_sst m) k) = 0 ∧ lk_cpu (locks (m_sst m) k) = None;
  sg_cpus c : noff (cpus (m_sst m) c) = 0;
  sg_uart : uart_panicked (m_uart m) = false;
  sg_started : m_started m = (r =? 0)%nat;
  sg_power : (14 ≤ r)%nat → KInv kend (mem m) [] ∧ ∀ p, page_ok kend p → is_Some (pages (mem m) !! p);
  sg_free : r = 13%nat → ∃ l, Owned kend (mem m) ∅ l ∧ (199 ≤ length l)%nat;
  sg_map : (3 ≤ r ≤ 12)%nat → mapped 14 m;
  sg_disk : r = 2%nat → mapped 11 m;
  sg_ready : (r ≤ 1)%nat → mapped 0 m;
  sg_table : length (procs (m_kern m)) = Z.to_nat NPROC;
  sg_pid : (2 ≤ r)%nat → nextpid (m_kern m) = 1;
  sg_unused : (2 ≤ r ≤ 10)%nat → Forall (λ x, p_state x = UNUSED) (procs (m_kern m));
  sg_first : (r ≤ 1)%nat → ∃ y t, procs (m_kern m) = y :: t ∧ p_state y = RUNNABLE ∧ (p_context y).1 = forkret ∧ Forall (λ x, p_state x = UNUSED) t;
  sg_cache : (6 ≤ r)%nat → ∃ z d pid, cache m = static z d pid;
  sg_bufs : (r ≤ 5)%nat → ∃ d, BioSpec.PInv (cache m) (dread d) ∅ ∅;
  sg_inodes : (2 ≤ r)%nat → length (inodes m) = Z.to_nat NINODE ∧ Forall (λ ip, i_ref ip = 0) (inodes m);
  sg_prio : (r ≤ 7)%nat → word (m_plic m) (PLIC_PRIORITY + UART0_IRQ * 4) = 1 ∧ word (m_plic m) (PLIC_PRIORITY + VIRTIO0_IRQ * 4) = 1;
}.
Definition enabled (c : nat) (d : D) : Prop :=
  word d (PLIC_SENABLE (Z.of_nat c)) = Z.lor (Z.shiftl 1 UART0_IRQ) (Z.shiftl 1 VIRTIO0_IRQ) ∧ word d (PLIC_SPRIORITY (Z.of_nat c)) = 0.
(** A hart that has, or has not, turned on paging, set its trap vector and enabled
    the devices. *)
Definition hart_at (c : nat) (kv tv pl : bool) m : Prop := ∃ h, harts (m_sst m) !! c = Some h ∧ regs h Reg.tp = Z.of_nat c ∧
  csrs h Csr.satp = (if kv then MAKE_SATP (m_kpt m) else 0) ∧ (tv = true → csrs h Csr.stvec = kernelvec) ∧ (pl = true → enabled c (m_plic m)).

(** *** The calls of hart 0 *)
Hypotheses (HL : linked kend etext trampoline) (Hend : kend + 200 * PGSIZE ≤ PHYSTOP) (HR : disk_present R).

Definition first_at (r : nat) m : Prop := stage r m ∧ hart_at 0 (r <=? 11)%nat (r <=? 8)%nat (r <=? 6)%nat m.
Definition same_harts m m' : Prop := ∀ c, c ≠ 0%nat → harts (m_sst m') !! c = harts (m_sst m) !! c.
Abbreviation first_call x r := (∀ m, first_at (S r) m →
  wp (exec kend etext trampoline forkret kernelvec R 0 x) (λ _ m', first_at r m' ∧ same_harts m m') m).

(** Fields that a call leaves alone, or that do not matter yet or any more. *)
Ltac keep := solve [done | intros; lia | intros; match goal with H : _ → _ |- _ => apply H; lia end
  | rewrite (proj2 (Nat.eqb_neq _ 0)) by lia; done].
Ltac stage_of H := destruct H; split; cbn [m_sst m_kern m_uart m_plic m_disk m_devsw m_locking m_kpt m_started harts cpus locks]; try keep.

Lemma locks_set (f : Z → spinlock) l name k : (∀ k, locked (f k) = 0 ∧ lk_cpu (f k) = None) →
  locked ((<[l := Spinlock 0 name None]> f : Z → spinlock) k) = 0 ∧ lk_cpu ((<[l := Spinlock 0 name None]> f : Z → spinlock) k) = None.
Proof using Type. intros H. destruct (decide (k = l)) as [->|]; [by rewrite fn_lookup_insert|by rewrite fn_lookup_insert_ne]. Qed.
Lemma wp_lock_init l name (Q : unit → M → Prop) r m : stage r m →
  (∀ m', stage r m' → harts (m_sst m') = harts (m_sst m) → (m_kern m', m_uart m', m_plic m', m_disk m', m_kpt m') =
    (m_kern m, m_uart m, m_plic m, m_disk m, m_kpt m) → Q tt m') → wp (lock_init l name) Q m.
Proof using Type.
  intros H HQ. unfold lock_init, on_sst, initlock. apply wp_lift, wp_modify, HQ; [|done|done].
  destruct H. split; try done. intros k. cbn. by apply locks_set.
Qed.

Lemma hart_at_same c kv tv pl m m' : hart_at c kv tv pl m → harts (m_sst m') !! c = harts (m_sst m) !! c →
  (kv = true → m_kpt m' = m_kpt m) → (pl = true → enabled c (m_plic m) → enabled c (m_plic m')) → hart_at c kv tv pl m'.
Proof using Type.
  intros (h & Hh & Ht & Hs & Hv & Hp) E Ek Ep. exists h. rewrite E. split_and!; [done|done| |done|tauto].
  destruct kv; [by rewrite Ek|done].
Qed.
(** A call that changes neither the harts nor the page table nor the controller. *)
Lemma first_quiet r m m' : first_at (S r) m → stage r m' → harts (m_sst m') = harts (m_sst m) → m_kpt m' = m_kpt m → m_plic m' = m_plic m →
  (r ∉ [11; 8; 6])%nat → first_at r m' ∧ same_harts m m'.
Proof using Type.
  intros [_ Hh] H E1 E2 E3 Hr. rewrite !not_elem_of_cons in Hr. split; [split; [done|]|intros c _; by rewrite E1].
  eapply hart_at_same in Hh; [|by rewrite E1|done|by rewrite E3].
  assert (∀ k, r ≠ k → (r <=? k)%nat = (S r <=? k)%nat) as Hk.
  { intros k Hk. apply eq_bool_prop_intro. rewrite !Is_true_true, !Nat.leb_le. lia. }
  rewrite !Hk by tauto. done.
Qed.
Ltac quiet m := apply (first_quiet _ m); [by split| |cbn in *; congruence|cbn in *; congruence|cbn in *; congruence|rewrite !not_elem_of_cons; split_and!; [lia..|apply not_elem_of_nil]].
Ltac lock m' H := eapply wp_lock_init; [eassumption|]; intros m' H ? [= ? ? ? ? ?].

Lemma first_printfinit r : (15 ≤ r)%nat → first_call Printfinit r.
Proof using Type.
  intros Hr m [H Hh]. cbn [exec]. unfold printfinit. apply wp_bind. lock m1 HS1. apply wp_modify. quiet m. by stage_of HS1.
Qed.
Lemma first_consoleinit r : (15 ≤ r)%nat → first_call Consoleinit r.
Proof using Type.
  intros Hr m [H Hh]. cbn [exec]. unfold consoleinit. apply wp_bind. lock m1 HS1. apply wp_bind. unfold on_uart. apply wp_lift.
  unfold uartinit, WriteReg. cbn [Z.eqb THR IER LCR FCR]. wp_steps.
  match goal with |- wp _ _ ?x => set (m2 := x) end. assert (stage (S r) m2) as HS2 by (by stage_of HS1). lock m3 HS3. apply wp_modify. quiet m. by stage_of HS3.
Qed.
Lemma first_trapinit : first_call Trapinit 9.
Proof using Type. intros m [H Hh]. cbn [exec]. unfold trapinit. lock m1 HS1. quiet m. by stage_of HS1. Qed.
Lemma first_fileinit : first_call Fileinit 3.
Proof using Type. intros m [H Hh]. cbn [exec]. unfold fileinit. lock m1 HS1. quiet m. by stage_of HS1. Qed.
Lemma first_started : first_call Started 0.
Proof using Type. intros m [H Hh]. cbn [exec]. apply wp_modify. quiet m. by stage_of H. Qed.

(** *** Memory *)
Lemma first_kinit : first_call Kinit 13.
Proof using All.
  intros m [H Hh]. cbn [exec]. apply wp_bind. lock m1 HS1. unfold on_kern. apply wp_lift, wp_on_pages.
  destruct (sg_power _ _ HS1 ltac:(lia)) as [HP1 HP2]. pose proof (lk_text _ _ _ HL) as Ht. unfold KERNBASE in Ht.
  eapply wp_mono; [apply (kinit_free kend _ ltac:(lia) Hend HP1 HP2)|]. intros [] x Hx. quiet m. by stage_of HS1.
Qed.
Lemma first_kvminit : first_call Kvminit 12.
Proof using All.
  intros m [H Hh]. cbn [exec]. unfold kvminit, on_kern. apply wp_bind, wp_lift, wp_on_pages. destruct (sg_free _ _ H eq_refl) as (l & Ho & Hl).
  eapply wp_mono; [apply (kvmmake_spec kend _ ∅ l Ho ltac:(lia) etext trampoline HL)|].
  intros root x (stacks & A & l' & Hlen & Hnd & Hok & HV & _ & Hcount & Hleaf). apply wp_modify. split; [split|intros c Hc; done].
  - stage_of H. intros _. exists A, stacks, (tables A ∪ (list_to_set stacks ∪ ∅)), l'.
    split; [|lia]. split; [by apply (vi_space _ _ _ _ _ _ HV)|by apply (vi_owned _ _ _ _ _ _ HV)|set_solver| |done].
    split_and!; [done|done|]. intros p Hp. by apply Hok.
  - destruct Hh as (h & E1 & E2 & E3 & E4 & E5). by exists h.
Qed.

(** *** Calls on a hart *)
Definition with_hart (c : nat) (h : hart) m : M :=
  Machine (set_hart c h (m_sst m)) (m_kern m) (m_uart m) (m_plic m) (m_disk m) (m_devsw m) (m_locking m) (m_kpt m) (m_started m).
Lemma with_hart_twice c h h' m : with_hart c h' (with_hart c h m) = with_hart c h' m.
Proof using Type. unfold with_hart, set_hart. cbn. by rewrite insert_insert_eq. Qed.
Lemma wp_on_sst_hart {A} c (f : K hart A) (Q : A → M → Prop) m h : harts (m_sst m) !! c = Some h →
  wp f (λ a h', Q a (with_hart c h' m)) h → wp (on_sst (on_hart c f)) Q m.
Proof using Type. intros Hh HQ. unfold on_sst, on_hart. apply wp_lift, wp_bind, wp_gets. rewrite Hh. by apply wp_lift. Qed.
Lemma stage_hart r c h m : stage r m → stage r (with_hart c h m).
Proof using Type. intros H. by stage_of H. Qed.

Lemma wp_kvminithart c (Q : unit → M → Prop) m h : harts (m_sst m) !! c = Some h →
  Q tt (with_hart c (set_csr Csr.satp (MAKE_SATP (m_kpt m)) h) m) → wp (kvminithart c) Q m.
Proof using Type.
  intros Hh HQ. unfold kvminithart, sfence_vma, w_satp, csrw. apply wp_bind, (wp_on_sst_hart _ _ _ _ h Hh), wp_ret, wp_bind, wp_gets, wp_bind.
  eapply wp_on_sst_hart; [apply lookup_insert_eq|]. apply wp_modify. rewrite with_hart_twice. cbn [m_kpt with_hart].
  eapply wp_on_sst_hart; [apply lookup_insert_eq|]. apply wp_ret. by rewrite with_hart_twice.
Qed.
Lemma wp_trapinithart c (Q : unit → M → Prop) m h : harts (m_sst m) !! c = Some h →
  Q tt (with_hart c (set_csr Csr.stvec kernelvec h) m) → wp (on_sst (on_hart c (w_stvec kernelvec))) Q m.
Proof using Type. intros Hh HQ. eapply wp_on_sst_hart; [exact Hh|]. by apply wp_modify. Qed.

Lemma first_kvminithart : first_call Kvminithart 11.
Proof using Type.
  intros m [H (h & E1 & E2 & E3 & E4 & E5)]. cbn [exec]. eapply wp_kvminithart; [exact E1|]. split; [split|].
  - by stage_of H.
  - exists (set_csr Csr.satp (MAKE_SATP (m_kpt m)) h). cbn. rewrite lookup_insert_eq, fn_lookup_insert. by split_and!.
  - intros c Hc. cbn. by rewrite lookup_insert_ne.
Qed.
Lemma first_trapinithart : first_call Trapinithart 8.
Proof using Type.
  intros m [H (h & E1 & E2 & E3 & E4 & E5)]. cbn [exec]. eapply wp_trapinithart; [exact E1|]. split; [split|].
  - by stage_of H.
  - exists (set_csr Csr.stvec kernelvec h). cbn. rewrite lookup_insert_eq, fn_lookup_insert, fn_lookup_insert_ne by done. by split_and!.
  - intros c Hc. cbn. by rewrite lookup_insert_ne.
Qed.

(** *** The interrupt controller *)
Lemma plic_word a v d b : (∀ h, a ≠ PLIC_SCLAIM h) → word (reg_write a v d) b = if decide (b = a) then v else word d b.
Proof using Type. intros Ha. by apply (write_law a v d b). Qed.
Lemma wp_plicinithart c (Q : unit → D → Prop) d : valid c →
  (∀ d', enabled c d' → (∀ a, a ≠ PLIC_SENABLE (Z.of_nat c) → a ≠ PLIC_SPRIORITY (Z.of_nat c) → word d' a = word d a) → Q tt d') →
  wp (plicinithart (Z.of_nat c)) Q d.
Proof using Type.
  intros Hc HQ. unfold valid, NCPU in Hc. unfold plicinithart, wr32. apply wp_bind, wp_modify, wp_modify.
  assert (∀ h, PLIC_SENABLE (Z.of_nat c) ≠ PLIC_SCLAIM h ∧ PLIC_SPRIORITY (Z.of_nat c) ≠ PLIC_SCLAIM h ∧ PLIC_SENABLE (Z.of_nat c) ≠ PLIC_SPRIORITY (Z.of_nat c)) as Hne.
  { intros h. unfold PLIC_SENABLE, PLIC_SPRIORITY, PLIC_SCLAIM, Plic.PLIC. lia. }
  apply HQ.
  - split; rewrite !plic_word by apply Hne; [rewrite decide_False by apply (Hne 0)|]; by rewrite decide_True.
  - intros a H1 H2. rewrite !plic_word by apply Hne. by rewrite !decide_False.
Qed.
Lemma first_plicinit : first_call Plicinit 7.
Proof using Type.
  intros m [H Hh]. cbn [exec]. unfold on_plic, plicinit, wr32. apply wp_lift, wp_bind, wp_modify, wp_modify.
  assert (∀ h k, 0 ≤ k < 1024 → PLIC + k * 4 ≠ PLIC_SCLAIM h) as Hne by (intros h k Hk; unfold PLIC_SCLAIM, Plic.PLIC; lia). split; [split|done].
  - stage_of H. intros _. unfold PLIC_PRIORITY.
    split; rewrite !plic_word by (intros h; by apply (Hne h)); [rewrite decide_False by done|]; by rewrite decide_True.
  - destruct Hh as (h & E1 & E2 & E3 & E4 & E5). by exists h.
Qed.
(** The number of a hart, and what [plicinithart] of one hart leaves. *)
Lemma wp_cpuid c (Q : Z → M → Prop) m h : valid c → harts (m_sst m) !! c = Some h → regs h Reg.tp = Z.of_nat c →
  Q (Z.of_nat c) (with_hart c h m) → wp (on_sst (cpuid c)) Q m.
Proof using Type.
  intros Hc Hh Ht HQ. unfold on_sst, cpuid, on_hart, r_tp. apply wp_lift, wp_bind, wp_bind, wp_gets. rewrite Hh. apply wp_lift, wp_gets, wp_ret.
  rewrite Ht. unfold s32. rewrite swrap_small by (unfold valid, NCPU in Hc; lia). done.
Qed.
Lemma first_plicinithart : first_call Plicinithart 6.
Proof using Type.
  intros m [H (h & E1 & E2 & E3 & E4 & E5)]. cbn [exec]. apply wp_bind. eapply (wp_cpuid 0 _ _ h); [done|exact E1|exact E2|].
  unfold on_plic. apply wp_lift, (wp_plicinithart 0); [done|]. intros d' He Ho. split; [split|].
  - stage_of H. intros _. specialize (sg_prio0 ltac:(lia)). cbn in Ho. rewrite !Ho by done. done.
  - exists h. cbn. rewrite lookup_insert_eq. by split_and!.
  - intros c Hc. cbn. by rewrite lookup_insert_ne.
Qed.

(** *** Tables of the kernel *)
Lemma first_procinit : first_call Procinit 10.
Proof using Type.
  intros m [H Hh]. cbn [exec]. unfold procinit. apply wp_bind. lock m1 HS1. apply wp_bind. lock m2 HS2. apply wp_bind.
  apply (wp_for_each (λ _ m', stage 11 m' ∧ harts (m_sst m') = harts (m_sst m) ∧ m_kpt m' = m_kpt m ∧ m_plic m' = m_plic m)).
  - split_and!; [done|congruence..].
  - intros j m3 _ (HS3 & E1 & E2 & E3). lock m4 HS4. split_and!; [done|congruence..].
  - intros m3 (HS3 & E1 & E2 & E3). unfold on_kern. apply wp_lift.
    eapply wp_mono; [apply procinit_total; apply (sg_table _ _ HS3)|]. intros [] s' (Ef & En & El & Eu). quiet m.
    stage_of HS3; unfold mapped, mem, kmem, cache, inodes in *; cbn [m_kern m_kpt]; rewrite Ef; keep.
Qed.
Lemma first_binit : first_call Binit 5.
Proof using Type.
  intros m [H Hh]. cbn [exec]. apply wp_bind. lock m1 HS1. unfold on_kern, on_fs, on_files, on_below, on_store, bio. do 5 apply wp_lift.
  destruct (sg_cache _ _ HS1 ltac:(lia)) as (z & d & pid & E). unfold cache in E. rewrite E. eapply wp_mono; [apply binit_inv|].
  intros [] x (Hx & _). quiet m. stage_of HS1. intros _. by exists d.
Qed.
Lemma first_iinit : first_call Iinit 4.
Proof using Type.
  intros m [H Hh]. cbn [exec]. apply wp_bind. lock m1 HS1. unfold on_kern, on_fs, on_files, on_below. do 3 apply wp_lift.
  destruct (sg_inodes _ _ HS1 ltac:(lia)) as [Hl Hr]. eapply wp_mono; [by apply iinit_total|]. intros [] s' (t & -> & Ht). quiet m. by stage_of HS1.
Qed.

(** Pages are taken, and the kernel's tables are among those in use. *)
Lemma mapped_taken A stacks O l k n m m' O' l' : mapped_by A stacks O l (mem m) (m_kpt m) → (k + n ≤ length l)%nat → m_kpt m' = m_kpt m →
  taken kend k O l (mem m) (mem m') O' l' → mapped n m'.
Proof using All.
  intros [Hsp Ho Hsub Hst Hlf] Hlen Ek [Ho' Hs' Hfr Hl']. exists A, stacks, O', l'. split; [|lia].
  split; [|done|set_solver|done|done]. rewrite Ek. eapply Space_frame; [exact Hsp|]. intros q Hq. apply Hfr. set_solver.
Qed.
Lemma wp_page (Q : Z → M → Prop) n m : mapped (S n) m →
  (∀ q x, q ≠ 0 → let m' := Machine (m_sst m) (with_mem x (m_kern m)) (m_uart m) (m_plic m) (m_disk m) (m_devsw m) (m_locking m) (m_kpt m) (m_started m) in
    mapped n m' → Q q m') → wp (on_kern (on_pages kalloc)) Q m.
Proof using All.
  intros (A & stacks & O & l & Hm & Hlen) HQ. unfold on_kern. apply wp_lift, wp_on_pages.
  eapply wp_mono; [apply (kalloc_taken kend _ O l (mb_owned _ _ _ _ _ _ Hm)); by destruct l; [simpl in Hlen; lia|]|].
  intros q x (Hq & _ & _ & l' & HT). apply HQ; [done|]. eapply (mapped_taken _ _ _ _ 1); [exact Hm|done|done|exact HT].
Qed.

Lemma first_virtio : first_call Virtio_disk_init 2.
Proof using All.
  intros m [H Hh]. cbn [exec]. unfold virtio_disk_init. apply wp_bind. lock m1 HS1. pose proof (sg_map _ _ HS1 ltac:(lia)) as Hm.
  apply wp_bind, (wp_page _ 13); [done|]. intros q1 x1 Hq1 m2 Hm2. apply wp_bind, (wp_page _ 12); [done|]. intros q2 x2 Hq2 m3 Hm3.
  apply wp_bind, (wp_page _ 11); [done|]. intros q3 x3 Hq3 m4 Hm4. unfold on_disk. apply wp_lift.
  unfold Virtio.virtio_disk_init, wr. destruct HR as [(-> & -> & -> & ->) HF -> HN]. cbn [Z.eqb Pos.eqb andb negb].
  apply wp_bind, wp_panic_if; [done|]. wp_steps. apply wp_panic_if; [by apply Z.eqb_neq|]. wp_steps. apply wp_panic_if; [done|].
  unfold NUM in HN. wp_steps. apply wp_panic_if; [apply Z.eqb_neq; lia|]. wp_steps. apply wp_panic_if; [by apply Z.ltb_ge|]. wp_steps.
  apply wp_panic_if; [by rewrite !(proj2 (Z.eqb_neq _ _)) by done|]. wp_steps. apply (wp_for_each (λ _ _, True)); [done|intros; by apply wp_modify|].
  intros d _. apply wp_modify. quiet m. by stage_of HS1.
Qed.
Lemma first_userinit : first_call Userinit 1.
Proof using All.
  intros m [H Hh]. cbn [exec]. unfold on_kern. apply wp_lift. pose proof (sg_disk _ _ H eq_refl) as Hm.
  destruct Hm as (A & stacks & O & l & Hm & Hlen). pose proof (sg_unused _ _ H ltac:(lia)) as Hu. pose proof (sg_table _ _ H) as HT.
  destruct (sg_inodes _ _ H ltac:(lia)) as [Hil Hir]. destruct (procs (m_kern m)) as [|x t] eqn:Ep; [done|]. apply Forall_cons in Hu as [Hx Ht].
  destruct HL as [_ Hte Hke Htal Htr]. assert (inodes m ≠ []) as Hne by (intros E; by rewrite E in Hil).
  eapply wp_mono; [apply (userinit_enough kend trampoline forkret Htal ltac:(unfold KERNBASE in *; lia) (m_kern m) x O l)|]; try done.
  { by rewrite Ep. }
  { by apply (sg_pid _ _ H ltac:(lia)). }
  { apply (mb_owned _ _ _ _ _ _ Hm). }
  intros [] s' (Es & (y & Ey & Hy & Hc) & O' & l' & HT'). quiet m.
  assert (mapped 0 (Machine (m_sst m) s' (m_uart m) (m_plic m) (m_disk m) (m_devsw m) (m_locking m) (m_kpt m) (m_started m))) as Hm'
    by (eapply (mapped_taken _ _ _ _ 10); [exact Hm|lia|done|exact HT']).
  rewrite Ep in Ey. stage_of H.
  - rewrite Ey. exact HT.
  - intros _. exists y, t. by rewrite Ey, Hc.
  - intros _. unfold cache in *. cbn [m_kern]. rewrite Es. keep.
Qed.
(** Code that returns, or waits for the UART while that is busy. *)
Definition waits {A} (f : K M A) (Q : A → M → Prop) m : Prop :=
  match f m with
  | Ok (a, m') => Q a m'
  | Prelude.Sleep _ => credit (m_uart m) = 0%nat
  | _ => False
  end.
Lemma waits_wp {A} (f : K M A) Q m : wp f Q m → waits f Q m.
Proof using Type. unfold wp, waits. by destruct (f m) as [[a m']| | | |]. Qed.
Lemma waits_bind {A A'} (f : K M A) (g : A → K M A') Q m : waits f (λ a m', wp (g a) Q m') m → waits (f ≫= g) Q m.
Proof using Type.
  unfold wp, waits, mbind, K_bind. destruct (f m) as [[a m']| | | |]; try done. by destruct (g a m') as [[a' m'']| | | |].
Qed.
Lemma waits_mono {A} (f : K M A) (Q Q' : A → M → Prop) m : waits f Q m → (∀ a m', Q a m' → Q' a m') → waits f Q' m.
Proof using Type. unfold waits. destruct (f m) as [[a m']| | | |]; naive_solver. Qed.
Lemma waits_elim {A} (f : K M A) Q m a m' : waits f Q m → f m = Ok (a, m') → Q a m'.
Proof using Type. unfold waits. intros H E. by rewrite E in H. Qed.

(** *** Output *)
Lemma waits_putc ch (Q : unit → M → Prop) c r m : stage r m →
  (∀ m', (∀ r', stage r' m → stage r' m') → harts (m_sst m') = harts (m_sst m) → m_kpt m' = m_kpt m → m_plic m' = m_plic m → Q tt m') →
  waits (exec kend etext trampoline forkret kernelvec R c (Putc ch)) Q m.
Proof using Type.
  intros H HQ. cbn [exec]. unfold waits, on_uart, lift, uartputc_sync, ReadReg, WriteReg. unfold mbind, K_bind, gets, modify. cbn.
  rewrite (sg_uart _ _ H). unfold mret, K_ret, id. cbn.
  destruct (credit (m_uart m) =? 0)%nat eqn:Ec; [by destruct (bool_decide _); apply Nat.eqb_eq in Ec|].
  replace (Z.land _ LSR_TX_IDLE =? 0) with false by (by destruct (bool_decide _)). apply HQ; [|done..]. intros r' Hr. by stage_of Hr.
Qed.
Lemma first_putc ch r m : (14 ≤ r)%nat → first_at (S r) m →
  waits (exec kend etext trampoline forkret kernelvec R 0 (Putc ch)) (λ _ m', first_at r m' ∧ same_harts m m') m.
Proof using Type.
  intros Hr [H Hh]. eapply waits_putc; [exact H|]. intros m' Hs E1 E2 E3. quiet m. apply Hs. by stage_of H.
Qed.

(** The calls of [main] in their order. *)
Lemma first_next x l : suffix (x :: l) main_first →
  match x with
  | Consoleinit => length l = 39 | Printfinit => length l = 38 | Putc _ => 14 ≤ length l
  | Kinit => length l = 13 | Kvminit => length l = 12 | Kvminithart => length l = 11 | Procinit => length l = 10
  | Trapinit => length l = 9 | Trapinithart => length l = 8 | Plicinit => length l = 7 | Plicinithart => length l = 6
  | Binit => length l = 5 | Iinit => length l = 4 | Fileinit => length l = 3 | Virtio_disk_init => length l = 2
  | Userinit => length l = 1 | Started => length l = 0
  end%nat.
Proof using Type.
  intros [k E]. assert (length k + S (length l) = 40)%nat as Hlen.
  { change 40%nat with (length main_first). rewrite E, length_app. simpl. lia. }
  assert (main_first !! length k = Some x) as Hx by (rewrite E; by apply list_lookup_middle).
  assert (length k < 40)%nat as Hk by lia. revert Hlen Hx. generalize (length l). generalize dependent (length k). clear.
  intros i Hi j Hlen Hx. assert (j = 39 - i)%nat as -> by lia. clear Hlen.
  do 40 (destruct i as [|i]; [vm_compute in Hx; injection Hx as <-; vm_compute; lia|]). lia.
Qed.

Lemma first_step x l m : suffix (x :: l) main_first → first_at (S (length l)) m →
  waits (exec kend etext trampoline forkret kernelvec R 0 x) (λ _ m', first_at (length l) m' ∧ same_harts m m') m.
Proof using All.
  intros Hx%first_next. destruct x; try rewrite Hx; [| |by apply first_putc|..]; intros Hm; apply waits_wp.
  - exact (first_consoleinit 39 ltac:(lia) m Hm).
  - exact (first_printfinit 38 ltac:(lia) m Hm).
  - exact (first_kinit m Hm).
  - exact (first_kvminit m Hm).
  - exact (first_kvminithart m Hm).
  - exact (first_procinit m Hm).
  - exact (first_trapinit m Hm).
  - exact (first_trapinithart m Hm).
  - exact (first_plicinit m Hm).
  - exact (first_plicinithart m Hm).
  - exact (first_binit m Hm).
  - exact (first_iinit m Hm).
  - exact (first_fileinit m Hm).
  - exact (first_virtio m Hm).
  - exact (first_userinit m Hm).
  - exact (first_started m Hm).
Qed.

(** *** The other harts *)
Lemma other_next c x l : valid c → suffix (x :: l) (main_other (Z.of_nat c)) →
  match x with
  | Putc _ => 3 ≤ length l | Kvminithart => length l = 2 | Trapinithart => length l = 1 | Plicinithart => length l = 0 | _ => False
  end%nat.
Proof using Type.
  unfold valid, NCPU. intros Hc [k E]. assert (length k + S (length l) = 19)%nat as Hlen.
  { transitivity (length (main_other (Z.of_nat c))); [rewrite E, length_app; simpl; lia|].
    clear E. do 8 (destruct c as [|c]; [by vm_compute|]). lia. }
  assert (main_other (Z.of_nat c) !! length k = Some x) as Hx by (rewrite E; by apply list_lookup_middle).
  assert (length k < 19)%nat as Hk by lia. revert Hlen Hx. generalize (length l). generalize dependent (length k). clear -Hc.
  intros i Hi j Hlen Hx. assert (j = 18 - i)%nat as -> by lia. clear Hlen.
  do 8 (destruct c as [|c]; [do 19 (destruct i as [|i]; [vm_compute in Hx; injection Hx as <-; vm_compute; (lia || done)|]); lia|]). lia.
Qed.

Definition keeps (c : nat) m m' : Prop := ∀ c' kv tv pl, c' ≠ c → hart_at c' kv tv pl m → hart_at c' kv tv pl m'.
Definition other_left (c r : nat) m : Prop := hart_at c (r <=? 2)%nat (r <=? 1)%nat (r <=? 0)%nat m.

Lemma keeps_same c m m' : (∀ c', c' ≠ c → harts (m_sst m') !! c' = harts (m_sst m) !! c') → m_kpt m' = m_kpt m →
  (∀ c', c' ≠ c → enabled c' (m_plic m) → enabled c' (m_plic m')) → keeps c m m'.
Proof using Type. intros E1 E2 E3 c' kv tv pl Hne Hc'. eapply hart_at_same; [exact Hc'|by apply E1|done|]. intros _. by apply E3. Qed.
Lemma keeps_hart c h m : keeps c m (with_hart c h m).
Proof using Type. apply keeps_same; [|done|done]. intros c' Hne. cbn. by rewrite lookup_insert_ne. Qed.

Lemma other_step c x l m : valid c → suffix (x :: l) (main_other (Z.of_nat c)) → stage 0 m → other_left c (S (length l)) m →
  waits (exec kend etext trampoline forkret kernelvec R c x) (λ _ m', stage 0 m' ∧ other_left c (length l) m' ∧ keeps c m m') m.
Proof using Type.
  intros Hc Hx%(other_next c x l Hc) H Hh. destruct x; try (exfalso; exact Hx); [| | |].
  - eapply waits_putc; [exact H|]. intros m' Hs E1 E2 E3. split; [by apply Hs|]. split.
    + unfold other_left in *. rewrite (proj2 (Nat.leb_gt _ 2)), (proj2 (Nat.leb_gt _ 1)), (proj2 (Nat.leb_gt _ 0)) in Hh by lia.
      rewrite (proj2 (Nat.leb_gt _ 2)), (proj2 (Nat.leb_gt _ 1)), (proj2 (Nat.leb_gt _ 0)) by lia. eapply hart_at_same; [exact Hh|by rewrite E1|done|by rewrite E3].
    + apply keeps_same; [by rewrite E1|done|by rewrite E3].
  - apply waits_wp. cbn [exec]. unfold other_left in *. rewrite Hx in *. destruct Hh as (h & E1 & E2 & E3 & E4 & E5).
    eapply wp_kvminithart; [exact E1|]. split; [by apply stage_hart|]. split.
    + exists (set_csr Csr.satp (MAKE_SATP (m_kpt m)) h). cbn. rewrite lookup_insert_eq, fn_lookup_insert. by split_and!.
    + apply keeps_hart.
  - apply waits_wp. cbn [exec]. unfold other_left in *. rewrite Hx in *. destruct Hh as (h & E1 & E2 & E3 & E4 & E5).
    eapply wp_trapinithart; [exact E1|]. split; [by apply stage_hart|]. split.
    + exists (set_csr Csr.stvec kernelvec h). cbn. rewrite lookup_insert_eq, fn_lookup_insert, fn_lookup_insert_ne by done. by split_and!.
    + apply keeps_hart.
  - apply waits_wp. cbn [exec]. unfold other_left in *. rewrite Hx in *. destruct Hh as (h & E1 & E2 & E3 & E4 & E5). apply wp_bind.
    eapply (wp_cpuid c _ _ h); [done|exact E1|exact E2|]. unfold on_plic. apply wp_lift, wp_plicinithart; [done|]. intros d' He Ho. cbn in Ho. split; [|split].
    + stage_of H. intros _. specialize (sg_prio0 ltac:(lia)). unfold PLIC_PRIORITY, PLIC_SENABLE, PLIC_SPRIORITY, Plic.PLIC, UART0_IRQ, VIRTIO0_IRQ in *. by rewrite !Ho by lia.
    + exists h. cbn. rewrite lookup_insert_eq. by split_and!.
    + apply keeps_same; [intros c' Hne; cbn; by rewrite lookup_insert_ne|done|]. intros c' Hne [H1 H2]. cbn. unfold enabled, PLIC_SENABLE, PLIC_SPRIORITY, Plic.PLIC in *. rewrite !Ho by lia. done.
Qed.

(** *** All harts *)
Definition first_loc (x : hloc) (r : nat) : Prop :=
  match x with
  | Main => r = length main_first
  | Calls l => suffix l main_first ∧ r = length l
  | Scheduler => r = 0%nat
  | Spin => False
  end.
Definition other_loc (c : nat) (x : hloc) (r : nat) m : Prop :=
  match x with
  | Main | Spin => hart_at c false false false m
  | Calls l => r = 0%nat ∧ suffix l (main_other (Z.of_nat c)) ∧ other_left c (length l) m
  | Scheduler => r = 0%nat ∧ hart_at c true true true m
  end.
Definition boot_inv (b : @boot D) : Prop := ∃ r, first_loc (b_at b 0%nat) r ∧ first_at r (b_mach b) ∧
  ∀ c, valid c → c ≠ 0%nat → other_loc c (b_at b c) r (b_mach b).

Lemma boot_inv_init b : powered b → boot_inv b.
Proof using Type.
  intros [Hat Hh Hc Hl Hm [Hp Hn] Hca Hi Hu Hs]. exists (length main_first). rewrite Hat. split; [done|]. change (length main_first) with 40%nat. split; [split|].
  - split; try done; intros; lia.
  - destruct (Hh 0%nat ltac:(done)) as (h & E1 & E2 & E3). exists h. by split_and!.
  - intros c Hv _. rewrite Hat. destruct (Hh c Hv) as (h & E1 & E2 & E3). exists h. by split_and!.
Qed.

Lemma other_loc_same c c' x r m m' : keeps c' m m' → c ≠ c' → other_loc c x r m → other_loc c x r m'.
Proof using Type.
  intros HK Hc. assert (∀ kv tv pl, hart_at c kv tv pl m → hart_at c kv tv pl m') as HH by (intros kv tv pl; by apply HK).
  destruct x; cbn; unfold other_left; naive_solver.
Qed.
Lemma other_loc_wait c x r m m' : same_harts m m' → c ≠ 0%nat → other_loc c x (S r) m → ∀ r', other_loc c x r' m'.
Proof using Type.
  intros HK Hc. assert (hart_at c false false false m → hart_at c false false false m') as HH.
  { intros H. eapply hart_at_same; [exact H|by apply HK|done|done]. }
  intros Hx r'. destruct x; cbn in *; [tauto|tauto|by destruct Hx|by destruct Hx].
Qed.

Lemma main_zero x r m : first_loc x r → first_at r m → waits (main kend etext trampoline forkret kernelvec R 0 x) (λ x' m', ∃ r', first_loc x' r' ∧ first_at r' m' ∧
  ∀ c y, c ≠ 0%nat → other_loc c y r m → other_loc c y r' m') m.
Proof using All.
  intros Hx Hm. destruct x as [| |[|y l]|]; cbn [first_loc] in Hx; cbn [main].
  - subst r. destruct Hm as [HS Hh]. pose proof Hh as (h & E1 & E2 & _). apply waits_wp, wp_bind. eapply (wp_cpuid 0 _ _ h); [done|exact E1|exact E2|].
    apply wp_ret. exists (length main_first). cbn [Z.eqb Z.of_nat]. split; [by split|]. split.
    + split; [by apply stage_hart|]. eapply hart_at_same; [exact Hh|cbn; by rewrite lookup_insert_eq|done|done].
    + intros c y Hc Hy. by eapply (other_loc_same c 0); [apply keeps_hart| |].
  - done.
  - destruct Hx as [_ ->]. apply waits_wp, wp_ret. exists 0%nat. by split_and!.
  - destruct Hx as [Hsuf ->]. apply waits_bind. eapply waits_mono; [by apply first_step|]. intros [] m' [Hm' HK]. apply wp_ret. exists (length l). split; [|split; [done|]].
    + split; [|done]. etrans; [|exact Hsuf]. by apply suffix_cons_r.
    + intros c z Hc Hz. by eapply other_loc_wait.
  - subst r. apply waits_wp, wp_ret. exists 0%nat. by split_and!.
Qed.

Lemma main_other_spec c x r m : valid c → c ≠ 0%nat → stage r m → other_loc c x r m →
  waits (main kend etext trampoline forkret kernelvec R c x) (λ x' m', other_loc c x' r m' ∧ stage r m' ∧ keeps c m m') m.
Proof using Type.
  intros Hv Hc HS Hx. assert (keeps c m m) as HK by (by intros c' kv tv pl _). destruct x as [| |[|y l]|]; cbn [main].
  - pose proof Hx as (h & E1 & E2 & _). apply waits_wp, wp_bind. eapply (wp_cpuid c _ _ h); [done|exact E1|exact E2|]. apply wp_ret.
    rewrite (proj2 (Z.eqb_neq _ _)) by lia. split; [|split; [by apply stage_hart|apply keeps_hart]].
    eapply hart_at_same; [exact Hx|cbn; by rewrite lookup_insert_eq|done|done].
  - apply waits_wp, wp_bind, wp_gets. rewrite (sg_started _ _ HS). destruct (r =? 0)%nat eqn:Er; [|by apply wp_ret]. apply Nat.eqb_eq in Er as ->.
    pose proof Hx as (h & E1 & E2 & _). apply wp_bind. eapply (wp_cpuid c _ _ h); [done|exact E1|exact E2|]. apply wp_ret.
    split; [|split; [by apply stage_hart|apply keeps_hart]]. cbn [other_loc]. split; [done|]. split; [done|]. unfold other_left.
    assert (length (main_other (Z.of_nat c)) = 19)%nat as ->; [|eapply hart_at_same; [exact Hx|cbn; by rewrite lookup_insert_eq|done|done]].
    clear -Hv. unfold valid, NCPU in Hv. do 8 (destruct c as [|c]; [by vm_compute|]). lia.
  - apply waits_wp, wp_ret. destruct Hx as (-> & _ & Hx). by split_and!.
  - destruct Hx as (-> & Hsuf & Hx). apply waits_bind. eapply waits_mono; [by apply other_step|]. intros [] m' (HS' & Hh' & HK'). apply wp_ret.
    split; [|done]. split; [done|]. split; [|done]. etrans; [|exact Hsuf]. by apply suffix_cons_r.
  - by apply waits_wp, wp_ret.
Qed.

Lemma boot_inv_step b b' : boot_inv b → bstep kend etext trampoline forkret kernelvec R b b' → boot_inv b'.
Proof using All.
  intros (r & H0 & Hf & HO) [c x m Hv Hrun|m Hrun].
  - destruct (decide (c = 0%nat)) as [->|Hc].
    + apply (waits_elim _ _ _ _ _ (main_zero _ _ _ H0 Hf)) in Hrun as (r' & H0' & Hf' & HK). exists r'. cbn. rewrite fn_lookup_insert.
      split_and!; [done|done|]. intros c Hv' Hc. rewrite fn_lookup_insert_ne by done. apply HK; [done|]. by apply HO.
    + apply (waits_elim _ _ _ _ _ (main_other_spec c _ r _ Hv Hc (proj1 Hf) (HO c Hv Hc))) in Hrun as (Hx & HS & HK). exists r. cbn.
      rewrite fn_lookup_insert_ne by done. split_and!; [done|split; [done|]|].
      * apply HK; [done|]. apply Hf.
      * intros c' Hv' Hc'. destruct (decide (c' = c)) as [->|Hne]; [by rewrite fn_lookup_insert|]. rewrite fn_lookup_insert_ne by done.
        eapply (other_loc_same c' c); [exact HK|done|by apply HO].
  - unfold on_uart, lift in Hrun. cbn in Hrun. injection Hrun as <-. exists r. destruct Hf as [HS Hh]. split_and!; [done|split|].
    + by stage_of HS.
    + done.
    + intros c Hv Hc. cbn. eapply (other_loc_same c 0); [|done|by apply HO]. by apply keeps_same.
Qed.
Lemma breach_inv b : breach b → boot_inv b.
Proof using All. induction 1 as [b Hp|b b' _ IH Hs]; [by apply boot_inv_init|by eapply boot_inv_step]. Qed.

(** *** What the harts find *)
(** The hardware finds the kernel's address space in the table [root]. *)
Definition kernel_table (x : pst) (root : Z) : Prop := ∃ stacks, length stacks = 64%nat ∧ NoDup stacks ∧
  ∀ va, 0 ≤ va < MAXVA → mmu (pages x) 2 root va = pair 0%nat <$> kernel_page etext trampoline stacks (page_of va).
Lemma mapped_table n m : mapped n m → kernel_table (mem m) (m_kpt m).
Proof using Type.
  intros (A & stacks & O & l & [Hsp _ _ (Hl & Hnd & _) Hlf] & _). exists stacks. split_and!; [done|done|]. intros va Hva.
  rewrite (mmu_space _ _ _ _ Hsp) by done. by rewrite Hlf.
Qed.
Lemma stage_table r m : stage r m → (r ≤ 12)%nat → kernel_table (mem m) (m_kpt m).
Proof using Type.
  intros [_ _ _ _ _ _ Ha Hb Hc] Hr. destruct (decide (r ≤ 1)%nat); [by eapply mapped_table, Hc|].
  destruct (decide (r = 2)%nat); [by eapply mapped_table, Hb|]. eapply mapped_table, Ha. lia.
Qed.

(** The processors and the processes for [scheduler]: a process starts where its
    context says. *)
Definition mach_of m : mach :=
  Mach (m_sst m) (λ _, None) (λ _, SStart)
    (λ p, default UNUSED (p_state <$> procs (m_kern m) !! p)) (λ p, default NoChan (p_chan <$> procs (m_kern m) !! p))
    (λ p, (Env ∅ false None, if bool_decide ((λ y, (p_context y).1) <$> procs (m_kern m) !! p = Some forkret) then Forkret else Run))
    (λ _, Sch SStart).
Lemma stage_minit m : stage 0 m → (∀ c, valid c → ∃ h, harts (m_sst m) !! c = Some h ∧ regs h Reg.tp = Z.of_nat c) → minit (mach_of m).
Proof using Type.
  intros HS Hh. split; [done| |by apply (sg_locks _ _ HS)|].
  - intros c Hc. split; [apply (sg_cpus _ _ HS)|by apply Hh].
  - intros p. cbn. destruct (sg_first _ _ HS ltac:(lia)) as (y & t & -> & Hy & Hc & Ht). destruct p as [|p]; cbn.
    + right. split; [done|]. by rewrite bool_decide_true by (by rewrite Hc).
    + left. destruct (t !! p) as [z|] eqn:Ez; [|done]. exact (Forall_lookup_1 _ _ _ _ Ht Ez).
Qed.

(** *** Progress *)
Abbreviation step := (bstep kend etext trampoline forkret kernelvec R).
Abbreviation hart_main := (main kend etext trampoline forkret kernelvec R).
Lemma inv_waits b c : boot_inv b → valid c → waits (hart_main c (b_at b c)) (λ _ _, True) (b_mach b).
Proof using All.
  intros (r & H0 & Hf & HO) Hv. destruct (decide (c = 0%nat)) as [->|Hc].
  - eapply waits_mono; [by apply main_zero|]. done.
  - eapply waits_mono; [apply (main_other_spec c _ r _ Hv Hc (proj1 Hf) (HO c Hv Hc))|]. done.
Qed.

(** A hart can move, perhaps after the UART has sent a byte. *)
Lemma advance b c : boot_inv b → valid c → ∃ b1 x m, rtc step b b1 ∧ b_at b1 = b_at b ∧ boot_inv b1 ∧ hart_main c (b_at b c) (b_mach b1) = Ok (x, m).
Proof using All.
  intros HI Hv. pose proof (inv_waits b c HI Hv) as HW. unfold waits in HW. destruct (hart_main c (b_at b c) (b_mach b)) as [[x m]| |w| |] eqn:E; try done.
  { exists b, x, m. split_and!; done. }
  epose proof (bs_uart kend etext trampoline forkret kernelvec R b _ eq_refl) as Hs. match type of Hs with bstep _ _ _ _ _ _ _ ?y => set (b1 := y) in * end.
  pose proof (boot_inv_step _ _ HI Hs) as HI1. pose proof (inv_waits b1 c HI1 Hv) as HW1. unfold waits in HW1. cbn [b_at b1] in HW1.
  destruct (hart_main c (b_at b c) (b_mach b1)) as [[x m]| |w1| |] eqn:E1; try done.
  exists b1, x, m. split_and!; [by apply rtc_once|done|done|done].
Qed.

(** The steps a hart has left. *)
Definition weight (x : hloc) : nat := match x with Main => 100 | Spin => 60 | Calls l => S (length l) | Scheduler => 0 end.
Lemma suffix_le {A} (l k : list A) : suffix l k → (length l ≤ length k)%nat.
Proof using Type. intros [j ->]. rewrite length_app. lia. Qed.
Lemma main_lighter b c x m : boot_inv b → valid c → c = 0%nat ∨ b_at b 0%nat = Scheduler → hart_main c (b_at b c) (b_mach b) = Ok (x, m) →
  b_at b c ≠ Scheduler → (weight x < weight (b_at b c))%nat.
Proof using All.
  intros HI Hv H0 Hrun Hne. pose proof HI as (r & Hz & Hf & HO). destruct (b_at b c) as [| |[|y l]|] eqn:Ec; [..|done].
  - cbn in Hrun. unfold mbind, K_bind in Hrun. destruct (on_sst _ _) as [[id m']| | | |]; [|done..]. injection Hrun as <- _.
    destruct (id =? 0); vm_compute; lia.
  - destruct H0 as [->|H0]; [by rewrite Ec in Hz|]. rewrite H0 in Hz. cbn in Hz. subst r. assert (c ≠ 0%nat) as Hc by congruence.
    specialize (HO c Hv Hc). rewrite Ec in HO.
    pose proof (waits_elim _ _ _ _ _ (main_other_spec c _ _ _ Hv Hc (proj1 Hf) HO) Hrun) as (Hx & _).
    cbn in Hrun. unfold mbind, K_bind, gets in Hrun. rewrite (sg_started _ _ (proj1 Hf)) in Hrun. cbn in Hrun.
    destruct (on_sst _ _) as [[id m']| | | |]; [|done..]. injection Hrun as <- _. destruct Hx as (_ & Hx%suffix_le & _). cbn [weight].
    assert (length (main_other (Z.of_nat c)) = 19)%nat as El; [|lia]. clear -Hv. unfold valid, NCPU in Hv. do 8 (destruct c as [|c]; [by vm_compute|]). lia.
  - injection Hrun as <- _. cbn. lia.
  - cbn [main] in Hrun. unfold mbind, K_bind in Hrun. destruct (exec _ _ _ _ _ _ _ _ _) as [[[] m']| | | |]; [|done..]. injection Hrun as <- _. cbn. lia.
Qed.

(** A hart that need not wait for hart 0 reaches the scheduler. *)
Lemma hart_finishes n : ∀ b c, boot_inv b → valid c → c = 0%nat ∨ b_at b 0%nat = Scheduler → (weight (b_at b c) ≤ n)%nat →
  ∃ b', rtc step b b' ∧ boot_inv b' ∧ b_at b' c = Scheduler ∧ ∀ c', c' ≠ c → b_at b' c' = b_at b c'.
Proof using All.
  induction n as [|n IH]; intros b c HI Hv H0 Hn; (destruct (decide (weight (b_at b c) = 0%nat)) as [E|E];
    [exists b; split_and!; [done|done|by destruct (b_at b c)|done]|]); [lia|].
  destruct (advance b c HI Hv) as (b1 & x & m & Hr1 & Ea & HI1 & Hrun). rewrite <- Ea in *.
  assert (weight x < weight (b_at b1 c))%nat by (apply (main_lighter b1 c x m); [done..|]; by intros E'; rewrite E' in E).
  pose proof (bs_hart kend etext trampoline forkret kernelvec R b1 c x m Hv Hrun) as Hs.
  destruct (IH _ c (boot_inv_step _ _ HI1 Hs) Hv) as (b' & Hr' & HI' & Hc & Hk).
  - cbn. destruct (decide (c = 0%nat)); [by left|right]. rewrite fn_lookup_insert_ne by done. naive_solver.
  - cbn. rewrite fn_lookup_insert. lia.
  - exists b'. split_and!; [|done|done|].
    + etrans; [exact Hr1|]. by eapply rtc_l.
    + intros c' Hc'. rewrite Hk by done. cbn. by rewrite fn_lookup_insert_ne.
Qed.
Lemma harts_finish cs : Forall valid cs → ∀ b, boot_inv b → b_at b 0%nat = Scheduler →
  ∃ b', rtc step b b' ∧ boot_inv b' ∧ (∀ c, c ∈ cs → b_at b' c = Scheduler) ∧ ∀ c, b_at b c = Scheduler → b_at b' c = Scheduler.
Proof using All.
  induction 1 as [|c cs Hv _ IH]; intros b HI H0.
  { exists b. split_and!; [done|done|set_solver|done]. }
  destruct (hart_finishes _ b c HI Hv (or_intror H0) (Nat.le_refl _)) as (b1 & Hr1 & HI1 & Hc & Hk).
  assert (∀ c', b_at b c' = Scheduler → b_at b1 c' = Scheduler) as Hk1.
  { intros c' Hc'. destruct (decide (c' = c)) as [->|]; [done|]. by rewrite Hk. }
  destruct (IH b1 HI1 (Hk1 _ H0)) as (b' & Hr' & HI' & Hcs & Hk'). exists b'. split_and!; [by etrans|done| |naive_solver].
  intros c' [->|Hc']%elem_of_cons; auto.
Qed.
Lemma boot_finishes b : boot_inv b → ∃ b', rtc step b b' ∧ boot_inv b' ∧ ∀ c, valid c → b_at b' c = Scheduler.
Proof using All.
  intros HI. destruct (hart_finishes _ b 0 HI ltac:(done) (or_introl eq_refl) (Nat.le_refl _)) as (b1 & Hr1 & HI1 & Hc & _).
  destruct (harts_finish (seq 0 8) ltac:(apply Forall_forall; intros c Hc'%elem_of_seq; unfold valid, NCPU; lia) b1 HI1 Hc) as (b' & Hr' & HI' & Hcs & _).
  exists b'. split_and!; [by etrans|done|]. intros c Hv. apply Hcs, elem_of_seq. unfold valid, NCPU in Hv. lia.
Qed.

(** *** The invariant, read off *)
Lemma inv_hart b c : boot_inv b → valid c → ∃ r kv tv pl, stage r (b_mach b) ∧ hart_at c kv tv pl (b_mach b) ∧
  (kv = true → (r ≤ 12)%nat) ∧ (b_at b c = Scheduler → r = 0%nat ∧ kv = true ∧ tv = true ∧ pl = true).
Proof using Type.
  intros (r & H0 & [HS Hf] & HO) Hv. destruct (decide (c = 0%nat)) as [->|Hc].
  - eexists r, _, _, _. split_and!; [done|exact Hf|intros ?%Nat.leb_le; lia|]. intros E. rewrite E in H0. cbn in H0. by subst r.
  - specialize (HO c Hv Hc). destruct (b_at b c) as [| |l|]; cbn in HO.
    1, 2: by exists r, false, false, false.
    + destruct HO as (-> & _ & HO). eexists 0%nat, _, _, _. split_and!; [done|exact HO|lia|done].
    + destruct HO as (-> & HO). exists 0%nat, true, true, true. split_and!; [done..|lia|done].
Qed.
Lemma inv_paging b c h : boot_inv b → valid c → harts (m_sst (b_mach b)) !! c = Some h → csrs h Csr.satp ≠ 0 →
  csrs h Csr.satp = MAKE_SATP (m_kpt (b_mach b)) ∧ kernel_table (mem (b_mach b)) (m_kpt (b_mach b)).
Proof using Type.
  intros HI Hv Hh Hne. destruct (inv_hart b c HI Hv) as (r & kv & tv & pl & HS & (h' & E1 & _ & E2 & _) & Hr & _).
  rewrite Hh in E1. injection E1 as <-. destruct kv; [|done]. split; [done|]. apply (stage_table r); [done|by apply Hr].
Qed.
Lemma inv_arrived b c : boot_inv b → valid c → b_at b c = Scheduler → hart_at c true true true (b_mach b).
Proof using Type.
  intros HI Hv E. destruct (inv_hart b c HI Hv) as (r & kv & tv & pl & _ & Hh & _ & Hs). by destruct (Hs E) as (_ & -> & -> & ->).
Qed.
Lemma inv_minit b : boot_inv b → (∀ c, valid c → b_at b c = Scheduler) → minit (mach_of (b_mach b)).
Proof using Type.
  intros HI Hall. destruct (inv_hart b 0 HI ltac:(done)) as (r & kv & tv & pl & HS & _ & _ & Hs). destruct (Hs (Hall 0%nat ltac:(done))) as [-> _].
  apply stage_minit; [done|]. intros c Hv. destruct (inv_arrived b c HI Hv (Hall c Hv)) as (h & E1 & E2 & _). by exists h.
Qed.
End boot.

(** C4. The kernel boots, for a machine with 200 pages above the kernel and a disk
    that answers, in any interleaving of the eight harts.  No call of [main]
    panics, and a hart waits only in the output of a character while the UART is
    busy.  A hart that has turned on paging uses the table of [kvminit], in which
    the hardware finds the address space of the kernel.  A hart comes to
    [scheduler] with its own number in [tp], paging on, traps going to [kernelvec]
    and the UART and the disk enabled at the PLIC.  From every state all the harts
    can come there; and when they have, the machine is an initial state of the
    scheduler: no lock is held, and the first process is the only one, runnable
    and about to start in [forkret]. *)
Theorem kernel_boots {D : Type} `{!PlicDev D, !PlicLaws D} kend etext trampoline forkret kernelvec R (b : @boot D) :
  linked kend etext trampoline → kend + 200 * PGSIZE ≤ PHYSTOP → disk_present R →
  breach kend etext trampoline forkret kernelvec R b →
  (∀ c, valid c → waits (main kend etext trampoline forkret kernelvec R c (b_at b c)) (λ _ _, True) (b_mach b)) ∧
  (∀ c h, valid c → harts (m_sst (b_mach b)) !! c = Some h → csrs h Csr.satp ≠ 0 →
    csrs h Csr.satp = MAKE_SATP (m_kpt (b_mach b)) ∧ kernel_table etext trampoline (mem (b_mach b)) (m_kpt (b_mach b))) ∧
  (∀ c, valid c → b_at b c = Scheduler → hart_at kernelvec c true true true (b_mach b)) ∧
  (∃ b', rtc (bstep kend etext trampoline forkret kernelvec R) b b' ∧ ∀ c, valid c → b_at b' c = Scheduler) ∧
  ((∀ c, valid c → b_at b c = Scheduler) → minit (mach_of forkret (b_mach b))).
Proof.
  intros HL Hend HR Hb%breach_inv; [|done..]. split_and!.
  - intros c. by apply inv_waits.
  - intros c h. by eapply inv_paging.
  - intros c. by eapply inv_arrived.
  - edestruct boot_finishes as (b' & Hr & _ & Hs); eauto.
  - by eapply inv_minit.
Qed.

(** A machine at its start, with 200 pages right after the text. *)
Definition demo_regs (a : Z) : Z :=
  if a =? VIRTIO_MMIO_MAGIC_VALUE then 0x74726976 else if a =? VIRTIO_MMIO_VENDOR_ID then 0x554d4551 else
  if a =? VIRTIO_MMIO_STATUS then 11 else if a =? VIRTIO_MMIO_QUEUE_NUM_MAX then 1024 else if a =? VIRTIO_MMIO_QUEUE_READY then 0 else 2.
Definition demo_harts : gmap nat hart :=
  list_to_map ((λ c, (c, Hart (<[Reg.tp := Z.of_nat c]> (λ _, 0)) (λ _, 0) 0 Supervisor)) <$> seq 0 8).
Definition demo_disk : vst :=
  Vst (λ _, Desc Null 0 0 0) (λ _, 0) 0 (λ _, 0) 0 (λ _, false) 0 (λ _, None) (λ _, 0) (λ _, Req 0 0 0) (λ _, Dbuf 0 0 []).
Definition demo_kern : pcb lst :=
  Pcb (Fls (Fst (Lst (static [] ∅ 0) 0 0 0 false 0 (Logheader 0 [])) mkfs_sb (replicate (Z.to_nat NINODE) ProcStep.Demo.inode0) (ram 200)) [])
    (replicate (Z.to_nat NPROC) ProcStep.Demo.proc0) 1 None 0.
Definition demo_start : @boot Plic.Controller.plic :=
  Boot (Boot.Machine (Sst demo_harts (λ _, Cpu 0 false) (λ _, Spinlock 0 "" None)) demo_kern
    (Uart (replicate 32 0) 0 0 false [] [] 0 [] false (Console.cons0 ∅)) (Plic.Controller.Plic ∅ ∅ ∅) (demo_disk, []) false false 0 false) (λ _, Main).
Lemma demo_powered : powered (ram_from 200) demo_start.
Proof.
  split; try done.
  - intros c Hv. exists (Hart (<[Reg.tp := Z.of_nat c]> (λ _, 0)) (λ _, 0) 0 Supervisor). split; [|done].
    apply elem_of_list_to_map_1; [exact (NoDup_seq 0 8)|]. apply list_elem_of_fmap. exists c. split; [done|]. apply elem_of_seq. unfold valid, NCPU in Hv. lia.
  - apply ram_ok. lia.
  - by exists [], ∅, 0.
  - split; [done|]. by apply Forall_replicate.
Qed.
Lemma breach_rtc {D : Type} `{!PlicDev D} kend etext trampoline forkret kernelvec R (b b' : @boot D) :
  breach kend etext trampoline forkret kernelvec R b → rtc (bstep kend etext trampoline forkret kernelvec R) b b' →
  breach kend etext trampoline forkret kernelvec R b'.
Proof. intros Hb Hr. induction Hr as [|b b1 b' Hs _ IH]; [done|]. apply IH. by eapply br_step. Qed.
Lemma kernel_boots_witness : ∃ b', rtc (bstep (ram_from 200) (ram_from 200) KERNBASE 0 0 demo_regs) demo_start b' ∧
  (∀ c, valid c → b_at b' c = Scheduler) ∧ minit (mach_of 0 (b_mach b')).
Proof.
  assert (linked (ram_from 200) (ram_from 200) KERNBASE) as HL by (split; by vm_compute).
  assert (disk_present demo_regs) as HR by (split; by vm_compute). assert (ram_from 200 + 200 * PGSIZE ≤ PHYSTOP) as Hend by by vm_compute.
  pose proof (br_init (ram_from 200) (ram_from 200) KERNBASE 0 0 demo_regs _ demo_powered) as Hb.
  destruct (kernel_boots _ _ _ _ _ _ _ HL Hend HR Hb) as (_ & _ & _ & (b' & Hr & Hs) & _). exists b'. split_and!; [done|done|].
  destruct (kernel_boots _ _ _ _ _ _ _ HL Hend HR (breach_rtc _ _ _ _ _ _ _ _ Hb Hr)) as (_ & _ & _ & _ & Hm). by apply Hm.
Defined.
